(* ===== verification/_CoqProject ===== *)
-Q . S2P
Prelude.v
Mem.v
Sha256.v
Format.v
Chain.v
Store.v
Keystore.v
Preserve.v
Gate.v
Protocol.v
Handshake.v
Whitelist.v
CipherCommon.v
Fips180.v
Sm4.v
Seed.v
Des.v
Camellia.v
Aes.v
Aria.v
Stream.v
Modes.v
Recover.v
RecoverCorrect.v
RecoverProps.v
RecoverFile.v
Battery.v
BatteryCorrect.v
Capture.v
EventLog.v
DriverState.v
DriverTrust.v
Comm.v
Service.v
HeapSort.v
DriverPreserve.v
PreserveTable.v
PreserveAlloc.v
PreserveRefine.v
PreserveStage.v
PreserveStore.v
StoreIo.v
KeystorePersist.v
PreservePersist.v
Calls.v
DriverRecovery.v
RecoveryFrame.v
RecoveryRestore.v
RecoveryPreserve.v
RecoveryRuns.v
Streams.v
CaptureSeam.v
Snapshot.v
CaptureWork.v
Mmap.v
Phantom.v
Operations.v
Enforce.v
Conviction.v
Limits.v
CaptureRuns.v
PhantomDir.v
PhantomMerge.v
PhantomOps.v
PhantomProps.v
PhantomUsn.v
PhantomRuns.v
Startup.v
PortClient.v
Attrib.v
Control.v
ControlProps.v
Listing.v
EventStream.v
