(* ===== verification/Prelude.v ===== *)
(** * A verification of the Semantics-AR anti-ransomware engine and driver

    Semantics-AR is a Windows file-system minifilter with a user-mode service.
    It watches destructive writes, captures the memory of the writing process,
    searches it for the key that turns the old file content into the written
    one, stores the key, and uses it to give the files back.  Before a region
    is destroyed the driver also keeps an encrypted copy of it.  This library
    models the logic of these parts in Rocq, one file per component, and
    proves what each promises and how they compose.

    ** The program and where it is modelled

    - [Prelude] (this file): C integers on [Z] with their masks, byte buffers,
      tactics and hint databases.  [Mem]: engine/src/eng_mem.h, control/src/ctl_mem.h.
    - [Sha256]: engine/src/sha256.c.  [Fips180]: SHA-256 and HMAC as the
      standards define them, apart from the code.  [Format]: the packed records of common/include.  [Chain], [Store]:
      the result type [cres] of loops with fuel and of checked reads, and the
      MAC chain both stores share.  [Keystore]: engine/src/keystore.c and
      keystore_mgr.c.  [Preserve]: engine/src/preserve.c.  [Gate]:
      engine/src/gate.c.
    - [Protocol], [Handshake], [Whitelist]: control/src, the message formats,
      the challenge-response state machine, mode and allow-list.
    - [CipherCommon], [Sm4], [Seed], [Des], [Camellia], [Aes], [Aria],
      [Stream]: engine/ciphers.  [Modes]: engine/src/modes.c.  [Recover],
      [RecoverCorrect], [RecoverProps], [RecoverFile]: engine/src/recover.c and
      engine/host/recover_file.c.  [Battery], [BatteryCorrect]:
      engine/src/battery.c.  [Capture]: capture/src/capture.c.
    - [EventLog]: driver/eventlog.c.  [DriverState]: driver/state.c,
      processnotify.c, obguard.c; [DriverTrust]: their interleavings.  [Comm]:
      driver/commport.c.  [Service]: the messages of service/control.c and
      service/autoverdict.c.
    - [StoreIo]: driver/store_io.c with an interface to the file system and
      its crashes.  [KeystorePersist]: driver/keystore_persist.c.
      [DriverPreserve]: driver/preserve.c with interfaces to the data file and
      to AES; [PreserveTable] the table under all its operations, [HeapSort]
      its sort, [PreserveAlloc] its free list,
      [PreserveRefine], [PreserveStage] and [PreserveStore] the refinement,
      [PreservePersist] its index and key file.
    - [Calls]: a monad for code that calls the file system, with rules for
      total correctness.  [DriverRecovery]: driver/recovery.c,
      service/recovery.c and the Windows replacement of a file in
      engine/host/recover_file.c; [RecoveryFrame], [RecoveryRestore],
      [RecoveryPreserve] and [RecoveryRuns] are its theorems and runs.
    - The path of a request through the driver.  [Streams]: the stream context
      and the counters of driver/seam.c and driver.h.  [CaptureSeam],
      [Snapshot], [CaptureWork], [Mmap]: driver/capture.c - the seams that keep
      old content, the copy of the memory of the writer, the worker that
      convicts it, the pages of mapped files.  [Operations]:
      driver/operations.c, the handlers the filter manager calls, which use the
      seams, the decoys and the tables of [DriverState].  [Enforce] and
      [Conviction] are the theorems over the whole path, [Limits] shows where
      they end, and [CaptureRuns] has runs.
    - The decoys of driver/phantom.c.  [Phantom]: names, attributes, content
      and numbers of decoys and the evidence against a process.  [PhantomDir]:
      the merge into a directory listing.  [PhantomOps]: the handlers.
      [PhantomMerge], [PhantomProps], [PhantomUsn] and [PhantomRuns] are the
      theorems and runs.
    - [Startup]: driver/driver.c and feature.c, the registrations of the other
      parts included: start, its error paths, unload, as a trace of calls that
      create and take away.
    - The service between its pipes and the port.  [PortClient]:
      service/commclient.c over an interface to the filter port that [Comm]
      implements.  [Attrib]: service/identity.c and attrib.c.  [Control]:
      service/control.c, the dispatcher of commands, the frames of posture and
      events.  [Listing]: the commands of tools/sarctl.c and the calls of
      frontend/sarapi/src/control_client.c.  [ControlProps], [Listing] and
      [EventStream] hold the theorems from the tool down to the driver.

    ** How definitions correspond to the code

    A definition has the name of the C function it translates; a loop that is
    not a definition of its own in C is a definition named after what it
    computes.  [uint8_t *] with a length is a list of [Z]; a struct is a
    record; the array with its counter is the list of live entries.  Casts and
    unsigned arithmetic that can wrap are written with [u8], [u16], [u32],
    [u64].  Out parameters are components of the result.  A mutable object
    behind a lock is a state that the operations take and return; a step is
    one critical section, so that a theorem over sequences of steps is one
    over all interleavings.  Answers of the operating system - pool
    allocations, random numbers, time, file contents and whether an access
    succeeds - are arguments, one per call.

    ** What the theorems show

    - Ciphers are inverted by the decryption the recovery uses, the key
      schedule search is exact, and a buffer or file encrypted in the covered
      modes is recovered from the captured key ([recover_buffer_correct],
      [captured_key_recovers_file]); recovery never damages a file it declines
      ([recover_file_never_damages]).
    - A conviction is sound (a reported key really maps the sample to what was
      written) and complete for block-cipher keys in the scanned memory.
    - The stores: verification accepts exactly the images serialization writes,
      in bounds for every input; tables keep their invariants under every
      sequence of operations; persist and load are inverse.
    - The stores on disk: replacing a file is atomic, and wherever the machine
      crashes both stores load again, without an alarm, to what was there
      before or what was being written ([store_write_atomic],
      [keystore_crash_safe], [preserve_restart]).
    - The preservation store refines a list of preserved contents
      ([preserve_store_refines]): operations are labelled with what they were
      asked, and after every sequence of them a restoration returns the bytes
      that the labels say were staged; staging in ENFORCE mode covers what it
      reports ([stage_enforce_covers]).
    - Requests in ENFORCE mode: when the old content can be read, a write that
      is let through leaves every byte it destroys in the preservation store
      ([enforce_write_preserved]), and the deletion of a file of which nothing
      is recorded the file itself ([enforce_delete_preserved]); the conditions are
      needed ([section_failure_admits], [stale_ranges_lose_content],
      [delete_after_write_lost]); a process whose
      key is in its memory is convicted by its write, and its next destructive
      request is refused ([encryptor_stopped]).  A snapshot holds the pages it
      says it does ([snapshot_holds_pages]), and what is read of a mapped file
      before its page is written is the old content ([mmap_reads_original]).
    - Decoys: a listing keeps every real entry in its order, in bounds
      ([decoys_keep_listing]), and a change journal its records
      ([usn_injection_keeps]); a listed name opens its decoy
      ([listed_decoy_opens]); an exempt process meets none
      ([exempt_meets_no_decoy]), and one that writes to decoys three times is
      stopped ([decoy_writer_stopped]).
    - Recovery in the driver and the service: a declined recovery leaves the
      target as it is, or under another name if the system has renamed it
      ([recovery_declined_intact]);
      with the captured keys, or from the preservation store, the target gets
      the original bytes ([driver_recovery_restores],
      [preserve_recovery_restores]).
    - The driver: effects need a proven peer, exemption from monitoring is
      anchored in a verdict or in system protection, handles to exempt
      processes lose the rights to manipulate them; the process table refines a
      finite map, the event ring refines the history of events.
    - Start and unload: a start that fails leaves nothing behind, and unloading
      takes every part away once and not while it is used
      ([driver_start_unload]).
    - The control channel: only a verified file that is no interpreter gets on
      the allow-list, as it was evaluated ([control_allows_verified]); the
      listing tool prints every record of the keystore once and in order
      ([sarctl_lists_keystore]); the stream of events delivers the history in
      order and marks what was lost ([events_stream_faithful]).
    - Findings are theorems about concrete or general runs in which the code
      departs from its documentation or purpose; they say "error" in the
      manifest.

    ** Bounds and fuel

    Loops that are not structural carry fuel computed from the input: [count +
    1] rounds where every round passes or removes a record, the buffer length
    where every round consumes bytes, the number of array elements where an
    index strictly grows; the sift of the heap sort gets the length of the
    array, staging one round more than bytes in the region, a loop over pieces of
    four megabytes one round more than pieces, the walks over a directory
    listing or a change journal one round more than bytes in the buffer, the
    merge of a listing one per byte and per decoy and one more, the pages of a
    listing tool one round more than records.  That the fuel suffices is part of
    the theorems: they conclude [Ret], never "if it returns".  Every read of an input buffer that
    an attacker controls is checked, and [OutOfBounds] is proved not to occur
    but where a finding shows it.

    ** Assumptions

    A message buffer does not change while a handler runs (the one place where
    the code reads a length twice is listed as a finding).  BCrypt's random
    numbers and signature verification, the file system, and kernel queries
    are parameters; what a theorem needs of them is a named hypothesis that a
    witness instantiates.  In the preservation store the end of every payload
    and region fits 64 bits, and the scratch array of the free-list rebuild is
    granted while the high-water mark is stale; a theorem shows what happens
    otherwise.  ZwQueryVirtualMemory answers for the rest of a region from the page
    of the address on; ReplaceFileW without a backup name has the effects its
    documentation lists for the errors 1176 and 1177.  Unregistering the filter waits for its callbacks and work
    items, and closing the port for its messages.

    ** Not modelled

    Of driver/capture.c, the reads of the raw disk under a mapped file
    ([SarMmapDiskRead], and [SarMmapInstanceResolve] of driver.c) are a
    parameter, and an error while a mapped view is read does not occur.  In
    driver/phantom.c, a fault on the buffer of the caller is not modelled: the
    buffers are valid.  The tables of callbacks that driver.c registers are
    data for the filter manager, and elam/ has no logic.  In the service,
    creating and stopping pipes, threads and the service itself
    (pipe_server.c, main.c, the listeners of control.c), opening the port and
    the signing key, and the queries of posture.c are I/O around the modelled
    messages.  Of the tools, parsing of arguments, the text around the printed
    values, the commands that show a single reply and the installers are left out, and of the client
    library the readers of posture and event frames.  Tests and build files are
    not modelled. *)

From Stdlib Require Export ZArith Lia Bool Btauto ZifyNat ZifyBool.
From stdpp Require Export base numbers list list_numbers.

#[export] Set Default Goal Selector "!".

Declare Scope word_scope.
Delimit Scope word_scope with word.
#[global] Open Scope Z_scope.
#[global] Open Scope word_scope.

#[global] Arguments Nat.div : simpl never.
#[global] Arguments Nat.modulo : simpl never.
#[global] Arguments Nat.mul : simpl never.

(** ** C integer operators on [Z]

    A C unsigned integer of width [w] is a [Z] in [0, 2^w).  The casts
    [(uint8_t)x], [(uint32_t)x], ... are masks, so that they evaluate
    quickly and reason well bit by bit. *)

Notation "a ⊕ b" := (Z.lxor a b) (at level 45, left associativity) : word_scope.
Notation "a .| b" := (Z.lor a b) (at level 47, left associativity) : word_scope.
Notation "a .& b" := (Z.land a b) (at level 43, left associativity) : word_scope.
Notation "a .<< n" := (Z.shiftl a n) (at level 41, left associativity) : word_scope.
Notation "a .>> n" := (Z.shiftr a n) (at level 41, left associativity) : word_scope.

Definition u8 (x : Z) : Z := x .& 0xff.
Definition u16 (x : Z) : Z := x .& 0xffff.
Definition u32 (x : Z) : Z := x .& 0xffffffff.
Definition u64 (x : Z) : Z := x .& 0xffffffffffffffff.

Definition is_u (w x : Z) : Prop := 0 <= x < 2 ^ w.
Abbreviation is_u8 := (is_u 8).
Abbreviation is_u16 := (is_u 16).
Abbreviation is_u32 := (is_u 32).
Abbreviation is_u64 := (is_u 64).

(** A buffer of [uint8_t] is a [list Z]; a read [p[i]] is [rd p i] and the
    pointer [p + k] is [drop k p]. *)
Abbreviation bytes := (list Z).
Abbreviation is_bytes := (Forall is_u8).

Definition rd (p : list Z) (i : nat) : Z := nth i p 0.

(** [p[i]] with a machine-integer index, the table look-ups of the ciphers. *)
Definition tbl (t : list Z) (i : Z) : Z := rd t (Z.to_nat i).

Definition xor_bytes (a b : bytes) : bytes := zip_with Z.lxor a b.

Definition bytes_eqb (a b : bytes) : bool := bool_decide (a = b).

#[global] Instance is_u_dec w x : Decision (is_u w x).
Proof. unfold is_u. apply _. Defined.

(** ** Automation *)

Create HintDb sar discriminated.
Create HintDb sarbits.

(** [lia] with [/] and [mod] unfolded to their defining equations. *)
Ltac dlia := zify; Z.to_euclidean_division_equations; lia.

(** Simplify boolean comparisons in the context and the goal. *)
Ltac bsimp :=
  repeat match goal with
  | H : (_ =? _) = true |- _ => apply Z.eqb_eq in H
  | H : (_ =? _) = false |- _ => apply Z.eqb_neq in H
  | H : (_ <? _) = true |- _ => apply Z.ltb_lt in H
  | H : (_ <? _) = false |- _ => apply Z.ltb_ge in H
  | H : (_ <=? _) = true |- _ => apply Z.leb_le in H
  | H : (_ <=? _) = false |- _ => apply Z.leb_gt in H
  | H : (_ && _)%bool = true |- _ => apply andb_true_iff in H; destruct H
  | H : (_ || _)%bool = false |- _ => apply orb_false_iff in H; destruct H
  | H : negb _ = true |- _ => apply negb_true_iff in H
  | H : negb _ = false |- _ => apply negb_false_iff in H
  | H : bool_decide _ = true |- _ => apply bool_decide_eq_true in H
  | H : bool_decide _ = false |- _ => apply bool_decide_eq_false in H
  end.

(** Case split on the scrutinee of an [if] or a [match] of the goal. *)
Ltac dif :=
  match goal with
  | |- context [if ?b then _ else _] => let E := fresh "E" in destruct b eqn:E
  end.

(** ** Bits *)

Lemma testbit_high w x i : is_u w x -> w <= i -> Z.testbit x i = false.
Proof.
  intros [H0 H1] Hi. destruct (Z.eq_dec x 0) as [->|Hx]; [apply Z.bits_0|].
  apply Z.bits_above_log2; [lia|].
  assert (Z.log2 x < w) by (apply Z.log2_lt_pow2; lia). lia.
Qed.

Lemma is_u_bits w x :
  0 <= w -> 0 <= x -> (forall i, w <= i -> Z.testbit x i = false) -> is_u w x.
Proof.
  intros Hw Hx H. split; [done|].
  destruct (Z.eq_dec x 0) as [->|Hn]; [lia|].
  apply Z.log2_lt_pow2; [lia|]. destruct (Z_lt_le_dec (Z.log2 x) w); [done|].
  pose proof (Z.bit_log2 x ltac:(lia)) as Hb. by rewrite H in Hb.
Qed.

Lemma is_u_lxor w a b : 0 <= w -> is_u w a -> is_u w b -> is_u w (a ⊕ b).
Proof.
  intros Hw Ha Hb. apply is_u_bits; [done| |].
  - apply Z.lxor_nonneg. unfold is_u in *. lia.
  - intros i Hi. rewrite Z.lxor_spec, (testbit_high w a), (testbit_high w b); done.
Qed.

Lemma is_u_lor w a b : 0 <= w -> is_u w a -> is_u w b -> is_u w (a .| b).
Proof.
  intros Hw Ha Hb. apply is_u_bits; [done| |].
  - apply Z.lor_nonneg. unfold is_u in *. lia.
  - intros i Hi. rewrite Z.lor_spec, (testbit_high w a), (testbit_high w b); done.
Qed.

Lemma is_u_land_l w a b : 0 <= w -> is_u w a -> is_u w (a .& b).
Proof.
  intros Hw Ha. apply is_u_bits; [done| |].
  - apply Z.land_nonneg. unfold is_u in *. lia.
  - intros i Hi. rewrite Z.land_spec, (testbit_high w a); done.
Qed.

Lemma u8_mod x : u8 x = x mod 2 ^ 8.
Proof. unfold u8. change 0xff with (Z.ones 8). by rewrite Z.land_ones. Qed.
Lemma u16_mod x : u16 x = x mod 2 ^ 16.
Proof. unfold u16. change 0xffff with (Z.ones 16). by rewrite Z.land_ones. Qed.
Lemma u32_mod x : u32 x = x mod 2 ^ 32.
Proof. unfold u32. change 0xffffffff with (Z.ones 32). by rewrite Z.land_ones. Qed.
Lemma u64_mod x : u64 x = x mod 2 ^ 64.
Proof.
  unfold u64. change 0xffffffffffffffff with (Z.ones 64). by rewrite Z.land_ones.
Qed.

Lemma is_u_u8 x : is_u8 (u8 x).
Proof. rewrite u8_mod. unfold is_u. apply Z.mod_pos_bound. lia. Qed.
Lemma is_u_u16 x : is_u16 (u16 x).
Proof. rewrite u16_mod. unfold is_u. apply Z.mod_pos_bound. lia. Qed.
Lemma is_u_u32 x : is_u32 (u32 x).
Proof. rewrite u32_mod. unfold is_u. apply Z.mod_pos_bound. lia. Qed.
Lemma is_u_u64 x : is_u64 (u64 x).
Proof. rewrite u64_mod. unfold is_u. apply Z.mod_pos_bound. lia. Qed.

Lemma u8_small x : is_u8 x -> u8 x = x.
Proof. intros H. rewrite u8_mod. by apply Z.mod_small. Qed.
Lemma u16_small x : is_u16 x -> u16 x = x.
Proof. intros H. rewrite u16_mod. by apply Z.mod_small. Qed.
Lemma u32_small x : is_u32 x -> u32 x = x.
Proof. intros H. rewrite u32_mod. by apply Z.mod_small. Qed.
Lemma u64_small x : is_u64 x -> u64 x = x.
Proof. intros H. rewrite u64_mod. by apply Z.mod_small. Qed.

Lemma is_u_weaken w w' x : w <= w' -> is_u w x -> is_u w' x.
Proof.
  unfold is_u. intros Hw [H0 H1]. split; [done|].
  destruct (Z_lt_le_dec w 0).
  - rewrite (Z.pow_neg_r 2 w) in H1 by done. lia.
  - assert (2 ^ w <= 2 ^ w') by (apply Z.pow_le_mono_r; lia). lia.
Qed.

#[export] Hint Resolve is_u_u8 is_u_u16 is_u_u32 is_u_u64 : sar.
#[export] Hint Resolve is_u_lxor is_u_lor is_u_land_l : sar.
#[export] Hint Extern 1 (0 <= _) => lia : sar.
#[export] Hint Extern 2 (is_u _ (Zpos _)) => (unfold is_u; lia) : sar.
#[export] Hint Extern 2 (is_u _ 0) => (unfold is_u; lia) : sar.

Lemma lxor_cancel_r a b : (a ⊕ b) ⊕ b = a.
Proof. by rewrite Z.lxor_assoc, Z.lxor_nilpotent, Z.lxor_0_r. Qed.
Lemma lxor_cancel_l a b : b ⊕ (b ⊕ a) = a.
Proof. by rewrite <- Z.lxor_assoc, Z.lxor_nilpotent, Z.lxor_0_l. Qed.

(** ** Buffers *)

(** The loop of [sar_memcpy] (and [ctl_memcpy]) on the pointer [dst + off]:
    [src] is stored byte by byte.  A store outside [dst] leaves it unchanged. *)
Fixpoint mem_write {A} (dst : list A) (off : nat) (src : list A) : list A :=
  match src with
  | [] => dst
  | x :: s => mem_write (<[off:=x]> dst) (S off) s
  end.

Lemma length_mem_write {A} (dst : list A) off src :
  length (mem_write dst off src) = length dst.
Proof.
  revert dst off. induction src as [|x s IH]; intros; simpl; [done|].
  by rewrite IH, length_insert.
Qed.

Lemma mem_write_app {A} (dst : list A) off a b :
  mem_write dst off (a ++ b) = mem_write (mem_write dst off a) (off + length a) b.
Proof.
  revert dst off. induction a as [|x a IH]; intros; simpl.
  - by rewrite Nat.add_0_r.
  - rewrite IH. f_equal. lia.
Qed.

(** A copy that fits replaces exactly the addressed range. *)
Lemma mem_write_spec {A} (dst : list A) off src :
  (off + length src <= length dst)%nat ->
  mem_write dst off src = take off dst ++ src ++ drop (off + length src) dst.
Proof.
  revert dst off. induction src as [|x s IH]; intros dst off H; simpl in *.
  - by rewrite Nat.add_0_r, take_drop.
  - rewrite IH by (rewrite length_insert; lia).
    rewrite (take_S_r _ _ x) by (apply list_lookup_insert_eq; lia).
    rewrite take_insert_ge, drop_insert_lt by lia.
    rewrite <- app_assoc. simpl. by rewrite Nat.add_succ_r.
Qed.

Lemma mem_write_all {A} (dst src : list A) :
  length src = length dst -> mem_write dst 0 src = src.
Proof.
  intros H. rewrite mem_write_spec by lia. simpl.
  by rewrite drop_ge, app_nil_r by lia.
Qed.

(** The first [n] bytes of the buffer after a copy that ends at [n]. *)
Lemma take_mem_write {A} (dst : list A) off src :
  (off + length src <= length dst)%nat ->
  take (off + length src) (mem_write dst off src) = take off dst ++ src.
Proof.
  intros H. rewrite mem_write_spec by done. rewrite app_assoc, take_app_length'; [done|].
  rewrite length_app, length_take. lia.
Qed.

Lemma Forall_mem_write {A} (P : A -> Prop) dst off src :
  Forall P dst -> Forall P src -> Forall P (mem_write dst off src).
Proof.
  revert dst off. induction src as [|x s IH]; intros dst off Hd Hs; simpl; [done|].
  inversion Hs; subst. apply IH; [|done]. by apply Forall_insert.
Qed.

Create Rewrite HintDb len.
#[export] Hint Rewrite @length_mem_write @length_app @length_take @length_drop
  @length_replicate @length_insert @length_zip_with @length_map @length_seq
  @length_fmap @length_reverse : len.

Ltac len := autorewrite with len in *; simpl in *; try lia.

(** [for (j = o + 1; j < count; j++) a[j - 1] = a[j]; count--;]: the loop that
    closes the hole at [o] in an array of [count] live entries. *)
Definition shift_down {A} (l : list A) (o : nat) : list A :=
  take (length l - 1)
    (fold_left (fun a j => match a !! j with Some x => <[(j - 1)%nat := x]> a | None => a end)
       (seq (o + 1) (length l - (o + 1))) l).

Lemma shift_down_loop {A} (l : list A) o k :
  (o + 1 + k <= length l)%nat ->
  fold_left (fun a j => match a !! j with Some x => <[(j - 1)%nat := x]> a | None => a end)
    (seq (o + 1) k) l =
  take o l ++ take k (drop (o + 1) l) ++ drop (o + k) l.
Proof.
  induction k as [|k IH]; intros Hk.
  { simpl. by rewrite Nat.add_0_r, take_drop. }
  rewrite seq_S, fold_left_app, IH by lia. cbn [fold_left].
  set (arr := take o l ++ _).
  assert (Ha : length (take o l ++ take k (drop (o + 1) l)) = (o + k)%nat).
  { rewrite length_app, !length_take, length_drop. lia. }
  destruct (lookup_lt_is_Some_2 l (o + 1 + k)) as [x Hx]; [lia|].
  destruct (lookup_lt_is_Some_2 l (o + k)) as [y Hy]; [lia|].
  assert (Hi : arr !! (o + 1 + k)%nat = Some x).
  { unfold arr. rewrite app_assoc, lookup_app_r, lookup_drop, Ha by lia.
    rewrite <- Hx. f_equal. lia. }
  rewrite Hi. unfold arr. rewrite app_assoc.
  rewrite insert_app_r_alt, Ha by lia. replace (o + 1 + k - 1 - (o + k))%nat with O by lia.
  rewrite (drop_S _ _ _ Hy). cbn [list_insert insert].
  rewrite (take_S_r _ k x) by by rewrite lookup_drop.
  rewrite <- !app_assoc. cbn [app]. by replace (o + S k)%nat with (S (o + k)) by lia.
Qed.

Lemma shift_down_delete {A} (l : list A) o : (o < length l)%nat -> shift_down l o = delete o l.
Proof.
  intros Ho. unfold shift_down. rewrite shift_down_loop by lia.
  rewrite (take_ge (drop _ _)) by (rewrite length_drop; lia).
  rewrite app_assoc, take_app_length' by (rewrite length_app, length_take, length_drop; lia).
  rewrite delete_take_drop. by rewrite Nat.add_1_r.
Qed.

(** Filtering with a stronger test that an element fails gives a shorter list. *)
Lemma filter_length_lt {A} (P Q : A -> Prop) `{!forall x, Decision (P x), !forall x, Decision (Q x)}
    (l : list A) (y : A) :
  (forall x, P x -> Q x) -> y ∈ l -> Q y -> ~ P y ->
  (length (filter P l) < length (filter Q l))%nat.
Proof.
  intros HPQ Hy HQ HP.
  assert (Hle : forall l', (length (filter P l') <= length (filter Q l'))%nat).
  { induction l' as [|x l' IH]; [done|]. rewrite !filter_cons.
    destruct (decide (P x)), (decide (Q x)); simpl; try lia. naive_solver. }
  induction l as [|x l IH]; [by apply not_elem_of_nil in Hy|].
  rewrite !filter_cons. apply elem_of_cons in Hy as [->|Hy].
  - destruct (decide (P x)), (decide (Q x)); try done. simpl. specialize (Hle l). lia.
  - specialize (IH Hy). destruct (decide (P x)), (decide (Q x)); simpl; try lia. naive_solver.
Qed.

(** ** Scans that stop at the first hit *)

Fixpoint first_some {A B} (f : A -> option B) (l : list A) : option B :=
  match l with
  | [] => None
  | x :: l => match f x with Some y => Some y | None => first_some f l end
  end.

Lemma first_some_Some {A B} (f : A -> option B) l y :
  first_some f l = Some y -> exists x, x ∈ l /\ f x = Some y.
Proof.
  induction l as [|x l IH]; [done|]. cbn. destruct (f x) as [z|] eqn:E.
  - intros [= ->]. exists x. split; [by left|done].
  - intros H. destruct (IH H) as (x' & Hx & Hf). exists x'. split; [by right|done].
Qed.

Lemma first_some_None {A B} (f : A -> option B) l :
  first_some f l = None <-> forall x, x ∈ l -> f x = None.
Proof.
  induction l as [|x l IH]; cbn.
  - split; [intros _ x Hx; by apply elem_of_nil in Hx|done].
  - destruct (f x) as [z|] eqn:E; split.
    + done.
    + intros H. rewrite <- E. apply H. by left.
    + intros H y [-> | Hy]%elem_of_cons; [done|]. by apply IH.
    + intros H. apply IH. intros y Hy. apply H. by right.
Qed.

Lemma first_some_hit {A B} (f : A -> option B) l x :
  x ∈ l -> f x <> None -> first_some f l <> None.
Proof. intros Hx Hf H. by eapply first_some_None in H. Qed.

(** Executable range checks, for concrete buffers. *)
Lemma forall_u_check w (l : list Z) :
  forallb (fun x => (0 <=? x) && (x <? 2 ^ w)) l = true -> Forall (is_u w) l.
Proof.
  intros H. apply Forall_forall. intros x Hx. rewrite forallb_forall in H.
  apply list_elem_of_In in Hx. specialize (H x Hx). bsimp. by split.
Qed.

(** Well-formedness of a concrete structure, field by field. *)
Ltac wf_compute :=
  repeat split;
  try (apply forall_u_check; vm_compute; reflexivity);
  try (vm_compute; reflexivity);
  try (vm_compute; intros ?; discriminate).

(** ** Sublists *)

Lemma sublist_Forall {A} (P : A -> Prop) l l' : sublist l' l -> Forall P l -> Forall P l'.
Proof. rewrite !Forall_forall. eauto using elem_of_sublist. Qed.
