(* ===== verification/Mem.v ===== *)
(** * Memory helpers and packed little-endian layouts

    [Mem] models engine/src/eng_mem.h (and its twin control/src/ctl_mem.h):
    the freestanding [memset], [memcmp] and constant-time comparison.
    [Layout] gives the byte image of the [#pragma pack(1)] structures of
    common/include/semantics_ar: fields are stored in declaration order,
    integers little-endian, with no padding.  The class [Packed] is what a
    structure promises to the code that copies it with [memcpy]. *)

From S2P Require Import Prelude.

Module Mem.

Definition sar_memset (dst : bytes) (v : Z) (n : nat) : bytes :=
  mem_write dst 0 (replicate n v).

Fixpoint sar_memcmp (x y : bytes) (n : nat) : Z :=
  match n with
  | O => 0
  | S n => if rd x 0 =? rd y 0 then sar_memcmp (drop 1 x) (drop 1 y) n
           else if rd x 0 <? rd y 0 then -1 else 1
  end.

(** The accumulator loop of [sar_ct_equal]: no early exit. *)
Definition sar_ct_equal (x y : bytes) (n : nat) : bool :=
  fold_left (fun acc i => u8 (acc .| (rd x i ⊕ rd y i))) (seq 0 n) 0 =? 0.

#[global] Arguments sar_ct_equal : simpl never.
#[global] Arguments sar_memset : simpl never.

Lemma rd_drop p i k : rd (drop k p) i = rd p (k + i).
Proof. unfold rd. by rewrite nth_skipn. Qed.

Lemma rd_take p i n : (i < n)%nat -> rd (take n p) i = rd p i.
Proof.
  intros H. unfold rd. rewrite nth_firstn. by destruct (Nat.ltb_spec i n); [|lia].
Qed.

Lemma rd_lookup p i x : p !! i = Some x -> rd p i = x.
Proof. intros H. unfold rd. apply nth_lookup_Some. done. Qed.

Lemma rd_byte p i : is_bytes p -> is_u8 (rd p i).
Proof.
  intros H. unfold rd. destruct (nth_lookup_or_length p i 0) as [E|E].
  - eapply Forall_lookup_1; [exact H|exact E].
  - rewrite nth_overflow by done. unfold is_u; lia.
Qed.

Lemma list_eq_rd (x y : bytes) :
  length x = length y -> (forall i, (i < length x)%nat -> rd x i = rd y i) -> x = y.
Proof.
  intros Hl H. apply list_eq_same_length with (n := length x); [done|done|].
  intros i a b Hi Ha Hb. apply rd_lookup in Ha, Hb. rewrite <- Ha, <- Hb. by apply H.
Qed.

Lemma sar_memcmp_eq (x y : bytes) n :
  length x = n -> length y = n -> sar_memcmp x y n = 0 <-> x = y.
Proof.
  revert x y. induction n as [|n IH]; intros [|a x] [|b y] Hx Hy; simpl in *; try done.
  injection Hx as Hx. injection Hy as Hy. unfold rd; simpl. rewrite !drop_0.
  destruct (Z.eqb_spec a b) as [->|Hne].
  - rewrite IH by done. split; [by intros ->|by intros [= ->]].
  - destruct (Z.ltb_spec a b); split; intros; simplify_eq/=; lia.
Qed.

Lemma ct_acc_zero x y l acc :
  is_u8 acc -> is_bytes x -> is_bytes y ->
  fold_left (fun acc i => u8 (acc .| (rd x i ⊕ rd y i))) l acc = 0 <->
  acc = 0 /\ Forall (fun i => rd x i = rd y i) l.
Proof.
  intros Ha Hx Hy. revert acc Ha. induction l as [|i l IH]; intros acc Ha; simpl.
  - split; [intros ->; auto|by intros [-> _]].
  - assert (Hr : is_u8 (acc .| (rd x i ⊕ rd y i)))
      by auto using rd_byte with sar.
    rewrite u8_small, IH, Forall_cons by done. rewrite Z.lor_eq_0_iff, Z.lxor_eq_0_iff. tauto.
Qed.

(** Constant-time comparison decides equality of equally long buffers. *)
Lemma sar_ct_equal_eq (x y : bytes) n :
  is_bytes x -> is_bytes y -> length x = n -> length y = n ->
  sar_ct_equal x y n = true <-> x = y.
Proof.
  intros Hx Hy Lx Ly. unfold sar_ct_equal. rewrite Z.eqb_eq.
  rewrite ct_acc_zero; [|unfold is_u; lia|done|done].
  split; [intros [_ H]|by intros ->; split; [|apply Forall_true]].
  apply list_eq_rd; [lia|]. intros i Hi.
  rewrite Forall_forall in H. apply H. apply elem_of_seq. lia.
Qed.

Lemma sar_ct_equal_refl (x : bytes) n : is_bytes x -> sar_ct_equal x x n = true.
Proof.
  intros Hx. unfold sar_ct_equal. rewrite Z.eqb_eq.
  apply ct_acc_zero; [unfold is_u; lia|done|done|]. split; [done|by apply Forall_true].
Qed.

End Mem.

Module Layout.

(** The little-endian image of an [8n]-bit integer, and back. *)
Fixpoint le_bytes (n : nat) (v : Z) : bytes :=
  match n with
  | O => []
  | S n => u8 v :: le_bytes n (v .>> 8)
  end.

Fixpoint le_val (b : bytes) : Z :=
  match b with
  | [] => 0
  | x :: b => x .| (le_val b .<< 8)
  end.

(** A [uint16_t] array. *)
Definition u16s_bytes (l : list Z) : bytes := flat_map (le_bytes 2) l.

Fixpoint bytes_u16s (n : nat) (b : bytes) : list Z :=
  match n with
  | O => []
  | S n => le_val (take 2 b) :: bytes_u16s n (drop 2 b)
  end.

Lemma length_le_bytes n v : length (le_bytes n v) = n.
Proof. revert v. induction n; intros; simpl; auto. Qed.

Lemma is_bytes_le_bytes n v : is_bytes (le_bytes n v).
Proof.
  revert v. induction n; intros; simpl; [constructor|]. apply Forall_cons; auto with sar.
Qed.

Lemma byte_low_high x v : is_u8 x -> x .| (v .<< 8) = x + 256 * v.
Proof.
  intros Hx.
  assert (Hl : x .& (v .<< 8) = 0).
  { apply Z.bits_inj'. intros i Hi. rewrite Z.land_spec, Z.bits_0, Z.shiftl_spec by done.
    destruct (Z_lt_le_dec i 8).
    - rewrite (Z.testbit_neg_r v) by lia. btauto.
    - by rewrite (testbit_high 8 x). }
  rewrite <- Z.lxor_lor, <- Z.add_nocarry_lxor, Z.shiftl_mul_pow2 by (done || lia). lia.
Qed.

Lemma le_val_le_bytes n v : 0 <= v < 2 ^ (8 * Z.of_nat n) -> le_val (le_bytes n v) = v.
Proof.
  revert v. induction n as [|n IH]; intros v Hv; cbn [le_bytes le_val].
  - change (2 ^ (8 * Z.of_nat 0)) with 1 in Hv. lia.
  - rewrite byte_low_high by auto with sar. rewrite Z.shiftr_div_pow2 by lia.
    rewrite IH.
    + rewrite u8_mod. change (2 ^ 8) with 256. dlia.
    + rewrite Nat2Z.inj_succ, Z.mul_succ_r, Z.pow_add_r in Hv by lia.
      change (2 ^ 8) with 256 in *. split; [dlia|].
      apply Z.div_lt_upper_bound; lia.
Qed.

Lemma le_bytes_le_val b : is_bytes b -> le_bytes (length b) (le_val b) = b.
Proof.
  induction b as [|x b IH]; intros Hb; simpl; [done|].
  apply Forall_cons in Hb as [Hx Hb]. rewrite byte_low_high by done.
  rewrite u8_mod, Z.shiftr_div_pow2 by lia. change (2 ^ 8) with 256. unfold is_u in Hx.
  replace ((x + 256 * le_val b) mod 256) with x by dlia.
  replace ((x + 256 * le_val b) / 256) with (le_val b) by dlia. by rewrite IH.
Qed.

Lemma le_val_range b : is_bytes b -> 0 <= le_val b < 2 ^ (8 * Z.of_nat (length b)).
Proof.
  induction b as [|x b IH]; intros Hb; cbn [le_val length].
  - change (2 ^ (8 * Z.of_nat 0)) with 1. lia.
  - apply Forall_cons in Hb as [Hx Hb]. rewrite byte_low_high by done.
    specialize (IH Hb). rewrite Nat2Z.inj_succ, Z.mul_succ_r, Z.pow_add_r by lia.
    unfold is_u in Hx. change (2 ^ 8) with 256 in *. lia.
Qed.

(** ** Codecs: the layout of a packed structure *)

Record codec (A : Type) := {
  csize : nat;
  enc : A -> bytes;
  dec : bytes -> A;
  wf : A -> Prop
}.
Arguments csize {A}. Arguments enc {A}. Arguments dec {A}. Arguments wf {A}.

Class CodecOk {A} (c : codec A) : Prop := {
  enc_length a : wf c a -> length (enc c a) = csize c;
  enc_bytes a : wf c a -> is_bytes (enc c a);
  dec_enc a : wf c a -> dec c (enc c a) = a;
  enc_dec b : length b = csize c -> is_bytes b -> enc c (dec c b) = b;
  wf_dec b : length b = csize c -> is_bytes b -> wf c (dec c b)
}.

Definition c_uint (n : nat) : codec Z := {|
  csize := n; enc := le_bytes n; dec b := le_val b;
  wf v := 0 <= v < 2 ^ (8 * Z.of_nat n)
|}.

Definition c_bytes (n : nat) : codec bytes := {|
  csize := n; enc b := b; dec b := b; wf b := length b = n /\ is_bytes b
|}.

Definition c_u16s (n : nat) : codec (list Z) := {|
  csize := 2 * n; enc := u16s_bytes; dec := bytes_u16s n;
  wf l := length l = n /\ Forall is_u16 l
|}.

Definition c_pair {A B} (a : codec A) (b : codec B) : codec (A * B) := {|
  csize := csize a + csize b;
  enc p := enc a p.1 ++ enc b p.2;
  dec l := (dec a (take (csize a) l), dec b (drop (csize a) l));
  wf p := wf a p.1 /\ wf b p.2
|}.

Definition c_iso {A B} (c : codec A) (f : B -> A) (g : A -> B) : codec B := {|
  csize := csize c; enc x := enc c (f x); dec l := g (dec c l); wf x := wf c (f x)
|}.

#[global] Instance c_uint_ok n : CodecOk (c_uint n).
Proof.
  constructor; simpl; intros.
  - apply length_le_bytes.
  - apply is_bytes_le_bytes.
  - by apply le_val_le_bytes.
  - subst. by apply le_bytes_le_val.
  - subst. by apply le_val_range.
Qed.

#[global] Instance c_bytes_ok n : CodecOk (c_bytes n).
Proof. by constructor; simpl; [intros a [??]|intros a [??]|..]. Qed.

#[global] Instance c_u16s_ok n : CodecOk (c_u16s n).
Proof.
  constructor; simpl.
  - intros a [Ha _]. subst n. unfold u16s_bytes.
    induction a as [|x a IH]; [done|]. cbn [flat_map]. len.
  - intros a [_ Ha]. unfold u16s_bytes. induction a as [|x a IH]; simpl; [done|].
    apply Forall_cons in Ha as [_ Ha]. repeat (apply Forall_cons; split; [auto with sar|]). auto.
  - intros a [Hl Ha]. revert a Hl Ha. induction n as [|n IH]; intros [|x a] Hl Ha; try done.
    apply Forall_cons in Ha as [Hx Ha]. unfold u16s_bytes in *. cbn [flat_map bytes_u16s].
    rewrite take_app_length', drop_app_length' by done. rewrite IH by (simpl in *; auto with lia).
    f_equal. apply (le_val_le_bytes 2). done.
  - induction n as [|n IH]; intros b Hl Hb.
    { by destruct b. }
    unfold u16s_bytes in *. cbn [flat_map bytes_u16s].
    rewrite IH; [|rewrite length_drop; lia|by apply Forall_drop].
    rewrite <- (take_drop 2 b) at 3. f_equal.
    rewrite <- (le_bytes_le_val (take 2 b)) at 2 by by apply Forall_take.
    rewrite length_take, Nat.min_l by lia. done.
  - induction n as [|n IH]; intros b Hl Hb; cbn [bytes_u16s]; [by split|].
    destruct (IH (drop 2 b)) as [H1 H2]; [rewrite length_drop; lia|by apply Forall_drop|].
    split; [simpl; lia|]. apply Forall_cons. split; [|done].
    pose proof (le_val_range (take 2 b) ltac:(by apply Forall_take)) as H.
    by rewrite length_take, Nat.min_l in H by lia.
Qed.

#[global] Instance c_pair_ok {A B} (a : codec A) (b : codec B) :
  CodecOk a -> CodecOk b -> CodecOk (c_pair a b).
Proof.
  intros Ha Hb. constructor; simpl.
  - intros [x y] [Hx Hy]; simpl in *. by rewrite length_app, !enc_length.
  - intros [x y] [Hx Hy]; simpl in *. apply Forall_app. auto using enc_bytes.
  - intros [x y] [Hx Hy]; simpl in *.
    rewrite take_app_length', drop_app_length' by (by rewrite enc_length).
    by rewrite !dec_enc.
  - intros l Hl Hl'. rewrite !enc_dec; rewrite ?length_take, ?length_drop;
      auto using Forall_take, Forall_drop with lia. apply take_drop.
  - intros l Hl Hl'. split; apply wf_dec; rewrite ?length_take, ?length_drop;
      auto using Forall_take, Forall_drop with lia.
Qed.

Lemma c_iso_ok {A B} (c : codec A) (f : B -> A) (g : A -> B) :
  CodecOk c -> (forall x, f (g x) = x) -> (forall x, g (f x) = x) -> CodecOk (c_iso c f g).
Proof.
  intros Hc Hfg Hgf. constructor; simpl; intros.
  - by apply enc_length.
  - by apply enc_bytes.
  - by rewrite dec_enc.
  - by rewrite Hfg, enc_dec.
  - rewrite Hfg. by apply wf_dec.
Qed.

(** A structure that is copied with [memcpy]: its layout and [sizeof]. *)
Class Packed (A : Type) := {
  layout : codec A;
  layout_ok : CodecOk layout
}.
#[export] Existing Instance layout_ok.

Definition sizeof (A : Type) `{Packed A} : nat := csize (layout (A := A)).
Definition struct_bytes {A} `{Packed A} (x : A) : bytes := enc layout x.
Definition struct_of {A} `{Packed A} (b : bytes) : A := dec layout b.
Definition struct_wf {A} `{Packed A} (x : A) : Prop := wf layout x.

Section Packed.
Context {A : Type} `{Packed A}.

Lemma length_struct_bytes (x : A) : struct_wf x -> length (struct_bytes x) = sizeof A.
Proof. apply enc_length. Qed.
Lemma is_bytes_struct_bytes (x : A) : struct_wf x -> is_bytes (struct_bytes x).
Proof. apply enc_bytes. Qed.
Lemma struct_of_bytes (x : A) : struct_wf x -> struct_of (struct_bytes x) = x.
Proof. apply dec_enc. Qed.
Lemma struct_bytes_of b :
  length b = sizeof A -> is_bytes b -> struct_bytes (struct_of b : A) = b.
Proof. apply enc_dec. Qed.
Lemma struct_wf_of b : length b = sizeof A -> is_bytes b -> struct_wf (struct_of b : A).
Proof. apply wf_dec. Qed.
End Packed.

End Layout.
