(* ===== verification/Sha256.v ===== *)
(** * SHA-256 and HMAC-SHA-256 (engine/src/sha256.c)

    [Sha256] models the incremental hash: the context with its 64-byte block
    buffer, [sar_sha256_init]/[update]/[final] and [sar_hmac_sha256].  The
    theorems show that the incremental interface computes the one-shot hash
    of the padded message, whatever the way the message was cut into
    [update] calls. *)

From S2P Require Import Prelude.

Module Sha256.

Definition SAR_SHA256_DIGEST : nat := 32.
Definition SAR_SHA256_BLOCK : nat := 64.

(** One inner list per line of the source table. *)
Definition K : list Z := concat [
    [0x428a2f98;0x71374491;0xb5c0fbcf;0xe9b5dba5;0x3956c25b;0x59f111f1;0x923f82a4;0xab1c5ed5];
    [0xd807aa98;0x12835b01;0x243185be;0x550c7dc3;0x72be5d74;0x80deb1fe;0x9bdc06a7;0xc19bf174];
    [0xe49b69c1;0xefbe4786;0x0fc19dc6;0x240ca1cc;0x2de92c6f;0x4a7484aa;0x5cb0a9dc;0x76f988da];
    [0x983e5152;0xa831c66d;0xb00327c8;0xbf597fc7;0xc6e00bf3;0xd5a79147;0x06ca6351;0x14292967];
    [0x27b70a85;0x2e1b2138;0x4d2c6dfc;0x53380d13;0x650a7354;0x766a0abb;0x81c2c92e;0x92722c85];
    [0xa2bfe8a1;0xa81a664b;0xc24b8b70;0xc76c51a3;0xd192e819;0xd6990624;0xf40e3585;0x106aa070];
    [0x19a4c116;0x1e376c08;0x2748774c;0x34b0bcb5;0x391c0cb3;0x4ed8aa4a;0x5b9cca4f;0x682e6ff3];
    [0x748f82ee;0x78a5636f;0x84c87814;0x8cc70208;0x90befffa;0xa4506ceb;0xbef9a3f7;0xc67178f2]
].

Definition ror (x n : Z) : Z := (x .>> n) .| u32 (x .<< (32 - n)).

Record sar_sha256_ctx := {
  state : list Z;
  total : Z;
  buf : bytes;
  buf_len : nat
}.

(** [init] leaves [ctx->buf] as it was: its old contents are the argument. *)
Definition sar_sha256_init (old_buf : bytes) : sar_sha256_ctx := {|
  state := [0x6a09e667; 0xbb67ae85; 0x3c6ef372; 0xa54ff53a;
            0x510e527f; 0x9b05688c; 0x1f83d9ab; 0x5be0cd19];
  total := 0;
  buf := old_buf;
  buf_len := 0
|}.

(** The message schedule [w[0..63]] of [sha256_block]. *)
Definition sha256_w (p : bytes) : list Z :=
  let w0 := map (fun i => (rd p (i * 4) .<< 24) .| (rd p (i * 4 + 1) .<< 16) .|
                          (rd p (i * 4 + 2) .<< 8) .| rd p (i * 4 + 3)) (seq 0 16) in
  fold_left (fun w i =>
    let s0 := ror (rd w (i - 15)) 7 ⊕ ror (rd w (i - 15)) 18 ⊕ (rd w (i - 15) .>> 3) in
    let s1 := ror (rd w (i - 2)) 17 ⊕ ror (rd w (i - 2)) 19 ⊕ (rd w (i - 2) .>> 10) in
    w ++ [u32 (rd w (i - 16) + s0 + rd w (i - 7) + s1)]) (seq 16 48) w0.

(** One iteration of the round loop on the eight working variables. *)
Definition sha256_round (w : list Z) (v : list Z) (i : nat) : list Z :=
  match v with
  | [a; b; c; d; e; f; g; h] =>
      let S1 := ror e 6 ⊕ ror e 11 ⊕ ror e 25 in
      let ch := (e .& f) ⊕ (u32 (Z.lnot e) .& g) in
      let t1 := u32 (h + S1 + ch + rd K i + rd w i) in
      let S0 := ror a 2 ⊕ ror a 13 ⊕ ror a 22 in
      let maj := (a .& b) ⊕ (a .& c) ⊕ (b .& c) in
      let t2 := u32 (S0 + maj) in
      [u32 (t1 + t2); a; b; c; u32 (d + t1); e; f; g]
  | _ => v
  end.

(** [sha256_block] as a function of [ctx->state] and the block. *)
Definition sha256_compress (st : list Z) (p : bytes) : list Z :=
  zip_with (fun x y => u32 (x + y)) st
    (fold_left (sha256_round (sha256_w p)) (seq 0 64) st).

Definition sha256_block (ctx : sar_sha256_ctx) (p : bytes) : sar_sha256_ctx :=
  {| state := sha256_compress (state ctx) p; total := total ctx;
     buf := buf ctx; buf_len := buf_len ctx |}.

(** One iteration of the [while] loop of [sar_sha256_update]: [take] bytes
    are moved into the buffer, and a full buffer is hashed. *)
Definition update_step (ctx : sar_sha256_ctx) (data : bytes) : sar_sha256_ctx * bytes :=
  let tk := Nat.min (SAR_SHA256_BLOCK - buf_len ctx) (length data) in
  let ctx1 := {| state := state ctx; total := total ctx;
                 buf := mem_write (buf ctx) (buf_len ctx) (take tk data);
                 buf_len := buf_len ctx + tk |} in
  let ctx2 := if Nat.eqb (buf_len ctx1) SAR_SHA256_BLOCK
              then let c := sha256_block ctx1 (buf ctx1) in
                   {| state := state c; total := total c; buf := buf c; buf_len := 0 |}
              else ctx1 in
  (ctx2, drop tk data).

Fixpoint update_loop (fuel : nat) (ctx : sar_sha256_ctx) (data : bytes) : sar_sha256_ctx :=
  match fuel, data with
  | _, [] => ctx
  | O, _ => ctx
  | S fuel, _ => let '(ctx', data') := update_step ctx data in update_loop fuel ctx' data'
  end.

Definition sar_sha256_update (ctx : sar_sha256_ctx) (data : bytes) : sar_sha256_ctx :=
  update_loop (length data)
    {| state := state ctx; total := u64 (total ctx + Z.of_nat (length data));
       buf := buf ctx; buf_len := buf_len ctx |} data.

(** [while (ctx->buf_len != 56) update(&zero, 1)]. *)
Fixpoint pad_loop (fuel : nat) (ctx : sar_sha256_ctx) : sar_sha256_ctx :=
  match fuel with
  | O => ctx
  | S fuel => if Nat.eqb (buf_len ctx) 56 then ctx
              else pad_loop fuel (sar_sha256_update ctx [0])
  end.

Definition be64 (v : Z) : bytes :=
  map (fun i => u8 (v .>> (56 - 8 * Z.of_nat i))) (seq 0 8).

Definition digest_bytes (st : list Z) : bytes :=
  flat_map (fun x => [u8 (x .>> 24); u8 (x .>> 16); u8 (x .>> 8); u8 x]) st.

Definition sar_sha256_final (ctx : sar_sha256_ctx) : bytes :=
  let bits := u64 (total ctx * 8) in
  let ctx1 := sar_sha256_update ctx [0x80] in
  let ctx2 := pad_loop SAR_SHA256_BLOCK ctx1 in
  let ctx3 := sar_sha256_update ctx2 (be64 bits) in
  digest_bytes (state ctx3).

(** The uninitialised block buffer of a stack context. *)
Definition fresh_buf : bytes := replicate SAR_SHA256_BLOCK 0.

(** [init; update; final], the sequence every caller runs. *)
Definition sha256 (data : bytes) : bytes :=
  sar_sha256_final (sar_sha256_update (sar_sha256_init fresh_buf) data).

Definition sar_hmac_sha256 (key msg : bytes) : bytes :=
  let k0 := replicate SAR_SHA256_BLOCK 0 in
  let k := if (SAR_SHA256_BLOCK <? length key)%nat
           then mem_write k0 0 (sha256 key)
           else mem_write k0 0 key in
  let ipad := map (fun x => u8 (x ⊕ 0x36)) k in
  let opad := map (fun x => u8 (x ⊕ 0x5c)) k in
  let c1 := sar_sha256_update (sar_sha256_init fresh_buf) ipad in
  let inner := sar_sha256_final (sar_sha256_update c1 msg) in
  let c2 := sar_sha256_update (sar_sha256_init fresh_buf) opad in
  sar_sha256_final (sar_sha256_update c2 inner).

#[global] Arguments sar_hmac_sha256 : simpl never.
#[global] Arguments sha256 : simpl never.
#[global] Arguments sha256_compress : simpl never.

(** ** The one-shot hash

    The same compression over all blocks of the padded message at once;
    [Fips180] relates it to the standard. *)

Definition IV : list Z := state (sar_sha256_init fresh_buf).

(** The first [n] 64-byte blocks of [m]. *)
Definition blocks (n : nat) (m : bytes) : list bytes :=
  map (fun i => take 64 (drop (64 * i) m)) (seq 0 n).

Definition pad (m : bytes) : bytes :=
  m ++ [0x80] ++ replicate ((119 - length m mod 64) mod 64) 0 ++
  be64 (u64 (Z.of_nat (length m) * 8)).

Definition sha256_oneshot (m : bytes) : bytes :=
  let m' := pad m in
  digest_bytes (fold_left sha256_compress (blocks (length m' / 64) m') IV).

Definition hmac_oneshot (key msg : bytes) : bytes :=
  let k0 := if (64 <? length key)%nat then sha256_oneshot key else key in
  let k := k0 ++ replicate (64 - length k0) 0 in
  let keyed c := map (fun x => u8 (x ⊕ c)) k in
  sha256_oneshot (keyed 0x5c ++ sha256_oneshot (keyed 0x36 ++ msg)).

(** ** The incremental interface byte by byte *)

Definition feed (ctx : sar_sha256_ctx) (x : Z) : sar_sha256_ctx :=
  let b := <[buf_len ctx := x]> (buf ctx) in
  if Nat.eqb (S (buf_len ctx)) 64
  then {| state := sha256_compress (state ctx) b; total := total ctx;
          buf := b; buf_len := 0 |}
  else {| state := state ctx; total := total ctx; buf := b; buf_len := S (buf_len ctx) |}.

Lemma feed_partial xs ctx :
  (buf_len ctx + length xs < 64)%nat ->
  fold_left feed xs ctx =
    {| state := state ctx; total := total ctx;
       buf := mem_write (buf ctx) (buf_len ctx) xs; buf_len := buf_len ctx + length xs |}.
Proof.
  revert ctx. induction xs as [|x xs IH]; intros ctx H; simpl in *.
  - rewrite Nat.add_0_r. by destruct ctx.
  - unfold feed at 2. destruct (Nat.eqb_spec (S (buf_len ctx)) 64); [lia|].
    rewrite IH by (simpl; lia). simpl. f_equal. lia.
Qed.

Lemma update_step_feed ctx data :
  (buf_len ctx < 64)%nat -> data <> [] ->
  let '(ctx', data') := update_step ctx data in
  fold_left feed data ctx = fold_left feed data' ctx' /\
  (length data' < length data)%nat /\ (buf_len ctx' < 64)%nat.
Proof.
  intros Hb Hd. unfold update_step, SAR_SHA256_BLOCK; simpl.
  set (tk := Nat.min (64 - buf_len ctx) (length data)).
  assert (0 < length data)%nat by (destruct data; simpl in *; [done|lia]).
  split_and!; [|rewrite length_drop; lia|].
  2: { destruct (Nat.eqb_spec (buf_len ctx + tk) 64); simpl; lia. }
  rewrite <- (take_drop tk data) at 1. rewrite fold_left_app. f_equal.
  assert (Hl : length (take tk data) = tk) by (rewrite length_take; lia).
  destruct (Nat.eqb_spec (buf_len ctx + tk) 64) as [He|He].
  - destruct (exists_last (l := take tk data)) as (l0 & x0 & E);
      [intros H0; rewrite H0 in Hl; simpl in Hl; lia|].
    rewrite E in *. rewrite fold_left_app, length_app in *. simpl in *.
    rewrite feed_partial by lia. unfold feed; simpl.
    destruct (Nat.eqb_spec (buf_len ctx + length l0) 63); [|lia].
    by rewrite mem_write_app.
  - rewrite feed_partial by lia. by rewrite Hl.
Qed.

Lemma update_loop_feed fuel ctx data :
  (length data <= fuel)%nat -> (buf_len ctx < 64)%nat ->
  update_loop fuel ctx data = fold_left feed data ctx.
Proof.
  revert ctx data. induction fuel as [|fuel IH]; intros ctx data Hf Hb.
  - by destruct data; simpl in *; [|lia].
  - destruct (decide (data = [])) as [->|Hd]; [done|].
    pose proof (update_step_feed ctx data Hb Hd) as H.
    transitivity (let '(ctx', data') := update_step ctx data in update_loop fuel ctx' data');
      [by destruct data|].
    destruct (update_step ctx data) as [ctx' data']. destruct H as (-> & ? & ?).
    apply IH; lia.
Qed.

Definition set_total (ctx : sar_sha256_ctx) (t : Z) : sar_sha256_ctx :=
  {| state := state ctx; total := t; buf := buf ctx; buf_len := buf_len ctx |}.

Lemma feed_set_total ctx t x : feed (set_total ctx t) x = set_total (feed ctx x) t.
Proof. unfold feed. simpl. by destruct (buf_len ctx =? 63)%nat. Qed.

Lemma feeds_set_total xs ctx t :
  fold_left feed xs (set_total ctx t) = set_total (fold_left feed xs ctx) t.
Proof.
  revert ctx. induction xs as [|x xs IH]; intros; simpl; [done|].
  by rewrite feed_set_total, IH.
Qed.

Lemma sar_sha256_update_feed ctx data :
  (buf_len ctx < 64)%nat ->
  sar_sha256_update ctx data =
    set_total (fold_left feed data ctx) (u64 (total ctx + Z.of_nat (length data))).
Proof.
  intros H. unfold sar_sha256_update. rewrite update_loop_feed by done.
  apply (feeds_set_total data ctx).
Qed.

Lemma feed_buf_len ctx x : (buf_len ctx < 64)%nat -> (buf_len (feed ctx x) < 64)%nat.
Proof. unfold feed. intros. destruct (Nat.eqb_spec (S (buf_len ctx)) 64); simpl; lia. Qed.

Lemma feeds_buf_len xs ctx :
  (buf_len ctx < 64)%nat -> (buf_len (fold_left feed xs ctx) < 64)%nat.
Proof. revert ctx. induction xs; intros; simpl; auto using feed_buf_len. Qed.

(** ** What a context has absorbed *)

Record absorbed (ctx : sar_sha256_ctx) (m : bytes) : Prop := {
  abs_len : buf_len ctx = (length m mod 64)%nat;
  abs_buf : length (buf ctx) = 64%nat;
  abs_pending : take (buf_len ctx) (buf ctx) = drop (64 * (length m / 64)) m;
  abs_state : state ctx = fold_left sha256_compress (blocks (length m / 64) m) IV
}.

Lemma blocks_app n m x : (64 * n <= length m)%nat -> blocks n (m ++ x) = blocks n m.
Proof.
  intros H. unfold blocks. apply map_ext_in. intros i Hi%in_seq.
  rewrite drop_app_le, take_app_le; [done|rewrite length_drop|]; lia.
Qed.

Lemma blocks_S n m : blocks (S n) m = blocks n m ++ [take 64 (drop (64 * n) m)].
Proof. unfold blocks. by rewrite seq_S, map_app. Qed.

Lemma absorbed_feed ctx m x : absorbed ctx m -> absorbed (feed ctx x) (m ++ [x]).
Proof.
  intros [Hl Hb Hp Hs].
  pose proof (Nat.mod_upper_bound (length m) 64 ltac:(lia)) as Hlt.
  pose proof (Nat.div_mod_eq (length m) 64) as Hdm.
  assert (Hpx : take (S (buf_len ctx)) (<[buf_len ctx:=x]> (buf ctx)) =
                drop (64 * (length m / 64)) m ++ [x]).
  { rewrite (take_S_r _ _ x) by (apply list_lookup_insert_eq; lia).
    by rewrite take_insert_ge, Hp by lia. }
  unfold feed. destruct (Nat.eqb_spec (S (buf_len ctx)) 64) as [He|He].
  - assert (Hq : (length (m ++ [x]) = 64 * S (length m / 64))%nat)
      by (rewrite length_app; simpl length; lia).
    assert (Hd : (length (m ++ [x]) / 64 = S (length m / 64))%nat)
      by (rewrite Hq, Nat.mul_comm; apply Nat.div_mul; lia).
    constructor; rewrite ?Hd; simpl buf_len; simpl buf; simpl state.
    + rewrite Hq, Nat.mul_comm, Nat.Div0.mod_mul. done.
    + by rewrite length_insert.
    + rewrite drop_ge by lia. done.
    + rewrite blocks_S, fold_left_app, blocks_app, <- Hs by lia. simpl fold_left.
      f_equal.
      rewrite drop_app_le by lia. rewrite <- Hpx, take_take, He.
      by rewrite take_ge by (rewrite length_insert; lia).
  - assert (Hq : (length (m ++ [x]) / 64 = length m / 64)%nat).
    { rewrite length_app. simpl. symmetry.
      apply (Nat.div_unique _ 64 _ (S (length m mod 64))); lia. }
    constructor; rewrite ?Hq; simpl.
    + rewrite length_app. simpl.
      apply (Nat.mod_unique _ 64 (length m / 64)); lia.
    + by rewrite length_insert.
    + by rewrite drop_app_le by lia.
    + by rewrite blocks_app by lia.
Qed.

Lemma absorbed_feeds xs ctx m :
  absorbed ctx m -> absorbed (fold_left feed xs ctx) (m ++ xs).
Proof.
  revert ctx m. induction xs as [|x xs IH]; intros ctx m H; simpl.
  - by rewrite app_nil_r.
  - rewrite cons_middle, app_assoc. apply IH. by apply absorbed_feed.
Qed.

Lemma absorbed_set_total ctx m t : absorbed ctx m -> absorbed (set_total ctx t) m.
Proof. intros []. by constructor. Qed.

Lemma absorbed_update ctx m xs :
  absorbed ctx m -> absorbed (sar_sha256_update ctx xs) (m ++ xs).
Proof.
  intros H. rewrite sar_sha256_update_feed.
  - by apply absorbed_set_total, absorbed_feeds.
  - rewrite (abs_len _ _ H). apply Nat.mod_upper_bound. lia.
Qed.

Lemma absorbed_init b : length b = 64%nat -> absorbed (sar_sha256_init b) [].
Proof. by constructor. Qed.

Lemma total_feeds xs ctx : total (fold_left feed xs ctx) = total ctx.
Proof.
  revert ctx. induction xs as [|x xs IH]; intros ctx; simpl; [done|].
  rewrite IH. unfold feed. by destruct (Nat.eqb _ _).
Qed.

Lemma total_update ctx xs :
  total (sar_sha256_update ctx xs) = u64 (total ctx + Z.of_nat (length xs)).
Proof.
  unfold sar_sha256_update. generalize (u64 (total ctx + Z.of_nat (length xs))) as t.
  generalize (length xs) as fuel. intros fuel t.
  enough (forall c, total c = t -> total (update_loop fuel c xs) = t) as H by by apply H.
  revert xs. induction fuel as [|fuel IH]; intros xs c Hc; destruct xs as [|x xs]; simpl; try done.
  apply IH. simpl. by destruct (Nat.eqb _ _).
Qed.

Lemma pad_loop_absorbed k fuel ctx m :
  absorbed ctx m -> (k < fuel)%nat ->
  ((buf_len ctx + k) mod 64 = 56)%nat ->
  (forall j, (j < k)%nat -> (buf_len ctx + j) mod 64 <> 56)%nat ->
  absorbed (pad_loop fuel ctx) (m ++ replicate k 0).
Proof.
  revert k ctx m. induction fuel as [|fuel IH]; intros k ctx m Ha Hk He Hne; [lia|].
  pose proof (abs_len _ _ Ha) as Hl.
  pose proof (Nat.mod_upper_bound (length m) 64 ltac:(lia)) as Hlt.
  cbn [pad_loop]. destruct k as [|k].
  - rewrite Nat.add_0_r, Nat.mod_small in He by lia.
    rewrite He, app_nil_r. done.
  - pose proof (Hne 0%nat ltac:(lia)) as H0. rewrite Nat.add_0_r, Nat.mod_small in H0 by lia.
    destruct (Nat.eqb_spec (buf_len ctx) 56); [done|].
    pose proof (absorbed_update ctx m [0] Ha) as Ha'. pose proof (abs_len _ _ Ha') as Hl'.
    cbn [replicate]. rewrite cons_middle, app_assoc.
    assert (Hm : forall j : nat, ((buf_len (sar_sha256_update ctx [0%Z]) + j) mod 64 =
                                  (buf_len ctx + S j) mod 64)%nat).
    { intros j. rewrite Hl', Hl, length_app. simpl.
      rewrite !Nat.Div0.add_mod_idemp_l. f_equal. lia. }
    apply IH; [done|lia|by rewrite Hm|].
    intros j Hj. rewrite Hm. apply Hne. lia.
Qed.

Lemma length_be64 v : length (be64 v) = 8%nat.
Proof. done. Qed.

Lemma final_spec ctx m :
  absorbed ctx m -> total ctx = u64 (Z.of_nat (length m)) ->
  sar_sha256_final ctx = sha256_oneshot m.
Proof.
  intros Ha Ht. unfold sar_sha256_final, sha256_oneshot.
  set (k := ((119 - length m mod 64) mod 64)%nat).
  pose proof (absorbed_update ctx m [0x80] Ha) as H1.
  assert (Hl : buf_len (sar_sha256_update ctx [0x80]) = ((length m + 1) mod 64)%nat)
    by (by rewrite (abs_len _ _ H1), length_app).
  assert (H2 : absorbed (pad_loop SAR_SHA256_BLOCK (sar_sha256_update ctx [0x80]))
                        ((m ++ [0x80]) ++ replicate k 0)).
  { apply pad_loop_absorbed; unfold SAR_SHA256_BLOCK; [done| | |].
    - apply Nat.mod_upper_bound. lia.
    - rewrite Hl, Nat.Div0.add_mod_idemp_l. unfold k. clear. dlia.
    - intros j Hj. rewrite Hl, Nat.Div0.add_mod_idemp_l. unfold k in Hj. clear -Hj. dlia. }
  pose proof (absorbed_update _ _ (be64 (u64 (total ctx * 8))) H2) as H3.
  rewrite (abs_state _ _ H3). unfold pad.
  assert (Hb : u64 (total ctx * 8) = u64 (Z.of_nat (length m) * 8)).
  { rewrite Ht, !u64_mod, Z.mul_mod_idemp_l; lia. }
  by rewrite Hb, <- !app_assoc.
Qed.

Lemma length_sha256_round w v i : length v = 8%nat -> length (sha256_round w v i) = 8%nat.
Proof. intros H. do 8 (destruct v as [|? v]; [done|]). by destruct v. Qed.

Lemma length_sha256_compress st p :
  length st = 8%nat -> length (sha256_compress st p) = 8%nat.
Proof.
  intros H. unfold sha256_compress. rewrite length_zip_with.
  assert (forall l v, length v = 8%nat -> length (fold_left (sha256_round (sha256_w p)) l v) = 8%nat)
    as Hr by (induction l; intros; simpl; auto using length_sha256_round).
  by rewrite Hr, H.
Qed.

Lemma length_fold_compress l st :
  length st = 8%nat -> length (fold_left sha256_compress l st) = 8%nat.
Proof. revert st. induction l; intros; simpl; auto using length_sha256_compress. Qed.

Lemma length_digest_bytes st : length (digest_bytes st) = (4 * length st)%nat.
Proof. induction st; simpl; lia. Qed.

Lemma digest_bytes_range st : is_bytes (digest_bytes st).
Proof. induction st; simpl; [constructor|]. by repeat (apply Forall_cons; split; [auto with sar|]). Qed.

Lemma length_sha256_oneshot m : length (sha256_oneshot m) = 32%nat.
Proof. unfold sha256_oneshot. by rewrite length_digest_bytes, length_fold_compress. Qed.

Lemma sha256_eq m : sha256 m = sha256_oneshot m.
Proof.
  unfold sha256. apply final_spec.
  - apply (absorbed_update _ []). by apply absorbed_init.
  - by rewrite total_update.
Qed.

(** Two [update]s before [final], as in the two passes of HMAC. *)
Lemma sha256_two_updates a b :
  sar_sha256_final (sar_sha256_update (sar_sha256_update (sar_sha256_init fresh_buf) a) b) =
  sha256_oneshot (a ++ b).
Proof.
  apply final_spec.
  - apply absorbed_update, (absorbed_update _ []). by apply absorbed_init.
  - rewrite !total_update, length_app, Nat2Z.inj_add, !u64_mod, Z.add_mod_idemp_l by lia. done.
Qed.

Lemma hmac_key_pad k0 :
  (length k0 <= 64)%nat ->
  mem_write (replicate SAR_SHA256_BLOCK 0) 0 k0 = k0 ++ replicate (64 - length k0) 0.
Proof.
  intros H. rewrite mem_write_spec by (rewrite length_replicate; done).
  by rewrite drop_replicate.
Qed.

(** ** Properties *)

Lemma sha256_bytes (m : bytes) : length (sha256 m) = SAR_SHA256_DIGEST /\ is_bytes (sha256 m).
Proof. rewrite sha256_eq. split; [apply length_sha256_oneshot|apply digest_bytes_range]. Qed.

(** Cutting the message into several [update] calls does not
    change the context: [update] is a monoid action of byte strings. *)
Theorem sha256_update_app (ctx : sar_sha256_ctx) (a b : bytes) :
  (buf_len ctx < SAR_SHA256_BLOCK)%nat ->
  sar_sha256_update (sar_sha256_update ctx a) b = sar_sha256_update ctx (a ++ b).
Proof.
  intros H. rewrite (sar_sha256_update_feed ctx a), (sar_sha256_update_feed ctx) by done.
  rewrite sar_sha256_update_feed by by apply feeds_buf_len.
  rewrite feeds_set_total, fold_left_app. simpl.
  rewrite length_app, Nat2Z.inj_add, !u64_mod, Z.add_mod_idemp_l by lia.
  by rewrite Z.add_assoc.
Qed.

Lemma sha256_update_app_witness :
  (3 < 64)%nat /\
  let ctx := sar_sha256_update (sar_sha256_init fresh_buf) [1; 2; 3] in
  sar_sha256_update (sar_sha256_update ctx [4]) (replicate 100 5) =
  sar_sha256_update ctx (4 :: replicate 100 5).
Proof.
  split; [lia|]. intros ctx. apply (sha256_update_app ctx [4] (replicate 100 5)).
  vm_compute. lia.
Defined.

(** [sar_hmac_sha256] is the one-shot HMAC for keys of any length: short keys are
    zero-padded, long keys are hashed first. *)
Lemma hmac_eq (key msg : bytes) : sar_hmac_sha256 key msg = hmac_oneshot key msg.
Proof.
  unfold sar_hmac_sha256, hmac_oneshot. rewrite !sha256_two_updates, sha256_eq.
  change (SAR_SHA256_BLOCK <? length key)%nat with (64 <? length key)%nat.
  destruct (Nat.ltb_spec 64 (length key)) as [Hk|Hk].
  - by rewrite hmac_key_pad by (rewrite length_sha256_oneshot; lia).
  - by rewrite hmac_key_pad by lia.
Qed.

Lemma length_hmac key msg : length (sar_hmac_sha256 key msg) = 32%nat.
Proof.
  unfold sar_hmac_sha256. rewrite sha256_two_updates. apply length_sha256_oneshot.
Qed.

Lemma hmac_range key msg : is_bytes (sar_hmac_sha256 key msg).
Proof.
  unfold sar_hmac_sha256. rewrite sha256_two_updates. apply digest_bytes_range.
Qed.

(** NIST vector "abc" and RFC 4231 test case 2. *)
Example sha256_abc : sha256 [0x61; 0x62; 0x63] =
  [0xba;0x78;0x16;0xbf;0x8f;0x01;0xcf;0xea;0x41;0x41;0x40;0xde;0x5d;0xae;0x22;0x23;
   0xb0;0x03;0x61;0xa3;0x96;0x17;0x7a;0x9c;0xb4;0x10;0xff;0x61;0xf2;0x00;0x15;0xad].
Proof. vm_compute. reflexivity. Qed.

Example hmac_rfc4231_2 :
  sar_hmac_sha256 [0x4a;0x65;0x66;0x65]
    [0x77;0x68;0x61;0x74;0x20;0x64;0x6f;0x20;0x79;0x61;0x20;0x77;0x61;0x6e;0x74;0x20;
     0x66;0x6f;0x72;0x20;0x6e;0x6f;0x74;0x68;0x69;0x6e;0x67;0x3f] =
  [0x5b;0xdc;0xc1;0x46;0xbf;0x60;0x75;0x4e;0x6a;0x04;0x24;0x26;0x08;0x95;0x75;0xc7;
   0x5a;0x00;0x3f;0x08;0x9d;0x27;0x39;0x83;0x9d;0xec;0x58;0xb9;0x64;0xec;0x38;0x43].
Proof. vm_compute. reflexivity. Qed.

End Sha256.
