(* ===== verification/Format.v ===== *)
(** * On-disk and in-memory structures

    The constants and packed structures of common/include/semantics_ar
    (keystore_format.h, preserve_format.h), the conviction verdict of
    engine/include/conviction_engine.h and the rollback anchor of
    engine/include/sar_keystore.h.  Every packed structure has a [Packed]
    instance, so its [memcpy] image and its [sizeof] are computed. *)

From S2P Require Import Prelude Mem.
Import Layout.

Definition SEMANTICS_AR_KEYSTORE_MAGIC : Z := 0x53414B53.
Definition SEMANTICS_AR_PRESERVE_MAGIC : Z := 0x50524153.

Definition SEMANTICS_AR_KEY_ID_SIZE : nat := 32.
Definition SEMANTICS_AR_MAC_SIZE : nat := 32.
Definition SEMANTICS_AR_MAX_KEY_BYTES : nat := 64.
Definition SEMANTICS_AR_IV_MAX : nat := 24.
Definition SEMANTICS_AR_PROVENANCE_PATH_MAX : nat := 260.
Definition SEMANTICS_AR_SAMPLE_TAG_MAX : nat := 64.

Definition SAR_ALG_AES_128 : Z := 1.
Definition SAR_ALG_AES_192 : Z := 2.
Definition SAR_ALG_AES_256 : Z := 3.
Definition SAR_ALG_3DES : Z := 4.
Definition SAR_ALG_SM4 : Z := 5.
Definition SAR_ALG_CAMELLIA : Z := 6.
Definition SAR_ALG_ARIA : Z := 7.
Definition SAR_ALG_SEED : Z := 8.
Definition SAR_ALG_CHACHA20 : Z := 9.
Definition SAR_ALG_XCHACHA20 : Z := 10.
Definition SAR_ALG_SALSA20 : Z := 11.
Definition SAR_ALG_XSALSA20 : Z := 12.
Definition SAR_ALG_RC4 : Z := 13.

Definition SAR_MODE_ECB : Z := 1.
Definition SAR_MODE_CBC : Z := 2.
Definition SAR_MODE_CTR : Z := 3.
Definition SAR_MODE_XTS : Z := 4.
Definition SAR_MODE_CFB : Z := 5.
Definition SAR_MODE_OFB : Z := 6.
Definition SAR_MODE_STREAM : Z := 7.

Definition SAR_PRESERVE_PROBATION : Z := 0.
Definition SAR_PRESERVE_PROTECTED : Z := 1.

Module Verdict.

Record sar_verdict_t := {
  convicted : bool;
  algorithm : Z;
  mode : Z;
  key : bytes;
  key_length : Z;
  mode_params : Z;
  iv : bytes;
  iv_length : Z;
  ctr_layout_tag : Z
}.

(** [sar_memset(out, 0, sizeof( *out))] on a verdict. *)
Definition zero : sar_verdict_t := {|
  convicted := false; algorithm := 0; mode := 0;
  key := replicate SEMANTICS_AR_MAX_KEY_BYTES 0; key_length := 0; mode_params := 0;
  iv := replicate SEMANTICS_AR_IV_MAX 0; iv_length := 0; ctr_layout_tag := 0
|}.

Record wf (v : sar_verdict_t) : Prop := {
  wf_algorithm : is_u32 (algorithm v);
  wf_mode : is_u32 (mode v);
  wf_key : length (key v) = SEMANTICS_AR_MAX_KEY_BYTES /\ is_bytes (key v);
  wf_key_length : is_u32 (key_length v);
  wf_mode_params : is_u64 (mode_params v);
  wf_iv : length (iv v) = SEMANTICS_AR_IV_MAX /\ is_bytes (iv v);
  wf_iv_length : is_u8 (iv_length v);
  wf_tag : is_u8 (ctr_layout_tag v)
}.

End Verdict.

(** The rollback anchor shared by both stores. *)
Record sar_keystore_anchor_t := {
  anchor_present : bool;
  anchor_generation : Z;
  anchor_head_mac : bytes
}.

Module KsRec.

Record semantics_ar_keystore_record_t := {
  key_id : bytes;
  algorithm : Z;
  mode : Z;
  key_length : Z;
  key_bytes : bytes;
  iv : bytes;
  iv_length : Z;
  ctr_layout_tag : Z;
  mode_params : Z;
  provenance_offset : Z;
  provenance_length : Z;
  provenance_path : list Z;
  sample_offset : Z;
  sample_length : Z;
  sample_tag : bytes;
  capture_time : Z;
  actor_start_key : Z
}.

Definition rec_codec : codec semantics_ar_keystore_record_t :=
  c_iso
    (c_pair (c_bytes 32) (c_pair (c_uint 4) (c_pair (c_uint 4) (c_pair (c_uint 4)
    (c_pair (c_bytes 64) (c_pair (c_bytes 24) (c_pair (c_uint 1) (c_pair (c_uint 1)
    (c_pair (c_uint 8) (c_pair (c_uint 8) (c_pair (c_uint 8) (c_pair (c_u16s 260)
    (c_pair (c_uint 8) (c_pair (c_uint 4) (c_pair (c_bytes 32) (c_pair (c_uint 8)
    (c_uint 8)))))))))))))))))
    (fun r => (key_id r, (algorithm r, (mode r, (key_length r, (key_bytes r, (iv r,
       (iv_length r, (ctr_layout_tag r, (mode_params r, (provenance_offset r,
       (provenance_length r, (provenance_path r, (sample_offset r, (sample_length r,
       (sample_tag r, (capture_time r, actor_start_key r)))))))))))))))))
    (fun '(a, (b, (c, (d, (e, (f, (g, (h, (i, (j, (k, (l, (m, (n, (o, (p, q)))))))))))))))) =>
       Build_semantics_ar_keystore_record_t a b c d e f g h i j k l m n o p q).

#[global] Instance keystore_record_packed : Packed semantics_ar_keystore_record_t.
Proof.
  refine {| layout := rec_codec; layout_ok := c_iso_ok _ _ _ _ _ _ |}.
  - by intros (?&?&?&?&?&?&?&?&?&?&?&?&?&?&?&?&?).
  - by intros [].
Defined.

(** [sar_memset(rec, 0, sizeof( *rec))]. *)
Definition zero : semantics_ar_keystore_record_t := {|
  key_id := replicate SEMANTICS_AR_KEY_ID_SIZE 0; algorithm := 0; mode := 0;
  key_length := 0; key_bytes := replicate SEMANTICS_AR_MAX_KEY_BYTES 0;
  iv := replicate SEMANTICS_AR_IV_MAX 0; iv_length := 0; ctr_layout_tag := 0;
  mode_params := 0; provenance_offset := 0; provenance_length := 0;
  provenance_path := replicate SEMANTICS_AR_PROVENANCE_PATH_MAX 0;
  sample_offset := 0; sample_length := 0;
  sample_tag := replicate SEMANTICS_AR_MAC_SIZE 0; capture_time := 0; actor_start_key := 0
|}.

End KsRec.

Module PresRec.

Record sar_preserve_record_t := {
  provenance_path : list Z;
  provenance_offset : Z;
  provenance_length : Z;
  capture_time : Z;
  payload_offset : Z;
  payload_length : Z;
  actor_id : Z;
  state : Z;
  kind : Z;
  iv : bytes;
  iv_length : Z;
  content_tag : bytes;
  causing_image_path : list Z
}.

Definition rec_codec : codec sar_preserve_record_t :=
  c_iso
    (c_pair (c_u16s 260) (c_pair (c_uint 8) (c_pair (c_uint 8) (c_pair (c_uint 8)
    (c_pair (c_uint 8) (c_pair (c_uint 8) (c_pair (c_uint 8) (c_pair (c_uint 4)
    (c_pair (c_uint 1) (c_pair (c_bytes 24) (c_pair (c_uint 1) (c_pair (c_bytes 32)
    (c_u16s 260)))))))))))))
    (fun r => (provenance_path r, (provenance_offset r, (provenance_length r,
       (capture_time r, (payload_offset r, (payload_length r, (actor_id r, (state r,
       (kind r, (iv r, (iv_length r, (content_tag r, causing_image_path r)))))))))))))
    (fun '(a, (b, (c, (d, (e, (f, (g, (h, (i, (j, (k, (l, m)))))))))))) =>
       Build_sar_preserve_record_t a b c d e f g h i j k l m).

#[global] Instance preserve_record_packed : Packed sar_preserve_record_t.
Proof.
  refine {| layout := rec_codec; layout_ok := c_iso_ok _ _ _ _ _ _ |}.
  - by intros (?&?&?&?&?&?&?&?&?&?&?&?&?).
  - by intros [].
Defined.

Definition zero : sar_preserve_record_t := {|
  provenance_path := replicate SEMANTICS_AR_PROVENANCE_PATH_MAX 0;
  provenance_offset := 0; provenance_length := 0; capture_time := 0; payload_offset := 0;
  payload_length := 0; actor_id := 0; state := 0; kind := 0;
  iv := replicate SEMANTICS_AR_IV_MAX 0; iv_length := 0;
  content_tag := replicate SEMANTICS_AR_MAC_SIZE 0;
  causing_image_path := replicate SEMANTICS_AR_PROVENANCE_PATH_MAX 0
|}.

End PresRec.

(** Both stores start with the same packed header:
    [semantics_ar_keystore_header_t] and [sar_preserve_header_t]. *)
Module StoreHdr.

Record store_header_t := {
  magic : Z;
  record_count : Z;
  generation : Z;
  head_mac : bytes
}.

Definition hdr_codec : codec store_header_t :=
  c_iso (c_pair (c_uint 4) (c_pair (c_uint 8) (c_pair (c_uint 8) (c_bytes 32))))
    (fun h => (magic h, (record_count h, (generation h, head_mac h))))
    (fun '(a, (b, (c, d))) => Build_store_header_t a b c d).

#[global] Instance store_header_packed : Packed store_header_t.
Proof.
  refine {| layout := hdr_codec; layout_ok := c_iso_ok _ _ _ _ _ _ |}.
  - by intros (?&?&?&?).
  - by intros [].
Defined.

End StoreHdr.

Lemma sizeof_keystore_record : sizeof KsRec.semantics_ar_keystore_record_t = 738%nat.
Proof. reflexivity. Qed.
Lemma sizeof_preserve_record : sizeof PresRec.sar_preserve_record_t = 1150%nat.
Proof. reflexivity. Qed.
Lemma sizeof_store_header : sizeof StoreHdr.store_header_t = 52%nat.
Proof. reflexivity. Qed.
