(* ===== verification/Chain.v ===== *)
(** * The MAC chain of the persistent stores

    Both stores (engine/src/keystore.c and engine/src/preserve.c) write, after
    a header, one disk record per entry: the packed fields followed by a MAC
    over the fields and the previous MAC.  This file has the loops the two
    share, over any packed record type and any MAC function that meets the
    interface [MacFunction]; [hmac_mac] discharges it for HMAC-SHA-256. *)

From S2P Require Import Prelude Mem Sha256.
Import Mem Layout.

(** What a MAC promises to the stores: a fixed-size byte string. *)
Class MacFunction (mac : bytes -> bytes -> bytes) : Prop := {
  mac_length k m : length (mac k m) = 32%nat;
  mac_bytes k m : is_bytes (mac k m)
}.

#[global] Instance hmac_mac : MacFunction Sha256.sar_hmac_sha256.
Proof. split; [apply Sha256.length_hmac|apply Sha256.hmac_range]. Qed.

(** The outcome of C code that reads a caller's buffer: a result, a read
    outside the buffer, or a loop cut short by the model's fuel. *)
Inductive cres (A : Type) := Ret (a : A) | OutOfBounds | NoFuel.
Arguments Ret {A}. Arguments OutOfBounds {A}. Arguments NoFuel {A}.

Definition cbind {A B} (m : cres A) (k : A -> cres B) : cres B :=
  match m with
  | Ret a => k a
  | OutOfBounds => OutOfBounds
  | NoFuel => NoFuel
  end.

Notation "'let!' x := m 'in' k" := (cbind m (fun x => k))
  (at level 10, x pattern, m at level 100, k at level 200) : word_scope.

Definition is_mac (m : bytes) : Prop := length m = 32%nat /\ is_bytes m.

Section Chain.
Context {R : Type} `{Packed R} (mac : bytes -> bytes -> bytes) `{!MacFunction mac}.
Context (mac_key : bytes).

Definition disk_size : nat := sizeof R + 32.

(** [mac_record]: HMAC over the packed fields followed by the previous MAC. *)
Definition mac_record (fields : R) (prev_mac : bytes) : bytes :=
  mac mac_key (struct_bytes fields ++ prev_mac).

(** The record loop of [serialize]: the bytes stored from [p] on, and the
    last MAC, which becomes [hdr.head_mac]. *)
Fixpoint chain_write (records : list R) (prev : bytes) : bytes * bytes :=
  match records with
  | [] => ([], prev)
  | r :: rs =>
      let m := mac_record r prev in
      let '(out, last) := chain_write rs m in
      (struct_bytes r ++ m ++ out, last)
  end.

(** The record loop of [verify]: record [i] of [count] is read from [p];
    [Ret None] is the MAC mismatch, [Ret (Some prev)] the end of the loop. *)
Fixpoint chain_check (fuel : nat) (i count : Z) (p prev : bytes) : cres (option bytes) :=
  match fuel with
  | O => NoFuel
  | S fuel =>
      if i <? count then
        if (length p <? disk_size)%nat then OutOfBounds
        else
          let fields : R := struct_of (take (sizeof R) p) in
          let disk_mac := take 32 (drop (sizeof R) p) in
          let m := mac_record fields prev in
          if sar_ct_equal m disk_mac 32
          then chain_check fuel (u64 (i + 1)) count (drop disk_size p) disk_mac
          else Ret None
      else Ret (Some prev)
  end.

(** The copy loop of [load]: the fields of the first [n] disk records. *)
Fixpoint chain_read (n : nat) (p : bytes) : list R :=
  match n with
  | O => []
  | S n => struct_of (take (sizeof R) p) :: chain_read n (drop disk_size p)
  end.

Lemma is_mac_mac k m : is_mac (mac k m).
Proof. split; [apply mac_length|apply mac_bytes]. Qed.

Lemma chain_write_cons r rs prev :
  chain_write (r :: rs) prev =
    (struct_bytes r ++ mac_record r prev ++ (chain_write rs (mac_record r prev)).1,
     (chain_write rs (mac_record r prev)).2).
Proof. simpl. by destruct (chain_write rs (mac_record r prev)). Qed.

Lemma length_chain_write rs prev :
  Forall struct_wf rs ->
  length (chain_write rs prev).1 = (length rs * disk_size)%nat.
Proof.
  revert prev. induction rs as [|r rs IH]; intros prev Hw; [done|].
  apply Forall_cons in Hw as [Hr Hw]. rewrite chain_write_cons. simpl fst.
  rewrite !length_app, IH, length_struct_bytes by done.
  unfold mac_record. rewrite mac_length. unfold disk_size. simpl length. lia.
Qed.

Lemma chain_write_last rs prev : is_mac prev -> is_mac (chain_write rs prev).2.
Proof.
  revert prev. induction rs as [|r rs IH]; intros prev Hp; [done|].
  rewrite chain_write_cons. apply IH, is_mac_mac.
Qed.

Lemma chain_write_bytes rs prev :
  Forall struct_wf rs -> is_bytes (chain_write rs prev).1.
Proof.
  revert prev. induction rs as [|r rs IH]; intros prev Hw; [constructor|].
  apply Forall_cons in Hw as [Hr Hw]. rewrite chain_write_cons. simpl.
  rewrite !Forall_app. split_and!; auto using is_bytes_struct_bytes.
  unfold mac_record. apply mac_bytes.
Qed.

(** The pieces of a written disk record, read back. *)
Lemma disk_record_split r m rest :
  struct_wf r -> length m = 32%nat ->
  take (sizeof R) (struct_bytes r ++ m ++ rest) = struct_bytes r /\
  take 32 (drop (sizeof R) (struct_bytes r ++ m ++ rest)) = m /\
  drop disk_size (struct_bytes r ++ m ++ rest) = rest.
Proof.
  intros Hr Hm. pose proof (length_struct_bytes r Hr) as Hl. split_and!.
  - by rewrite take_app_length'.
  - by rewrite drop_app_length', take_app_length'.
  - unfold disk_size. rewrite <- drop_drop, drop_app_length', drop_app_length'; done.
Qed.

Lemma chain_read_write rs prev tail :
  Forall struct_wf rs ->
  chain_read (length rs) ((chain_write rs prev).1 ++ tail) = rs.
Proof.
  revert prev tail. induction rs as [|r rs IH]; intros prev tail Hw; [done|].
  apply Forall_cons in Hw as [Hr Hw]. rewrite chain_write_cons. simpl fst.
  rewrite <- !app_assoc. cbn [length chain_read].
  destruct (disk_record_split r (mac_record r prev)
    ((chain_write rs (mac_record r prev)).1 ++ tail) Hr (mac_length mac_key _)) as (-> & _ & ->).
  by rewrite struct_of_bytes, IH.
Qed.

(** What [serialize] writes, [verify] accepts, ending at the last MAC. *)
Lemma chain_check_write rs prev tail fuel i :
  Forall struct_wf rs -> is_mac prev ->
  0 <= i -> i + Z.of_nat (length rs) < 2 ^ 64 -> (length rs < fuel)%nat ->
  chain_check fuel i (i + Z.of_nat (length rs)) ((chain_write rs prev).1 ++ tail) prev =
  Ret (Some (chain_write rs prev).2).
Proof.
  revert prev tail fuel i. induction rs as [|r rs IH]; intros prev tail fuel i Hw Hp Hi Hc Hf;
    (destruct fuel as [|fuel]; [simpl in Hf; lia|]); cbn [chain_check].
  - cbn [length]. by rewrite Z.add_0_r, Z.ltb_irrefl.
  - apply Forall_cons in Hw as [Hr Hw]. cbn [length] in *.
    destruct (Z.ltb_spec i (i + Z.of_nat (S (length rs)))); [|lia].
    rewrite chain_write_cons. simpl fst. simpl snd. rewrite <- !app_assoc.
    pose proof (is_mac_mac mac_key (struct_bytes r ++ prev)) as Hm.
    fold (mac_record r prev) in Hm. destruct Hm as [Hml Hmb].
    destruct (disk_record_split r (mac_record r prev)
      ((chain_write rs (mac_record r prev)).1 ++ tail) Hr Hml) as (-> & -> & ->).
    rewrite struct_of_bytes, sar_ct_equal_refl by done.
    rewrite !length_app, Hml, length_struct_bytes by done.
    match goal with |- context [(?a <? ?b)%nat] => destruct (Nat.ltb_spec a b) end.
    { unfold disk_size in *. lia. }
    rewrite u64_small by (unfold is_u; lia).
    replace (i + Z.of_nat (S (length rs))) with ((i + 1) + Z.of_nat (length rs)) by lia.
    apply IH; [done|done|lia..].
Qed.

(** Only the image of [serialize] is accepted: the records read back, written
    out again, give the bytes that were checked. *)
Lemma chain_check_inv fuel i count p prev last :
  is_bytes p -> 0 <= i -> i <= count < 2 ^ 64 -> is_mac prev ->
  chain_check fuel i count p prev = Ret (Some last) ->
  exists rs, Forall struct_wf rs /\ Z.of_nat (length rs) = count - i /\
    take (length rs * disk_size) p = (chain_write rs prev).1 /\
    last = (chain_write rs prev).2 /\ (length rs * disk_size <= length p)%nat.
Proof.
  revert i p prev. induction fuel as [|fuel IH]; intros i p prev Hp Hi Hc Hpm H0; [done|].
  cbn [chain_check] in H0. destruct (Z.ltb_spec i count) as [Hlt|Hge].
  2: { injection H0 as <-. exists []. split_and!; simpl; try done; lia. }
  destruct (Nat.ltb_spec (length p) disk_size) as [|Hlen]; [done|].
  destruct (sar_ct_equal _ _ _) eqn:Heq; [|done].
  assert (Hf1 : length (take (sizeof R) p) = sizeof R)
    by (rewrite length_take; unfold disk_size in *; lia).
  assert (Hdm : is_mac (take 32 (drop (sizeof R) p))).
  { split; [|by apply Forall_take, Forall_drop].
    rewrite length_take, length_drop. unfold disk_size in *. lia. }
  destruct Hdm as [Hdl Hdb].
  apply sar_ct_equal_eq in Heq; [|unfold mac_record; apply mac_bytes|done|unfold mac_record; apply mac_length|done].
  rewrite u64_small in H0 by (unfold is_u; lia).
  apply IH in H0; [|by apply Forall_drop|lia|lia|done].
  destruct H0 as (rs & Hw & Hn & Ht & Hl & Hle).
  exists (struct_of (take (sizeof R) p) :: rs). rewrite chain_write_cons, Heq.
  rewrite length_drop in Hle. split_and!.
  - apply Forall_cons. split; [|done]. apply struct_wf_of; [done|by apply Forall_take].
  - simpl. lia.
  - simpl fst. rewrite <- Ht, struct_bytes_of by (done || by apply Forall_take).
    simpl length. replace (S (length rs) * disk_size)%nat
      with (sizeof R + (32 + length rs * disk_size))%nat by (unfold disk_size; lia).
    rewrite <- take_take_drop. f_equal. rewrite <- take_take_drop. f_equal.
    by rewrite drop_drop.
  - by rewrite Hl.
  - simpl. lia.
Qed.

(** The loop stays inside a buffer that holds all the records it reads, and
    ends within [count] iterations. *)
Lemma chain_check_safe fuel i count p prev :
  0 <= i -> i <= count < 2 ^ 64 -> (count - i) * Z.of_nat disk_size <= Z.of_nat (length p) ->
  count - i < Z.of_nat fuel ->
  exists r, chain_check fuel i count p prev = Ret r.
Proof.
  revert i p prev. induction fuel as [|fuel IH]; intros i p prev Hi Hc Hp Hf; [lia|].
  cbn [chain_check]. destruct (Z.ltb_spec i count) as [Hlt|Hge]; [|eauto].
  assert (Hd : (disk_size <= length p)%nat) by nia.
  destruct (Nat.ltb_spec (length p) disk_size); [lia|].
  destruct (sar_ct_equal _ _ _); [|eauto].
  rewrite u64_small by (unfold is_u; lia). apply IH; rewrite ?length_drop; nia.
Qed.

Lemma chain_write_app a b prev :
  chain_write (a ++ b) prev =
    ((chain_write a prev).1 ++ (chain_write b (chain_write a prev).2).1,
     (chain_write b (chain_write a prev).2).2).
Proof.
  revert prev. induction a as [|r a IH]; intros prev.
  - cbn [app chain_write fst snd]. by destruct (chain_write b prev).
  - cbn [app]. rewrite !chain_write_cons, IH. simpl. by rewrite <- !app_assoc.
Qed.

(** The MAC stored with record [n - 1] of a body: what [head_mac] is for the
    first [n] records. *)
Definition stored_mac (n : nat) (body zero : bytes) : bytes :=
  match n with
  | O => zero
  | S k => take 32 (drop (k * disk_size + sizeof R) body)
  end.

Lemma stored_mac_write a b prev :
  Forall struct_wf a ->
  stored_mac (length a) (chain_write (a ++ b) prev).1 prev = (chain_write a prev).2.
Proof.
  intros Hw. rewrite chain_write_app. cbn [fst snd].
  destruct a as [|r a _] using rev_ind; [done|].
  apply Forall_app in Hw as [Hw Hr]. apply Forall_cons in Hr as [Hr _].
  rewrite chain_write_app. cbn [fst snd]. rewrite chain_write_cons. cbn [chain_write fst snd].
  rewrite length_app, Nat.add_comm, <- !app_assoc. cbn [length stored_mac Nat.add].
  rewrite <- drop_drop, drop_app_length' by by rewrite length_chain_write.
  rewrite drop_app_length' by by rewrite length_struct_bytes.
  by rewrite app_nil_l, take_app_length' by (unfold mac_record; by rewrite mac_length).
Qed.

End Chain.

#[global] Arguments chain_write : simpl never.
#[global] Arguments chain_check : simpl never.
#[global] Arguments chain_read : simpl never.
#[global] Arguments stored_mac : simpl never.
