(* ===== verification/Store.v ===== *)
(** * The image of a persistent store: header and MAC chain

    The key ledger (engine/src/keystore.c) and the preservation store
    (engine/src/preserve.c) have the same disk format and differ in the magic
    number and in the MAC the chain starts from.  [StoreFormat] is what a store
    promises; the lemmas here are the round trip and the canonicity of an image
    for any store that meets it, with HMAC-SHA-256 as the MAC. *)

From S2P Require Import Prelude Mem Format Sha256 Chain.
Import Mem Layout.

(** A store of records [R]: its magic number and the first "previous MAC" of
    the chain, from the key, the generation and the record count. *)
Class StoreFormat (R : Type) `{Packed R} := {
  store_magic : Z;
  store_seed : bytes -> Z -> Z -> bytes;
  store_magic_ok : is_u32 store_magic;
  store_seed_ok k g n : is_mac (store_seed k g n)
}.

Definition HDR : nat := sizeof StoreHdr.store_header_t.

Section Store.
Context {R : Type} `{HR : Packed R} `{HS : !StoreFormat R}.

Definition DISK : nat := disk_size (R := R).

(** [size_t] is 64 bits wide: the product and the sum wrap. *)
Definition serialized_size (count : Z) : Z :=
  u64 (Z.of_nat HDR + u64 (count * Z.of_nat DISK)).

Definition chain_of (k : bytes) (rs : list R) (g : Z) : bytes * bytes :=
  chain_write Sha256.sar_hmac_sha256 k rs (store_seed k g (Z.of_nat (length rs))).

Definition store_hdr (k : bytes) (rs : list R) (g : Z) : StoreHdr.store_header_t :=
  {| StoreHdr.magic := store_magic; StoreHdr.record_count := Z.of_nat (length rs);
     StoreHdr.generation := g; StoreHdr.head_mac := (chain_of k rs g).2 |}.

Definition store_image (k : bytes) (rs : list R) (g : Z) : bytes :=
  struct_bytes (store_hdr k rs g) ++ (chain_of k rs g).1.

(** The chain loop of [verify], on the whole buffer. *)
Definition check_body (k buf : bytes) (hdr : StoreHdr.store_header_t) : cres (option bytes) :=
  chain_check (R := R) Sha256.sar_hmac_sha256 k (S (length buf)) 0
    (StoreHdr.record_count hdr) (drop HDR buf)
    (store_seed k (StoreHdr.generation hdr) (StoreHdr.record_count hdr)).

(** A table that fits the address space, with its generation. *)
Record table_ok (rs : list R) (g : Z) : Prop := {
  tok_wf : Forall struct_wf rs;
  tok_gen : is_u64 g;
  tok_size : Z.of_nat HDR + Z.of_nat (length rs) * Z.of_nat DISK < 2 ^ 64
}.

Lemma chain_of_head k rs g : is_mac (chain_of k rs g).2.
Proof. apply chain_write_last; [apply _|apply store_seed_ok]. Qed.

Lemma length_chain_of k rs g :
  Forall struct_wf rs -> length (chain_of k rs g).1 = (length rs * DISK)%nat.
Proof. intros H. apply length_chain_write; [apply _|done]. Qed.

Lemma store_hdr_wf k rs g : table_ok rs g -> struct_wf (store_hdr k rs g).
Proof.
  intros [_ Hg Hs]. pose proof (chain_of_head k rs g) as [Hl Hb].
  unfold DISK, disk_size in Hs. pose proof store_magic_ok as Hm. unfold is_u in Hg, Hm.
  unfold struct_wf; simpl. split_and!; try done; lia.
Qed.

Lemma image_take k rs g :
  table_ok rs g -> struct_of (take HDR (store_image k rs g)) = store_hdr k rs g.
Proof.
  intros H. pose proof (store_hdr_wf k rs g H) as Hw. unfold store_image.
  rewrite take_app_length' by (by rewrite length_struct_bytes). by apply struct_of_bytes.
Qed.

Lemma image_drop k rs g :
  table_ok rs g -> drop HDR (store_image k rs g) = (chain_of k rs g).1.
Proof.
  intros H. pose proof (store_hdr_wf k rs g H) as Hw. unfold store_image.
  by rewrite drop_app_length' by (by rewrite length_struct_bytes).
Qed.

Lemma length_image k rs g :
  table_ok rs g -> length (store_image k rs g) = (HDR + length rs * DISK)%nat.
Proof.
  intros H. unfold store_image. rewrite length_app, length_struct_bytes, length_chain_of;
    [done|by destruct H|by apply store_hdr_wf].
Qed.

Lemma image_bytes k rs g : table_ok rs g -> is_bytes (store_image k rs g).
Proof.
  intros H. apply Forall_app. split; [by apply is_bytes_struct_bytes, store_hdr_wf|].
  apply chain_write_bytes; [apply _|by destruct H].
Qed.

Lemma serialized_size_exact n :
  0 <= n -> Z.of_nat HDR + n * Z.of_nat DISK < 2 ^ 64 ->
  serialized_size n = Z.of_nat HDR + n * Z.of_nat DISK.
Proof.
  intros Hn Hs. unfold serialized_size. change HDR with 52%nat in *.
  assert (0 <= n * Z.of_nat DISK) by lia.
  rewrite (u64_small (n * _)) by (unfold is_u; lia). apply u64_small. unfold is_u; lia.
Qed.

(** The copy loop of [load] gives the records of an image back. *)
Lemma image_read k rs g :
  table_ok rs g -> chain_read (length rs) (chain_of k rs g).1 = rs.
Proof.
  intros H. rewrite <- (app_nil_r (chain_of k rs g).1).
  apply chain_read_write; [apply _|by destruct H].
Qed.

Lemma check_body_image k rs g :
  table_ok rs g ->
  check_body k (store_image k rs g) (store_hdr k rs g) = Ret (Some (chain_of k rs g).2).
Proof.
  intros H. unfold check_body. rewrite image_drop, length_image by done.
  cbn [StoreHdr.record_count StoreHdr.generation store_hdr].
  rewrite <- (app_nil_r (chain_of k rs g).1).
  apply (chain_check_write Sha256.sar_hmac_sha256 k rs _ [] _ 0).
  - by destruct H.
  - apply store_seed_ok.
  - done.
  - destruct H as [_ _ Hs]. unfold DISK, disk_size in Hs. lia.
  - unfold DISK, disk_size. lia.
Qed.

Lemma header_wf buf :
  is_bytes buf -> (HDR <= length buf)%nat ->
  struct_wf (struct_of (take HDR buf) : StoreHdr.store_header_t).
Proof.
  intros Hb Hl. apply struct_wf_of; [|by apply Forall_take].
  rewrite length_take. change (sizeof StoreHdr.store_header_t) with HDR. lia.
Qed.

Lemma header_count buf :
  is_bytes buf -> (HDR <= length buf)%nat ->
  0 <= StoreHdr.record_count (struct_of (take HDR buf)) < 2 ^ 64.
Proof. intros Hb Hl. by destruct (header_wf buf Hb Hl) as (_ & H & _). Qed.

(** The loop neither leaves a buffer of the announced size nor runs on. *)
Lemma check_body_safe k buf hdr :
  0 <= StoreHdr.record_count hdr < 2 ^ 64 ->
  Z.of_nat (length buf) = Z.of_nat HDR + StoreHdr.record_count hdr * Z.of_nat DISK ->
  exists r, check_body k buf hdr = Ret r.
Proof.
  intros Hc Hl. apply chain_check_safe; unfold DISK, disk_size in *; rewrite ?length_drop; lia.
Qed.

(** A buffer whose header, size, chain and head check out is an image. *)
Lemma check_body_inv k buf prev :
  let hdr := struct_of (take HDR buf) in
  is_bytes buf -> (HDR <= length buf)%nat -> StoreHdr.magic hdr = store_magic ->
  Z.of_nat (length buf) = Z.of_nat HDR + StoreHdr.record_count hdr * Z.of_nat DISK ->
  Z.of_nat (length buf) < 2 ^ 64 ->
  check_body k buf hdr = Ret (Some prev) ->
  sar_ct_equal prev (StoreHdr.head_mac hdr) 32 = true ->
  exists rs, let g := StoreHdr.generation hdr in
    table_ok rs g /\ buf = store_image k rs g /\ hdr = store_hdr k rs g.
Proof.
  intros hdr Hb Hl Em Ee H64 Ec Eh. pose proof (header_wf buf Hb Hl) as Hw.
  pose proof (header_count buf Hb Hl) as Hc.
  pose proof (struct_bytes_of (A := StoreHdr.store_header_t) (take HDR buf)) as Hsb.
  fold hdr in Hw, Hc, Hsb. unfold check_body in Ec.
  apply chain_check_inv in Ec;
    [|apply _|by apply Forall_drop|lia|lia|apply store_seed_ok].
  destruct Ec as (rs & Hrs & Hn & Ht & Hp & Hle). rewrite Z.sub_0_r in Hn.
  rewrite length_drop in Hle. rewrite <- Hn in Ht, Hp.
  fold (chain_of k rs (StoreHdr.generation hdr)) in Ht, Hp. subst prev.
  assert (Hhm : is_mac (StoreHdr.head_mac hdr)) by by destruct Hw as (_ & _ & _ & ?).
  destruct (chain_of_head k rs (StoreHdr.generation hdr)) as [Hcl Hcb], Hhm as [Hhl Hhb].
  apply sar_ct_equal_eq in Eh; [|done..]. exists rs. cbn zeta.
  assert (Hh : hdr = store_hdr k rs (StoreHdr.generation hdr)).
  { unfold store_hdr. rewrite Hn, <- Em, Eh. by destruct hdr. }
  split_and!; [| |done].
  - constructor; [done|by destruct Hw as (_ & _ & ? & _)|by rewrite Hn, <- Ee].
  - unfold store_image. rewrite <- Hh, Hsb, <- Ht;
      [|rewrite length_take; change (sizeof _) with HDR; lia|by apply Forall_take].
    rewrite (take_ge (drop HDR buf)), take_drop; [done|]. rewrite length_drop.
    change (disk_size (R := R)) with DISK. lia.
Qed.

End Store.

#[global] Arguments DISK R {HR}.
#[global] Arguments serialized_size R {HR} count.
#[global] Arguments chain_of : simpl never.
#[global] Arguments store_image : simpl never.
#[global] Arguments check_body : simpl never.
