(* ===== verification/Keystore.v ===== *)
(** * The captured-key ledger (engine/src/keystore.c, keystore_mgr.c)

    [Keystore] models the record constructor, the append-only table and the
    MAC-chained image with its verification; [KeystoreMgr] the load/persist
    pair with the rollback anchor.  A [uint8_t*] that may be NULL is an
    [option]; the buffer's length plays the role of the [len]/[cap] argument. *)

From S2P Require Import Prelude Mem Format Sha256 Chain Store.
Import Mem Layout.

Module Keystore.
Import KsRec.

Inductive sar_ks_status_t :=
  | SAR_KS_OK | SAR_KS_INVALID_ARG | SAR_KS_FULL | SAR_KS_BUFFER_TOO_SMALL
  | SAR_KS_BAD_MAGIC | SAR_KS_TRUNCATED | SAR_KS_RECORD_MAC | SAR_KS_COUNT_MISMATCH
  | SAR_KS_ROLLBACK.

#[global] Instance sar_ks_status_eq_dec : EqDecision sar_ks_status_t.
Proof. solve_decision. Defined.

(** The enumeration's values. *)
Definition ks_code (s : sar_ks_status_t) : Z :=
  match s with
  | SAR_KS_OK => 0 | SAR_KS_INVALID_ARG => -1 | SAR_KS_FULL => -2
  | SAR_KS_BUFFER_TOO_SMALL => -3 | SAR_KS_BAD_MAGIC => -4 | SAR_KS_TRUNCATED => -6
  | SAR_KS_RECORD_MAC => -7 | SAR_KS_COUNT_MISMATCH => -8 | SAR_KS_ROLLBACK => -9
  end.

Definition le32_loop (v : Z) : bytes := map (fun i => u8 (v .>> (8 * i))) [0; 1; 2; 3].

Definition sar_keystore_key_id (mac_key : bytes) (algorithm mode key_length : Z)
    (key_bytes : bytes) : bytes :=
  let kl := if Z.of_nat SEMANTICS_AR_MAX_KEY_BYTES <? key_length
            then Z.of_nat SEMANTICS_AR_MAX_KEY_BYTES else key_length in
  let msg := [0x01] ++ le32_loop algorithm ++ le32_loop mode ++ le32_loop key_length ++
             take (Z.to_nat kl) key_bytes in
  Sha256.sar_hmac_sha256 mac_key msg.

Definition sar_sample_tag (data : option bytes) (len : Z) : bytes :=
  match data with
  | Some d => if len =? 0 then Sha256.sha256 [] else Sha256.sha256 (take (Z.to_nat len) d)
  | None => Sha256.sha256 []
  end.

(** [for (i < PATH_MAX) { dst[i] = src[i]; if (src[i] == 0) break; }] *)
Fixpoint copy_path (n : nat) (src dst : list Z) : list Z :=
  match n, src, dst with
  | S n, x :: src, _ :: dst => x :: (if x =? 0 then dst else copy_path n src dst)
  | _, _, _ => dst
  end.

Definition sar_keystore_record_init (mac_key : bytes) (verdict : Verdict.sar_verdict_t)
    (path : option (list Z)) (provenance_offset provenance_length : Z)
    (sample : option bytes) (sample_len sample_offset capture_time actor_start_key : Z)
    : semantics_ar_keystore_record_t :=
  let vkl := Verdict.key_length verdict in
  let kl := if Z.of_nat SEMANTICS_AR_MAX_KEY_BYTES <? vkl
            then Z.of_nat SEMANTICS_AR_MAX_KEY_BYTES else vkl in
  let kb := mem_write (replicate SEMANTICS_AR_MAX_KEY_BYTES 0) 0
              (take (Z.to_nat kl) (Verdict.key verdict)) in
  let vil := Verdict.iv_length verdict in
  let ivl := if Z.of_nat SEMANTICS_AR_IV_MAX <? vil then Z.of_nat SEMANTICS_AR_IV_MAX else vil in
  let ivb := mem_write (replicate SEMANTICS_AR_IV_MAX 0) 0
               (take (Z.to_nat ivl) (Verdict.iv verdict)) in
  let zpath := replicate SEMANTICS_AR_PROVENANCE_PATH_MAX 0 in
  let sl := if Z.of_nat SEMANTICS_AR_SAMPLE_TAG_MAX <? sample_len
            then Z.of_nat SEMANTICS_AR_SAMPLE_TAG_MAX else sample_len in
  let '(slen, stag) :=
    match sample with
    | Some s => if 0 <? sample_len then (sl, sar_sample_tag (Some s) sl)
                else (0, replicate SEMANTICS_AR_MAC_SIZE 0)
    | None => (0, replicate SEMANTICS_AR_MAC_SIZE 0)
    end in
  {| key_id := sar_keystore_key_id mac_key (Verdict.algorithm verdict)
                 (Verdict.mode verdict) vkl kb;
     algorithm := Verdict.algorithm verdict;
     mode := Verdict.mode verdict;
     key_length := vkl;
     key_bytes := kb;
     iv := ivb;
     iv_length := ivl;
     ctr_layout_tag := Verdict.ctr_layout_tag verdict;
     mode_params := Verdict.mode_params verdict;
     provenance_offset := provenance_offset;
     provenance_length := provenance_length;
     provenance_path := match path with
                        | Some src => copy_path SEMANTICS_AR_PROVENANCE_PATH_MAX src zpath
                        | None => zpath
                        end;
     sample_offset := sample_offset;
     sample_length := slen;
     sample_tag := stag;
     capture_time := capture_time;
     actor_start_key := actor_start_key |}.

(** The duplicate test of [sar_keystore_append]. *)
Definition same_capture (a b : semantics_ar_keystore_record_t) : bool :=
  (sar_memcmp (key_id a) (key_id b) SEMANTICS_AR_KEY_ID_SIZE =? 0) &&
  (provenance_offset a =? provenance_offset b) &&
  (sar_memcmp (u16s_bytes (provenance_path a)) (u16s_bytes (provenance_path b)) 520 =? 0).

(** [records] holds the [*count] live entries; the result code is 0
    (duplicate), 1 (stored) or [SAR_KS_FULL]. *)
Definition sar_keystore_append (records : list semantics_ar_keystore_record_t)
    (capacity : Z) (rec : semantics_ar_keystore_record_t)
    : Z * list semantics_ar_keystore_record_t :=
  if existsb (fun r => same_capture r rec) records then (0, records)
  else if capacity <=? Z.of_nat (length records) then (ks_code SAR_KS_FULL, records)
  else (1, records ++ [rec]).

Definition sar_keystore_mac_record (mac_key : bytes) (fields : semantics_ar_keystore_record_t)
    (prev_mac : bytes) : bytes :=
  mac_record Sha256.sar_hmac_sha256 mac_key fields prev_mac.

(** The size of a disk record: the fields and their MAC. *)
Abbreviation DISK := (Store.DISK semantics_ar_keystore_record_t).

Definition sar_keystore_serialized_size (count : Z) : Z :=
  serialized_size semantics_ar_keystore_record_t count.

Definition zero_mac : bytes := replicate SEMANTICS_AR_MAC_SIZE 0.

(** The bytes [sar_keystore_serialize] stores from [out_buf] on. *)
Definition keystore_image (mac_key : bytes) (records : list semantics_ar_keystore_record_t)
    (generation : Z) : bytes :=
  let '(body, prev) := chain_write Sha256.sar_hmac_sha256 mac_key records zero_mac in
  let hdr := {| StoreHdr.magic := SEMANTICS_AR_KEYSTORE_MAGIC;
                StoreHdr.record_count := Z.of_nat (length records);
                StoreHdr.generation := generation;
                StoreHdr.head_mac := prev |} in
  struct_bytes hdr ++ body.

(** Status, [*out_len] and the caller's buffer afterwards. *)
Definition sar_keystore_serialize (mac_key : bytes)
    (records : list semantics_ar_keystore_record_t) (generation : Z) (out_buf : bytes)
    : sar_ks_status_t * Z * bytes :=
  let need := sar_keystore_serialized_size (Z.of_nat (length records)) in
  if Z.of_nat (length out_buf) <? need then (SAR_KS_BUFFER_TOO_SMALL, need, out_buf)
  else (SAR_KS_OK, need, mem_write out_buf 0 (keystore_image mac_key records generation)).

(** Status and [*out_count] (0 when the call fails, as its callers set it). *)
Definition sar_keystore_verify (buf : option bytes) (mac_key : bytes)
    (anchor : option sar_keystore_anchor_t) : cres (sar_ks_status_t * Z) :=
  match buf with
  | None => Ret (SAR_KS_TRUNCATED, 0)
  | Some buf =>
      if (length buf <? HDR)%nat then Ret (SAR_KS_TRUNCATED, 0)
      else
        let hdr : StoreHdr.store_header_t := struct_of (take HDR buf) in
        if negb (StoreHdr.magic hdr =? SEMANTICS_AR_KEYSTORE_MAGIC)
        then Ret (SAR_KS_BAD_MAGIC, 0)
        else
          let need := sar_keystore_serialized_size (StoreHdr.record_count hdr) in
          if Z.of_nat (length buf) <? need then Ret (SAR_KS_TRUNCATED, 0)
          else if negb (Z.of_nat (length buf) =? need) then Ret (SAR_KS_COUNT_MISMATCH, 0)
          else
            match chain_check (R := semantics_ar_keystore_record_t)
                    Sha256.sar_hmac_sha256 mac_key (S (length buf)) 0
                    (StoreHdr.record_count hdr) (drop HDR buf) zero_mac with
            | OutOfBounds => OutOfBounds
            | NoFuel => NoFuel
            | Ret None => Ret (SAR_KS_RECORD_MAC, 0)
            | Ret (Some prev) =>
                if negb (sar_ct_equal prev (StoreHdr.head_mac hdr) SEMANTICS_AR_MAC_SIZE)
                then Ret (SAR_KS_RECORD_MAC, 0)
                else
                  match anchor with
                  | Some a =>
                      if anchor_present a then
                        if negb (StoreHdr.generation hdr =? anchor_generation a)
                        then Ret (SAR_KS_ROLLBACK, 0)
                        else if negb (sar_ct_equal (StoreHdr.head_mac hdr) (anchor_head_mac a)
                                        SEMANTICS_AR_MAC_SIZE)
                        then Ret (SAR_KS_ROLLBACK, 0)
                        else Ret (SAR_KS_OK, StoreHdr.record_count hdr)
                      else Ret (SAR_KS_OK, StoreHdr.record_count hdr)
                  | None => Ret (SAR_KS_OK, StoreHdr.record_count hdr)
                  end
            end
  end.

#[global] Arguments sar_keystore_verify : simpl never.
#[global] Arguments keystore_image : simpl never.

(** ** The image and its header *)

Definition rec_wf (r : semantics_ar_keystore_record_t) : Prop := struct_wf r.

Lemma zero_mac_ok : is_mac zero_mac.
Proof. split; [done|]. apply Forall_replicate. unfold is_u; lia. Qed.

(** The ledger's chain starts from the zero MAC, whatever the generation. *)
#[global] Instance keystore_format : StoreFormat semantics_ar_keystore_record_t.
Proof.
  refine {| store_magic := SEMANTICS_AR_KEYSTORE_MAGIC; store_seed _ _ _ := zero_mac |}.
  - unfold is_u, SEMANTICS_AR_KEYSTORE_MAGIC. lia.
  - intros. apply zero_mac_ok.
Defined.

Definition chain_head (mac_key : bytes) (records : list semantics_ar_keystore_record_t) : bytes :=
  (chain_write Sha256.sar_hmac_sha256 mac_key records zero_mac).2.

Lemma keystore_image_eq k rs g : keystore_image k rs g = store_image k rs g.
Proof.
  unfold keystore_image, store_image, store_hdr, chain_of.
  cbn [store_seed store_magic keystore_format].
  by destruct (chain_write _ k rs zero_mac).
Qed.

Lemma chain_head_ok k rs : is_mac (chain_head k rs).
Proof. apply chain_write_last; [apply _|apply zero_mac_ok]. Qed.

(** The anchor test at the end of [sar_keystore_verify]. *)
Definition anchor_ok (hdr : StoreHdr.store_header_t) (anchor : option sar_keystore_anchor_t) : bool :=
  match anchor with
  | Some a => negb (anchor_present a) ||
      ((StoreHdr.generation hdr =? anchor_generation a) &&
       sar_ct_equal (StoreHdr.head_mac hdr) (anchor_head_mac a) SEMANTICS_AR_MAC_SIZE)
  | None => true
  end.

Lemma keystore_verify_image k rs g anchor :
  table_ok rs g ->
  sar_keystore_verify (Some (keystore_image k rs g)) k anchor =
  Ret (if anchor_ok (store_hdr k rs g) anchor
       then (SAR_KS_OK, Z.of_nat (length rs)) else (SAR_KS_ROLLBACK, 0)).
Proof.
  intros H. pose proof H as [Hw Hg Hs]. rewrite keystore_image_eq. unfold sar_keystore_verify.
  pose proof (check_body_image k rs g H) as Hc. unfold check_body in Hc.
  rewrite image_take, image_drop, length_image in * by done.
  destruct (Nat.ltb_spec (HDR + length rs * DISK) HDR); [lia|].
  cbn [StoreHdr.magic StoreHdr.record_count StoreHdr.generation StoreHdr.head_mac store_hdr
       store_seed store_magic keystore_format] in *.
  rewrite Z.eqb_refl. unfold sar_keystore_serialized_size. rewrite serialized_size_exact by lia.
  rewrite Nat2Z.inj_add, Nat2Z.inj_mul, Z.ltb_irrefl, Z.eqb_refl. cbn [negb]. rewrite Hc.
  rewrite sar_ct_equal_refl by apply chain_of_head. cbn [negb].
  unfold anchor_ok. cbn [StoreHdr.generation StoreHdr.head_mac].
  destruct anchor as [a|]; [|done].
  destruct (anchor_present a); [|done]. cbn [negb orb].
  destruct (_ =? _); [|done]. by destruct (sar_ct_equal _ _ _).
Qed.

(** The buffer of a successful [serialize]. *)
Lemma keystore_serialize_ok k rs g out :
  table_ok rs g -> (HDR + length rs * DISK <= length out)%nat ->
  sar_keystore_serialize k rs g out =
    (SAR_KS_OK, Z.of_nat (HDR + length rs * DISK), mem_write out 0 (keystore_image k rs g)) /\
  take (HDR + length rs * DISK) (mem_write out 0 (keystore_image k rs g)) = keystore_image k rs g.
Proof.
  intros H Hl. pose proof (length_image k rs g H) as Hi. split.
  - unfold sar_keystore_serialize, sar_keystore_serialized_size.
    rewrite serialized_size_exact by (destruct H; lia).
    destruct (Z.ltb_spec (Z.of_nat (length out)) (Z.of_nat HDR + Z.of_nat (length rs) * Z.of_nat DISK));
      [lia|]. by rewrite Nat2Z.inj_add, Nat2Z.inj_mul.
  - rewrite keystore_image_eq, <- Hi. apply (take_mem_write out 0). lia.
Qed.

(** The header count whose size computation does not wrap. *)
Definition count_fits (buf : bytes) : Prop :=
  Z.of_nat HDR + StoreHdr.record_count (struct_of (take HDR buf)) * Z.of_nat DISK < 2 ^ 64.

Lemma verify_ok_inv buf k anchor n :
  is_bytes buf -> count_fits buf ->
  sar_keystore_verify (Some buf) k anchor = Ret (SAR_KS_OK, n) ->
  exists rs g, table_ok rs g /\ buf = keystore_image k rs g /\ n = Z.of_nat (length rs) /\
    anchor_ok (store_hdr k rs g) anchor = true.
Proof.
  intros Hb Hf. unfold sar_keystore_verify.
  destruct (Nat.ltb_spec (length buf) HDR) as [|Hl]; [done|].
  pose proof (header_count buf Hb Hl) as Hc.
  pose proof (check_body_inv (R := semantics_ar_keystore_record_t) k buf) as Hinv.
  unfold check_body in Hinv. unfold count_fits in Hf.
  cbn [store_seed store_magic keystore_format] in Hinv.
  set (hdr := struct_of (take HDR buf)) in *.
  destruct (StoreHdr.magic hdr =? _) eqn:Em; [|done]. cbn [negb].
  unfold sar_keystore_serialized_size. rewrite serialized_size_exact by lia.
  destruct (Z.ltb _ _) eqn:El; [done|].
  destruct (_ =? _ + _) eqn:Ee; [|done]. cbn [negb]. bsimp.
  destruct (chain_check _ _ _ _ _ _ _) as [[prev|]| |] eqn:Ec; try done.
  destruct (sar_ct_equal _ (StoreHdr.head_mac hdr) _) eqn:Eh; [|done]. cbn [negb].
  edestruct Hinv as (rs & Hok & Hbuf & Hh); [done|done|done|done|lia|done|exact Eh|].
  intros Hr. exists rs, (StoreHdr.generation hdr).
  rewrite keystore_image_eq. split; [done|]. split; [done|].
  assert (Hn : StoreHdr.record_count hdr = Z.of_nat (length rs)) by by rewrite Hh.
  unfold anchor_ok. rewrite <- Hh, <- Hn. destruct anchor as [a|]; [|by injection Hr].
  destruct (anchor_present a); [|by injection Hr]. cbn [negb orb] in *.
  destruct (StoreHdr.generation hdr =? anchor_generation a); [|done].
  destruct (sar_ct_equal (StoreHdr.head_mac hdr) (anchor_head_mac a) _); [|done].
  by injection Hr.
Qed.

(** ** The append-only table *)

(** The identity under which [append] refuses duplicates. *)
Definition capture_key (r : semantics_ar_keystore_record_t) : bytes * Z * list Z :=
  (key_id r, provenance_offset r, provenance_path r).

Lemma rec_wf_key_id r : rec_wf r -> length (key_id r) = 32%nat.
Proof. by intros ((? & ?) & _). Qed.

Lemma keystore_rec_wf_path r :
  rec_wf r -> length (provenance_path r) = 260%nat /\ Forall is_u16 (provenance_path r).
Proof. by intros (_&_&_&_&_&_&_&_&_&_&_&?&_). Qed.

Lemma u16s_bytes_inj l1 l2 n :
  length l1 = n -> length l2 = n -> Forall is_u16 l1 -> Forall is_u16 l2 ->
  u16s_bytes l1 = u16s_bytes l2 -> l1 = l2.
Proof.
  intros H1 H2 F1 F2 E. rewrite <- (dec_enc (c := c_u16s n) l1), <- (dec_enc (c := c_u16s n) l2)
    by done. simpl. by rewrite E.
Qed.

Lemma length_u16s_bytes l : length (u16s_bytes l) = (2 * length l)%nat.
Proof. unfold u16s_bytes. induction l as [|x l IH]; [done|]. cbn [flat_map]. len. Qed.

Lemma same_capture_iff a b :
  rec_wf a -> rec_wf b -> same_capture a b = true <-> capture_key a = capture_key b.
Proof.
  intros Ha Hb. destruct (keystore_rec_wf_path a Ha) as [La Pa], (keystore_rec_wf_path b Hb) as [Lb Pb].
  unfold same_capture, capture_key. rewrite !andb_true_iff, !Z.eqb_eq.
  rewrite sar_memcmp_eq by (by apply rec_wf_key_id).
  rewrite sar_memcmp_eq by (rewrite length_u16s_bytes; lia).
  split.
  - intros [[-> ->] E]. by rewrite (u16s_bytes_inj _ _ 260 La Lb Pa Pb E).
  - intros [= -> -> ->]. done.
Qed.

Lemma existsb_same rs rec :
  Forall rec_wf rs -> rec_wf rec ->
  existsb (fun r => same_capture r rec) rs = true <-> capture_key rec ∈ capture_key <$> rs.
Proof.
  intros Hw Hr. rewrite existsb_exists, list_elem_of_fmap. split.
  - intros (r & Hin & Hs). apply list_elem_of_In in Hin. exists r.
    rewrite Forall_forall in Hw. split; [|done]. symmetry. apply same_capture_iff; auto.
  - intros (r & He & Hin). exists r. rewrite Forall_forall in Hw.
    split; [by apply list_elem_of_In|]. apply same_capture_iff; auto.
Qed.

(** The table invariant: well-formed, duplicate-free, within capacity. *)
Record table_inv (capacity : Z) (rs : list semantics_ar_keystore_record_t) : Prop := {
  inv_wf : Forall rec_wf rs;
  inv_nodup : NoDup (capture_key <$> rs);
  inv_cap : Z.of_nat (length rs) <= capacity
}.

(** ** Records built from a verdict *)

Lemma length_copy_path n src dst : length (copy_path n src dst) = length dst.
Proof.
  revert src dst. induction n as [|n IH]; intros [|x src] [|y dst]; simpl; try done.
  f_equal. by destruct (x =? 0).
Qed.

Lemma Forall_copy_path (P : Z -> Prop) n src dst :
  Forall P src -> Forall P dst -> Forall P (copy_path n src dst).
Proof.
  revert src dst. induction n as [|n IH]; intros [|x src] [|y dst] Hs Hd; simpl; try done.
  apply Forall_cons in Hs as [? ?], Hd as [? ?]. apply Forall_cons. split; [done|].
  destruct (x =? 0); auto.
Qed.

Lemma is_bytes_zeros w n : 0 <= w -> Forall (is_u w) (replicate n 0).
Proof. intros Hw. apply Forall_replicate. unfold is_u. lia. Qed.

(** The arguments of [sar_keystore_record_init] in their C types. *)
Record init_args_ok (verdict : Verdict.sar_verdict_t) (path : option (list Z))
    (provenance_offset provenance_length sample_len sample_offset capture_time
     actor_start_key : Z) : Prop := {
  ia_verdict : Verdict.wf verdict;
  ia_path : forall p, path = Some p -> Forall is_u16 p;
  ia_off : is_u64 provenance_offset;
  ia_len : is_u64 provenance_length;
  ia_slen : is_u32 sample_len;
  ia_soff : is_u64 sample_offset;
  ia_time : is_u64 capture_time;
  ia_actor : is_u64 actor_start_key
}.

Lemma sample_tag_ok d n :
  length (sar_sample_tag d n) = 32%nat /\ is_bytes (sar_sample_tag d n).
Proof.
  unfold sar_sample_tag. repeat case_match; rewrite Sha256.sha256_eq;
    split; apply Sha256.length_sha256_oneshot || apply Sha256.digest_bytes_range.
Qed.

Lemma record_init_wf mac_key v path poff plen sample slen soff ctime actor :
  init_args_ok v path poff plen slen soff ctime actor ->
  rec_wf (sar_keystore_record_init mac_key v path poff plen sample slen soff ctime actor).
Proof.
  intros [[Ha Hm [Hk Hkb] Hkl Hmp [Hi Hib] Hil Ht] Hp Ho Hl Hs Hso Hti Hac].
  assert (Htag : forall b n, 0 <= n < 2 ^ 32 ->
    let '(sl, st) := match sample with
      | Some s => if 0 <? slen then (n, sar_sample_tag (Some s) b)
                  else (0, replicate SEMANTICS_AR_MAC_SIZE 0)
      | None => (0, replicate SEMANTICS_AR_MAC_SIZE 0) end in
    0 <= sl < 2 ^ 32 /\ length st = 32%nat /\ is_bytes st).
  { intros b n Hn. assert (Hz : is_bytes (replicate SEMANTICS_AR_MAC_SIZE 0))
      by by apply is_bytes_zeros.
    destruct sample; [destruct (0 <? slen)|];
      (split; [lia|]); [apply sample_tag_ok|by split|by split]. }
  unfold is_u in Hs, Hil.
  assert (Hsl : 0 <= (if Z.of_nat SEMANTICS_AR_SAMPLE_TAG_MAX <? slen
                      then Z.of_nat SEMANTICS_AR_SAMPLE_TAG_MAX else slen) < 2 ^ 32).
  { unfold SEMANTICS_AR_SAMPLE_TAG_MAX. destruct (Z.ltb_spec (Z.of_nat 64) slen); lia. }
  specialize (Htag (if Z.of_nat SEMANTICS_AR_SAMPLE_TAG_MAX <? slen
                    then Z.of_nat SEMANTICS_AR_SAMPLE_TAG_MAX else slen) _ Hsl). clear Hsl.
  unfold sar_keystore_record_init.
  destruct (match sample with Some _ => _ | None => _ end) as [sl st].
  destruct Htag as (Hsl & Hst & Hstb).
  unfold rec_wf, struct_wf. cbn [layout keystore_record_packed rec_codec c_iso wf c_pair fst snd
    c_bytes c_uint c_u16s key_id algorithm mode key_length key_bytes iv iv_length ctr_layout_tag
    mode_params provenance_offset provenance_length provenance_path sample_offset sample_length
    sample_tag capture_time actor_start_key].
  split_and!; try done.
  all: try (apply Sha256.length_hmac || apply Sha256.hmac_range).
  all: try (by rewrite length_mem_write).
  all: try (apply Forall_mem_write; [by apply is_bytes_zeros|by apply Forall_take]).
  all: try (by unfold is_u in *; first [apply Ha|apply Hm|apply Hkl|apply Hmp|apply Ht|apply Ho
                                        |apply Hl|apply Hso|apply Hti|apply Hac|apply Hsl]).
  - destruct (_ <? _); [done|lia].
  - destruct (Z.ltb_spec (Z.of_nat SEMANTICS_AR_IV_MAX) (Verdict.iv_length v)); [done|lia].
  - destruct path; [by rewrite length_copy_path|done].
  - destruct path; [apply Forall_copy_path; [by apply Hp|]|]; by apply is_bytes_zeros.
Qed.

(** ** Concrete captures, for the witnesses *)

Definition demo_verdict : Verdict.sar_verdict_t := {|
  Verdict.convicted := true; Verdict.algorithm := SAR_ALG_AES_128; Verdict.mode := SAR_MODE_CTR;
  Verdict.key := replicate 16 7 ++ replicate 48 0; Verdict.key_length := 16;
  Verdict.mode_params := 0; Verdict.iv := replicate 16 9 ++ replicate 8 0;
  Verdict.iv_length := 16; Verdict.ctr_layout_tag := 1 |}.

Definition demo_key : bytes := replicate 32 0x5a.

Definition demo_rec (offset : Z) : semantics_ar_keystore_record_t :=
  sar_keystore_record_init demo_key demo_verdict (Some ([67; 58; 92; 97] ++ [0])) offset 4096
    (Some (replicate 64 0x41)) 64 offset 1234 42.

Lemma demo_verdict_wf : Verdict.wf demo_verdict.
Proof. constructor; wf_compute. Qed.

Lemma keystore_demo_rec_wf offset : is_u64 offset -> rec_wf (demo_rec offset).
Proof.
  intros Ho. apply record_init_wf. constructor; try done; try (unfold is_u; lia).
  - apply demo_verdict_wf.
  - intros p [= <-]. apply forall_u_check. reflexivity.
Qed.

#[global] Opaque demo_rec.

Lemma demo_rec_wf_0 : rec_wf (demo_rec 0).
Proof. apply keystore_demo_rec_wf. unfold is_u; lia. Qed.
Lemma demo_rec_wf_1 : rec_wf (demo_rec 8192).
Proof. apply keystore_demo_rec_wf. unfold is_u; lia. Qed.

Lemma demo_table_inv : table_inv 4 [demo_rec 0].
Proof.
  constructor; [by apply Forall_singleton, demo_rec_wf_0|apply NoDup_singleton|simpl; lia].
Qed.

Lemma keystore_demo_table_ok g : is_u64 g -> table_ok [demo_rec 0; demo_rec 8192] g.
Proof.
  intros Hg. constructor; [|done|vm_compute; reflexivity].
  apply Forall_cons; split; [apply demo_rec_wf_0|].
  apply Forall_singleton, demo_rec_wf_1.
Qed.

Lemma demo_image_bytes g :
  is_u64 g -> is_bytes (keystore_image demo_key [demo_rec 0; demo_rec 8192] g).
Proof.
  intros Hg. rewrite keystore_image_eq. by apply image_bytes, keystore_demo_table_ok.
Qed.

Lemma demo_image_fits g :
  is_u64 g -> count_fits (keystore_image demo_key [demo_rec 0; demo_rec 8192] g).
Proof.
  intros Hg. unfold count_fits. rewrite keystore_image_eq, image_take by by apply keystore_demo_table_ok. reflexivity.
Qed.

(** ** Properties *)

(** Appending keeps the table invariant, never alters stored
    records, reports each branch with its code, and leaves a table in which
    the record's capture is present unless the table was full. *)
Theorem keystore_append_inv capacity rs rec :
  table_inv capacity rs -> rec_wf rec ->
  let '(code, rs') := sar_keystore_append rs capacity rec in
  table_inv capacity rs' /\ rs `prefix_of` rs' /\
  (code = 1 /\ rs' = rs ++ [rec] /\ capture_key rec ∉ capture_key <$> rs \/
   code = 0 /\ rs' = rs /\ capture_key rec ∈ capture_key <$> rs \/
   code = -2 /\ rs' = rs /\ Z.of_nat (length rs) = capacity /\
     capture_key rec ∉ capture_key <$> rs).
Proof.
  intros [Hw Hn Hc] Hr. unfold sar_keystore_append.
  pose proof (existsb_same rs rec Hw Hr) as He.
  destruct (existsb _ rs).
  { split_and!; [done|done|]. right; left. split_and!; try done. by apply He. }
  assert (Hni : capture_key rec ∉ capture_key <$> rs) by by intros ?%He.
  destruct (Z.leb_spec capacity (Z.of_nat (length rs))).
  { split_and!; [done|done|]. right; right. split_and!; try done. lia. }
  split_and!.
  - constructor.
    + apply Forall_app. by rewrite Forall_singleton.
    + rewrite fmap_app. apply NoDup_app. split_and!; [done| |apply NoDup_singleton].
      intros x Hx Hx'%list_elem_of_singleton. by subst.
    + rewrite length_app. simpl. lia.
  - by apply prefix_app_r.
  - by left.
Qed.

Lemma keystore_append_inv_witness :
  let '(code, rs') := sar_keystore_append [demo_rec 0] 4 (demo_rec 8192) in
  table_inv 4 rs' /\ code = 1.
Proof.
  pose proof (keystore_append_inv 4 [demo_rec 0] (demo_rec 8192) demo_table_inv demo_rec_wf_1) as H.
  assert (E : (sar_keystore_append [demo_rec 0] 4 (demo_rec 8192)).1 = 1)
    by (vm_compute; reflexivity).
  destruct (sar_keystore_append _ _ _) as [code rs']. simpl in E. split; [apply H|done].
Defined.

(** What [sar_keystore_serialize] writes, [sar_keystore_verify]
    accepts under the matching rollback anchor, and it counts every record. *)
Theorem keystore_serialize_verify mac_key rs generation out_buf :
  table_ok rs generation ->
  (HDR + length rs * DISK <= length out_buf)%nat ->
  let '(st, out_len, out) := sar_keystore_serialize mac_key rs generation out_buf in
  st = SAR_KS_OK /\ length out = length out_buf /\
  sar_keystore_verify (Some (take (Z.to_nat out_len) out)) mac_key
    (Some {| anchor_present := true; anchor_generation := generation;
             anchor_head_mac := chain_head mac_key rs |})
  = Ret (SAR_KS_OK, Z.of_nat (length rs)).
Proof.
  intros H Hl. destruct (keystore_serialize_ok mac_key rs generation out_buf H Hl) as [-> Ht].
  rewrite Nat2Z.id, Ht, keystore_verify_image by done. split; [done|].
  split; [apply length_mem_write|]. unfold anchor_ok.
  cbn [store_hdr anchor_present anchor_generation anchor_head_mac
       StoreHdr.generation StoreHdr.head_mac negb orb].
  by rewrite Z.eqb_refl, sar_ct_equal_refl by apply chain_head_ok.
Qed.

Lemma keystore_serialize_verify_witness :
  let '(st, out_len, out) :=
    sar_keystore_serialize demo_key [demo_rec 0; demo_rec 8192] 5 (replicate 2000 0) in
  st = SAR_KS_OK.
Proof.
  pose proof (keystore_serialize_verify demo_key [demo_rec 0; demo_rec 8192] 5 (replicate 2000 0)
    (keystore_demo_table_ok 5 ltac:(unfold is_u; lia)) ltac:(vm_compute; lia)) as H.
  destruct (sar_keystore_serialize _ _ _ _) as [[st out_len] out]. apply H.
Defined.

(** Property C22: verification accepts nothing else. A buffer it accepts is,
    byte for byte, the image [serialize] would write for some well-formed
    table under the same key, and it agrees with the anchor. *)
Theorem keystore_verify_canonical mac_key anchor buf n :
  is_bytes buf -> count_fits buf ->
  sar_keystore_verify (Some buf) mac_key anchor = Ret (SAR_KS_OK, n) ->
  exists rs generation,
    table_ok rs generation /\ buf = keystore_image mac_key rs generation /\
    n = Z.of_nat (length rs) /\ anchor_ok (store_hdr mac_key rs generation) anchor = true.
Proof. apply verify_ok_inv. Qed.

Lemma keystore_verify_canonical_witness :
  exists (rs : list semantics_ar_keystore_record_t) generation, table_ok rs generation /\ 2 = Z.of_nat (length rs).
Proof.
  assert (Hg : is_u64 5) by (unfold is_u; lia).
  destruct (keystore_verify_canonical demo_key None
    (keystore_image demo_key [demo_rec 0; demo_rec 8192] 5) 2) as (rs & g & H1 & _ & H2 & _).
  - by apply demo_image_bytes.
  - by apply demo_image_fits.
  - by rewrite keystore_verify_image by by apply keystore_demo_table_ok.
  - by exists rs, g.
Defined.

(** While the size computation does not wrap, verification of any
    byte buffer terminates and never reads outside it. *)
Theorem keystore_verify_safe mac_key anchor buf :
  is_bytes buf -> count_fits buf ->
  exists r, sar_keystore_verify (Some buf) mac_key anchor = Ret r.
Proof.
  intros Hb Hf. unfold sar_keystore_verify.
  destruct (Nat.ltb_spec (length buf) HDR) as [|Hl]; [eauto|].
  pose proof (header_count buf Hb Hl) as Hc. unfold count_fits in Hf.
  pose proof (check_body_safe (R := semantics_ar_keystore_record_t) mac_key buf) as Hsafe.
  unfold check_body in Hsafe. cbn [store_seed keystore_format] in Hsafe.
  destruct (negb _); [eauto|].
  unfold sar_keystore_serialized_size. rewrite serialized_size_exact by lia.
  destruct (Z.ltb _ _); [eauto|].
  destruct (_ =? _ + _) eqn:Ee; cbn [negb]; [|eauto]. bsimp.
  edestruct Hsafe as [r ->]; [done|done|]. repeat case_match; eauto.
Qed.

Lemma keystore_verify_safe_witness :
  exists r, sar_keystore_verify (Some (keystore_image demo_key [demo_rec 0; demo_rec 8192] 5))
    demo_key None = Ret r.
Proof.
  apply keystore_verify_safe; [apply demo_image_bytes|apply demo_image_fits]; unfold is_u; lia.
Defined.

(** Property C34: the record count is not bounded before the size is computed.
    Take any buffer that is only a header, whatever its generation and head MAC, with the
    right magic and a record count that is not zero but for which the 64-bit size
    of the store wraps around to the size of the header (2^63 is such a count).
    Then, under any key and anchor, the length test passes and the first record is
    read outside the buffer. *)
Theorem keystore_verify_wrap_reads_out_of_bounds buf mac_key anchor :
  length buf = HDR ->
  StoreHdr.magic (struct_of buf : StoreHdr.store_header_t) = SEMANTICS_AR_KEYSTORE_MAGIC ->
  0 < StoreHdr.record_count (struct_of buf : StoreHdr.store_header_t) ->
  sar_keystore_serialized_size (StoreHdr.record_count (struct_of buf : StoreHdr.store_header_t)) = Z.of_nat HDR ->
  sar_keystore_verify (Some buf) mac_key anchor = OutOfBounds.
Proof.
  intros Hl Hm Hc Hs. unfold sar_keystore_verify. rewrite take_ge, drop_ge, Hl, Nat.ltb_irrefl, Hm, Hs by lia.
  rewrite Z.eqb_refl, Z.ltb_irrefl, Z.eqb_refl. cbn [negb].
  assert (Hb : forall n c mac, 0 < c -> chain_check (R := semantics_ar_keystore_record_t) Sha256.sar_hmac_sha256
    mac_key (S n) 0 c [] mac = OutOfBounds) by (intros n c mac Hp; unfold chain_check; rewrite (proj2 (Z.ltb_lt _ _) Hp); reflexivity).
  by rewrite Hb.
Qed.

(** A header with the right magic and a record count of 2^63. *)
Definition wrap_blob : bytes :=
  struct_bytes {| StoreHdr.magic := SEMANTICS_AR_KEYSTORE_MAGIC;
                  StoreHdr.record_count := 2 ^ 63; StoreHdr.generation := 0;
                  StoreHdr.head_mac := zero_mac |}.

Lemma keystore_verify_wrap_reads_out_of_bounds_witness :
  sar_keystore_verify (Some wrap_blob) demo_key None = OutOfBounds.
Proof. by apply keystore_verify_wrap_reads_out_of_bounds; vm_compute. Defined.

End Keystore.

Module KeystoreMgr.
Import Keystore.

Inductive sar_ksm_status_t :=
  | SAR_KSM_OK | SAR_KSM_EMPTY | SAR_KSM_INVALID_ARG | SAR_KSM_CORRUPT
  | SAR_KSM_ROLLBACK | SAR_KSM_OVERFLOW | SAR_KSM_BUFFER_TOO_SMALL.

#[global] Instance sar_ksm_status_eq_dec : EqDecision sar_ksm_status_t.
Proof. solve_decision. Defined.

Definition ksm_map_verify (rc : sar_ks_status_t) : sar_ksm_status_t :=
  match rc with SAR_KS_OK => SAR_KSM_OK | _ => SAR_KSM_CORRUPT end.

(** The out parameters of [sar_ksm_load] (all non-NULL): the loaded records
    ([*count_out] of them), the new anchor and the result structure. *)
Record load_out := {
  lo_records : list KsRec.semantics_ar_keystore_record_t;
  lo_anchor : sar_keystore_anchor_t;
  lo_generation : Z;
  lo_advanced : bool
}.

Definition load_out_init : load_out := {|
  lo_records := [];
  lo_anchor := {| anchor_present := false; anchor_generation := 0; anchor_head_mac := zero_mac |};
  lo_generation := 0; lo_advanced := false |}.

(** [None] for the advance test is the early [return SAR_KSM_ROLLBACK]. *)
Definition anchor_advance (hdr : StoreHdr.store_header_t)
    (anchor : option sar_keystore_anchor_t) : option bool :=
  match anchor with
  | Some a =>
      if anchor_present a then
        if StoreHdr.generation hdr <? anchor_generation a then None
        else if StoreHdr.generation hdr =? anchor_generation a then
          if negb (sar_ct_equal (StoreHdr.head_mac hdr) (anchor_head_mac a) SEMANTICS_AR_MAC_SIZE)
          then None else Some false
        else Some true
      else Some true
  | None => Some true
  end.

Definition sar_ksm_load (buf : option bytes) (mac_key : bytes)
    (anchor : option sar_keystore_anchor_t) (records_capacity : Z)
    : cres (sar_ksm_status_t * load_out) :=
  let empty_case :=
    match anchor with
    | Some a => if anchor_present a && (0 <? anchor_generation a)
                then Ret (SAR_KSM_ROLLBACK, load_out_init)
                else Ret (SAR_KSM_EMPTY, load_out_init)
    | None => Ret (SAR_KSM_EMPTY, load_out_init)
    end in
  match buf with
  | None => empty_case
  | Some b =>
    if Nat.eqb (length b) 0 then empty_case
    else
      match sar_keystore_verify (Some b) mac_key None with
      | OutOfBounds => OutOfBounds
      | NoFuel => NoFuel
      | Ret (rc, count) =>
          match ksm_map_verify rc with
          | SAR_KSM_OK =>
              if records_capacity <? count then Ret (SAR_KSM_OVERFLOW, load_out_init)
              else
                let hdr : StoreHdr.store_header_t := struct_of (take HDR b) in
                match anchor_advance hdr anchor with
                | None => Ret (SAR_KSM_ROLLBACK, load_out_init)
                | Some advanced =>
                    Ret (SAR_KSM_OK,
                      {| lo_records := chain_read (Z.to_nat count) (drop HDR b);
                         lo_anchor := {| anchor_present := true;
                                         anchor_generation := StoreHdr.generation hdr;
                                         anchor_head_mac := StoreHdr.head_mac hdr |};
                         lo_generation := StoreHdr.generation hdr;
                         lo_advanced := advanced |})
                end
          | s => Ret (s, load_out_init)
          end
      end
  end.

(** Status, [*out_len], the output buffer and [*anchor_out] (kept when the
    call fails). *)
Definition sar_ksm_persist (mac_key : bytes)
    (records : list KsRec.semantics_ar_keystore_record_t) (prev_generation : Z)
    (out_buf : bytes) (anchor_out : sar_keystore_anchor_t)
    : sar_ksm_status_t * Z * bytes * sar_keystore_anchor_t :=
  let new_gen := u64 (prev_generation + 1) in
  let '(rc, out_len, out) := sar_keystore_serialize mac_key records new_gen out_buf in
  match rc with
  | SAR_KS_BUFFER_TOO_SMALL => (SAR_KSM_BUFFER_TOO_SMALL, out_len, out, anchor_out)
  | SAR_KS_OK =>
      let hdr : StoreHdr.store_header_t := struct_of (take HDR out) in
      (SAR_KSM_OK, out_len, out,
       {| anchor_present := true; anchor_generation := new_gen;
          anchor_head_mac := StoreHdr.head_mac hdr |})
  | _ => (SAR_KSM_CORRUPT, out_len, out, anchor_out)
  end.

#[global] Arguments sar_ksm_load : simpl never.

Definition anchor_of (mac_key : bytes) (rs : list KsRec.semantics_ar_keystore_record_t)
    (generation : Z) : sar_keystore_anchor_t :=
  {| anchor_present := true; anchor_generation := generation;
     anchor_head_mac := chain_head mac_key rs |}.

Lemma load_image k rs g anchor cap :
  table_ok rs g -> Z.of_nat (length rs) <= cap ->
  sar_ksm_load (Some (keystore_image k rs g)) k anchor cap =
  Ret match anchor_advance (store_hdr k rs g) anchor with
      | None => (SAR_KSM_ROLLBACK, load_out_init)
      | Some adv => (SAR_KSM_OK, {| lo_records := rs; lo_anchor := anchor_of k rs g;
                                    lo_generation := g; lo_advanced := adv |})
      end.
Proof.
  intros H Hc. unfold sar_ksm_load.
  rewrite keystore_verify_image by done. rewrite keystore_image_eq, length_image, image_take, image_drop by done.
  destruct (Nat.eqb_spec (HDR + length rs * DISK) 0) as [He|_].
  { change HDR with 52%nat in He. lia. }
  cbn [anchor_ok ksm_map_verify].
  destruct (Z.ltb_spec cap (Z.of_nat (length rs))); [lia|].
  rewrite Nat2Z.id, image_read by done.
  by destruct (anchor_advance _ anchor).
Qed.

(** The persisted image, the anchor it records and the next load. *)
Lemma persist_ok k rs g out a0 :
  table_ok rs (u64 (g + 1)) -> (HDR + length rs * DISK <= length out)%nat ->
  sar_ksm_persist k rs g out a0 =
    (SAR_KSM_OK, Z.of_nat (HDR + length rs * DISK),
     mem_write out 0 (keystore_image k rs (u64 (g + 1))), anchor_of k rs (u64 (g + 1))).
Proof.
  intros H Hl. unfold sar_ksm_persist.
  destruct (keystore_serialize_ok k rs (u64 (g + 1)) out H Hl) as [-> Ht].
  assert (Hh : take HDR (mem_write out 0 (keystore_image k rs (u64 (g + 1)))) =
               take HDR (keystore_image k rs (u64 (g + 1)))).
  { rewrite <- Ht at 2. by rewrite take_take, Nat.min_l by lia. }
  by rewrite Hh, keystore_image_eq, image_take by done.
Qed.

(** ** Properties *)

(** Persisting and loading give the ledger back. The generation
    is the successor of the previous one; loading under the anchor that
    [persist] recorded is not an advance, loading with no anchor is. *)
Theorem ksm_persist_load mac_key rs prev_gen out_buf a0 capacity :
  table_ok rs (prev_gen + 1) -> 0 <= prev_gen ->
  (HDR + length rs * DISK <= length out_buf)%nat -> Z.of_nat (length rs) <= capacity ->
  let '(st, out_len, out, anchor) := sar_ksm_persist mac_key rs prev_gen out_buf a0 in
  st = SAR_KSM_OK /\ anchor_generation anchor = prev_gen + 1 /\
  forall with_anchor : bool,
    sar_ksm_load (Some (take (Z.to_nat out_len) out)) mac_key
      (if with_anchor then Some anchor else None) capacity
    = Ret (SAR_KSM_OK, {| lo_records := rs; lo_anchor := anchor;
                          lo_generation := prev_gen + 1;
                          lo_advanced := negb with_anchor |}).
Proof.
  intros H Hp Hl Hc. assert (Hu : u64 (prev_gen + 1) = prev_gen + 1)
    by (apply u64_small; by destruct H).
  rewrite persist_ok by by rewrite ?Hu. rewrite Hu.
  destruct (keystore_serialize_ok mac_key rs (prev_gen + 1) out_buf H Hl) as [_ Ht].
  rewrite Nat2Z.id, Ht. split_and!; [done|done|]. intros b. rewrite load_image by done.
  destruct b; [|done]. unfold anchor_advance.
  cbn [anchor_of store_hdr anchor_present anchor_generation anchor_head_mac
       StoreHdr.generation StoreHdr.head_mac].
  by rewrite Z.ltb_irrefl, Z.eqb_refl, sar_ct_equal_refl by apply chain_head_ok.
Qed.

Lemma ksm_persist_load_witness :
  let '(st, _, _, anchor) :=
    sar_ksm_persist demo_key [demo_rec 0; demo_rec 8192] 4 (replicate 2000 0)
      (lo_anchor load_out_init) in
  st = SAR_KSM_OK /\ anchor_generation anchor = 5.
Proof.
  pose proof (ksm_persist_load demo_key [demo_rec 0; demo_rec 8192] 4 (replicate 2000 0)
    (lo_anchor load_out_init) 16 (keystore_demo_table_ok 5 ltac:(unfold is_u; lia)) ltac:(lia)
    ltac:(vm_compute; lia) ltac:(simpl; lia)) as H.
  destruct (sar_ksm_persist _ _ _ _ _) as [[[st len] out] anchor].
  destruct H as (H1 & H2 & _). by split.
Defined.

(** A successful load never moves the anchor backwards, and at
    equal generation the chain head is the anchored one. *)
Theorem ksm_load_monotone mac_key buf a capacity out :
  is_bytes buf -> count_fits buf -> is_mac (anchor_head_mac a) -> anchor_present a = true ->
  sar_ksm_load (Some buf) mac_key (Some a) capacity = Ret (SAR_KSM_OK, out) ->
  anchor_generation a <= anchor_generation (lo_anchor out) /\
  (anchor_generation (lo_anchor out) = anchor_generation a ->
     lo_anchor out = a /\ lo_advanced out = false) /\
  Z.of_nat (length (lo_records out)) <= capacity.
Proof.
  intros Hb Hf Ham Hap H. unfold sar_ksm_load in H.
  destruct (length buf =? 0)%nat; [by repeat case_match|].
  destruct (sar_keystore_verify _ _ _) as [[rc n]| |] eqn:Ev; try done.
  destruct (ksm_map_verify rc) eqn:Em; try done. destruct rc; try done.
  apply verify_ok_inv in Ev as (rs & g & Hok & -> & -> & _); [|done|done].
  destruct (Z.ltb_spec capacity (Z.of_nat (length rs))); [done|].
  rewrite keystore_image_eq, image_take, image_drop in H by done.
  unfold anchor_advance in H. rewrite Hap in H. cbn [store_hdr StoreHdr.generation StoreHdr.head_mac] in H.
  destruct (Z.ltb_spec g (anchor_generation a)); [done|].
  rewrite Nat2Z.id, image_read in H by done.
  destruct (Z.eqb_spec g (anchor_generation a)) as [->|Hne].
  - destruct (sar_ct_equal _ _ _) eqn:Ec; [|done]. injection H as <-.
    cbn [lo_anchor lo_records lo_advanced anchor_generation].
    destruct (chain_head_ok mac_key rs), Ham.
    apply sar_ct_equal_eq in Ec; [|done..]. split_and!; [lia| |done].
    intros _. rewrite Ec. destruct a; simpl in *. by subst.
  - injection H as <-. cbn [lo_anchor lo_records lo_advanced anchor_generation].
    split_and!; [lia|by intros|done].
Qed.

Lemma ksm_load_monotone_witness :
  let image := keystore_image demo_key [demo_rec 0; demo_rec 8192] 5 in
  exists out, sar_ksm_load (Some image) demo_key
      (Some (anchor_of demo_key [demo_rec 0; demo_rec 8192] 3)) 16 = Ret (SAR_KSM_OK, out) /\
    3 <= anchor_generation (lo_anchor out).
Proof.
  assert (Hg : is_u64 5) by (unfold is_u; lia). intros image.
  eexists. split.
  - unfold image. by rewrite load_image by (by apply keystore_demo_table_ok || done).
  - apply (ksm_load_monotone demo_key image
      (anchor_of demo_key [demo_rec 0; demo_rec 8192] 3) 16).
    + by apply demo_image_bytes.
    + by apply demo_image_fits.
    + apply chain_head_ok.
    + done.
    + unfold image. by rewrite load_image by (by apply keystore_demo_table_ok || done).
Defined.

(** The ledger cut to its first [n] records under a new generation, computed
    from the stored image alone: the key is not used. *)
Definition forge_prefix (n : nat) (generation : Z) (image : bytes) : bytes :=
  let body := drop HDR image in
  struct_bytes {| StoreHdr.magic := SEMANTICS_AR_KEYSTORE_MAGIC;
                  StoreHdr.record_count := Z.of_nat n;
                  StoreHdr.generation := generation;
                  StoreHdr.head_mac :=
                    stored_mac (R := KsRec.semantics_ar_keystore_record_t) n body zero_mac |}
  ++ take (n * DISK) body.

Lemma forge_prefix_image k rs g n g' :
  table_ok rs g -> (n <= length rs)%nat ->
  forge_prefix n g' (keystore_image k rs g) = keystore_image k (take n rs) g'.
Proof.
  intros H Hn. pose proof (tok_wf _ _ H) as Hw. unfold forge_prefix.
  rewrite !keystore_image_eq, image_drop by done.
  assert (Hl : length (take n rs) = n) by (rewrite length_take; lia).
  assert (Hwt : Forall rec_wf (take n rs)) by by apply Forall_take.
  assert (Hs : stored_mac (R := KsRec.semantics_ar_keystore_record_t) n (chain_of k rs g).1 zero_mac
               = (chain_of k (take n rs) g').2).
  { unfold chain_of. rewrite <- (take_drop n rs) at 1. rewrite <- Hl at 1.
    by apply stored_mac_write; [apply _|]. }
  assert (Hb : take (n * DISK) (chain_of k rs g).1 = (chain_of k (take n rs) g').1).
  { unfold chain_of at 1. rewrite <- (take_drop n rs) at 1. rewrite chain_write_app.
    apply take_app_length'. fold (chain_of k (take n rs) g').
    by rewrite length_chain_of, Hl. }
  rewrite Hs, Hb. unfold store_image, store_hdr. by rewrite Hl.
Qed.

(** The generation and the record count are not under the MAC.
    From a stored ledger, without the key, any prefix of it can be presented
    under a higher generation; [sar_ksm_load] accepts it in the presence of
    the anchor of the full ledger, drops the later captures and advances the
    anchor. *)
Theorem ksm_truncation_accepted mac_key rs g n g' capacity :
  table_ok rs g -> (n <= length rs)%nat -> g < g' -> is_u64 g' ->
  Z.of_nat (length rs) <= capacity ->
  sar_ksm_load (Some (forge_prefix n g' (keystore_image mac_key rs g))) mac_key
    (Some (anchor_of mac_key rs g)) capacity =
  Ret (SAR_KSM_OK, {| lo_records := take n rs; lo_anchor := anchor_of mac_key (take n rs) g';
                      lo_generation := g'; lo_advanced := true |}).
Proof.
  intros H Hn Hg Hg' Hc. rewrite forge_prefix_image by done.
  assert (Hl : length (take n rs) = n) by (rewrite length_take; lia).
  rewrite load_image; [|constructor|]; rewrite ?Hl; [|by apply Forall_take, (tok_wf _ _ H)|done| |lia].
  - unfold anchor_advance.
    cbn [anchor_of store_hdr anchor_present anchor_generation StoreHdr.generation].
    destruct (Z.ltb_spec g' g); [lia|].
    destruct (Z.eqb_spec g' g); [lia|]. done.
  - destruct H. change DISK with 770%nat in *. lia.
Qed.

Lemma ksm_truncation_accepted_witness :
  let rs := [demo_rec 0; demo_rec 8192] in
  exists out, sar_ksm_load (Some (forge_prefix 1 6 (keystore_image demo_key rs 5))) demo_key
    (Some (anchor_of demo_key rs 5)) 16 = Ret (SAR_KSM_OK, out) /\ lo_records out = [demo_rec 0].
Proof.
  intros rs. eexists. split.
  - apply (ksm_truncation_accepted demo_key rs 5 1 6 16);
      [apply keystore_demo_table_ok; unfold is_u; lia|simpl; lia|lia|unfold is_u; lia|simpl; lia].
  - reflexivity.
Defined.

End KeystoreMgr.
