(* ===== verification/Preserve.v ===== *)
(** * The preservation store (engine/src/preserve.c)

    The table of preserved file regions: coverage queries, append, promotion,
    compaction, eviction, restoration checks and the MAC-chained image.
    [records] holds the [*count] live entries of the caller's array; a result
    that changes [*count] is the new list. *)

From stdpp Require Import relations.
From S2P Require Import Prelude Mem Format Sha256 Chain Store Keystore.
Import Mem Layout.

Module Preserve.
Import PresRec.

Abbreviation rec := sar_preserve_record_t.

Inductive sar_pres_status_t :=
  | SAR_PRES_OK | SAR_PRES_INVALID_ARG | SAR_PRES_FULL | SAR_PRES_BUFFER_TOO_SMALL
  | SAR_PRES_BAD_MAGIC | SAR_PRES_TRUNCATED | SAR_PRES_RECORD_MAC | SAR_PRES_COUNT_MISMATCH
  | SAR_PRES_ROLLBACK | SAR_PRES_RESTORE_MISMATCH.

#[global] Instance sar_pres_status_eq_dec : EqDecision sar_pres_status_t.
Proof. solve_decision. Defined.

Definition pres_code (s : sar_pres_status_t) : Z :=
  match s with
  | SAR_PRES_OK => 0 | SAR_PRES_INVALID_ARG => -1 | SAR_PRES_FULL => -2
  | SAR_PRES_BUFFER_TOO_SMALL => -3 | SAR_PRES_BAD_MAGIC => -4 | SAR_PRES_TRUNCATED => -5
  | SAR_PRES_RECORD_MAC => -6 | SAR_PRES_COUNT_MISMATCH => -7 | SAR_PRES_ROLLBACK => -8
  | SAR_PRES_RESTORE_MISMATCH => -9
  end.

Definition sar_pres_path_eq (a b : list Z) : bool :=
  sar_memcmp (u16s_bytes a) (u16s_bytes b) (SEMANTICS_AR_PROVENANCE_PATH_MAX * 2) =? 0.

(** The ends of the intervals are 64-bit sums and wrap. *)
Definition sar_pres_overlap (a_off a_len b_off b_len : Z) : bool :=
  (a_off <? u64 (b_off + b_len)) && (b_off <? u64 (a_off + a_len)).

Definition sar_pres_contains (outer_off outer_len inner_off inner_len : Z) : bool :=
  (outer_off <=? inner_off) && (u64 (inner_off + inner_len) <=? u64 (outer_off + outer_len)).

Definition sar_pres_mac_head (mac_key : bytes) (generation record_count : Z) : bytes :=
  Sha256.sar_hmac_sha256 mac_key (le_bytes 8 generation ++ le_bytes 8 record_count).

Definition sar_pres_mac_record (mac_key : bytes) (fields : rec) (prev_mac : bytes) : bytes :=
  mac_record Sha256.sar_hmac_sha256 mac_key fields prev_mac.

Definition sar_preserve_content_tag (plaintext : option bytes) (len : Z) : bytes :=
  let ctx := Sha256.sar_sha256_init Sha256.fresh_buf in
  let ctx := match plaintext with
             | Some p => if len =? 0 then ctx
                         else Sha256.sar_sha256_update ctx (take (Z.to_nat len) p)
             | None => ctx
             end in
  Sha256.sar_sha256_final ctx.

Definition sar_preserve_record_init (path : option (list Z))
    (provenance_offset provenance_length capture_time payload_offset payload_length actor_id : Z)
    (iv : option bytes) (iv_length : Z) (plaintext : option bytes) (plaintext_length : Z) : rec :=
  let zpath := replicate SEMANTICS_AR_PROVENANCE_PATH_MAX 0 in
  let ivl := if Z.of_nat SEMANTICS_AR_IV_MAX <? iv_length
             then Z.of_nat SEMANTICS_AR_IV_MAX else iv_length in
  let ziv := replicate SEMANTICS_AR_IV_MAX 0 in
  {| provenance_path := match path with
                        | Some src => Keystore.copy_path SEMANTICS_AR_PROVENANCE_PATH_MAX src zpath
                        | None => zpath
                        end;
     provenance_offset := provenance_offset;
     provenance_length := provenance_length;
     capture_time := capture_time;
     payload_offset := payload_offset;
     payload_length := payload_length;
     actor_id := actor_id;
     state := SAR_PRESERVE_PROBATION;
     kind := 0;
     iv := match iv with Some v => mem_write ziv 0 (take (Z.to_nat ivl) v) | None => ziv end;
     iv_length := ivl;
     content_tag := sar_preserve_content_tag plaintext plaintext_length;
     causing_image_path := zpath |}.

Definition sar_preserve_covered (records : list rec) (path : list Z) (offset length : Z) : bool :=
  existsb (fun r => sar_pres_path_eq (provenance_path r) path &&
                    sar_pres_overlap (provenance_offset r) (provenance_length r) offset length)
    records.

(** The first inner loop of [sar_preserve_first_gap]: [cover_end] and
    [covered] after all records. *)
Definition gap_cover (records : list rec) (path : list Z) (cursor : Z) : Z * bool :=
  fold_left (fun '(cover_end, covered) r =>
    if negb (sar_pres_path_eq (provenance_path r) path) then (cover_end, covered)
    else
      let ro := provenance_offset r in
      let re := u64 (ro + provenance_length r) in
      if (ro <=? cursor) && (cursor <? re)
      then ((if cover_end <? re then re else cover_end), true)
      else (cover_end, covered)) records (cursor, false).

(** The second inner loop: where the gap at [cursor] ends. *)
Definition gap_limit (records : list rec) (path : list Z) (cursor stop : Z) : Z :=
  fold_left (fun gap_end r =>
    if negb (sar_pres_path_eq (provenance_path r) path) then gap_end
    else
      let ro := provenance_offset r in
      if (cursor <? ro) && (ro <? gap_end) then ro else gap_end) records stop.

Fixpoint gap_loop (fuel : nat) (records : list rec) (path : list Z) (cursor stop : Z)
    : cres (option (Z * Z)) :=
  match fuel with
  | O => NoFuel
  | S fuel =>
      if cursor <? stop then
        let '(cover_end, covered) := gap_cover records path cursor in
        if covered then gap_loop fuel records path cover_end stop
        else
          let gap_end := gap_limit records path cursor stop in
          Ret (Some (cursor, u64 (gap_end - cursor)))
      else Ret None
  end.

(** [Some (gap_offset, gap_length)] is the return value 1.  Every covered
    round passes the end of another record, so [count + 1] rounds suffice. *)
Definition sar_preserve_first_gap (records : list rec) (path : list Z) (offset length : Z)
    : cres (option (Z * Z)) :=
  gap_loop (S (List.length records)) records path offset (u64 (offset + length)).

(** The result code is 0 (already covered), 1 (stored) or [SAR_PRES_FULL]. *)
Definition sar_preserve_append (records : list rec) (capacity : Z) (r : rec) : Z * list rec :=
  if sar_preserve_covered records (provenance_path r) (provenance_offset r) (provenance_length r)
  then (0, records)
  else if capacity <=? Z.of_nat (length records) then (pres_code SAR_PRES_FULL, records)
  else (1, records ++ [r]).

Definition set_state (s : Z) (r : rec) : rec :=
  {| provenance_path := provenance_path r; provenance_offset := provenance_offset r;
     provenance_length := provenance_length r; capture_time := capture_time r;
     payload_offset := payload_offset r; payload_length := payload_length r;
     actor_id := actor_id r; state := s; kind := kind r; iv := iv r; iv_length := iv_length r;
     content_tag := content_tag r; causing_image_path := causing_image_path r |}.

Definition is_state (s : Z) (r : rec) : bool := state r =? s.

(** The promotion loop, with the number of promoted records. *)
Fixpoint sar_preserve_promote (records : list rec) (actor : Z) : Z * list rec :=
  match records with
  | [] => (0, [])
  | r :: rs =>
      let '(promoted, rs') := sar_preserve_promote rs actor in
      if is_state SAR_PRESERVE_PROBATION r && (actor_id r =? actor)
      then (promoted + 1, set_state SAR_PRESERVE_PROTECTED r :: rs')
      else (promoted, r :: rs')
  end.

Definition rec_at (records : list rec) (i : nat) : rec := nth i records PresRec.zero.

(** One round of the in-place compaction loops of [reconcile] and
    [evict_aged]: the array, the write index [w] and [removed]. *)
Definition compact_step (discard : rec -> bool) (st : list rec * nat * Z) (r : nat)
    : list rec * nat * Z :=
  let '(records, w, removed) := st in
  if discard (rec_at records r) then (records, w, removed + 1)
  else ((if (w =? r)%nat then records else <[w := rec_at records r]> records), S w, removed).

Definition compact (discard : rec -> bool) (records : list rec) : Z * list rec :=
  let '(records', w, removed) :=
    fold_left (compact_step discard) (seq 0 (length records)) (records, O, 0) in
  (removed, take w records').

Definition sar_preserve_reconcile (records : list rec) (path : list Z)
    (key_offset key_length : Z) : Z * list rec :=
  compact (fun r => sar_pres_path_eq (provenance_path r) path &&
                    sar_pres_contains key_offset key_length
                      (provenance_offset r) (provenance_length r)) records.

Definition sar_preserve_evict_aged (records : list rec) (now retention : Z) : Z * list rec :=
  compact (fun r => (capture_time r <? now) && (retention <=? u64 (now - capture_time r))) records.

(** [uint64_t] accumulation over the records a predicate selects. *)
Definition sum_bytes (sel : rec -> bool) (records : list rec) : Z :=
  fold_left (fun total r => if sel r then u64 (total + payload_length r) else total) records 0.

Definition sar_preserve_total_bytes (records : list rec) : Z := sum_bytes (fun _ => true) records.
Definition sar_preserve_protected_bytes (records : list rec) : Z :=
  sum_bytes (is_state SAR_PRESERVE_PROTECTED) records.
Definition sar_preserve_probation_bytes (records : list rec) : Z :=
  sum_bytes (is_state SAR_PRESERVE_PROBATION) records.

(** The search for the oldest probation record; [count] when there is none. *)
Definition oldest_step (records : list rec) (oldest i : nat) : nat :=
  if negb (is_state SAR_PRESERVE_PROBATION (rec_at records i)) then oldest
  else if (oldest =? length records)%nat ||
          (capture_time (rec_at records i) <? capture_time (rec_at records oldest))
  then i else oldest.

Definition find_oldest (records : list rec) : nat :=
  fold_left (oldest_step records) (seq 0 (length records)) (length records).

Fixpoint evict_loop (fuel : nat) (records : list rec) (cap removed : Z) : cres (Z * list rec) :=
  match fuel with
  | O => NoFuel
  | S fuel =>
      if sar_preserve_probation_bytes records <=? cap then Ret (removed, records)
      else
        let oldest := find_oldest records in
        if (oldest =? length records)%nat then Ret (removed, records)
        else evict_loop fuel (shift_down records oldest) cap (removed + 1)
  end.

Definition sar_preserve_evict_probation_oldest (records : list rec) (probation_cap_bytes : Z)
    : cres (Z * list rec) :=
  evict_loop (S (length records)) records probation_cap_bytes 0.

Definition sar_preserve_would_exceed (records : list rec) (capacity_bytes incoming_bytes : Z) : bool :=
  capacity_bytes <? u64 (sar_preserve_total_bytes records + incoming_bytes).

(** Status and [*inner_offset] (0 when the call fails).  The region is a
    buffer of [region_length] bytes. *)
Definition sar_preserve_verify_extract (r : rec) (target_path : list Z)
    (target_offset target_length : Z) (region : bytes) : sar_pres_status_t * Z :=
  if target_length =? 0 then (SAR_PRES_INVALID_ARG, 0)
  else if negb (sar_pres_path_eq (provenance_path r) target_path) ||
          negb (Z.of_nat (length region) =? provenance_length r) ||
          negb (sar_pres_contains (provenance_offset r) (provenance_length r)
                  target_offset target_length)
  then (SAR_PRES_RESTORE_MISMATCH, 0)
  else if negb (sar_ct_equal (sar_preserve_content_tag (Some region) (Z.of_nat (length region)))
                  (content_tag r) SEMANTICS_AR_MAC_SIZE)
  then (SAR_PRES_RESTORE_MISMATCH, 0)
  else (SAR_PRES_OK, u64 (target_offset - provenance_offset r)).

Definition sar_preserve_serialized_size (count : Z) : Z := serialized_size rec count.

(** The bytes [sar_preserve_serialize] stores from [out_buf] on. *)
Definition preserve_image (mac_key : bytes) (records : list rec) (generation : Z) : bytes :=
  let count := Z.of_nat (length records) in
  let '(body, prev) := chain_write Sha256.sar_hmac_sha256 mac_key records
                         (sar_pres_mac_head mac_key generation count) in
  let hdr := {| StoreHdr.magic := SEMANTICS_AR_PRESERVE_MAGIC;
                StoreHdr.record_count := count;
                StoreHdr.generation := generation;
                StoreHdr.head_mac := prev |} in
  struct_bytes hdr ++ body.

Definition sar_preserve_serialize (mac_key : bytes) (records : list rec) (generation : Z)
    (out_buf : bytes) : sar_pres_status_t * Z * bytes :=
  let need := sar_preserve_serialized_size (Z.of_nat (length records)) in
  if Z.of_nat (length out_buf) <? need then (SAR_PRES_BUFFER_TOO_SMALL, need, out_buf)
  else (SAR_PRES_OK, need, mem_write out_buf 0 (preserve_image mac_key records generation)).

(** [true] is the early [return SAR_PRES_ROLLBACK]. *)
Definition anchor_rollback (hdr : StoreHdr.store_header_t)
    (anchor : option sar_keystore_anchor_t) : bool :=
  match anchor with
  | Some a =>
      anchor_present a &&
      ((StoreHdr.generation hdr <? anchor_generation a) ||
       ((StoreHdr.generation hdr =? anchor_generation a) &&
        negb (sar_ct_equal (StoreHdr.head_mac hdr) (anchor_head_mac a) SEMANTICS_AR_MAC_SIZE)))
  | None => false
  end.

(** Status and [*out_count] (0 when the call fails). *)
Definition sar_preserve_verify (buf : option bytes) (mac_key : bytes)
    (anchor : option sar_keystore_anchor_t) : cres (sar_pres_status_t * Z) :=
  match buf with
  | None => Ret (SAR_PRES_TRUNCATED, 0)
  | Some buf =>
      if (length buf <? HDR)%nat then Ret (SAR_PRES_TRUNCATED, 0)
      else
        let hdr : StoreHdr.store_header_t := struct_of (take HDR buf) in
        if negb (StoreHdr.magic hdr =? SEMANTICS_AR_PRESERVE_MAGIC)
        then Ret (SAR_PRES_BAD_MAGIC, 0)
        else if (Z.of_nat (length buf) - Z.of_nat HDR) / Z.of_nat (Store.DISK rec)
                <? StoreHdr.record_count hdr
        then Ret (SAR_PRES_TRUNCATED, 0)
        else
          let need := sar_preserve_serialized_size (StoreHdr.record_count hdr) in
          if negb (Z.of_nat (length buf) =? need) then Ret (SAR_PRES_COUNT_MISMATCH, 0)
          else
            match chain_check (R := rec) Sha256.sar_hmac_sha256 mac_key (S (length buf)) 0
                    (StoreHdr.record_count hdr) (drop HDR buf)
                    (sar_pres_mac_head mac_key (StoreHdr.generation hdr)
                       (StoreHdr.record_count hdr)) with
            | OutOfBounds => OutOfBounds
            | NoFuel => NoFuel
            | Ret None => Ret (SAR_PRES_RECORD_MAC, 0)
            | Ret (Some prev) =>
                if negb (sar_ct_equal prev (StoreHdr.head_mac hdr) SEMANTICS_AR_MAC_SIZE)
                then Ret (SAR_PRES_RECORD_MAC, 0)
                else if anchor_rollback hdr anchor then Ret (SAR_PRES_ROLLBACK, 0)
                else Ret (SAR_PRES_OK, StoreHdr.record_count hdr)
            end
  end.

#[global] Arguments sar_preserve_verify : simpl never.
#[global] Arguments preserve_image : simpl never.

(** ** Coverage *)

Definition rec_wf (r : rec) : Prop := struct_wf r.

(** The end of a record's interval, as the code computes it. *)
Definition rend (r : rec) : Z := u64 (provenance_offset r + provenance_length r).

(** Record [r] holds byte [x] of the file at [path]. *)
Definition holds_byte (path : list Z) (r : rec) (x : Z) : Prop :=
  sar_pres_path_eq (provenance_path r) path = true /\ provenance_offset r <= x < rend r.

Definition covered_at (records : list rec) (path : list Z) (x : Z) : Prop :=
  Exists (fun r => holds_byte path r x) records.

Definition covers (path : list Z) (cursor : Z) (r : rec) : bool :=
  sar_pres_path_eq (provenance_path r) path && (provenance_offset r <=? cursor) &&
  (cursor <? rend r).

Lemma covers_iff path cursor r : covers path cursor r = true <-> holds_byte path r cursor.
Proof. unfold covers, holds_byte. rewrite !andb_true_iff, Z.leb_le, Z.ltb_lt. tauto. Qed.

(** [gap_cover] is the maximum of [cursor] and the ends of covering records. *)
Lemma gap_cover_eq rs path cursor :
  gap_cover rs path cursor =
    (fold_left (fun e r => if covers path cursor r then Z.max e (rend r) else e) rs cursor,
     existsb (covers path cursor) rs).
Proof.
  unfold gap_cover. rewrite <- (orb_false_l (existsb _ rs)).
  assert (Hgen : forall e b,
    fold_left (fun '(cover_end, covered) r =>
      if negb (sar_pres_path_eq (provenance_path r) path) then (cover_end, covered)
      else if (provenance_offset r <=? cursor) && (cursor <? rend r)
      then ((if cover_end <? rend r then rend r else cover_end), true)
      else (cover_end, covered)) rs (e, b) =
    (fold_left (fun e r => if covers path cursor r then Z.max e (rend r) else e) rs e,
     b || existsb (covers path cursor) rs)); [|apply Hgen].
  induction rs as [|r rs IH]; intros e b; cbn [fold_left existsb]; [by rewrite orb_false_r|].
  assert (Hc : covers path cursor r = sar_pres_path_eq (provenance_path r) path &&
    ((provenance_offset r <=? cursor) && (cursor <? rend r))) by (unfold covers; btauto).
  rewrite Hc. destruct (sar_pres_path_eq (provenance_path r) path); cbn [negb andb orb];
    [|by rewrite IH].
  destruct ((provenance_offset r <=? cursor) && (cursor <? rend r)); rewrite IH; [|done].
  f_equal; [|by destruct b].
  destruct (Z.ltb_spec e (rend r)); [by rewrite Z.max_r by lia|by rewrite Z.max_l by lia].
Qed.

(** Either no record covers [cursor], or the new cursor is the end of one
    that does. *)
Lemma cover_end_spec rs path cursor e :
  let m := fold_left (fun e r => if covers path cursor r then Z.max e (rend r) else e) rs e in
  e <= m /\ (m = e \/ exists r, r ∈ rs /\ covers path cursor r = true /\ m = rend r) /\
  Forall (fun r => covers path cursor r = true -> rend r <= m) rs.
Proof.
  revert e. induction rs as [|r rs IH]; intros e; cbn [fold_left].
  { split_and!; [lia|by left|constructor]. }
  destruct (IH (if covers path cursor r then Z.max e (rend r) else e)) as (H1 & H2 & H3).
  set (m := fold_left _ rs _) in *. cbn zeta. destruct (covers path cursor r) eqn:Ec.
  - split_and!; [lia| |].
    + destruct H2 as [H2|(r' & ? & ? & ?)];
        [|right; exists r'; split_and!; [by right|done|done]].
      destruct (Z.max_spec e (rend r)) as [[? He]|[? He]]; rewrite He in H2;
        [right; exists r; split_and!; [by left|done|done]|by left].
    + apply Forall_cons. split; [lia|done].
  - split_and!; [lia| |].
    + destruct H2 as [H2|(r' & ? & ? & ?)];
        [by left|right; exists r'; split_and!; [by right|done|done]].
    + apply Forall_cons. split; [by rewrite Ec|done].
Qed.

Lemma gap_limit_spec rs path cursor stop :
  cursor < stop ->
  let m := gap_limit rs path cursor stop in
  cursor < m <= stop /\
  (m = stop \/ exists r, r ∈ rs /\ sar_pres_path_eq (provenance_path r) path = true /\
                         m = provenance_offset r) /\
  Forall (fun r => sar_pres_path_eq (provenance_path r) path = true ->
                   provenance_offset r <= cursor \/ m <= provenance_offset r) rs.
Proof.
  revert stop. unfold gap_limit. induction rs as [|r rs IH]; intros stop Hs; cbn [fold_left].
  { split_and!; [lia..|by left|constructor]. }
  destruct (sar_pres_path_eq (provenance_path r) path) eqn:Ep; cbn [negb].
  - destruct ((cursor <? provenance_offset r) && (provenance_offset r <? stop)) eqn:Ec; bsimp.
    + destruct (IH (provenance_offset r)) as (H1 & H2 & H3); [done|]. split_and!; [lia..| |].
      * right. destruct H2 as [->|(r' & ? & ? & ?)];
          [exists r|exists r']; split_and!; try done; by constructor.
      * apply Forall_cons. split; [lia|done].
    + destruct (IH stop Hs) as (H1 & H2 & H3). split_and!; [lia..| |].
      * destruct H2 as [->|(r' & ? & ? & ?)]; [by left|right; exists r'].
        split_and!; try done; by constructor.
      * apply Forall_cons. split; [|done]. intros _.
        apply andb_false_iff in Ec as [Ec|Ec]; bsimp; [by left|right; lia].
  - destruct (IH stop Hs) as (H1 & H2 & H3). split_and!; [lia..| |].
    + destruct H2 as [->|(r' & ? & ? & ?)]; [by left|right; exists r'].
      split_and!; try done; by constructor.
    + apply Forall_cons. split; [by rewrite Ep|done].
Qed.

Lemma covered_step rs path cursor :
  existsb (covers path cursor) rs = true ->
  let m := fold_left (fun e r => if covers path cursor r then Z.max e (rend r) else e) rs cursor in
  exists r, r ∈ rs /\ holds_byte path r cursor /\ m = rend r.
Proof.
  intros (r & Hr & Hc)%existsb_exists. apply list_elem_of_In in Hr.
  destruct (cover_end_spec rs path cursor cursor) as (_ & H2 & H3).
  rewrite Forall_forall in H3. pose proof (H3 r Hr Hc) as Hm. apply covers_iff in Hc as [_ [_ Hlt]].
  destruct H2 as [H2|(r' & Hr' & Hc' & Hm')]; [cbn zeta in *; lia|].
  exists r'. split_and!; [done|by apply covers_iff|done].
Qed.

(** What the search promises from a cursor on. *)
Definition gap_result (rs : list rec) (path : list Z) (cursor stop : Z) (r : option (Z * Z)) : Prop :=
  match r with
  | None => forall x, cursor <= x < stop -> covered_at rs path x
  | Some (g, l) =>
      cursor <= g /\ 0 < l /\ g + l <= stop /\
      (forall x, cursor <= x < g -> covered_at rs path x) /\
      (forall x, g <= x < g + l -> ~ covered_at rs path x) /\
      (g + l = stop \/ exists r, r ∈ rs /\ sar_pres_path_eq (provenance_path r) path = true /\
                                 provenance_offset r = g + l)
  end.

Lemma gap_here rs path cursor stop :
  0 <= cursor < stop -> stop < 2 ^ 64 -> existsb (covers path cursor) rs = false ->
  gap_result rs path cursor stop
    (Some (cursor, u64 (gap_limit rs path cursor stop - cursor))).
Proof.
  intros Hc Hs He. destruct (gap_limit_spec rs path cursor stop) as (H1 & H2 & H3); [lia|].
  set (m := gap_limit rs path cursor stop) in *. cbn zeta in *.
  rewrite u64_small by (unfold is_u; lia). unfold gap_result.
  replace (cursor + (m - cursor)) with m by lia. split_and!; [lia..| |].
  - intros x Hx (r & Hr & Hp & Hb)%Exists_exists.
    rewrite Forall_forall in H3. destruct (H3 r Hr Hp); [|lia].
    assert (Ht : existsb (covers path cursor) rs = true); [|congruence].
    apply existsb_exists. exists r. split; [by apply list_elem_of_In|].
    apply covers_iff. split; [done|lia].
  - destruct H2 as [->|(r & ? & ? & ?)]; [by left|right; eauto].
Qed.

Lemma gap_loop_spec fuel rs path cursor stop :
  0 <= cursor -> stop < 2 ^ 64 ->
  (length (filter (fun r => (cursor < rend r)%Z) rs) < fuel)%nat ->
  exists r, gap_loop fuel rs path cursor stop = Ret r /\ gap_result rs path cursor stop r.
Proof.
  revert cursor. induction fuel as [|fuel IH]; intros cursor Hc Hs Hf; [lia|].
  cbn [gap_loop]. destruct (Z.ltb_spec cursor stop) as [Hlt|Hge].
  2: { exists None. split; [done|]. intros x Hx. lia. }
  rewrite gap_cover_eq. destruct (existsb (covers path cursor) rs) eqn:Ee.
  - destruct (covered_step rs path cursor Ee) as (r & Hr & [Hp Hb] & Hm). cbn zeta in Hm.
    rewrite Hm. destruct (IH (rend r)) as (res & -> & Hres); [lia|done| |].
    { eapply Nat.lt_le_trans; [apply (filter_length_lt _ (fun r => (cursor < rend r)%Z) rs r)|];
        [intros x ?; lia|done|lia|lia|lia]. }
    assert (Hcov : forall x, cursor <= x < rend r -> covered_at rs path x).
    { intros x Hx. apply Exists_exists. exists r. split; [done|]. split; [done|lia]. }
    exists res. split; [done|]. destruct res as [[g l]|]; cbn [gap_result] in *.
    + destruct Hres as (H1 & H2 & H3 & H4 & H5 & H6). split_and!; [lia..| |done|done].
      intros x Hx. destruct (Z_lt_le_dec x (rend r)); [apply Hcov|apply H4]; lia.
    + intros x Hx. destruct (Z_lt_le_dec x (rend r)); [apply Hcov|apply Hres]; lia.
  - eexists. split; [reflexivity|]. by apply gap_here.
Qed.

(** ** The table invariant *)

(** Two stored records of the same file hold no common byte. *)
Definition disjoint_table (rs : list rec) : Prop :=
  forall i j r s x, i <> j -> rs !! i = Some r -> rs !! j = Some s ->
    provenance_path r = provenance_path s ->
    ~ (provenance_offset r <= x < rend r /\ provenance_offset s <= x < rend s).

Record table_inv (capacity : Z) (rs : list rec) : Prop := {
  inv_wf : Forall rec_wf rs;
  inv_disjoint : disjoint_table rs;
  inv_cap : Z.of_nat (length rs) <= capacity
}.

Lemma preserve_rec_wf_path r :
  rec_wf r -> length (provenance_path r) = 260%nat /\ Forall is_u16 (provenance_path r).
Proof. by intros (? & _). Qed.

Lemma path_eq_iff a b :
  length a = 260%nat -> length b = 260%nat -> Forall is_u16 a -> Forall is_u16 b ->
  sar_pres_path_eq a b = true <-> a = b.
Proof.
  intros La Lb Fa Fb. unfold sar_pres_path_eq. rewrite Z.eqb_eq, sar_memcmp_eq
    by (rewrite Keystore.length_u16s_bytes; unfold SEMANTICS_AR_PROVENANCE_PATH_MAX; lia).
  split; [by apply (Keystore.u16s_bytes_inj a b 260)|by intros ->].
Qed.

Lemma disjoint_sublist rs rs' : sublist rs' rs -> disjoint_table rs -> disjoint_table rs'.
Proof.
  intros Hsub Hd. induction Hsub as [|y l1 l2 Hsub IH|y l1 l2 Hsub IH]; [done|..].
  - assert (Hd2 : disjoint_table l2).
    { intros i j r s x Hij Hi Hj. apply (Hd (S i) (S j) r s x); [lia|done|done]. }
    specialize (IH Hd2).
    assert (Hhead : forall j s x, l1 !! j = Some s -> provenance_path y = provenance_path s ->
      ~ (provenance_offset y <= x < rend y /\ provenance_offset s <= x < rend s)).
    { intros j s x Hj. apply list_elem_of_lookup_2 in Hj.
      eapply sublist_subseteq in Hj; [|done]. apply list_elem_of_lookup_1 in Hj as [k Hk].
      by apply (Hd 0%nat (S k) y s x). }
    intros [|i] [|j] r s x Hij Hi Hj; simpl in *; simplify_eq.
    + by apply Hhead with j.
    + intros Hp [? ?]. by apply (Hhead i r x Hi).
    + apply (IH i j r s x); [lia|done|done].
  - apply IH. intros i j r s x Hij. apply (Hd (S i) (S j) r s x). lia.
Qed.

Lemma table_inv_sublist capacity rs rs' :
  sublist rs' rs -> table_inv capacity rs -> table_inv capacity rs'.
Proof.
  intros Hs [Hw Hd Hc]. constructor.
  - rewrite Forall_forall in *. intros r Hr. eapply Hw, elem_of_sublist; done.
  - by eapply disjoint_sublist.
  - apply sublist_length in Hs. lia.
Qed.

(** ** Compaction and removal *)

Lemma rec_at_lookup rs i r : rs !! i = Some r -> rec_at rs i = r.
Proof. intros H. unfold rec_at. by apply nth_lookup_Some. Qed.

Lemma lookup_rec_at rs i : (i < length rs)%nat -> rs !! i = Some (rec_at rs i).
Proof. intros [r Hr]%lookup_lt_is_Some_2. by rewrite (rec_at_lookup _ _ _ Hr). Qed.

Lemma compact_step_eq discard arr w removed n :
  (n < length arr)%nat ->
  compact_step discard (arr, w, removed) n =
    if discard (rec_at arr n) then (arr, w, removed + 1)
    else (<[w := rec_at arr n]> arr, S w, removed).
Proof.
  intros Hn. unfold compact_step. destruct (discard _); [done|].
  destruct (Nat.eqb_spec w n) as [->|]; [|done].
  by rewrite list_insert_id by by apply lookup_rec_at.
Qed.

Lemma compact_loop discard rs n :
  (n <= length rs)%nat ->
  let '(arr, w, removed) := fold_left (compact_step discard) (seq 0 n) (rs, O, 0) in
  let kept := List.filter (fun r => negb (discard r)) (take n rs) in
  take w arr = kept /\ w = length kept /\ drop n arr = drop n rs /\
  length arr = length rs /\ removed = Z.of_nat n - Z.of_nat w.
Proof.
  induction n as [|n IH]; intros Hn; [done|]. rewrite seq_S, fold_left_app.
  specialize (IH ltac:(lia)). destruct (fold_left _ _ _) as [[arr w] removed].
  destruct IH as (Hk & Hw & Hd & Hl & Hr). cbn [fold_left]. rewrite Nat.add_0_l.
  assert (Hwn : (w <= n)%nat).
  { rewrite Hw. etransitivity; [apply List.filter_length_le|]. rewrite length_take. lia. }
  assert (Hx : arr !! n = rs !! n).
  { rewrite <- (Nat.add_0_r n), <- !lookup_drop. by rewrite Hd. }
  pose proof (lookup_rec_at rs n ltac:(lia)) as Hrn.
  rewrite compact_step_eq, (take_S_r rs n _ Hrn), List.filter_app by lia. rewrite Hrn in Hx.
  rewrite (rec_at_lookup _ _ _ Hx). cbn [List.filter].
  assert (Hd' : drop (S n) arr = drop (S n) rs).
  { rewrite <- (Nat.add_1_r n), <- !drop_drop. by rewrite Hd. }
  destruct (discard (rec_at rs n)); cbn [negb].
  - rewrite app_nil_r. split_and!; [done..|lia].
  - split_and!.
    + rewrite (take_S_r _ w (rec_at rs n)) by (apply list_lookup_insert_eq; lia).
      by rewrite take_insert_ge, Hk by lia.
    + rewrite length_app, <- Hw. simpl. lia.
    + by rewrite drop_insert_lt by lia.
    + by rewrite length_insert.
    + lia.
Qed.

(** The in-place loop keeps exactly the records the test does not discard, in
    their order, and counts the others. *)
Lemma compact_spec discard rs :
  let kept := List.filter (fun r => negb (discard r)) rs in
  compact discard rs = (Z.of_nat (length rs) - Z.of_nat (length kept), kept).
Proof.
  pose proof (compact_loop discard rs (length rs) ltac:(lia)) as H. unfold compact.
  destruct (fold_left _ _ _) as [[arr w] removed]. rewrite take_ge in H by lia.
  destruct H as (Hk & Hw & _ & _ & ->). by rewrite Hk, Hw.
Qed.

(** [find_oldest] returns [count] exactly when no record is in probation, and
    otherwise a probation record with the least capture time. *)
Lemma find_oldest_loop rs n :
  (n <= length rs)%nat ->
  let o := fold_left (oldest_step rs) (seq 0 n) (length rs) in
  let probation i := is_state SAR_PRESERVE_PROBATION (rec_at rs i) = true in
  (o = length rs /\ (forall i, (i < n)%nat -> ~ probation i) \/
   (o < n)%nat /\ probation o /\
   forall i, (i < n)%nat -> probation i ->
     capture_time (rec_at rs o) <= capture_time (rec_at rs i)).
Proof.
  induction n as [|n IH]; intros Hn.
  { left. split; [done|]. lia. }
  rewrite seq_S, fold_left_app, Nat.add_0_l. cbn [fold_left]. specialize (IH ltac:(lia)).
  set (o := fold_left _ _ _) in *. cbn zeta in *. unfold oldest_step.
  assert (Hlt : forall i, (i < S n)%nat -> i = n \/ (i < n)%nat) by lia.
  destruct (is_state _ (rec_at rs n)) eqn:Es; cbn [negb].
  - right. destruct IH as [[Ho Hnone]|(Ho & Hp & Hmin)].
    + rewrite Ho, Nat.eqb_refl. cbn [orb]. split_and!; [lia|done|].
      intros i [->|Hi]%Hlt Hpi; [lia|]. by apply Hnone in Hi.
    + destruct (Nat.eqb_spec o (length rs)); [lia|]. cbn [orb].
      destruct (Z.ltb_spec (capture_time (rec_at rs n)) (capture_time (rec_at rs o)));
        split_and!; try lia; try done; intros i [->|Hi]%Hlt Hpi; try lia;
        specialize (Hmin i Hi Hpi); lia.
  - destruct IH as [[Ho Hnone]|(Ho & Hp & Hmin)].
    + left. split; [done|]. intros i [->|Hi]%Hlt; [by rewrite Es|by apply Hnone].
    + right. split_and!; [lia|done|]. intros i [->|Hi]%Hlt; [by rewrite Es|by apply Hmin].
Qed.

(** ** Byte accounting *)

(** The unbounded sum behind a [uint64_t] accumulation. *)
Definition psum (sel : rec -> bool) (rs : list rec) : Z :=
  foldr (fun r s => (if sel r then payload_length r else 0) + s) 0 rs.

Lemma sum_bytes_eq sel rs : sum_bytes sel rs = u64 (psum sel rs).
Proof.
  unfold sum_bytes. enough (H : forall t, is_u64 t ->
    fold_left (fun total r => if sel r then u64 (total + payload_length r) else total) rs t
    = u64 (t + psum sel rs)) by (apply H; unfold is_u; lia).
  induction rs as [|r rs IH]; intros t Ht; cbn [fold_left psum foldr].
  - by rewrite Z.add_0_r, u64_small.
  - fold (psum sel rs). destruct (sel r); rewrite IH by auto with sar.
    + rewrite !u64_mod, Zplus_mod_idemp_l. f_equal. lia.
    + f_equal; lia.
Qed.

Lemma psum_perm sel rs rs' : rs ≡ₚ rs' -> psum sel rs = psum sel rs'.
Proof.
  induction 1 as [|x l l' _ IH|x y l|l l1 l2 _ IH1 _ IH2]; cbn [psum foldr]; try done.
  - fold (psum sel l) (psum sel l'). by rewrite IH.
  - lia.
  - by rewrite IH1.
Qed.

Lemma psum_none sel rs : Forall (fun r => sel r = false) rs -> psum sel rs = 0.
Proof.
  induction 1 as [|r rs Hr _ IH]; [done|]. cbn [psum foldr]. by rewrite Hr.
Qed.

(** ** Eviction *)

Abbreviation probation := (is_state SAR_PRESERVE_PROBATION).

(** What eviction promises: [out] are the evicted records, oldest first. *)
Record evicted (rs : list rec) (cap : Z) (out rs' : list rec) : Prop := {
  ev_perm : rs ≡ₚ out ++ rs';
  ev_sub : sublist rs' rs;
  ev_probation : Forall (fun r => probation r = true) out;
  ev_oldest : forall e k, e ∈ out -> k ∈ rs' -> probation k = true -> capture_time e <= capture_time k;
  ev_kept : List.filter (fun r => negb (probation r)) rs' = List.filter (fun r => negb (probation r)) rs;
  ev_fits : sar_preserve_probation_bytes rs' <= cap;
  ev_minimal : forall out0 e, out = out0 ++ [e] -> cap < sar_preserve_probation_bytes (e :: rs')
}.

Lemma find_oldest_spec rs :
  (find_oldest rs = length rs /\ Forall (fun r => probation r = false) rs) \/
  exists l1 x l2, rs = l1 ++ x :: l2 /\ find_oldest rs = length l1 /\ probation x = true /\
    forall k, k ∈ rs -> probation k = true -> capture_time x <= capture_time k.
Proof.
  destruct (find_oldest_loop rs (length rs) ltac:(lia)) as [[Ho Hn]|(Ho & Hp & Hm)];
    fold (find_oldest rs) in *.
  - left. split; [done|]. apply Forall_lookup. intros i r Hi.
    specialize (Hn i ltac:(by eapply lookup_lt_Some)).
    rewrite (rec_at_lookup _ _ _ Hi) in Hn. by destruct (probation r).
  - right. pose proof (lookup_rec_at rs _ Ho) as Hx.
    exists (take (find_oldest rs) rs), (rec_at rs (find_oldest rs)), (drop (S (find_oldest rs)) rs).
    split_and!; [by rewrite take_drop_middle|rewrite length_take; lia|done|].
    intros k [i Hi]%list_elem_of_lookup_1 Hk.
    specialize (Hm i ltac:(by eapply lookup_lt_Some)). rewrite (rec_at_lookup _ _ _ Hi) in Hm. auto.
Qed.

Lemma evicted_none rs cap :
  sar_preserve_probation_bytes rs <= cap -> evicted rs cap [] rs.
Proof.
  intros H. constructor; try done.
  - intros e k He. by apply not_elem_of_nil in He.
  - intros out0 e Hnil. by destruct out0.
Qed.

(** One round: the oldest probation record goes first. *)
Lemma evicted_cons l1 x l2 cap out rs' :
  cap < sar_preserve_probation_bytes (l1 ++ x :: l2) -> probation x = true ->
  (forall k, k ∈ l1 ++ x :: l2 -> probation k = true -> capture_time x <= capture_time k) ->
  evicted (l1 ++ l2) cap out rs' -> evicted (l1 ++ x :: l2) cap (x :: out) rs'.
Proof.
  intros Hb Hx Hmin [Hp Hs Hpr Ho Hk Hf Hm].
  assert (Hsub : sublist (l1 ++ l2) (l1 ++ x :: l2)) by (apply sublist_app; [done|by constructor]).
  constructor; try done.
  - rewrite <- Permutation_middle. cbn [app]. by rewrite Hp.
  - by etransitivity.
  - by apply Forall_cons.
  - intros e k [->|He]%elem_of_cons Hkr; [|by apply Ho].
    apply Hmin. eapply elem_of_sublist; [done|by etransitivity].
  - rewrite Hk, !List.filter_app. cbn [List.filter]. by rewrite Hx.
  - intros [|y out0] e [= -> He]; [|by apply (Hm out0)]. subst out.
    unfold sar_preserve_probation_bytes in *. rewrite sum_bytes_eq in *.
    rewrite (psum_perm _ (e :: rs') (l1 ++ e :: l2)); [done|].
    rewrite <- Permutation_middle. by rewrite Hp.
Qed.

Lemma evict_loop_spec fuel rs cap removed :
  0 <= cap -> (length rs < fuel)%nat ->
  exists out rs', evict_loop fuel rs cap removed = Ret (removed + Z.of_nat (length out), rs') /\
    evicted rs cap out rs'.
Proof.
  intros Hcap. revert rs removed. induction fuel as [|fuel IH]; intros rs removed Hf; [lia|].
  cbn [evict_loop]. destruct (Z.leb_spec (sar_preserve_probation_bytes rs) cap) as [Hle|Hgt].
  { exists [], rs. split; [do 2 f_equal; simpl; lia|by apply evicted_none]. }
  destruct (find_oldest_spec rs) as [[Ho Hn]|(l1 & x & l2 & -> & Ho & Hx & Hmin)]; rewrite Ho.
  - rewrite Nat.eqb_refl. unfold sar_preserve_probation_bytes in Hgt.
    rewrite sum_bytes_eq, psum_none in Hgt by done. change (u64 0) with 0 in Hgt. lia.
  - rewrite length_app in *. cbn [length] in *.
    destruct (Nat.eqb_spec (length l1) (length l1 + S (length l2))); [lia|].
    rewrite shift_down_delete by (rewrite length_app; simpl; lia).
    rewrite delete_take_drop, take_app_length. replace (S (length l1)) with (length l1 + 1)%nat by lia.
    rewrite drop_app_add. cbn [drop]. rewrite drop_0.
    destruct (IH (l1 ++ l2) (removed + 1)) as (out & rs' & -> & He); [rewrite length_app; lia|].
    exists (x :: out), rs'. split; [do 2 f_equal; simpl; lia|by apply evicted_cons].
Qed.

(** ** Promotion *)

Definition promote_rec (actor : Z) (r : rec) : rec :=
  if probation r && (actor_id r =? actor) then set_state SAR_PRESERVE_PROTECTED r else r.

Lemma promote_eq rs actor :
  sar_preserve_promote rs actor =
    (Z.of_nat (length (List.filter (fun r => probation r && (actor_id r =? actor)) rs)),
     promote_rec actor <$> rs).
Proof.
  induction rs as [|r rs IH]; [done|]. cbn [sar_preserve_promote List.filter fmap list_fmap].
  rewrite IH. assert (Hr : promote_rec actor r = if probation r && (actor_id r =? actor)
    then set_state SAR_PRESERVE_PROTECTED r else r) by done. rewrite Hr.
  destruct (probation r && (actor_id r =? actor)); [|done]. f_equal. simpl. lia.
Qed.

Lemma promote_rec_wf actor r : rec_wf r -> rec_wf (promote_rec actor r).
Proof.
  unfold promote_rec. destruct (_ && _); [|done].
  intros (?&?&?&?&?&?&?&?&?&?&?&?&?). unfold rec_wf, struct_wf.
  cbn [layout preserve_record_packed rec_codec c_iso wf c_pair]. by split_and!.
Qed.

Lemma promote_rec_region actor r :
  provenance_path (promote_rec actor r) = provenance_path r /\
  provenance_offset (promote_rec actor r) = provenance_offset r /\
  rend (promote_rec actor r) = rend r /\ payload_length (promote_rec actor r) = payload_length r.
Proof. unfold promote_rec. by destruct (_ && _). Qed.

Lemma promote_inv capacity rs actor :
  table_inv capacity rs -> table_inv capacity (promote_rec actor <$> rs).
Proof.
  intros [Hw Hd Hc]. constructor.
  - apply Forall_fmap. eapply Forall_impl; [exact Hw|]. intros r. apply promote_rec_wf.
  - intros i j r s x Hij Hi Hj. rewrite !list_lookup_fmap in *.
    destruct (rs !! i) as [r0|] eqn:Ei; [|done]. destruct (rs !! j) as [s0|] eqn:Ej; [|done].
    injection Hi as <-. injection Hj as <-.
    destruct (promote_rec_region actor r0) as (-> & -> & -> & _).
    destruct (promote_rec_region actor s0) as (-> & -> & -> & _). by apply (Hd i j).
  - by rewrite length_fmap.
Qed.

Lemma filter_sublist (f : rec -> bool) rs : sublist (List.filter f rs) rs.
Proof. induction rs as [|r rs IH]; simpl; [done|]. destruct (f r); by constructor. Qed.

Lemma append_inv capacity rs r :
  table_inv capacity rs -> rec_wf r -> table_inv capacity (sar_preserve_append rs capacity r).2.
Proof.
  intros [Hw Hd Hc] Hr. unfold sar_preserve_append.
  destruct (sar_preserve_covered _ _ _ _) eqn:Ecov; [done|].
  destruct (Z.leb_spec capacity (Z.of_nat (length rs))); [done|]. cbn [snd].
  assert (Hnew : forall i s x, rs !! i = Some s -> provenance_path s = provenance_path r ->
    ~ (provenance_offset s <= x < rend s /\ provenance_offset r <= x < rend r)).
  { intros i s x Hi Hp [Hs Hx]. apply Bool.not_true_iff_false in Ecov. apply Ecov.
    apply existsb_exists. exists s. split; [by eapply list_elem_of_In, list_elem_of_lookup_2|].
    rewrite Hp. destruct (preserve_rec_wf_path r Hr) as [Hl Hf].
    rewrite (proj2 (path_eq_iff _ _ Hl Hl Hf Hf) eq_refl). unfold sar_pres_overlap, rend in *.
    rewrite andb_true_l, andb_true_iff, !Z.ltb_lt. lia. }
  assert (Hsplit : forall i s, (rs ++ [r]) !! i = Some s ->
    rs !! i = Some s \/ i = length rs /\ s = r).
  { intros i s [Hi|[Hge Hi]]%lookup_app_Some; [by left|].
    apply list_lookup_singleton_Some in Hi as [? <-]. right. split; [lia|done]. }
  constructor.
  - apply Forall_app. by rewrite Forall_singleton.
  - intros i j a b x Hij Hi Hj Hp.
    destruct (Hsplit i a Hi) as [Hi'|[-> ->]], (Hsplit j b Hj) as [Hj'|[-> ->]]; [..|done].
    + by apply (Hd i j).
    + by apply (Hnew i).
    + intros [? ?]. by apply (Hnew j b x).
  - rewrite length_app. simpl. lia.
Qed.

(** The operations of engine/src/preserve.c that change the table; [PreserveTable]
    adds those of the driver. *)
Inductive pres_step (capacity : Z) : list rec -> list rec -> Prop :=
  | step_append rs r :
      rec_wf r -> pres_step capacity rs (sar_preserve_append rs capacity r).2
  | step_promote rs actor : pres_step capacity rs (sar_preserve_promote rs actor).2
  | step_reconcile rs path off len :
      pres_step capacity rs (sar_preserve_reconcile rs path off len).2
  | step_evict_aged rs now retention :
      pres_step capacity rs (sar_preserve_evict_aged rs now retention).2
  | step_evict_oldest rs cap n rs' :
      0 <= cap -> sar_preserve_evict_probation_oldest rs cap = Ret (n, rs') ->
      pres_step capacity rs rs'.

Lemma pres_step_inv capacity rs rs' :
  pres_step capacity rs rs' -> table_inv capacity rs -> table_inv capacity rs'.
Proof.
  destruct 1 as [rs r Hr|rs actor|rs path off len|rs now retention|rs cap n rs' Hcap He]; intros Hi.
  - by apply append_inv.
  - rewrite promote_eq. by apply promote_inv.
  - unfold sar_preserve_reconcile. rewrite compact_spec.
    by apply (table_inv_sublist _ rs), Hi; apply filter_sublist.
  - unfold sar_preserve_evict_aged. rewrite compact_spec.
    by apply (table_inv_sublist _ rs), Hi; apply filter_sublist.
  - destruct (evict_loop_spec (S (length rs)) rs cap 0 Hcap ltac:(lia)) as (out & rs1 & H1 & H2).
    unfold sar_preserve_evict_probation_oldest in He. rewrite H1 in He. injection He as _ <-.
    by apply (table_inv_sublist _ rs), Hi; apply H2.
Qed.

(** What the operations keep without the records being apart. *)
Lemma pres_step_wf capacity rs rs' : pres_step capacity rs rs' ->
  Forall rec_wf rs /\ Z.of_nat (length rs) <= capacity ->
  Forall rec_wf rs' /\ Z.of_nat (length rs') <= capacity.
Proof.
  assert (Hsub : forall rs rs', sublist rs' rs -> Forall rec_wf rs /\ Z.of_nat (length rs) <= capacity ->
    Forall rec_wf rs' /\ Z.of_nat (length rs') <= capacity).
  { intros l l' Hs [Hw Hl]. split; [by eapply sublist_Forall|]. apply sublist_length in Hs. lia. }
  destruct 1 as [rs r Hr|rs actor|rs path off len|rs now retention|rs cap n rs' Hcap He]; intros Hi.
  - unfold sar_preserve_append. dif; [done|]. dif; [done|]. cbn [snd]. destruct Hi as [Hw Hl]. bsimp.
    rewrite Forall_app, length_app, Forall_singleton. split; [done|]. cbn. lia.
  - rewrite promote_eq. destruct Hi as [Hw Hl]. cbn [snd]. rewrite length_fmap. split; [|done].
    apply Forall_fmap. eapply Forall_impl; [exact Hw|]. intros r. apply promote_rec_wf.
  - unfold sar_preserve_reconcile. rewrite compact_spec. by apply (Hsub rs), Hi; apply filter_sublist.
  - unfold sar_preserve_evict_aged. rewrite compact_spec. by apply (Hsub rs), Hi; apply filter_sublist.
  - destruct (evict_loop_spec (S (length rs)) rs cap 0 Hcap ltac:(lia)) as (out & rs1 & H1 & H2).
    unfold sar_preserve_evict_probation_oldest in He. rewrite H1 in He. injection He as _ <-.
    by apply (Hsub rs), Hi; apply H2.
Qed.

(** ** The image *)

Lemma mac_head_ok k g n : is_mac (sar_pres_mac_head k g n).
Proof. apply is_mac_mac, _. Qed.

#[local] Strategy opaque [sar_pres_mac_head Sha256.sar_hmac_sha256].

(** Unlike the ledger's, this chain starts from a MAC of generation and count. *)
#[global] Instance preserve_format : StoreFormat rec.
Proof.
  refine {| store_magic := SEMANTICS_AR_PRESERVE_MAGIC; store_seed := sar_pres_mac_head |}.
  - unfold is_u, SEMANTICS_AR_PRESERVE_MAGIC. lia.
  - apply mac_head_ok.
Defined.

Lemma preserve_image_eq k rs g : preserve_image k rs g = store_image k rs g.
Proof.
  unfold preserve_image, store_image, store_hdr, chain_of.
  cbn [store_seed store_magic preserve_format]. by destruct (chain_write _ k rs _).
Qed.

Lemma count_bound len n :
  Z.of_nat HDR <= len < 2 ^ 64 -> n <= (len - Z.of_nat HDR) / Z.of_nat (Store.DISK rec) ->
  Z.of_nat HDR + n * Z.of_nat (Store.DISK rec) <= len.
Proof.
  change (Z.of_nat (Store.DISK rec)) with 1182. change (Z.of_nat HDR) with 52. intros. dlia.
Qed.

Lemma preserve_verify_image k rs g anchor :
  table_ok rs g ->
  sar_preserve_verify (Some (preserve_image k rs g)) k anchor =
  Ret (if anchor_rollback (store_hdr k rs g) anchor
       then (SAR_PRES_ROLLBACK, 0) else (SAR_PRES_OK, Z.of_nat (length rs))).
Proof.
  intros H. pose proof H as [Hw Hg Hs]. rewrite preserve_image_eq. unfold sar_preserve_verify.
  pose proof (check_body_image k rs g H) as Hc. unfold check_body in Hc.
  rewrite image_take, image_drop, length_image in * by done.
  destruct (Nat.ltb_spec (HDR + length rs * Store.DISK rec) HDR); [lia|].
  cbn [StoreHdr.magic StoreHdr.record_count StoreHdr.generation StoreHdr.head_mac store_hdr
       store_seed store_magic preserve_format] in *.
  rewrite Z.eqb_refl. unfold sar_preserve_serialized_size. rewrite serialized_size_exact by lia.
  rewrite Nat2Z.inj_add, Nat2Z.inj_mul, Z.eqb_refl. cbn [negb].
  rewrite Z.add_simpl_l, Z_div_mult by (unfold Store.DISK, disk_size; lia).
  rewrite Z.ltb_irrefl, Hc, sar_ct_equal_refl by apply chain_of_head. cbn [negb].
  by destruct (anchor_rollback _ anchor).
Qed.

Lemma preserve_serialize_ok k rs g out :
  table_ok rs g -> (HDR + length rs * Store.DISK rec <= length out)%nat ->
  sar_preserve_serialize k rs g out =
    (SAR_PRES_OK, Z.of_nat (HDR + length rs * Store.DISK rec),
     mem_write out 0 (preserve_image k rs g)) /\
  take (HDR + length rs * Store.DISK rec) (mem_write out 0 (preserve_image k rs g))
    = preserve_image k rs g.
Proof.
  intros H Hl. pose proof (length_image k rs g H) as Hi. split.
  - unfold sar_preserve_serialize, sar_preserve_serialized_size.
    rewrite serialized_size_exact by (destruct H; lia).
    rewrite (proj2 (Z.ltb_ge _ _)) by lia. by rewrite Nat2Z.inj_add, Nat2Z.inj_mul.
  - rewrite preserve_image_eq, <- Hi. apply (take_mem_write out 0). lia.
Qed.

Ltac fails := left; eexists; split; [|reflexivity]; done.

(** The checks before the chain loop, for any buffer an address space holds. *)
Lemma verify_cases buf k anchor :
  is_bytes buf -> Z.of_nat (length buf) < 2 ^ 64 ->
  (exists st, st <> SAR_PRES_OK /\ sar_preserve_verify (Some buf) k anchor = Ret (st, 0)) \/
  exists rs g, table_ok rs g /\ buf = preserve_image k rs g.
Proof.
  intros Hb Hlen. unfold sar_preserve_verify.
  destruct (Nat.ltb_spec (length buf) HDR) as [|Hl]; [fails|].
  pose proof (header_count buf Hb Hl) as Hc.
  pose proof (check_body_inv (R := rec) k buf) as Hinv.
  pose proof (check_body_safe (R := rec) k buf (struct_of (take HDR buf)) Hc) as Hsafe.
  unfold check_body in Hinv, Hsafe. cbn [store_seed store_magic preserve_format] in Hinv, Hsafe.
  set (hdr := struct_of (take HDR buf)) in *.
  destruct (StoreHdr.magic hdr =? _) eqn:Em; [|fails]. cbn [negb].
  destruct (Z.ltb _ _) eqn:Ed; [fails|]. bsimp.
  apply count_bound in Ed; [|lia].
  unfold sar_preserve_serialized_size. rewrite serialized_size_exact by lia.
  destruct (Z.eqb_spec (Z.of_nat (length buf))
    (Z.of_nat HDR + StoreHdr.record_count hdr * Z.of_nat (Store.DISK rec))) as [Ee|]; [|fails].
  cbn [negb]. destruct (Hsafe Ee) as [[prev|] Hr]; rewrite Hr; [|fails].
  destruct (sar_ct_equal prev (StoreHdr.head_mac hdr) _) eqn:Eh; cbn [negb]; [|fails].
  destruct (Hinv prev) as (rs & Hok & Hbuf & _); try done.
  right. exists rs, (StoreHdr.generation hdr). by rewrite preserve_image_eq.
Qed.

(** ** Restoration *)

Lemma content_tag_sha256 p len :
  exists d, sar_preserve_content_tag p len = Sha256.sha256_oneshot d.
Proof.
  unfold sar_preserve_content_tag.
  destruct p as [p|]; [destruct (len =? 0)|].
  - exists []. symmetry. rewrite <- Sha256.sha256_eq. reflexivity.
  - exists (take (Z.to_nat len) p). rewrite <- Sha256.sha256_eq. unfold Sha256.sha256. reflexivity.
  - exists []. symmetry. rewrite <- Sha256.sha256_eq. reflexivity.
Qed.

Lemma content_tag_eq region :
  sar_preserve_content_tag (Some region) (Z.of_nat (length region)) = Sha256.sha256_oneshot region.
Proof.
  unfold sar_preserve_content_tag. rewrite Nat2Z.id, take_ge by done.
  rewrite <- Sha256.sha256_eq. unfold Sha256.sha256.
  destruct (Z.eqb_spec (Z.of_nat (length region)) 0); [|done].
  destruct region; [reflexivity|simpl in *; lia].
Qed.

(** ** Concrete regions, for the witnesses *)

Definition demo_path : list Z := [67; 58; 92; 97] ++ replicate 256 0.

Definition demo_rec (offset len time payload : Z) : rec :=
  sar_preserve_record_init (Some demo_path) offset len time 0 payload 7
    (Some (replicate 16 3)) 16 (Some (replicate (Z.to_nat len) 0x41)) len.

Lemma preserve_demo_rec_wf offset len time payload :
  is_u64 offset -> is_u64 len -> is_u64 time -> is_u64 payload ->
  rec_wf (demo_rec offset len time payload).
Proof.
  intros Ho Hl Ht Hp. unfold is_u in *.
  assert (Htag : length (content_tag (demo_rec offset len time payload)) = 32%nat /\
                 is_bytes (content_tag (demo_rec offset len time payload))).
  { unfold demo_rec, sar_preserve_record_init. cbn [content_tag].
    destruct (content_tag_sha256 (Some (replicate (Z.to_nat len) 65)) len) as [d ->].
    split; [apply Sha256.length_sha256_oneshot|apply Sha256.digest_bytes_range]. }
  unfold rec_wf, struct_wf.
  cbn [layout preserve_record_packed rec_codec c_iso wf c_pair c_uint c_bytes c_u16s fst snd].
  cbn [demo_rec sar_preserve_record_init provenance_path provenance_offset provenance_length
       capture_time payload_offset payload_length actor_id state kind iv iv_length
       causing_image_path].
  split_and!; try exact (proj1 Htag); try exact (proj2 Htag); try lia;
    try (apply forall_u_check; reflexivity); try reflexivity; try (vm_compute; congruence).
Qed.

(** ** Properties *)

(** [sar_preserve_first_gap] always terminates, within one round
    per record and one more.  "No gap" means that every byte of the asked range
    is held by a stored record; a reported gap is non-empty, lies in the range,
    starts at the first byte no record holds, contains no held byte, and ends
    at the end of the range or at the start of a record. *)
Theorem preserve_first_gap_spec rs path offset length :
  is_u64 offset ->
  exists r, sar_preserve_first_gap rs path offset length = Ret r /\
    gap_result rs path offset (u64 (offset + length)) r.
Proof.
  intros [Ho _]. apply gap_loop_spec; [done|apply is_u_u64|].
  pose proof (length_filter (fun r => (offset < rend r)%Z) rs). lia.
Qed.

Lemma preserve_first_gap_spec_witness :
  sar_preserve_first_gap [demo_rec 0 4 1 4; demo_rec 4 4 2 4; demo_rec 16 4 3 4] demo_path 2 30
    = Ret (Some (8, 8)) /\
  gap_result [demo_rec 0 4 1 4; demo_rec 4 4 2 4; demo_rec 16 4 3 4] demo_path 2 32 (Some (8, 8)).
Proof.
  destruct (preserve_first_gap_spec [demo_rec 0 4 1 4; demo_rec 4 4 2 4; demo_rec 16 4 3 4]
    demo_path 2 30) as (r & Hr & Hg); [unfold is_u; lia|].
  assert (E : sar_preserve_first_gap [demo_rec 0 4 1 4; demo_rec 4 4 2 4; demo_rec 16 4 3 4]
    demo_path 2 30 = Ret (Some (8, 8))) by (vm_compute; reflexivity).
  split; [exact E|]. rewrite E in Hr. injection Hr as <-. exact Hg.
Defined.

(** Eviction terminates; afterwards the probation bytes are within
    the cap.  What it removed are probation records only, each at least as old
    as every probation record it kept; the protected records are untouched and
    in order; and putting the last evicted record back would exceed the cap. *)
Theorem preserve_evict_oldest_spec rs cap :
  0 <= cap ->
  exists out rs',
    sar_preserve_evict_probation_oldest rs cap = Ret (Z.of_nat (length out), rs') /\
    evicted rs cap out rs'.
Proof.
  intros Hc. destruct (evict_loop_spec (S (length rs)) rs cap 0 Hc ltac:(lia))
    as (out & rs' & H1 & H2). exists out, rs'. by split.
Qed.

Lemma preserve_evict_oldest_spec_witness :
  exists out rs', sar_preserve_evict_probation_oldest
      [demo_rec 0 4 9 100; demo_rec 8 4 1 100; demo_rec 16 4 5 100] 150
      = Ret (Z.of_nat (length out), rs') /\
    evicted [demo_rec 0 4 9 100; demo_rec 8 4 1 100; demo_rec 16 4 5 100] 150 out rs' /\
    length rs' = 1%nat.
Proof.
  destruct (preserve_evict_oldest_spec
    [demo_rec 0 4 9 100; demo_rec 8 4 1 100; demo_rec 16 4 5 100] 150 ltac:(lia))
    as (out & rs' & H1 & H2).
  exists out, rs'. split_and!; [done|done|].
  assert (E : match sar_preserve_evict_probation_oldest
      [demo_rec 0 4 9 100; demo_rec 8 4 1 100; demo_rec 16 4 5 100] 150 with
    | Ret (_, l) => length l | _ => 7%nat end = 1%nat) by (vm_compute; reflexivity).
  by rewrite H1 in E.
Defined.

(** Reconciling with a recovered key range and age-based eviction
    compact the array in place; they keep exactly the records the test does not
    select, in their order, and return how many they dropped. *)
Theorem preserve_compaction rs path off len now retention :
  let redundant r := sar_pres_path_eq (provenance_path r) path &&
    sar_pres_contains off len (provenance_offset r) (provenance_length r) in
  let aged r := (capture_time r <? now) && (retention <=? u64 (now - capture_time r)) in
  let kept f := List.filter (fun r => negb (f r)) rs in
  let dropped f := Z.of_nat (length rs) - Z.of_nat (length (kept f)) in
  sar_preserve_reconcile rs path off len = (dropped redundant, kept redundant) /\
  sar_preserve_evict_aged rs now retention = (dropped aged, kept aged).
Proof. split; apply compact_spec. Qed.

(** Promotion protects every probation record of the actor and
    nothing else: other records, the order, the regions and the byte total are
    unchanged, and the returned number is that of the promoted records. *)
Theorem preserve_promote_spec rs actor :
  let '(n, rs') := sar_preserve_promote rs actor in
  n = Z.of_nat (length (List.filter (fun r => probation r && (actor_id r =? actor)) rs)) /\
  length rs' = length rs /\
  sar_preserve_total_bytes rs' = sar_preserve_total_bytes rs /\
  Forall (fun r => ~ (probation r = true /\ actor_id r = actor)) rs' /\
  Forall2 (fun r r' => r' = r \/
    probation r = true /\ actor_id r = actor /\ r' = set_state SAR_PRESERVE_PROTECTED r) rs rs'.
Proof.
  rewrite promote_eq. split_and!; [done|by rewrite length_fmap|..].
  - unfold sar_preserve_total_bytes. rewrite !sum_bytes_eq. f_equal.
    induction rs as [|r rs IH]; [done|]. cbn [psum foldr fmap list_fmap].
    destruct (promote_rec_region actor r) as (_ & _ & _ & ->). f_equal. apply IH.
  - apply Forall_fmap, Forall_true. intros r. simpl. unfold promote_rec.
    destruct (probation r) eqn:Ep, (Z.eqb_spec (actor_id r) actor); simpl;
      intros [Hp Ha]; first [congruence|discriminate Hp].
  - apply Forall2_fmap_r, Forall_Forall2_diag, Forall_true. intros r.
    change (promote_rec actor r = r \/ probation r = true /\ actor_id r = actor /\
            promote_rec actor r = set_state SAR_PRESERVE_PROTECTED r).
    unfold promote_rec.
    destruct (probation r) eqn:Ep, (Z.eqb_spec (actor_id r) actor); cbn [andb]; auto.
Qed.

(** For a target that does not wrap, [sar_preserve_verify_extract]
    answers OK exactly when the path is the record's, the region has the
    preserved length and SHA-256 tag, and the target lies in the preserved
    range; the inner offset then addresses the target inside the region. *)
Theorem preserve_extract_sound r path toff tlen region inner :
  rec_wf r -> length path = 260%nat -> Forall is_u16 path ->
  is_u64 toff -> 0 < tlen -> toff + tlen < 2 ^ 64 ->
  provenance_offset r + provenance_length r < 2 ^ 64 ->
  sar_preserve_verify_extract r path toff tlen region = (SAR_PRES_OK, inner) <->
  provenance_path r = path /\ Z.of_nat (length region) = provenance_length r /\
  Sha256.sha256_oneshot region = content_tag r /\ inner = toff - provenance_offset r /\
  0 <= inner /\ inner + tlen <= Z.of_nat (length region).
Proof.
  intros Hr Hpl Hpf Ht Hl Hw Hrw. destruct (preserve_rec_wf_path r Hr) as [Hrl Hrf].
  destruct Hr as (_&Ho&Hpn&_&_&_&_&_&_&_&_&[Htl Htb]&_). cbn in Ho, Hpn, Htl, Htb.
  unfold is_u in Ht. pose proof (path_eq_iff _ _ Hrl Hpl Hrf Hpf) as Hp.
  unfold sar_preserve_verify_extract, sar_pres_contains. rewrite content_tag_eq.
  rewrite !u64_small by (unfold is_u; lia).
  destruct (Z.eqb_spec tlen 0); [lia|].
  pose proof (sar_ct_equal_eq (Sha256.sha256_oneshot region) (content_tag r) 32
    (Sha256.digest_bytes_range _) Htb (Sha256.length_sha256_oneshot _) Htl) as Hct.
  change SEMANTICS_AR_MAC_SIZE with 32%nat.
  destruct (sar_pres_path_eq _ _); cbn [negb orb];
    [|split; [done|by intros (E%Hp & _)]].
  destruct (Z.eqb_spec (Z.of_nat (length region)) (provenance_length r)); cbn [negb orb];
    [|by split; [|intros (_ & ? & _)]].
  destruct ((_ <=? _) && (_ <=? _)) eqn:Ec; cbn [negb].
  - bsimp. rewrite u64_small by (unfold is_u; lia).
    destruct (sar_ct_equal _ _ 32); cbn [negb].
    + split; [intros [= <-]|by intros (_ & _ & _ & -> & _)].
      split_and!; [by apply Hp|done|by apply Hct|done|lia|lia].
    + split; [done|]. by intros (_ & _ & E%Hct & _).
  - split; [done|]. intros (_ & _ & _ & -> & ? & ?). apply andb_false_iff in Ec as [Ec|Ec]; bsimp; lia.
Qed.

Lemma preserve_extract_sound_witness :
  sar_preserve_verify_extract (demo_rec 100 8 1 8) demo_path 102 4 (replicate 8 0x41)
    = (SAR_PRES_OK, 2) /\ 2 + 4 <= 8.
Proof.
  assert (E : sar_preserve_verify_extract (demo_rec 100 8 1 8) demo_path 102 4 (replicate 8 0x41)
    = (SAR_PRES_OK, 2)) by (vm_compute; reflexivity).
  split; [exact E|].
  apply (preserve_extract_sound (demo_rec 100 8 1 8) demo_path 102 4 (replicate 8 0x41) 2);
    [apply preserve_demo_rec_wf; unfold is_u; lia|reflexivity|apply forall_u_check; reflexivity
    |unfold is_u; lia|lia|lia|vm_compute; reflexivity|exact E].
Defined.

(** The no-wrap hypothesis of the previous property is needed.
    [sar_pres_contains] compares wrapped 64-bit ends: a target one byte before
    2^64 is "inside" a region preserved at offset 0, and the inner offset that
    is returned with OK lies far outside the region. *)
Theorem preserve_extract_wrap_out_of_region :
  let region := replicate 8 0x41 in
  exists inner,
    sar_preserve_verify_extract (demo_rec 0 8 1 8) demo_path (2 ^ 64 - 1) 1 region
      = (SAR_PRES_OK, inner) /\ Z.of_nat (length region) < inner.
Proof. exists (2 ^ 64 - 1). split; [vm_compute; reflexivity|vm_compute; reflexivity]. Qed.

(** What [sar_preserve_serialize] writes, [sar_preserve_verify]
    accepts, with the record count, unless the anchor is ahead of it. *)
Theorem preserve_serialize_verify mac_key rs generation out_buf anchor :
  table_ok rs generation ->
  (HDR + length rs * Store.DISK rec <= length out_buf)%nat ->
  let '(st, out_len, out) := sar_preserve_serialize mac_key rs generation out_buf in
  st = SAR_PRES_OK /\ length out = length out_buf /\
  sar_preserve_verify (Some (take (Z.to_nat out_len) out)) mac_key anchor =
  Ret (if anchor_rollback (store_hdr mac_key rs generation) anchor
       then (SAR_PRES_ROLLBACK, 0) else (SAR_PRES_OK, Z.of_nat (length rs))).
Proof.
  intros H Hl. destruct (preserve_serialize_ok mac_key rs generation out_buf H Hl) as [-> Ht].
  rewrite Nat2Z.id, Ht, preserve_verify_image by done. split_and!; [done|apply length_mem_write|done].
Qed.

Lemma preserve_demo_table_ok : table_ok [demo_rec 0 4 1 4; demo_rec 4 4 2 4] 3.
Proof.
  constructor; [|unfold is_u; lia|vm_compute; reflexivity].
  repeat (apply Forall_cons; split; [apply preserve_demo_rec_wf; unfold is_u; lia|]). constructor.
Qed.

Lemma preserve_serialize_verify_witness :
  let '(st, out_len, out) :=
    sar_preserve_serialize (replicate 32 1) [demo_rec 0 4 1 4; demo_rec 4 4 2 4] 3 (replicate 2500 0) in
  st = SAR_PRES_OK.
Proof.
  pose proof (preserve_serialize_verify (replicate 32 1) [demo_rec 0 4 1 4; demo_rec 4 4 2 4] 3
    (replicate 2500 0) None preserve_demo_table_ok ltac:(vm_compute; lia)) as H.
  destruct (sar_preserve_serialize _ _ _ _) as [[st out_len] out]. apply H.
Defined.

(** Property C23: verification of any byte buffer terminates without reading
    outside it, and it accepts a buffer only when the buffer is, byte for byte,
    the image [serialize] writes for some well-formed table, generation and
    count under the same key, and the anchor is not ahead of it. *)
Theorem preserve_verify_safe_canonical mac_key anchor buf :
  is_bytes buf -> Z.of_nat (length buf) < 2 ^ 64 ->
  exists st n, sar_preserve_verify (Some buf) mac_key anchor = Ret (st, n) /\
    (st = SAR_PRES_OK <->
     exists rs generation, table_ok rs generation /\ buf = preserve_image mac_key rs generation /\
       n = Z.of_nat (length rs) /\
       anchor_rollback (store_hdr mac_key rs generation) anchor = false).
Proof.
  intros Hb Hl.
  destruct (verify_cases buf mac_key anchor Hb Hl) as [(st & Hst & Hv)|(rs & g & Hok & ->)].
  - exists st, 0. split; [done|]. split; [done|]. intros (rs & g & Hok & -> & _ & Ha).
    rewrite preserve_verify_image, Ha in Hv by done. by injection Hv.
  - rewrite preserve_verify_image by done.
    destruct (anchor_rollback _ anchor) eqn:Ea; eexists _, _; (split; [reflexivity|]).
    + split; [done|]. intros (rs' & g' & Hok' & He & _ & Ha).
      pose proof (preserve_verify_image mac_key rs g anchor Hok) as H1. rewrite Ea in H1.
      rewrite He, preserve_verify_image, Ha in H1 by done. done.
    + split; [|done]. intros _. by exists rs, g.
Qed.

Lemma preserve_verify_safe_canonical_witness :
  exists st n, sar_preserve_verify
    (Some (preserve_image (replicate 32 1) [demo_rec 0 4 1 4; demo_rec 4 4 2 4] 3))
    (replicate 32 1) None = Ret (st, n).
Proof.
  destruct (preserve_verify_safe_canonical (replicate 32 1) None
    (preserve_image (replicate 32 1) [demo_rec 0 4 1 4; demo_rec 4 4 2 4] 3)) as (st & n & H & _).
  - rewrite preserve_image_eq. apply image_bytes, preserve_demo_table_ok.
  - rewrite preserve_image_eq, length_image by apply preserve_demo_table_ok. vm_compute. reflexivity.
  - by exists st, n.
Defined.

End Preserve.
