(* ===== verification/Gate.v ===== *)
(** * The bigram-novelty gate (engine/src/gate.c)

    The gate compares the written bytes of a block with the original ones: it
    records every overlapping byte pair of the original in a 65536-bit map and
    counts the changed pairs of the written block that the map does not have.
    The theorems give the counts as plain list counts, the firing condition
    without overflow, and the reported range. *)

From S2P Require Import Prelude Mem.
Import Mem.

Module Gate.

Definition SAR_GATE_BLOCK_SIZE : nat := 256.
Definition SAR_GATE_THETA_NUM : Z := 10.
Definition SAR_GATE_THETA_DEN : Z := 100.
Definition SAR_GATE_MIN_NOVELTY_BIGRAMS : Z := 12.
Definition SAR_GATE_MAP_BYTES : nat := Z.to_nat 8192.

Record sar_gate_result_t := {
  candidate : bool;
  novelty_off : Z;
  novelty_len : Z
}.

(** [((uint32_t)p[i] << 8) | p[i + 1]] *)
Definition pair_at (p : bytes) (i : nat) : Z := (rd p i .<< 8) .| rd p (i + 1).

(** [present[pair >> 3] |= 1u << (pair & 7u)] *)
Definition map_set (m : bytes) (pair : Z) : bytes :=
  <[Z.to_nat (pair .>> 3) := tbl m (pair .>> 3) .| u8 (1 .<< (pair .& 7))]> m.

Definition map_test (m : bytes) (pair : Z) : bool :=
  negb (((tbl m (pair .>> 3) .>> (pair .& 7)) .& 1) =? 0).

Definition map_build_overlapping (m original : bytes) (block_len : nat) : bytes :=
  let m := sar_memset m 0 SAR_GATE_MAP_BYTES in
  if (block_len <? 2)%nat then m
  else fold_left (fun m i => map_set m (pair_at original i)) (seq 0 (block_len - 1)) m.

(** The scratch map afterwards, [*n_query] and [*n_covered]. *)
Definition sar_gate_block_counts (scratch original written : bytes) (block_len : nat)
    : bytes * (Z * Z) :=
  let scratch := map_build_overlapping scratch original block_len in
  (scratch,
   fold_left (fun '(nq, nc) k =>
     if (rd written k =? rd original k) && (rd written (k + 1) =? rd original (k + 1))
     then (nq, nc)
     else (u32 (nq + 1), if map_test scratch (pair_at written k) then u32 (nc + 1) else nc))
     (seq 0 (block_len - 1)) (0, 0)).

Definition sar_gate_fires (n_query n_covered : Z) : bool :=
  if n_query =? 0 then false
  else
    let novel := u32 (n_query - n_covered) in
    if novel <? SAR_GATE_MIN_NOVELTY_BIGRAMS then false
    else u32 (n_query * SAR_GATE_THETA_NUM) <=? u32 (novel * SAR_GATE_THETA_DEN).

(** The block loop; [range] is [(first, last)] once [seen].  [fuel] bounds the
    number of blocks by [len]. *)
Fixpoint classify_loop (fuel : nat) (scratch original written : bytes) (len off : nat)
    (range : option (nat * nat)) : option (nat * nat) :=
  match fuel with
  | O => range
  | S fuel =>
      if (off <? len)%nat then
        let block_len := Nat.min (len - off) SAR_GATE_BLOCK_SIZE in
        let '(scratch, (nq, nc)) :=
          sar_gate_block_counts scratch (drop off original) (drop off written) block_len in
        let range :=
          if sar_gate_fires nq nc
          then Some (match range with Some (first, _) => first | None => off end,
                     (off + block_len)%nat)
          else range in
        classify_loop fuel scratch original written len (off + SAR_GATE_BLOCK_SIZE) range
      else range
  end.

Definition sar_gate_classify (scratch original written : bytes) (len : nat) : sar_gate_result_t :=
  match classify_loop len scratch original written len 0 None with
  | Some (first, last) =>
      {| candidate := true; novelty_off := u32 (Z.of_nat first);
         novelty_len := u32 (Z.of_nat last - Z.of_nat first) |}
  | None => {| candidate := false; novelty_off := 0; novelty_len := 0 |}
  end.

#[global] Arguments sar_gate_block_counts : simpl never.
#[global] Arguments map_build_overlapping : simpl never.

(** ** The map *)

Definition is_pair (p : Z) : Prop := 0 <= p < 65536.

Lemma pair_at_range p i : is_bytes p -> is_pair (pair_at p i).
Proof.
  intros H. pose proof (rd_byte p i H) as H1. pose proof (rd_byte p (i + 1) H) as H2.
  unfold pair_at, is_pair. rewrite Z.lor_comm, Layout.byte_low_high by done.
  unfold is_u in *. lia.
Qed.

Lemma pair_at_inj p q i j :
  is_bytes p -> is_bytes q ->
  pair_at p i = pair_at q j <-> rd p i = rd q j /\ rd p (i + 1) = rd q (j + 1).
Proof.
  intros Hp Hq. pose proof (rd_byte p (i + 1) Hp) as H1. pose proof (rd_byte q (j + 1) Hq) as H2.
  unfold pair_at. rewrite !(Z.lor_comm (_ .<< _)), !Layout.byte_low_high by done.
  unfold is_u in *. lia.
Qed.

Lemma map_test_bit m p : 0 <= p -> map_test m p = Z.testbit (tbl m (p .>> 3)) (p .& 7).
Proof.
  intros Hp. unfold map_test. rewrite Z.testbit_odd. change 1 with (Z.ones 1) at 1.
  rewrite Z.land_ones by done. change (2 ^ 1) with 2. rewrite Zmod_odd.
  by destruct (Z.odd _).
Qed.

Lemma pair_index p :
  is_pair p -> p .>> 3 = p / 8 /\ p .& 7 = p mod 8 /\ (Z.to_nat (p / 8) < SAR_GATE_MAP_BYTES)%nat.
Proof.
  intros Hp. unfold is_pair in Hp. split_and!.
  - by rewrite Z.shiftr_div_pow2 by done.
  - change 7 with (Z.ones 3). by rewrite Z.land_ones by done.
  - unfold SAR_GATE_MAP_BYTES. apply Z2Nat.inj_lt; [|lia|]; dlia.
Qed.

Lemma rd_insert m i j v :
  (i < length m)%nat -> rd (<[i := v]> m) j = if (i =? j)%nat then v else rd m j.
Proof.
  intros Hi. unfold rd. rewrite !nth_lookup. destruct (Nat.eqb_spec i j) as [->|].
  - by rewrite list_lookup_insert_eq by done.
  - by rewrite list_lookup_insert_ne by done.
Qed.

Lemma map_test_set m p q :
  length m = SAR_GATE_MAP_BYTES -> is_pair p -> is_pair q ->
  map_test (map_set m p) q = (p =? q) || map_test m q.
Proof.
  intros Hm Hp Hq. rewrite !map_test_bit by apply Hq. unfold map_set, tbl.
  destruct (pair_index p Hp) as (-> & -> & Hi), (pair_index q Hq) as (-> & -> & Hj).
  rewrite rd_insert by lia. unfold is_pair in *.
  assert (Hu : u8 (1 .<< (p mod 8)) = 1 .<< (p mod 8)).
  { apply u8_small. rewrite Z.shiftl_1_l. unfold is_u. split; [lia|].
    apply Z.pow_lt_mono_r; dlia. }
  rewrite Hu. destruct (Nat.eqb_spec (Z.to_nat (p / 8)) (Z.to_nat (q / 8))) as [E|E].
  - assert (Hd : p / 8 = q / 8) by dlia. rewrite Z.lor_spec, Hd, orb_comm. f_equal.
    rewrite Z.shiftl_spec by dlia. destruct (Z.eqb_spec p q) as [->|Hne].
    + by rewrite Z.sub_diag.
    + destruct (Z_lt_le_dec (q mod 8) (p mod 8)).
      * rewrite Z.testbit_neg_r by lia. done.
      * change 1 with (2 ^ 0). rewrite Z.pow2_bits_eqb by done. apply Z.eqb_neq. dlia.
  - destruct (Z.eqb_spec p q); [by subst|done].
Qed.

Lemma length_map_set m p : length (map_set m p) = length m.
Proof. apply length_insert. Qed.

(** After building, a pair is in the map exactly when it occurs in the block. *)
Lemma map_build_spec m original n q :
  length m = SAR_GATE_MAP_BYTES -> is_bytes original -> is_pair q ->
  map_test (map_build_overlapping m original n) q =
  existsb (fun i => pair_at original i =? q) (seq 0 (n - 1)).
Proof.
  intros Hm Ho Hq. unfold map_build_overlapping.
  assert (Hz : sar_memset m 0 SAR_GATE_MAP_BYTES = replicate SAR_GATE_MAP_BYTES 0).
  { apply mem_write_all. by rewrite length_replicate. }
  assert (Hzero : map_test (replicate SAR_GATE_MAP_BYTES 0) q = false).
  { rewrite map_test_bit by apply Hq. unfold tbl, rd. rewrite nth_lookup.
    destruct (replicate SAR_GATE_MAP_BYTES 0 !! Z.to_nat (q .>> 3)) eqn:E; simpl;
      [apply lookup_replicate in E as [-> _]|]; apply Z.bits_0. }
  rewrite Hz. destruct (Nat.ltb_spec n 2) as [|Hn].
  { by replace (n - 1)%nat with O by lia. }
  rewrite <- (orb_false_r (existsb _ _)), <- Hzero.
  generalize (length_replicate SAR_GATE_MAP_BYTES 0).
  generalize (replicate SAR_GATE_MAP_BYTES 0) as m0. clear Hz Hzero Hm m Hn.
  induction (seq 0 (n - 1)) as [|i l IH]; intros m0 Hm0; [done|]. cbn [fold_left existsb].
  rewrite IH by by rewrite length_map_set.
  rewrite map_test_set by auto using pair_at_range. btauto.
Qed.

Lemma length_map_build m original n :
  length m = SAR_GATE_MAP_BYTES -> length (map_build_overlapping m original n) = SAR_GATE_MAP_BYTES.
Proof.
  intros Hm. unfold map_build_overlapping, sar_memset.
  assert (H : forall l m0, length (fold_left (fun m i => map_set m (pair_at original i)) l m0)
    = length m0).
  { induction l as [|i l IH]; intros m0; [done|]. cbn [fold_left]. by rewrite IH, length_map_set. }
  destruct (_ <? _)%nat; rewrite ?H, length_mem_write; done.
Qed.

(** ** The counts *)

Definition changed (original written : bytes) (k : nat) : bool :=
  negb ((rd written k =? rd original k) && (rd written (k + 1) =? rd original (k + 1))).

Definition occurs (original : bytes) (n : nat) (pair : Z) : bool :=
  existsb (fun i => pair_at original i =? pair) (seq 0 (n - 1)).

(** Number of changed overlapping pairs, and of those the original has. *)
Definition query_count (original written : bytes) (n : nat) : Z :=
  Z.of_nat (length (List.filter (changed original written) (seq 0 (n - 1)))).
Definition covered_count (original written : bytes) (n : nat) : Z :=
  Z.of_nat (length (List.filter (fun k => changed original written k &&
                                          occurs original n (pair_at written k)) (seq 0 (n - 1)))).

Lemma count_fold (p q : nat -> bool) l nq nc :
  0 <= nq -> 0 <= nc -> nq + Z.of_nat (length l) < 2 ^ 32 -> nc + Z.of_nat (length l) < 2 ^ 32 ->
  fold_left (fun '(nq, nc) k =>
    if p k then (nq, nc) else (u32 (nq + 1), if q k then u32 (nc + 1) else nc)) l (nq, nc) =
  (nq + Z.of_nat (length (List.filter (fun k => negb (p k)) l)),
   nc + Z.of_nat (length (List.filter (fun k => negb (p k) && q k) l))).
Proof.
  revert nq nc. induction l as [|k l IH]; intros nq nc H1 H2 H3 H4;
    cbn [fold_left List.filter length] in *; [f_equal; lia|].
  destruct (p k); cbn [negb andb]; [apply IH; lia|].
  rewrite (u32_small (nq + 1)) by (unfold is_u; lia). destruct (q k).
  - rewrite (u32_small (nc + 1)) by (unfold is_u; lia). rewrite IH by lia.
    cbn [length]. f_equal; lia.
  - rewrite IH by lia. cbn [length]. f_equal; lia.
Qed.

Lemma block_counts_eq scratch original written n :
  length scratch = SAR_GATE_MAP_BYTES -> is_bytes original -> is_bytes written ->
  Z.of_nat n < 2 ^ 32 ->
  (sar_gate_block_counts scratch original written n).2 =
    (query_count original written n, covered_count original written n).
Proof.
  intros Hs Ho Hw Hn. unfold sar_gate_block_counts. cbn [snd].
  rewrite (count_fold (fun k => (rd written k =? rd original k) &&
    (rd written (k + 1) =? rd original (k + 1)))
    (fun k => map_test (map_build_overlapping scratch original n) (pair_at written k)))
    by (rewrite ?length_seq; lia).
  unfold query_count, covered_count, changed. rewrite !Z.add_0_l. do 3 f_equal.
  apply List.filter_ext. intros k. f_equal. unfold occurs.
  by apply map_build_spec, pair_at_range.
Qed.

Lemma covered_le_query original written n :
  0 <= covered_count original written n <= query_count original written n /\
  query_count original written n <= Z.of_nat (n - 1).
Proof.
  unfold covered_count, query_count.
  assert (H : forall (p q : nat -> bool) l,
    (length (List.filter (fun k => p k && q k) l) <= length (List.filter p l))%nat).
  { intros p q l. induction l as [|k l IH]; [done|]. cbn [List.filter].
    destruct (p k), (q k); simpl; lia. }
  specialize (H (changed original written) (fun k => occurs original n (pair_at written k))
    (seq 0 (n - 1))).
  pose proof (List.filter_length_le (changed original written) (seq 0 (n - 1))) as H2.
  rewrite length_seq in H2. cbn beta in H. split_and!; lia.
Qed.

(** The firing condition on exact integers. *)
Definition novel_enough (nq nc : Z) : Prop := 12 <= nq - nc /\ nq <= 10 * (nq - nc).

Lemma fires_iff nq nc :
  0 <= nc <= nq -> nq < 2 ^ 25 -> sar_gate_fires nq nc = true <-> novel_enough nq nc.
Proof.
  intros H1 H2. unfold sar_gate_fires, novel_enough, SAR_GATE_MIN_NOVELTY_BIGRAMS,
    SAR_GATE_THETA_NUM, SAR_GATE_THETA_DEN.
  rewrite !u32_small by (unfold is_u; lia).
  destruct (Z.eqb_spec nq 0); [split; [done|lia]|].
  destruct (Z.ltb_spec (nq - nc) 12); [split; [done|lia]|]. rewrite Z.leb_le. lia.
Qed.

(** ** Classification *)

(** Block [i] of the buffers, and whether it is novel. *)
Definition block_len (len off : nat) : nat := Nat.min (len - off) SAR_GATE_BLOCK_SIZE.

Definition block_novel (original written : bytes) (len off : nat) : Prop :=
  novel_enough (query_count (drop off original) (drop off written) (block_len len off))
               (covered_count (drop off original) (drop off written) (block_len len off)).

(** The range after the blocks before [off] (a multiple of the block size). *)
Definition range_ok (original written : bytes) (len off : nat) (range : option (nat * nat)) : Prop :=
  let novel i := block_novel original written len (i * SAR_GATE_BLOCK_SIZE) in
  match range with
  | None => forall i, (i * SAR_GATE_BLOCK_SIZE < off)%nat -> ~ novel i
  | Some (first, last) => exists i j, (i <= j)%nat /\ novel i /\ novel j /\
      first = (i * SAR_GATE_BLOCK_SIZE)%nat /\
      last = Nat.min len ((j + 1) * SAR_GATE_BLOCK_SIZE) /\ (j * SAR_GATE_BLOCK_SIZE < off)%nat /\
      (j * SAR_GATE_BLOCK_SIZE < len)%nat /\
      forall k, (k * SAR_GATE_BLOCK_SIZE < off)%nat -> novel k -> (i <= k <= j)%nat
  end.

(** One block: extend the range exactly when the block is novel. *)
Lemma range_step original written len n range (b : bool) :
  let off := (n * SAR_GATE_BLOCK_SIZE)%nat in
  (off < len)%nat -> b = true <-> block_novel original written len off ->
  range_ok original written len off range ->
  range_ok original written len (off + SAR_GATE_BLOCK_SIZE)
    (if b then Some (match range with Some (first, _) => first | None => off end,
                     (off + block_len len off)%nat) else range).
Proof.
  intros off Hoff Hb Hr.
  assert (Hk : forall k, (k * SAR_GATE_BLOCK_SIZE < off + SAR_GATE_BLOCK_SIZE)%nat ->
    (k * SAR_GATE_BLOCK_SIZE < off)%nat \/ k = n) by (unfold off, SAR_GATE_BLOCK_SIZE; lia).
  assert (Hlast : (off + block_len len off)%nat = Nat.min len ((n + 1) * SAR_GATE_BLOCK_SIZE))
    by (unfold block_len, off, SAR_GATE_BLOCK_SIZE in *; lia).
  rewrite Hlast. unfold range_ok in *. destruct b, range as [[first last]|]; cbn zeta in *.
  - destruct Hr as (i & j & Hij & Hi & Hj & -> & _ & Hjo & _ & Hall).
    exists i, n. split_and!; try done; try (unfold off, SAR_GATE_BLOCK_SIZE in *; lia).
    + by apply Hb.
    + intros k [Hk'| ->]%Hk Hn; [|unfold off, SAR_GATE_BLOCK_SIZE in *; lia].
      specialize (Hall k Hk' Hn). unfold off, SAR_GATE_BLOCK_SIZE in *; lia.
  - assert (Hn : block_novel original written len (n * SAR_GATE_BLOCK_SIZE)) by by apply Hb.
    exists n, n. split_and!; try done; try (unfold off, SAR_GATE_BLOCK_SIZE in *; lia).
    intros k [Hk'| ->]%Hk Hkn; [|lia]. by apply Hr in Hk'.
  - destruct Hr as (i & j & Hij & Hi & Hj & -> & -> & Hjo & Hjl & Hall).
    exists i, j. split_and!; try done; try lia.
    intros k [Hk'| ->]%Hk Hkn; [by apply Hall|]. by apply Hb in Hkn.
  - intros k [Hk'| ->]%Hk Hkn; [by apply (Hr k)|]. by apply Hb in Hkn.
Qed.

Lemma classify_loop_spec original written len fuel scratch n range :
  length scratch = SAR_GATE_MAP_BYTES -> is_bytes original -> is_bytes written ->
  let off := (n * SAR_GATE_BLOCK_SIZE)%nat in
  (len - off <= fuel)%nat -> range_ok original written len off range ->
  exists off', (len <= off')%nat /\
    range_ok original written len off' (classify_loop fuel scratch original written len off range).
Proof.
  intros Hs Ho Hw. revert scratch n range Hs.
  induction fuel as [|fuel IH]; intros scratch n range Hs off Hf Hr; cbn [classify_loop].
  { exists off. split; [lia|done]. }
  destruct (Nat.ltb_spec off len) as [Hlt|Hge]; [|by exists off].
  assert (Hbl : (block_len len off <= 256)%nat) by (unfold block_len, SAR_GATE_BLOCK_SIZE; lia).
  pose proof (block_counts_eq scratch (drop off original) (drop off written)
    (block_len len off) Hs ltac:(by apply Forall_drop) ltac:(by apply Forall_drop) ltac:(lia)) as Hc.
  fold (block_len len off).
  assert (Hs' : length (sar_gate_block_counts scratch (drop off original) (drop off written)
    (block_len len off)).1 = SAR_GATE_MAP_BYTES) by by apply length_map_build.
  destruct (sar_gate_block_counts _ _ _ _) as [scratch' [nq nc]]. cbn [fst snd] in *.
  injection Hc as -> ->.
  destruct (covered_le_query (drop off original) (drop off written) (block_len len off)) as [H1 H2].
  set (b := sar_gate_fires _ _).
  assert (Hb : b = true <-> block_novel original written len off) by (apply fires_iff; lia).
  pose proof (range_step original written len n range b Hlt Hb Hr) as Hstep.
  fold off in Hstep. replace (off + SAR_GATE_BLOCK_SIZE)%nat with ((n + 1) * SAR_GATE_BLOCK_SIZE)%nat
    in * by (unfold off, SAR_GATE_BLOCK_SIZE; lia).
  apply IH; [done|unfold off, SAR_GATE_BLOCK_SIZE in *; lia|done].
Qed.

(** ** Concrete blocks, for the witnesses *)

Definition demo_original : bytes := replicate 300 0x41.
Definition demo_written : bytes := replicate 256 0x41 ++ map (fun i => Z.of_nat i * 5) (seq 1 44).
Definition demo_scratch : bytes := replicate SAR_GATE_MAP_BYTES 0xff.

Lemma demo_bytes : is_bytes demo_original /\ is_bytes demo_written.
Proof. split; apply forall_u_check; vm_compute; reflexivity. Qed.

(** ** Properties *)

(** Whatever the scratch map held before, the counts are exact:
    [n_query] is the number of overlapping byte pairs that changed, [n_covered]
    the number of those that occur somewhere in the original block; so
    [n_covered <= n_query <= block_len - 1]. *)
Theorem gate_block_counts_exact scratch original written n :
  length scratch = SAR_GATE_MAP_BYTES -> is_bytes original -> is_bytes written ->
  Z.of_nat n < 2 ^ 32 ->
  let '(_, (nq, nc)) := sar_gate_block_counts scratch original written n in
  nq = query_count original written n /\ nc = covered_count original written n /\
  0 <= nc <= nq /\ nq <= Z.of_nat (n - 1).
Proof.
  intros Hs Ho Hw Hn. pose proof (block_counts_eq scratch original written n Hs Ho Hw Hn) as H.
  destruct (sar_gate_block_counts _ _ _ _) as [s [nq nc]]. injection H as -> ->.
  pose proof (covered_le_query original written n). split_and!; try done; lia.
Qed.

Lemma gate_block_counts_exact_witness :
  let '(_, (nq, nc)) := sar_gate_block_counts demo_scratch [1; 2; 3; 4] [1; 3; 4; 4] 4 in
  nq = 3 /\ nc <= nq.
Proof.
  pose proof (gate_block_counts_exact demo_scratch [1; 2; 3; 4] [1; 3; 4; 4] 4
    ltac:(apply length_replicate) ltac:(apply forall_u_check; reflexivity)
    ltac:(apply forall_u_check; reflexivity) ltac:(lia)) as H.
  destruct (sar_gate_block_counts _ _ _ _) as [s [nq nc]].
  destruct H as (-> & -> & H & _). split; [reflexivity|lia].
Defined.

(** The gate reports a candidate exactly when some 256-byte block
    has at least 12 novel changed pairs that are at least a tenth of its changed
    pairs; the reported range starts at the first such block, ends with the
    last one (cut at [len]), is not empty and lies inside the buffer. *)
Theorem gate_classify_range scratch original written len :
  length scratch = SAR_GATE_MAP_BYTES -> is_bytes original -> is_bytes written ->
  Z.of_nat len < 2 ^ 32 ->
  let res := sar_gate_classify scratch original written len in
  let novel i := block_novel original written len (i * SAR_GATE_BLOCK_SIZE) in
  let inside i := (i * SAR_GATE_BLOCK_SIZE < len)%nat in
  if candidate res then
    0 < novelty_len res /\ novelty_off res + novelty_len res <= Z.of_nat len /\
    exists i j, novel i /\ novel j /\ (forall k, inside k -> novel k -> (i <= k <= j)%nat) /\
      novelty_off res = Z.of_nat i * 256 /\
      novelty_off res + novelty_len res = Z.min (Z.of_nat len) (Z.of_nat (j + 1) * 256)
  else forall k, inside k -> ~ novel k.
Proof.
  intros Hs Ho Hw Hl. unfold sar_gate_classify.
  destruct (classify_loop_spec original written len len scratch 0 None Hs Ho Hw) as (off & Hoff & H).
  { lia. }
  { intros i Hi. unfold SAR_GATE_BLOCK_SIZE in *. lia. }
  change (0 * SAR_GATE_BLOCK_SIZE)%nat with O in H.
  destruct (classify_loop _ _ _ _ _ _ _) as [[first last]|]; cbn [candidate novelty_off novelty_len].
  - destruct H as (i & j & Hij & Hi & Hj & -> & -> & _ & Hjl & Hall).
    unfold SAR_GATE_BLOCK_SIZE in *. rewrite !u32_small by (unfold is_u; lia).
    split_and!; [lia|lia|]. exists i, j. split_and!; try done; [|lia|lia].
    intros k Hk. apply Hall. lia.
  - intros k Hk. apply H. lia.
Qed.

Lemma gate_classify_range_witness :
  let res := sar_gate_classify demo_scratch demo_original demo_written 300 in
  candidate res = true /\ novelty_off res + novelty_len res <= 300.
Proof.
  pose proof (gate_classify_range demo_scratch demo_original demo_written 300
    ltac:(apply length_replicate) (proj1 demo_bytes) (proj2 demo_bytes) ltac:(lia)) as H.
  assert (E : candidate (sar_gate_classify demo_scratch demo_original demo_written 300) = true)
    by (vm_compute; reflexivity).
  cbn zeta in *. rewrite E in H. split; [exact E|]. apply H.
Defined.

End Gate.
