(* ===== verification/Protocol.v ===== *)
(** * The control protocol: message layouts and validation

    [Protocol] has the packed message structures of
    common/include/semantics_ar/protocol.h, field by field; [Msg] models
    control/src/msg.c: the expected length of each message type and the
    validation every inbound buffer passes before it is dispatched. *)

From Stdlib Require Import String.
From S2P Require Import Prelude Mem Format.
Import Layout.

Module Protocol.

(** A packed C type: the field types are laid out without padding. *)
#[warnings="-register-all"]
Inductive ctype :=
  | U8 | U16 | U32 | U64 | I32
  | Arr (n : nat) (t : ctype)
  | Struct (fields : list (string * ctype)).

Fixpoint csizeof (t : ctype) : Z :=
  match t with
  | U8 => 1 | U16 => 2 | U32 => 4 | U64 => 8 | I32 => 4
  | Arr n t => Z.of_nat n * csizeof t
  | Struct fs => fold_right (fun f acc => csizeof (snd f) + acc) 0 fs
  end.

Definition SEMANTICS_AR_PROTOCOL_VERSION : Z := 2.

Definition SEMANTICS_AR_MSG_VERDICT_NOTIFY : Z := 1.
Definition SEMANTICS_AR_MSG_RECOVERY_EXEC : Z := 2.
Definition SEMANTICS_AR_MSG_RECOVERY_RESULT : Z := 3.
Definition SEMANTICS_AR_MSG_SET_MODE : Z := 4.
Definition SEMANTICS_AR_MSG_WHITELIST_ADD : Z := 5.
Definition SEMANTICS_AR_MSG_WHITELIST_REMOVE : Z := 6.
Definition SEMANTICS_AR_MSG_GET_STATUS : Z := 7.
Definition SEMANTICS_AR_MSG_CONNECT_CHALLENGE : Z := 8.
Definition SEMANTICS_AR_MSG_CONNECT_RESPONSE : Z := 9.
Definition SEMANTICS_AR_MSG_STATUS_REPLY : Z := 10.
Definition SEMANTICS_AR_MSG_CATALOG_QUERY : Z := 11.
Definition SEMANTICS_AR_MSG_CATALOG_REPLY : Z := 12.
Definition SEMANTICS_AR_MSG_PRESERVE_QUERY : Z := 13.
Definition SEMANTICS_AR_MSG_PRESERVE_REPLY : Z := 14.
Definition SEMANTICS_AR_MSG_PRESERVE_RECOVER : Z := 15.
Definition SEMANTICS_AR_MSG_PRESERVE_RESULT : Z := 16.
Definition SEMANTICS_AR_MSG_SET_BUDGET : Z := 17.
Definition SEMANTICS_AR_MSG_EVENTS_QUERY : Z := 18.
Definition SEMANTICS_AR_MSG_EVENTS_REPLY : Z := 19.
Definition SEMANTICS_AR_MSG_IDENTITY_VERDICT : Z := 20.
Definition SEMANTICS_AR_MSG_PROCESS_QUERY : Z := 21.
Definition SEMANTICS_AR_MSG_PROCESS_REPLY : Z := 22.
Definition SEMANTICS_AR_MSG_WHITELIST_QUERY : Z := 23.
Definition SEMANTICS_AR_MSG_WHITELIST_REPLY : Z := 24.

Definition SEMANTICS_AR_MODE_AUDIT : Z := 0.
Definition SEMANTICS_AR_MODE_ENFORCE : Z := 1.

Definition SEMANTICS_AR_PROTO_PATH_MAX : nat := 260.
Definition SEMANTICS_AR_PROTO_SUBJECT_MAX : nat := 256.
Definition SEMANTICS_AR_CONTENT_HASH_SIZE : nat := 32.
Definition SEMANTICS_AR_HS_NONCE_SIZE : nat := 32.
Definition SEMANTICS_AR_HS_SIG_MAX : nat := 512.

#[local] Open Scope string_scope.
#[local] Open Scope list_scope.

Definition semantics_ar_msg_header_t : ctype := Struct [
  ("protocol_version", U32); ("message_type", U32); ("message_length", U32)].

Definition semantics_ar_verdict_notify_t : ctype := Struct [
  ("header", semantics_ar_msg_header_t); ("key_id", Arr SEMANTICS_AR_KEY_ID_SIZE U8);
  ("algorithm", U32); ("mode", U32); ("mode_params", U64); ("provenance_offset", U64);
  ("provenance_path", Arr SEMANTICS_AR_PROTO_PATH_MAX U16)].

Definition semantics_ar_recovery_exec_t : ctype := Struct [
  ("header", semantics_ar_msg_header_t); ("key_id", Arr SEMANTICS_AR_KEY_ID_SIZE U8);
  ("target_path", Arr SEMANTICS_AR_PROTO_PATH_MAX U16)].

Definition semantics_ar_recovery_result_t : ctype := Struct [
  ("header", semantics_ar_msg_header_t); ("status", I32); ("bytes_recovered", U64)].

Definition semantics_ar_set_mode_t : ctype := Struct [
  ("header", semantics_ar_msg_header_t); ("mode", U32)].

Definition semantics_ar_whitelist_control_t : ctype := Struct [
  ("header", semantics_ar_msg_header_t);
  ("image_path", Arr SEMANTICS_AR_PROTO_PATH_MAX U16);
  ("cert_subject", Arr SEMANTICS_AR_PROTO_SUBJECT_MAX U16);
  ("content_hash", Arr SEMANTICS_AR_CONTENT_HASH_SIZE U8)].

Definition semantics_ar_identity_verdict_t : ctype := Struct [
  ("header", semantics_ar_msg_header_t); ("pid", U64); ("start_key", U64);
  ("image_path", Arr SEMANTICS_AR_PROTO_PATH_MAX U16);
  ("cert_subject", Arr SEMANTICS_AR_PROTO_SUBJECT_MAX U16);
  ("content_hash", Arr SEMANTICS_AR_CONTENT_HASH_SIZE U8)].

Definition semantics_ar_process_query_t : ctype := Struct [
  ("header", semantics_ar_msg_header_t); ("pid", U64)].

Definition semantics_ar_process_reply_t : ctype := Struct [
  ("header", semantics_ar_msg_header_t); ("valid", U32); ("id_state", U32);
  ("start_key", U64)].

Definition semantics_ar_get_status_t : ctype := Struct [
  ("header", semantics_ar_msg_header_t)].

Definition semantics_ar_status_reply_t : ctype := Struct [
  ("header", semantics_ar_msg_header_t); ("result", I32); ("protocol_version", U32);
  ("mode", U32); ("captured_key_count", U64); ("preserve_capacity_bytes", U64);
  ("preserve_used_bytes", U64); ("preserve_retention_100ns", U64);
  ("preserve_oldest_protected_time", U64); ("preserve_protected_count", U32);
  ("preserve_probation_count", U32); ("capture_inflight", U64); ("integrity_halt", U32)].

Definition semantics_ar_connect_challenge_t : ctype := Struct [
  ("header", semantics_ar_msg_header_t); ("nonce", Arr SEMANTICS_AR_HS_NONCE_SIZE U8)].

Definition semantics_ar_connect_response_t : ctype := Struct [
  ("header", semantics_ar_msg_header_t); ("sig_length", U32);
  ("signature", Arr SEMANTICS_AR_HS_SIG_MAX U8)].

Definition semantics_ar_catalog_entry_t : ctype := Struct [
  ("key_id", Arr SEMANTICS_AR_KEY_ID_SIZE U8); ("algorithm", U32); ("mode", U32);
  ("provenance_offset", U64); ("provenance_path", Arr SEMANTICS_AR_PROTO_PATH_MAX U16);
  ("capture_time", U64); ("actor_start_key", U64)].

Definition semantics_ar_catalog_query_t : ctype := Struct [
  ("header", semantics_ar_msg_header_t); ("index", U32)].

Definition semantics_ar_catalog_reply_t : ctype := Struct [
  ("header", semantics_ar_msg_header_t); ("result", I32); ("total", U32); ("index", U32);
  ("valid", U32); ("entry", semantics_ar_catalog_entry_t)].

Definition semantics_ar_preserve_entry_t : ctype := Struct [
  ("provenance_path", Arr SEMANTICS_AR_PROTO_PATH_MAX U16); ("provenance_offset", U64);
  ("provenance_length", U64); ("capture_time", U64); ("payload_length", U64);
  ("actor_start_key", U64); ("state", U32);
  ("causing_image_path", Arr SEMANTICS_AR_PROTO_PATH_MAX U16)].

Definition semantics_ar_preserve_query_t : ctype := Struct [
  ("header", semantics_ar_msg_header_t); ("index", U32)].

Definition semantics_ar_preserve_reply_t : ctype := Struct [
  ("header", semantics_ar_msg_header_t); ("result", I32); ("total", U32); ("index", U32);
  ("valid", U32); ("entry", semantics_ar_preserve_entry_t)].

Definition semantics_ar_preserve_recover_t : ctype := Struct [
  ("header", semantics_ar_msg_header_t);
  ("target_path", Arr SEMANTICS_AR_PROTO_PATH_MAX U16); ("offset", U64); ("length", U64)].

Definition semantics_ar_set_budget_t : ctype := Struct [
  ("header", semantics_ar_msg_header_t); ("retention_100ns", U64); ("capacity_bytes", U64)].

Definition semantics_ar_whitelist_entry_t : ctype := Struct [
  ("image_path", Arr SEMANTICS_AR_PROTO_PATH_MAX U16);
  ("cert_subject", Arr SEMANTICS_AR_PROTO_SUBJECT_MAX U16);
  ("content_hash", Arr SEMANTICS_AR_CONTENT_HASH_SIZE U8); ("first_seen", U64)].

Definition semantics_ar_whitelist_query_t : ctype := Struct [
  ("header", semantics_ar_msg_header_t); ("index", U32)].

Definition semantics_ar_whitelist_reply_t : ctype := Struct [
  ("header", semantics_ar_msg_header_t); ("result", I32); ("total", U32); ("index", U32);
  ("valid", U32); ("entry", semantics_ar_whitelist_entry_t)].

Definition semantics_ar_events_query_t : ctype := Struct [
  ("header", semantics_ar_msg_header_t); ("generation", U64); ("sequence", U64)].

Definition semantics_ar_events_reply_t : ctype := Struct [
  ("header", semantics_ar_msg_header_t); ("result", I32); ("valid", U32); ("gap", U32);
  ("event_class", U32); ("generation", U64); ("sequence", U64); ("timestamp", U64);
  ("actor_start_key", U64)].

End Protocol.

Module Msg.
Import Protocol.

Inductive sar_msg_status_t :=
  | SAR_MSG_OK | SAR_MSG_ERR_SHORT_HEADER | SAR_MSG_ERR_VERSION | SAR_MSG_ERR_TYPE
  | SAR_MSG_ERR_LENGTH | SAR_MSG_ERR_TRUNCATED | SAR_MSG_ERR_OVERSIZED.

#[global] Instance sar_msg_status_eq_dec : EqDecision sar_msg_status_t.
Proof. solve_decision. Defined.

(** The three [uint32_t] fields of [semantics_ar_msg_header_t]. *)
Record msg_header := { protocol_version : Z; message_type : Z; message_length : Z }.

Definition header_of (buf : bytes) : msg_header := {|
  protocol_version := le_val (take 4 buf);
  message_type := le_val (take 4 (drop 4 buf));
  message_length := le_val (take 4 (drop 8 buf)) |}.

Definition sar_msg_expected_length (message_type : Z) : Z :=
  if message_type =? SEMANTICS_AR_MSG_VERDICT_NOTIFY then csizeof semantics_ar_verdict_notify_t
  else if message_type =? SEMANTICS_AR_MSG_RECOVERY_EXEC then csizeof semantics_ar_recovery_exec_t
  else if message_type =? SEMANTICS_AR_MSG_RECOVERY_RESULT then csizeof semantics_ar_recovery_result_t
  else if message_type =? SEMANTICS_AR_MSG_SET_MODE then csizeof semantics_ar_set_mode_t
  else if message_type =? SEMANTICS_AR_MSG_WHITELIST_ADD then csizeof semantics_ar_whitelist_control_t
  else if message_type =? SEMANTICS_AR_MSG_WHITELIST_REMOVE then csizeof semantics_ar_whitelist_control_t
  else if message_type =? SEMANTICS_AR_MSG_GET_STATUS then csizeof semantics_ar_get_status_t
  else if message_type =? SEMANTICS_AR_MSG_CONNECT_CHALLENGE then csizeof semantics_ar_connect_challenge_t
  else if message_type =? SEMANTICS_AR_MSG_CONNECT_RESPONSE then csizeof semantics_ar_connect_response_t
  else if message_type =? SEMANTICS_AR_MSG_STATUS_REPLY then csizeof semantics_ar_status_reply_t
  else if message_type =? SEMANTICS_AR_MSG_CATALOG_QUERY then csizeof semantics_ar_catalog_query_t
  else if message_type =? SEMANTICS_AR_MSG_CATALOG_REPLY then csizeof semantics_ar_catalog_reply_t
  else if message_type =? SEMANTICS_AR_MSG_PRESERVE_QUERY then csizeof semantics_ar_preserve_query_t
  else if message_type =? SEMANTICS_AR_MSG_PRESERVE_REPLY then csizeof semantics_ar_preserve_reply_t
  else if message_type =? SEMANTICS_AR_MSG_PRESERVE_RECOVER then csizeof semantics_ar_preserve_recover_t
  else if message_type =? SEMANTICS_AR_MSG_PRESERVE_RESULT then csizeof semantics_ar_recovery_result_t
  else if message_type =? SEMANTICS_AR_MSG_SET_BUDGET then csizeof semantics_ar_set_budget_t
  else if message_type =? SEMANTICS_AR_MSG_EVENTS_QUERY then csizeof semantics_ar_events_query_t
  else if message_type =? SEMANTICS_AR_MSG_EVENTS_REPLY then csizeof semantics_ar_events_reply_t
  else if message_type =? SEMANTICS_AR_MSG_IDENTITY_VERDICT then csizeof semantics_ar_identity_verdict_t
  else if message_type =? SEMANTICS_AR_MSG_PROCESS_QUERY then csizeof semantics_ar_process_query_t
  else if message_type =? SEMANTICS_AR_MSG_PROCESS_REPLY then csizeof semantics_ar_process_reply_t
  else if message_type =? SEMANTICS_AR_MSG_WHITELIST_QUERY then csizeof semantics_ar_whitelist_query_t
  else if message_type =? SEMANTICS_AR_MSG_WHITELIST_REPLY then csizeof semantics_ar_whitelist_reply_t
  else 0.

(** Status and [*out_type]. *)
Definition sar_msg_validate (buf : option bytes) : sar_msg_status_t * Z :=
  match buf with
  | None => (SAR_MSG_ERR_SHORT_HEADER, 0)
  | Some b =>
      let inbound_len := Z.of_nat (length b) in
      if inbound_len <? csizeof semantics_ar_msg_header_t then (SAR_MSG_ERR_SHORT_HEADER, 0)
      else
        let header := header_of b in
        if negb (protocol_version header =? SEMANTICS_AR_PROTOCOL_VERSION)
        then (SAR_MSG_ERR_VERSION, 0)
        else
          let expected := sar_msg_expected_length (message_type header) in
          if expected =? 0 then (SAR_MSG_ERR_TYPE, 0)
          else if negb (message_length header =? expected) then (SAR_MSG_ERR_LENGTH, 0)
          else if inbound_len <? expected then (SAR_MSG_ERR_TRUNCATED, 0)
          else if expected <? inbound_len then (SAR_MSG_ERR_OVERSIZED, 0)
          else (SAR_MSG_OK, message_type header)
  end.

(** The message types the protocol knows. *)
Definition known_type (ty : Z) : Prop := 1 <= ty <= 24.

Lemma expected_length_known ty :
  (known_type ty -> csizeof semantics_ar_msg_header_t <= sar_msg_expected_length ty < 2 ^ 32) /\
  (~ known_type ty -> sar_msg_expected_length ty = 0).
Proof.
  split.
  - intros H. assert (Hf : forallb (fun t => (12 <=? sar_msg_expected_length t) &&
      (sar_msg_expected_length t <? 2 ^ 32)) (map Z.of_nat (seq 1 24)) = true)
      by (vm_compute; reflexivity).
    rewrite forallb_forall in Hf. unfold known_type in H.
    assert (Hin : In ty (map Z.of_nat (seq 1 24))).
    { apply in_map_iff. exists (Z.to_nat ty). split; [lia|]. apply in_seq. lia. }
    apply Hf in Hin. bsimp. change (csizeof semantics_ar_msg_header_t) with 12. lia.
  - intros H. unfold known_type in H. unfold sar_msg_expected_length.
    repeat match goal with |- context [ty =? ?c] =>
      destruct (Z.eqb_spec ty c) as [->|_]; [exfalso; apply H; vm_compute; split; congruence|] end.
    done.
Qed.

(** A message as a client builds it: header fields, then the body. *)
Definition make_message (ty : Z) (body : bytes) : bytes :=
  le_bytes 4 SEMANTICS_AR_PROTOCOL_VERSION ++ le_bytes 4 ty ++
  le_bytes 4 (sar_msg_expected_length ty) ++ body.

Lemma header_of_make ty body :
  is_u32 ty ->
  header_of (make_message ty body) =
    {| protocol_version := SEMANTICS_AR_PROTOCOL_VERSION; message_type := ty;
       message_length := sar_msg_expected_length ty |}.
Proof.
  intros Ht. assert (He : is_u32 (sar_msg_expected_length ty)).
  { destruct (expected_length_known ty) as [H1 H2].
    destruct (decide (1 <= ty /\ ty <= 24)) as [H|H].
    - specialize (H1 H). change (csizeof semantics_ar_msg_header_t) with 12 in H1. unfold is_u. lia.
    - rewrite (H2 H). unfold is_u. lia. }
  unfold header_of, make_message. f_equal.
  - rewrite drop_app_length', take_app_length' by done.
    by apply (le_val_le_bytes 4).
  - rewrite app_assoc, drop_app_length', take_app_length' by done. by apply (le_val_le_bytes 4).
Qed.

Lemma validate_iff b ty :
  sar_msg_validate (Some b) = (SAR_MSG_OK, ty) <->
  csizeof semantics_ar_msg_header_t <= Z.of_nat (length b) /\
  protocol_version (header_of b) = SEMANTICS_AR_PROTOCOL_VERSION /\
  ty = message_type (header_of b) /\ known_type ty /\
  message_length (header_of b) = sar_msg_expected_length ty /\
  Z.of_nat (length b) = sar_msg_expected_length ty.
Proof.
  unfold sar_msg_validate. set (h := header_of b).
  destruct (expected_length_known (message_type h)) as [Hk Hu].
  destruct (Z.ltb_spec (Z.of_nat (length b)) (csizeof semantics_ar_msg_header_t)) as [H|H].
  { split; [done|lia]. }
  destruct (Z.eqb_spec (protocol_version h) SEMANTICS_AR_PROTOCOL_VERSION); cbn [negb];
    [|by split; [|intros (_ & ? & _)]].
  destruct (Z.eqb_spec (sar_msg_expected_length (message_type h)) 0) as [E|E].
  { split; [done|]. intros (_ & _ & -> & Hkt & _). apply Hk in Hkt.
    change (csizeof semantics_ar_msg_header_t) with 12 in Hkt. lia. }
  assert (Hkt : known_type (message_type h)).
  { unfold known_type. destruct (decide (1 <= message_type h /\ message_type h <= 24)); [done|].
    by rewrite Hu in E. }
  destruct (Z.eqb_spec (message_length h) (sar_msg_expected_length (message_type h))); cbn [negb];
    [|by split; [|intros (_ & _ & -> & _ & ? & _)]].
  destruct (Z.ltb_spec (Z.of_nat (length b)) (sar_msg_expected_length (message_type h)));
    [split; [done|intros (_ & _ & -> & _ & _ & ?); lia]|].
  destruct (Z.ltb_spec (sar_msg_expected_length (message_type h)) (Z.of_nat (length b)));
    [split; [done|intros (_ & _ & -> & _ & _ & ?); lia]|].
  clearbody h. split; [intros [= <-]|by intros (_ & _ & -> & _)].
  refine (conj H (conj e (conj eq_refl (conj Hkt (conj e0 _))))). lia.
Qed.

(** A buffer passes validation exactly when it has the protocol
    version, a known message type, and both the announced and the actual length
    are the size of that type's structure; the type is returned. Hence the
    dispatcher's cast of a validated buffer stays inside it. *)
Theorem msg_validate_exact b ty :
  sar_msg_validate (Some b) = (SAR_MSG_OK, ty) <->
  csizeof semantics_ar_msg_header_t <= Z.of_nat (length b) /\
  protocol_version (header_of b) = SEMANTICS_AR_PROTOCOL_VERSION /\
  ty = message_type (header_of b) /\ known_type ty /\
  message_length (header_of b) = sar_msg_expected_length ty /\
  Z.of_nat (length b) = sar_msg_expected_length ty.
Proof. apply validate_iff. Qed.

(** Every message a client builds with the header of a known type
    and a body of the structure's size is accepted under that type. *)
Theorem msg_make_validate ty body :
  known_type ty ->
  Z.of_nat (length body) = sar_msg_expected_length ty - csizeof semantics_ar_msg_header_t ->
  sar_msg_validate (Some (make_message ty body)) = (SAR_MSG_OK, ty).
Proof.
  intros Hk Hb. pose proof (proj1 (expected_length_known ty) Hk) as He.
  unfold sar_msg_validate. rewrite header_of_make by (unfold is_u, known_type in *; lia).
  assert (Hl : Z.of_nat (length (make_message ty body)) = sar_msg_expected_length ty).
  { unfold make_message. rewrite !length_app, !length_le_bytes.
    change (csizeof semantics_ar_msg_header_t) with 12 in *. lia. }
  change (csizeof semantics_ar_msg_header_t) with 12 in *.
  cbn [protocol_version message_type message_length]. rewrite Hl, Z.ltb_irrefl, !Z.eqb_refl.
  rewrite (proj2 (Z.ltb_ge _ _)) by lia. rewrite (proj2 (Z.eqb_neq _ _)) by lia. done.
Qed.

Lemma msg_make_validate_witness :
  sar_msg_validate (Some (make_message SEMANTICS_AR_MSG_SET_MODE [1; 0; 0; 0]))
    = (SAR_MSG_OK, SEMANTICS_AR_MSG_SET_MODE).
Proof. apply msg_make_validate; [unfold known_type; vm_compute; split; congruence|reflexivity]. Defined.

End Msg.
