(* ===== verification/Handshake.v ===== *)
(** * Connection handshake and enforcement mode (control/src/handshake.c, mode.c)

    The handshake is a state machine: challenge, signed response, version
    check.  The signature check is the callback [verify] the caller passes to
    [sar_handshake_init]; it is an argument of the model.  The theorems are
    about every sequence of calls a driver can make. *)

From S2P Require Import Prelude Protocol.
Import Protocol.

Module Handshake.

Definition SAR_HS_NONCE_SIZE : nat := 32.

Inductive sar_hs_phase_t :=
  | SAR_HS_INIT | SAR_HS_CHALLENGE_ISSUED | SAR_HS_AUTHENTICATED | SAR_HS_VERSIONED
  | SAR_HS_REJECTED.

Inductive sar_hs_result_t :=
  | SAR_HS_RESULT_OK | SAR_HS_RESULT_SEQUENCE | SAR_HS_RESULT_VERIFY_FAILED
  | SAR_HS_RESULT_VERSION_MISMATCH | SAR_HS_RESULT_BAD_PARAM.

#[global] Instance sar_hs_phase_eq_dec : EqDecision sar_hs_phase_t.
Proof. solve_decision. Defined.
#[global] Instance sar_hs_result_eq_dec : EqDecision sar_hs_result_t.
Proof. solve_decision. Defined.

(** [verify nonce nonce_len signature], with its context applied. *)
Definition sar_hs_verify_fn : Type := bytes -> Z -> bytes -> bool.

Record sar_handshake_t := {
  phase : sar_hs_phase_t;
  nonce : bytes;
  nonce_len : Z;
  version_local : Z;
  version_peer : Z;
  verify : option sar_hs_verify_fn
}.

Definition set_phase (p : sar_hs_phase_t) (hs : sar_handshake_t) : sar_handshake_t :=
  {| phase := p; nonce := nonce hs; nonce_len := nonce_len hs;
     version_local := version_local hs; version_peer := version_peer hs; verify := verify hs |}.

Definition sar_handshake_init (version_local : Z) (verify : option sar_hs_verify_fn)
    : sar_handshake_t :=
  {| phase := SAR_HS_INIT; nonce := replicate SAR_HS_NONCE_SIZE 0; nonce_len := 0;
     version_local := version_local; version_peer := 0; verify := verify |}.

Definition sar_handshake_issue_challenge (hs : sar_handshake_t) (random : option bytes)
    : sar_hs_result_t * sar_handshake_t :=
  match random with
  | None => (SAR_HS_RESULT_BAD_PARAM, hs)
  | Some r =>
      if negb (length r =? SAR_HS_NONCE_SIZE)%nat then (SAR_HS_RESULT_BAD_PARAM, hs)
      else if negb (bool_decide (phase hs = SAR_HS_INIT)) then (SAR_HS_RESULT_SEQUENCE, hs)
      else (SAR_HS_RESULT_OK,
            {| phase := SAR_HS_CHALLENGE_ISSUED; nonce := mem_write (nonce hs) 0 r;
               nonce_len := Z.of_nat SAR_HS_NONCE_SIZE; version_local := version_local hs;
               version_peer := version_peer hs; verify := verify hs |})
  end.

Definition sar_handshake_verify_response (hs : sar_handshake_t) (signature : option bytes)
    : sar_hs_result_t * sar_handshake_t :=
  match signature with
  | None => (SAR_HS_RESULT_BAD_PARAM, hs)
  | Some sig =>
      if negb (bool_decide (phase hs = SAR_HS_CHALLENGE_ISSUED)) then (SAR_HS_RESULT_SEQUENCE, hs)
      else
        match verify hs with
        | None => (SAR_HS_RESULT_BAD_PARAM, set_phase SAR_HS_REJECTED hs)
        | Some v =>
            if negb (v (nonce hs) (nonce_len hs) sig)
            then (SAR_HS_RESULT_VERIFY_FAILED, set_phase SAR_HS_REJECTED hs)
            else (SAR_HS_RESULT_OK, set_phase SAR_HS_AUTHENTICATED hs)
        end
  end.

Definition sar_handshake_check_version (hs : sar_handshake_t) (peer_version : Z)
    : sar_hs_result_t * sar_handshake_t :=
  if negb (bool_decide (phase hs = SAR_HS_AUTHENTICATED)) then (SAR_HS_RESULT_SEQUENCE, hs)
  else
    let hs := {| phase := phase hs; nonce := nonce hs; nonce_len := nonce_len hs;
                 version_local := version_local hs; version_peer := peer_version;
                 verify := verify hs |} in
    if negb (peer_version =? version_local hs)
    then (SAR_HS_RESULT_VERSION_MISMATCH, set_phase SAR_HS_REJECTED hs)
    else (SAR_HS_RESULT_OK, set_phase SAR_HS_VERSIONED hs).

Definition sar_handshake_timeout (hs : sar_handshake_t) : sar_handshake_t :=
  if negb (bool_decide (phase hs = SAR_HS_VERSIONED)) then set_phase SAR_HS_REJECTED hs else hs.

Definition sar_handshake_authenticated (hs : sar_handshake_t) : bool :=
  bool_decide (phase hs = SAR_HS_VERSIONED).

(** ** Runs: any sequence of calls, in any order *)

Inductive hs_call :=
  | Issue (random : option bytes)
  | Respond (signature : option bytes)
  | CheckVersion (peer_version : Z)
  | Timeout.

Definition hs_step (hs : sar_handshake_t) (c : hs_call) : sar_handshake_t :=
  match c with
  | Issue r => (sar_handshake_issue_challenge hs r).2
  | Respond s => (sar_handshake_verify_response hs s).2
  | CheckVersion v => (sar_handshake_check_version hs v).2
  | Timeout => sar_handshake_timeout hs
  end.

Definition hs_run (hs : sar_handshake_t) (calls : list hs_call) : sar_handshake_t :=
  fold_left hs_step calls hs.

(** The calls that a phase proves to have happened, in order. *)
Definition phase_history (v : sar_hs_verify_fn) (local : Z) (hs : sar_handshake_t)
    (calls : list hs_call) : Prop :=
  match phase hs with
  | SAR_HS_INIT | SAR_HS_REJECTED => True
  | SAR_HS_CHALLENGE_ISSUED =>
      exists a r b, calls = a ++ Issue (Some r) :: b /\ length r = SAR_HS_NONCE_SIZE /\
        nonce hs = r /\ nonce_len hs = 32
  | SAR_HS_AUTHENTICATED =>
      exists a r b sig c, calls = a ++ Issue (Some r) :: b ++ Respond (Some sig) :: c /\
        length r = SAR_HS_NONCE_SIZE /\ v r 32 sig = true
  | SAR_HS_VERSIONED =>
      exists a r b sig c d,
        calls = a ++ Issue (Some r) :: b ++ Respond (Some sig) :: c ++ CheckVersion local :: d /\
        length r = SAR_HS_NONCE_SIZE /\ v r 32 sig = true
  end.

(** What every call keeps: the configuration and the nonce's length. *)
Definition hs_ok (v : sar_hs_verify_fn) (local : Z) (hs : sar_handshake_t) : Prop :=
  verify hs = Some v /\ version_local hs = local /\ length (nonce hs) = SAR_HS_NONCE_SIZE.

Lemma hs_step_ok v local hs c : hs_ok v local hs -> hs_ok v local (hs_step hs c).
Proof.
  unfold hs_ok. intros (H1 & H2 & H3). destruct c as [[r|]|[s|]|p|];
    unfold hs_step, sar_handshake_issue_challenge, sar_handshake_verify_response,
      sar_handshake_check_version, sar_handshake_timeout; rewrite ?H1;
    repeat case_match; cbn; rewrite ?length_mem_write; done.
Qed.

(** A phase's history is still there after a call that does not move it. *)
Lemma history_extend v local hs calls c :
  phase_history v local hs calls -> phase_history v local hs (calls ++ [c]).
Proof.
  unfold phase_history. destruct (phase hs); try done.
  - intros (a & r & b & -> & H). exists a, r, (b ++ [c]). split; [|done]. by rewrite <- app_assoc.
  - intros (a & r & b & s & d & -> & H). exists a, r, b, s, (d ++ [c]). split; [|done].
    rewrite <- !app_assoc. cbn [app]. by rewrite <- app_assoc.
  - intros (a & r & b & s & d & e & -> & H). exists a, r, b, s, d, (e ++ [c]). split; [|done].
    rewrite <- !app_assoc. cbn [app]. rewrite <- !app_assoc. cbn [app]. by rewrite <- app_assoc.
Qed.

Lemma history_step v local hs calls c :
  hs_ok v local hs -> phase_history v local hs calls ->
  phase_history v local (hs_step hs c) (calls ++ [c]).
Proof.
  intros (Hv & Hl & Hn) Hh. pose proof (history_extend v local hs calls c Hh) as Hx.
  destruct c as [[r|]|[s|]|p|]; cbn [hs_step]; try exact Hx.
  - unfold sar_handshake_issue_challenge.
    destruct (Nat.eqb_spec (length r) SAR_HS_NONCE_SIZE) as [Er|]; cbn [negb]; [|done].
    case_bool_decide; cbn [negb snd]; [|done]. unfold phase_history; cbn.
    exists calls, r, []. split_and!; [done|done| |done]. apply mem_write_all. lia.
  - unfold sar_handshake_verify_response. case_bool_decide as Hp; cbn [negb snd]; [|done].
    rewrite Hv. destruct (v (nonce hs) (nonce_len hs) s) eqn:Ev; cbn [negb snd]; [|done].
    unfold phase_history in *. rewrite Hp in Hh. cbn.
    destruct Hh as (a & r & b & -> & Hr & Hnr & Hnl). exists a, r, b, s, [].
    rewrite Hnr, Hnl in Ev. split; [|done]. by rewrite <- app_assoc.
  - unfold sar_handshake_check_version. case_bool_decide as Hp; cbn [negb snd]; [|done].
    cbn [version_local]. rewrite Hl. destruct (Z.eqb_spec p local) as [->|]; cbn [negb snd]; [|done].
    unfold phase_history in *. rewrite Hp in Hh. cbn.
    destruct Hh as (a & r & b & s & d & -> & H). exists a, r, b, s, d, []. split; [|done].
    rewrite <- !app_assoc. cbn [app]. by rewrite <- app_assoc.
  - unfold sar_handshake_timeout. by case_bool_decide.
Qed.

Lemma history_run v local calls hs done_calls :
  hs_ok v local hs -> phase_history v local hs done_calls ->
  phase_history v local (hs_run hs calls) (done_calls ++ calls).
Proof.
  revert hs done_calls. induction calls as [|c calls IH]; intros hs dc Hok Hh.
  - by rewrite app_nil_r.
  - cbn [hs_run fold_left]. replace (dc ++ c :: calls) with ((dc ++ [c]) ++ calls)
      by by rewrite <- app_assoc.
    apply IH; [by apply hs_step_ok|by apply history_step].
Qed.

(** ** Properties *)

(** No sequence of calls authenticates a peer without the whole
    handshake. If the connection is authenticated after some calls, then among
    them are, in this order, a challenge with a 32-byte nonce, a response whose
    signature the callback accepted for exactly that nonce, and a version check
    with the local protocol version. *)
Theorem handshake_authenticated_only_after_proof v local calls :
  sar_handshake_authenticated (hs_run (sar_handshake_init local (Some v)) calls) = true ->
  exists a r b sig c d,
    calls = a ++ Issue (Some r) :: b ++ Respond (Some sig) :: c ++ CheckVersion local :: d /\
    length r = SAR_HS_NONCE_SIZE /\ v r 32 sig = true.
Proof.
  intros H. pose proof (history_run v local calls (sar_handshake_init local (Some v)) []) as Hh.
  unfold sar_handshake_authenticated in H. case_bool_decide as Hp; [|done].
  unfold phase_history in Hh. rewrite Hp in Hh. apply Hh; [by repeat split|done].
Qed.

Definition demo_verify : sar_hs_verify_fn := fun nonce _ sig => bool_decide (nonce = sig).

Lemma handshake_authenticated_only_after_proof_witness :
  let n := replicate 32 9 in
  exists a r b sig c d,
    [Issue (Some n); Respond (Some n); CheckVersion 2; Timeout]
      = a ++ Issue (Some r) :: b ++ Respond (Some sig) :: c ++ CheckVersion 2 :: d /\
    length r = SAR_HS_NONCE_SIZE /\ demo_verify r 32 sig = true.
Proof.
  intros n. apply (handshake_authenticated_only_after_proof demo_verify 2
    [Issue (Some n); Respond (Some n); CheckVersion 2; Timeout]). vm_compute. reflexivity.
Defined.

(** [VERSIONED] and [REJECTED] are final: no later call leaves
    them. So one failed response or version check ends the connection attempt,
    and an authenticated connection survives a late timeout. *)
Theorem handshake_final_phases hs calls :
  phase hs = SAR_HS_VERSIONED \/ phase hs = SAR_HS_REJECTED ->
  phase (hs_run hs calls) = phase hs.
Proof.
  revert hs. induction calls as [|c calls IH]; intros hs Hp; [done|]. cbn [hs_run fold_left].
  assert (Hs : phase (hs_step hs c) = phase hs).
  { destruct c as [[r|]|[s|]|p|];
      unfold hs_step, sar_handshake_issue_challenge, sar_handshake_verify_response,
        sar_handshake_check_version, sar_handshake_timeout;
      destruct Hp as [E|E]; rewrite E; repeat case_bool_decide; try done; repeat case_match; done. }
  fold (hs_run (hs_step hs c) calls). rewrite IH by by rewrite Hs. done.
Qed.

Lemma handshake_final_phases_witness :
  phase (hs_run (hs_step (sar_handshake_init 2 (Some demo_verify)) Timeout)
    [Issue (Some (replicate 32 9)); Respond (Some (replicate 32 9)); CheckVersion 2])
  = SAR_HS_REJECTED.
Proof.
  rewrite handshake_final_phases; [reflexivity|right; reflexivity].
Defined.

(** Liveness: the three calls in order, with an accepted signature, do
    authenticate, from the initial state. *)
Lemma handshake_completes v local r sig :
  length r = SAR_HS_NONCE_SIZE -> v r 32 sig = true ->
  sar_handshake_authenticated (hs_run (sar_handshake_init local (Some v))
    [Issue (Some r); Respond (Some sig); CheckVersion local]) = true.
Proof.
  intros Hr Hv. cbn [hs_run fold_left hs_step].
  unfold sar_handshake_issue_challenge. rewrite Hr, Nat.eqb_refl. cbn [negb].
  rewrite bool_decide_eq_true_2 by done. cbn [negb snd].
  unfold sar_handshake_verify_response. cbn [phase verify nonce nonce_len sar_handshake_init].
  rewrite bool_decide_eq_true_2 by done. cbn [negb].
  rewrite mem_write_all by (by rewrite Hr). change (Z.of_nat SAR_HS_NONCE_SIZE) with 32.
  rewrite Hv. cbn [negb snd]. unfold sar_handshake_check_version.
  cbn [phase set_phase version_local sar_handshake_init].
  rewrite bool_decide_eq_true_2 by done. by rewrite Z.eqb_refl.
Qed.

End Handshake.

Module Mode.

Record sar_mode_state_t := { mode : Z }.

Definition sar_mode_init : sar_mode_state_t := {| mode := SEMANTICS_AR_MODE_AUDIT |}.

Definition sar_mode_set (st : sar_mode_state_t) (requested : Z) : bool * sar_mode_state_t :=
  if negb (requested =? SEMANTICS_AR_MODE_AUDIT) && negb (requested =? SEMANTICS_AR_MODE_ENFORCE)
  then (false, st) else (true, {| mode := requested |}).

Definition sar_mode_get (st : sar_mode_state_t) : Z := mode st.

(** Only the two defined modes are ever held, whatever is requested. *)
Lemma mode_reachable requests :
  sar_mode_get (fold_left (fun st r => (sar_mode_set st r).2) requests sar_mode_init)
    ∈ [SEMANTICS_AR_MODE_AUDIT; SEMANTICS_AR_MODE_ENFORCE].
Proof.
  assert (H : sar_mode_get sar_mode_init ∈ [SEMANTICS_AR_MODE_AUDIT; SEMANTICS_AR_MODE_ENFORCE])
    by by left.
  revert H. generalize sar_mode_init as st. induction requests as [|r rs IH]; intros st H; [done|].
  cbn [fold_left]. apply IH. unfold sar_mode_set.
  destruct (Z.eqb_spec r SEMANTICS_AR_MODE_AUDIT) as [->|]; [by left|].
  destruct (Z.eqb_spec r SEMANTICS_AR_MODE_ENFORCE) as [->|]; [by right; left|done].
Qed.

End Mode.
