(* ===== verification/Whitelist.v ===== *)
(** * Program whitelist and interpreter names (control/src/whitelist.c)

    The whitelist is a caller-supplied array of identities with an optional
    parallel array of first-seen times; the model keeps the live prefix of
    both.  Identities are compared by content hash and certificate subject.
    Interpreters, recognised by the last component of their path, are never
    admitted. *)

From stdpp Require Import relations.
From S2P Require Import Prelude Mem Format Protocol Keystore.
Import Mem Layout Protocol.

Module Interpreter.

(** The eight names, as ASCII codes. *)
Definition names : list (list Z) := [
  [112;111;119;101;114;115;104;101;108;108;46;101;120;101];
  [112;119;115;104;46;101;120;101];
  [99;109;100;46;101;120;101];
  [119;115;99;114;105;112;116;46;101;120;101];
  [99;115;99;114;105;112;116;46;101;120;101];
  [109;115;104;116;97;46;101;120;101];
  [112;121;116;104;111;110;46;101;120;101];
  [110;111;100;101;46;101;120;101]
].

Definition is_sep (c : Z) : bool := (c =? 92) || (c =? 47).
Definition is_trail (c : Z) : bool := (c =? 32) || (c =? 46).

(** [if (a >= 'A' && a <= 'Z') a += 32;] *)
Definition lower (a : Z) : Z := if (65 <=? a) && (a <=? 90) then u16 (a + 32) else a.

(** [while (len < PATH_MAX && image_path[len] != 0) len++;] *)
Fixpoint path_len (fuel : nat) (p : list Z) (len : nat) : nat :=
  match fuel with
  | O => len
  | S fuel => if (len <? SEMANTICS_AR_PROTO_PATH_MAX)%nat && negb (rd p len =? 0)
              then path_len fuel p (S len) else len
  end.

Definition find_leaf (p : list Z) (len : nat) : nat :=
  fold_left (fun leaf i => if is_sep (rd p i) then (i + 1)%nat else leaf) (seq 0 len) O.

(** [while (end > leaf && image_path[end - 1] is ' ' or '.') end--;] *)
Fixpoint trim_end (p : list Z) (leaf end_ : nat) : nat :=
  match end_ with
  | O => O
  | S e => if (leaf <? S e)%nat && is_trail (rd p e) then trim_end p leaf e else S e
  end.

(** The comparison loop for one name, then [match && p == end]. *)
Fixpoint name_match (p : list Z) (n : list Z) (pos end_ : nat) : bool :=
  match n with
  | [] => (pos =? end_)%nat
  | b :: n =>
      if (end_ <=? pos)%nat then false
      else if negb (lower (rd p pos) =? lower b) then false
      else name_match p n (S pos) end_
  end.

Definition sar_identity_is_interpreter (image_path : option (list Z)) : bool :=
  match image_path with
  | None => false
  | Some p =>
      let len := path_len SEMANTICS_AR_PROTO_PATH_MAX p 0 in
      let leaf := find_leaf p len in
      let end_ := trim_end p leaf len in
      existsb (fun n => name_match p n leaf end_) names
  end.

(** ** Reference definition on lists *)

Fixpoint take_while (f : Z -> bool) (l : list Z) : list Z :=
  match l with
  | [] => []
  | x :: l => if f x then x :: take_while f l else []
  end.

Fixpoint drop_while (f : Z -> bool) (l : list Z) : list Z :=
  match l with
  | [] => []
  | x :: l => if f x then drop_while f l else x :: l
  end.

Definition nonzero (c : Z) : bool := negb (c =? 0).

(** The text up to the terminator, its last component, the component without
    trailing spaces and dots. *)
Definition text (p : list Z) : list Z :=
  take_while nonzero (take SEMANTICS_AR_PROTO_PATH_MAX p).
Definition basename (s : list Z) : list Z :=
  reverse (take_while (fun c => negb (is_sep c)) (reverse s)).
Definition trimmed (s : list Z) : list Z := reverse (drop_while is_trail (reverse s)).

Definition program_name (p : list Z) : list Z := lower <$> trimmed (basename (text p)).

Lemma path_len_text fuel p len :
  (fuel + len = SEMANTICS_AR_PROTO_PATH_MAX)%nat ->
  path_len fuel p len =
    (len + length (take_while nonzero (take fuel (drop len p))))%nat.
Proof.
  revert len. induction fuel as [|fuel IH]; intros len H; cbn [path_len take].
  { simpl. lia. }
  rewrite (proj2 (Nat.ltb_lt _ _)) by lia. cbn [andb]. unfold rd. rewrite nth_lookup.
  destruct (p !! len) as [c|] eqn:Ec; cbn [default from_option id].
  - rewrite (drop_S _ _ _ Ec). cbn [take take_while]. unfold nonzero at 1.
    destruct (c =? 0); cbn [negb]; [simpl; lia|].
    rewrite IH by lia. simpl. lia.
  - rewrite (drop_ge p len) by (by apply lookup_ge_None). simpl. lia.
Qed.

Lemma take_while_prefix f l : take_while f l = take (length (take_while f l)) l.
Proof.
  induction l as [|x l IH]; [done|]. cbn [take_while]. destruct (f x); [|done].
  cbn [length take]. by rewrite <- IH.
Qed.

Lemma text_eq p : text p = take (path_len SEMANTICS_AR_PROTO_PATH_MAX p 0) p.
Proof.
  rewrite path_len_text by lia. unfold text. rewrite drop_0, Nat.add_0_l.
  rewrite take_while_prefix at 1. rewrite take_take. f_equal.
  set (l := take SEMANTICS_AR_PROTO_PATH_MAX p).
  assert (H : forall f (l : list Z), (length (take_while f l) <= length l)%nat).
  { intros f l'. induction l' as [|x l' IH]; [done|]. cbn [take_while]. destruct (f x); simpl; lia. }
  specialize (H nonzero l).
  assert (length l <= SEMANTICS_AR_PROTO_PATH_MAX)%nat by (unfold l; rewrite length_take; lia). lia.
Qed.

Lemma path_len_le p : (length (text p) <= length p)%nat /\ path_len SEMANTICS_AR_PROTO_PATH_MAX p 0 = length (text p).
Proof.
  split; [rewrite text_eq, length_take; lia|]. rewrite path_len_text by lia.
  by rewrite drop_0, Nat.add_0_l.
Qed.

Lemma basename_snoc s c :
  basename (s ++ [c]) = if is_sep c then [] else basename s ++ [c].
Proof.
  unfold basename. rewrite reverse_app. change (reverse [c]) with [c].
  cbn [app take_while]. destruct (is_sep c); cbn [negb]; [done|].
  by rewrite reverse_cons.
Qed.

(** The leaf index cuts the text at its last component. *)
Lemma find_leaf_spec p n :
  (n <= length p)%nat ->
  (find_leaf p n <= n)%nat /\ drop (find_leaf p n) (take n p) = basename (take n p).
Proof.
  intros Hn. induction n as [|n IH]; [done|].
  destruct (lookup_lt_is_Some_2 p n) as [c Hc]; [lia|].
  specialize (IH ltac:(lia)). unfold find_leaf in *. rewrite seq_S, fold_left_app, Nat.add_0_l.
  cbn [fold_left]. rewrite (rd_lookup _ _ _ Hc), (take_S_r _ _ _ Hc), basename_snoc.
  set (leaf := fold_left _ _ _) in *. destruct IH as [Hle He].
  assert (Hl : length (take n p) = n) by (rewrite length_take; lia).
  destruct (is_sep c).
  - split; [lia|]. rewrite drop_ge; [done|]. rewrite length_app, Hl. simpl. lia.
  - split; [lia|]. rewrite drop_app_le by lia. by rewrite He.
Qed.

Lemma trimmed_snoc s c : trimmed (s ++ [c]) = if is_trail c then trimmed s else s ++ [c].
Proof.
  unfold trimmed. rewrite reverse_app. change (reverse [c]) with [c]. cbn [app drop_while].
  destruct (is_trail c); [done|]. by rewrite reverse_cons, reverse_involutive.
Qed.

Lemma trim_end_spec p leaf e :
  (leaf <= e <= length p)%nat ->
  (leaf <= trim_end p leaf e <= e)%nat /\
  drop leaf (take (trim_end p leaf e) p) = trimmed (drop leaf (take e p)).
Proof.
  induction e as [|e IH]; intros H; cbn [trim_end].
  { replace leaf with O by lia. by rewrite !take_0, !drop_0. }
  destruct (Nat.ltb_spec leaf (S e)) as [Hlt|Hge]; cbn [andb].
  - destruct (lookup_lt_is_Some_2 p e) as [c Hc]; [lia|]. rewrite (rd_lookup _ _ _ Hc).
    assert (Hd : drop leaf (take (S e) p) = drop leaf (take e p) ++ [c]).
    { rewrite (take_S_r _ _ _ Hc). apply drop_app_le. rewrite length_take. lia. }
    rewrite Hd, trimmed_snoc. destruct (is_trail c).
    + destruct (IH ltac:(lia)) as [H1 H2]. split; [lia|done].
    + split; [lia|done].
  - replace leaf with (S e) by lia. rewrite !drop_ge by (rewrite length_take; lia).
    split; [lia|done].
Qed.

Lemma name_match_spec p n pos e :
  (pos <= e <= length p)%nat ->
  name_match p n pos e = true <-> lower <$> drop pos (take e p) = lower <$> n.
Proof.
  revert pos. induction n as [|b n IH]; intros pos H; cbn [name_match].
  - rewrite Nat.eqb_eq. split.
    + intros ->. by rewrite drop_ge by (rewrite length_take; lia).
    + intros E%fmap_nil_inv. apply (f_equal length) in E. rewrite length_drop, length_take in E.
      simpl in E. lia.
  - destruct (Nat.leb_spec e pos) as [Hge|Hlt].
    + rewrite drop_ge by (rewrite length_take; lia). split; done.
    + destruct (lookup_lt_is_Some_2 p pos) as [c Hc]; [lia|].
      assert (Hd : drop pos (take e p) = c :: drop (S pos) (take e p)).
      { apply drop_S. rewrite lookup_take_lt by lia. done. }
      rewrite Hd, (rd_lookup _ _ _ Hc), !fmap_cons. destruct (Z.eqb_spec (lower c) (lower b)) as [->|Hne];
        cbn [negb].
      * rewrite IH by lia. split; [by intros ->|by intros [=]].
      * split; [done|]. by intros [=].
Qed.

Lemma names_lower : Forall (fun n => lower <$> n = n) names.
Proof. repeat constructor. Qed.

Lemma is_interpreter_iff p :
  sar_identity_is_interpreter (Some p) = true <-> program_name p ∈ names.
Proof.
  unfold sar_identity_is_interpreter, program_name. destruct (path_len_le p) as [Hle Hlen].
  set (len := path_len _ _ _) in *.
  assert (Hn : (len <= length p)%nat) by lia.
  destruct (find_leaf_spec p len Hn) as [Hl Hb].
  destruct (trim_end_spec p (find_leaf p len) len) as [Ht Htr]; [lia|].
  rewrite text_eq. fold len. rewrite <- Hb, <- Htr, existsb_exists.
  pose proof names_lower as Hnl. rewrite Forall_forall in Hnl. split.
  - intros (n & Hn1 & Hn2). apply list_elem_of_In in Hn1.
    apply name_match_spec in Hn2; [|lia]. by rewrite Hn2, Hnl.
  - intros Hin. eexists. split; [apply list_elem_of_In, Hin|].
    apply name_match_spec; [lia|]. symmetry. by apply Hnl.
Qed.

(** A path is recognised as an interpreter exactly when the last
    component of its text (up to the terminator), without trailing spaces and
    dots and in lower case, is one of the eight listed program names. *)
Theorem interpreter_recognised_iff p :
  sar_identity_is_interpreter (Some p) = true <-> program_name p ∈ names.
Proof. apply is_interpreter_iff. Qed.

End Interpreter.

Module Whitelist.
Import Interpreter.

Record sar_identity_t := {
  image_path : list Z;
  cert_subject : list Z;
  content_hash : bytes
}.

(** [entries] and [first_seen] (absent when NULL) hold the [count] live slots. *)
Record sar_whitelist_t := {
  entries : list sar_identity_t;
  first_seen : option (list Z);
  capacity : Z
}.

Inductive sar_wl_status_t :=
  | SAR_WL_OK | SAR_WL_FULL | SAR_WL_DUPLICATE | SAR_WL_NOT_FOUND | SAR_WL_INVALID
  | SAR_WL_INTERPRETER.

#[global] Instance sar_wl_status_eq_dec : EqDecision sar_wl_status_t.
Proof. solve_decision. Defined.

Definition identity_equal (a b : sar_identity_t) : bool :=
  (sar_memcmp (content_hash a) (content_hash b) SEMANTICS_AR_CONTENT_HASH_SIZE =? 0) &&
  (sar_memcmp (u16s_bytes (cert_subject a)) (u16s_bytes (cert_subject b))
     (SEMANTICS_AR_PROTO_SUBJECT_MAX * 2) =? 0).

Definition sar_whitelist_init (with_first_seen : bool) (capacity : Z) : sar_whitelist_t :=
  {| entries := []; first_seen := if with_first_seen then Some [] else None; capacity := capacity |}.

Definition sar_whitelist_match (wl : sar_whitelist_t) (id : sar_identity_t) : bool :=
  existsb (fun e => identity_equal e id) (entries wl).

Definition sar_whitelist_add (wl : sar_whitelist_t) (id : sar_identity_t) (seen : Z)
    : sar_wl_status_t * sar_whitelist_t :=
  if sar_identity_is_interpreter (Some (image_path id)) then (SAR_WL_INTERPRETER, wl)
  else if existsb (fun e => identity_equal e id) (entries wl) then (SAR_WL_DUPLICATE, wl)
  else if capacity wl <=? Z.of_nat (length (entries wl)) then (SAR_WL_FULL, wl)
  else (SAR_WL_OK,
        {| entries := entries wl ++ [id];
           first_seen := match first_seen wl with Some l => Some (l ++ [seen]) | None => None end;
           capacity := capacity wl |}).

(** The outer search loop of [sar_whitelist_remove]: the first equal entry. *)
Fixpoint find_entry (es : list sar_identity_t) (id : sar_identity_t) (i : nat) : option nat :=
  match es with
  | [] => None
  | e :: es => if identity_equal e id then Some i else find_entry es id (S i)
  end.

Definition sar_whitelist_remove (wl : sar_whitelist_t) (id : sar_identity_t)
    : sar_wl_status_t * sar_whitelist_t :=
  match find_entry (entries wl) id 0 with
  | Some i =>
      (SAR_WL_OK,
       {| entries := shift_down (entries wl) i;
          first_seen := match first_seen wl with Some l => Some (shift_down l i) | None => None end;
          capacity := capacity wl |})
  | None => (SAR_WL_NOT_FOUND, wl)
  end.

(** Status and the entry with its first-seen time (0 without the array). *)
Definition sar_whitelist_enumerate (wl : sar_whitelist_t) (index : Z)
    : sar_wl_status_t * option (sar_identity_t * Z) :=
  if Z.of_nat (length (entries wl)) <=? index then (SAR_WL_NOT_FOUND, None)
  else match entries wl !! Z.to_nat index with
       | Some e => (SAR_WL_OK, Some (e, match first_seen wl with
                                        | Some l => rd l (Z.to_nat index) | None => 0 end))
       | None => (SAR_WL_NOT_FOUND, None)
       end.

Inductive sar_id_state_t :=
  | SAR_IDSTATE_OBSERVE_PENDING | SAR_IDSTATE_OBSERVE | SAR_IDSTATE_EXEMPT.

Definition sar_identity_resolve (verified whitelist_hit : bool) : sar_id_state_t :=
  if negb verified then SAR_IDSTATE_OBSERVE_PENDING
  else if whitelist_hit then SAR_IDSTATE_EXEMPT else SAR_IDSTATE_OBSERVE.

(** ** The whitelist as a set of keys *)

(** What two identities are compared by. *)
Definition id_key (id : sar_identity_t) : bytes * list Z := (content_hash id, cert_subject id).

Definition id_wf (id : sar_identity_t) : Prop :=
  length (content_hash id) = SEMANTICS_AR_CONTENT_HASH_SIZE /\
  length (cert_subject id) = SEMANTICS_AR_PROTO_SUBJECT_MAX /\ Forall is_u16 (cert_subject id).

Lemma identity_equal_iff a b :
  id_wf a -> id_wf b -> identity_equal a b = true <-> id_key a = id_key b.
Proof.
  intros (Ha & Hsa & Fa) (Hb & Hsb & Fb). unfold identity_equal, id_key.
  rewrite andb_true_iff, !Z.eqb_eq, sar_memcmp_eq by done.
  rewrite sar_memcmp_eq by (rewrite Keystore.length_u16s_bytes, ?Hsa, ?Hsb; reflexivity).
  split; [intros [-> E]|by intros [= -> ->]].
  by rewrite (Keystore.u16s_bytes_inj _ _ _ Hsa Hsb Fa Fb E).
Qed.

Record wl_inv (wl : sar_whitelist_t) : Prop := {
  wi_wf : Forall id_wf (entries wl);
  wi_nodup : NoDup (id_key <$> entries wl);
  wi_cap : Z.of_nat (length (entries wl)) <= capacity wl;
  wi_seen : forall l, first_seen wl = Some l -> length l = length (entries wl);
  wi_safe : Forall (fun e => program_name (image_path e) ∉ names) (entries wl)
}.

Lemma match_iff wl id :
  Forall id_wf (entries wl) -> id_wf id ->
  sar_whitelist_match wl id = true <-> id_key id ∈ id_key <$> entries wl.
Proof.
  intros Hw Hi. unfold sar_whitelist_match. rewrite existsb_exists, list_elem_of_fmap.
  rewrite Forall_forall in Hw. split.
  - intros (e & He%list_elem_of_In & Heq). exists e. split; [|done].
    symmetry. apply identity_equal_iff; auto.
  - intros (e & Heq & He). exists e. split; [by apply list_elem_of_In|].
    apply identity_equal_iff; auto.
Qed.

Lemma find_entry_spec es id i :
  match find_entry es id i with
  | Some j => exists k e, j = (i + k)%nat /\ es !! k = Some e /\ identity_equal e id = true
  | None => existsb (fun e => identity_equal e id) es = false
  end.
Proof.
  revert i. induction es as [|e es IH]; intros i; cbn [find_entry existsb]; [done|].
  destruct (identity_equal e id) eqn:E.
  - exists O, e. split_and!; [lia|done|done].
  - specialize (IH (S i)). destruct (find_entry es id (S i)) as [j|]; [|done].
    destruct IH as (k & e' & -> & H1 & H2). exists (S k), e'. split_and!; [lia|done|done].
Qed.

Lemma add_inv wl id seen : wl_inv wl -> id_wf id -> wl_inv (sar_whitelist_add wl id seen).2.
Proof.
  intros Hi Hid. destruct Hi as [Hw Hn Hc Hs Hf]. unfold sar_whitelist_add.
  pose proof (is_interpreter_iff (image_path id)) as Hint.
  destruct (sar_identity_is_interpreter _); [by constructor|].
  pose proof (match_iff wl id Hw Hid) as Hm. unfold sar_whitelist_match in Hm.
  destruct (existsb _ _); [by constructor|].
  destruct (Z.leb_spec (capacity wl) (Z.of_nat (length (entries wl)))); [by constructor|].
  constructor; cbn [snd entries first_seen capacity].
  - apply Forall_app. by rewrite Forall_singleton.
  - rewrite fmap_app. apply NoDup_app. split_and!; [done| |apply NoDup_singleton].
    intros x Hx ->%list_elem_of_singleton. by apply Hm in Hx.
  - rewrite length_app. simpl. lia.
  - intros l Hl. destruct (first_seen wl) as [l0|]; [|done]. injection Hl as <-.
    rewrite !length_app, (Hs l0) by done. done.
  - apply Forall_app. rewrite Forall_singleton. split; [done|]. by intros ?%Hint.
Qed.

(** Removal deletes one slot of both arrays. *)
Lemma remove_eq wl id :
  wl_inv wl ->
  (sar_whitelist_match wl id = false /\ sar_whitelist_remove wl id = (SAR_WL_NOT_FOUND, wl)) \/
  exists i e, entries wl !! i = Some e /\ identity_equal e id = true /\
    sar_whitelist_remove wl id =
      (SAR_WL_OK, {| entries := delete i (entries wl);
                     first_seen := delete i <$> first_seen wl; capacity := capacity wl |}).
Proof.
  intros Hi. unfold sar_whitelist_remove. pose proof (find_entry_spec (entries wl) id 0) as H.
  destruct (find_entry _ _ _) as [j|]; [|by left]. right.
  destruct H as (k & e & -> & He & Hq). exists k, e. split_and!; [done|done|].
  rewrite Nat.add_0_l. apply lookup_lt_Some in He as Hlt.
  rewrite shift_down_delete by done. repeat f_equal.
  destruct (first_seen wl) as [l|] eqn:El; [|done]. cbn. f_equal.
  apply shift_down_delete. by rewrite (wi_seen wl Hi l El).
Qed.

Lemma remove_inv wl id : wl_inv wl -> wl_inv (sar_whitelist_remove wl id).2.
Proof.
  intros Hi. destruct (remove_eq wl id Hi) as [[_ ->]|(i & e & He & _ & ->)]; [done|].
  destruct Hi as [Hw Hn Hc Hs Hf]. cbn [snd].
  pose proof (sublist_delete (entries wl) i) as Hsub.
  constructor; cbn [entries first_seen capacity].
  - by apply Forall_delete.
  - eapply sublist_NoDup; [exact Hn|]. by apply fmap_sublist.
  - apply sublist_length in Hsub. lia.
  - intros l Hl. destruct (first_seen wl) as [l0|] eqn:El; [|done]. injection Hl as <-.
    apply lookup_lt_Some in He.
    rewrite !length_delete by (apply lookup_lt_is_Some_2; rewrite ?(Hs l0) by done; lia).
    by rewrite (Hs l0).
  - by apply Forall_delete.
Qed.

(** The keys after an addition or a removal. *)
Lemma add_match wl id seen other :
  wl_inv wl -> id_wf id -> id_wf other ->
  (sar_whitelist_add wl id seen).1 = SAR_WL_OK ->
  sar_whitelist_match (sar_whitelist_add wl id seen).2 other =
    bool_decide (id_key other = id_key id) || sar_whitelist_match wl other.
Proof.
  intros Hi Hid Ho Hok. pose proof (add_inv wl id seen Hi Hid) as Hi'.
  apply eq_true_iff_eq. rewrite orb_true_iff, bool_decide_eq_true.
  rewrite (match_iff _ other (wi_wf _ Hi')), (match_iff wl other (wi_wf _ Hi)) by done.
  clear Hi'. unfold sar_whitelist_add in *.
  destruct (sar_identity_is_interpreter _); [done|]. destruct (existsb _ _); [done|].
  destruct (capacity wl <=? _); [done|].
  cbn [snd entries]. rewrite fmap_app, elem_of_app.
  change (id_key <$> [id]) with [id_key id]. rewrite list_elem_of_singleton. tauto.
Qed.

Lemma remove_match wl id other :
  wl_inv wl -> id_wf id -> id_wf other ->
  sar_whitelist_match (sar_whitelist_remove wl id).2 other =
    negb (bool_decide (id_key other = id_key id)) && sar_whitelist_match wl other.
Proof.
  intros Hi Hid Ho. pose proof (remove_inv wl id Hi) as Hi'.
  apply eq_true_iff_eq. rewrite andb_true_iff, negb_true_iff, bool_decide_eq_false.
  pose proof (match_iff wl id (wi_wf _ Hi) Hid) as Hm.
  rewrite (match_iff _ other (wi_wf _ Hi')), (match_iff wl other (wi_wf _ Hi)) by done.
  destruct (remove_eq wl id Hi) as [[Hno ->]|(i & e & He & Hq & ->)]; cbn [snd entries].
  - rewrite Hno in Hm. split; [|tauto]. intros H. split; [|done]. intros E. rewrite E in H.
    by apply Hm in H.
  - assert (Hk : id_key e = id_key id).
    { apply identity_equal_iff; [|done|done].
      eapply Forall_lookup_1; [apply (wi_wf _ Hi)|exact He]. }
    pose proof (wi_nodup _ Hi) as Hn. apply delete_Permutation in He.
    assert (Hp : id_key <$> entries wl ≡ₚ id_key e :: (id_key <$> delete i (entries wl)))
      by (rewrite He at 1; done).
    rewrite Hp in Hn. apply NoDup_cons in Hn as [Hnin _]. rewrite Hp, elem_of_cons, <- Hk.
    split; [|tauto]. intros H. split; [|by right]. intros E. by rewrite E in H.
Qed.

(** The operations that change the whitelist. *)
Inductive wl_step : sar_whitelist_t -> sar_whitelist_t -> Prop :=
  | wl_step_add wl id seen : id_wf id -> wl_step wl (sar_whitelist_add wl id seen).2
  | wl_step_remove wl id : wl_step wl (sar_whitelist_remove wl id).2.

(** ** Properties *)

(** In every whitelist reachable from the initial one by adding
    and removing, the keys (content hash, certificate subject) are distinct,
    the count is within capacity, the first-seen array has one slot per entry,
    and no entry's path names an interpreter. *)
Theorem whitelist_reachable_inv with_seen cap wl :
  0 <= cap -> rtc wl_step (sar_whitelist_init with_seen cap) wl -> wl_inv wl.
Proof.
  intros Hc Hr. assert (H0 : wl_inv (sar_whitelist_init with_seen cap)).
  { constructor; cbn; [constructor|constructor|done| |constructor].
    destruct with_seen; [by intros l [= <-]|done]. }
  remember (sar_whitelist_init with_seen cap) as w0. clear Heqw0.
  induction Hr as [w|w1 w2 w3 Hs _ IH]; [done|]. apply IH.
  destruct Hs; [by apply add_inv|by apply remove_inv].
Qed.

Definition demo_id (h : Z) : sar_identity_t :=
  {| image_path := [67; 58; 92; 97; 46; 101; 120; 101; 0];
     cert_subject := replicate 256 0; content_hash := replicate 32 h |}.

Lemma demo_id_wf h : id_wf (demo_id h).
Proof. repeat split. apply Forall_replicate. unfold is_u; lia. Qed.

Lemma whitelist_reachable_inv_witness :
  wl_inv (sar_whitelist_add (sar_whitelist_init true 4) (demo_id 1) 99).2.
Proof.
  apply (whitelist_reachable_inv true 4); [lia|].
  apply rtc_once, wl_step_add, demo_id_wf.
Defined.

(** The whitelist is a set of keys. Adding reports exactly the
    branch that applies and, when it stores, makes the identity and only it
    match; removing makes the identity, and nothing else, stop matching. *)
Theorem whitelist_set_semantics wl id seen other :
  wl_inv wl -> id_wf id -> id_wf other ->
  let '(st, wl') := sar_whitelist_add wl id seen in
  let '(st2, wl2) := sar_whitelist_remove wl id in
  (st = SAR_WL_OK -> sar_whitelist_match wl' other =
     bool_decide (id_key other = id_key id) || sar_whitelist_match wl other) /\
  (st <> SAR_WL_OK -> wl' = wl) /\
  (st = SAR_WL_INTERPRETER <-> program_name (image_path id) ∈ names) /\
  (st = SAR_WL_DUPLICATE <->
     (program_name (image_path id) ∉ names) /\ sar_whitelist_match wl id = true) /\
  (st2 = SAR_WL_OK <-> sar_whitelist_match wl id = true) /\
  sar_whitelist_match wl2 other =
    negb (bool_decide (id_key other = id_key id)) && sar_whitelist_match wl other.
Proof.
  intros Hi Hid Ho. pose proof (add_match wl id seen other Hi Hid Ho) as Ha.
  pose proof (remove_match wl id other Hi Hid Ho) as Hr.
  assert (Hr2 : (sar_whitelist_remove wl id).1 = SAR_WL_OK <-> sar_whitelist_match wl id = true).
  { destruct (remove_eq wl id Hi) as [[Hno ->]|(i & e & He & Hq & ->)]; cbn [fst].
    - rewrite Hno. done.
    - split; [|done]. intros _. apply existsb_exists. exists e. split; [|done].
      by eapply list_elem_of_In, list_elem_of_lookup_2. }
  destruct (sar_whitelist_remove wl id) as [st2 wl2]. cbn [fst snd] in *.
  pose proof (is_interpreter_iff (image_path id)) as Hint.
  unfold sar_whitelist_add in *. unfold sar_whitelist_match at 2.
  destruct (sar_identity_is_interpreter _); [|destruct (existsb _ _) eqn:Ed;
    [|destruct (capacity wl <=? _)]]; cbn [fst snd] in *; naive_solver.
Qed.

Lemma whitelist_set_semantics_witness :
  let wl := (sar_whitelist_add (sar_whitelist_init true 4) (demo_id 1) 99).2 in
  sar_whitelist_match wl (demo_id 1) = true /\
  sar_whitelist_match (sar_whitelist_remove wl (demo_id 1)).2 (demo_id 1) = false.
Proof.
  intros wl. assert (Hi : wl_inv wl).
  { apply add_inv; [|apply demo_id_wf]. constructor; cbn; try done.
    - constructor.
    - by intros l [= <-]. }
  pose proof (whitelist_set_semantics wl (demo_id 1) 5 (demo_id 1) Hi (demo_id_wf 1) (demo_id_wf 1)) as H.
  split; [vm_compute; reflexivity|].
  destruct (sar_whitelist_add wl (demo_id 1) 5), (sar_whitelist_remove wl (demo_id 1)) as [st2 w2].
  destruct H as (_ & _ & _ & _ & _ & H). cbn [snd]. rewrite H. by rewrite bool_decide_eq_true_2.
Defined.

End Whitelist.
