(* ===== verification/CipherCommon.v ===== *)
(** * Shared parts of the ciphers (engine/ciphers/cipher_common.h)

    Word loads and stores with their round trips, exhaustive checks over all
    bytes, the lemma behind every Feistel-like cipher, and [BlockCipher]: the
    interface of engine/include/conviction_engine.h ([block_cipher_ctx_t]) with
    the laws the mode code relies on.  Each cipher file discharges it. *)

From S2P Require Import Prelude Mem.
Import Mem Layout.

(** ** Loads, stores and rotations *)

Definition rotl32 (x n : Z) : Z := u32 (x .<< n) .| (x .>> (32 - n)).

Definition sar_le32 (p : bytes) : Z :=
  rd p 0 .| (rd p 1 .<< 8) .| (rd p 2 .<< 16) .| (rd p 3 .<< 24).

Definition sar_st_le32 (v : Z) : bytes := [u8 v; u8 (v .>> 8); u8 (v .>> 16); u8 (v .>> 24)].

Definition sar_be32 (p : bytes) : Z :=
  (rd p 0 .<< 24) .| (rd p 1 .<< 16) .| (rd p 2 .<< 8) .| rd p 3.

Definition sar_st_be32 (v : Z) : bytes := [u8 (v .>> 24); u8 (v .>> 16); u8 (v .>> 8); u8 v].

Definition sar_load64be (p : bytes) : Z :=
  (rd p 0 .<< 56) .| (rd p 1 .<< 48) .| (rd p 2 .<< 40) .| (rd p 3 .<< 32) .|
  (rd p 4 .<< 24) .| (rd p 5 .<< 16) .| (rd p 6 .<< 8) .| rd p 7.

Definition sar_store64be (v : Z) : bytes :=
  [u8 (v .>> 56); u8 (v .>> 48); u8 (v .>> 40); u8 (v .>> 32);
   u8 (v .>> 24); u8 (v .>> 16); u8 (v .>> 8); u8 v].

(** ** Bit-level automation *)

Lemma u8_spec x i : 0 <= i -> Z.testbit (u8 x) i = Z.testbit x i && (i <? 8).
Proof.
  intros Hi. unfold u8. rewrite Z.land_spec. f_equal. change 0xff with (Z.ones 8).
  rewrite Z.testbit_ones by lia. destruct (Z.leb_spec 0 i); [done|lia].
Qed.

Lemma u32_spec x i : 0 <= i -> Z.testbit (u32 x) i = Z.testbit x i && (i <? 32).
Proof.
  intros Hi. unfold u32. rewrite Z.land_spec. f_equal. change 0xffffffff with (Z.ones 32).
  rewrite Z.testbit_ones by lia. destruct (Z.leb_spec 0 i); [done|lia].
Qed.

Lemma u64_spec x i : 0 <= i -> Z.testbit (u64 x) i = Z.testbit x i && (i <? 64).
Proof.
  intros Hi. unfold u64. rewrite Z.land_spec. f_equal.
  change 0xffffffffffffffff with (Z.ones 64).
  rewrite Z.testbit_ones by lia. destruct (Z.leb_spec 0 i); [done|lia].
Qed.

(** Case analysis on a bit index below a concrete bound. *)
Lemma bits_below w x y :
  is_u w x -> is_u w y ->
  (forall i, 0 <= i < w -> Z.testbit x i = Z.testbit y i) -> x = y.
Proof.
  intros Hx Hy H. apply Z.bits_inj'. intros i Hi.
  destruct (Z_lt_le_dec i w); [by apply H|].
  by rewrite (testbit_high w x), (testbit_high w y).
Qed.

(** A claim about all bit indices below [w], checked at each. *)
Lemma forall_index (w : nat) (P : Z -> Prop) :
  Forall P (map Z.of_nat (seq 0 w)) -> forall i, 0 <= i < Z.of_nat w -> P i.
Proof.
  intros H i Hi. rewrite Forall_forall in H. apply H. apply list_elem_of_fmap.
  exists (Z.to_nat i). split; [lia|]. apply elem_of_seq. lia.
Qed.

(** An executable claim about all bytes. *)
Lemma forall_byte (P : Z -> bool) :
  forallb P (map Z.of_nat (seq 0 256)) = true -> forall x, is_u8 x -> P x = true.
Proof.
  intros H x Hx. rewrite forallb_forall in H. apply H. apply in_map_iff.
  exists (Z.to_nat x). unfold is_u in Hx. split; [lia|]. apply in_seq. lia.
Qed.

Lemma is_u8_in_bytes x : is_u8 x -> x ∈ map Z.of_nat (seq 0 256).
Proof.
  intros Hx. unfold is_u in Hx. apply list_elem_of_fmap. exists (Z.to_nat x).
  split; [lia|]. apply elem_of_seq. lia.
Qed.

(** The table look-up of an S-box whose entries are words of width [w]. *)
Lemma tbl_range w t i : 0 <= w -> Forall (is_u w) t -> is_u w (tbl t i).
Proof.
  intros Hw H. unfold tbl, rd. destruct (nth_lookup_or_length t (Z.to_nat i) 0) as [E|E].
  - eapply Forall_lookup_1; [exact H|exact E].
  - rewrite nth_overflow by done. unfold is_u. split; [lia|]. apply Z.pow_pos_nonneg; lia.
Qed.

(** Two substitution tables are inverse when they are on the 256 bytes. *)
Lemma tbl_inverse t t' :
  Forall is_u8 t -> forallb (fun x => tbl t' (tbl t x) =? x) (map Z.of_nat (seq 0 256)) = true ->
  forall x, is_u8 x -> is_u8 (tbl t x) /\ tbl t' (tbl t x) = x.
Proof.
  intros Ht H x Hx. split; [by apply tbl_range|].
  apply Z.eqb_eq, (forall_byte (fun x => tbl t' (tbl t x) =? x) H x Hx).
Qed.

Lemma cons_eq {A} (x y : A) l l' : x = y -> l = l' -> x :: l = y :: l'.
Proof. by intros -> ->. Qed.

(** Name the sixteen bytes of a block. *)
Ltac split_block H :=
  let Hl := fresh "Hl" in let Hb := fresh "Hb" in
  destruct H as [Hl Hb];
  match type of Hl with length ?s = _ =>
    do 16 (destruct s as [|? s]; [discriminate Hl|]); destruct s; [|discriminate Hl];
    clear Hl; repeat (apply Forall_cons in Hb as [? Hb]); clear Hb end.

Ltac tables_inverse :=
  apply tbl_inverse; [apply forall_u_check; vm_compute; reflexivity|vm_compute; reflexivity].

Lemma is_u_shiftl w v x n : 0 <= n -> 0 <= w -> w + n <= v -> is_u w x -> is_u v (x .<< n).
Proof.
  intros Hn Hw Hv [H0 H1]. rewrite Z.shiftl_mul_pow2 by done. split; [nia|].
  apply Z.lt_le_trans with (2 ^ w * 2 ^ n); [nia|]. rewrite <- Z.pow_add_r by done.
  apply Z.pow_le_mono_r; lia.
Qed.

Lemma is_u_shiftr w x n : 0 <= n -> is_u w x -> is_u w (x .>> n).
Proof.
  intros Hn [H0 H1]. rewrite Z.shiftr_div_pow2 by done.
  assert (0 < 2 ^ n) by (apply Z.pow_pos_nonneg; lia). split.
  - apply Z.div_pos; lia.
  - apply Z.le_lt_trans with x; [|done]. apply Z.div_le_upper_bound; [lia|]. nia.
Qed.

Lemma is_u_rotl32 x n : 0 <= n <= 32 -> is_u32 x -> is_u32 (rotl32 x n).
Proof.
  intros Hn Hx. apply is_u_lor; [done|apply is_u_u32|]. apply is_u_shiftr; [lia|done].
Qed.

#[export] Hint Resolve is_u_shiftr is_u_rotl32 : sar.

(** ** Bytes of a word, the high byte first *)

(** A shifted word and a word below it: the [or] is the sum. *)
Lemma shl_lor x n y m : is_u n y -> 0 <= n -> m = 2 ^ n -> (x .<< n) .| y = x * m + y.
Proof.
  intros Hy Hn ->. assert (Hz : (x .<< n) .& y = 0).
  { apply Z.bits_inj'. intros i Hi. rewrite Z.land_spec, Z.bits_0, Z.shiftl_spec by done.
    destruct (Z_lt_le_dec i n); [rewrite (Z.testbit_neg_r x) by lia; done|].
    rewrite (testbit_high n y) by done. btauto. }
  by rewrite <- Z.lxor_lor, <- Z.add_nocarry_lxor, Z.shiftl_mul_pow2 by done.
Qed.

Lemma be32_of_bytes a b c d :
  is_u8 a -> is_u8 b -> is_u8 c -> is_u8 d ->
  sar_be32 [a; b; c; d] = ((a * 256 + b) * 256 + c) * 256 + d.
Proof.
  intros Ha Hb Hc Hd. unfold sar_be32, rd; cbn [nth]. rewrite <- !Z.lor_assoc.
  rewrite (shl_lor c 8 d 256) by done.
  rewrite (shl_lor b 16 _ 65536) by (done || unfold is_u in *; lia).
  rewrite (shl_lor a 24 _ 16777216) by (done || unfold is_u in *; lia). lia.
Qed.

Lemma st_be32_be32 a b c d :
  is_u8 a -> is_u8 b -> is_u8 c -> is_u8 d ->
  sar_st_be32 (sar_be32 [a; b; c; d]) = [a; b; c; d].
Proof.
  intros Ha Hb Hc Hd. rewrite be32_of_bytes by done. unfold sar_st_be32.
  rewrite !u8_mod, !Z.shiftr_div_pow2 by done.
  unfold is_u in *. repeat f_equal; dlia.
Qed.

Lemma be32_st_be32 v rest : is_u32 v -> sar_be32 (sar_st_be32 v ++ rest) = v.
Proof.
  intros Hv. change (sar_be32 (sar_st_be32 v ++ rest)) with (sar_be32 (sar_st_be32 v)).
  unfold sar_st_be32. rewrite be32_of_bytes by auto with sar.
  rewrite !u8_mod, !Z.shiftr_div_pow2 by done. unfold is_u in Hv. dlia.
Qed.

Lemma is_u_be32 p : is_bytes p -> is_u32 (sar_be32 p).
Proof.
  intros Hp. unfold sar_be32.
  repeat apply is_u_lor; try done; try (eapply is_u_shiftl; [| | |by apply rd_byte]; lia).
  eapply is_u_weaken; [|by apply rd_byte]. lia.
Qed.

Lemma is_bytes_st_be32 v : is_bytes (sar_st_be32 v).
Proof. repeat (apply Forall_cons; split; [apply is_u_u8|]). constructor. Qed.

#[export] Hint Resolve is_u_be32 is_bytes_st_be32 : sar.

Definition is_block (n : nat) (b : bytes) : Prop := length b = n /\ is_bytes b.

(** ** 64-bit words *)

(** The value of eight bytes, the high byte first. *)
Definition val64 (b : bytes) : Z := fold_left (fun v x => v * 256 + x) b 0.

Lemma load64be_val b : is_block 8 b -> sar_load64be b = val64 b.
Proof.
  intros [Hl Hb]. do 8 (destruct b as [|? b]; [done|]). destruct b; [|done].
  repeat (apply Forall_cons in Hb as [? Hb]). unfold sar_load64be, rd, val64; cbn [nth fold_left].
  rewrite <- !Z.lor_assoc. unfold is_u in *.
  rewrite (shl_lor _ 8 _ 256) by (done || unfold is_u; lia).
  rewrite (shl_lor _ 16 _ (2 ^ 16)) by (done || unfold is_u; lia).
  rewrite (shl_lor _ 24 _ (2 ^ 24)) by (done || unfold is_u; lia).
  rewrite (shl_lor _ 32 _ (2 ^ 32)) by (done || unfold is_u; lia).
  rewrite (shl_lor _ 40 _ (2 ^ 40)) by (done || unfold is_u; lia).
  rewrite (shl_lor _ 48 _ (2 ^ 48)) by (done || unfold is_u; lia).
  rewrite (shl_lor _ 56 _ (2 ^ 56)) by (done || unfold is_u; lia). lia.
Qed.

Lemma val64_range b : is_block 8 b -> is_u64 (val64 b).
Proof.
  intros [Hl Hb]. do 8 (destruct b as [|? b]; [done|]). destruct b; [|done].
  repeat (apply Forall_cons in Hb as [? Hb]). unfold val64; cbn [fold_left]. unfold is_u in *. lia.
Qed.

Lemma store_val64 b : is_block 8 b -> sar_store64be (val64 b) = b.
Proof.
  intros [Hl Hb]. do 8 (destruct b as [|? b]; [done|]). destruct b; [|done].
  repeat (apply Forall_cons in Hb as [? Hb]). unfold val64, sar_store64be; cbn [fold_left].
  rewrite !u8_mod, !Z.shiftr_div_pow2 by done.
  assert (Hd : forall a x, is_u8 x -> (a * 256 + x) / 256 = a).
  { intros a x Hx. unfold is_u in Hx. rewrite Z.div_add_l, Z.div_small by lia. lia. }
  assert (Hm : forall a x, is_u8 x -> (a * 256 + x) mod 256 = x).
  { intros a x Hx. unfold is_u in Hx. rewrite Z.add_comm, Z.mod_add, Z.mod_small by lia. done. }
  change (2 ^ 8) with 256. change (2 ^ 16) with (256 * 256). change (2 ^ 24) with (256 * 256 * 256).
  change (2 ^ 32) with (256 * 256 * 256 * 256). change (2 ^ 40) with (256 * 256 * 256 * 256 * 256).
  change (2 ^ 48) with (256 * 256 * 256 * 256 * 256 * 256).
  change (2 ^ 56) with (256 * 256 * 256 * 256 * 256 * 256 * 256).
  rewrite <- !Z.div_div by done. rewrite !Hd by assumption. by rewrite !Hm by assumption.
Qed.

Lemma is_block_store64 v : is_block 8 (sar_store64be v).
Proof. split; [done|]. repeat (apply Forall_cons; split; [apply is_u_u8|]). constructor. Qed.

Lemma val64_store v : is_u64 v -> val64 (sar_store64be v) = v.
Proof.
  intros Hv. unfold val64, sar_store64be; cbn [fold_left].
  rewrite !u8_mod, !Z.shiftr_div_pow2 by done. rewrite Z.add_0_l. unfold is_u in Hv.
  assert (Hd : forall n, 0 <= n -> v / 2 ^ n mod 2 ^ 8 = v / 2 ^ n - v / 2 ^ (n + 8) * 256).
  { intros n Hn. rewrite Z.pow_add_r, <- Z.div_div by lia. change (2 ^ 8) with 256.
    rewrite Z.mod_eq by lia. lia. }
  pose proof (Hd 0 ltac:(lia)) as H0. rewrite Z.pow_0_r, Z.div_1_r in H0.
  rewrite H0, !Hd by lia. clear Hd H0. rewrite (Z.div_small v (2 ^ (56 + 8))) by lia.
  change (0 + 8) with 8. change (8 + 8) with 16. change (16 + 8) with 24. change (24 + 8) with 32.
  change (32 + 8) with 40. change (40 + 8) with 48. change (48 + 8) with 56.
  generalize (v / 2 ^ 8) (v / 2 ^ 16) (v / 2 ^ 24) (v / 2 ^ 32) (v / 2 ^ 40) (v / 2 ^ 48) (v / 2 ^ 56).
  clear. lia.
Qed.

Lemma halves_of_join hi lo :
  is_u32 hi -> is_u32 lo ->
  ((hi .<< 32) .| lo) .>> 32 = hi /\ ((hi .<< 32) .| lo) .& 0xffffffff = lo.
Proof.
  intros Hh Hl. rewrite (shl_lor hi 32 lo (2 ^ 32)) by done. change 0xffffffff with (Z.ones 32).
  rewrite Z.land_ones, Z.shiftr_div_pow2 by done. unfold is_u in *. split; dlia.
Qed.

Lemma join_of_halves v : is_u64 v -> ((v .>> 32) .<< 32) .| (v .& 0xffffffff) = v.
Proof.
  intros Hv. change 0xffffffff with (Z.ones 32). rewrite Z.land_ones, Z.shiftr_div_pow2 by done.
  rewrite (shl_lor _ 32 _ (2 ^ 32)) by (done || unfold is_u; dlia). dlia.
Qed.

Lemma is_u_join_halves hi lo : is_u32 hi -> is_u32 lo -> is_u64 ((hi .<< 32) .| lo).
Proof.
  intros Hh Hl. rewrite (shl_lor hi 32 lo (2 ^ 32)) by done. unfold is_u in *. lia.
Qed.

(** ** A 16-byte block as four words *)

Definition quad : Type := Z * Z * Z * Z.

Definition load_quad (p : bytes) : quad :=
  (sar_be32 p, sar_be32 (drop 4 p), sar_be32 (drop 8 p), sar_be32 (drop 12 p)).

Definition store_quad (x : quad) : bytes :=
  let '(x0, x1, x2, x3) := x in
  sar_st_be32 x0 ++ sar_st_be32 x1 ++ sar_st_be32 x2 ++ sar_st_be32 x3.

Definition quad_ok (x : quad) : Prop :=
  let '(x0, x1, x2, x3) := x in is_u32 x0 /\ is_u32 x1 /\ is_u32 x2 /\ is_u32 x3.

Lemma load_quad_ok p : is_bytes p -> quad_ok (load_quad p).
Proof.
  intros H. refine (conj _ (conj _ (conj _ _))); apply is_u_be32; by try apply Forall_drop.
Qed.

Lemma load_store_quad x : quad_ok x -> load_quad (store_quad x) = x.
Proof.
  destruct x as [[[x0 x1] x2] x3]. intros (H0 & H1 & H2 & H3). unfold load_quad, store_quad.
  assert (Hd : forall v rest, drop 4 (sar_st_be32 v ++ rest) = rest) by done.
  rewrite <- (app_nil_r (sar_st_be32 x3)).
  replace 12%nat with (8 + 4)%nat by done. replace 8%nat with (4 + 4)%nat by done.
  rewrite <- !drop_drop, !Hd. by rewrite !be32_st_be32 by done.
Qed.

Lemma store_load_quad b : is_block 16 b -> store_quad (load_quad b) = b.
Proof.
  intros [Hl Hb]. do 16 (destruct b as [|? b]; [done|]). destruct b; [|done].
  repeat (apply Forall_cons in Hb as [? Hb]).
  assert (Hc : forall a b c d l, is_u8 a -> is_u8 b -> is_u8 c -> is_u8 d ->
    sar_st_be32 (sar_be32 (a :: b :: c :: d :: l)) = [a; b; c; d]).
  { intros a b c d l. apply st_be32_be32. }
  unfold load_quad, store_quad. cbn [drop]. rewrite !Hc by done. done.
Qed.

Lemma is_block_store_quad x : is_block 16 (store_quad x).
Proof.
  destruct x as [[[x0 x1] x2] x3]. split; [done|].
  unfold store_quad. rewrite !Forall_app. split_and!; apply is_bytes_st_be32.
Qed.

(** ** Xor of buffers *)

Lemma length_xor_bytes a b : length (xor_bytes a b) = Nat.min (length a) (length b).
Proof. apply length_zip_with. Qed.

Lemma xor_bytes_block n a b : is_block n a -> is_block n b -> is_block n (xor_bytes a b).
Proof.
  intros [Ha Hab] [Hb Hbb]. split; [rewrite length_xor_bytes; lia|]. clear Ha Hb. revert b Hbb.
  induction Hab as [|x a Hx Ha IH]; intros [|y b] Hb; cbn; try constructor;
    apply Forall_cons in Hb as [? ?]; [by apply is_u_lxor|by apply IH].
Qed.

Lemma xor_bytes_comm a b : xor_bytes a b = xor_bytes b a.
Proof.
  revert b. induction a as [|x a IH]; intros [|y b]; cbn; try done. by rewrite Z.lxor_comm, IH.
Qed.

Lemma xor_bytes_cancel a b : (length a <= length b)%nat -> xor_bytes (xor_bytes a b) b = a.
Proof.
  revert b. induction a as [|x a IH]; intros [|y b] H; cbn in *; try done; try lia.
  rewrite lxor_cancel_r, IH by lia. done.
Qed.

(** [a ⊕ k = b] says [a = b ⊕ k]. *)
Lemma xor_bytes_move a b k : length a = length k -> length b = length k ->
  xor_bytes a k = b <-> a = xor_bytes b k.
Proof.
  intros Ha Hb. split; [intros <-|intros ->]; by rewrite xor_bytes_cancel by lia.
Qed.

(** ** Feistel-like ciphers

    When running a round on the swapped output with the same key gives the
    swapped input, running the rounds in the reverse key order inverts them. *)
Lemma involutive_rounds {S K} (step : S -> K -> S) (swap : S -> S) (ok : S -> Prop) ks s :
  (forall s k, k ∈ ks -> ok s -> ok (step s k)) ->
  (forall s k, k ∈ ks -> ok s -> step (swap (step s k)) k = swap s) -> ok s ->
  fold_left step (reverse ks) (swap (fold_left step ks s)) = swap s.
Proof.
  revert s. induction ks as [|k ks IH]; intros s Hok Hinv Hs; [done|].
  rewrite reverse_cons, fold_left_app. cbn [fold_left].
  rewrite IH.
  - apply Hinv; [by left|done].
  - intros s' k' Hk'. apply Hok. by right.
  - intros s' k' Hk'. apply Hinv. by right.
  - apply Hok; [by left|done].
Qed.

(** The same when a round is undone by the round of a companion key. *)
Lemma involutive_rounds_flip {S K} (step : S -> K -> S) (flip : K -> K) (swap : S -> S)
    (ok : S -> Prop) ks s :
  (forall s k, k ∈ ks -> ok s -> ok (step s k)) ->
  (forall s k, k ∈ ks -> ok s -> step (swap (step s k)) (flip k) = swap s) -> ok s ->
  fold_left step (map flip (reverse ks)) (swap (fold_left step ks s)) = swap s.
Proof.
  revert s. induction ks as [|k ks IH]; intros s Hok Hinv Hs; [done|].
  rewrite reverse_cons, List.map_app, fold_left_app. cbn [fold_left map].
  rewrite IH.
  - apply Hinv; [by left|done].
  - intros s' k' Hk'. apply Hok. by right.
  - intros s' k' Hk'. apply Hinv. by right.
  - apply Hok; [by left|done].
Qed.

Lemma fold_left_ok {S K} (step : S -> K -> S) (ok : S -> Prop) ks s :
  (forall s k, k ∈ ks -> ok s -> ok (step s k)) -> ok s -> ok (fold_left step ks s).
Proof.
  revert s. induction ks as [|k ks IH]; intros s Hok Hs; [done|]. cbn [fold_left].
  apply IH; [|apply Hok; [by left|done]]. intros s' k' Hk'. apply Hok. by right.
Qed.

Lemma fold_left_ext {A B} (f g : A -> B -> A) l a :
  (forall x y, y ∈ l -> f x y = g x y) -> fold_left f l a = fold_left g l a.
Proof.
  revert a. induction l as [|y l IH]; intros a H; [done|]. cbn [fold_left].
  rewrite (H a y) by by left. apply IH. intros x z Hz. apply H. by right.
Qed.

Lemma fold_seq_snoc {A} (f : A -> nat -> A) a n s :
  fold_left f (seq a (S n)) s = f (fold_left f (seq a n) s) (a + n)%nat.
Proof. by rewrite seq_S, fold_left_app. Qed.

Lemma fold_rev_seq_cons {A} (f : A -> nat -> A) a n s :
  fold_left f (reverse (seq a (S n))) s = fold_left f (reverse (seq a n)) (f s (a + n)%nat).
Proof. by rewrite seq_S, reverse_snoc. Qed.

(** ** Block ciphers *)

(** [encrypt] and [decrypt] return [None] when the C function returns 0. *)
Record block_cipher_ctx_t := {
  encrypt : bytes -> option bytes;
  decrypt : bytes -> option bytes;
  block_size : nat
}.

(** What a keyed cipher promises to the mode code. *)
Class BlockCipher (bc : block_cipher_ctx_t) : Prop := {
  bc_size : block_size bc = 8%nat \/ block_size bc = 16%nat;
  bc_encrypt b : is_block (block_size bc) b ->
    exists c, encrypt bc b = Some c /\ is_block (block_size bc) c /\ decrypt bc c = Some b;
  bc_decrypt c : is_block (block_size bc) c ->
    exists b, decrypt bc c = Some b /\ is_block (block_size bc) b /\ encrypt bc b = Some c
}.

(** A cipher given by total functions, as all of these are. *)
Lemma total_cipher (enc dec : bytes -> bytes) n :
  n = 8%nat \/ n = 16%nat ->
  (forall b, is_block n b -> is_block n (enc b) /\ dec (enc b) = b) ->
  (forall c, is_block n c -> is_block n (dec c) /\ enc (dec c) = c) ->
  BlockCipher {| encrypt b := Some (enc b); decrypt c := Some (dec c); block_size := n |}.
Proof.
  intros Hn He Hd. constructor; cbn [encrypt decrypt block_size]; [done|..].
  - intros b Hb. destruct (He b Hb) as [H1 H2]. exists (enc b). by rewrite H2.
  - intros c Hc. destruct (Hd c Hc) as [H1 H2]. exists (dec c). by rewrite H2.
Qed.

(** The cipher's functions, made total. *)
Definition E (bc : block_cipher_ctx_t) (b : bytes) : bytes := default [] (encrypt bc b).
Definition D (bc : block_cipher_ctx_t) (c : bytes) : bytes := default [] (decrypt bc c).

Section Total.
Context (bc : block_cipher_ctx_t) `{!BlockCipher bc}.

Lemma encrypt_E b : is_block (block_size bc) b -> encrypt bc b = Some (E bc b).
Proof. intros H. destruct (bc_encrypt b H) as (c & He & _). unfold E. by rewrite He. Qed.

Lemma decrypt_D c : is_block (block_size bc) c -> decrypt bc c = Some (D bc c).
Proof. intros H. destruct (bc_decrypt c H) as (b & Hd & _). unfold D. by rewrite Hd. Qed.

Lemma E_block b : is_block (block_size bc) b -> is_block (block_size bc) (E bc b).
Proof. intros H. destruct (bc_encrypt b H) as (c & He & Hb & _). unfold E. by rewrite He. Qed.

Lemma D_block c : is_block (block_size bc) c -> is_block (block_size bc) (D bc c).
Proof. intros H. destruct (bc_decrypt c H) as (b & Hd & Hb & _). unfold D. by rewrite Hd. Qed.

Lemma D_E b : is_block (block_size bc) b -> D bc (E bc b) = b.
Proof. intros H. destruct (bc_encrypt b H) as (c & He & _ & Hd). unfold D, E. rewrite He. cbn. by rewrite Hd. Qed.

Lemma E_D c : is_block (block_size bc) c -> E bc (D bc c) = c.
Proof. intros H. destruct (bc_decrypt c H) as (b & Hd & _ & He). unfold D, E. rewrite Hd. cbn. by rewrite He. Qed.

Lemma D_eq b c : is_block (block_size bc) b -> is_block (block_size bc) c ->
  D bc c = b <-> c = E bc b.
Proof. intros Hb Hc. split; [intros <-; by rewrite E_D|intros ->; by rewrite D_E]. Qed.

Lemma bs_pos : (0 < block_size bc <= 16)%nat.
Proof. destruct (bc_size (bc := bc)); lia. Qed.
End Total.
