(* ===== verification/Fips180.v ===== *)
(** * SHA-256 as the standard defines it

    FIPS 180-4 written from the text of the standard: the constants are the
    fractional parts of roots of primes, words are numbers below [2^32] with
    rotation by division, and a message is cut into blocks of sixteen words.
    Nothing here uses the definitions of [Sha256]; the theorem says that
    engine/src/sha256.c computes this function, and HMAC of RFC 2104 over it. *)

From S2P Require Import Prelude Sha256 CipherCommon.

Module Fips180.

(** ** The constants *)

Definition is_prime (n : nat) : bool :=
  ((1 <? n) && forallb (fun d => negb (n mod d =? 0)) (seq 2 (n - 2)))%nat.

(** The first 64 primes; the last one is 311. *)
Definition primes : list Z := map Z.of_nat (List.filter is_prime (seq 0 312)).

(** The largest number below [2^48] whose power [e] is at most [x]. *)
Definition root (e x : Z) : Z :=
  fold_left (fun r i => if (r + 2 ^ Z.of_nat i) ^ e <=? x then r + 2 ^ Z.of_nat i else r) (reverse (seq 0 48)) 0.

(** The first 32 bits of the fractional part of the root [e] of [p]. *)
Definition fraction (e p : Z) : Z := root e (p * 2 ^ (32 * e)) mod 2 ^ 32.

(** 5.3.3: square roots of the first eight primes; 4.2.2: cube roots of the first 64. *)
Definition H0 : list Z := map (fraction 2) (take 8 primes).
Definition Kt : list Z := map (fraction 3) primes.

(** ** Words (2.2.2, 4.1.2) *)

Definition add32 (xs : list Z) : Z := foldr Z.add 0 xs mod 2 ^ 32.
Definition not32 (x : Z) : Z := 2 ^ 32 - 1 - x.
Definition SHR (n x : Z) : Z := x / 2 ^ n.
Definition ROTR (n x : Z) : Z := x / 2 ^ n + x mod 2 ^ n * 2 ^ (32 - n).
Definition xor3 (x y z : Z) : Z := Z.lxor x (Z.lxor y z).

Definition Ch (x y z : Z) : Z := Z.lxor (Z.land x y) (Z.land (not32 x) z).
Definition Maj (x y z : Z) : Z := xor3 (Z.land x y) (Z.land x z) (Z.land y z).
Definition Sigma0 (x : Z) : Z := xor3 (ROTR 2 x) (ROTR 13 x) (ROTR 22 x).
Definition Sigma1 (x : Z) : Z := xor3 (ROTR 6 x) (ROTR 11 x) (ROTR 25 x).
Definition sigma0 (x : Z) : Z := xor3 (ROTR 7 x) (ROTR 18 x) (SHR 3 x).
Definition sigma1 (x : Z) : Z := xor3 (ROTR 17 x) (ROTR 19 x) (SHR 10 x).

(** ** Preprocessing (5.1.1, 5.2.1) *)

(** [n] bytes of a number, the most significant first. *)
Fixpoint big_endian (n : nat) (v : Z) : bytes :=
  match n with O => [] | S n => (v / 256 ^ Z.of_nat n) mod 256 :: big_endian n v end.

(** A one bit, then zeros until 64 bits are missing to a block, then the number of
    bits of the message. *)
Definition padded (m : bytes) : bytes :=
  let zeros := (55 - Z.of_nat (length m)) mod 64 in
  m ++ 0x80 :: replicate (Z.to_nat zeros) 0 ++ big_endian 8 (8 * Z.of_nat (length m)).

Fixpoint words (m : bytes) : list Z :=
  match m with
  | a :: b :: c :: d :: m => a * 256 ^ 3 + b * 256 ^ 2 + c * 256 + d :: words m
  | _ => []
  end.

(** ** The hash (6.2.2) *)

(** The schedule from 16 words on: [w] is extended by one word. *)
Definition extend (w : list Z) : list Z :=
  let t := length w in
  w ++ [add32 [sigma1 (nth (t - 2) w 0); nth (t - 7) w 0; sigma0 (nth (t - 15) w 0); nth (t - 16) w 0]].

Definition schedule (M : list Z) : list Z := Nat.iter 48 extend M.

Inductive vars := Vars (a b c d e f g h : Z).

Definition round (v : vars) (kw : Z * Z) : vars :=
  let '(Vars a b c d e f g h) := v in
  let T1 := add32 [h; Sigma1 e; Ch e f g; fst kw; snd kw] in
  let T2 := add32 [Sigma0 a; Maj a b c] in
  Vars (add32 [T1; T2]) a b c (add32 [d; T1]) e f g.

Definition vars_of (H : list Z) : vars :=
  Vars (nth 0 H 0) (nth 1 H 0) (nth 2 H 0) (nth 3 H 0) (nth 4 H 0) (nth 5 H 0) (nth 6 H 0) (nth 7 H 0).
Definition list_of (v : vars) : list Z := let '(Vars a b c d e f g h) := v in [a; b; c; d; e; f; g; h].

Definition compress (H M : list Z) : list Z :=
  let v := fold_left round (combine Kt (schedule M)) (vars_of H) in
  zip_with (fun x y => add32 [x; y]) (list_of v) H.

(** The blocks of sixteen words, one after the other. *)
Fixpoint hash_blocks (n : nat) (H ws : list Z) : list Z :=
  match n with O => H | S n => hash_blocks n (compress H (take 16 ws)) (drop 16 ws) end.

Definition SHA256 (m : bytes) : bytes :=
  let ws := words (padded m) in
  flat_map (big_endian 4) (hash_blocks (length ws / 16) H0 ws).

(** HMAC, RFC 2104 with blocks of 64 bytes. *)
Definition HMAC (key msg : bytes) : bytes :=
  let k0 := if (64 <? length key)%nat then SHA256 key else key in
  let k := k0 ++ replicate (64 - length k0) 0 in
  SHA256 (map (Z.lxor 0x5c) k ++ SHA256 (map (Z.lxor 0x36) k ++ msg)).

(** ** The constants of the code *)

Lemma constants : Kt = Sha256.K /\ H0 = Sha256.IV.
Proof. split; vm_compute; reflexivity. Qed.

(** ** Words of the code *)

Lemma ror_ROTR n x : 0 < n < 32 -> is_u32 x -> Sha256.ror x n = ROTR n x.
Proof.
  intros Hn Hx. unfold is_u in Hx. unfold Sha256.ror, ROTR. rewrite Z.lor_comm.
  rewrite u32_mod, Z.shiftr_div_pow2, Z.shiftl_mul_pow2 by lia.
  assert (Hp : 2 ^ 32 = 2 ^ n * 2 ^ (32 - n)) by (rewrite <- Z.pow_add_r by lia; f_equal; lia).
  assert (0 < 2 ^ n /\ 0 < 2 ^ (32 - n)) as [P1 P2] by (split; apply Z.pow_pos_nonneg; lia).
  rewrite Hp, Z.mul_mod_distr_r by lia. rewrite <- Z.shiftl_mul_pow2 by lia.
  rewrite (shl_lor _ (32 - n) _ (2 ^ (32 - n))); [rewrite Z.shiftl_mul_pow2 by lia; lia| |lia|done].
  split; [apply Z.div_pos; lia|]. apply Z.div_lt_upper_bound; lia.
Qed.

Lemma add32_u32 xs x : foldr Z.add 0 xs = x -> u32 x = add32 xs.
Proof. intros <-. apply u32_mod. Qed.

Lemma add32_2 a b : u32 (a + b) = add32 [a; b].
Proof. apply add32_u32. cbn. lia. Qed.
Lemma add32_5 a b c d e : u32 (a + b + c + d + e) = add32 [a; b; c; d; e].
Proof. apply add32_u32. cbn. lia. Qed.
Lemma xor3_eq a b c : a ⊕ b ⊕ c = xor3 a b c.
Proof. apply Z.lxor_assoc. Qed.

Lemma not32_u32 x : is_u32 x -> u32 (Z.lnot x) = not32 x.
Proof.
  unfold is_u, not32. intros Hx. rewrite u32_mod. unfold Z.lnot.
  symmetry. apply (Z.mod_unique _ _ (-1)); lia.
Qed.

Lemma is_u_rd w i : Forall is_u32 w -> is_u32 (rd w i).
Proof.
  intros Hw. unfold rd. destruct (nth_in_or_default i w 0) as [H| ->]; [|unfold is_u; lia].
  rewrite List.Forall_forall in Hw. by apply Hw.
Qed.

(** ** The schedule *)

Lemma words_map n p : length p = (4 * n)%nat -> is_bytes p ->
  words p = map (fun i => (rd p (i * 4) .<< 24) .| (rd p (i * 4 + 1) .<< 16) .|
                          (rd p (i * 4 + 2) .<< 8) .| rd p (i * 4 + 3)) (seq 0 n).
Proof.
  revert p. induction n as [|n IH]; intros p Hl Hb; [by destruct p|].
  do 4 (destruct p as [|? p]; [cbn in Hl; lia|]). cbn [words seq map]. cbn in Hl.
  repeat (apply Forall_cons in Hb as [? Hb]). f_equal.
  - rewrite <- !Z.lor_assoc. change (rd _ (0 * 4)) with z. change (rd _ (0 * 4 + 1)) with z0.
    change (rd _ (0 * 4 + 2)) with z1. change (rd _ (0 * 4 + 3)) with z2. unfold is_u in *.
    rewrite (shl_lor z1 8 z2 256) by (done || unfold is_u; lia). rewrite (shl_lor z0 16 _ 65536) by (done || unfold is_u; lia).
    rewrite (shl_lor z 24 _ 16777216) by (done || unfold is_u; lia). lia.
  - rewrite IH by (done || lia). rewrite <- seq_shift, map_map. apply map_ext. intros i.
    by replace (S i * 4)%nat with (4 + i * 4)%nat by lia.
Qed.

Lemma words_range p : is_bytes p -> Forall is_u32 (words p).
Proof.
  intros Hb. remember (length p) as n eqn:Hn. revert p Hb Hn.
  induction (lt_wf n) as [n _ IH]. intros p Hb Hn.
  do 4 (destruct p as [|? p]; [constructor|]). cbn [words]. repeat (apply Forall_cons in Hb as [? Hb]).
  constructor; [unfold is_u in *; lia|]. by apply (IH (length p)); [cbn in Hn; lia|..].
Qed.

Lemma extend_step w i : length w = i -> Forall is_u32 w ->
  (let s0 := Sha256.ror (rd w (i - 15)) 7 ⊕ Sha256.ror (rd w (i - 15)) 18 ⊕ (rd w (i - 15) .>> 3) in
   let s1 := Sha256.ror (rd w (i - 2)) 17 ⊕ Sha256.ror (rd w (i - 2)) 19 ⊕ (rd w (i - 2) .>> 10) in
   w ++ [u32 (rd w (i - 16) + s0 + rd w (i - 7) + s1)]) = extend w /\ Forall is_u32 (extend w).
Proof.
  intros Hl Hw. unfold extend. rewrite Hl. split.
  - cbv zeta. do 2 f_equal. apply add32_u32. cbn [foldr]. unfold sigma0, sigma1, xor3, SHR.
    rewrite !ror_ROTR by (lia || by apply is_u_rd). rewrite !Z.shiftr_div_pow2 by lia. rewrite <- !Z.lxor_assoc.
    unfold rd. lia.
  - apply Forall_app. split; [done|]. apply Forall_singleton. unfold add32, is_u. apply Z.mod_pos_bound. lia.
Qed.

Lemma schedule_steps n i w : length w = i -> Forall is_u32 w ->
  fold_left (fun w i =>
    let s0 := Sha256.ror (rd w (i - 15)) 7 ⊕ Sha256.ror (rd w (i - 15)) 18 ⊕ (rd w (i - 15) .>> 3) in
    let s1 := Sha256.ror (rd w (i - 2)) 17 ⊕ Sha256.ror (rd w (i - 2)) 19 ⊕ (rd w (i - 2) .>> 10) in
    w ++ [u32 (rd w (i - 16) + s0 + rd w (i - 7) + s1)]) (seq i n) w = Nat.iter n extend w /\
  length (Nat.iter n extend w) = (i + n)%nat /\ Forall is_u32 (Nat.iter n extend w).
Proof.
  revert i w. induction n as [|n IH]; intros i w Hl Hw; [cbn; split_and!; [done|lia|done]|].
  cbn [seq fold_left]. rewrite Nat.iter_succ_r. destruct (extend_step w i Hl Hw) as [He Hr]. cbv zeta in He |- *. rewrite He.
  replace (i + S n)%nat with (S i + n)%nat by lia.
  apply IH; [|done]. unfold extend. rewrite length_app. cbn. lia.
Qed.

Lemma schedule_eq p : length p = 64%nat -> is_bytes p ->
  Sha256.sha256_w p = schedule (words p) /\ length (schedule (words p)) = 64%nat /\ Forall is_u32 (schedule (words p)).
Proof.
  intros Hl Hb. unfold Sha256.sha256_w, schedule. rewrite <- (words_map 16) by done.
  apply (schedule_steps 48 16); [|by apply words_range].
  rewrite (words_map 16) by done. by rewrite length_map, length_seq.
Qed.

(** ** The rounds *)

Definition vars_ok (v : vars) : Prop := Forall is_u32 (list_of v).

Lemma round_eq w v i : vars_ok v ->
  Sha256.sha256_round w (list_of v) i = list_of (round v (rd Sha256.K i, rd w i)) /\
  vars_ok (round v (rd Sha256.K i, rd w i)).
Proof.
  intros Hv. destruct v as [a b c d e f g h]. unfold vars_ok, list_of in Hv |- *.
  repeat (apply Forall_cons in Hv as [? Hv]). unfold round. cbn [fst snd].
  assert (Hr : forall xs, is_u32 (add32 xs)) by (intros xs; unfold add32, is_u; apply Z.mod_pos_bound; lia).
  split; [|repeat (apply Forall_cons_2; [done || apply Hr|]); apply Forall_nil_2]. unfold Sha256.sha256_round.
  rewrite !ror_ROTR by (lia || done). rewrite not32_u32 by done.
  by rewrite add32_5, !add32_2, !xor3_eq.
Qed.

Lemma rounds_eq w n i v : length w = 64%nat -> (i + n = 64)%nat -> vars_ok v ->
  fold_left (Sha256.sha256_round w) (seq i n) (list_of v) =
    list_of (fold_left round (combine (drop i Sha256.K) (drop i w)) v).
Proof.
  intros Hw. revert i v. induction n as [|n IH]; intros i v Hi Hv.
  { rewrite (drop_ge w) by lia. by rewrite combine_nil. }
  cbn [seq fold_left].
  assert (Hd : forall l, length l = 64%nat -> drop i l = rd l i :: drop (S i) l).
  { intros l Hl. destruct (lookup_lt_is_Some_2 l i) as [x Hx]; [lia|].
    rewrite (drop_S l x i Hx). unfold rd. by rewrite (nth_lookup_Some _ _ _ _ Hx). }
  rewrite (Hd Sha256.K eq_refl), (Hd w Hw). cbn [combine fold_left].
  destruct (round_eq w v i Hv) as [-> Hv']. apply IH; [lia|done].
Qed.

Definition state_ok (st : list Z) : Prop := length st = 8%nat /\ Forall is_u32 st.

Lemma list_of_vars_of st : length st = 8%nat -> list_of (vars_of st) = st.
Proof. intros H. do 8 (destruct st as [|? st]; [done|]). by destruct st. Qed.

Lemma compress_eq st p : state_ok st -> length p = 64%nat -> is_bytes p ->
  Sha256.sha256_compress st p = compress st (words p) /\ state_ok (Sha256.sha256_compress st p).
Proof.
  intros [Hl Hs] Hp Hb. destruct (schedule_eq p Hp Hb) as (Hw & Hlw & _).
  assert (Hv : vars_ok (vars_of st)) by (unfold vars_ok; by rewrite list_of_vars_of).
  assert (He : Sha256.sha256_compress st p = compress st (words p)).
  { unfold Sha256.sha256_compress, compress. rewrite Hw.
    rewrite <- (list_of_vars_of st) at 2 by done. rewrite (rounds_eq _ 64 0) by done.
    rewrite !drop_0, (proj1 constants). set (v := fold_left _ _ _).
    rewrite <- (zip_with_flip (fun x y => u32 (x + y))). apply zip_with_ext; [|done|done].
    intros x y. cbn [flip]. by rewrite Z.add_comm, add32_2. }
  split; [done|]. split; [by apply Sha256.length_sha256_compress|].
  unfold Sha256.sha256_compress. apply Forall_lookup. intros i x Hx.
  apply lookup_zip_with_Some in Hx as (y & z & -> & _). apply is_u_u32.
Qed.

(** ** Blocks *)

Lemma words_take k m : words (take (4 * k) m) = take k (words m).
Proof.
  revert m. induction k as [|k IH]; intros m; [done|].
  replace (4 * S k)%nat with (S (S (S (S (4 * k))))) by lia.
  do 4 (destruct m as [|? m]; [done|]). cbn [take words]. by rewrite IH.
Qed.

Lemma words_drop k m : words (drop (4 * k) m) = drop k (words m).
Proof.
  revert m. induction k as [|k IH]; intros m; [done|].
  replace (4 * S k)%nat with (S (S (S (S (4 * k))))) by lia.
  do 4 (destruct m as [|? m]; [done|]). cbn [drop words]. by rewrite IH.
Qed.

Lemma length_words m : length (words m) = (length m / 4)%nat.
Proof.
  remember (length m) as n eqn:Hn. revert m Hn. induction (lt_wf n) as [n _ IH]. intros m ->.
  do 4 (destruct m as [|? m]; [done|]). cbn [words length].
  rewrite (IH (length m)) by (cbn [length]; lia || done).
  replace (S (S (S (S (length m))))) with (length m + 1 * 4)%nat by lia. rewrite Nat.div_add by lia. lia.
Qed.

Lemma hash_blocks_eq n m st : state_ok st -> (64 * n <= length m)%nat -> is_bytes m ->
  fold_left Sha256.sha256_compress (Sha256.blocks n m) st = hash_blocks n st (words m).
Proof.
  revert m st. induction n as [|n IH]; intros m st Hs Hl Hb; [done|].
  assert (Hbl : Sha256.blocks (S n) m = take 64 m :: Sha256.blocks n (drop 64 m)).
  { unfold Sha256.blocks. cbn [seq map]. rewrite Nat.mul_0_r, drop_0. f_equal.
    rewrite <- seq_shift, map_map. apply map_ext. intros i. rewrite drop_drop. do 2 f_equal. lia. }
  rewrite Hbl. cbn [fold_left hash_blocks].
  destruct (compress_eq st (take 64 m) Hs) as [He Hs']; [rewrite length_take; lia|by apply Forall_take|].
  rewrite IH by (done || (rewrite length_drop; lia) || by apply Forall_drop).
  rewrite He. f_equal; [f_equal; apply (words_take 16)|apply (words_drop 16)].
Qed.

Lemma digest_eq st : Sha256.digest_bytes st = flat_map (big_endian 4) st.
Proof.
  induction st as [|x st IH]; [done|]. unfold Sha256.digest_bytes in *. cbn [flat_map]. rewrite IH. f_equal.
  cbn [big_endian]. rewrite !u8_mod, !Z.shiftr_div_pow2 by lia.
  change (256 ^ Z.of_nat 0) with 1. by rewrite Z.div_1_r.
Qed.

Lemma u64_byte v s : 0 <= s <= 56 -> u8 (u64 v .>> s) = u8 (v .>> s).
Proof.
  intros Hs. unfold u8, u64. change 0xff with (Z.ones 8). change 0xffffffffffffffff with (Z.ones 64).
  apply Z.bits_inj'. intros i Hi. rewrite !Z.land_spec, !Z.shiftr_spec, Z.land_spec by done.
  rewrite !Z.testbit_ones_nonneg by lia. destruct (Z.ltb_spec i 8); [|by rewrite !andb_false_r].
  destruct (Z.ltb_spec (i + s) 64); [|lia]. by rewrite andb_true_r.
Qed.

Lemma padded_eq m : Sha256.pad m = padded m.
Proof.
  unfold Sha256.pad, padded. cbn [app]. do 2 f_equal. apply (f_equal2 app).
  - f_equal. apply Nat2Z.inj. rewrite Z2Nat.id by (apply Z.mod_pos_bound; lia).
    rewrite Nat2Z.inj_mod. pose proof (Nat.mod_upper_bound (length m) 64 ltac:(lia)).
    rewrite Nat2Z.inj_sub by lia. rewrite Nat2Z.inj_mod. dlia.
  - unfold Sha256.be64. cbn [seq map big_endian]. rewrite !u64_byte by lia.
    rewrite (Z.mul_comm _ 8), !u8_mod, !Z.shiftr_div_pow2 by lia. reflexivity.
Qed.

Lemma padded_length m : (length (padded m) mod 64 = 0)%nat.
Proof.
  unfold padded. rewrite length_app. cbn [length]. rewrite length_app, length_replicate. cbn [big_endian length].
  apply Nat2Z.inj. rewrite Nat2Z.inj_mod. dlia.
Qed.

Lemma padded_bytes m : is_bytes m -> is_bytes (padded m).
Proof.
  intros Hm. unfold padded. apply Forall_app. split; [done|]. constructor; [unfold is_u; lia|].
  apply Forall_app. split; [apply Forall_replicate; unfold is_u; lia|].
  cbn [big_endian]. repeat (constructor; [unfold is_u; apply Z.mod_pos_bound; lia|]). constructor.
Qed.

Lemma IV_ok : state_ok Sha256.IV.
Proof. split; [reflexivity|]. by apply forall_u_check; vm_compute. Qed.

Lemma oneshot_eq m : is_bytes m -> Sha256.sha256_oneshot m = SHA256 m.
Proof.
  intros Hm. unfold Sha256.sha256_oneshot, SHA256. rewrite padded_eq, digest_eq. f_equal.
  pose proof (padded_length m) as Hl. pose proof (Nat.div_mod_eq (length (padded m)) 64) as Hd.
  rewrite (hash_blocks_eq _ _ _ IV_ok) by (lia || by apply padded_bytes).
  rewrite (proj2 constants), length_words, Nat.Div0.div_div. reflexivity.
Qed.

Lemma SHA256_bytes m : is_bytes m -> is_bytes (SHA256 m).
Proof. intros H. rewrite <- oneshot_eq by done. apply Sha256.digest_bytes_range. Qed.

(** Property C32: engine/src/sha256.c computes SHA-256 of FIPS 180-4 and HMAC of
    RFC 2104 over it, for every message and every key; the standard is stated on
    its own, constants included. *)
Theorem sha256_correct (key m : bytes) : is_bytes key -> is_bytes m ->
  Sha256.sha256 m = SHA256 m /\ Sha256.sar_hmac_sha256 key m = HMAC key m.
Proof.
  intros Hk Hm. split; [rewrite Sha256.sha256_eq; by apply oneshot_eq|].
  rewrite Sha256.hmac_eq. unfold Sha256.hmac_oneshot, HMAC.
  replace (if (64 <? length key)%nat then Sha256.sha256_oneshot key else key)
    with (if (64 <? length key)%nat then SHA256 key else key) by (dif; [by rewrite oneshot_eq|done]).
  set (k0 := if (64 <? length key)%nat then SHA256 key else key).
  set (k := k0 ++ replicate (64 - length k0) 0).
  assert (Hkb : is_bytes k).
  { apply Forall_app. split; [unfold k0; dif; [by apply SHA256_bytes|done]|].
    apply Forall_replicate. unfold is_u. lia. }
  assert (Hx : forall c, is_u8 c -> map (fun x => u8 (x ⊕ c)) k = map (Z.lxor c) k /\ is_bytes (map (Z.lxor c) k)).
  { intros c Hc. split.
    - apply map_ext_in. intros x Hx. rewrite List.Forall_forall in Hkb. specialize (Hkb x Hx).
      rewrite u8_small, Z.lxor_comm; auto with sar.
    - apply Forall_fmap. eapply Forall_impl; [exact Hkb|]. intros x Hx. unfold compose. auto with sar. }
  destruct (Hx 0x5c) as [-> H1]; [unfold is_u; lia|]. destruct (Hx 0x36) as [-> H2]; [unfold is_u; lia|].
  rewrite (oneshot_eq (map (Z.lxor 0x36) k ++ m)) by by apply Forall_app.
  apply oneshot_eq. apply Forall_app. split; [done|]. apply SHA256_bytes. by apply Forall_app.
Qed.

(** The three letters of the standard's first example. *)
Lemma sha256_correct_witness : Sha256.sha256 [0x61; 0x62; 0x63] = SHA256 [0x61; 0x62; 0x63].
Proof. apply (sha256_correct [] [0x61; 0x62; 0x63]); repeat constructor; unfold is_u; lia. Defined.

End Fips180.
