(* ===== verification/Sm4.v ===== *)
(** * SM4 (engine/ciphers/sm4.c)

    The key schedule and the 32-round cipher; decryption inverts encryption for
    every key, so the cipher meets [BlockCipher]. *)

From S2P Require Import Prelude Mem CipherCommon.
Import Mem.

Module Sm4.

Definition SM4_SBOX : list Z := [
    0xD6;0x90;0xE9;0xFE;0xCC;0xE1;0x3D;0xB7;0x16;0xB6;0x14;0xC2;0x28;0xFB;0x2C;0x05;
    0x2B;0x67;0x9A;0x76;0x2A;0xBE;0x04;0xC3;0xAA;0x44;0x13;0x26;0x49;0x86;0x06;0x99;
    0x9C;0x42;0x50;0xF4;0x91;0xEF;0x98;0x7A;0x33;0x54;0x0B;0x43;0xED;0xCF;0xAC;0x62;
    0xE4;0xB3;0x1C;0xA9;0xC9;0x08;0xE8;0x95;0x80;0xDF;0x94;0xFA;0x75;0x8F;0x3F;0xA6;
    0x47;0x07;0xA7;0xFC;0xF3;0x73;0x17;0xBA;0x83;0x59;0x3C;0x19;0xE6;0x85;0x4F;0xA8;
    0x68;0x6B;0x81;0xB2;0x71;0x64;0xDA;0x8B;0xF8;0xEB;0x0F;0x4B;0x70;0x56;0x9D;0x35;
    0x1E;0x24;0x0E;0x5E;0x63;0x58;0xD1;0xA2;0x25;0x22;0x7C;0x3B;0x01;0x21;0x78;0x87;
    0xD4;0x00;0x46;0x57;0x9F;0xD3;0x27;0x52;0x4C;0x36;0x02;0xE7;0xA0;0xC4;0xC8;0x9E;
    0xEA;0xBF;0x8A;0xD2;0x40;0xC7;0x38;0xB5;0xA3;0xF7;0xF2;0xCE;0xF9;0x61;0x15;0xA1;
    0xE0;0xAE;0x5D;0xA4;0x9B;0x34;0x1A;0x55;0xAD;0x93;0x32;0x30;0xF5;0x8C;0xB1;0xE3;
    0x1D;0xF6;0xE2;0x2E;0x82;0x66;0xCA;0x60;0xC0;0x29;0x23;0xAB;0x0D;0x53;0x4E;0x6F;
    0xD5;0xDB;0x37;0x45;0xDE;0xFD;0x8E;0x2F;0x03;0xFF;0x6A;0x72;0x6D;0x6C;0x5B;0x51;
    0x8D;0x1B;0xAF;0x92;0xBB;0xDD;0xBC;0x7F;0x11;0xD9;0x5C;0x41;0x1F;0x10;0x5A;0xD8;
    0x0A;0xC1;0x31;0x88;0xA5;0xCD;0x7B;0xBD;0x2D;0x74;0xD0;0x12;0xB8;0xE5;0xB4;0xB0;
    0x89;0x69;0x97;0x4A;0x0C;0x96;0x77;0x7E;0x65;0xB9;0xF1;0x09;0xC5;0x6E;0xC6;0x84;
    0x18;0xF0;0x7D;0xEC;0x3A;0xDC;0x4D;0x20;0x79;0xEE;0x5F;0x3E;0xD7;0xCB;0x39;0x48
].

Definition SM4_FK : list Z := [
    0xA3B1BAC6;0x56AA3350;0x677D9197;0xB27022DC
].

Definition SM4_CK : list Z := [
    0x00070E15;0x1C232A31;0x383F464D;0x545B6269;
    0x70777E85;0x8C939AA1;0xA8AFB6BD;0xC4CBD2D9;
    0xE0E7EEF5;0xFC030A11;0x181F262D;0x343B4249;
    0x50575E65;0x6C737A81;0x888F969D;0xA4ABB2B9;
    0xC0C7CED5;0xDCE3EAF1;0xF8FF060D;0x141B2229;
    0x30373E45;0x4C535A61;0x686F767D;0x848B9299;
    0xA0A7AEB5;0xBCC3CAD1;0xD8DFE6ED;0xF4FB0209;
    0x10171E25;0x2C333A41;0x484F565D;0x646B7279
].

Definition sm4_tau (a : Z) : Z :=
  (tbl SM4_SBOX ((a .>> 24) .& 0xff) .<< 24) .| (tbl SM4_SBOX ((a .>> 16) .& 0xff) .<< 16) .|
  (tbl SM4_SBOX ((a .>> 8) .& 0xff) .<< 8) .| tbl SM4_SBOX (a .& 0xff).

Definition sm4_l (b : Z) : Z :=
  b ⊕ rotl32 b 2 ⊕ rotl32 b 10 ⊕ rotl32 b 18 ⊕ rotl32 b 24.

Definition sm4_lp (b : Z) : Z := b ⊕ rotl32 b 13 ⊕ rotl32 b 23.

(** One key-schedule round: the shifted [K] and the new round key. *)
Definition sm4_ks_step (st : quad * list Z) (ck : Z) : quad * list Z :=
  let '((k0, k1, k2, k3), rk) := st in
  let tmp := sm4_lp (sm4_tau (k1 ⊕ k2 ⊕ k3 ⊕ ck)) in
  let r := k0 ⊕ tmp in
  ((k1, k2, k3, r), rk ++ [r]).

(** [ctx->rk] *)
Definition sm4_key_schedule (key : bytes) : list Z :=
  let k := (sar_be32 key ⊕ rd SM4_FK 0, sar_be32 (drop 4 key) ⊕ rd SM4_FK 1,
            sar_be32 (drop 8 key) ⊕ rd SM4_FK 2, sar_be32 (drop 12 key) ⊕ rd SM4_FK 3) in
  (fold_left sm4_ks_step SM4_CK (k, [])).2.

Definition sm4_round (x : quad) (k : Z) : quad :=
  let '(x0, x1, x2, x3) := x in
  let t := sm4_l (sm4_tau (x1 ⊕ x2 ⊕ x3 ⊕ k)) in
  (x1, x2, x3, x0 ⊕ t).

Definition quad_rev (x : quad) : quad := let '(x0, x1, x2, x3) := x in (x3, x2, x1, x0).

Definition sm4_encrypt_block (rk : list Z) (inp : bytes) : bytes :=
  store_quad (quad_rev (fold_left (fun x i => sm4_round x (rd rk i)) (seq 0 32) (load_quad inp))).

(** [for (i = 31; i >= 0; i--)] *)
Definition sm4_decrypt_block (rk : list Z) (inp : bytes) : bytes :=
  store_quad (quad_rev (fold_left (fun x i => sm4_round x (rd rk i)) (reverse (seq 0 32)) (load_quad inp))).

Definition sm4_cipher (key : bytes) : block_cipher_ctx_t :=
  let rk := sm4_key_schedule key in
  {| encrypt b := Some (sm4_encrypt_block rk b); decrypt c := Some (sm4_decrypt_block rk c);
     block_size := 16 |}.

(** ** The rounds are an involution up to word reversal *)

Lemma sbox_range : Forall is_u8 SM4_SBOX.
Proof. apply forall_u_check. vm_compute. reflexivity. Qed.

Lemma is_u_tau a : is_u32 (sm4_tau a).
Proof.
  unfold sm4_tau. assert (H : forall i, is_u8 (tbl SM4_SBOX i)).
  { intros i. apply tbl_range; [done|apply sbox_range]. }
  repeat apply is_u_lor; try done; try (eapply is_u_shiftl; [| | |apply H]; lia).
  eapply is_u_weaken; [|apply H]. lia.
Qed.

Lemma is_u_l b : is_u32 b -> is_u32 (sm4_l b).
Proof. intros H. unfold sm4_l. repeat apply is_u_lxor; try done; apply is_u_rotl32; done || lia. Qed.

Lemma sm4_round_ok x k : quad_ok x -> quad_ok (sm4_round x k).
Proof.
  destruct x as [[[x0 x1] x2] x3]. intros (H0 & H1 & H2 & H3). cbn. split_and!; try done.
  apply is_u_lxor; [done|done|]. apply is_u_l, is_u_tau.
Qed.

Lemma sm4_round_involutive x k : sm4_round (quad_rev (sm4_round x k)) k = quad_rev x.
Proof.
  destruct x as [[[x0 x1] x2] x3]. cbn. f_equal.
  replace (x3 ⊕ x2 ⊕ x1 ⊕ k) with (x1 ⊕ x2 ⊕ x3 ⊕ k)
    by (f_equal; rewrite (Z.lxor_comm x3 x2), !Z.lxor_assoc, (Z.lxor_comm x3 x1),
        <- !Z.lxor_assoc, (Z.lxor_comm x2 x1); done).
  apply lxor_cancel_r.
Qed.

Lemma sm4_crypt_rounds rk order b :
  is_block 16 b ->
  is_block 16 (store_quad (quad_rev (fold_left (fun x i => sm4_round x (rd rk i)) order (load_quad b)))) /\
  store_quad (quad_rev (fold_left (fun x i => sm4_round x (rd rk i)) (reverse order)
    (load_quad (store_quad (quad_rev (fold_left (fun x i => sm4_round x (rd rk i)) order
      (load_quad b))))))) = b.
Proof.
  intros Hb. pose proof (load_quad_ok b (proj2 Hb)) as Hq.
  split; [apply is_block_store_quad|].
  assert (Hok : quad_ok (quad_rev (fold_left (fun x i => sm4_round x (rd rk i)) order (load_quad b)))).
  { assert (H : quad_ok (fold_left (fun x i => sm4_round x (rd rk i)) order (load_quad b)))
      by (apply fold_left_ok; auto using sm4_round_ok).
    destruct (fold_left _ _ _) as [[[x0 x1] x2] x3]. cbn in *. tauto. }
  rewrite load_store_quad by done.
  rewrite (involutive_rounds (fun x i => sm4_round x (rd rk i)) quad_rev quad_ok);
    [|auto using sm4_round_ok|intros; apply sm4_round_involutive|done].
  assert (Hrr : forall x, quad_rev (quad_rev x) = x) by by intros [[[x0 x1] x2] x3].
  rewrite Hrr. by apply store_load_quad.
Qed.

#[global] Instance sm4_block_cipher key : BlockCipher (sm4_cipher key).
Proof.
  apply total_cipher; [by right|..].
  - intros b Hb. apply (sm4_crypt_rounds (sm4_key_schedule key) (seq 0 32) b Hb).
  - intros c Hc. pose proof (sm4_crypt_rounds (sm4_key_schedule key) (reverse (seq 0 32)) c Hc) as H.
    by rewrite reverse_involutive in H.
Qed.

(** The GB/T 32907 test vector. *)
Example sm4_vector :
  let k := [0x01;0x23;0x45;0x67;0x89;0xab;0xcd;0xef;0xfe;0xdc;0xba;0x98;0x76;0x54;0x32;0x10] in
  sm4_encrypt_block (sm4_key_schedule k) k =
    [0x68;0x1e;0xdf;0x34;0xd2;0x06;0x96;0x5e;0x86;0xb3;0xe9;0x4f;0x53;0x6e;0x42;0x46].
Proof. vm_compute. reflexivity. Qed.

End Sm4.
