(* ===== verification/Des.v ===== *)
(** * Triple DES (engine/ciphers/des.c)

    The bit permutations, the key schedule, the 16-round Feistel network and
    the encrypt-decrypt-encrypt composition.  The final permutation inverts the
    initial one, so decryption inverts encryption for every key. *)

From S2P Require Import Prelude Mem CipherCommon.
Import Mem.

Module Des.

Definition IP : list Z := [
    58;50;42;34;26;18;10;2;60;52;44;36;28;20;12;4;
    62;54;46;38;30;22;14;6;64;56;48;40;32;24;16;8;
    57;49;41;33;25;17;9;1;59;51;43;35;27;19;11;3;
    61;53;45;37;29;21;13;5;63;55;47;39;31;23;15;7
].

Definition FP : list Z := [
    40;8;48;16;56;24;64;32;39;7;47;15;55;23;63;31;
    38;6;46;14;54;22;62;30;37;5;45;13;53;21;61;29;
    36;4;44;12;52;20;60;28;35;3;43;11;51;19;59;27;
    34;2;42;10;50;18;58;26;33;1;41;9;49;17;57;25
].

Definition E : list Z := [
    32;1;2;3;4;5;4;5;6;7;8;9;8;9;10;11;12;13;
    12;13;14;15;16;17;16;17;18;19;20;21;20;21;22;23;24;25;
    24;25;26;27;28;29;28;29;30;31;32;1
].

Definition P : list Z := [
    16;7;20;21;29;12;28;17;1;15;23;26;5;18;31;10;
    2;8;24;14;32;27;3;9;19;13;30;6;22;11;4;25
].

Definition SBOX : list (list Z) := [
   [14;4;13;1;2;15;11;8;3;10;6;12;5;9;0;7;
    0;15;7;4;14;2;13;1;10;6;12;11;9;5;3;8;
    4;1;14;8;13;6;2;11;15;12;9;7;3;10;5;0;
    15;12;8;2;4;9;1;7;5;11;3;14;10;0;6;13];
   [15;1;8;14;6;11;3;4;9;7;2;13;12;0;5;10;
    3;13;4;7;15;2;8;14;12;0;1;10;6;9;11;5;
    0;14;7;11;10;4;13;1;5;8;12;6;9;3;2;15;
    13;8;10;1;3;15;4;2;11;6;7;12;0;5;14;9];
   [10;0;9;14;6;3;15;5;1;13;12;7;11;4;2;8;
    13;7;0;9;3;4;6;10;2;8;5;14;12;11;15;1;
    13;6;4;9;8;15;3;0;11;1;2;12;5;10;14;7;
    1;10;13;0;6;9;8;7;4;15;14;3;11;5;2;12];
   [7;13;14;3;0;6;9;10;1;2;8;5;11;12;4;15;
    13;8;11;5;6;15;0;3;4;7;2;12;1;10;14;9;
    10;6;9;0;12;11;7;13;15;1;3;14;5;2;8;4;
    3;15;0;6;10;1;13;8;9;4;5;11;12;7;2;14];
   [2;12;4;1;7;10;11;6;8;5;3;15;13;0;14;9;
    14;11;2;12;4;7;13;1;5;0;15;10;3;9;8;6;
    4;2;1;11;10;13;7;8;15;9;12;5;6;3;0;14;
    11;8;12;7;1;14;2;13;6;15;0;9;10;4;5;3];
   [12;1;10;15;9;2;6;8;0;13;3;4;14;7;5;11;
    10;15;4;2;7;12;9;5;6;1;13;14;0;11;3;8;
    9;14;15;5;2;8;12;3;7;0;4;10;1;13;11;6;
    4;3;2;12;9;5;15;10;11;14;1;7;6;0;8;13];
   [4;11;2;14;15;0;8;13;3;12;9;7;5;10;6;1;
    13;0;11;7;4;9;1;10;14;3;5;12;2;15;8;6;
    1;4;11;13;12;3;7;14;10;15;6;8;0;5;9;2;
    6;11;13;8;1;4;10;7;9;5;0;15;14;2;3;12];
   [13;2;8;4;6;15;11;1;10;9;3;14;5;0;12;7;
    1;15;13;8;10;3;7;4;12;5;6;11;0;14;9;2;
    7;11;4;1;9;12;14;2;0;6;10;13;15;3;5;8;
    2;1;14;7;4;10;8;13;15;12;9;0;3;5;6;11]
].

Definition PC1 : list Z := [
    57;49;41;33;25;17;9;1;58;50;42;34;26;18;
    10;2;59;51;43;35;27;19;11;3;60;52;44;36;
    63;55;47;39;31;23;15;7;62;54;46;38;30;22;
    14;6;61;53;45;37;29;21;13;5;28;20;12;4
].

Definition PC2 : list Z := [
    14;17;11;24;1;5;3;28;15;6;21;10;
    23;19;12;4;26;8;16;7;27;20;13;2;
    41;52;31;37;47;55;30;40;51;45;33;48;
    44;49;39;56;34;53;46;42;50;36;29;32
].

Definition SHIFTS : list Z := [
    1;1;2;2;2;2;2;2;1;2;2;2;2;2;2;1
].

Definition permute (inp : Z) (table : list Z) (n : nat) (in_bits : Z) : Z :=
  fold_left (fun out i =>
    let bit := (inp .>> (in_bits - rd table i)) .& 1 in
    out .| (bit .<< Z.of_nat (n - 1 - i))) (seq 0 n) 0.

(** [((c << s) | (c >> (28 - s))) & 0x0FFFFFFF] *)
Definition rotl28 (c s : Z) : Z := (u32 (c .<< s) .| (c .>> (28 - s))) .& 0x0fffffff.

Definition des_setkey_single (key : Z) : list Z :=
  let permuted := permute key PC1 56 64 in
  let c := (permuted .>> 28) .& 0x0fffffff in
  let d := permuted .& 0x0fffffff in
  (fold_left (fun '(c, d, ks) i =>
     let c := rotl28 c (rd SHIFTS i) in
     let d := rotl28 d (rd SHIFTS i) in
     let cd := (c .<< 28) .| d in
     (c, d, ks ++ [permute cd PC2 48 56])) (seq 0 16) (c, d, [])).2.

Definition des_f (r k : Z) : Z :=
  let er := permute r E 48 32 ⊕ k in
  let out := fold_left (fun out i =>
    let six := (er .>> (42 - 6 * Z.of_nat i)) .& 0x3f in
    let row := ((six .& 0x20) .>> 4) .| (six .& 1) in
    let col := (six .>> 1) .& 0x0f in
    out .| (tbl (nth i SBOX []) (row * 16 + col) .<< (28 - 4 * Z.of_nat i))) (seq 0 8) 0 in
  u32 (permute out P 32 32).

(** One round on [(l, r)]. *)
Definition des_round (x : Z * Z) (k : Z) : Z * Z :=
  let '(l, r) := x in (r, l ⊕ des_f r k).

Definition des_crypt_block (block : Z) (ks : list Z) (decrypt : bool) : Z :=
  let ip := permute block IP 64 64 in
  let l := ip .>> 32 in
  let r := ip .& 0xffffffff in
  let '(l, r) := fold_left (fun x i => des_round x (rd ks (if decrypt then 15 - i else i)))
                   (seq 0 16) (l, r) in
  let pre := (r .<< 32) .| l in
  permute pre FP 64 64.

(** [b = (b << 8) | in[i]] for eight bytes. *)
Definition load_loop (inp : bytes) : Z :=
  fold_left (fun b i => u64 (b .<< 8) .| rd inp i) (seq 0 8) 0.

(** The three key schedules of [ctx->ks]. *)
Definition des3_setkey (key24 : bytes) : list (list Z) :=
  map (fun k => des_setkey_single (load_loop (drop (k * 8) key24))) (seq 0 3).

Definition des3_encrypt_block (ks : list (list Z)) (inp : bytes) : bytes :=
  let b := load_loop inp in
  let b := des_crypt_block b (nth 0 ks []) false in
  let b := des_crypt_block b (nth 1 ks []) true in
  let b := des_crypt_block b (nth 2 ks []) false in
  map (fun i => u8 (b .>> (56 - 8 * Z.of_nat i))) (seq 0 8).

Definition des3_decrypt_block (ks : list (list Z)) (inp : bytes) : bytes :=
  let b := load_loop inp in
  let b := des_crypt_block b (nth 2 ks []) true in
  let b := des_crypt_block b (nth 1 ks []) false in
  let b := des_crypt_block b (nth 0 ks []) true in
  map (fun i => u8 (b .>> (56 - 8 * Z.of_nat i))) (seq 0 8).

Definition des3_cipher (key : bytes) : block_cipher_ctx_t :=
  let ks := des3_setkey key in
  {| encrypt b := Some (des3_encrypt_block ks b); decrypt c := Some (des3_decrypt_block ks c);
     block_size := 8 |}.

#[global] Arguments permute : simpl never.

(** ** Permutations, bit by bit *)

Lemma testbit_placed x s m j :
  0 <= s -> 0 <= m -> 0 <= j ->
  Z.testbit (((x .>> s) .& 1) .<< m) j = (j =? m) && Z.testbit x s.
Proof.
  intros Hs Hm Hj. rewrite Z.shiftl_spec by done. destruct (Z.eqb_spec j m) as [->|Hne].
  - rewrite Z.sub_diag, Z.land_spec, Z.shiftr_spec by done. by rewrite Z.add_0_l, andb_true_r.
  - destruct (Z_lt_le_dec j m); [by rewrite Z.testbit_neg_r by lia|].
    rewrite Z.land_spec. change 1 with (2 ^ 0). rewrite (Z.pow2_bits_false 0) by lia. btauto.
Qed.

(** The table's entries are 1-based positions from the high end. *)
Definition table_ok (table : list Z) (n : nat) (in_bits : Z) : Prop :=
  Forall (fun e => 1 <= e <= in_bits) table /\ length table = n.

Lemma table_entry table n in_bits i :
  table_ok table n in_bits -> (i < n)%nat -> 1 <= rd table i <= in_bits.
Proof.
  intros [Hf Hl] Hi. destruct (lookup_lt_is_Some_2 table i) as [e He]; [lia|].
  rewrite (rd_lookup _ _ _ He). by eapply (Forall_lookup_1 _ _ _ _ Hf).
Qed.

Lemma permute_bits inp table n in_bits k j :
  table_ok table n in_bits -> (k <= n)%nat -> (j < n)%nat ->
  Z.testbit (fold_left (fun out i =>
    out .| (((inp .>> (in_bits - rd table i)) .& 1) .<< Z.of_nat (n - 1 - i))) (seq 0 k) 0)
    (Z.of_nat j) =
  (n - 1 - j <? k)%nat && Z.testbit inp (in_bits - rd table (n - 1 - j)).
Proof.
  intros Ht Hk Hj. induction k as [|k IH].
  { cbn [seq fold_left]. by rewrite Z.bits_0. }
  rewrite seq_S, fold_left_app, Nat.add_0_l. cbn [fold_left].
  rewrite Z.lor_spec, IH by lia. pose proof (table_entry _ _ _ k Ht ltac:(lia)).
  rewrite testbit_placed by lia.
  destruct (Z.eqb_spec (Z.of_nat j) (Z.of_nat (n - 1 - k))) as [E|E].
  - replace (n - 1 - j)%nat with k by lia.
    destruct (Nat.ltb_spec k k), (Nat.ltb_spec k (S k)); try lia; done.
  - replace (n - 1 - j <? S k)%nat with (n - 1 - j <? k)%nat; [btauto|].
    destruct (Nat.ltb_spec (n - 1 - j) k), (Nat.ltb_spec (n - 1 - j) (S k)); try done; lia.
Qed.

Lemma permute_testbit inp table n in_bits j :
  table_ok table n in_bits -> (j < n)%nat ->
  Z.testbit (permute inp table n in_bits) (Z.of_nat j) =
    Z.testbit inp (in_bits - rd table (n - 1 - j)).
Proof.
  intros Ht Hj. unfold permute. cbn zeta.
  rewrite (permute_bits inp table n in_bits n j Ht) by lia.
  destruct (Nat.ltb_spec (n - 1 - j) n); [done|lia].
Qed.

Lemma permute_range inp table n in_bits :
  is_u (Z.of_nat n) (permute inp table n in_bits).
Proof.
  unfold permute. cbn zeta.
  assert (H : forall l out, Forall (fun i => (i < n)%nat) l -> is_u (Z.of_nat n) out ->
    is_u (Z.of_nat n) (fold_left (fun out i =>
      out .| (((inp .>> (in_bits - rd table i)) .& 1) .<< Z.of_nat (n - 1 - i))) l out)).
  { induction l as [|i l IH]; intros out Hl Ho; [done|]. apply Forall_cons in Hl as [Hi Hl].
    cbn [fold_left]. apply IH; [done|]. apply is_u_lor; [lia|done|].
    apply (is_u_shiftl 1); [lia|lia|lia|].
    change 1 with (Z.ones 1) at 2. rewrite Z.land_ones by done. unfold is_u.
    apply Z.mod_pos_bound. lia. }
  apply H.
  - apply Forall_forall. intros i Hi%elem_of_seq. lia.
  - unfold is_u. split; [lia|]. apply Z.pow_pos_nonneg; lia.
Qed.

Lemma ip_ok : table_ok IP 64 64 /\ table_ok FP 64 64.
Proof.
  split; (split; [|done]); repeat (apply Forall_cons; split; [lia|]); constructor.
Qed.

(** Two 64-bit permutations whose tables are inverse cancel. *)
Lemma permute_cancel a b x :
  table_ok a 64 64 -> table_ok b 64 64 ->
  forallb (fun j => rd a (Z.to_nat (rd b j) - 1) =? Z.of_nat (j + 1)) (seq 0 64) = true ->
  is_u64 x -> permute (permute x a 64 64) b 64 64 = x.
Proof.
  intros Ha Hb Hc Hx. apply (bits_below 64); [apply permute_range|done|].
  intros i Hi. rewrite <- (Z2Nat.id i) by lia.
  rewrite permute_testbit by (done || lia).
  pose proof (table_entry _ _ _ (64 - 1 - Z.to_nat i) Hb ltac:(lia)) as He.
  rewrite forallb_forall in Hc. specialize (Hc (64 - 1 - Z.to_nat i)%nat ltac:(apply in_seq; lia)).
  apply Z.eqb_eq in Hc. set (e := rd b _) in *.
  replace (64 - e) with (Z.of_nat (64 - Z.to_nat e)) by lia.
  rewrite permute_testbit by (done || lia).
  replace (64 - 1 - (64 - Z.to_nat e))%nat with (Z.to_nat e - 1)%nat by lia.
  rewrite Hc. f_equal. lia.
Qed.

Lemma fp_ip x : is_u64 x -> permute (permute x IP 64 64) FP 64 64 = x.
Proof. apply permute_cancel; [apply ip_ok|apply ip_ok|vm_compute; reflexivity]. Qed.

Lemma ip_fp x : is_u64 x -> permute (permute x FP 64 64) IP 64 64 = x.
Proof. apply permute_cancel; [apply ip_ok|apply ip_ok|vm_compute; reflexivity]. Qed.

(** ** The Feistel network *)

Definition pair_ok (x : Z * Z) : Prop := is_u32 x.1 /\ is_u32 x.2.

Definition join (x : Z * Z) : Z := (x.2 .<< 32) .| x.1.

Definition split64 (v : Z) : Z * Z := (v .>> 32, v .& 0xffffffff).

Lemma des_round_ok x k : pair_ok x -> pair_ok (des_round x k).
Proof.
  destruct x as [l r]. intros [Hl Hr]. split; [done|]. apply is_u_lxor; [done|done|].
  apply is_u_u32.
Qed.

Lemma des_round_involutive x k : des_round (prod_swap (des_round x k)) k = prod_swap x.
Proof. destruct x as [l r]. cbn. by rewrite lxor_cancel_r. Qed.

Lemma split_join x : pair_ok x -> split64 (join x) = prod_swap x.
Proof.
  destruct x as [l r]. intros [Hl Hr]. cbn in *. unfold split64, join; cbn [fst snd prod_swap].
  rewrite (shl_lor r 32 l (2 ^ 32)) by done. change 0xffffffff with (Z.ones 32).
  rewrite Z.land_ones, Z.shiftr_div_pow2 by done. unfold is_u in *. f_equal; dlia.
Qed.

Lemma join_split v : is_u64 v -> join (prod_swap (split64 v)) = v.
Proof.
  intros Hv. unfold split64, join; cbn [fst snd prod_swap].
  change 0xffffffff with (Z.ones 32). rewrite Z.land_ones, Z.shiftr_div_pow2 by done.
  rewrite (shl_lor _ 32 _ (2 ^ 32)) by (done || unfold is_u; dlia). dlia.
Qed.

Lemma split_ok v : is_u64 v -> pair_ok (split64 v).
Proof.
  intros Hv. unfold split64, pair_ok; cbn [fst snd]. split.
  - rewrite Z.shiftr_div_pow2 by done. unfold is_u in *. dlia.
  - apply (is_u_u32 v).
Qed.

Lemma is_u_join x : pair_ok x -> is_u64 (join x).
Proof.
  intros [H1 H2]. unfold join. rewrite (shl_lor _ 32 _ (2 ^ 32)) by done. unfold is_u in *. lia.
Qed.

(** The round keys in the order of use. *)
Definition keys (ks : list Z) (decrypt : bool) : list Z :=
  (if decrypt then reverse else id) (map (rd ks) (seq 0 16)).

Lemma des_crypt_eq b ks d :
  des_crypt_block b ks d =
    permute (join (fold_left des_round (keys ks d) (split64 (permute b IP 64 64)))) FP 64 64.
Proof.
  unfold des_crypt_block. cbn zeta. fold (split64 (permute b IP 64 64)).
  assert (H : fold_left (fun x i => des_round x (rd ks (if d then 15 - i else i)%nat)) (seq 0 16)
      (split64 (permute b IP 64 64)) =
    fold_left des_round (keys ks d) (split64 (permute b IP 64 64))).
  { destruct d; reflexivity. }
  rewrite H. by destruct (fold_left des_round _ _).
Qed.

Lemma crypt_range b ks d : is_u64 (des_crypt_block b ks d).
Proof. rewrite des_crypt_eq. apply permute_range. Qed.

(** Running the network with the other key order undoes it. *)
Lemma des_crypt_inverse b ks d :
  is_u64 b -> des_crypt_block (des_crypt_block b ks d) ks (negb d) = b.
Proof.
  intros Hb. rewrite !des_crypt_eq. set (x := split64 (permute b IP 64 64)).
  assert (Hx : pair_ok x) by (apply split_ok, permute_range).
  assert (Hf : pair_ok (fold_left des_round (keys ks d) x))
    by (apply fold_left_ok; auto using des_round_ok).
  rewrite ip_fp by by apply is_u_join. rewrite split_join by done.
  replace (keys ks (negb d)) with (reverse (keys ks d))
    by (unfold keys; destruct d; cbn; rewrite ?reverse_involutive; done).
  rewrite (involutive_rounds des_round prod_swap pair_ok);
    [|auto using des_round_ok|intros; apply des_round_involutive|done].
  unfold x. rewrite join_split by apply permute_range. by apply fp_ip.
Qed.

Lemma load_loop_val b : is_block 8 b -> load_loop b = val64 b.
Proof.
  intros [Hl Hb].
  assert (H : forall l v, is_bytes l -> (length l <= 8)%nat ->
    is_u (64 - 8 * Z.of_nat (length l)) v ->
    fold_left (fun b x => u64 (b .<< 8) .| x) l v = fold_left (fun v x => v * 256 + x) l v).
  { induction l as [|x l IH]; intros v Hx Hn Hv; [done|].
    apply Forall_cons in Hx as [Hx Hbl]. cbn [fold_left length] in *.
    assert (Hs : u64 (v .<< 8) .| x = v * 256 + x).
    { rewrite u64_small by (eapply is_u_shiftl; [| | |exact Hv]; lia). by apply shl_lor. }
    rewrite Hs. apply IH; [done|lia|]. unfold is_u in *.
    replace (64 - 8 * Z.of_nat (length l)) with ((64 - 8 * Z.of_nat (S (length l))) + 8) by lia.
    rewrite Z.pow_add_r by lia. change (2 ^ 8) with 256 in *. lia. }
  unfold val64. rewrite <- H; [|done|lia|by rewrite Hl].
  do 8 (destruct b as [|? b]; [done|]). destruct b; [reflexivity|done].
Qed.

(** The three passes on the 64-bit block. *)
Definition enc64 (ks : list (list Z)) (v : Z) : Z :=
  des_crypt_block (des_crypt_block (des_crypt_block v (nth 0 ks []) false) (nth 1 ks []) true)
    (nth 2 ks []) false.
Definition dec64 (ks : list (list Z)) (v : Z) : Z :=
  des_crypt_block (des_crypt_block (des_crypt_block v (nth 2 ks []) true) (nth 1 ks []) false)
    (nth 0 ks []) true.

#[local] Opaque des_crypt_block load_loop.

Lemma dec64_enc64 ks v : is_u64 v -> dec64 ks (enc64 ks v) = v.
Proof.
  intros Hv. unfold dec64, enc64.
  rewrite (des_crypt_inverse _ (nth 2 ks []) false), (des_crypt_inverse _ (nth 1 ks []) true)
    by apply crypt_range. by apply (des_crypt_inverse _ (nth 0 ks []) false).
Qed.

Lemma enc64_dec64 ks v : is_u64 v -> enc64 ks (dec64 ks v) = v.
Proof.
  intros Hv. unfold dec64, enc64.
  rewrite (des_crypt_inverse _ (nth 0 ks []) true), (des_crypt_inverse _ (nth 1 ks []) false)
    by apply crypt_range. by apply (des_crypt_inverse _ (nth 2 ks []) true).
Qed.

Lemma enc64_range ks v : is_u64 (enc64 ks v).
Proof. apply crypt_range. Qed.
Lemma dec64_range ks v : is_u64 (dec64 ks v).
Proof. apply crypt_range. Qed.

Lemma des_encrypt_eq ks b : des3_encrypt_block ks b = sar_store64be (enc64 ks (load_loop b)).
Proof. reflexivity. Qed.
Lemma des_decrypt_eq ks b : des3_decrypt_block ks b = sar_store64be (dec64 ks (load_loop b)).
Proof. reflexivity. Qed.

(** Loading a stored block. *)
Lemma load_store v : is_u64 v -> load_loop (sar_store64be v) = v.
Proof.
  intros Hv. rewrite load_loop_val by apply is_block_store64. by apply val64_store.
Qed.

#[local] Opaque des3_encrypt_block des3_decrypt_block enc64 dec64.

#[global] Instance des3_block_cipher key : BlockCipher (des3_cipher key).
Proof.
  unfold des3_cipher. generalize (des3_setkey key) as ks. intros ks. cbn zeta.
  apply (total_cipher (des3_encrypt_block ks) (des3_decrypt_block ks) 8); [by left|..].
  - intros b Hb. rewrite des_encrypt_eq, des_decrypt_eq, load_store by apply enc64_range.
    split; [apply is_block_store64|]. pose proof (val64_range b Hb).
    rewrite load_loop_val, dec64_enc64 by done. by apply store_val64.
  - intros b Hb. rewrite (des_encrypt_eq ks (des3_decrypt_block ks b)). rewrite (des_decrypt_eq ks b).
    rewrite (load_store (dec64 ks (load_loop b))) by apply dec64_range.
    split; [apply is_block_store64|]. pose proof (val64_range b Hb).
    rewrite load_loop_val, enc64_dec64 by done. by apply store_val64.
Qed.

(** FIPS 46-3: one DES key three times is single DES. *)
Example des_vector :
  let k := [0x13;0x34;0x57;0x79;0x9b;0xbc;0xdf;0xf1] in
  des3_encrypt_block (des3_setkey (k ++ k ++ k)) [0x01;0x23;0x45;0x67;0x89;0xab;0xcd;0xef] =
    [0x85;0xe8;0x13;0x54;0x0f;0x0a;0xb4;0x05].
Proof. vm_compute. reflexivity. Qed.

End Des.
