(* ===== verification/Camellia.v ===== *)
(** * Camellia (engine/ciphers/camellia.c)

    The derived S-boxes, the round function, the FL layers, the key schedule
    for the three key lengths and the cipher.  The decryption key order undoes
    the encryption rounds for every key. *)

From S2P Require Import Prelude Mem CipherCommon.
Import Mem.

Module Camellia.

Definition SBOX1 : list Z := [
    112;130;44;236;179;39;192;229;228;133;87;53;234;12;174;65;
    35;239;107;147;69;25;165;33;237;14;79;78;29;101;146;189;
    134;184;175;143;124;235;31;206;62;48;220;95;94;197;11;26;
    166;225;57;202;213;71;93;61;217;1;90;214;81;86;108;77;
    139;13;154;102;251;204;176;45;116;18;43;32;240;177;132;153;
    223;76;203;194;52;126;118;5;109;183;169;49;209;23;4;215;
    20;88;58;97;222;27;17;28;50;15;156;22;83;24;242;34;
    254;68;207;178;195;181;122;145;36;8;232;168;96;252;105;80;
    170;208;160;125;161;137;98;151;84;91;30;149;224;255;100;210;
    16;196;0;72;163;247;117;219;138;3;230;218;9;63;221;148;
    135;92;131;2;205;74;144;51;115;103;246;243;157;127;191;226;
    82;155;216;38;200;55;198;59;129;150;111;75;19;190;99;46;
    233;121;167;140;159;110;188;142;41;245;249;182;47;253;180;89;
    120;152;6;106;231;70;113;186;212;37;171;66;136;162;141;250;
    114;7;185;85;248;238;172;10;54;73;42;104;60;56;241;164;
    64;40;211;123;187;201;67;193;21;227;173;244;119;199;128;158
].

(** The tables [init_sboxes] computes. *)
Definition SBOX2 : list Z :=
  Eval vm_compute in map (fun x => u8 ((x .<< 1) .| (x .>> 7))) SBOX1.
Definition SBOX3 : list Z :=
  Eval vm_compute in map (fun x => u8 ((x .>> 1) .| (x .<< 7))) SBOX1.
Definition SBOX4 : list Z :=
  Eval vm_compute in
    map (fun i => tbl SBOX1 (u8 ((Z.of_nat i .<< 1) .| (Z.of_nat i .>> 7)))) (seq 0 256).

Definition SIGMA : list Z := [
    0xA09E667F3BCC908B;
    0xB67AE8584CAA73B2;
    0xC6EF372FE94F82BE;
    0x54FF53A5F1D36F1C;
    0x10E527FADE682D1D;
    0xB05688C2B3E6C1FD
].

Definition camellia_f (x k : Z) : Z :=
  let t := sar_store64be (x ⊕ k) in
  let y1 := tbl SBOX1 (rd t 0) in
  let y2 := tbl SBOX2 (rd t 1) in
  let y3 := tbl SBOX3 (rd t 2) in
  let y4 := tbl SBOX4 (rd t 3) in
  let y5 := tbl SBOX2 (rd t 4) in
  let y6 := tbl SBOX3 (rd t 5) in
  let y7 := tbl SBOX4 (rd t 6) in
  let y8 := tbl SBOX1 (rd t 7) in
  sar_load64be
    [u8 (y1 ⊕ y3 ⊕ y4 ⊕ y6 ⊕ y7 ⊕ y8);
     u8 (y1 ⊕ y2 ⊕ y4 ⊕ y5 ⊕ y7 ⊕ y8);
     u8 (y1 ⊕ y2 ⊕ y3 ⊕ y5 ⊕ y6 ⊕ y8);
     u8 (y2 ⊕ y3 ⊕ y4 ⊕ y5 ⊕ y6 ⊕ y7);
     u8 (y1 ⊕ y2 ⊕ y6 ⊕ y7 ⊕ y8);
     u8 (y2 ⊕ y3 ⊕ y5 ⊕ y7 ⊕ y8);
     u8 (y3 ⊕ y4 ⊕ y5 ⊕ y6 ⊕ y8);
     u8 (y1 ⊕ y4 ⊕ y5 ⊕ y6 ⊕ y7)].

Definition camellia_fl (x k : Z) : Z :=
  let xl := u32 (x .>> 32) in
  let xr := x .& 0xffffffff in
  let kl := u32 (k .>> 32) in
  let kr := k .& 0xffffffff in
  let yr := xr ⊕ rotl32 (xl .& kl) 1 in
  let yl := xl ⊕ (yr .| kr) in
  (yl .<< 32) .| yr.

Definition camellia_flinv (y k : Z) : Z :=
  let yl := u32 (y .>> 32) in
  let yr := y .& 0xffffffff in
  let kl := u32 (k .>> 32) in
  let kr := k .& 0xffffffff in
  let xl := yl ⊕ (yr .| kr) in
  let xr := yr ⊕ rotl32 (xl .& kl) 1 in
  (xl .<< 32) .| xr.

(** [(hi, lo)] rotated left by [n]. *)
Definition rotl128 (hi lo n : Z) : Z * Z :=
  let n := n .& 127 in
  if n =? 0 then (hi, lo)
  else if n <? 64
  then (u64 (hi .<< n) .| (lo .>> (64 - n)), u64 (lo .<< n) .| (hi .>> (64 - n)))
  else
    let n := n - 64 in
    if n =? 0 then (lo, hi)
    else (u64 (lo .<< n) .| (hi .>> (64 - n)), u64 (hi .<< n) .| (lo .>> (64 - n))).

Record camellia_ctx_t := {
  kw : list Z;
  k : list Z;
  ke : list Z;
  rounds : Z
}.

(** [KR] and the number of rounds. *)
Definition camellia_kr (key : bytes) (key_len : Z) : (Z * Z) * Z :=
  if key_len =? 16 then ((0, 0), 18)
  else if key_len =? 24
  then (sar_load64be (drop 16 key), u64 (Z.lnot (sar_load64be (drop 16 key))), 24)
  else (sar_load64be (drop 16 key), sar_load64be (drop 24 key), 24).

(** [KA] and [KB] from [KL] and [KR]. *)
Definition camellia_ka_kb (kl kr : Z * Z) : (Z * Z) * (Z * Z) :=
  let d1 := kl.1 ⊕ kr.1 in
  let d2 := kl.2 ⊕ kr.2 in
  let d2 := d2 ⊕ camellia_f d1 (rd SIGMA 0) in
  let d1 := d1 ⊕ camellia_f d2 (rd SIGMA 1) in
  let d1 := d1 ⊕ kl.1 in
  let d2 := d2 ⊕ kl.2 in
  let d2 := d2 ⊕ camellia_f d1 (rd SIGMA 2) in
  let d1 := d1 ⊕ camellia_f d2 (rd SIGMA 3) in
  let ka := (d1, d2) in
  let d1 := ka.1 ⊕ kr.1 in
  let d2 := ka.2 ⊕ kr.2 in
  let d2 := d2 ⊕ camellia_f d1 (rd SIGMA 4) in
  let d1 := d1 ⊕ camellia_f d2 (rd SIGMA 5) in
  (ka, (d1, d2)).

(** The context is zeroed first: unused slots are 0. *)
Definition camellia_key_schedule (key : bytes) (key_len : Z) : camellia_ctx_t :=
  let kl := (sar_load64be key, sar_load64be (drop 8 key)) in
  let '(kr, nrounds) := camellia_kr key key_len in
  let '(ka, kb) := camellia_ka_kb kl kr in
  let rot x n := rotl128 x.1 x.2 n in
  if nrounds =? 18 then
    {| kw := [kl.1; kl.2; (rot ka 111).1; (rot ka 111).2];
       k := [
        ka.1; ka.2; (rot kl 15).1; (rot kl 15).2; (rot ka 15).1; (rot ka 15).2;
        (rot kl 45).1; (rot kl 45).2; (rot ka 45).1; (rot kl 60).2; (rot ka 60).1;
        (rot ka 60).2; (rot kl 94).1; (rot kl 94).2; (rot ka 94).1; (rot ka 94).2;
        (rot kl 111).1; (rot kl 111).2; 0; 0; 0; 0; 0; 0];
       ke := [
        (rot ka 30).1; (rot ka 30).2; (rot kl 77).1; (rot kl 77).2; 0; 0];
       rounds := 18 |}
  else
    {| kw := [kl.1; kl.2; (rot kb 111).1; (rot kb 111).2];
       k := [
        kb.1; kb.2; (rot kr 15).1; (rot kr 15).2; (rot ka 15).1; (rot ka 15).2;
        (rot kb 30).1; (rot kb 30).2; (rot kl 45).1; (rot kl 45).2; (rot ka 45).1;
        (rot ka 45).2; (rot kr 60).1; (rot kr 60).2; (rot kb 60).1; (rot kb 60).2;
        (rot kl 77).1; (rot kl 77).2; (rot kr 94).1; (rot kr 94).2; (rot ka 94).1;
        (rot ka 94).2; (rot kl 111).1; (rot kl 111).2];
       ke := [
        (rot kr 30).1; (rot kr 30).2; (rot kl 60).1; (rot kl 60).2; (rot ka 77).1;
        (rot ka 77).2];
       rounds := 24 |}.

(** One of the six rounds of a group. *)
Definition group_round (rk : nat -> Z) (base : nat) (d : Z * Z) (r : nat) : Z * Z :=
  let '(d1, d2) := d in
  if (r mod 2 =? 0)%nat then (d1, d2 ⊕ camellia_f d1 (rk (base + r)%nat))
  else (d1 ⊕ camellia_f d2 (rk (base + r)%nat), d2).

(** A group of six rounds, followed by the FL layer unless it is the last. *)
Definition group (rk fk : nat -> Z) (nfl : nat) (d : Z * Z) (g : nat) : Z * Z :=
  let '(d1, d2) := fold_left (group_round rk (g * 6)) (seq 0 6) d in
  if (g <? nfl)%nat
  then (camellia_fl d1 (fk (g * 2)%nat), camellia_flinv d2 (fk (g * 2 + 1)%nat))
  else (d1, d2).

Definition camellia_crypt (ctx : camellia_ctx_t) (inp : bytes) (decrypt : bool) : bytes :=
  let d1 := sar_load64be inp in
  let d2 := sar_load64be (drop 8 inp) in
  let nk := if rounds ctx =? 18 then 18%nat else 24%nat in
  let rk i := if decrypt then rd (k ctx) (nk - 1 - i) else rd (k ctx) i in
  let nke := if rounds ctx =? 18 then 4%nat else 6%nat in
  let fk i := if decrypt then rd (ke ctx) (nke - 1 - i) else rd (ke ctx) i in
  let '(pre0, pre1, post0, post1) :=
    if decrypt then (rd (kw ctx) 2, rd (kw ctx) 3, rd (kw ctx) 0, rd (kw ctx) 1)
    else (rd (kw ctx) 0, rd (kw ctx) 1, rd (kw ctx) 2, rd (kw ctx) 3) in
  let d1 := d1 ⊕ pre0 in
  let d2 := d2 ⊕ pre1 in
  let nfl := if rounds ctx =? 18 then 2%nat else 3%nat in
  let '(d1, d2) := fold_left (group rk fk nfl) (seq 0 (nfl + 1)) (d1, d2) in
  let d2 := d2 ⊕ post0 in
  let d1 := d1 ⊕ post1 in
  sar_store64be d2 ++ sar_store64be d1.

Definition camellia_encrypt_block (ctx : camellia_ctx_t) (inp : bytes) : bytes :=
  camellia_crypt ctx inp false.
Definition camellia_decrypt_block (ctx : camellia_ctx_t) (inp : bytes) : bytes :=
  camellia_crypt ctx inp true.

Definition camellia_cipher (key : bytes) (key_len : Z) : block_cipher_ctx_t :=
  let ctx := camellia_key_schedule key key_len in
  {| encrypt b := Some (camellia_encrypt_block ctx b);
     decrypt c := Some (camellia_decrypt_block ctx c); block_size := 16 |}.

(** ** Ranges *)

Definition pair_ok (d : Z * Z) : Prop := is_u64 d.1 /\ is_u64 d.2.

Lemma is_u_load64 p : is_bytes p -> is_u64 (sar_load64be p).
Proof.
  intros Hp. unfold sar_load64be.
  repeat apply is_u_lor; try done; try (eapply is_u_shiftl; [| | |by apply rd_byte]; lia).
  eapply is_u_weaken; [|by apply rd_byte]. lia.
Qed.

Lemma is_u_f x key : is_u64 (camellia_f x key).
Proof.
  apply is_u_load64. repeat (apply Forall_cons; split; [apply is_u_u8|]). constructor.
Qed.

#[local] Opaque camellia_f.

Lemma low_half v : is_u32 (v .& 0xffffffff).
Proof. apply (is_u_u32 v). Qed.

Lemma fl_parts x key :
  is_u64 x ->
  let xl := u32 (x .>> 32) in let xr := x .& 0xffffffff in
  let kl := u32 (key .>> 32) in let kr := key .& 0xffffffff in
  is_u32 xl /\ is_u32 xr /\ is_u32 kr /\
  is_u32 (rotl32 (xl .& kl) 1) /\ (xl .<< 32) .| xr = x.
Proof.
  intros Hx. cbn zeta. pose proof (is_u_u32 (x .>> 32)) as H1.
  split_and!; try apply low_half; try apply H1.
  - apply is_u_rotl32; [lia|]. by apply is_u_land_l.
  - rewrite u32_small; [by apply join_of_halves|].
    rewrite Z.shiftr_div_pow2 by done. unfold is_u in *. dlia.
Qed.

Lemma is_u_fl x key : is_u64 x -> is_u64 (camellia_fl x key).
Proof.
  intros Hx. destruct (fl_parts x key Hx) as (H1 & H2 & H3 & H4 & _). unfold camellia_fl.
  apply is_u_join_halves; auto 6 with sar.
Qed.

Lemma is_u_flinv x key : is_u64 x -> is_u64 (camellia_flinv x key).
Proof.
  intros Hx. destruct (fl_parts x key Hx) as (H1 & H2 & H3 & _ & _). unfold camellia_flinv.
  apply is_u_join_halves; [auto with sar|]. apply is_u_lxor; [done|done|].
  apply is_u_rotl32; [lia|]. auto with sar.
Qed.

(** ** The FL layers cancel *)

Lemma flinv_fl x key : is_u64 x -> camellia_flinv (camellia_fl x key) key = x.
Proof.
  intros Hx. destruct (fl_parts x key Hx) as (H1 & H2 & H3 & H4 & Hj).
  set (xl := u32 (x .>> 32)) in *. set (xr := x .& 0xffffffff) in *.
  set (kl := u32 (key .>> 32)) in *. set (kr := key .& 0xffffffff) in *.
  set (yr := xr ⊕ rotl32 (xl .& kl) 1). set (yl := xl ⊕ (yr .| kr)).
  assert (Hyr : is_u32 yr) by (unfold yr; auto with sar).
  assert (Hyl : is_u32 yl) by (unfold yl; auto with sar).
  change (camellia_fl x key) with ((yl .<< 32) .| yr). unfold camellia_flinv.
  destruct (halves_of_join yl yr Hyl Hyr) as [-> ->]. rewrite (u32_small yl) by done.
  fold kl kr. cbn zeta. assert (E : yl ⊕ (yr .| kr) = xl) by apply lxor_cancel_r.
  rewrite E. unfold yr. by rewrite lxor_cancel_r.
Qed.

Lemma fl_flinv y key : is_u64 y -> camellia_fl (camellia_flinv y key) key = y.
Proof.
  intros Hy. destruct (fl_parts y key Hy) as (H1 & H2 & H3 & _ & Hj).
  set (yl := u32 (y .>> 32)) in *. set (yr := y .& 0xffffffff) in *.
  set (kl := u32 (key .>> 32)) in *. set (kr := key .& 0xffffffff) in *.
  set (xl := yl ⊕ (yr .| kr)). set (xr := yr ⊕ rotl32 (xl .& kl) 1).
  assert (Hxl : is_u32 xl) by (unfold xl; auto with sar).
  assert (Hxr : is_u32 xr).
  { unfold xr. apply is_u_lxor; [done|done|]. apply is_u_rotl32; [lia|]. auto with sar. }
  change (camellia_flinv y key) with ((xl .<< 32) .| xr). unfold camellia_fl.
  destruct (halves_of_join xl xr Hxl Hxr) as [-> ->]. rewrite (u32_small xl) by done.
  fold kl kr. cbn zeta. assert (E : xr ⊕ rotl32 (xl .& kl) 1 = yr) by apply lxor_cancel_r.
  rewrite E. unfold xl. by rewrite lxor_cancel_r.
Qed.

#[local] Opaque camellia_fl camellia_flinv.

(** ** The rounds as a list of uniform steps *)

(** A Feistel round that also swaps, or an FL layer. *)
Inductive op := Round (key : Z) | Layer (k1 k2 : Z).

Definition op_step (d : Z * Z) (o : op) : Z * Z :=
  match o with
  | Round key => (d.2 ⊕ camellia_f d.1 key, d.1)
  | Layer k1 k2 => (camellia_fl d.1 k1, camellia_flinv d.2 k2)
  end.

Definition op_flip (o : op) : op :=
  match o with Round key => Round key | Layer k1 k2 => Layer k2 k1 end.

Lemma op_step_ok d o : pair_ok d -> pair_ok (op_step d o).
Proof.
  destruct d as [d1 d2]. intros [H1 H2]. destruct o; split; cbn [op_step fst snd] in *; try done.
  - apply is_u_lxor; [done|done|apply is_u_f].
  - by apply is_u_fl.
  - by apply is_u_flinv.
Qed.

Lemma op_step_flip d o :
  pair_ok d -> op_step (prod_swap (op_step d o)) (op_flip o) = prod_swap d.
Proof.
  destruct d as [d1 d2]. intros [H1 H2]. destruct o; cbn [op_step op_flip prod_swap fst snd] in *.
  - by rewrite lxor_cancel_r.
  - by rewrite fl_flinv, flinv_fl.
Qed.

(** The steps of [camellia_crypt]. *)
Definition group_ops (rk fk : nat -> Z) (nfl : nat) (g : nat) : list op :=
  map (fun r => Round (rk (g * 6 + r)%nat)) (seq 0 6) ++
  (if (g <? nfl)%nat then [Layer (fk (g * 2)%nat) (fk (g * 2 + 1)%nat)] else []).

Lemma group_eq rk fk nfl d g : group rk fk nfl d g = fold_left op_step (group_ops rk fk nfl g) d.
Proof.
  destruct d as [d1 d2]. unfold group, group_ops. rewrite fold_left_app.
  assert (H : fold_left (group_round rk (g * 6)) (seq 0 6) (d1, d2) =
    fold_left op_step (map (fun r => Round (rk (g * 6 + r)%nat)) (seq 0 6)) (d1, d2)) by reflexivity.
  rewrite H. destruct (fold_left op_step _ (d1, d2)) as [e1 e2]. by destruct (g <? nfl)%nat.
Qed.

Definition crypt_ops (rk fk : nat -> Z) (nfl : nat) : list op :=
  flat_map (group_ops rk fk nfl) (seq 0 (nfl + 1)).

Lemma groups_eq rk fk nfl d :
  fold_left (group rk fk nfl) (seq 0 (nfl + 1)) d = fold_left op_step (crypt_ops rk fk nfl) d.
Proof.
  unfold crypt_ops. revert d. induction (seq 0 (nfl + 1)) as [|g l IH]; intros d; [done|].
  cbn [fold_left flat_map]. by rewrite fold_left_app, <- group_eq, IH.
Qed.

(** The steps a context gives in one direction; the other direction is the
    flipped reverse. *)
Definition ctx_ops (ctx : camellia_ctx_t) (decrypt : bool) : list op :=
  let nk := if rounds ctx =? 18 then 18%nat else 24%nat in
  let nke := if rounds ctx =? 18 then 4%nat else 6%nat in
  crypt_ops (fun i => if decrypt then rd (k ctx) (nk - 1 - i) else rd (k ctx) i)
            (fun i => if decrypt then rd (ke ctx) (nke - 1 - i) else rd (ke ctx) i)
            (if rounds ctx =? 18 then 2%nat else 3%nat).

Lemma ctx_ops_flip ctx d : ctx_ops ctx (negb d) = map op_flip (reverse (ctx_ops ctx d)).
Proof. unfold ctx_ops. destruct d, (rounds ctx =? 18); reflexivity. Qed.

Definition ctx_ok (ctx : camellia_ctx_t) : Prop := Forall is_u64 (kw ctx).

Definition pre_keys (ctx : camellia_ctx_t) (d : bool) : Z * Z :=
  if d then (rd (kw ctx) 2, rd (kw ctx) 3) else (rd (kw ctx) 0, rd (kw ctx) 1).

Definition xor_pair (a b : Z * Z) : Z * Z := (a.1 ⊕ b.1, a.2 ⊕ b.2).

Definition load_pair (b : bytes) : Z * Z := (sar_load64be b, sar_load64be (drop 8 b)).
Definition store_pair (d : Z * Z) : bytes := sar_store64be d.1 ++ sar_store64be d.2.

Lemma camellia_crypt_eq ctx b d :
  camellia_crypt ctx b d =
    store_pair (xor_pair (prod_swap (fold_left op_step (ctx_ops ctx d)
      (xor_pair (load_pair b) (pre_keys ctx d)))) (pre_keys ctx (negb d))).
Proof.
  unfold camellia_crypt, ctx_ops. rewrite <- groups_eq. unfold pre_keys, xor_pair, load_pair, store_pair.
  destruct d; cbn [negb fst snd]; by destruct (fold_left _ _ _).
Qed.

Lemma load_store_pair d : pair_ok d -> load_pair (store_pair d) = d.
Proof.
  destruct d as [d1 d2]. intros [H1 H2]. unfold load_pair, store_pair. cbn [fst snd] in *.
  change (drop 8 (sar_store64be d1 ++ sar_store64be d2)) with (sar_store64be d2).
  change (sar_load64be (sar_store64be d1 ++ sar_store64be d2)) with (sar_load64be (sar_store64be d1)).
  by rewrite !load64be_val, !val64_store by (done || apply is_block_store64).
Qed.

Lemma store_load_pair b : is_block 16 b -> store_pair (load_pair b) = b.
Proof.
  intros [Hl Hb]. assert (H1 : is_block 8 (take 8 b)).
  { split; [rewrite length_take; lia|by apply Forall_take]. }
  assert (H2 : is_block 8 (drop 8 b)).
  { split; [rewrite length_drop; lia|by apply Forall_drop]. }
  unfold store_pair, load_pair. cbn [fst snd].
  replace (sar_load64be b) with (sar_load64be (take 8 b))
    by (unfold sar_load64be; by rewrite !rd_take by lia).
  rewrite !load64be_val, !store_val64 by done. apply take_drop.
Qed.

Lemma load_pair_ok b : is_bytes b -> pair_ok (load_pair b).
Proof. intros H. split; apply is_u_load64; [done|by apply Forall_drop]. Qed.

Lemma xor_pair_ok a b : pair_ok a -> pair_ok b -> pair_ok (xor_pair a b).
Proof. intros [? ?] [? ?]. split; by apply is_u_lxor. Qed.

Lemma xor_pair_cancel a b : xor_pair (xor_pair a b) b = a.
Proof. destruct a. unfold xor_pair; cbn. by rewrite !lxor_cancel_r. Qed.

Lemma pre_keys_ok ctx d : ctx_ok ctx -> pair_ok (pre_keys ctx d).
Proof.
  intros H. unfold pre_keys. destruct d; split; cbn; apply (tbl_range 64 _ _ ltac:(lia) H 0) ||
    (unfold rd; match goal with |- is_u64 (nth ?i ?l 0) =>
       apply (tbl_range 64 l (Z.of_nat i)); [lia|exact H] end).
Qed.

Lemma swap_ok d : pair_ok d -> pair_ok (prod_swap d).
Proof. by intros [? ?]. Qed.

(** Either direction undoes the other. *)
Lemma camellia_crypt_inverse ctx b d :
  ctx_ok ctx -> is_block 16 b ->
  is_block 16 (camellia_crypt ctx b d) /\
  camellia_crypt ctx (camellia_crypt ctx b d) (negb d) = b.
Proof.
  intros Hc Hb. rewrite !camellia_crypt_eq. split.
  { split; [done|]. unfold store_pair. apply Forall_app. split; apply is_block_store64. }
  set (x := xor_pair (load_pair b) (pre_keys ctx d)).
  assert (Hx : pair_ok x).
  { apply xor_pair_ok; [apply load_pair_ok, Hb|by apply pre_keys_ok]. }
  assert (Hf : pair_ok (fold_left op_step (ctx_ops ctx d) x))
    by (apply fold_left_ok; auto using op_step_ok).
  rewrite load_store_pair by (apply xor_pair_ok; [by apply swap_ok|by apply pre_keys_ok]).
  rewrite xor_pair_cancel, ctx_ops_flip, negb_involutive.
  rewrite (involutive_rounds_flip op_step op_flip prod_swap pair_ok);
    [|auto using op_step_ok|intros; by apply op_step_flip|done].
  assert (Hss : prod_swap (prod_swap x) = x) by by destruct x.
  rewrite Hss. unfold x. rewrite xor_pair_cancel. by apply store_load_pair.
Qed.

(** ** The key schedule gives whitening keys in range *)

Lemma rotl128_ok x n : pair_ok x -> pair_ok (rotl128 x.1 x.2 n).
Proof.
  intros [H1 H2]. unfold rotl128. repeat case_match; (split; cbn [fst snd]); try done;
    (apply is_u_lor; [done|apply is_u_u64|]); bsimp; apply is_u_shiftr; try done;
    assert (n .& 127 = n mod 2 ^ 7) by (change 127 with (Z.ones 7); by apply Z.land_ones);
    pose proof (Z.mod_pos_bound n (2 ^ 7) ltac:(lia)); lia.
Qed.

Lemma kr_ok key key_len : is_bytes key -> pair_ok (camellia_kr key key_len).1.
Proof.
  intros Hk. unfold camellia_kr.
  assert (H : forall n, is_u64 (sar_load64be (drop n key)))
    by (intros n; apply is_u_load64; by apply Forall_drop).
  destruct (key_len =? 16); [split; unfold is_u; cbn; lia|].
  destruct (key_len =? 24).
  - refine (conj (H 16%nat) (is_u_u64 _)).
  - refine (conj (H 16%nat) (H 24%nat)).
Qed.

Lemma ka_kb_ok kl kr :
  pair_ok kl -> pair_ok kr -> pair_ok (camellia_ka_kb kl kr).1 /\ pair_ok (camellia_ka_kb kl kr).2.
Proof.
  intros [H1 H2] [H3 H4].
  assert (Hf : forall a x k, is_u64 a -> is_u64 (a ⊕ camellia_f x k))
    by (intros; apply is_u_lxor; [lia|done|apply is_u_f]).
  assert (Hx : forall a b, is_u64 a -> is_u64 b -> is_u64 (a ⊕ b))
    by (intros; by apply is_u_lxor).
  unfold camellia_ka_kb. refine (conj (conj _ _) (conj _ _)); cbn [fst snd];
    repeat first [assumption|apply Hf|apply Hx].
Qed.

Lemma key_schedule_ok key key_len : is_bytes key -> ctx_ok (camellia_key_schedule key key_len).
Proof.
  intros Hk. unfold camellia_key_schedule.
  assert (Hkl : pair_ok (sar_load64be key, sar_load64be (drop 8 key)))
    by (apply (load_pair_ok key), Hk).
  pose proof (kr_ok key key_len Hk) as Hkr.
  destruct (camellia_kr key key_len) as [kr nrounds]. cbn [fst] in Hkr.
  pose proof (ka_kb_ok _ _ Hkl Hkr) as Hab.
  destruct (camellia_ka_kb _ _) as [ka kb]. destruct Hab as [Ha Hb]. cbn [fst snd] in Ha, Hb.
  destruct (rotl128_ok ka 111 Ha) as [Ha1 Ha2], (rotl128_ok kb 111 Hb) as [Hb1 Hb2], Hkl as [H1 H2].
  destruct (nrounds =? 18); unfold ctx_ok; cbn [kw];
    do 4 (apply Forall_cons; split; [assumption|]); constructor.
Qed.

#[local] Opaque camellia_crypt.

#[global] Instance camellia_block_cipher key key_len :
  is_bytes key -> BlockCipher (camellia_cipher key key_len).
Proof.
  intros Hk. pose proof (key_schedule_ok key key_len Hk) as Hc. unfold camellia_cipher.
  set (ctx := camellia_key_schedule key key_len) in *. clearbody ctx.
  apply (total_cipher (camellia_encrypt_block ctx) (camellia_decrypt_block ctx) 16); [by right|..];
    intros b Hb; [apply (camellia_crypt_inverse ctx b false)|apply (camellia_crypt_inverse ctx b true)]; done.
Qed.

(** RFC 3713, appendix A. *)
Example camellia_vector_128 :
  let key := [0x01;0x23;0x45;0x67;0x89;0xab;0xcd;0xef;0xfe;0xdc;0xba;0x98;0x76;0x54;0x32;0x10] in
  camellia_encrypt_block (camellia_key_schedule key 16) key =
    [0x67;0x67;0x31;0x38;0x54;0x96;0x69;0x73;0x08;0x57;0x06;0x56;0x48;0xea;0xbe;0x43].
Proof. vm_compute. reflexivity. Qed.

Example camellia_vector_256 :
  let pt := [0x01;0x23;0x45;0x67;0x89;0xab;0xcd;0xef;0xfe;0xdc;0xba;0x98;0x76;0x54;0x32;0x10] in
  let key := pt ++ [0x00;0x11;0x22;0x33;0x44;0x55;0x66;0x77;0x88;0x99;0xaa;0xbb;0xcc;0xdd;0xee;0xff] in
  camellia_encrypt_block (camellia_key_schedule key 32) pt =
    [0x9a;0xcc;0x23;0x7d;0xff;0x16;0xd7;0x6c;0x20;0xef;0x7c;0x91;0x9e;0x3a;0x75;0x09].
Proof. vm_compute. reflexivity. Qed.

End Camellia.
