(* ===== verification/Aes.v ===== *)
(** * AES

    engine/ciphers/aes.c: the key schedule, the block functions, and the two
    routines that recognise key material in memory: [aes_schedule_is_valid]
    tests an expanded schedule and [aes_master_from_window] runs the schedule
    backwards from a window of it.

    Lengths that callers pass: 16, 24 or 32.  [rk] is the part of [ctx->rk]
    that [aes_setkey] has written; the block functions read no further.  The
    [(uint8_t)] casts of xors of bytes change nothing and are left out. *)

From Stdlib Require Import Btauto.
From S2P Require Import Prelude Mem CipherCommon.

Module Aes.

(** Half a line of the source table per inner list. *)
Definition SBOX : list Z := concat [
    [0x63;0x7c;0x77;0x7b;0xf2;0x6b;0x6f;0xc5];
    [0x30;0x01;0x67;0x2b;0xfe;0xd7;0xab;0x76];
    [0xca;0x82;0xc9;0x7d;0xfa;0x59;0x47;0xf0];
    [0xad;0xd4;0xa2;0xaf;0x9c;0xa4;0x72;0xc0];
    [0xb7;0xfd;0x93;0x26;0x36;0x3f;0xf7;0xcc];
    [0x34;0xa5;0xe5;0xf1;0x71;0xd8;0x31;0x15];
    [0x04;0xc7;0x23;0xc3;0x18;0x96;0x05;0x9a];
    [0x07;0x12;0x80;0xe2;0xeb;0x27;0xb2;0x75];
    [0x09;0x83;0x2c;0x1a;0x1b;0x6e;0x5a;0xa0];
    [0x52;0x3b;0xd6;0xb3;0x29;0xe3;0x2f;0x84];
    [0x53;0xd1;0x00;0xed;0x20;0xfc;0xb1;0x5b];
    [0x6a;0xcb;0xbe;0x39;0x4a;0x4c;0x58;0xcf];
    [0xd0;0xef;0xaa;0xfb;0x43;0x4d;0x33;0x85];
    [0x45;0xf9;0x02;0x7f;0x50;0x3c;0x9f;0xa8];
    [0x51;0xa3;0x40;0x8f;0x92;0x9d;0x38;0xf5];
    [0xbc;0xb6;0xda;0x21;0x10;0xff;0xf3;0xd2];
    [0xcd;0x0c;0x13;0xec;0x5f;0x97;0x44;0x17];
    [0xc4;0xa7;0x7e;0x3d;0x64;0x5d;0x19;0x73];
    [0x60;0x81;0x4f;0xdc;0x22;0x2a;0x90;0x88];
    [0x46;0xee;0xb8;0x14;0xde;0x5e;0x0b;0xdb];
    [0xe0;0x32;0x3a;0x0a;0x49;0x06;0x24;0x5c];
    [0xc2;0xd3;0xac;0x62;0x91;0x95;0xe4;0x79];
    [0xe7;0xc8;0x37;0x6d;0x8d;0xd5;0x4e;0xa9];
    [0x6c;0x56;0xf4;0xea;0x65;0x7a;0xae;0x08];
    [0xba;0x78;0x25;0x2e;0x1c;0xa6;0xb4;0xc6];
    [0xe8;0xdd;0x74;0x1f;0x4b;0xbd;0x8b;0x8a];
    [0x70;0x3e;0xb5;0x66;0x48;0x03;0xf6;0x0e];
    [0x61;0x35;0x57;0xb9;0x86;0xc1;0x1d;0x9e];
    [0xe1;0xf8;0x98;0x11;0x69;0xd9;0x8e;0x94];
    [0x9b;0x1e;0x87;0xe9;0xce;0x55;0x28;0xdf];
    [0x8c;0xa1;0x89;0x0d;0xbf;0xe6;0x42;0x68];
    [0x41;0x99;0x2d;0x0f;0xb0;0x54;0xbb;0x16]
].

Definition INV_SBOX : list Z := concat [
    [0x52;0x09;0x6a;0xd5;0x30;0x36;0xa5;0x38];
    [0xbf;0x40;0xa3;0x9e;0x81;0xf3;0xd7;0xfb];
    [0x7c;0xe3;0x39;0x82;0x9b;0x2f;0xff;0x87];
    [0x34;0x8e;0x43;0x44;0xc4;0xde;0xe9;0xcb];
    [0x54;0x7b;0x94;0x32;0xa6;0xc2;0x23;0x3d];
    [0xee;0x4c;0x95;0x0b;0x42;0xfa;0xc3;0x4e];
    [0x08;0x2e;0xa1;0x66;0x28;0xd9;0x24;0xb2];
    [0x76;0x5b;0xa2;0x49;0x6d;0x8b;0xd1;0x25];
    [0x72;0xf8;0xf6;0x64;0x86;0x68;0x98;0x16];
    [0xd4;0xa4;0x5c;0xcc;0x5d;0x65;0xb6;0x92];
    [0x6c;0x70;0x48;0x50;0xfd;0xed;0xb9;0xda];
    [0x5e;0x15;0x46;0x57;0xa7;0x8d;0x9d;0x84];
    [0x90;0xd8;0xab;0x00;0x8c;0xbc;0xd3;0x0a];
    [0xf7;0xe4;0x58;0x05;0xb8;0xb3;0x45;0x06];
    [0xd0;0x2c;0x1e;0x8f;0xca;0x3f;0x0f;0x02];
    [0xc1;0xaf;0xbd;0x03;0x01;0x13;0x8a;0x6b];
    [0x3a;0x91;0x11;0x41;0x4f;0x67;0xdc;0xea];
    [0x97;0xf2;0xcf;0xce;0xf0;0xb4;0xe6;0x73];
    [0x96;0xac;0x74;0x22;0xe7;0xad;0x35;0x85];
    [0xe2;0xf9;0x37;0xe8;0x1c;0x75;0xdf;0x6e];
    [0x47;0xf1;0x1a;0x71;0x1d;0x29;0xc5;0x89];
    [0x6f;0xb7;0x62;0x0e;0xaa;0x18;0xbe;0x1b];
    [0xfc;0x56;0x3e;0x4b;0xc6;0xd2;0x79;0x20];
    [0x9a;0xdb;0xc0;0xfe;0x78;0xcd;0x5a;0xf4];
    [0x1f;0xdd;0xa8;0x33;0x88;0x07;0xc7;0x31];
    [0xb1;0x12;0x10;0x59;0x27;0x80;0xec;0x5f];
    [0x60;0x51;0x7f;0xa9;0x19;0xb5;0x4a;0x0d];
    [0x2d;0xe5;0x7a;0x9f;0x93;0xc9;0x9c;0xef];
    [0xa0;0xe0;0x3b;0x4d;0xae;0x2a;0xf5;0xb0];
    [0xc8;0xeb;0xbb;0x3c;0x83;0x53;0x99;0x61];
    [0x17;0x2b;0x04;0x7e;0xba;0x77;0xd6;0x26];
    [0xe1;0x69;0x14;0x63;0x55;0x21;0x0c;0x7d]
].

Definition RCON : list Z := [
    0x00;0x01;0x02;0x04;0x08;0x10;0x20;0x40;0x80;0x1b;0x36
].

Definition xtime (x : Z) : Z := u8 ((x .<< 1) ⊕ ((x .>> 7) * 0x1b)).

(** One pass of the loop of [gmul] on [(p, a, b)]. *)
Definition gmul_step (st : Z * Z * Z) : Z * Z * Z :=
  let '(p, a, b) := st in
  let p := if b .& 1 =? 0 then p else p ⊕ a in
  let hi := u8 (a .& 0x80) in
  let a := u8 (a .<< 1) in
  let a := if hi =? 0 then a else a ⊕ 0x1b in
  (p, a, u8 (b .>> 1)).

Definition gmul (a b : Z) : Z := (Nat.iter 8 gmul_step (0, a, b)).1.1.

(** ** Key schedule *)

(** The word [w + i * 4]. *)
Definition word (w : bytes) (i : nat) : bytes := take 4 (drop (i * 4) w).

(** The temporary word of schedule position [pos] in its group of [nk] words:
    rotated and substituted with the round constant at the start of a group,
    substituted in the middle of a 256-bit group. *)
Definition key_temp (t : bytes) (nk pos : nat) (rcon : Z) : bytes :=
  if (pos =? 0)%nat then
    [tbl SBOX (rd t 1) ⊕ rcon; tbl SBOX (rd t 2); tbl SBOX (rd t 3); tbl SBOX (rd t 0)]
  else if ((6 <? nk) && (pos =? 4))%nat then
    [tbl SBOX (rd t 0); tbl SBOX (rd t 1); tbl SBOX (rd t 2); tbl SBOX (rd t 3)]
  else t.

Definition xor4 (a t : bytes) : bytes :=
  [rd a 0 ⊕ rd t 0; rd a 1 ⊕ rd t 1; rd a 2 ⊕ rd t 2; rd a 3 ⊕ rd t 3].

(** The word the schedule must have at position [i]. *)
Definition next_word (w : bytes) (nk i : nat) : bytes :=
  xor4 (word w (i - nk)) (key_temp (word w (i - 1)) nk (i mod nk) (rd RCON (i / nk))).

Record aes_ctx_t := { rk : bytes; nr : nat }.

Definition total_words (nk : nat) : nat := 4 * (nk + 6 + 1).

Definition aes_setkey (key : bytes) (key_len : nat) : aes_ctx_t :=
  let nk := (key_len / 4)%nat in
  {| rk := fold_left (fun w i => w ++ next_word w nk i) (seq nk (total_words nk - nk))
             (take key_len key);
     nr := nk + 6 |}.

(** ** Block functions *)

Definition add_round_key (s k : bytes) : bytes := map (fun i => rd s i ⊕ rd k i) (seq 0 16).

Definition sub_bytes (t s : bytes) : bytes := map (tbl t) s.

(** [s[d] = s[a]] *)
Definition mov (d a : nat) (s : bytes) : bytes := <[d := rd s a]> s.

Definition shift_rows (s : bytes) : bytes :=
  let t := rd s 1 in
  let s := <[13%nat := t]> (mov 9 13 (mov 5 9 (mov 1 5 s))) in
  let t := rd s 2 in let s := <[10%nat := t]> (mov 2 10 s) in
  let t := rd s 6 in let s := <[14%nat := t]> (mov 6 14 s) in
  let t := rd s 15 in <[3%nat := t]> (mov 7 3 (mov 11 7 (mov 15 11 s))).

Definition inv_shift_rows (s : bytes) : bytes :=
  let t := rd s 13 in
  let s := <[1%nat := t]> (mov 5 1 (mov 9 5 (mov 13 9 s))) in
  let t := rd s 2 in let s := <[10%nat := t]> (mov 2 10 s) in
  let t := rd s 6 in let s := <[14%nat := t]> (mov 6 14 s) in
  let t := rd s 3 in <[15%nat := t]> (mov 11 15 (mov 7 11 (mov 3 7 s))).

Definition mix_column (a0 a1 a2 a3 : Z) : bytes :=
  [xtime a0 ⊕ (xtime a1 ⊕ a1) ⊕ a2 ⊕ a3;
   a0 ⊕ xtime a1 ⊕ (xtime a2 ⊕ a2) ⊕ a3;
   a0 ⊕ a1 ⊕ xtime a2 ⊕ (xtime a3 ⊕ a3);
   (xtime a0 ⊕ a0) ⊕ a1 ⊕ a2 ⊕ xtime a3].

Definition inv_mix_column (a0 a1 a2 a3 : Z) : bytes :=
  [gmul a0 14 ⊕ gmul a1 11 ⊕ gmul a2 13 ⊕ gmul a3 9;
   gmul a0 9 ⊕ gmul a1 14 ⊕ gmul a2 11 ⊕ gmul a3 13;
   gmul a0 13 ⊕ gmul a1 9 ⊕ gmul a2 14 ⊕ gmul a3 11;
   gmul a0 11 ⊕ gmul a1 13 ⊕ gmul a2 9 ⊕ gmul a3 14].

(** The loop over the four columns. *)
Definition columns (f : Z -> Z -> Z -> Z -> bytes) (s : bytes) : bytes :=
  flat_map (fun c => f (rd s (c * 4)) (rd s (c * 4 + 1)) (rd s (c * 4 + 2)) (rd s (c * 4 + 3)))
    (seq 0 4).

Definition round_key (ctx : aes_ctx_t) (round : nat) : bytes := drop (round * 16) (rk ctx).

Definition enc_round (ctx : aes_ctx_t) (s : bytes) (round : nat) : bytes :=
  let s := shift_rows (sub_bytes SBOX s) in
  let s := if (round =? nr ctx)%nat then s else columns mix_column s in
  add_round_key s (round_key ctx round).

Definition aes_encrypt_block (ctx : aes_ctx_t) (inp : bytes) : bytes :=
  fold_left (enc_round ctx) (seq 1 (nr ctx)) (add_round_key (take 16 inp) (rk ctx)).

Definition dec_round (ctx : aes_ctx_t) (s : bytes) (round : nat) : bytes :=
  let s := sub_bytes INV_SBOX (inv_shift_rows s) in
  let s := add_round_key s (round_key ctx round) in
  if (round =? 0)%nat then s else columns inv_mix_column s.

(** [for (round = nr - 1; round >= 0; round--)] *)
Definition aes_decrypt_block (ctx : aes_ctx_t) (inp : bytes) : bytes :=
  fold_left (dec_round ctx) (reverse (seq 0 (nr ctx)))
    (add_round_key (take 16 inp) (round_key ctx (nr ctx))).

Definition aes_cipher (key : bytes) (key_len : nat) : block_cipher_ctx_t :=
  let ctx := aes_setkey key key_len in
  {| encrypt b := Some (aes_encrypt_block ctx b); decrypt c := Some (aes_decrypt_block ctx c);
     block_size := 16 |}.

(** ** Recognising key material *)

Definition nk_ok (nk : nat) : bool := ((nk =? 4) || (nk =? 6) || (nk =? 8))%nat.

(** [prev[off]] of the inner loop, from [cur] and the later entries of [prev]. *)
Definition prev_step (nk : nat) (cur : list bytes) (b : nat) (prev : list bytes) (off : nat)
  : list bytes :=
  let wim1 := if (1 <=? off)%nat then nth (off - 1) cur [] else nth (nk - 1) prev [] in
  <[off := xor4 (nth off cur []) (key_temp wim1 nk off (rd RCON b))]> prev.

(** One pass of the outer loop: the group before [cur].  [prev[nk - 1]] is
    written before it is read, so its initial contents do not matter. *)
Definition prev_block (nk : nat) (cur : list bytes) (b : nat) : list bytes :=
  take nk (fold_left (prev_step nk cur b) (reverse (seq 0 nk)) (replicate 8 [])).

(** [None] is the return value 0. *)
Definition aes_master_from_window (key_len : nat) (window : bytes) (base_block : Z) : option bytes :=
  let nk := (key_len / 4)%nat in
  if negb (nk_ok nk) then None
  else if base_block <? 1 then None
  else
    let cur := map (word window) (seq 0 nk) in
    Some (concat (fold_left (prev_block nk) (reverse (seq 1 (Z.to_nat base_block))) cur)).

Definition aes_schedule_is_valid (schedule : bytes) (key_len : nat) : bool :=
  let nk := (key_len / 4)%nat in
  if negb (nk_ok nk) then false
  else forallb (fun i => bytes_eqb (word schedule i) (next_word schedule nk i))
         (seq nk (total_words nk - nk)).

(** [dst[0 .. len)]; a trailing part word is not copied. *)
Definition aes_word_byteswap (src : bytes) (len : nat) : bytes :=
  flat_map (fun i => [rd src (4 * i + 3); rd src (4 * i + 2); rd src (4 * i + 1); rd src (4 * i)])
    (seq 0 (len / 4)).

(** ** Field arithmetic *)

Lemma is_u_xtime x : is_u8 (xtime x).
Proof. apply is_u_u8. Qed.

Lemma top_bit x : is_u8 x -> x .>> 7 = 0 \/ x .>> 7 = 1.
Proof.
  intros H. rewrite Z.shiftr_div_pow2 by lia. unfold is_u in H.
  assert (0 <= x / 2 ^ 7 < 2) by (split; [apply Z.div_pos; lia|apply Z.div_lt_upper_bound; lia]). lia.
Qed.

Lemma xtime_lxor a b : is_u8 a -> is_u8 b -> xtime (a ⊕ b) = xtime a ⊕ xtime b.
Proof.
  intros Ha Hb. unfold xtime, u8. rewrite Z.shiftl_lxor, Z.shiftr_lxor.
  apply Z.bits_inj'. intros i Hi. rewrite !Z.lxor_spec, !Z.land_spec, !Z.lxor_spec.
  destruct (top_bit a Ha) as [-> | ->], (top_bit b Hb) as [-> | ->];
    change ((0 ⊕ 0) * 27) with 0; change ((0 ⊕ 1) * 27) with 27; change ((1 ⊕ 0) * 27) with 27;
    change ((1 ⊕ 1) * 27) with 0; change (0 * 27) with 0; change (1 * 27) with 27;
    rewrite ?Z.bits_0; btauto.
Qed.

Definition x2 (a : Z) : Z := xtime (xtime a).
Definition x3 (a : Z) : Z := xtime (x2 a).

(** The four constants of the inverse matrix, as sums of powers of [x]. *)
Lemma gmul_powers a : is_u8 a ->
  gmul a 9 = x3 a ⊕ a /\ gmul a 11 = x3 a ⊕ xtime a ⊕ a /\
  gmul a 13 = x3 a ⊕ x2 a ⊕ a /\ gmul a 14 = x3 a ⊕ x2 a ⊕ xtime a.
Proof.
  intros H. set (P a := (gmul a 9 =? x3 a ⊕ a) && (gmul a 11 =? x3 a ⊕ xtime a ⊕ a) &&
    (gmul a 13 =? x3 a ⊕ x2 a ⊕ a) && (gmul a 14 =? x3 a ⊕ x2 a ⊕ xtime a)).
  assert (HP : P a = true) by (apply forall_byte; [vm_compute; reflexivity|done]).
  unfold P in HP. bsimp. done.
Qed.

Ltac bytes_ok := repeat first [assumption|apply is_u_xtime|apply is_u_lxor; [lia| |]].

(** Push [xtime] to the leaves and compare bit by bit. *)
Ltac solve_linear :=
  unfold x3, x2; repeat (rewrite !xtime_lxor by bytes_ok);
  apply Z.bits_inj'; intros i Hi; rewrite !Z.lxor_spec; btauto.

Lemma mix_column_inverse a0 a1 a2 a3 : is_u8 a0 -> is_u8 a1 -> is_u8 a2 -> is_u8 a3 ->
  let m := mix_column a0 a1 a2 a3 in
  inv_mix_column (rd m 0) (rd m 1) (rd m 2) (rd m 3) = [a0; a1; a2; a3].
Proof.
  intros H0 H1 H2 H3 m. cbn [m mix_column rd nth]. unfold inv_mix_column.
  match goal with |- [gmul ?b0 _ ⊕ gmul ?b1 _ ⊕ gmul ?b2 _ ⊕ gmul ?b3 _; _; _; _] = _ =>
    destruct (gmul_powers b0 ltac:(bytes_ok)) as (-> & -> & -> & ->);
    destruct (gmul_powers b1 ltac:(bytes_ok)) as (-> & -> & -> & ->);
    destruct (gmul_powers b2 ltac:(bytes_ok)) as (-> & -> & -> & ->);
    destruct (gmul_powers b3 ltac:(bytes_ok)) as (-> & -> & -> & ->) end.
  repeat f_equal; solve_linear.
Qed.

Lemma is_u_gmul a k : is_u8 a -> k = 9 \/ k = 11 \/ k = 13 \/ k = 14 -> is_u8 (gmul a k).
Proof.
  intros H Hk. destruct (gmul_powers a H) as (E9 & E11 & E13 & E14).
  destruct Hk as [-> | [-> | [-> | ->]]]; rewrite ?E9, ?E11, ?E13, ?E14; unfold x3, x2; bytes_ok.
Qed.

Lemma inv_mix_column_inverse a0 a1 a2 a3 : is_u8 a0 -> is_u8 a1 -> is_u8 a2 -> is_u8 a3 ->
  let m := inv_mix_column a0 a1 a2 a3 in
  mix_column (rd m 0) (rd m 1) (rd m 2) (rd m 3) = [a0; a1; a2; a3].
Proof.
  intros H0 H1 H2 H3 m. cbn [m inv_mix_column rd nth]. unfold mix_column.
  destruct (gmul_powers a0 H0) as (-> & -> & -> & ->), (gmul_powers a1 H1) as (-> & -> & -> & ->),
    (gmul_powers a2 H2) as (-> & -> & -> & ->), (gmul_powers a3 H3) as (-> & -> & -> & ->).
  repeat f_equal; solve_linear.
Qed.

(** ** The layers of a round are inverse to each other *)

Ltac block_ok := split; [reflexivity|repeat (apply Forall_cons; split; [assumption|])]; constructor.

Lemma shift_rows_inverse s : is_block 16 s ->
  is_block 16 (shift_rows s) /\ inv_shift_rows (shift_rows s) = s.
Proof. intros H. split_block H. split; [block_ok|reflexivity]. Qed.

Lemma inv_shift_rows_inverse s : is_block 16 s ->
  is_block 16 (inv_shift_rows s) /\ shift_rows (inv_shift_rows s) = s.
Proof. intros H. split_block H. split; [block_ok|reflexivity]. Qed.

Lemma sbox_ok x : is_u8 x -> is_u8 (tbl SBOX x) /\ tbl INV_SBOX (tbl SBOX x) = x.
Proof. revert x. tables_inverse. Qed.

Lemma inv_sbox_ok x : is_u8 x -> is_u8 (tbl INV_SBOX x) /\ tbl SBOX (tbl INV_SBOX x) = x.
Proof. revert x. tables_inverse. Qed.

Lemma sub_bytes_inverse t t' s :
  (forall x, is_u8 x -> is_u8 (tbl t x) /\ tbl t' (tbl t x) = x) -> is_block 16 s ->
  is_block 16 (sub_bytes t s) /\ sub_bytes t' (sub_bytes t s) = s.
Proof.
  intros H [Hl Hs]. split.
  - split; [by rewrite <- Hl; apply length_map|]. apply Forall_fmap.
    eapply Forall_impl; [exact Hs|]. intros x Hx. apply (H x Hx).
  - clear Hl. induction Hs as [|x s Hx Hs IH]; [done|]. cbn. f_equal; [apply (H x Hx)|exact IH].
Qed.

Lemma columns_16 f a0 a1 a2 a3 b0 b1 b2 b3 c0 c1 c2 c3 d0 d1 d2 d3 :
  columns f [a0; a1; a2; a3; b0; b1; b2; b3; c0; c1; c2; c3; d0; d1; d2; d3] =
  f a0 a1 a2 a3 ++ f b0 b1 b2 b3 ++ f c0 c1 c2 c3 ++ f d0 d1 d2 d3 ++ [].
Proof. reflexivity. Qed.

Lemma columns_inverse (f g : Z -> Z -> Z -> Z -> bytes) s :
  (forall a b c d, is_u8 a -> is_u8 b -> is_u8 c -> is_u8 d ->
    is_block 4 (f a b c d) /\
    g (rd (f a b c d) 0) (rd (f a b c d) 1) (rd (f a b c d) 2) (rd (f a b c d) 3) = [a; b; c; d]) ->
  is_block 16 s -> is_block 16 (columns f s) /\ columns g (columns f s) = s.
Proof.
  intros Hfg H. split_block H.
  match goal with |- context [columns f [?a0; ?a1; ?a2; ?a3; ?b0; ?b1; ?b2; ?b3;
      ?c0; ?c1; ?c2; ?c3; ?d0; ?d1; ?d2; ?d3]] =>
    rewrite columns_16;
    destruct (Hfg a0 a1 a2 a3) as [[La Fa] Ga]; [assumption..|];
    destruct (Hfg b0 b1 b2 b3) as [[Lb Fb] Gb]; [assumption..|];
    destruct (Hfg c0 c1 c2 c3) as [[Lc Fc] Gc]; [assumption..|];
    destruct (Hfg d0 d1 d2 d3) as [[Ld Fd] Gd]; [assumption..|] end.
  split; [split; [rewrite !length_app, La, Lb, Lc, Ld; reflexivity|rewrite !Forall_app; repeat (split; [assumption|]); constructor]|].
  destruct (f _ _ _ _) as [|? [|? [|? [|? []]]]]; try discriminate La.
  destruct (f _ _ _ _) as [|? [|? [|? [|? []]]]]; try discriminate Lb.
  destruct (f _ _ _ _) as [|? [|? [|? [|? []]]]]; try discriminate Lc.
  destruct (f _ _ _ _) as [|? [|? [|? [|? []]]]]; try discriminate Ld.
  unfold rd in Ga, Gb, Gc, Gd. cbn [nth] in Ga, Gb, Gc, Gd.
  cbn [app]. by rewrite columns_16, Ga, Gb, Gc, Gd.
Qed.

Lemma columns_mix s : is_block 16 s ->
  is_block 16 (columns mix_column s) /\ columns inv_mix_column (columns mix_column s) = s.
Proof.
  apply columns_inverse. intros. split; [|by apply mix_column_inverse].
  split; [reflexivity|]. repeat (apply Forall_cons; split; [bytes_ok|]). constructor.
Qed.

Lemma columns_inv_mix s : is_block 16 s ->
  is_block 16 (columns inv_mix_column s) /\ columns mix_column (columns inv_mix_column s) = s.
Proof.
  apply columns_inverse. intros. split; [|by apply inv_mix_column_inverse].
  split; [reflexivity|].
  repeat (apply Forall_cons; split; [repeat first
    [apply is_u_gmul; [assumption|lia]|apply is_u_lxor; [lia| |]]|]). constructor.
Qed.

Lemma add_round_key_involutive s k : is_block 16 s -> is_bytes k ->
  is_block 16 (add_round_key s k) /\ add_round_key (add_round_key s k) k = s.
Proof.
  intros H Hk. assert (Hr : forall i, is_u8 (rd k i)) by (intros; by apply Mem.rd_byte).
  split_block H. split.
  - split; [reflexivity|]. unfold add_round_key. cbn [map seq].
    repeat (apply Forall_cons; split; [apply is_u_lxor; [lia|assumption|apply Hr]|]). constructor.
  - unfold add_round_key. cbn [map seq rd nth]. by rewrite !lxor_cancel_r.
Qed.

(** ** Encryption and decryption are inverse *)

#[local] Opaque shift_rows inv_shift_rows sub_bytes columns add_round_key.

Definition sub_shift (s : bytes) : bytes := shift_rows (sub_bytes SBOX s).
Definition unshift_sub (s : bytes) : bytes := sub_bytes INV_SBOX (inv_shift_rows s).

Lemma sub_shift_inverse s : is_block 16 s ->
  is_block 16 (sub_shift s) /\ unshift_sub (sub_shift s) = s.
Proof.
  intros H. destruct (sub_bytes_inverse SBOX INV_SBOX s sbox_ok H) as [H1 E1].
  destruct (shift_rows_inverse _ H1) as [H2 E2]. unfold unshift_sub, sub_shift. by rewrite E2.
Qed.

Lemma unshift_sub_inverse s : is_block 16 s ->
  is_block 16 (unshift_sub s) /\ sub_shift (unshift_sub s) = s.
Proof.
  intros H. destruct (inv_shift_rows_inverse s H) as [H1 E1].
  destruct (sub_bytes_inverse INV_SBOX SBOX _ inv_sbox_ok H1) as [H2 E2].
  unfold unshift_sub, sub_shift. by rewrite E2.
Qed.

Section Rounds.
Context (ctx : aes_ctx_t) (Hrk : is_bytes (rk ctx)).

Lemma ark s r : is_block 16 s ->
  is_block 16 (add_round_key s (round_key ctx r)) /\
  add_round_key (add_round_key s (round_key ctx r)) (round_key ctx r) = s.
Proof. intros. apply add_round_key_involutive; [done|]. by apply Forall_drop. Qed.

(** A round of encryption other than the last. *)
Definition enc_mid (s : bytes) (r : nat) : bytes :=
  add_round_key (columns mix_column (sub_shift s)) (round_key ctx r).

(** A round of decryption other than the last. *)
Definition dec_mid (s : bytes) (r : nat) : bytes :=
  columns inv_mix_column (add_round_key (unshift_sub s) (round_key ctx r)).

Lemma enc_mid_ok s r : is_block 16 s ->
  is_block 16 (enc_mid s r) /\ dec_mid (sub_shift (enc_mid s r)) r = sub_shift s.
Proof.
  intros H. destruct (sub_shift_inverse s H) as [H1 _].
  destruct (columns_mix _ H1) as [H2 E2]. destruct (ark _ r H2) as [H3 E3].
  split; [done|]. unfold dec_mid. rewrite (proj2 (sub_shift_inverse (enc_mid s r) H3)).
  unfold enc_mid.
  by rewrite E3.
Qed.

Lemma dec_mid_ok s r : is_block 16 s ->
  is_block 16 (dec_mid s r) /\ enc_mid (unshift_sub (dec_mid s r)) r = unshift_sub s.
Proof.
  intros H. destruct (unshift_sub_inverse s H) as [H1 _].
  destruct (ark _ r H1) as [H2 E2]. destruct (columns_inv_mix _ H2) as [H3 E3].
  split; [done|]. unfold enc_mid. rewrite (proj2 (unshift_sub_inverse (dec_mid s r) H3)).
  unfold dec_mid.
  by rewrite E3, E2.
Qed.

(** [n] middle rounds and the [n] rounds that undo them. *)
Lemma enc_mids n s : is_block 16 s ->
  is_block 16 (fold_left enc_mid (seq 1 n) s) /\
  fold_left dec_mid (reverse (seq 1 n)) (sub_shift (fold_left enc_mid (seq 1 n) s)) = sub_shift s.
Proof.
  intros H. induction n as [|n [IH1 IH2]]; [done|].
  rewrite !fold_seq_snoc, fold_rev_seq_cons.
  destruct (enc_mid_ok _ (1 + n) IH1) as [H1 H2]. split; [exact H1|]. rewrite H2. exact IH2.
Qed.

Lemma dec_mids n s : is_block 16 s ->
  is_block 16 (fold_left dec_mid (reverse (seq 1 n)) s) /\
  fold_left enc_mid (seq 1 n) (unshift_sub (fold_left dec_mid (reverse (seq 1 n)) s)) = unshift_sub s.
Proof.
  revert s. induction n as [|n IH]; intros s H; [done|].
  rewrite !fold_seq_snoc, !fold_rev_seq_cons.
  destruct (dec_mid_ok s (1 + n) H) as [H1 H2]. destruct (IH _ H1) as [H3 H4].
  split; [exact H3|]. rewrite H4. exact H2.
Qed.

(** The block functions as middle rounds and one last round. *)
Lemma aes_encrypt_eq b n : nr ctx = S n -> is_block 16 b ->
  aes_encrypt_block ctx b =
    add_round_key (sub_shift (fold_left enc_mid (seq 1 n) (add_round_key b (round_key ctx 0))))
      (round_key ctx (S n)).
Proof.
  intros Hn [Hl _]. unfold aes_encrypt_block. rewrite Hn, take_ge by lia.
  rewrite fold_seq_snoc. unfold enc_round at 1. rewrite Hn.
  change (1 + n)%nat with (S n). rewrite Nat.eqb_refl.
  rewrite (fold_left_ext (enc_round ctx) enc_mid); [reflexivity|].
  intros s r Hr%elem_of_seq. unfold enc_round. rewrite Hn.
  destruct (Nat.eqb_spec r (S n)); [lia|reflexivity].
Qed.

Lemma aes_decrypt_eq c n : nr ctx = S n -> is_block 16 c ->
  aes_decrypt_block ctx c =
    add_round_key (unshift_sub (fold_left dec_mid (reverse (seq 1 n))
      (add_round_key c (round_key ctx (S n))))) (round_key ctx 0).
Proof.
  intros Hn [Hl _]. unfold aes_decrypt_block. rewrite Hn, take_ge by lia.
  rewrite <- cons_seq, reverse_cons, fold_left_app.
  rewrite (fold_left_ext (dec_round ctx) dec_mid (reverse (seq 1 n))); [reflexivity|].
  intros s r Hr%elem_of_reverse%elem_of_seq. unfold dec_round.
  destruct (Nat.eqb_spec r 0); [lia|reflexivity].
Qed.

Lemma crypt_inverse_enc b n : nr ctx = S n -> is_block 16 b ->
  is_block 16 (aes_encrypt_block ctx b) /\
  aes_decrypt_block ctx (aes_encrypt_block ctx b) = b.
Proof.
  intros Hn Hb. rewrite (aes_encrypt_eq b n) by done.
  destruct (ark b 0 Hb) as [H0 E0]. destruct (enc_mids n _ H0) as [H1 E1].
  destruct (sub_shift_inverse _ H1) as [H2 _]. destruct (ark _ (S n) H2) as [H3 E3].
  split; [exact H3|]. rewrite (aes_decrypt_eq _ n Hn H3), E3, E1.
  rewrite (proj2 (sub_shift_inverse _ H0)). exact E0.
Qed.

Lemma crypt_inverse_dec c n : nr ctx = S n -> is_block 16 c ->
  is_block 16 (aes_decrypt_block ctx c) /\
  aes_encrypt_block ctx (aes_decrypt_block ctx c) = c.
Proof.
  intros Hn Hc. rewrite (aes_decrypt_eq c n) by done.
  destruct (ark c (S n) Hc) as [H0 E0]. destruct (dec_mids n _ H0) as [H1 E1].
  destruct (unshift_sub_inverse _ H1) as [H2 _]. destruct (ark _ 0 H2) as [H3 E3].
  split; [exact H3|]. rewrite (aes_encrypt_eq _ n Hn H3), E3, E1.
  rewrite (proj2 (unshift_sub_inverse _ H0)). exact E0.
Qed.
End Rounds.

(** ** The key schedule *)

#[local] Opaque SBOX RCON.

Lemma is_word_next w nk i : is_bytes w -> is_block 4 (next_word w nk i).
Proof.
  intros Hw. assert (Hb : forall j k, is_u8 (rd (word w j) k))
    by (intros; apply Mem.rd_byte, Forall_take, Forall_drop, Hw).
  assert (Hs : forall x, is_u8 (tbl SBOX x))
    by (intros; apply tbl_range; [lia|apply forall_u_check; vm_compute; reflexivity]).
  assert (Hr : is_u8 (rd RCON (i / nk)))
    by (apply Mem.rd_byte, forall_u_check; vm_compute; reflexivity).
  assert (Ht : forall j, is_u8 (rd (key_temp (word w (i - 1)) nk (i mod nk) (rd RCON (i / nk))) j)).
  { intros j. unfold key_temp. repeat case_match; [| |apply Hb]; apply Mem.rd_byte;
      repeat (apply Forall_cons; split);
      first [apply Hs|apply is_u_lxor; [lia|apply Hs|apply Hr]|constructor]. }
  split; [reflexivity|]. unfold next_word, xor4.
  repeat (apply Forall_cons; split; [apply is_u_lxor; [lia|apply Hb|apply Ht]|]). constructor.
Qed.

Lemma is_bytes_setkey key key_len : is_bytes key -> is_bytes (rk (aes_setkey key key_len)).
Proof.
  intros H. unfold aes_setkey. cbn [rk]. apply fold_left_ok; [|by apply Forall_take].
  intros w i _ Hw. apply Forall_app. split; [done|]. by apply is_word_next.
Qed.

#[global] Instance aes_block_cipher key key_len :
  is_bytes key -> BlockCipher (aes_cipher key key_len).
Proof.
  intros Hk. pose proof (is_bytes_setkey key key_len Hk) as Hrk.
  assert (Hn : exists n, nr (aes_setkey key key_len) = S n)
    by (exists (key_len / 4 + 5)%nat; cbn [nr aes_setkey]; lia).
  destruct Hn as [n Hn]. unfold aes_cipher. generalize dependent (aes_setkey key key_len).
  intros ctx Hrk Hn.
  apply (total_cipher (aes_encrypt_block ctx) (aes_decrypt_block ctx) 16); [by right|..]; intros b Hb.
  - by apply (crypt_inverse_enc ctx Hrk b n).
  - by apply (crypt_inverse_dec ctx Hrk b n).
Qed.

(** ** Recognising schedules *)

(** [w] follows the key schedule from word [nk] up to word [n]. *)
Definition sched (nk n : nat) (w : bytes) : Prop :=
  forall i, (nk <= i < n)%nat -> word w i = next_word w nk i.

Lemma word_app_l w x i : ((i + 1) * 4 <= length w)%nat -> word (w ++ x) i = word w i.
Proof.
  intros H. unfold word. rewrite drop_app_le by lia. rewrite take_app_le; [done|].
  rewrite length_drop. lia.
Qed.

Lemma word_app_r w x i : length w = (i * 4)%nat -> length x = 4%nat -> word (w ++ x) i = x.
Proof. intros Hw Hx. unfold word. rewrite drop_app_length' by done. by rewrite take_ge by lia. Qed.

Lemma next_word_app w x nk i :
  (1 <= nk)%nat -> (nk <= i)%nat -> (i * 4 <= length w)%nat ->
  next_word (w ++ x) nk i = next_word w nk i.
Proof. intros. unfold next_word. by rewrite !word_app_l by lia. Qed.

(** The expansion loop: its length, that it keeps the key, and the recurrence. *)
Lemma expand_spec nk m w0 :
  (1 <= nk)%nat -> length w0 = (nk * 4)%nat ->
  let w := fold_left (fun w i => w ++ next_word w nk i) (seq nk m) w0 in
  length w = ((nk + m) * 4)%nat /\ take (nk * 4) w = w0 /\ sched nk (nk + m) w.
Proof.
  intros Hnk Hw0. cbv zeta. induction m as [|m (IHl & IHt & IHs)].
  { cbn [seq fold_left]. rewrite Nat.add_0_r. split; [done|]. split; [by rewrite take_ge by lia|].
    intros i Hi. lia. }
  rewrite fold_seq_snoc. set (w := fold_left _ _ _) in *. clearbody w.
  assert (Hn : length (next_word w nk (nk + m)) = 4%nat) by done.
  split; [rewrite length_app, IHl, Hn; lia|]. split; [rewrite take_app_le by lia; done|].
  intros i Hi. rewrite next_word_app by lia. destruct (decide (i = nk + m)%nat) as [->|Hne].
  - by apply word_app_r; [lia|].
  - rewrite word_app_l by lia. apply IHs. lia.
Qed.

Lemma take_word w i : (i * 4 + 4 <= length w)%nat ->
  take ((i + 1) * 4) w = take (i * 4) w ++ word w i.
Proof.
  intros H. unfold word. rewrite <- (take_drop (i * 4) (take ((i + 1) * 4) w)).
  rewrite take_take, skipn_firstn_comm. do 2 f_equal; lia.
Qed.

(** The key determines a schedule that follows the recurrence. *)
Lemma sched_unique nk m w :
  (1 <= nk)%nat -> ((nk + m) * 4 <= length w)%nat -> sched nk (nk + m) w ->
  fold_left (fun w i => w ++ next_word w nk i) (seq nk m) (take (nk * 4) w) = take ((nk + m) * 4) w.
Proof.
  intros Hnk. induction m as [|m IH]; intros Hl Hs.
  { by rewrite Nat.add_0_r. }
  rewrite fold_seq_snoc, IH; [|lia|intros i Hi; apply Hs; lia].
  replace ((nk + S m) * 4)%nat with ((nk + m + 1) * 4)%nat by lia. rewrite take_word by lia.
  f_equal. rewrite (Hs (nk + m)%nat) by lia.
  rewrite <- (take_drop ((nk + m) * 4) w) at 2. by rewrite next_word_app by (rewrite ?length_take; lia).
Qed.

Lemma nk_cases key_len : nk_ok (key_len / 4) = true ->
  (key_len / 4 = 4 \/ key_len / 4 = 6 \/ key_len / 4 = 8)%nat.
Proof.
  unfold nk_ok. rewrite !orb_true_iff, !Nat.eqb_eq. tauto.
Qed.

(** ** Running the schedule backwards *)

Lemma xor4_cancel a t : length a = 4%nat -> xor4 (xor4 a t) t = a.
Proof.
  intros H. destruct a as [|a0 [|a1 [|a2 [|a3 [|]]]]]; try discriminate H.
  unfold xor4, rd. cbn [nth]. by rewrite !lxor_cancel_r.
Qed.

Lemma xor4_block a t : is_bytes a -> is_bytes t -> is_block 4 (xor4 a t).
Proof.
  intros Ha Ht. split; [done|]. unfold xor4.
  repeat apply Forall_cons_2; try done; apply is_u_lxor; try lia; by apply Mem.rd_byte.
Qed.

Lemma key_temp_bytes t nk pos b : is_bytes t -> is_bytes (key_temp t nk pos (rd RCON b)).
Proof.
  intros Ht. assert (Hs : forall x, is_u8 (tbl SBOX x))
    by (intros; apply tbl_range; [lia|apply forall_u_check; vm_compute; reflexivity]).
  assert (Hr : is_u8 (rd RCON b)) by (apply Mem.rd_byte, forall_u_check; vm_compute; reflexivity).
  unfold key_temp. destruct (pos =? 0)%nat; [|destruct (_ && _)%bool; [|done]];
    repeat apply Forall_cons_2; try done. apply is_u_lxor; [lia|apply Hs|done].
Qed.

#[local] Opaque xor4 key_temp.

(** The inner loop computes [P] when each entry follows from its neighbours. *)
Lemma prev_block_eq nk cur b (P : nat -> bytes) :
  (2 <= nk <= 8)%nat ->
  (forall off, (1 <= off < nk)%nat ->
    xor4 (nth off cur []) (key_temp (nth (off - 1) cur []) nk off (rd RCON b)) = P off) ->
  xor4 (nth 0 cur []) (key_temp (P (nk - 1)%nat) nk 0 (rd RCON b)) = P 0%nat ->
  prev_block nk cur b = map P (seq 0 nk).
Proof.
  intros Hnk H1 H0. unfold prev_block.
  assert (Hind : forall k m prev, (k + m = nk)%nat -> length prev = 8%nat ->
    (forall off, (k <= off < nk)%nat -> prev !! off = Some (P off)) ->
    let r := fold_left (prev_step nk cur b) (reverse (seq 0 k)) prev in
    length r = 8%nat /\ forall off, (off < nk)%nat -> r !! off = Some (P off)).
  { induction k as [|k IH]; intros m prev Hk Hl Hp; [split; [done|intros; apply Hp; lia]|].
    rewrite fold_rev_seq_cons. apply (IH (S m)); [lia|by unfold prev_step; rewrite length_insert|].
    cbn [Nat.add]. intros off Hoff. unfold prev_step.
    destruct (decide (off = k)) as [->|Hne]; [|rewrite list_lookup_insert_ne by done; apply Hp; lia].
    rewrite list_lookup_insert_eq by lia. f_equal.
    destruct (Nat.leb_spec 1 k); [by apply H1; lia|]. assert (k = 0)%nat as -> by lia.
    rewrite <- H0. do 2 f_equal. apply nth_lookup_Some. apply Hp. lia. }
  destruct (Hind nk 0%nat (replicate 8 [])) as [Hl Hp]; [lia|done|intros; lia|].
  apply list_eq. intros i. destruct (decide (i < nk)%nat).
  - rewrite lookup_take_lt, Hp by lia.
    rewrite list_lookup_fmap, lookup_seq_lt by lia. done.
  - rewrite !lookup_ge_None_2; [done|rewrite length_map, length_seq; lia|rewrite length_take; lia].
Qed.

(** The words of group [b]. *)
Definition group_words (w : bytes) (nk b : nat) : list bytes :=
  map (fun i => word w (b * nk + i)) (seq 0 nk).

Lemma nth_group w nk b off : (off < nk)%nat -> nth off (group_words w nk b) [] = word w (b * nk + off).
Proof.
  intros H. unfold group_words.
  apply nth_lookup_Some. rewrite list_lookup_fmap, lookup_seq_lt by done. done.
Qed.

Lemma prev_block_group w nk n b :
  (2 <= nk <= 8)%nat -> (1 <= b)%nat -> ((b + 1) * nk <= n)%nat -> (n * 4 <= length w)%nat ->
  sched nk n w -> prev_block nk (group_words w nk b) b = group_words w nk (b - 1).
Proof.
  intros Hnk Hb Hn Hl Hs.
  assert (Hw : forall i, (i < n)%nat -> length (word w i) = 4%nat)
    by (intros; unfold word; rewrite length_take, length_drop; lia).
  assert (Hstep : forall off, (off < nk)%nat ->
    xor4 (word w (b * nk + off)) (key_temp (word w (b * nk + off - 1)) nk off (rd RCON b)) =
    word w ((b - 1) * nk + off)).
  { intros off Hoff. rewrite (Hs (b * nk + off)%nat) by nia. unfold next_word.
    replace ((b * nk + off) mod nk)%nat with off
      by (rewrite Nat.add_comm, Nat.Div0.mod_add, Nat.mod_small; lia).
    replace ((b * nk + off) / nk)%nat with b
      by (rewrite Nat.div_add_l, Nat.div_small; lia).
    replace (b * nk + off - nk)%nat with ((b - 1) * nk + off)%nat by nia.
    apply xor4_cancel, Hw. nia. }
  apply (prev_block_eq nk _ b (fun off => word w ((b - 1) * nk + off))); [done|..].
  - intros off Hoff. rewrite !nth_group by lia. etrans; [|by apply Hstep; lia]. do 3 f_equal. lia.
  - rewrite nth_group by lia. etrans; [|by apply Hstep; lia]. do 3 f_equal. nia.
Qed.

Lemma prev_blocks w nk n b :
  (2 <= nk <= 8)%nat -> ((b + 1) * nk <= n)%nat -> (n * 4 <= length w)%nat -> sched nk n w ->
  fold_left (prev_block nk) (reverse (seq 1 b)) (group_words w nk b) = group_words w nk 0.
Proof.
  intros Hnk Hn Hl Hs. induction b as [|b IH]; [done|].
  rewrite fold_rev_seq_cons. change (1 + b)%nat with (S b).
  rewrite (prev_block_group w nk n (S b)) by (done || lia).
  replace (S b - 1)%nat with b by lia. apply IH. lia.
Qed.

Definition word_list (nk : nat) (l : list bytes) : Prop := length l = nk /\ Forall (is_block 4) l.

Lemma word_list_nth nk l i : word_list nk l -> is_bytes (nth i l []).
Proof.
  intros [_ Hl]. destruct (nth_lookup_or_length l i []) as [H|H].
  - rewrite Forall_lookup in Hl. by apply Hl in H as [_ ?].
  - rewrite nth_overflow by done. constructor.
Qed.

Lemma prev_block_words nk cur b : (2 <= nk <= 8)%nat -> word_list nk cur -> word_list nk (prev_block nk cur b).
Proof.
  intros Hnk Hc. pose proof (word_list_nth nk cur) as Hn.
  set (Q off := xor4 (nth off cur []) (key_temp (nth (off - 1) cur []) nk off (rd RCON b))).
  set (P off := if (off =? 0)%nat then xor4 (nth 0 cur []) (key_temp (Q (nk - 1)%nat) nk 0 (rd RCON b)) else Q off).
  assert (HQ : forall off, is_block 4 (Q off))
    by (intros; apply xor4_block; [by apply Hn|by apply key_temp_bytes, Hn]).
  rewrite (prev_block_eq nk cur b P Hnk).
  - split; [by rewrite length_map, length_seq|]. apply Forall_forall. intros w (i & -> & _)%list_elem_of_fmap.
    unfold P. destruct (i =? 0)%nat; [|apply HQ]. apply xor4_block; [by apply Hn|]. apply key_temp_bytes, HQ.
  - intros off Hoff. unfold P. destruct (Nat.eqb_spec off 0); [lia|done].
  - unfold P. destruct (Nat.eqb_spec (nk - 1) 0); [lia|done].
Qed.

Lemma concat_word_list nk l : word_list nk l -> is_block (4 * nk) (concat l).
Proof.
  intros [<- H]. induction H as [|w l [Hw Hb] H [IHl IHb]]; [by split|].
  cbn [concat length]. split; [rewrite length_app; lia|by apply Forall_app].
Qed.

Lemma master_from_window_block key_len window b k :
  (key_len = 16 \/ key_len = 24 \/ key_len = 32)%nat -> length window = key_len -> is_bytes window ->
  aes_master_from_window key_len window b = Some k -> is_block key_len k.
Proof.
  intros Hkl Hl Hb H. unfold aes_master_from_window in H.
  destruct (negb (nk_ok _)); [done|]. destruct (b <? 1); [done|]. injection H as <-.
  assert (Hnk : (2 <= key_len / 4 <= 8 /\ 4 * (key_len / 4) = key_len)%nat)
    by (destruct Hkl as [->|[->| ->]]; cbn; lia).
  destruct Hnk as [Hnk H4]. rewrite <- H4 at 1. apply concat_word_list.
  apply (fold_left_ok (prev_block (key_len / 4)) (word_list (key_len / 4))).
  - intros cur i _ Hc. by apply prev_block_words.
  - split; [by rewrite length_map, length_seq|]. apply Forall_forall. intros w (i & -> & Hi)%list_elem_of_fmap.
    apply elem_of_seq in Hi. split; [|by apply Forall_take, Forall_drop].
    unfold word. rewrite length_take, length_drop. lia.
Qed.

Lemma concat_words w m : (m * 4 <= length w)%nat ->
  concat (map (word w) (seq 0 m)) = take (m * 4) w.
Proof.
  induction m as [|m IH]; intros H; [done|].
  rewrite seq_S, map_app, concat_app, IH by lia. cbn [map concat Nat.add]. rewrite app_nil_r.
  replace (S m * 4)%nat with ((m + 1) * 4)%nat by lia. by rewrite take_word by lia.
Qed.

(** The expansion of a key of 16, 24 or 32 bytes. *)
Lemma setkey_spec key key_len :
  (key_len = 16 \/ key_len = 24 \/ key_len = 32)%nat -> (key_len <= length key)%nat ->
  let w := rk (aes_setkey key key_len) in
  length w = (total_words (key_len / 4) * 4)%nat /\ take key_len w = take key_len key /\
  sched (key_len / 4) (total_words (key_len / 4)) w.
Proof.
  intros Hk Hl. unfold aes_setkey. cbn [rk].
  destruct (expand_spec (key_len / 4) (total_words (key_len / 4) - key_len / 4) (take key_len key))
    as (H1 & H2 & H3).
  { destruct Hk as [-> | [-> | ->]]; vm_compute; lia. }
  { rewrite length_take, Nat.min_l by done. destruct Hk as [-> | [-> | ->]]; reflexivity. }
  cbv zeta in *. set (w := fold_left _ _ _) in *. clearbody w.
  destruct Hk as [-> | [-> | ->]]; exact (conj H1 (conj H2 H3)).
Qed.

(** A buffer that begins with a key schedule passes the test. *)
Lemma schedule_prefix_valid key key_len rest :
  (key_len = 16 \/ key_len = 24 \/ key_len = 32)%nat -> (key_len <= length key)%nat ->
  aes_schedule_is_valid (rk (aes_setkey key key_len) ++ rest) key_len = true.
Proof.
  intros Hk Hl. destruct (setkey_spec key key_len Hk Hl) as (Hw & _ & Hs). unfold aes_schedule_is_valid.
  assert (Hok : nk_ok (key_len / 4) = true) by (by destruct Hk as [-> | [-> | ->]]).
  assert (H1 : (1 <= key_len / 4)%nat) by (destruct Hk as [-> | [-> | ->]]; vm_compute; lia).
  rewrite Hok. cbn [negb]. apply forallb_forall. intros i Hi%in_seq. apply bool_decide_eq_true.
  rewrite word_app_l, next_word_app by lia. apply Hs. lia.
Qed.

(** The schedule test accepts exactly the expansions. A buffer of
    the schedule's size is accepted if and only if it is what [aes_setkey]
    computes from its own first [key_len] bytes. *)
Theorem aes_schedule_valid_iff schedule key_len :
  (key_len = 16 \/ key_len = 24 \/ key_len = 32)%nat ->
  length schedule = (total_words (key_len / 4) * 4)%nat ->
  aes_schedule_is_valid schedule key_len = true <-> schedule = rk (aes_setkey schedule key_len).
Proof.
  intros Hk Hl. assert (Hok : nk_ok (key_len / 4) = true) by (by destruct Hk as [-> | [-> | ->]]).
  assert (Hle : (key_len <= length schedule)%nat)
    by (rewrite Hl; destruct Hk as [-> | [-> | ->]]; vm_compute; lia).
  unfold aes_schedule_is_valid. rewrite Hok. cbn [negb]. rewrite forallb_forall. split.
  - intros H. assert (Hs : sched (key_len / 4) (total_words (key_len / 4)) schedule).
    { intros i Hi. specialize (H i ltac:(apply in_seq; lia)). by apply bool_decide_eq_true in H. }
    unfold aes_setkey. cbn [rk].
    pose proof (sched_unique (key_len / 4) (total_words (key_len / 4) - key_len / 4) schedule) as U.
    rewrite (take_ge schedule ((key_len / 4 + _) * 4)) in U by (rewrite Hl; unfold total_words; lia).
    replace (key_len / 4 * 4)%nat with key_len in U by (by destruct Hk as [-> | [-> | ->]]).
    symmetry. apply U.
    + destruct Hk as [-> | [-> | ->]]; vm_compute; lia.
    + rewrite Hl. unfold total_words. lia.
    + by replace (key_len / 4 + (total_words (key_len / 4) - key_len / 4))%nat
        with (total_words (key_len / 4)) by (unfold total_words; lia).
  - intros E i Hi%in_seq. apply bool_decide_eq_true. rewrite E.
    destruct (setkey_spec schedule key_len Hk Hle) as (_ & _ & Hs). apply Hs. lia.
Qed.

Definition demo_key : bytes := map Z.of_nat (seq 0 16).

Lemma aes_schedule_valid_iff_witness :
  aes_schedule_is_valid (rk (aes_setkey demo_key 16)) 16 = true.
Proof.
  apply (aes_schedule_valid_iff (rk (aes_setkey demo_key 16)) 16); [by left|vm_compute; reflexivity|].
  vm_compute. reflexivity.
Defined.

(** Any full group of a key schedule gives the key back. From the
    [key_len] bytes found at group [b] of the expansion, [aes_master_from_window]
    recovers the key itself. *)
Theorem aes_master_from_window_inverts key key_len b :
  (key_len = 16 \/ key_len = 24 \/ key_len = 32)%nat -> length key = key_len ->
  (1 <= b)%nat -> ((b + 1) * (key_len / 4) <= total_words (key_len / 4))%nat ->
  aes_master_from_window key_len (take key_len (drop (b * key_len) (rk (aes_setkey key key_len))))
    (Z.of_nat b) = Some key.
Proof.
  intros Hk Hl Hb Hw. set (nk := (key_len / 4)%nat) in *.
  assert (Hnk : (key_len = nk * 4 /\ 4 <= nk <= 8)%nat)
    by (subst nk; destruct Hk as [-> | [-> | ->]]; vm_compute; lia).
  assert (Hok : nk_ok nk = true) by (subst nk; by destruct Hk as [-> | [-> | ->]]).
  destruct (setkey_spec key key_len Hk ltac:(lia)) as (H1 & H2 & H3). fold nk in H1, H3.
  set (w := rk _) in *. clearbody w.
  unfold aes_master_from_window. fold nk. rewrite Hok. cbn [negb].
  destruct (Z.ltb_spec (Z.of_nat b) 1); [lia|]. rewrite Nat2Z.id. f_equal.
  replace (map (word _) (seq 0 nk)) with (group_words w nk b).
  - rewrite (prev_blocks w nk (total_words nk) b) by (done || lia).
    unfold group_words. cbn [Nat.mul Nat.add]. rewrite concat_words by lia.
    replace (nk * 4)%nat with key_len by lia. rewrite H2. by rewrite take_ge by lia.
  - unfold group_words. apply map_ext_in. intros i Hi%in_seq. unfold word.
    rewrite skipn_firstn_comm, take_take, drop_drop. f_equal; [lia|]. f_equal. nia.
Qed.

Lemma aes_master_from_window_inverts_witness :
  aes_master_from_window 16 (take 16 (drop 160 (rk (aes_setkey demo_key 16)))) 10 = Some demo_key.
Proof.
  apply (aes_master_from_window_inverts demo_key 16 10); [by left|reflexivity|lia|vm_compute; lia].
Defined.

(** FIPS 197, appendix C. *)
Example aes_vector_128 :
  let key := map Z.of_nat (seq 0 16) in
  let pt := map (fun i => Z.of_nat i * 17) (seq 0 16) in
  let ct := [0x69;0xc4;0xe0;0xd8;0x6a;0x7b;0x04;0x30;0xd8;0xcd;0xb7;0x80;0x70;0xb4;0xc5;0x5a] in
  aes_encrypt_block (aes_setkey key 16) pt = ct /\ aes_decrypt_block (aes_setkey key 16) ct = pt.
Proof. vm_compute. split; reflexivity. Qed.

Example aes_vector_256 :
  let key := map Z.of_nat (seq 0 32) in
  let pt := map (fun i => Z.of_nat i * 17) (seq 0 16) in
  aes_encrypt_block (aes_setkey key 32) pt =
    [0x8e;0xa2;0xb7;0xca;0x51;0x67;0x45;0xbf;0xea;0xfc;0x49;0x90;0x4b;0x49;0x60;0x89].
Proof. vm_compute. reflexivity. Qed.

End Aes.
