(* ===== verification/Aria.v ===== *)
(** * ARIA

    engine/ciphers/aria.c.  The arrays [uint32_t d[4]] are quads; [ctx->ek] and
    [ctx->dk] are lists of quads, one per round key.  Decryption is the same
    network under the dual keys, and the proof uses just that: the diffusion
    layer is a linear involution and the two substitution layers are inverse. *)

From Stdlib Require Import Btauto.
From S2P Require Import Prelude Mem CipherCommon.

Module Aria.

Definition S1 : list Z := concat [
    [0x63;0x7C;0x77;0x7B;0xF2;0x6B;0x6F;0xC5];
    [0x30;0x01;0x67;0x2B;0xFE;0xD7;0xAB;0x76];
    [0xCA;0x82;0xC9;0x7D;0xFA;0x59;0x47;0xF0];
    [0xAD;0xD4;0xA2;0xAF;0x9C;0xA4;0x72;0xC0];
    [0xB7;0xFD;0x93;0x26;0x36;0x3F;0xF7;0xCC];
    [0x34;0xA5;0xE5;0xF1;0x71;0xD8;0x31;0x15];
    [0x04;0xC7;0x23;0xC3;0x18;0x96;0x05;0x9A];
    [0x07;0x12;0x80;0xE2;0xEB;0x27;0xB2;0x75];
    [0x09;0x83;0x2C;0x1A;0x1B;0x6E;0x5A;0xA0];
    [0x52;0x3B;0xD6;0xB3;0x29;0xE3;0x2F;0x84];
    [0x53;0xD1;0x00;0xED;0x20;0xFC;0xB1;0x5B];
    [0x6A;0xCB;0xBE;0x39;0x4A;0x4C;0x58;0xCF];
    [0xD0;0xEF;0xAA;0xFB;0x43;0x4D;0x33;0x85];
    [0x45;0xF9;0x02;0x7F;0x50;0x3C;0x9F;0xA8];
    [0x51;0xA3;0x40;0x8F;0x92;0x9D;0x38;0xF5];
    [0xBC;0xB6;0xDA;0x21;0x10;0xFF;0xF3;0xD2];
    [0xCD;0x0C;0x13;0xEC;0x5F;0x97;0x44;0x17];
    [0xC4;0xA7;0x7E;0x3D;0x64;0x5D;0x19;0x73];
    [0x60;0x81;0x4F;0xDC;0x22;0x2A;0x90;0x88];
    [0x46;0xEE;0xB8;0x14;0xDE;0x5E;0x0B;0xDB];
    [0xE0;0x32;0x3A;0x0A;0x49;0x06;0x24;0x5C];
    [0xC2;0xD3;0xAC;0x62;0x91;0x95;0xE4;0x79];
    [0xE7;0xC8;0x37;0x6D;0x8D;0xD5;0x4E;0xA9];
    [0x6C;0x56;0xF4;0xEA;0x65;0x7A;0xAE;0x08];
    [0xBA;0x78;0x25;0x2E;0x1C;0xA6;0xB4;0xC6];
    [0xE8;0xDD;0x74;0x1F;0x4B;0xBD;0x8B;0x8A];
    [0x70;0x3E;0xB5;0x66;0x48;0x03;0xF6;0x0E];
    [0x61;0x35;0x57;0xB9;0x86;0xC1;0x1D;0x9E];
    [0xE1;0xF8;0x98;0x11;0x69;0xD9;0x8E;0x94];
    [0x9B;0x1E;0x87;0xE9;0xCE;0x55;0x28;0xDF];
    [0x8C;0xA1;0x89;0x0D;0xBF;0xE6;0x42;0x68];
    [0x41;0x99;0x2D;0x0F;0xB0;0x54;0xBB;0x16]
].

Definition S2 : list Z := concat [
    [0xE2;0x4E;0x54;0xFC;0x94;0xC2;0x4A;0xCC];
    [0x62;0x0D;0x6A;0x46;0x3C;0x4D;0x8B;0xD1];
    [0x5E;0xFA;0x64;0xCB;0xB4;0x97;0xBE;0x2B];
    [0xBC;0x77;0x2E;0x03;0xD3;0x19;0x59;0xC1];
    [0x1D;0x06;0x41;0x6B;0x55;0xF0;0x99;0x69];
    [0xEA;0x9C;0x18;0xAE;0x63;0xDF;0xE7;0xBB];
    [0x00;0x73;0x66;0xFB;0x96;0x4C;0x85;0xE4];
    [0x3A;0x09;0x45;0xAA;0x0F;0xEE;0x10;0xEB];
    [0x2D;0x7F;0xF4;0x29;0xAC;0xCF;0xAD;0x91];
    [0x8D;0x78;0xC8;0x95;0xF9;0x2F;0xCE;0xCD];
    [0x08;0x7A;0x88;0x38;0x5C;0x83;0x2A;0x28];
    [0x47;0xDB;0xB8;0xC7;0x93;0xA4;0x12;0x53];
    [0xFF;0x87;0x0E;0x31;0x36;0x21;0x58;0x48];
    [0x01;0x8E;0x37;0x74;0x32;0xCA;0xE9;0xB1];
    [0xB7;0xAB;0x0C;0xD7;0xC4;0x56;0x42;0x26];
    [0x07;0x98;0x60;0xD9;0xB6;0xB9;0x11;0x40];
    [0xEC;0x20;0x8C;0xBD;0xA0;0xC9;0x84;0x04];
    [0x49;0x23;0xF1;0x4F;0x50;0x1F;0x13;0xDC];
    [0xD8;0xC0;0x9E;0x57;0xE3;0xC3;0x7B;0x65];
    [0x3B;0x02;0x8F;0x3E;0xE8;0x25;0x92;0xE5];
    [0x15;0xDD;0xFD;0x17;0xA9;0xBF;0xD4;0x9A];
    [0x7E;0xC5;0x39;0x67;0xFE;0x76;0x9D;0x43];
    [0xA7;0xE1;0xD0;0xF5;0x68;0xF2;0x1B;0x34];
    [0x70;0x05;0xA3;0x8A;0xD5;0x79;0x86;0xA8];
    [0x30;0xC6;0x51;0x4B;0x1E;0xA6;0x27;0xF6];
    [0x35;0xD2;0x6E;0x24;0x16;0x82;0x5F;0xDA];
    [0xE6;0x75;0xA2;0xEF;0x2C;0xB2;0x1C;0x9F];
    [0x5D;0x6F;0x80;0x0A;0x72;0x44;0x9B;0x6C];
    [0x90;0x0B;0x5B;0x33;0x7D;0x5A;0x52;0xF3];
    [0x61;0xA1;0xF7;0xB0;0xD6;0x3F;0x7C;0x6D];
    [0xED;0x14;0xE0;0xA5;0x3D;0x22;0xB3;0xF8];
    [0x89;0xDE;0x71;0x1A;0xAF;0xBA;0xB5;0x81]
].

Definition S1_inv : list Z := concat [
    [0x52;0x09;0x6A;0xD5;0x30;0x36;0xA5;0x38];
    [0xBF;0x40;0xA3;0x9E;0x81;0xF3;0xD7;0xFB];
    [0x7C;0xE3;0x39;0x82;0x9B;0x2F;0xFF;0x87];
    [0x34;0x8E;0x43;0x44;0xC4;0xDE;0xE9;0xCB];
    [0x54;0x7B;0x94;0x32;0xA6;0xC2;0x23;0x3D];
    [0xEE;0x4C;0x95;0x0B;0x42;0xFA;0xC3;0x4E];
    [0x08;0x2E;0xA1;0x66;0x28;0xD9;0x24;0xB2];
    [0x76;0x5B;0xA2;0x49;0x6D;0x8B;0xD1;0x25];
    [0x72;0xF8;0xF6;0x64;0x86;0x68;0x98;0x16];
    [0xD4;0xA4;0x5C;0xCC;0x5D;0x65;0xB6;0x92];
    [0x6C;0x70;0x48;0x50;0xFD;0xED;0xB9;0xDA];
    [0x5E;0x15;0x46;0x57;0xA7;0x8D;0x9D;0x84];
    [0x90;0xD8;0xAB;0x00;0x8C;0xBC;0xD3;0x0A];
    [0xF7;0xE4;0x58;0x05;0xB8;0xB3;0x45;0x06];
    [0xD0;0x2C;0x1E;0x8F;0xCA;0x3F;0x0F;0x02];
    [0xC1;0xAF;0xBD;0x03;0x01;0x13;0x8A;0x6B];
    [0x3A;0x91;0x11;0x41;0x4F;0x67;0xDC;0xEA];
    [0x97;0xF2;0xCF;0xCE;0xF0;0xB4;0xE6;0x73];
    [0x96;0xAC;0x74;0x22;0xE7;0xAD;0x35;0x85];
    [0xE2;0xF9;0x37;0xE8;0x1C;0x75;0xDF;0x6E];
    [0x47;0xF1;0x1A;0x71;0x1D;0x29;0xC5;0x89];
    [0x6F;0xB7;0x62;0x0E;0xAA;0x18;0xBE;0x1B];
    [0xFC;0x56;0x3E;0x4B;0xC6;0xD2;0x79;0x20];
    [0x9A;0xDB;0xC0;0xFE;0x78;0xCD;0x5A;0xF4];
    [0x1F;0xDD;0xA8;0x33;0x88;0x07;0xC7;0x31];
    [0xB1;0x12;0x10;0x59;0x27;0x80;0xEC;0x5F];
    [0x60;0x51;0x7F;0xA9;0x19;0xB5;0x4A;0x0D];
    [0x2D;0xE5;0x7A;0x9F;0x93;0xC9;0x9C;0xEF];
    [0xA0;0xE0;0x3B;0x4D;0xAE;0x2A;0xF5;0xB0];
    [0xC8;0xEB;0xBB;0x3C;0x83;0x53;0x99;0x61];
    [0x17;0x2B;0x04;0x7E;0xBA;0x77;0xD6;0x26];
    [0xE1;0x69;0x14;0x63;0x55;0x21;0x0C;0x7D]
].

Definition S2_inv : list Z := concat [
    [0x30;0x68;0x99;0x1B;0x87;0xB9;0x21;0x78];
    [0x50;0x39;0xDB;0xE1;0x72;0x09;0x62;0x3C];
    [0x3E;0x7E;0x5E;0x8E;0xF1;0xA0;0xCC;0xA3];
    [0x2A;0x1D;0xFB;0xB6;0xD6;0x20;0xC4;0x8D];
    [0x81;0x65;0xF5;0x89;0xCB;0x9D;0x77;0xC6];
    [0x57;0x43;0x56;0x17;0xD4;0x40;0x1A;0x4D];
    [0xC0;0x63;0x6C;0xE3;0xB7;0xC8;0x64;0x6A];
    [0x53;0xAA;0x38;0x98;0x0C;0xF4;0x9B;0xED];
    [0x7F;0x22;0x76;0xAF;0xDD;0x3A;0x0B;0x58];
    [0x67;0x88;0x06;0xC3;0x35;0x0D;0x01;0x8B];
    [0x8C;0xC2;0xE6;0x5F;0x02;0x24;0x75;0x93];
    [0x66;0x1E;0xE5;0xE2;0x54;0xD8;0x10;0xCE];
    [0x7A;0xE8;0x08;0x2C;0x12;0x97;0x32;0xAB];
    [0xB4;0x27;0x0A;0x23;0xDF;0xEF;0xCA;0xD9];
    [0xB8;0xFA;0xDC;0x31;0x6B;0xD1;0xAD;0x19];
    [0x49;0xBD;0x51;0x96;0xEE;0xE4;0xA8;0x41];
    [0xDA;0xFF;0xCD;0x55;0x86;0x36;0xBE;0x61];
    [0x52;0xF8;0xBB;0x0E;0x82;0x48;0x69;0x9A];
    [0xE0;0x47;0x9E;0x5C;0x04;0x4B;0x34;0x15];
    [0x79;0x26;0xA7;0xDE;0x29;0xAE;0x92;0xD7];
    [0x84;0xE9;0xD2;0xBA;0x5D;0xF3;0xC5;0xB0];
    [0xBF;0xA4;0x3B;0x71;0x44;0x46;0x2B;0xFC];
    [0xEB;0x6F;0xD5;0xF6;0x14;0xFE;0x7C;0x70];
    [0x5A;0x7D;0xFD;0x2F;0x18;0x83;0x16;0xA5];
    [0x91;0x1F;0x05;0x95;0x74;0xA9;0xC1;0x5B];
    [0x4A;0x85;0x6D;0x13;0x07;0x4F;0x4E;0x45];
    [0xB2;0x0F;0xC9;0x1C;0xA6;0xBC;0xEC;0x73];
    [0x90;0x7B;0xCF;0x59;0x8F;0xA1;0xF9;0x2D];
    [0xF2;0xB1;0x00;0x94;0x37;0x9F;0xD0;0x2E];
    [0x9C;0x6E;0x28;0x3F;0x80;0xF0;0x3D;0xD3];
    [0x25;0x8A;0xB5;0xE7;0x42;0xB3;0xC7;0xEA];
    [0xF7;0x4C;0x11;0x33;0x03;0xA2;0xAC;0x60]
].

Definition C1 : quad := (0x517CC1B7, 0x27220A94, 0xFE13ABE8, 0xFA9A6EE0).
Definition C2 : quad := (0x6DB14ACC, 0x9E21C820, 0xFF28B1D5, 0xEF5DE2B0).
Definition C3 : quad := (0xDB92371D, 0x2126E970, 0x03249775, 0x04E8C90E).

Definition xor128 (a b : quad) : quad :=
  let '(a0, a1, a2, a3) := a in let '(b0, b1, b2, b3) := b in
  (a0 ⊕ b0, a1 ⊕ b1, a2 ⊕ b2, a3 ⊕ b3).

Definition sub_odd (s : bytes) : bytes :=
  [tbl S1 (rd s 0); tbl S2 (rd s 1); tbl S1_inv (rd s 2); tbl S2_inv (rd s 3);
   tbl S1 (rd s 4); tbl S2 (rd s 5); tbl S1_inv (rd s 6); tbl S2_inv (rd s 7);
   tbl S1 (rd s 8); tbl S2 (rd s 9); tbl S1_inv (rd s 10); tbl S2_inv (rd s 11);
   tbl S1 (rd s 12); tbl S2 (rd s 13); tbl S1_inv (rd s 14); tbl S2_inv (rd s 15)].

Definition sub_even (s : bytes) : bytes :=
  [tbl S1_inv (rd s 0); tbl S2_inv (rd s 1); tbl S1 (rd s 2); tbl S2 (rd s 3);
   tbl S1_inv (rd s 4); tbl S2_inv (rd s 5); tbl S1 (rd s 6); tbl S2 (rd s 7);
   tbl S1_inv (rd s 8); tbl S2_inv (rd s 9); tbl S1 (rd s 10); tbl S2 (rd s 11);
   tbl S1_inv (rd s 12); tbl S2_inv (rd s 13); tbl S1 (rd s 14); tbl S2 (rd s 15)].

Definition diff_layer (d : bytes) : bytes :=
  let d i := rd d i in
  [d 3%nat ⊕ d 4%nat ⊕ d 6%nat ⊕ d 8%nat ⊕ d 9%nat ⊕ d 13%nat ⊕ d 14%nat;
   d 2%nat ⊕ d 5%nat ⊕ d 7%nat ⊕ d 8%nat ⊕ d 9%nat ⊕ d 12%nat ⊕ d 15%nat;
   d 1%nat ⊕ d 4%nat ⊕ d 6%nat ⊕ d 10%nat ⊕ d 11%nat ⊕ d 12%nat ⊕ d 15%nat;
   d 0%nat ⊕ d 5%nat ⊕ d 7%nat ⊕ d 10%nat ⊕ d 11%nat ⊕ d 13%nat ⊕ d 14%nat;
   d 0%nat ⊕ d 2%nat ⊕ d 5%nat ⊕ d 8%nat ⊕ d 11%nat ⊕ d 14%nat ⊕ d 15%nat;
   d 1%nat ⊕ d 3%nat ⊕ d 4%nat ⊕ d 9%nat ⊕ d 10%nat ⊕ d 14%nat ⊕ d 15%nat;
   d 0%nat ⊕ d 2%nat ⊕ d 7%nat ⊕ d 9%nat ⊕ d 10%nat ⊕ d 12%nat ⊕ d 13%nat;
   d 1%nat ⊕ d 3%nat ⊕ d 6%nat ⊕ d 8%nat ⊕ d 11%nat ⊕ d 12%nat ⊕ d 13%nat;
   d 0%nat ⊕ d 1%nat ⊕ d 4%nat ⊕ d 7%nat ⊕ d 10%nat ⊕ d 13%nat ⊕ d 15%nat;
   d 0%nat ⊕ d 1%nat ⊕ d 5%nat ⊕ d 6%nat ⊕ d 11%nat ⊕ d 12%nat ⊕ d 14%nat;
   d 2%nat ⊕ d 3%nat ⊕ d 5%nat ⊕ d 6%nat ⊕ d 8%nat ⊕ d 13%nat ⊕ d 15%nat;
   d 2%nat ⊕ d 3%nat ⊕ d 4%nat ⊕ d 7%nat ⊕ d 9%nat ⊕ d 12%nat ⊕ d 14%nat;
   d 1%nat ⊕ d 2%nat ⊕ d 6%nat ⊕ d 7%nat ⊕ d 9%nat ⊕ d 11%nat ⊕ d 12%nat;
   d 0%nat ⊕ d 3%nat ⊕ d 6%nat ⊕ d 7%nat ⊕ d 8%nat ⊕ d 10%nat ⊕ d 13%nat;
   d 0%nat ⊕ d 3%nat ⊕ d 4%nat ⊕ d 5%nat ⊕ d 9%nat ⊕ d 11%nat ⊕ d 14%nat;
   d 1%nat ⊕ d 2%nat ⊕ d 4%nat ⊕ d 5%nat ⊕ d 8%nat ⊕ d 10%nat ⊕ d 15%nat].

(** [in[i]] for [0 <= i < 4]. *)
Definition qn (q : quad) (i : Z) : Z :=
  let '(q0, q1, q2, q3) := q in
  if i =? 0 then q0 else if i =? 1 then q1 else if i =? 2 then q2 else q3.

(** C's [%] is [Z.rem]. *)
Definition rotr128 (inp : quad) (n : Z) : quad :=
  let n := Z.rem (Z.rem n 128 + 128) 128 in
  if n =? 0 then inp
  else
    let w := Z.quot n 32 in
    let b := Z.rem n 32 in
    let out i :=
      let lo := Z.rem (i - w + 4) 4 in
      let hi := Z.rem (i - w - 1 + 8) 4 in
      if b =? 0 then qn inp lo else (qn inp lo .>> b) .| u32 (qn inp hi .<< (32 - b)) in
    (out 0, out 1, out 2, out 3).

Definition aria_sl1_a (d : quad) : quad := load_quad (diff_layer (sub_odd (store_quad d))).
Definition aria_sl2_a (d : quad) : quad := load_quad (diff_layer (sub_even (store_quad d))).

Definition aria_fo (d rk : quad) : quad := aria_sl1_a (xor128 d rk).
Definition aria_fe (d rk : quad) : quad := aria_sl2_a (xor128 d rk).

Record aria_ctx_t := { ek : list quad; dk : list quad; rounds : nat }.

Definition ROTS : list Z := [19; 31; 67; 97; 109].

Definition zero_quad : quad := (0, 0, 0, 0).

Definition qat (l : list quad) (i : nat) : quad := nth i l zero_quad.

(** The rounds and the order of the three constants. *)
Definition aria_params (key_len : Z) : nat * (quad * quad * quad) :=
  if key_len <=? 16 then (12%nat, (C1, C2, C3))
  else if key_len <=? 24 then (14%nat, (C2, C3, C1))
  else (16%nat, (C3, C1, C2)).

(** [KR]: the part of the key after the first 16 bytes. *)
Definition aria_kr (key : bytes) (key_len : Z) : quad :=
  let '(k0, k1) := if 24 <=? key_len then (sar_be32 (drop 16 key), sar_be32 (drop 20 key)) else (0, 0) in
  let '(k2, k3) := if 32 <=? key_len then (sar_be32 (drop 24 key), sar_be32 (drop 28 key)) else (0, 0) in
  (k0, k1, k2, k3).

(** The four words [W]. *)
Definition aria_w (kl kr : quad) (cks : quad * quad * quad) : list quad :=
  let '(ck1, ck2, ck3) := cks in
  let w0 := kl in
  let w1 := xor128 (aria_fo w0 ck1) kr in
  let w2 := xor128 (aria_fe w1 ck2) w0 in
  let w3 := xor128 (aria_fo w2 ck3) w1 in
  [w0; w1; w2; w3].

(** Encryption round key [k]. *)
Definition aria_ek (w : list quad) (k : nat) : quad :=
  let g := (k / 4)%nat in
  let p := (k mod 4)%nat in
  if (p <? 3)%nat then xor128 (qat w p) (rotr128 (qat w (p + 1)) (rd ROTS g))
  else xor128 (rotr128 (qat w 0) (rd ROTS g)) (qat w 3).

Definition diff_quad (q : quad) : quad := load_quad (diff_layer (store_quad q)).

(** Decryption round key [i]: the encryption keys in reverse order, the inner
    ones through the diffusion layer. *)
Definition aria_dk (ks : list quad) (nr i : nat) : quad :=
  let k := qat ks (nr - i) in
  if ((1 <=? i) && (i <? nr))%nat then diff_quad k else k.

Definition aria_key_schedule (key : bytes) (key_len : Z) : aria_ctx_t :=
  let '(nr, cks) := aria_params key_len in
  let w := aria_w (load_quad key) (aria_kr key key_len) cks in
  let ks := map (aria_ek w) (seq 0 (nr + 1)) in
  {| ek := ks; dk := map (aria_dk ks nr) (seq 0 (nr + 1)); rounds := nr |}.

(** The [while (1)] loop from round-key index [i]; it ends with the state and
    the index of the last round key. *)
Fixpoint aria_loop (fuel : nat) (rk : list quad) (nr i : nat) (d : quad) : option (quad * nat) :=
  match fuel with
  | O => None
  | S fuel =>
    let d := aria_sl1_a (xor128 d (qat rk i)) in
    let d := xor128 d (qat rk (i + 1)) in
    if (nr <=? i + 2)%nat then Some (d, (i + 2)%nat)
    else aria_loop fuel rk nr (i + 2) (aria_sl2_a d)
  end.

(** Two keys per pass: [nr] passes are more than enough. *)
Definition aria_crypt (rk : list quad) (nr : nat) (inp : bytes) : option bytes :=
  match aria_loop nr rk nr 0 (load_quad inp) with
  | None => None
  | Some (d, i) =>
    let d := load_quad (sub_even (store_quad d)) in
    Some (store_quad (xor128 d (qat rk i)))
  end.

Definition aria_encrypt_block (ctx : aria_ctx_t) (inp : bytes) : option bytes :=
  aria_crypt (ek ctx) (rounds ctx) inp.

Definition aria_decrypt_block (ctx : aria_ctx_t) (inp : bytes) : option bytes :=
  aria_crypt (dk ctx) (rounds ctx) inp.

Definition aria_cipher (key : bytes) (key_len : Z) : block_cipher_ctx_t :=
  let ctx := aria_key_schedule key key_len in
  {| encrypt := aria_encrypt_block ctx; decrypt := aria_decrypt_block ctx; block_size := 16 |}.

(** ** The layers *)

Lemma s1_ok x : is_u8 x -> is_u8 (tbl S1 x) /\ tbl S1_inv (tbl S1 x) = x.
Proof. revert x. tables_inverse. Qed.

Lemma s2_ok x : is_u8 x -> is_u8 (tbl S2 x) /\ tbl S2_inv (tbl S2 x) = x.
Proof. revert x. tables_inverse. Qed.

Lemma s1_inv_ok x : is_u8 x -> is_u8 (tbl S1_inv x) /\ tbl S1 (tbl S1_inv x) = x.
Proof. revert x. tables_inverse. Qed.

Lemma s2_inv_ok x : is_u8 x -> is_u8 (tbl S2_inv x) /\ tbl S2 (tbl S2_inv x) = x.
Proof. revert x. tables_inverse. Qed.

#[local] Opaque S1 S2 S1_inv S2_inv.

Lemma sub_odd_ok s : is_block 16 s -> is_block 16 (sub_odd s) /\ sub_even (sub_odd s) = s.
Proof.
  intros H. split_block H. unfold sub_even, sub_odd, rd. cbn [nth]. split.
  - split; [reflexivity|]. repeat (apply Forall_cons; split; [first
      [by apply s1_ok|by apply s2_ok|by apply s1_inv_ok|by apply s2_inv_ok]|]). constructor.
  - repeat (apply cons_eq; [first [by apply s1_ok|by apply s2_ok|by apply s1_inv_ok|by apply s2_inv_ok]|]).
    reflexivity.
Qed.

Lemma sub_even_ok s : is_block 16 s -> is_block 16 (sub_even s) /\ sub_odd (sub_even s) = s.
Proof.
  intros H. split_block H. unfold sub_even, sub_odd, rd. cbn [nth]. split.
  - split; [reflexivity|]. repeat (apply Forall_cons; split; [first
      [by apply s1_ok|by apply s2_ok|by apply s1_inv_ok|by apply s2_inv_ok]|]). constructor.
  - repeat (apply cons_eq; [first [by apply s1_ok|by apply s2_ok|by apply s1_inv_ok|by apply s2_inv_ok]|]).
    reflexivity.
Qed.

Ltac xor_bits := apply Z.bits_inj'; intros i Hi; rewrite !Z.lxor_spec; btauto.

Lemma diff_layer_involutive s : is_block 16 s ->
  is_block 16 (diff_layer s) /\ diff_layer (diff_layer s) = s.
Proof.
  intros H. split_block H. unfold diff_layer, rd. cbv zeta. cbn [nth]. split.
  - split; [reflexivity|]. repeat (apply Forall_cons; split;
      [repeat (apply is_u_lxor; [lia| |]); assumption|]). constructor.
  - repeat (apply cons_eq; [xor_bits|]). reflexivity.
Qed.

Lemma diff_layer_linear a b : length a = 16%nat -> length b = 16%nat ->
  diff_layer (xor_bytes a b) = xor_bytes (diff_layer a) (diff_layer b).
Proof.
  intros Ha Hb.
  do 16 (destruct a as [|? a]; [discriminate Ha|]). destruct a; [|discriminate Ha].
  do 16 (destruct b as [|? b]; [discriminate Hb|]). destruct b; [|discriminate Hb].
  unfold diff_layer, xor_bytes, rd. cbv zeta. cbn [nth zip_with].
  repeat (apply cons_eq; [xor_bits|]). reflexivity.
Qed.

(** ** The layers on words *)

Definition odd_quad (q : quad) : quad := load_quad (sub_odd (store_quad q)).
Definition even_quad (q : quad) : quad := load_quad (sub_even (store_quad q)).

Lemma xor128_ok a b : quad_ok a -> quad_ok b -> quad_ok (xor128 a b).
Proof.
  destruct a as [[[a0 a1] a2] a3], b as [[[b0 b1] b2] b3]. intros (? & ? & ? & ?) (? & ? & ? & ?).
  refine (conj _ (conj _ (conj _ _))); by apply is_u_lxor.
Qed.

Lemma xor128_cancel a b : xor128 (xor128 a b) b = a.
Proof.
  destruct a as [[[a0 a1] a2] a3], b as [[[b0 b1] b2] b3]. unfold xor128. by rewrite !lxor_cancel_r.
Qed.

Lemma st_be32_lxor x y : sar_st_be32 (x ⊕ y) = xor_bytes (sar_st_be32 x) (sar_st_be32 y).
Proof.
  unfold sar_st_be32, xor_bytes, u8. cbn [zip_with]. rewrite !Z.shiftr_lxor.
  assert (H : forall a b c, (a ⊕ b) .& c = (a .& c) ⊕ (b .& c)).
  { intros. apply Z.bits_inj'. intros i Hi. rewrite !Z.lxor_spec, !Z.land_spec, Z.lxor_spec. btauto. }
  by rewrite !H.
Qed.

Lemma store_xor128 a b : store_quad (xor128 a b) = xor_bytes (store_quad a) (store_quad b).
Proof.
  destruct a as [[[a0 a1] a2] a3], b as [[[b0 b1] b2] b3]. unfold xor128, store_quad.
  by rewrite !st_be32_lxor.
Qed.

Section Layer.
Context (f g : bytes -> bytes) (Hf : forall s, is_block 16 s -> is_block 16 (f s) /\ g (f s) = s).

Lemma layer_ok q : quad_ok (load_quad (f (store_quad q))).
Proof. apply load_quad_ok. apply Hf, is_block_store_quad. Qed.

Lemma layer_store q : store_quad (load_quad (f (store_quad q))) = f (store_quad q).
Proof. apply store_load_quad, Hf, is_block_store_quad. Qed.

Lemma layer_inverse q : quad_ok q ->
  load_quad (g (store_quad (load_quad (f (store_quad q))))) = q.
Proof.
  intros Hq. rewrite layer_store, (proj2 (Hf _ (is_block_store_quad q))). by apply load_store_quad.
Qed.
End Layer.

#[local] Opaque store_quad load_quad xor128 sub_odd sub_even diff_layer xor_bytes.

Lemma sl1_eq q : aria_sl1_a q = diff_quad (odd_quad q).
Proof. unfold aria_sl1_a, diff_quad, odd_quad. by rewrite (layer_store _ _ sub_odd_ok). Qed.

Lemma sl2_eq q : aria_sl2_a q = diff_quad (even_quad q).
Proof. unfold aria_sl2_a, diff_quad, even_quad. by rewrite (layer_store _ _ sub_even_ok). Qed.

Lemma diff_quad_ok q : quad_ok (diff_quad q).
Proof. apply (layer_ok _ _ diff_layer_involutive). Qed.

Lemma diff_quad_involutive q : quad_ok q -> diff_quad (diff_quad q) = q.
Proof. apply (layer_inverse _ _ diff_layer_involutive). Qed.

Lemma diff_quad_linear a b : quad_ok a -> quad_ok b ->
  diff_quad (xor128 a b) = xor128 (diff_quad a) (diff_quad b).
Proof.
  intros Ha Hb. unfold diff_quad.
  destruct (diff_layer_involutive _ (is_block_store_quad a)) as [H1 _].
  destruct (diff_layer_involutive _ (is_block_store_quad b)) as [H2 _].
  rewrite store_xor128, diff_layer_linear by apply is_block_store_quad.
  rewrite <- (store_load_quad _ H1) at 1. rewrite <- (store_load_quad _ H2) at 1.
  rewrite <- store_xor128. apply load_store_quad, xor128_ok; apply load_quad_ok; [apply H1|apply H2].
Qed.

(** ** The network *)

(** The substitution of round [j], counted from 0. *)
Definition lay (j : nat) : quad -> quad := if Nat.even j then odd_quad else even_quad.

Lemma lay_ok j q : quad_ok (lay j q).
Proof.
  unfold lay. destruct (Nat.even j); [apply (layer_ok _ _ sub_odd_ok)|apply (layer_ok _ _ sub_even_ok)].
Qed.

Lemma lay_inverse i j q : Nat.even i = negb (Nat.even j) -> quad_ok q -> lay i (lay j q) = q.
Proof.
  unfold lay. intros ->. destruct (Nat.even j); cbn [negb].
  - apply (layer_inverse _ _ sub_odd_ok).
  - apply (layer_inverse _ _ sub_even_ok).
Qed.

Definition ystep (ks : list quad) (y : quad) (j : nat) : quad :=
  xor128 (diff_quad (lay j y)) (qat ks (S j)).

Definition keys_ok (ks : list quad) : Prop := Forall quad_ok ks.

Lemma qat_ok ks i : keys_ok ks -> quad_ok (qat ks i).
Proof.
  intros H. unfold qat. destruct (nth_lookup_or_length ks i zero_quad) as [E|E].
  - eapply Forall_lookup_1; [exact H|exact E].
  - rewrite nth_overflow by done. unfold zero_quad, quad_ok, is_u. lia.
Qed.

Lemma ystep_ok ks y j : keys_ok ks -> quad_ok (ystep ks y j).
Proof. intros H. apply xor128_ok; [apply diff_quad_ok|by apply qat_ok]. Qed.

(** The loop is [nr - 1] such rounds. *)
Lemma aria_loop_eq ks nr r : forall fuel i d,
  Nat.even i = true -> (i + 2 + 2 * r = nr)%nat -> (r < fuel)%nat ->
  aria_loop fuel ks nr i d =
    Some (fold_left (ystep ks) (seq i (2 * r + 1)) (xor128 d (qat ks i)), nr).
Proof.
  induction r as [|r IH]; intros [|fuel] i d He Hnr Hf; try lia; cbn [aria_loop];
    assert (L0 : lay i = odd_quad) by (unfold lay; by rewrite He); rewrite sl1_eq, <- L0;
    replace (i + 1)%nat with (S i) by lia.
  - destruct (Nat.leb_spec nr (i + 2)); [|lia]. change (2 * 0 + 1)%nat with 1%nat.
    cbn [seq fold_left]. unfold ystep. by replace (i + 2)%nat with nr by lia.
  - destruct (Nat.leb_spec nr (i + 2)); [lia|].
    assert (L1 : lay (S i) = even_quad)
      by (unfold lay; by rewrite Nat.even_succ, <- Nat.negb_even, He).
    rewrite IH; [|rewrite Nat.even_add, He; done|lia|lia].
    replace (2 * S r + 1)%nat with (S (S (2 * r + 1))) by lia. cbn [seq fold_left].
    rewrite sl2_eq, <- L1. by replace (i + 2)%nat with (S (S i)) by lia.
Qed.

Lemma aria_crypt_eq ks m b :
  let nr := (2 * m + 2)%nat in
  aria_crypt ks nr b = Some (store_quad (xor128
    (even_quad (fold_left (ystep ks) (seq 0 (2 * m + 1)) (xor128 (load_quad b) (qat ks 0)))) (qat ks nr))).
Proof.
  cbv zeta. unfold aria_crypt. rewrite (aria_loop_eq ks (2 * m + 2) m) by (done || lia). done.
Qed.

(** The keys of the inverse network. *)
Definition dual (nr : nat) (ks ks' : list quad) : Prop :=
  qat ks' 0 = qat ks nr /\ qat ks' nr = qat ks 0 /\
  forall i, (0 < i < nr)%nat -> qat ks' i = diff_quad (qat ks (nr - i)).

Lemma dual_sym nr ks ks' : keys_ok ks -> dual nr ks ks' -> dual nr ks' ks.
Proof.
  intros Hk (H0 & Hn & Hi). split; [done|]. split; [done|]. intros i Hr.
  rewrite Hi by lia. replace (nr - (nr - i))%nat with i by lia.
  by rewrite diff_quad_involutive by by apply qat_ok.
Qed.

(** Under the dual keys the network walks back through the states. *)
Lemma dual_walk m ks ks' y0 :
  let nr := (2 * m + 2)%nat in
  let Y j := fold_left (ystep ks) (seq 0 j) y0 in
  keys_ok ks -> quad_ok y0 -> dual nr ks ks' ->
  forall j, (j <= 2 * m + 1)%nat ->
  fold_left (ystep ks') (seq 0 j) (lay (2 * m + 1)%nat (Y (2 * m + 1)%nat)) =
  lay (2 * m + 1 - j)%nat (Y (2 * m + 1 - j)%nat).
Proof.
  intros nr Y Hk Hy (H0 & Hn & Hi).
  assert (HY : forall j, quad_ok (Y j)).
  { intros j. apply fold_left_ok; [|done]. intros; by apply ystep_ok. }
  induction j as [|j IH]; intros Hj; [by rewrite Nat.sub_0_r|].
  rewrite fold_seq_snoc, IH by lia. cbn [Nat.add].
  set (k := (2 * m + 1 - S j)%nat). replace (2 * m + 1 - j)%nat with (S k) by lia.
  unfold ystep. rewrite Hi by lia. replace (nr - S j)%nat with (S k) by (subst nr k; lia).
  rewrite lay_inverse; [| |apply HY].
  - rewrite <- diff_quad_linear by (apply HY || by apply qat_ok).
    assert (EY : Y (S k) = ystep ks (Y k) k) by (unfold Y; by rewrite fold_seq_snoc).
    rewrite EY. unfold ystep. rewrite xor128_cancel. apply diff_quad_involutive, lay_ok.
  - assert (Hsum : Nat.even (j + S k) = false).
    { replace (j + S k)%nat with (1 + 2 * m)%nat by lia. rewrite Nat.even_add_mul_2. done. }
    rewrite Nat.even_add in Hsum. by destruct (Nat.even j), (Nat.even (S k)).
Qed.

Lemma aria_crypt_dual m ks ks' b :
  let nr := (2 * m + 2)%nat in
  keys_ok ks -> dual nr ks ks' -> is_block 16 b ->
  exists c, aria_crypt ks nr b = Some c /\ is_block 16 c /\ aria_crypt ks' nr c = Some b.
Proof.
  intros nr Hk Hd Hb. pose proof Hd as (H0 & Hn & _). subst nr.
  rewrite aria_crypt_eq. eexists. split; [reflexivity|]. split; [apply is_block_store_quad|].
  rewrite aria_crypt_eq, H0, Hn.
  set (y0 := xor128 (load_quad b) (qat ks 0)).
  assert (Hy : quad_ok y0) by (apply xor128_ok; [apply load_quad_ok, Hb|by apply qat_ok]).
  assert (L : lay (2 * m + 1) = even_quad).
  { unfold lay. by rewrite Nat.add_comm, Nat.even_add_mul_2. }
  rewrite <- L. rewrite load_store_quad, xor128_cancel
    by (apply xor128_ok; [apply lay_ok|by apply qat_ok]).
  rewrite (dual_walk m ks ks' y0 Hk Hy Hd) by lia. rewrite Nat.sub_diag. cbn [seq fold_left].
  rewrite lay_inverse; [|rewrite Nat.add_comm, Nat.even_add_mul_2; done|done].
  unfold y0. rewrite xor128_cancel. f_equal. by apply store_load_quad.
Qed.

(** ** The key schedule gives dual keys in range *)

Lemma qn_ok q i : quad_ok q -> is_u32 (qn q i).
Proof.
  destruct q as [[[q0 q1] q2] q3]. intros (? & ? & ? & ?). unfold qn.
  destruct (i =? 0); [done|]. destruct (i =? 1); [done|]. by destruct (i =? 2).
Qed.

Lemma rotr128_ok q n : quad_ok q -> quad_ok (rotr128 q n).
Proof.
  intros Hq. unfold rotr128. set (n' := Z.rem _ 128). destruct (n' =? 0); [done|].
  assert (Hb : 0 <= Z.rem n' 32).
  { apply Z.rem_nonneg; [lia|]. apply Z.rem_nonneg; [lia|].
    pose proof (Z.rem_bound_abs n 128 ltac:(lia)). lia. }
  refine (conj _ (conj _ (conj _ _))); cbv zeta; (destruct (Z.rem n' 32 =? 0); [by apply qn_ok|]);
    (apply is_u_lor; [lia| |apply is_u_u32]); apply is_u_shiftr; (by apply qn_ok) || lia.
Qed.

Lemma kr_quad_ok key key_len : is_bytes key -> quad_ok (aria_kr key key_len).
Proof.
  intros H. assert (Hb : forall n, is_u32 (sar_be32 (drop n key)))
    by (intros; apply is_u_be32; by apply Forall_drop).
  assert (Hz : is_u32 0) by (unfold is_u; lia).
  unfold aria_kr. destruct (24 <=? key_len), (32 <=? key_len);
    refine (conj _ (conj _ (conj _ _))); (apply Hb || exact Hz).
Qed.

Lemma aria_w_ok kl kr cks : quad_ok kl -> quad_ok kr -> keys_ok (aria_w kl kr cks).
Proof.
  intros Hl Hr. destruct cks as [[ck1 ck2] ck3]. unfold aria_w, aria_fo, aria_fe.
  rewrite !sl1_eq, !sl2_eq.
  repeat (apply Forall_cons; split;
    [repeat first [assumption|apply diff_quad_ok|apply xor128_ok]|]). constructor.
Qed.

Lemma aria_ek_ok w k : keys_ok w -> quad_ok (aria_ek w k).
Proof.
  intros H. unfold aria_ek.
  destruct (_ <? _)%nat; apply xor128_ok; try (by apply qat_ok); apply rotr128_ok; by apply qat_ok.
Qed.

Lemma qat_map (f : nat -> quad) n i : (i < n)%nat -> qat (map f (seq 0 n)) i = f i.
Proof.
  intros H. unfold qat. apply nth_lookup_Some. rewrite list_lookup_fmap, lookup_seq_lt by done. done.
Qed.

Lemma aria_params_rounds key_len : exists m, (aria_params key_len).1 = (2 * m + 2)%nat.
Proof.
  unfold aria_params. destruct (key_len <=? 16); [by exists 5%nat|].
  destruct (key_len <=? 24); [by exists 6%nat|by exists 7%nat].
Qed.

Lemma key_schedule_dual key key_len : is_bytes key ->
  let ctx := aria_key_schedule key key_len in
  exists m, rounds ctx = (2 * m + 2)%nat /\ keys_ok (ek ctx) /\ keys_ok (dk ctx) /\
    dual (rounds ctx) (ek ctx) (dk ctx).
Proof.
  intros Hk. unfold aria_key_schedule. destruct (aria_params_rounds key_len) as [m Hm].
  destruct (aria_params key_len) as [nr cks]. cbn [fst] in Hm. cbn [ek dk rounds]. exists m.
  set (w := aria_w _ _ _).
  assert (Hw : keys_ok w) by (apply aria_w_ok; [by apply load_quad_ok|by apply kr_quad_ok]).
  clearbody w. set (ks := map (aria_ek w) (seq 0 (nr + 1))).
  assert (Hks : keys_ok ks) by (apply Forall_fmap, Forall_true; intros; by apply aria_ek_ok).
  clearbody ks. split; [done|]. split; [done|]. split.
  - apply Forall_fmap, Forall_true. intros i. cbn. unfold aria_dk.
    destruct (_ && _)%bool; [apply diff_quad_ok|by apply qat_ok].
  - unfold dual. rewrite !qat_map by lia. unfold aria_dk. split; [|split].
    + cbn [Nat.leb andb]. by rewrite Nat.sub_0_r.
    + rewrite Nat.ltb_irrefl, andb_false_r, Nat.sub_diag. done.
    + intros i Hi. rewrite qat_map by lia.
      destruct (Nat.leb_spec 1 i), (Nat.ltb_spec i nr); (lia || done).
Qed.

#[global] Instance aria_block_cipher key key_len :
  is_bytes key -> BlockCipher (aria_cipher key key_len).
Proof.
  intros Hk. destruct (key_schedule_dual key key_len Hk) as (m & Hm & He & Hd & D).
  unfold aria_cipher, aria_encrypt_block, aria_decrypt_block. rewrite Hm in *.
  constructor; cbn [encrypt decrypt block_size]; [by right|..]; intros b Hb.
  - by apply aria_crypt_dual.
  - apply (aria_crypt_dual m _ _ b Hd); [by apply dual_sym|done].
Qed.

(** RFC 5794, appendix A. *)
Example aria_vector_128 :
  let key := map Z.of_nat (seq 0 16) in
  let pt := map (fun i => Z.of_nat i * 17) (seq 0 16) in
  aria_encrypt_block (aria_key_schedule key 16) pt =
    Some [0xd7;0x18;0xfb;0xd6;0xab;0x64;0x4c;0x73;0x9d;0xa9;0x5f;0x3b;0xe6;0x45;0x17;0x78].
Proof. vm_compute. reflexivity. Qed.

Example aria_vector_256 :
  let key := map Z.of_nat (seq 0 32) in
  let pt := map (fun i => Z.of_nat i * 17) (seq 0 16) in
  aria_encrypt_block (aria_key_schedule key 32) pt =
    Some [0xf9;0x2b;0xd7;0xc7;0x9f;0xb7;0x2e;0x2f;0x2b;0x8f;0x80;0xc1;0x97;0x2d;0x24;0xfc].
Proof. vm_compute. reflexivity. Qed.

End Aria.
