(* ===== verification/Stream.v ===== *)
(** * Stream ciphers

    engine/ciphers/stream.c: the ChaCha and Salsa20 block functions with their
    extended-nonce key derivations, and RC4.  RC4 is described as a generator
    of key-stream bytes; the two verification loops compare a sample with it. *)

From S2P Require Import Prelude Mem CipherCommon.

Module Stream.

Definition STREAM_ROUNDS : list Z := [8; 12; 20].

(** ** ChaCha *)

Definition chacha_qr (s : list Z) (a b c d : nat) : list Z :=
  let add i j s := <[i := u32 (rd s i + rd s j)]> s in
  let xor_rot i j n s := <[i := rotl32 (rd s i ⊕ rd s j) n]> s in
  let s := xor_rot d a 16 (add a b s) in
  let s := xor_rot b c 12 (add c d s) in
  let s := xor_rot d a 8 (add a b s) in
  xor_rot b c 7 (add c d s).

Definition chacha_double (s : list Z) : list Z :=
  let s := chacha_qr s 0 4 8 12 in let s := chacha_qr s 1 5 9 13 in
  let s := chacha_qr s 2 6 10 14 in let s := chacha_qr s 3 7 11 15 in
  let s := chacha_qr s 0 5 10 15 in let s := chacha_qr s 1 6 11 12 in
  let s := chacha_qr s 2 7 8 13 in chacha_qr s 3 4 9 14.

Definition key_words (key : bytes) : list Z := map (fun i => sar_le32 (drop (i * 4) key)) (seq 0 8).

Definition le_words (l : list Z) : bytes := flat_map sar_st_le32 l.

Definition chacha_block (key nonce : bytes) (counter rounds : Z) : bytes :=
  let s := [0x61707865; 0x3320646e; 0x79622d32; 0x6b206574] ++ key_words key ++
    [counter; sar_le32 nonce; sar_le32 (drop 4 nonce); sar_le32 (drop 8 nonce)] in
  let w := Nat.iter (Z.to_nat (Z.quot rounds 2)) chacha_double s in
  le_words (map (fun i => u32 (rd w i + rd s i)) (seq 0 16)).

Definition hchacha20 (key nonce : bytes) : bytes :=
  let s := [0x61707865; 0x3320646e; 0x79622d32; 0x6b206574] ++ key_words key ++
    [sar_le32 nonce; sar_le32 (drop 4 nonce); sar_le32 (drop 8 nonce); sar_le32 (drop 12 nonce)] in
  let s := Nat.iter 10 chacha_double s in
  le_words (map (rd s) (seq 0 4)) ++ le_words (map (fun i => rd s (12 + i)) (seq 0 4)).

(** ** Salsa20 *)

Definition salsa_qr (s : list Z) (a b c d : nat) : list Z :=
  let mix i j k n s := <[i := rd s i ⊕ rotl32 (u32 (rd s j + rd s k)) n]> s in
  mix a d c 18 (mix d c b 13 (mix c b a 9 (mix b a d 7 s))).

Definition salsa_double (s : list Z) : list Z :=
  let s := salsa_qr s 0 4 8 12 in let s := salsa_qr s 5 9 13 1 in
  let s := salsa_qr s 10 14 2 6 in let s := salsa_qr s 15 3 7 11 in
  let s := salsa_qr s 0 1 2 3 in let s := salsa_qr s 5 6 7 4 in
  let s := salsa_qr s 10 11 8 9 in salsa_qr s 15 12 13 14.

Definition salsa_state (key nonce : bytes) (c0 c1 : Z) : list Z :=
  [0x61707865] ++ take 4 (key_words key) ++
  [0x3320646e; sar_le32 nonce; sar_le32 (drop 4 nonce); c0; c1; 0x79622d32] ++
  drop 4 (key_words key) ++ [0x6b206574].

Definition salsa_block (key nonce : bytes) (counter rounds : Z) : bytes :=
  let s := salsa_state key nonce (u32 counter) (u32 (counter .>> 32)) in
  let w := Nat.iter (Z.to_nat (Z.quot rounds 2)) salsa_double s in
  le_words (map (fun i => u32 (rd w i + rd s i)) (seq 0 16)).

Definition hsalsa20 (key nonce : bytes) : bytes :=
  let s := salsa_state key nonce (sar_le32 (drop 8 nonce)) (sar_le32 (drop 12 nonce)) in
  let s := Nat.iter 10 salsa_double s in
  le_words (map (rd s) [0; 5; 10; 15; 6; 7; 8; 9]%nat).

(** ** RC4 *)

(** The permutation and the two indices [ri], [rj]. *)
Record rc4_state := { S_ : bytes; ri : Z; rj : Z }.

(** [t = S[i]; S[i] = S[j]; S[j] = t] *)
Definition swap (s : bytes) (i j : Z) : bytes :=
  let t := tbl s i in
  let s := <[Z.to_nat i := tbl s j]> s in
  <[Z.to_nat j := t]> s.

Definition ksa_step (key : bytes) (key_len : nat) (st : bytes * Z) (i : nat) : bytes * Z :=
  let '(s, j) := st in
  let j := u8 (j + rd s i + rd key (i mod key_len)) in
  (swap s (Z.of_nat i) j, j).

Definition rc4_ksa (key : bytes) (key_len : nat) : bytes :=
  (fold_left (ksa_step key key_len) (seq 0 256) (map Z.of_nat (seq 0 256), 0)).1.

(** [ri++; rj += S[ri]; swap] *)
Definition rc4_step (st : rc4_state) : rc4_state :=
  let ri := u8 (ri st + 1) in
  let rj := u8 (rj st + tbl (S_ st) ri) in
  {| S_ := swap (S_ st) ri rj; ri := ri; rj := rj |}.

(** The byte [S[(S[ri] + S[rj]) & 0xFF]] after a step. *)
Definition rc4_byte (st : rc4_state) : Z :=
  tbl (S_ st) (u8 (tbl (S_ st) (ri st) + tbl (S_ st) (rj st))).

(** The comparison loop both verifiers end with. *)
Fixpoint rc4_compare (n : nat) (st : rc4_state) (pt ct : bytes) : bool :=
  match n with
  | O => true
  | S n =>
    let st := rc4_step st in
    if rd pt 0 ⊕ rc4_byte st =? rd ct 0 then rc4_compare n st (drop 1 pt) (drop 1 ct) else false
  end.

Definition rc4_init (key : bytes) (key_len : nat) : rc4_state :=
  {| S_ := rc4_ksa key key_len; ri := 0; rj := 0 |}.

Definition rc4_verify (key : bytes) (key_len : nat) (pt ct : bytes) (sample_size : nat)
    (file_offset : Z) : bool :=
  rc4_compare sample_size (Nat.iter (Z.to_nat file_offset) rc4_step (rc4_init key key_len)) pt ct.

Definition rc4_verify_state (s : bytes) (si sj : Z) (pt ct : bytes) (sample_size : nat) : bool :=
  rc4_compare sample_size {| S_ := take 256 s; ri := si; rj := sj |} pt ct.

(** ** The key stream *)

(** Key-stream bytes [0 .. n) from a state. *)
Fixpoint rc4_stream (n : nat) (st : rc4_state) : bytes :=
  match n with
  | O => []
  | S n => let st := rc4_step st in rc4_byte st :: rc4_stream n st
  end.

Lemma length_rc4_stream n st : length (rc4_stream n st) = n.
Proof. revert st. induction n as [|n IH]; intros st; cbn; [done|by rewrite IH]. Qed.

Lemma rc4_stream_app n m st :
  rc4_stream (n + m) st = rc4_stream n st ++ rc4_stream m (Nat.iter n rc4_step st).
Proof.
  revert st. induction n as [|n IH]; intros st; [done|]. cbn [rc4_stream Nat.add app].
  rewrite IH. by rewrite Nat.iter_succ_r.
Qed.

Lemma rc4_compare_spec n st pt ct :
  (n <= length pt)%nat -> (n <= length ct)%nat ->
  rc4_compare n st pt ct = true <-> take n ct = xor_bytes (take n pt) (rc4_stream n st).
Proof.
  revert st pt ct. induction n as [|n IH]; intros st pt ct Hp Hc; [done|].
  destruct pt as [|p pt], ct as [|c ct]; cbn in Hp, Hc; try lia.
  cbn [rc4_compare rc4_stream take]. change (rd (p :: pt) 0) with p. change (rd (c :: ct) 0) with c.
  change (drop 1 (p :: pt)) with pt. change (drop 1 (c :: ct)) with ct.
  unfold xor_bytes. cbn [zip_with]. fold (xor_bytes (take n pt) (rc4_stream n (rc4_step st))).
  destruct (Z.eqb_spec (p ⊕ rc4_byte (rc4_step st)) c) as [E|E].
  - rewrite IH by lia. split; [intros ->; by rewrite E|]. by intros [= _ H].
  - split; [done|]. intros [= H _]. by rewrite H in E.
Qed.

(** ** Sizes and ranges *)

Lemma le_words_ok l : is_block (4 * length l) (le_words l).
Proof.
  induction l as [|x l [IHl IHb]]; [by split|]. split.
  - unfold le_words in *. cbn [flat_map]. rewrite length_app, IHl. cbn. lia.
  - unfold le_words in *. cbn [flat_map]. apply Forall_app. split; [|done].
    repeat (apply Forall_cons; split; [apply is_u_u8|]). constructor.
Qed.

Lemma chacha_block_ok key nonce counter rounds : is_block 64 (chacha_block key nonce counter rounds).
Proof. apply le_words_ok. Qed.

Lemma salsa_block_ok key nonce counter rounds : is_block 64 (salsa_block key nonce counter rounds).
Proof. apply le_words_ok. Qed.

(** ** The RC4 state stays a permutation of the 256 bytes *)

Definition rc4_perm (s : bytes) : Prop := is_block 256 s /\ NoDup s.

(** Where the byte at position [k] was before the swap. *)
Definition swapped (i j k : nat) : nat :=
  if decide (k = j) then i else if decide (k = i) then j else k.

Lemma swap_lookup s i j k :
  (Z.to_nat i < length s)%nat -> (Z.to_nat j < length s)%nat ->
  swap s i j !! k = s !! swapped (Z.to_nat i) (Z.to_nat j) k.
Proof.
  intros Hi Hj. unfold swap, tbl, swapped.
  assert (Hx : forall m, (m < length s)%nat -> s !! m = Some (rd s m)).
  { intros m Hm. destruct (lookup_lt_is_Some_2 s m Hm) as [x E]. by rewrite (Mem.rd_lookup _ _ _ E). }
  destruct (decide (k = Z.to_nat j)) as [->|Hkj].
  - rewrite list_lookup_insert_eq by (by rewrite length_insert). by rewrite Hx.
  - rewrite list_lookup_insert_ne by done. destruct (decide (k = Z.to_nat i)) as [->|Hki].
    + rewrite list_lookup_insert_eq by done. by rewrite Hx.
    + by rewrite list_lookup_insert_ne by done.
Qed.

Lemma swap_perm s i j : rc4_perm s -> is_u8 i -> is_u8 j -> rc4_perm (swap s i j).
Proof.
  intros [[Hl Hb] Hn] Hi Hj.
  assert (Hi' : (Z.to_nat i < length s)%nat) by (unfold is_u in Hi; lia).
  assert (Hj' : (Z.to_nat j < length s)%nat) by (unfold is_u in Hj; lia).
  split; [split|].
  - unfold swap. by rewrite !length_insert.
  - unfold swap. apply Forall_insert; [apply Forall_insert; [done|]|]; by apply Mem.rd_byte.
  - apply NoDup_alt. intros a b x. rewrite !swap_lookup by done. intros Ha Hb'.
    pose proof (NoDup_lookup _ _ _ _ Hn Ha Hb') as E. unfold swapped in E.
    repeat case_decide; congruence.
Qed.

Lemma ksa_perm key key_len : rc4_perm (rc4_ksa key key_len).
Proof.
  unfold rc4_ksa.
  assert (H : let r := fold_left (ksa_step key key_len) (seq 0 256) (map Z.of_nat (seq 0 256), 0) in
    rc4_perm r.1 /\ is_u8 r.2).
  { apply (fold_left_ok (ksa_step key key_len) (fun r => rc4_perm r.1 /\ is_u8 r.2)).
    - intros [s j] i Hi%elem_of_seq [Hs Hj]. cbn. split; [|apply is_u_u8].
      apply swap_perm; [done|unfold is_u; lia|apply is_u_u8].
    - split; [|unfold is_u; cbn; lia]. split.
      + split; [done|]. apply forall_u_check. vm_compute. reflexivity.
      + apply (NoDup_fmap_2 Z.of_nat). apply NoDup_seq. }
  apply H.
Qed.

Definition rc4_ok (st : rc4_state) : Prop := rc4_perm (S_ st) /\ is_u8 (ri st) /\ is_u8 (rj st).

Lemma rc4_step_ok st : rc4_ok st -> rc4_ok (rc4_step st).
Proof.
  intros (Hs & _ & _). unfold rc4_step. refine (conj _ (conj _ _)); cbn [S_ ri rj]; try apply is_u_u8.
  apply swap_perm; [done|apply is_u_u8|apply is_u_u8].
Qed.

Lemma rc4_iter_ok n st : rc4_ok st -> rc4_ok (Nat.iter n rc4_step st).
Proof. intros H. induction n as [|n IH]; [done|]. cbn. by apply rc4_step_ok. Qed.

Lemma rc4_init_ok key key_len : rc4_ok (rc4_init key key_len).
Proof. refine (conj (ksa_perm _ _) (conj _ _)); cbn; unfold is_u; lia. Qed.

Lemma is_u_rc4_byte st : rc4_ok st -> is_u8 (rc4_byte st).
Proof. intros [[[_ Hb] _] _]. by apply Mem.rd_byte. Qed.

Lemma rc4_stream_ok n st : rc4_ok st -> is_bytes (rc4_stream n st).
Proof.
  revert st. induction n as [|n IH]; intros st H; [constructor|]. cbn [rc4_stream].
  pose proof (rc4_step_ok st H). apply Forall_cons. split; [by apply is_u_rc4_byte|by apply IH].
Qed.

(** RFC 8439 (2.3.2), the XChaCha draft (2.2.1), and ECRYPT Salsa20 set 1 vector 0. *)
Example chacha_vector :
  take 16 (chacha_block (map Z.of_nat (seq 0 32)) [0;0;0;9;0;0;0;0x4a;0;0;0;0] 1 20) =
    [0x10;0xf1;0xe7;0xe4;0xd1;0x3b;0x59;0x15;0x50;0x0f;0xdd;0x1f;0xa3;0x20;0x71;0xc4].
Proof. vm_compute. reflexivity. Qed.

Example hchacha_vector :
  take 16 (hchacha20 (map Z.of_nat (seq 0 32)) [0;0;0;9;0;0;0;0x4a;0;0;0;0;0x31;0x41;0x59;0x27]) =
    [0x82;0x41;0x3b;0x42;0x27;0xb2;0x7b;0xfe;0xd3;0x0e;0x42;0x50;0x8a;0x87;0x7d;0x73].
Proof. vm_compute. reflexivity. Qed.

Example salsa_vector :
  take 16 (salsa_block (0x80 :: replicate 31 0) (replicate 8 0) 0 20) =
    [0xe3;0xbe;0x8f;0xdd;0x8b;0xec;0xa2;0xe3;0xea;0x8e;0xf9;0x47;0x5b;0x29;0xa6;0xe7].
Proof. vm_compute. reflexivity. Qed.

(** The key "Key" encrypts "Plaintext" to BBF316E8D940AF0AD3. *)
Example rc4_vector :
  rc4_verify [75;101;121] 3 [80;108;97;105;110;116;101;120;116]
    [0xbb;0xf3;0x16;0xe8;0xd9;0x40;0xaf;0x0a;0xd3] 9 0 = true.
Proof. vm_compute. reflexivity. Qed.

End Stream.
