(* ===== verification/Modes.v ===== *)
(** * Modes of operation

    engine/src/ctr_layout.h and engine/src/modes.c: given a keyed block cipher
    and a sample of plaintext with the bytes that replaced it, find the mode of
    operation that maps one to the other and, where the sample determines it,
    the initial vector.

    The cipher is any [block_cipher_ctx_t]; the theorems assume the interface
    [BlockCipher] of CipherCommon, which every cipher of the engine implements.
    The output pointers are never NULL in the engine's calls. *)

From S2P Require Import Prelude Mem Format CipherCommon.
Import Layout.

Lemma if_bytes_eqb {A} (a b : bytes) (x r : A) :
  (if bytes_eqb a b then Some x else None) = Some r <-> a = b /\ r = x.
Proof. unfold bytes_eqb. case_bool_decide; split; [by intros [= ->]|by intros [_ ->]|done|by intros [? _]]. Qed.

Lemma eq_comm {A} (x y : A) : x = y <-> y = x.
Proof. done. Qed.

Module CtrLayout.

Record sar_ctr_layout_t := {
  offset : nat;
  width : nat;
  big_endian : bool;
  layout_block_size : nat
}.

Definition SAR_CTR_LAYOUTS : list sar_ctr_layout_t :=
  let mk o w b n := {| offset := o; width := w; big_endian := b; layout_block_size := n |} in [
    mk 12 4 true 16;
    mk 8 8 false 16;
    mk 8 8 true 16;
    mk 14 2 true 16;
    mk 0 8 false 16;
    mk 4 4 true 8;
    mk 0 8 false 8;
    mk 0 8 true 8
  ]%nat.

Definition sar_ctr_field_mask (width : nat) : Z :=
  if (8 <=? width)%nat then 0xffffffffffffffff else (1 .<< (8 * Z.of_nat width)) - 1.

Definition sar_ctr_field_read (block : bytes) (L : sar_ctr_layout_t) : Z :=
  if big_endian L then
    fold_left (fun v i => u64 (v .<< 8) .| rd block (offset L + i)) (seq 0 (width L)) 0
  else
    fold_left (fun v i => v .| u64 (rd block (offset L + i) .<< (8 * Z.of_nat i)))
      (seq 0 (width L)) 0.

Definition sar_ctr_field_write (block : bytes) (L : sar_ctr_layout_t) (v : Z) : bytes :=
  let v := v .& sar_ctr_field_mask (width L) in
  if big_endian L then
    fold_left (fun b i => <[(offset L + width L - 1 - i)%nat := u8 (v .>> (8 * Z.of_nat i))]> b)
      (seq 0 (width L)) block
  else
    fold_left (fun b i => <[(offset L + i)%nat := u8 (v .>> (8 * Z.of_nat i))]> b)
      (seq 0 (width L)) block.

Definition sar_ctr_const_equal (a b : bytes) (L : sar_ctr_layout_t) : bool :=
  forallb (fun i =>
    if ((offset L <=? i) && (i <? offset L + width L))%nat then true else rd a i =? rd b i)
    (seq 0 (layout_block_size L)).

(** ** The counter field as a number *)

(** The layouts of the table: a field of at most 8 bytes inside the block. *)
Definition layout_ok (L : sar_ctr_layout_t) : Prop :=
  (1 <= width L <= 8)%nat /\ (offset L + width L <= layout_block_size L)%nat.

Lemma layouts_ok L : L ∈ SAR_CTR_LAYOUTS -> layout_ok L.
Proof.
  intros H. repeat (apply elem_of_cons in H as [-> | H]; [unfold layout_ok; cbn; lia|]).
  by apply elem_of_nil in H.
Qed.

(** The bytes of the field, least significant first. *)
Definition field (L : sar_ctr_layout_t) (b : bytes) : bytes :=
  let f := take (width L) (drop (offset L) b) in if big_endian L then reverse f else f.

Definition set_field (L : sar_ctr_layout_t) (b f : bytes) : bytes :=
  take (offset L) b ++ (if big_endian L then reverse f else f) ++ drop (offset L + width L) b.

Lemma le_val_snoc l x : is_bytes l -> is_u8 x ->
  le_val (l ++ [x]) = le_val l + x * 2 ^ (8 * Z.of_nat (length l)).
Proof.
  intros Hl Hx. induction Hl as [|y l Hy Hl IH].
  - cbn. rewrite Z.lor_0_r. lia.
  - cbn [le_val app length]. rewrite !byte_low_high, IH by done.
    rewrite Nat2Z.inj_succ, Z.mul_succ_r, Z.pow_add_r by lia. change (2 ^ 8) with 256. ring.
Qed.

Lemma field_mask_mod w v : (1 <= w <= 8)%nat ->
  v .& sar_ctr_field_mask w = v mod 2 ^ (8 * Z.of_nat w).
Proof.
  intros Hw. unfold sar_ctr_field_mask. destruct (Nat.leb_spec 8 w).
  - replace w with 8%nat by lia. change 0xffffffffffffffff with (Z.ones 64).
    by rewrite Z.land_ones by lia.
  - rewrite Z.shiftl_1_l, <- Z.land_ones by lia. by rewrite Z.ones_equiv.
Qed.

Lemma read_le f w : is_bytes f -> (w <= length f)%nat -> (w <= 8)%nat ->
  fold_left (fun v i => v .| u64 (rd f i .<< (8 * Z.of_nat i))) (seq 0 w) 0 = le_val (take w f).
Proof.
  intros Hf. induction w as [|w IH]; intros Hw H8; [done|].
  rewrite fold_seq_snoc, IH by lia. cbn [Nat.add].
  destruct (lookup_lt_is_Some_2 f w ltac:(lia)) as [x Hx].
  assert (Hxb : is_u8 x) by (by eapply Forall_lookup_1).
  rewrite (take_S_r f w x Hx), le_val_snoc by (done || by apply Forall_take).
  rewrite length_take, Nat.min_l by lia. rewrite (Mem.rd_lookup _ _ _ Hx).
  assert (Hr : 0 <= le_val (take w f) < 2 ^ (8 * Z.of_nat w)).
  { pose proof (le_val_range (take w f) ltac:(by apply Forall_take)) as H.
    by rewrite length_take, Nat.min_l in H by lia. }
  rewrite u64_small by (eapply is_u_shiftl; [| | |exact Hxb]; lia).
  rewrite Z.lor_comm, (shl_lor x _ _ (2 ^ (8 * Z.of_nat w))) by (done || lia). lia.
Qed.

Lemma read_be f w : is_bytes f -> (w <= length f)%nat -> (w <= 8)%nat ->
  fold_left (fun v i => u64 (v .<< 8) .| rd f i) (seq 0 w) 0 = le_val (reverse (take w f)).
Proof.
  intros Hf. induction w as [|w IH]; intros Hw H8; [done|].
  rewrite fold_seq_snoc, IH by lia. cbn [Nat.add].
  destruct (lookup_lt_is_Some_2 f w ltac:(lia)) as [x Hx].
  rewrite (take_S_r f w x Hx), reverse_snoc, (Mem.rd_lookup _ _ _ Hx). cbn [le_val].
  rewrite u64_small; [apply Z.lor_comm|].
  pose proof (le_val_range (reverse (take w f)) ltac:(by apply Forall_reverse, Forall_take)) as Hr.
  rewrite length_reverse, length_take, Nat.min_l in Hr by lia.
  apply (is_u_shiftl (8 * Z.of_nat w)); [lia|lia|lia|exact Hr].
Qed.

Lemma read_field L b : layout_ok L -> length b = layout_block_size L -> is_bytes b ->
  sar_ctr_field_read b L = le_val (field L b).
Proof.
  intros [Hw Ho] Hl Hb. unfold sar_ctr_field_read, field.
  assert (Hd : is_bytes (drop (offset L) b)) by by apply Forall_drop.
  assert (Hlen : (width L <= length (drop (offset L) b))%nat) by (rewrite length_drop; lia).
  destruct (big_endian L).
  - rewrite <- read_be by (done || lia). apply fold_left_ext. intros v i _. by rewrite Mem.rd_drop.
  - rewrite <- read_le by (done || lia). apply fold_left_ext. intros v i _. by rewrite Mem.rd_drop.
Qed.

Lemma write_le b off w (g : nat -> Z) : (off + w <= length b)%nat ->
  fold_left (fun b i => <[(off + i)%nat := g i]> b) (seq 0 w) b =
  take off b ++ map g (seq 0 w) ++ drop (off + w) b.
Proof.
  induction w as [|w IH]; intros H.
  { cbn. by rewrite Nat.add_0_r, take_drop. }
  rewrite fold_seq_snoc, IH by lia. cbn [Nat.add].
  rewrite seq_S, map_app. cbn [map Nat.add].
  rewrite insert_take_drop by (rewrite !length_app, length_take, length_map, length_seq, length_drop; lia).
  rewrite !app_assoc.
  set (A := take off b ++ map g (seq 0 w)).
  assert (HA : length A = (off + w)%nat)
    by (subst A; rewrite length_app, length_take, length_map, length_seq; lia).
  rewrite take_app_length' by lia. rewrite drop_app_ge by lia. rewrite HA, drop_drop.
  rewrite <- app_assoc. cbn [app]. do 3 f_equal. lia.
Qed.

Lemma write_be b off w (g : nat -> Z) n : (off + w <= length b)%nat -> (n <= w)%nat ->
  fold_left (fun b i => <[(off + w - 1 - i)%nat := g i]> b) (seq 0 n) b =
  take (off + w - n) b ++ reverse (map g (seq 0 n)) ++ drop (off + w) b.
Proof.
  induction n as [|n IH]; intros H Hn.
  { cbn. by rewrite Nat.sub_0_r, take_drop. }
  rewrite fold_seq_snoc, IH by lia. cbn [Nat.add].
  rewrite seq_S, map_app, reverse_app. cbn [map Nat.add]. change (reverse [g n]) with [g n].
  rewrite insert_take_drop
    by (rewrite !length_app, length_take, length_reverse, length_map, length_seq, length_drop; lia).
  rewrite take_app_le by (rewrite length_take; lia). rewrite take_take, Nat.min_l by lia.
  rewrite drop_app_ge by (rewrite length_take; lia). rewrite length_take, Nat.min_l by lia.
  replace (S (off + w - 1 - n) - (off + w - n))%nat with 0%nat by lia. rewrite drop_0.
  rewrite <- !app_assoc. cbn [app]. do 2 f_equal. lia.
Qed.

Lemma le_bytes_map w v : map (fun i => u8 (v .>> (8 * Z.of_nat i))) (seq 0 w) = le_bytes w v.
Proof.
  revert v. induction w as [|w IH]; intros v; [done|].
  cbn [seq map le_bytes]. f_equal.
  rewrite <- IH, <- seq_shift, map_map. apply map_ext. intros i.
  rewrite Z.shiftr_shiftr by lia. do 2 f_equal. lia.
Qed.

Lemma write_field L b v : layout_ok L -> length b = layout_block_size L ->
  sar_ctr_field_write b L v = set_field L b (le_bytes (width L) (v mod 2 ^ (8 * Z.of_nat (width L)))).
Proof.
  intros [Hw Ho] Hl. unfold sar_ctr_field_write, set_field. cbv zeta. rewrite field_mask_mod by done.
  destruct (big_endian L).
  - rewrite write_be by lia. rewrite le_bytes_map. by replace (offset L + width L - width L)%nat with (offset L) by lia.
  - rewrite write_le by lia. by rewrite le_bytes_map.
Qed.

(** ** Counter blocks *)

Section Layout.
Context (L : sar_ctr_layout_t) (HL : layout_ok L).

Abbreviation bs := (layout_block_size L).
Abbreviation modulus := (2 ^ (8 * Z.of_nat (width L))).

Lemma length_field b : length b = bs -> length (field L b) = width L.
Proof.
  destruct HL as [Hw Ho]. intros H. unfold field.
  destruct (big_endian L); autorewrite with len; lia.
Qed.

Lemma length_set_field b f : length b = bs -> length f = width L -> length (set_field L b f) = bs.
Proof.
  destruct HL as [Hw Ho]. intros H Hf. unfold set_field. destruct (big_endian L); autorewrite with len; lia.
Qed.

Lemma is_bytes_field b : is_bytes b -> is_bytes (field L b).
Proof.
  intros H. unfold field.
  destruct (big_endian L); [apply Forall_reverse|]; by apply Forall_take, Forall_drop.
Qed.

Lemma is_bytes_set_field b f : is_bytes b -> is_bytes f -> is_bytes (set_field L b f).
Proof.
  intros Hb Hf. unfold set_field. rewrite !Forall_app.
  split; [by apply Forall_take|]. split; [|by apply Forall_drop].
  destruct (big_endian L); [by apply Forall_reverse|done].
Qed.

Lemma field_set b f : length b = bs -> length f = width L -> field L (set_field L b f) = f.
Proof.
  destruct HL as [Hw Ho]. intros Hb Hf. unfold field, set_field.
  assert (Hr : length (if big_endian L then reverse f else f) = width L)
    by (destruct (big_endian L); autorewrite with len; done).
  rewrite drop_app_ge by (autorewrite with len; lia).
  rewrite length_take, Nat.min_l, Nat.sub_diag, drop_0 by lia.
  rewrite take_app_length' by done. destruct (big_endian L); [by rewrite reverse_involutive|done].
Qed.

Lemma set_field_set b f g : length b = bs -> length f = width L ->
  set_field L (set_field L b f) g = set_field L b g.
Proof.
  destruct HL as [Hw Ho]. intros Hb Hf. unfold set_field.
  assert (Hr : length (if big_endian L then reverse f else f) = width L)
    by (destruct (big_endian L); autorewrite with len; done).
  rewrite take_app_length' by (autorewrite with len; lia). do 2 f_equal.
  rewrite app_assoc. rewrite drop_app_length' by (autorewrite with len; lia). done.
Qed.

Lemma set_field_same b : length b = bs -> set_field L b (field L b) = b.
Proof.
  intros Hb. unfold set_field, field.
  replace (if big_endian L then reverse _ else _) with (take (width L) (drop (offset L) b))
    by (destruct (big_endian L); by rewrite ?reverse_involutive).
  rewrite <- drop_drop, take_drop, take_drop. done.
Qed.

(** The bytes outside the field agree. *)
Lemma const_equal_iff a b : length a = bs -> length b = bs ->
  sar_ctr_const_equal a b L = true <-> b = set_field L a (field L b).
Proof.
  destruct HL as [Hw Ho]. intros Ha Hb. unfold sar_ctr_const_equal. rewrite forallb_forall.
  transitivity (take (offset L) a = take (offset L) b /\
                drop (offset L + width L) a = drop (offset L + width L) b).
  - split.
    + intros H. assert (Hi : forall i, (i < bs)%nat -> ~ (offset L <= i < offset L + width L)%nat -> rd a i = rd b i).
      { intros i Hi Ho'. specialize (H i ltac:(apply in_seq; lia)).
        destruct (Nat.leb_spec (offset L) i), (Nat.ltb_spec i (offset L + width L)); cbn in H; bsimp; lia. }
      split; apply Mem.list_eq_rd; autorewrite with len; try lia; intros i Hr.
      * rewrite !Mem.rd_take by lia. apply Hi; lia.
      * rewrite !Mem.rd_drop. apply Hi; lia.
    + intros [H1 H2] i Hi%in_seq.
      destruct (Nat.leb_spec (offset L) i), (Nat.ltb_spec i (offset L + width L)); cbn; try done;
        apply Z.eqb_eq; try lia.
      * replace i with (offset L + width L + (i - offset L - width L))%nat by lia.
        by rewrite <- !Mem.rd_drop, H2.
      * by rewrite <- (Mem.rd_take a i (offset L)), <- (Mem.rd_take b i (offset L)), H1 by lia.
  - split.
    + intros [H1 H2]. rewrite <- (set_field_same b Hb) at 1. unfold set_field. by rewrite H1, H2.
    + intros E. rewrite E at 1 2. unfold set_field.
      assert (Hr : length (if big_endian L then reverse (field L b) else field L b) = width L)
        by (destruct (big_endian L); autorewrite with len; by rewrite length_field).
      rewrite take_app_length' by (autorewrite with len; lia). split; [done|].
      rewrite app_assoc. by rewrite drop_app_length' by (autorewrite with len; lia).
Qed.

Lemma read_write b v : length b = bs -> is_bytes b ->
  sar_ctr_field_read (sar_ctr_field_write b L v) L = v mod modulus.
Proof.
  intros Hb Hbb. rewrite write_field by done.
  rewrite read_field; [|done|by apply length_set_field, length_le_bytes|].
  - rewrite field_set by (done || apply length_le_bytes). apply le_val_le_bytes.
    apply Z.mod_pos_bound. apply Z.pow_pos_nonneg; lia.
  - apply is_bytes_set_field; [done|apply is_bytes_le_bytes].
Qed.

(** The counter block [n] steps after [c]. *)
Definition ctr_add (c : bytes) (n : Z) : bytes := sar_ctr_field_write c L (sar_ctr_field_read c L + n).

Lemma write_block b v : is_block bs b -> is_block bs (sar_ctr_field_write b L v).
Proof.
  intros [Hb Hbb]. rewrite write_field by done. split; [by apply length_set_field, length_le_bytes|].
  apply is_bytes_set_field; [done|apply is_bytes_le_bytes].
Qed.

Lemma write_write b v w : is_block bs b ->
  sar_ctr_field_write (sar_ctr_field_write b L v) L w = sar_ctr_field_write b L w.
Proof.
  intros Hb. pose proof (write_block b v Hb) as [Hl _]. destruct Hb as [Hb Hbb].
  rewrite (write_field L (sar_ctr_field_write b L v)) by done. rewrite !write_field by done.
  by apply set_field_set, length_le_bytes.
Qed.

Lemma write_mod b v w : is_block bs b -> v mod modulus = w mod modulus ->
  sar_ctr_field_write b L v = sar_ctr_field_write b L w.
Proof. intros [Hb _] H. by rewrite !write_field, H. Qed.

Lemma write_read b : is_block bs b -> sar_ctr_field_write b L (sar_ctr_field_read b L) = b.
Proof.
  intros [Hb Hbb]. rewrite write_field, read_field by done.
  rewrite Z.mod_small by (rewrite <- (length_field b Hb); by apply le_val_range, is_bytes_field).
  rewrite <- (length_field b Hb) at 1. rewrite le_bytes_le_val by by apply is_bytes_field.
  by apply set_field_same.
Qed.

Lemma ctr_add_block c n : is_block bs c -> is_block bs (ctr_add c n).
Proof. apply write_block. Qed.

Lemma ctr_add_add c n m : is_block bs c -> ctr_add (ctr_add c n) m = ctr_add c (n + m).
Proof.
  intros Hc. unfold ctr_add. rewrite write_write by done. destruct Hc as [Hc Hcb].
  rewrite read_write by done. apply write_mod; [done|].
  rewrite Z.add_mod_idemp_l by (apply Z.pow_nonzero; lia). f_equal. lia.
Qed.

Lemma ctr_add_0 c : is_block bs c -> ctr_add c 0 = c.
Proof. intros Hc. unfold ctr_add. rewrite Z.add_0_r. by apply write_read. Qed.

Lemma u64_mod_modulus x : u64 x mod modulus = x mod modulus.
Proof.
  destruct HL as [Hw _]. rewrite u64_mod. symmetry.
  rewrite <- (Z.mod_mod_divide x (2 ^ 64) modulus); [done|].
  exists (2 ^ (64 - 8 * Z.of_nat (width L))). rewrite <- Z.pow_add_r by lia. f_equal. lia.
Qed.

Lemma ctr_add_u64 c n : is_block bs c -> sar_ctr_field_write c L (u64 (sar_ctr_field_read c L + n)) = ctr_add c n.
Proof. intros Hc. apply write_mod; [done|apply u64_mod_modulus]. Qed.

(** The test of [generic_ctr]: the second counter block follows the first. *)
Lemma counter_follows c0 c1 : is_block bs c0 -> is_block bs c1 ->
  sar_ctr_const_equal c0 c1 L = true /\
    u64 (sar_ctr_field_read c0 L + 1) .& sar_ctr_field_mask (width L) = sar_ctr_field_read c1 L <->
  c1 = ctr_add c0 1.
Proof.
  intros [H0 Hb0] [H1 Hb1]. rewrite const_equal_iff by done.
  rewrite field_mask_mod, u64_mod_modulus by apply HL. split.
  - intros [E1 E2]. unfold ctr_add. rewrite write_field, E2, read_field by done.
    rewrite <- (length_field c1 H1) at 1. rewrite le_bytes_le_val by by apply is_bytes_field. done.
  - intros ->. unfold ctr_add. split; [|by rewrite read_write].
    rewrite write_field by done. by rewrite field_set by (done || apply length_le_bytes).
Qed.
End Layout.

End CtrLayout.

Module Modes.
Import CtrLayout.

Record sar_iv_out_t := { iv_bytes : bytes; iv_length : Z; iv_tag : Z }.

Definition iv_clear : sar_iv_out_t :=
  {| iv_bytes := replicate SEMANTICS_AR_IV_MAX 0; iv_length := 0; iv_tag := 0 |}.

(** [iv->bytes[0 .. bs) = b; iv->length = bs] *)
Definition iv_set (iv : sar_iv_out_t) (b : bytes) : sar_iv_out_t :=
  {| iv_bytes := b ++ drop (length b) (iv_bytes iv); iv_length := u8 (Z.of_nat (length b));
     iv_tag := iv_tag iv |}.

(** One pass of the loop of [gf128_mul_alpha] over the bytes. *)
Fixpoint mul_alpha_loop (l : bytes) (carry : Z) : bytes * Z :=
  match l with
  | [] => ([], carry)
  | x :: l =>
    let next_carry := u8 ((x .>> 7) .& 1) in
    let '(l', c) := mul_alpha_loop l next_carry in
    (u8 ((x .<< 1) .| carry) :: l', c)
  end.

Definition gf128_mul_alpha (tweak : bytes) : bytes :=
  let '(t, carry) := mul_alpha_loop tweak 0 in
  if carry =? 0 then t else <[0%nat := rd t 0 ⊕ 0x87]> t.

(** The [bs] bytes at [p + s]. *)
Definition blk (p : bytes) (s bs : nat) : bytes := take bs (drop s p).

(** The alignments [s < bs] at which [k] blocks fit into the sample. *)
Definition alignments (bs len k : nat) : list nat :=
  filter (fun s => (s + k * bs <= len)%nat) (seq 0 bs).

Section Modes.
Context (bc : block_cipher_ctx_t).

Abbreviation bs := (block_size bc).

Definition ecb_at (pt ct : bytes) (s : nat) : option unit :=
  match encrypt bc (blk pt s bs) with
  | Some out => if bytes_eqb out (blk ct s bs) then Some tt else None
  | None => None
  end.

Definition generic_ecb (pt ct : bytes) (len : nat) : option unit :=
  first_some (ecb_at pt ct) (alignments bs len 1).

Definition cbc_iv (pt ct : bytes) (file_offset : Z) (iv : sar_iv_out_t) : sar_iv_out_t :=
  if file_offset =? 0 then
    match decrypt bc (blk ct 0 bs) with
    | Some dec => iv_set iv (xor_bytes dec (blk pt 0 bs))
    | None => iv
    end
  else iv.

Definition cbc_at (pt ct : bytes) (file_offset : Z) (iv : sar_iv_out_t) (s : nat)
  : option sar_iv_out_t :=
  match decrypt bc (blk ct (s + bs) bs) with
  | Some dec =>
    if bytes_eqb (xor_bytes dec (blk ct s bs)) (blk pt (s + bs) bs)
    then Some (cbc_iv pt ct file_offset iv) else None
  | None => None
  end.

Definition generic_cbc (pt ct : bytes) (len : nat) (file_offset : Z) (iv : sar_iv_out_t)
  : option sar_iv_out_t :=
  first_some (cbc_at pt ct file_offset iv) (alignments bs len 2).

Definition cfb_iv (pt ct : bytes) (file_offset : Z) (iv : sar_iv_out_t) : sar_iv_out_t :=
  if file_offset =? 0 then
    match decrypt bc (xor_bytes (blk pt 0 bs) (blk ct 0 bs)) with
    | Some d => iv_set iv d
    | None => iv
    end
  else iv.

Definition cfb_at (pt ct : bytes) (file_offset : Z) (iv : sar_iv_out_t) (s : nat)
  : option sar_iv_out_t :=
  match encrypt bc (blk ct s bs) with
  | Some enc =>
    if bytes_eqb (xor_bytes enc (blk ct (s + bs) bs)) (blk pt (s + bs) bs)
    then Some (cfb_iv pt ct file_offset iv) else None
  | None => None
  end.

Definition generic_cfb (pt ct : bytes) (len : nat) (file_offset : Z) (iv : sar_iv_out_t)
  : option sar_iv_out_t :=
  first_some (cfb_at pt ct file_offset iv) (alignments bs len 2).

(** [n] decryptions in a row; [None] when one of them fails. *)
Fixpoint decrypt_n (n : nat) (cur : bytes) : option bytes :=
  match n with
  | O => Some cur
  | S n => match decrypt bc cur with Some prev => decrypt_n n prev | None => None end
  end.

Definition ofb_iv (ks0 : bytes) (file_offset : Z) (s : nat) (iv : sar_iv_out_t) : sar_iv_out_t :=
  let blk := u64 (file_offset + Z.of_nat s) / Z.of_nat bs in
  match decrypt_n (Z.to_nat blk) ks0 with
  | Some cur => match decrypt bc cur with Some d => iv_set iv d | None => iv end
  | None => iv
  end.

Definition ofb_at (pt ct : bytes) (file_offset : Z) (iv : sar_iv_out_t) (s : nat)
  : option sar_iv_out_t :=
  let ks0 := xor_bytes (blk pt s bs) (blk ct s bs) in
  let ks1 := xor_bytes (blk pt (s + bs) bs) (blk ct (s + bs) bs) in
  match encrypt bc ks0 with
  | Some enc => if bytes_eqb enc ks1 then Some (ofb_iv ks0 file_offset s iv) else None
  | None => None
  end.

Definition generic_ofb (pt ct : bytes) (len : nat) (file_offset : Z) (iv : sar_iv_out_t)
  : option sar_iv_out_t :=
  first_some (ofb_at pt ct file_offset iv) (alignments bs len 2).

(** One entry [t] of the table of counter layouts, for the counter blocks [c0], [c1]. *)
Definition ctr_layout_at (c0 c1 : bytes) (file_offset : Z) (s : nat) (iv : sar_iv_out_t)
    (entry : nat * sar_ctr_layout_t) : option sar_iv_out_t :=
  let '(t, L) := entry in
  if negb (layout_block_size L =? bs)%nat then None
  else if negb (sar_ctr_const_equal c0 c1 L) then None
  else
    let v0 := sar_ctr_field_read c0 L in
    let v1 := sar_ctr_field_read c1 L in
    if negb (u64 (v0 + 1) .& sar_ctr_field_mask (width L) =? v1) then None
    else
      let blk := u64 (file_offset + Z.of_nat s) / Z.of_nat bs in
      let b := sar_ctr_field_write (iv_bytes (iv_set iv c0)) L (u64 (v0 - blk)) in
      Some {| iv_bytes := b; iv_length := u8 (Z.of_nat bs); iv_tag := u8 (Z.of_nat t + 1) |}.

Definition ctr_at (pt ct : bytes) (file_offset : Z) (iv : sar_iv_out_t) (s : nat)
  : option sar_iv_out_t :=
  let ks0 := xor_bytes (blk pt s bs) (blk ct s bs) in
  let ks1 := xor_bytes (blk pt (s + bs) bs) (blk ct (s + bs) bs) in
  match decrypt bc ks0, decrypt bc ks1 with
  | Some c0, Some c1 =>
    first_some (ctr_layout_at c0 c1 file_offset s iv) (zip (seq 0 8) SAR_CTR_LAYOUTS)
  | _, _ => None
  end.

Definition generic_ctr (pt ct : bytes) (len : nat) (file_offset : Z) (iv : sar_iv_out_t)
  : option sar_iv_out_t :=
  first_some (ctr_at pt ct file_offset iv) (alignments bs len 2).

(** The mode and the initial vector; [None] is the return value 0. *)
Definition engine_try_block_modes (pt ct : bytes) (len : nat) (file_offset : Z)
  : option (Z * sar_iv_out_t) :=
  let iv := iv_clear in
  match generic_ecb pt ct len with
  | Some _ => Some (SAR_MODE_ECB, iv)
  | None =>
    if (2 * bs <=? len)%nat then
      match generic_cbc pt ct len file_offset iv with
      | Some iv => Some (SAR_MODE_CBC, iv)
      | None =>
      match generic_cfb pt ct len file_offset iv with
      | Some iv => Some (SAR_MODE_CFB, iv)
      | None =>
      match generic_ofb pt ct len file_offset iv with
      | Some iv => Some (SAR_MODE_OFB, iv)
      | None =>
      match generic_ctr pt ct len file_offset iv with
      | Some iv => Some (SAR_MODE_CTR, iv)
      | None => None
      end end end end
    else None
  end.
End Modes.

Definition xts_tweak (bc2 : block_cipher_ctx_t) (data_unit : Z) (block_in_unit : nat) : option bytes :=
  match encrypt bc2 (le_bytes 8 data_unit ++ replicate 8 0) with
  | Some tweak => Some (Nat.iter block_in_unit gf128_mul_alpha tweak)
  | None => None
  end.

Definition xts_tweak_match (bc1 bc2 : block_cipher_ctx_t) (data_unit : Z) (block_in_unit : nat)
    (pt ct : bytes) : bool :=
  match xts_tweak bc2 data_unit block_in_unit with
  | None => false
  | Some tweak =>
    match encrypt bc1 (xor_bytes (blk pt 0 16) tweak) with
    | None => false
    | Some enc => bytes_eqb (xor_bytes enc tweak) (blk ct 0 16)
    end
  end.

(** The data unit size; [None] is the return value 0. *)
Definition engine_verify_xts (bc1 bc2 : block_cipher_ctx_t) (pt ct : bytes) (len : nat)
    (file_offset : Z) : option Z :=
  let skip := (16 - (file_offset .& 15)) .& 15 in
  if Z.of_nat len <? skip + 16 then None
  else
    let aligned := u64 (file_offset + skip) in
    let apt := drop (Z.to_nat skip) pt in
    let act := drop (Z.to_nat skip) ct in
    first_some (fun du =>
      let unit := aligned / du in
      let block_in_unit := u32 (aligned mod du / 16) in
      if xts_tweak_match bc1 bc2 unit (Z.to_nat block_in_unit) apt act then Some du else None)
      [512; 4096].

(** ** What a mode means on a sample

    [mode_holds bc m pt ct s]: the blocks of the sample at [s] are related as
    the mode [m] relates consecutive blocks of a file. *)

Section Spec.
Context (bc : block_cipher_ctx_t) `{!BlockCipher bc}.

Abbreviation bs := (block_size bc).

(** The key stream of the sample at [s]. *)
Definition ks_at (pt ct : bytes) (s : nat) : bytes := xor_bytes (blk pt s bs) (blk ct s bs).

Definition mode_holds (m : Z) (pt ct : bytes) (s : nat) : Prop :=
  if decide (m = SAR_MODE_ECB) then blk ct s bs = E bc (blk pt s bs)
  else if decide (m = SAR_MODE_CBC) then
    blk ct (s + bs) bs = E bc (xor_bytes (blk pt (s + bs) bs) (blk ct s bs))
  else if decide (m = SAR_MODE_CFB) then
    blk ct (s + bs) bs = xor_bytes (blk pt (s + bs) bs) (E bc (blk ct s bs))
  else if decide (m = SAR_MODE_OFB) then ks_at pt ct (s + bs) = E bc (ks_at pt ct s)
  else if decide (m = SAR_MODE_CTR) then
    exists L c, L ∈ SAR_CTR_LAYOUTS /\ layout_block_size L = bs /\ is_block bs c /\
      ks_at pt ct s = E bc c /\ ks_at pt ct (s + bs) = E bc (ctr_add L c 1)
  else False.

(** How many blocks of the sample the test of a mode looks at. *)
Definition mode_blocks (m : Z) : nat := if decide (m = SAR_MODE_ECB) then 1 else 2.

(** The vector [v] is the one the result carries. *)
Definition carries (iv : sar_iv_out_t) (v : bytes) : Prop :=
  is_block bs v /\ iv_bytes iv = v ++ replicate (SEMANTICS_AR_IV_MAX - bs) 0 /\
  iv_length iv = Z.of_nat bs.

(** What the initial vector of a result means. *)
Definition iv_holds (m : Z) (pt ct : bytes) (fo : Z) (s : nat) (iv : sar_iv_out_t) : Prop :=
  let n := u64 (fo + Z.of_nat s) / Z.of_nat bs in
  if decide (m = SAR_MODE_ECB) then iv = iv_clear
  else if decide (m = SAR_MODE_CBC) then
    if decide (fo = 0) then exists v, carries iv v /\ blk ct 0 bs = E bc (xor_bytes (blk pt 0 bs) v)
    else iv = iv_clear
  else if decide (m = SAR_MODE_CFB) then
    if decide (fo = 0) then exists v, carries iv v /\ ks_at pt ct 0 = E bc v else iv = iv_clear
  else if decide (m = SAR_MODE_OFB) then
    exists v, carries iv v /\ ks_at pt ct s = Nat.iter (S (Z.to_nat n)) (E bc) v
  else
    exists v t L, carries iv v /\ iv_tag iv = Z.of_nat t + 1 /\ SAR_CTR_LAYOUTS !! t = Some L /\
      layout_block_size L = bs /\ ks_at pt ct s = E bc (ctr_add L v n).

(** ** The tests are exact *)

Record sample_ok (pt ct : bytes) (len : nat) : Prop := {
  so_pt : is_bytes pt; so_ct : is_bytes ct;
  so_pt_len : (len <= length pt)%nat; so_ct_len : (len <= length ct)%nat
}.

Lemma blk_block p s len : is_bytes p -> (len <= length p)%nat -> (s + bs <= len)%nat ->
  is_block bs (blk p s bs).
Proof.
  intros Hb Hl Hs. split; [|by apply Forall_take, Forall_drop].
  unfold blk. rewrite length_take, length_drop. lia.
Qed.

Lemma alignments_elem n len k s : s ∈ alignments n len k <-> (s < n /\ s + k * n <= len)%nat.
Proof. unfold alignments. rewrite list_elem_of_filter, elem_of_seq. lia. Qed.

Context (pt ct : bytes) (len : nat) (Hs : sample_ok pt ct len).

Lemma pt_block s : (s + bs <= len)%nat -> is_block bs (blk pt s bs).
Proof. intros. by eapply blk_block; [apply Hs|apply Hs|]. Qed.

Lemma ct_block s : (s + bs <= len)%nat -> is_block bs (blk ct s bs).
Proof. intros. by eapply blk_block; [apply Hs|apply Hs|]. Qed.

Lemma ks_block s : (s + bs <= len)%nat -> is_block bs (ks_at pt ct s).
Proof. intros. apply xor_bytes_block; [by apply pt_block|by apply ct_block]. Qed.

Lemma ecb_at_iff s : (s + bs <= len)%nat ->
  ecb_at bc pt ct s = Some tt <-> mode_holds SAR_MODE_ECB pt ct s.
Proof.
  intros H. unfold ecb_at, mode_holds. rewrite decide_True by done.
  rewrite (encrypt_E bc) by by apply pt_block.
  unfold bytes_eqb. case_bool_decide as Hd; split; intros H1; done || congruence.
Qed.

Lemma cbc_at_iff fo iv s r : (s + 2 * bs <= len)%nat ->
  cbc_at bc pt ct fo iv s = Some r <->
  mode_holds SAR_MODE_CBC pt ct s /\ r = cbc_iv bc pt ct fo iv.
Proof.
  intros H. unfold cbc_at. change (mode_holds _ pt ct s) with
    (blk ct (s + bs) bs = E bc (xor_bytes (blk pt (s + bs) bs) (blk ct s bs))).
  destruct (pt_block (s + bs)) as [Hp Hpb]; [lia|]. destruct (ct_block s) as [Hc Hcb]; [lia|].
  assert (Hc' : is_block bs (blk ct (s + bs) bs)) by (apply ct_block; lia).
  rewrite (decrypt_D bc) by done. destruct (D_block bc _ Hc') as [Hd Hdb].
  assert (Hiff : xor_bytes (D bc (blk ct (s + bs) bs)) (blk ct s bs) = blk pt (s + bs) bs <->
                 blk ct (s + bs) bs = E bc (xor_bytes (blk pt (s + bs) bs) (blk ct s bs))).
  { rewrite xor_bytes_move by lia. apply D_eq; [done| |done]. by apply xor_bytes_block. }
  rewrite <- Hiff. apply if_bytes_eqb.
Qed.

Lemma cfb_at_iff fo iv s r : (s + 2 * bs <= len)%nat ->
  cfb_at bc pt ct fo iv s = Some r <->
  mode_holds SAR_MODE_CFB pt ct s /\ r = cfb_iv bc pt ct fo iv.
Proof.
  intros H. unfold cfb_at. change (mode_holds _ pt ct s) with
    (blk ct (s + bs) bs = xor_bytes (blk pt (s + bs) bs) (E bc (blk ct s bs))).
  destruct (pt_block (s + bs)) as [Hp _]; [lia|]. destruct (ct_block (s + bs)) as [Hc _]; [lia|].
  assert (Hc' : is_block bs (blk ct s bs)) by (apply ct_block; lia).
  rewrite (encrypt_E bc) by done. destruct (E_block bc _ Hc') as [He _].
  rewrite xor_bytes_comm, <- (xor_bytes_move (blk ct (s + bs) bs)) by lia.
  apply if_bytes_eqb.
Qed.

Lemma ofb_at_iff fo iv s r : (s + 2 * bs <= len)%nat ->
  ofb_at bc pt ct fo iv s = Some r <->
  mode_holds SAR_MODE_OFB pt ct s /\ r = ofb_iv bc (ks_at pt ct s) fo s iv.
Proof.
  intros H. unfold ofb_at. change (mode_holds _ pt ct s) with
    (ks_at pt ct (s + bs) = E bc (ks_at pt ct s)).
  fold (ks_at pt ct s) (ks_at pt ct (s + bs)).
  rewrite (encrypt_E bc) by (apply ks_block; lia). rewrite (eq_comm (ks_at pt ct (s + bs))).
  apply if_bytes_eqb.
Qed.

(** ** The counter test *)

Lemma write_app L c rest v : layout_ok L -> length c = layout_block_size L ->
  sar_ctr_field_write (c ++ rest) L v = sar_ctr_field_write c L v ++ rest.
Proof.
  intros [Hw Ho] Hc. unfold sar_ctr_field_write. cbv zeta.
  assert (Hfold : forall (pos : nat -> nat) (g : nat -> Z) n c,
    (forall i, (i < n)%nat -> (pos i < length c)%nat) ->
    fold_left (fun b i => <[pos i := g i]> b) (seq 0 n) (c ++ rest) =
    fold_left (fun b i => <[pos i := g i]> b) (seq 0 n) c ++ rest).
  { intros pos g n. induction n as [|n IH]; intros c' Hp; [done|].
    rewrite !fold_seq_snoc, IH by (intros; apply Hp; lia). cbn [Nat.add].
    apply insert_app_l. assert (Hl : forall k, length (fold_left (fun b i => <[pos i := g i]> b) (seq 0 k) c') = length c').
    { intros k. induction k as [|k IHk]; [done|]. by rewrite fold_seq_snoc, length_insert. }
    rewrite Hl. apply Hp. lia. }
  destruct (big_endian L); apply Hfold; intros; lia.
Qed.

Lemma layout_lookup t L : (t, L) ∈ zip (seq 0 8) SAR_CTR_LAYOUTS <-> SAR_CTR_LAYOUTS !! t = Some L.
Proof.
  split.
  - intros H. cbn in H. repeat (apply elem_of_cons in H as [[= -> ->] | H]; [done|]). by apply elem_of_nil in H.
  - intros H. assert (Ht : (t < 8)%nat) by (by apply lookup_lt_Some in H).
    apply list_elem_of_lookup. exists t. rewrite lookup_zip_with, lookup_seq_lt by lia. cbn -[SAR_CTR_LAYOUTS].
    by rewrite H.
Qed.

Lemma ctr_at_sound fo s r : (s + 2 * bs <= len)%nat ->
  ctr_at bc pt ct fo iv_clear s = Some r ->
  mode_holds SAR_MODE_CTR pt ct s /\ iv_holds SAR_MODE_CTR pt ct fo s r.
Proof.
  intros H. unfold ctr_at. fold (ks_at pt ct s) (ks_at pt ct (s + bs)).
  assert (H0 : is_block bs (ks_at pt ct s)) by (apply ks_block; lia).
  assert (H1 : is_block bs (ks_at pt ct (s + bs))) by (apply ks_block; lia).
  rewrite (decrypt_D bc _ H0), (decrypt_D bc _ H1).
  intros ([t L] & Ht%layout_lookup & Hf)%first_some_Some.
  assert (HL : layout_ok L) by (by eapply layouts_ok, list_elem_of_lookup_2).
  unfold ctr_layout_at in Hf.
  destruct (Nat.eqb_spec (layout_block_size L) bs) as [Hbs|]; [|done]. cbn [negb] in Hf.
  destruct (sar_ctr_const_equal _ _ L) eqn:Ec; [|done]. cbn [negb] in Hf.
  destruct (Z.eqb_spec (u64 (sar_ctr_field_read (D bc (ks_at pt ct s)) L + 1) .& sar_ctr_field_mask (width L))
    (sar_ctr_field_read (D bc (ks_at pt ct (s + bs))) L)) as [Ev|]; [|done]. cbn [negb] in Hf.
  injection Hf as <-.
  set (c0 := D bc (ks_at pt ct s)) in *. set (c1 := D bc (ks_at pt ct (s + bs))) in *.
  assert (B0 : is_block (layout_block_size L) c0) by (rewrite Hbs; by apply D_block).
  assert (B1 : is_block (layout_block_size L) c1) by (rewrite Hbs; by apply D_block).
  assert (Hc1 : c1 = ctr_add L c0 1) by (apply counter_follows; done).
  assert (E0 : ks_at pt ct s = E bc c0) by (subst c0; by rewrite E_D).
  split.
  - change (exists L c, L ∈ SAR_CTR_LAYOUTS /\ layout_block_size L = bs /\ is_block bs c /\
      ks_at pt ct s = E bc c /\ ks_at pt ct (s + bs) = E bc (ctr_add L c 1)).
    exists L, c0. split; [by eapply list_elem_of_lookup_2|]. split; [done|].
    split; [by rewrite <- Hbs|]. split; [done|]. rewrite <- Hc1. subst c1. by rewrite E_D.
  - set (n := u64 (fo + Z.of_nat s) / Z.of_nat bs).
    change (exists v t' L', carries {| iv_bytes := sar_ctr_field_write (iv_bytes (iv_set iv_clear c0)) L
              (u64 (sar_ctr_field_read c0 L - n)); iv_length := u8 (Z.of_nat bs);
              iv_tag := u8 (Z.of_nat t + 1) |} v /\ u8 (Z.of_nat t + 1) = Z.of_nat t' + 1 /\
      SAR_CTR_LAYOUTS !! t' = Some L' /\ layout_block_size L' = bs /\ ks_at pt ct s = E bc (ctr_add L' v n)).
    exists (ctr_add L c0 (- n)), t, L. pose proof (bs_pos bc) as Hpos.
    assert (Ht8 : (t < 8)%nat) by (by apply lookup_lt_Some in Ht).
    split; [|split; [rewrite u8_small; [done|unfold is_u; lia]|split; [done|split; [done|]]]].
    + split; [rewrite <- Hbs; by apply ctr_add_block|]. cbn [iv_bytes iv_length]. split.
      * unfold iv_set. cbn [iv_bytes]. destruct B0 as [Bl Bb]. rewrite write_app by done.
        replace (sar_ctr_field_read c0 L - n) with (sar_ctr_field_read c0 L + - n) by lia.
        rewrite ctr_add_u64 by done. rewrite Bl, Hbs. cbn [iv_bytes iv_clear].
        by rewrite drop_replicate.
      * rewrite u8_small; [done|unfold is_u; lia].
    + rewrite ctr_add_add by done. replace (- n + n) with 0 by lia. by rewrite ctr_add_0.
Qed.

Lemma ctr_at_complete fo s : (s + 2 * bs <= len)%nat ->
  mode_holds SAR_MODE_CTR pt ct s -> ctr_at bc pt ct fo iv_clear s <> None.
Proof.
  intros H (L & c & HL & Hbs & Hc & E0 & E1). unfold ctr_at. fold (ks_at pt ct s) (ks_at pt ct (s + bs)).
  pose proof (layouts_ok L HL) as Hok. rewrite <- Hbs in Hc.
  assert (Hc1 : is_block (layout_block_size L) (ctr_add L c 1)) by by apply ctr_add_block.
  rewrite !(decrypt_D bc) by (apply ks_block; lia).
  rewrite E0, E1, !(D_E bc) by (by rewrite <- Hbs).
  apply list_elem_of_lookup in HL as [t Ht].
  eapply first_some_hit; [by apply layout_lookup|]. unfold ctr_layout_at.
  rewrite Hbs, Nat.eqb_refl. cbn [negb].
  destruct (proj2 (counter_follows L Hok c (ctr_add L c 1) Hc Hc1) eq_refl) as [-> ->].
  rewrite Z.eqb_refl. done.
Qed.

(** ** The initial vectors *)

Lemma carries_set v : is_block bs v -> carries (iv_set iv_clear v) v.
Proof.
  intros Hv. split; [done|]. destruct Hv as [Hl _]. unfold iv_set. cbn [iv_bytes iv_length].
  pose proof (bs_pos bc). rewrite Hl. split.
  - cbn [iv_bytes iv_clear]. by rewrite drop_replicate.
  - rewrite u8_small; [done|unfold is_u; lia].
Qed.

Lemma cbc_iv_holds fo s : (bs <= len)%nat ->
  iv_holds SAR_MODE_CBC pt ct fo s (cbc_iv bc pt ct fo iv_clear).
Proof.
  intros H. change (if decide (fo = 0) then exists v, carries (cbc_iv bc pt ct fo iv_clear) v /\
      blk ct 0 bs = E bc (xor_bytes (blk pt 0 bs) v) else cbc_iv bc pt ct fo iv_clear = iv_clear).
  unfold cbc_iv. destruct (decide (fo = 0)) as [->|Hfo].
  - assert (Hc : is_block bs (blk ct 0 bs)) by (by apply ct_block).
    assert (Hp : is_block bs (blk pt 0 bs)) by (by apply pt_block).
    rewrite Z.eqb_refl, (decrypt_D bc) by done. pose proof (D_block bc _ Hc) as Hd.
    eexists. split; [by apply carries_set, xor_bytes_block|].
    rewrite (xor_bytes_comm (D bc _)), <- (xor_bytes_comm (xor_bytes _ _)).
    rewrite (xor_bytes_comm (blk pt 0 bs) (D _ _)), xor_bytes_cancel; [by rewrite E_D|].
    destruct Hd as [-> _], Hp as [-> _]. lia.
  - by rewrite (proj2 (Z.eqb_neq _ _) Hfo).
Qed.

Lemma cfb_iv_holds fo s : (bs <= len)%nat ->
  iv_holds SAR_MODE_CFB pt ct fo s (cfb_iv bc pt ct fo iv_clear).
Proof.
  intros H. change (if decide (fo = 0) then exists v, carries (cfb_iv bc pt ct fo iv_clear) v /\
      ks_at pt ct 0 = E bc v else cfb_iv bc pt ct fo iv_clear = iv_clear).
  unfold cfb_iv. destruct (decide (fo = 0)) as [->|Hfo].
  - assert (Hk : is_block bs (ks_at pt ct 0)) by (by apply ks_block).
    rewrite Z.eqb_refl, (decrypt_D bc) by done. eexists.
    split; [by apply carries_set, D_block|]. by rewrite E_D.
  - by rewrite (proj2 (Z.eqb_neq _ _) Hfo).
Qed.

Lemma decrypt_n_iter n b : is_block bs b ->
  decrypt_n bc n b = Some (Nat.iter n (D bc) b) /\ is_block bs (Nat.iter n (D bc) b) /\
  Nat.iter n (E bc) (Nat.iter n (D bc) b) = b.
Proof.
  revert b. induction n as [|n IH]; intros b Hb; [done|].
  cbn [decrypt_n]. rewrite (decrypt_D bc) by done.
  destruct (IH (D bc b)) as (H1 & H2 & H3); [by apply D_block|].
  rewrite H1, (Nat.iter_succ_r n (D bc) b). split; [done|]. split; [done|].
  rewrite Nat.iter_succ, H3. by rewrite E_D.
Qed.

Lemma ofb_iv_holds fo s : (s + bs <= len)%nat ->
  iv_holds SAR_MODE_OFB pt ct fo s (ofb_iv bc (ks_at pt ct s) fo s iv_clear).
Proof.
  intros H. set (n := u64 (fo + Z.of_nat s) / Z.of_nat bs).
  change (exists v, carries (ofb_iv bc (ks_at pt ct s) fo s iv_clear) v /\
    ks_at pt ct s = Nat.iter (S (Z.to_nat n)) (E bc) v).
  unfold ofb_iv. fold n.
  destruct (decrypt_n_iter (Z.to_nat n) (ks_at pt ct s)) as (H1 & H2 & H3); [by apply ks_block|].
  rewrite H1, (decrypt_D bc) by done. eexists. split; [by apply carries_set, D_block|].
  rewrite Nat.iter_succ_r, E_D by done. done.
Qed.

(** ** The search over the modes *)

(** The search order of the modes. *)
Definition search_order : list Z :=
  [SAR_MODE_ECB; SAR_MODE_CBC; SAR_MODE_CFB; SAR_MODE_OFB; SAR_MODE_CTR].

(** No alignment of the sample explains it in mode [m]. *)
Definition unexplained (m : Z) : Prop :=
  forall s, s ∈ alignments bs len (mode_blocks m) -> ~ mode_holds m pt ct s.

(** What one of the searches promises: a hit is explained, a miss is not explainable. *)
Definition search_ok (m fo : Z) (r : option sar_iv_out_t) : Prop :=
  match r with
  | Some iv => exists s, s ∈ alignments bs len (mode_blocks m) /\
      mode_holds m pt ct s /\ iv_holds m pt ct fo s iv
  | None => unexplained m
  end.

Lemma search_ok_first (f : nat -> option sar_iv_out_t) m fo :
  (forall s r, s ∈ alignments bs len (mode_blocks m) -> f s = Some r ->
    mode_holds m pt ct s /\ iv_holds m pt ct fo s r) ->
  (forall s, s ∈ alignments bs len (mode_blocks m) -> mode_holds m pt ct s -> f s <> None) ->
  search_ok m fo (first_some f (alignments bs len (mode_blocks m))).
Proof.
  intros Hsound Hcompl. unfold search_ok. destruct (first_some _ _) as [r|] eqn:Ef.
  - apply first_some_Some in Ef as (s & Hin & Hf). exists s. split; [done|]. by apply Hsound.
  - intros s Hin Hm. apply (Hcompl s Hin Hm). by eapply first_some_None in Ef.
Qed.

Lemma generic_cbc_ok fo : search_ok SAR_MODE_CBC fo (generic_cbc bc pt ct len fo iv_clear).
Proof.
  apply (search_ok_first (cbc_at bc pt ct fo iv_clear)); intros s.
  - intros r [? ?]%alignments_elem Hf. apply cbc_at_iff in Hf as [Hm ->]; [|done].
    split; [done|]. apply cbc_iv_holds. change (mode_blocks SAR_MODE_CBC) with 2%nat in *. lia.
  - intros [? ?]%alignments_elem Hm Hn.
    assert (Hf : cbc_at bc pt ct fo iv_clear s = Some (cbc_iv bc pt ct fo iv_clear))
      by (by apply cbc_at_iff). by rewrite Hn in Hf.
Qed.

Lemma generic_cfb_ok fo : search_ok SAR_MODE_CFB fo (generic_cfb bc pt ct len fo iv_clear).
Proof.
  apply (search_ok_first (cfb_at bc pt ct fo iv_clear)); intros s.
  - intros r [? ?]%alignments_elem Hf. apply cfb_at_iff in Hf as [Hm ->]; [|done].
    split; [done|]. apply cfb_iv_holds. change (mode_blocks SAR_MODE_CFB) with 2%nat in *. lia.
  - intros [? ?]%alignments_elem Hm Hn.
    assert (Hf : cfb_at bc pt ct fo iv_clear s = Some (cfb_iv bc pt ct fo iv_clear))
      by (by apply cfb_at_iff). by rewrite Hn in Hf.
Qed.

Lemma generic_ofb_ok fo : search_ok SAR_MODE_OFB fo (generic_ofb bc pt ct len fo iv_clear).
Proof.
  apply (search_ok_first (ofb_at bc pt ct fo iv_clear)); intros s.
  - intros r [? ?]%alignments_elem Hf. apply ofb_at_iff in Hf as [Hm ->]; [|done].
    split; [done|]. apply ofb_iv_holds. change (mode_blocks SAR_MODE_OFB) with 2%nat in *. lia.
  - intros [? ?]%alignments_elem Hm Hn.
    assert (Hf : ofb_at bc pt ct fo iv_clear s = Some (ofb_iv bc (ks_at pt ct s) fo s iv_clear))
      by (by apply ofb_at_iff). by rewrite Hn in Hf.
Qed.

Lemma generic_ctr_ok fo : search_ok SAR_MODE_CTR fo (generic_ctr bc pt ct len fo iv_clear).
Proof.
  apply (search_ok_first (ctr_at bc pt ct fo iv_clear)); intros s.
  - intros r [? ?]%alignments_elem Hf. by apply ctr_at_sound.
  - intros [? ?]%alignments_elem. by apply ctr_at_complete.
Qed.

Lemma generic_ecb_ok fo :
  search_ok SAR_MODE_ECB fo (match generic_ecb bc pt ct len with Some _ => Some iv_clear | None => None end).
Proof.
  unfold generic_ecb. destruct (first_some _ _) as [[]|] eqn:Ef.
  - apply first_some_Some in Ef as (s & Hin & Hf). exists s. split; [done|].
    apply alignments_elem in Hin as [? ?]. split; [|done]. apply ecb_at_iff; [lia|done].
  - intros s Hin Hm. assert (Hf : ecb_at bc pt ct s = None) by (by eapply first_some_None in Ef).
    apply alignments_elem in Hin as [? ?]. change (mode_blocks SAR_MODE_ECB) with 1%nat in *.
    apply ecb_at_iff in Hm; [|lia]. by rewrite Hf in Hm.
Qed.

Lemma unexplained_short m : m <> SAR_MODE_ECB -> (len < 2 * bs)%nat -> unexplained m.
Proof.
  intros Hm Hl s [? Hs']%alignments_elem. unfold mode_blocks in Hs'. rewrite decide_False in Hs' by done. lia.
Qed.

(** The modes before the found one do not explain the sample. *)
Lemma try_modes_exact fo :
  match engine_try_block_modes bc pt ct len fo with
  | Some (m, iv) => exists pre post, search_order = pre ++ m :: post /\ Forall unexplained pre /\
      search_ok m fo (Some iv)
  | None => Forall unexplained search_order
  end.
Proof.
  unfold engine_try_block_modes.
  pose proof (generic_ecb_ok fo) as H1. destruct (generic_ecb bc pt ct len).
  { exists [], [SAR_MODE_CBC; SAR_MODE_CFB; SAR_MODE_OFB; SAR_MODE_CTR]. by repeat split. }
  destruct (Nat.leb_spec (2 * bs) len) as [Hl|Hl]; cycle 1.
  { unfold search_order. repeat (apply Forall_cons; split; [|]); try done;
      by apply unexplained_short. }
  pose proof (generic_cbc_ok fo) as H2. destruct (generic_cbc bc pt ct len fo iv_clear).
  { exists [SAR_MODE_ECB], [SAR_MODE_CFB; SAR_MODE_OFB; SAR_MODE_CTR]. split; [done|]. by auto. }
  pose proof (generic_cfb_ok fo) as H3. destruct (generic_cfb bc pt ct len fo iv_clear).
  { exists [SAR_MODE_ECB; SAR_MODE_CBC], [SAR_MODE_OFB; SAR_MODE_CTR]. split; [done|]. by auto. }
  pose proof (generic_ofb_ok fo) as H4. destruct (generic_ofb bc pt ct len fo iv_clear).
  { exists [SAR_MODE_ECB; SAR_MODE_CBC; SAR_MODE_CFB], [SAR_MODE_CTR]. split; [done|]. by auto. }
  pose proof (generic_ctr_ok fo) as H5. destruct (generic_ctr bc pt ct len fo iv_clear).
  { exists [SAR_MODE_ECB; SAR_MODE_CBC; SAR_MODE_CFB; SAR_MODE_OFB], []. split; [done|].
    split; [|done]. repeat (apply Forall_cons; split; [assumption|]). constructor. }
  unfold search_order. repeat (apply Forall_cons; split; [assumption|]). constructor.
Qed.
End Spec.

(** ** The XTS tweak *)

Lemma le_val_xor_low b x : is_bytes b -> is_u8 x -> (0 < length b)%nat ->
  le_val (<[0%nat := rd b 0 ⊕ x]> b) = le_val b ⊕ x.
Proof.
  intros Hb Hx Hl. destruct b as [|y b]; [cbn in Hl; lia|].
  cbn [insert list_insert rd nth le_val]. apply Z.bits_inj'. intros i Hi.
  rewrite Z.lxor_spec, !Z.lor_spec, Z.lxor_spec, Z.shiftl_spec by done.
  destruct (Z_lt_le_dec i 8).
  - rewrite (Z.testbit_neg_r _ (i - 8)) by lia. btauto.
  - rewrite (testbit_high 8 x i) by done. btauto.
Qed.

Lemma mul_alpha_loop_spec l c : is_bytes l -> 0 <= c <= 1 ->
  let '(l', c') := mul_alpha_loop l c in
  length l' = length l /\ is_bytes l' /\ 0 <= c' <= 1 /\
  le_val l' + c' * 2 ^ (8 * Z.of_nat (length l)) = 2 * le_val l + c.
Proof.
  intros Hl. revert c. induction Hl as [|x l Hx Hl IH]; intros c Hc; cbn [mul_alpha_loop].
  { cbn. repeat split; try lia. constructor. }
  assert (Hn : u8 ((x .>> 7) .& 1) = x / 128).
  { unfold is_u in Hx. rewrite Z.shiftr_div_pow2 by lia. change (2 ^ 7) with 128.
    assert (0 <= x / 128 < 2) by dlia.
    rewrite (Z.land_ones _ 1) by lia. rewrite u8_mod. change (2 ^ 1) with 2. change (2 ^ 8) with 256.
    rewrite (Z.mod_small (x / 128) 2) by lia. apply Z.mod_small. lia. }
  assert (Hh : u8 ((x .<< 1) .| c) = (2 * x + c) mod 256).
  { rewrite (shl_lor x 1 c 2) by (done || (unfold is_u; lia)). rewrite u8_mod. change (2 ^ 8) with 256. f_equal. lia. }
  rewrite Hn, Hh. specialize (IH (x / 128) ltac:(unfold is_u in Hx; dlia)).
  destruct (mul_alpha_loop l (x / 128)) as [l' c']. destruct IH as (IH1 & IH2 & IH3 & IH4).
  assert (H8 : is_u8 ((2 * x + c) mod 256)) by (unfold is_u; change (2 ^ 8) with 256; apply Z.mod_pos_bound; lia).
  cbn [length le_val]. rewrite !byte_low_high by done. split; [by rewrite IH1|].
  split; [by apply Forall_cons|]. split; [done|].
  rewrite Nat2Z.inj_succ, Z.mul_succ_r, Z.pow_add_r by lia. change (2 ^ 8) with 256.
  unfold is_u in Hx. assert ((2 * x + c) mod 256 = 2 * x + c - 256 * (x / 128)) by dlia. nia.
Qed.

(** Multiplication by [x] modulo [x^128 + x^7 + x^2 + x + 1], little endian. *)
Lemma mul_alpha_spec t : is_block 16 t ->
  is_block 16 (gf128_mul_alpha t) /\
  le_val (gf128_mul_alpha t) =
    if le_val t <? 2 ^ 127 then 2 * le_val t else (2 * le_val t - 2 ^ 128) ⊕ 0x87.
Proof.
  intros [Hl Hb]. unfold gf128_mul_alpha.
  pose proof (mul_alpha_loop_spec t 0 Hb ltac:(lia)) as H. destruct (mul_alpha_loop t 0) as [t' c].
  destruct H as (Hl' & Hb' & Hc & Hv). rewrite Hl in Hl', Hv. change (8 * Z.of_nat 16) with 128 in Hv.
  pose proof (le_val_range t' Hb') as Hr. rewrite Hl' in Hr. change (8 * Z.of_nat 16) with 128 in Hr.
  destruct (Z.eqb_spec c 0) as [->|Hc1].
  - split; [by split|]. destruct (Z.ltb_spec (le_val t) (2 ^ 127)); lia.
  - assert (c = 1) as -> by lia. split.
    + split; [by rewrite length_insert|]. apply Forall_insert; [done|].
      apply is_u_lxor; [lia|by apply Mem.rd_byte|unfold is_u; lia].
    + rewrite le_val_xor_low by (done || lia || (unfold is_u; lia)).
      destruct (Z.ltb_spec (le_val t) (2 ^ 127)); [lia|]. f_equal. lia.
Qed.

(** The tweak of the block at file offset [o], and the block transformed by
    [f] under it. *)
Definition tweak_at (bc2 : block_cipher_ctx_t) (du o : Z) : bytes :=
  Nat.iter (Z.to_nat (u32 (o mod du / 16))) gf128_mul_alpha
    (E bc2 (le_bytes 8 (o / du) ++ replicate 8 0)).

Definition xts_block (f : bytes -> bytes) (bc2 : block_cipher_ctx_t) (du o : Z) (b : bytes) : bytes :=
  xor_bytes (f (xor_bytes b (tweak_at bc2 du o))) (tweak_at bc2 du o).

Lemma tweak_input_block v : is_block 16 (le_bytes 8 v ++ replicate 8 0).
Proof.
  split; [rewrite length_app, length_le_bytes, length_replicate; done|].
  apply Forall_app. split; [apply is_bytes_le_bytes|]. apply Forall_replicate. unfold is_u. lia.
Qed.

Lemma iter_alpha_block n t : is_block 16 t -> is_block 16 (Nat.iter n gf128_mul_alpha t).
Proof. intros H. induction n as [|n IH]; [done|]. cbn [Nat.iter]. by apply mul_alpha_spec. Qed.

Lemma tweak_block bc2 `{!BlockCipher bc2} du o : block_size bc2 = 16%nat -> is_block 16 (tweak_at bc2 du o).
Proof.
  intros H16. apply iter_alpha_block. rewrite <- H16. apply E_block; [done|]. rewrite H16.
  apply tweak_input_block.
Qed.

Section Xts.
Context (bc1 bc2 : block_cipher_ctx_t) `{!BlockCipher bc1} `{!BlockCipher bc2}.
Context (H1 : block_size bc1 = 16%nat) (H2 : block_size bc2 = 16%nat).

Lemma xts_match_iff o du pt ct : is_block 16 (blk pt 0 16) -> is_block 16 (blk ct 0 16) ->
  xts_tweak_match bc1 bc2 (o / du) (Z.to_nat (u32 (o mod du / 16))) pt ct = true <->
  blk ct 0 16 = xts_block (E bc1) bc2 du o (blk pt 0 16).
Proof.
  intros Hp Hc. unfold xts_tweak_match, xts_tweak.
  rewrite (encrypt_E bc2) by (rewrite H2; apply tweak_input_block).
  fold (tweak_at bc2 du o). pose proof (tweak_block bc2 du o H2) as Ht.
  rewrite (encrypt_E bc1) by (rewrite H1; by apply xor_bytes_block).
  unfold bytes_eqb, xts_block. rewrite bool_decide_eq_true. done.
Qed.

Lemma verify_xts_exact pt ct len fo : is_bytes pt -> is_bytes ct ->
  (len <= length pt)%nat -> (len <= length ct)%nat ->
  let skip := (16 - (fo .& 15)) .& 15 in
  let explains du := skip + 16 <= Z.of_nat len /\
    blk ct (Z.to_nat skip) 16 =
      xts_block (E bc1) bc2 du (u64 (fo + skip)) (blk pt (Z.to_nat skip) 16) in
  match engine_verify_xts bc1 bc2 pt ct len fo with
  | Some du => (du = 512 \/ du = 4096) /\ explains du
  | None => ~ explains 512 /\ ~ explains 4096
  end.
Proof.
  intros Hp Hc Hpl Hcl skip explains. unfold engine_verify_xts. fold skip.
  assert (Hsk : 0 <= skip) by (apply Z.land_nonneg; lia).
  destruct (Z.ltb_spec (Z.of_nat len) (skip + 16)) as [Hlt|Hge].
  { split; intros [Hx _]; lia. }
  assert (Bp : is_block 16 (blk (drop (Z.to_nat skip) pt) 0 16)).
  { split; [|by apply Forall_take, Forall_drop, Forall_drop].
    unfold blk. rewrite length_take, !length_drop. lia. }
  assert (Bc : is_block 16 (blk (drop (Z.to_nat skip) ct) 0 16)).
  { split; [|by apply Forall_take, Forall_drop, Forall_drop].
    unfold blk. rewrite length_take, !length_drop. lia. }
  assert (Hx : forall du, xts_tweak_match bc1 bc2 (u64 (fo + skip) / du)
      (Z.to_nat (u32 (u64 (fo + skip) mod du / 16))) (drop (Z.to_nat skip) pt)
      (drop (Z.to_nat skip) ct) = true <-> explains du).
  { intros du. rewrite xts_match_iff by done. unfold explains, blk. rewrite !drop_0. tauto. }
  cbn [first_some].
  destruct (xts_tweak_match bc1 bc2 (u64 (fo + skip) / 512) _ _ _) eqn:X1.
  { apply Hx in X1. auto. }
  destruct (xts_tweak_match bc1 bc2 (u64 (fo + skip) / 4096) _ _ _) eqn:X2.
  { apply Hx in X2. auto. }
  split; intros X%Hx; congruence.
Qed.
End Xts.

(** ** Properties *)

(** The search over the block modes is exact. For any block cipher
    and sample, a reported mode explains the sample at some alignment, its
    initial vector means what the mode means by it, and no mode tried before it
    explains the sample at any alignment; when no mode is reported, none of the
    five explains the sample at any alignment. *)
Theorem modes_search_exact bc pt ct len fo :
  BlockCipher bc -> sample_ok pt ct len ->
  match engine_try_block_modes bc pt ct len fo with
  | Some (m, iv) =>
    exists pre post s, search_order = pre ++ m :: post /\ Forall (unexplained bc pt ct len) pre /\
      s ∈ alignments (block_size bc) len (mode_blocks m) /\
      mode_holds bc m pt ct s /\ iv_holds bc m pt ct fo s iv
  | None => Forall (unexplained bc pt ct len) search_order
  end.
Proof.
  intros Hbc Hs. pose proof (try_modes_exact bc pt ct len Hs fo) as H.
  destruct (engine_try_block_modes bc pt ct len fo) as [[m iv]|]; [|done].
  destruct H as (pre & post & H1 & H2 & s & H3 & H4 & H5). by exists pre, post, s.
Qed.

(** A cipher small enough to compute with: xor with a fixed block. *)
Definition demo_mask : bytes := map (fun i => Z.of_nat i * 7) (seq 0 16).
Definition demo_cipher : block_cipher_ctx_t :=
  {| encrypt b := Some (xor_bytes b demo_mask); decrypt c := Some (xor_bytes c demo_mask);
     block_size := 16 |}.

Lemma demo_mask_block : is_block 16 demo_mask.
Proof. split; [done|]. apply forall_u_check. vm_compute. reflexivity. Qed.

Lemma demo_cipher_ok : BlockCipher demo_cipher.
Proof.
  apply (total_cipher (fun b => xor_bytes b demo_mask) (fun b => xor_bytes b demo_mask));
    [by right|..]; intros b Hb; (split; [apply (xor_bytes_block 16); [done|apply demo_mask_block]|]);
    apply xor_bytes_cancel; destruct Hb as [-> _]; cbn; lia.
Qed.

(** Two blocks of zeroes in CBC under that cipher and a vector of ones. *)
Definition demo_ct : bytes :=
  let c0 := xor_bytes (replicate 16 1) demo_mask in c0 ++ xor_bytes c0 demo_mask.

Lemma modes_search_exact_witness :
  exists iv pre post s,
    engine_try_block_modes demo_cipher (replicate 32 0) demo_ct 32 0 = Some (SAR_MODE_CBC, iv) /\
    search_order = pre ++ SAR_MODE_CBC :: post /\
    mode_holds demo_cipher SAR_MODE_CBC (replicate 32 0) demo_ct s /\
    iv_holds demo_cipher SAR_MODE_CBC (replicate 32 0) demo_ct 0 s iv.
Proof.
  assert (Hs : sample_ok (replicate 32 0) demo_ct 32).
  { constructor; try (vm_compute; lia); apply forall_u_check; vm_compute; reflexivity. }
  pose proof (modes_search_exact demo_cipher (replicate 32 0) demo_ct 32 0 demo_cipher_ok Hs) as H.
  destruct (engine_try_block_modes demo_cipher (replicate 32 0) demo_ct 32 0) as [[m iv]|] eqn:Em.
  - assert (m = SAR_MODE_CBC) as -> by (vm_compute in Em; by injection Em).
    destruct H as (pre & post & s & H1 & _ & _ & H2 & H3). exists iv, pre, post, s. auto.
  - vm_compute in Em. discriminate.
Defined.

End Modes.
