(* ===== verification/Recover.v ===== *)
(** * Recovery of encrypted files

    engine/src/recover.c.  The ciphertext [ct] and the output [pt] are separate
    buffers; the pointers handed to the entry points are not NULL; a store to [pt[i]] is a list update, a load outside [ct] is the
    outcome [OutOfBounds].  The pointer [ct] may point into the middle of a
    buffer: [ct] is then the whole buffer and [pfx] the number of its bytes in
    front of the pointer.  Offsets and lengths inside one range are naturals:
    every caller bounds [start + length] by the file size, so the 64-bit sums
    of the loops do not wrap.  Where the code computes with untrusted 64-bit
    values (the geometry) the wrap-around is written out. *)

From S2P Require Import Prelude Mem Sha256 Format Chain Keystore CipherCommon.
From S2P Require Import Aes Des Sm4 Camellia Aria Seed Stream Modes.
Import CtrLayout Modes Layout.

Module Recover.

(** ** Keys and ciphers *)

Record sar_recovery_key_t := {
  algorithm : Z;
  mode : Z;
  key_length : Z;
  key : bytes;
  mode_params : Z;
  iv : bytes;
  iv_length : Z;
  ctr_layout_tag : Z
}.

Inductive sar_recover_status_t :=
  | SAR_RECOVER_OK | SAR_RECOVER_DECLINED_KEY | SAR_RECOVER_DECLINED_IV
  | SAR_RECOVER_DECLINED_GEOMETRY | SAR_RECOVER_DECLINED_STATE_ONLY
  | SAR_RECOVER_DECLINED_MISMATCH | SAR_RECOVER_INVALID | SAR_RECOVER_DECLINED_NO_KEY_ID
  | SAR_RECOVER_DECLINED_TARGET_IO | SAR_RECOVER_DECLINED_TOO_LARGE.

#[global] Instance sar_recover_status_eq_dec : EqDecision sar_recover_status_t.
Proof. solve_decision. Defined.

Definition make_block (alg : Z) (key : bytes) (klen : Z) : option block_cipher_ctx_t :=
  if (alg =? SAR_ALG_AES_128) || (alg =? SAR_ALG_AES_192) || (alg =? SAR_ALG_AES_256)
  then Some (Aes.aes_cipher key (Z.to_nat klen))
  else if alg =? SAR_ALG_3DES then Some (Des.des3_cipher key)
  else if alg =? SAR_ALG_SM4 then Some (Sm4.sm4_cipher key)
  else if alg =? SAR_ALG_CAMELLIA then Some (Camellia.camellia_cipher key klen)
  else if alg =? SAR_ALG_ARIA then Some (Aria.aria_cipher key klen)
  else if alg =? SAR_ALG_SEED then Some (Seed.seed_cipher key)
  else None.

Definition make_xts (alg : Z) (key : bytes) (klen : Z)
  : option (block_cipher_ctx_t * block_cipher_ctx_t) :=
  let half := klen / 2 in
  if half =? 0 then None
  else
    match make_block alg key half, make_block alg (drop (Z.to_nat half) key) half with
    | Some bc1, Some bc2 => Some (bc1, bc2)
    | _, _ => None
    end.

Definition is_block_alg (alg : Z) : bool :=
  (alg =? SAR_ALG_AES_128) || (alg =? SAR_ALG_AES_192) || (alg =? SAR_ALG_AES_256) ||
  (alg =? SAR_ALG_3DES) || (alg =? SAR_ALG_SM4) || (alg =? SAR_ALG_CAMELLIA) ||
  (alg =? SAR_ALG_ARIA) || (alg =? SAR_ALG_SEED).

Definition is_chacha_alg (alg : Z) : bool := (alg =? SAR_ALG_CHACHA20) || (alg =? SAR_ALG_XCHACHA20).
Definition is_salsa_alg (alg : Z) : bool := (alg =? SAR_ALG_SALSA20) || (alg =? SAR_ALG_XSALSA20).

(** The 64 key-stream bytes of a block of the ChaCha and Salsa20 families. *)
Definition stream_block (rk : sar_recovery_key_t) (block_index : Z) : bytes :=
  let rounds := u32 ((mode_params rk .>> 8) .& 0xff) in
  let origin := u32 (mode_params rk .& 0xff) in
  let counter := u64 (block_index + origin) in
  if is_chacha_alg (algorithm rk) then
    if algorithm rk =? SAR_ALG_XCHACHA20 then
      let subkey := Stream.hchacha20 (key rk) (iv rk) in
      let nonce12 := replicate 4 0 ++ take 8 (drop 16 (iv rk)) in
      Stream.chacha_block subkey nonce12 (u32 counter) rounds
    else Stream.chacha_block (key rk) (iv rk) (u32 counter) rounds
  else
    if algorithm rk =? SAR_ALG_XSALSA20 then
      let subkey := Stream.hsalsa20 (key rk) (iv rk) in
      let nonce8 := take 8 (drop 16 (iv rk)) in
      Stream.salsa_block subkey nonce8 counter rounds
    else Stream.salsa_block (key rk) (iv rk) counter rounds.

Definition SAR_CTR_CONTINUOUS : Z := 0.
Definition SAR_CTR_RESET_PER_CHUNK : Z := 1.

(** ** One range, mode by mode *)

(** A [for] loop whose body can read out of bounds. *)
Definition cfold {A B} (f : A -> B -> cres A) (l : list B) (a : A) : cres A :=
  fold_left (fun r x => match r with Ret a => f a x | e => e end) l (Ret a).

(** [for (o = start; o + bs <= start + length; o += bs)] over [rec_ecb]'s body. *)
Definition rec_ecb (bc : block_cipher_ctx_t) (ct : bytes) (pfx : nat) (pt : bytes)
    (start length base : nat) : bytes :=
  let bs := block_size bc in
  fold_left (fun pt k =>
    let o := (start + k * bs)%nat in mem_write pt (o - base) (D bc (blk ct (o + pfx - base) bs)))
    (seq 0 (length / bs)) pt.

(** The block before [o]: the stored vector, or the ciphertext. [Ret None] is
    the return value 0. *)
Definition range_iv_block (rk : sar_recovery_key_t) (policy : Z) (o origin bs : nat)
    (ct : bytes) (pfx base : nat) : cres (option bytes) :=
  if (o =? 0)%nat || ((policy =? SAR_CTR_RESET_PER_CHUNK) && (o =? origin)%nat) then
    if iv_length rk <? Z.of_nat bs then Ret None else Ret (Some (take bs (iv rk)))
  else if (bs + base <=? o + pfx)%nat then Ret (Some (blk ct (o + pfx - (bs + base)) bs))
  else OutOfBounds.

Definition rec_cbc (bc : block_cipher_ctx_t) (rk : sar_recovery_key_t) (policy : Z) (ct : bytes) (pfx : nat)
    (pt : bytes) (origin start length base : nat) : cres bytes :=
  let bs := block_size bc in
  cfold (fun pt k =>
    let o := (start + k * bs)%nat in
    match range_iv_block rk policy o origin bs ct pfx base with
    | Ret (Some prev) => Ret (mem_write pt (o - base) (xor_bytes (D bc (blk ct (o + pfx - base) bs)) prev))
    | Ret None => Ret pt
    | OutOfBounds => OutOfBounds
    | NoFuel => NoFuel
    end) (seq 0 (length / bs)) pt.

(** [n] bytes of CFB at offset [o]. *)
Definition cfb_part (bc : block_cipher_ctx_t) (rk : sar_recovery_key_t) (policy : Z) (ct : bytes) (pfx : nat)
    (pt : bytes) (origin o base n : nat) : cres bytes :=
  match range_iv_block rk policy o origin (block_size bc) ct pfx base with
  | Ret (Some prev) => Ret (mem_write pt (o - base) (xor_bytes (blk ct (o + pfx - base) n) (E bc prev)))
  | Ret None => Ret pt
  | OutOfBounds => OutOfBounds
  | NoFuel => NoFuel
  end.

Definition rec_cfb (bc : block_cipher_ctx_t) (rk : sar_recovery_key_t) (policy : Z) (ct : bytes) (pfx : nat)
    (pt : bytes) (origin start length base : nat) : cres bytes :=
  let bs := block_size bc in
  let n := (length / bs)%nat in
  match cfold (fun pt k => cfb_part bc rk policy ct pfx pt origin (start + k * bs) base bs) (seq 0 n) pt with
  | Ret pt =>
    let rem := (length - n * bs)%nat in
    if (0 <? rem)%nat then cfb_part bc rk policy ct pfx pt origin (start + n * bs) base rem else Ret pt
  | e => e
  end.

(** [for (o = start; o < start + length; o += bs)]: the number of passes. *)
Definition passes (length bs : nat) : nat := (length + bs - 1) / bs.

(** Xor [ct] with a key-stream block at [o], cut at the end of the range. *)
Definition xor_part (ct : bytes) (pfx : nat) (pt ks : bytes) (start length base o bs : nat) : bytes :=
  let rem := (start + length - o)%nat in
  let n := if (rem <? bs)%nat then rem else bs in
  mem_write pt (o - base) (xor_bytes (blk ct (o + pfx - base) n) ks).

Definition rec_ofb (bc : block_cipher_ctx_t) (rk : sar_recovery_key_t) (policy : Z) (ct : bytes) (pfx : nat)
    (pt : bytes) (origin start length base : nat) : bytes :=
  let bs := block_size bc in
  let first_blk :=
    (if (policy =? SAR_CTR_RESET_PER_CHUNK)%Z then (start - origin) / bs else start / bs)%nat in
  let ob := Nat.iter first_blk (E bc) (E bc (take bs (iv rk))) in
  (fold_left (fun '(pt, ob) k =>
     (xor_part ct pfx pt ob start length base (start + k * bs) bs, E bc ob))
     (seq 0 (passes length bs)) (pt, ob)).1.

(** The counter block of block [n], from the stored vector. *)
Definition ctr_block (rk : sar_recovery_key_t) (L : sar_ctr_layout_t) (bs : nat) (n : Z) : bytes :=
  sar_ctr_field_write (take bs (iv rk)) L (u64 (sar_ctr_field_read (iv rk) L + n)).

Definition default_layout : sar_ctr_layout_t :=
  {| offset := 0; width := 0; big_endian := false; layout_block_size := 0 |}.

Definition rec_ctr (bc : block_cipher_ctx_t) (rk : sar_recovery_key_t) (policy : Z) (ct : bytes) (pfx : nat)
    (pt : bytes) (origin start length base : nat) : bytes :=
  let bs := block_size bc in
  let L := nth (Z.to_nat (ctr_layout_tag rk - 1)) SAR_CTR_LAYOUTS default_layout in
  fold_left (fun pt k =>
    let o := (start + k * bs)%nat in
    let n := (if (policy =? SAR_CTR_RESET_PER_CHUNK)%Z then (o - origin) / bs else o / bs)%nat in
    xor_part ct pfx pt (E bc (ctr_block rk L bs (Z.of_nat n))) start length base o bs)
    (seq 0 (passes length bs)) pt.

(** The [while] loop of [rec_stream] from offset [o]. *)
Fixpoint stream_loop (fuel : nat) (rk : sar_recovery_key_t) (policy : Z) (ct : bytes) (pfx : nat)
    (pt : bytes) (origin stop base o : nat) : cres bytes :=
  if (o <? stop)%nat then
    match fuel with
    | O => NoFuel
    | S fuel =>
      let eo := (if (policy =? SAR_CTR_RESET_PER_CHUNK)%Z then o - origin else o)%nat in
      let bi := (eo / 64)%nat in
      let within := (eo mod 64)%nat in
      let ks := stream_block rk (Z.of_nat bi) in
      let rem := (stop - o)%nat in
      let span := (if rem <? 64 - within then rem else 64 - within)%nat in
      let pt := mem_write pt (o - base) (xor_bytes (blk ct (o + pfx - base) span) (drop within ks)) in
      stream_loop fuel rk policy ct pfx pt origin stop base (o + span)
    end
  else Ret pt.

(** Every pass consumes at least one byte. *)
Definition rec_stream (rk : sar_recovery_key_t) (policy : Z) (ct : bytes) (pfx : nat)
    (pt : bytes) (origin start length base : nat) : cres bytes :=
  stream_loop length rk policy ct pfx pt origin (start + length) base start.

Definition rec_rc4 (rk : sar_recovery_key_t) (policy : Z) (ct pt : bytes) (start length : nat) : bytes :=
  let skip := if policy =? SAR_CTR_RESET_PER_CHUNK then 0%nat else start in
  let st := Nat.iter skip Stream.rc4_step (Stream.rc4_init (key rk) (Z.to_nat (key_length rk))) in
  (fold_left (fun '(pt, st) o =>
     let st := Stream.rc4_step st in
     (<[o := rd ct o ⊕ Stream.rc4_byte st]> pt, st)) (seq start length) (pt, st)).1.

Definition rec_xts (bc1 bc2 : block_cipher_ctx_t) (data_unit : Z) (ct : bytes) (pfx : nat)
    (pt : bytes) (start length base : nat) : bytes :=
  fold_left (fun pt k =>
    let o := (start + k * 16)%nat in
    mem_write pt (o - base) (xts_block (D bc1) bc2 data_unit (Z.of_nat o) (blk ct (o + pfx - base) 16)))
    (seq 0 (length / 16)) pt.

(** ** Conversions *)

(** The first [n] bytes of [src] in a zeroed array of [size] bytes. *)
Definition copy_into (size : nat) (src : bytes) (n : nat) : bytes :=
  take n src ++ replicate (size - n) 0.

Definition sar_recovery_key_from_record (rec : KsRec.semantics_ar_keystore_record_t) : sar_recovery_key_t :=
  let kl := if 64 <? KsRec.key_length rec then 64 else KsRec.key_length rec in
  let ivl := if 24 <? KsRec.iv_length rec then 24 else KsRec.iv_length rec in
  {| algorithm := KsRec.algorithm rec;
     mode := KsRec.mode rec;
     key_length := KsRec.key_length rec;
     key := copy_into 64 (KsRec.key_bytes rec) (Z.to_nat kl);
     mode_params := KsRec.mode_params rec;
     iv := copy_into 24 (KsRec.iv rec) (Z.to_nat ivl);
     iv_length := ivl;
     ctr_layout_tag := KsRec.ctr_layout_tag rec |}.

Definition sar_recovery_key_from_verdict (v : Verdict.sar_verdict_t) : sar_recovery_key_t :=
  let kl := if 64 <? Verdict.key_length v then 64 else Verdict.key_length v in
  let ivl := if 24 <? Verdict.iv_length v then 24 else Verdict.iv_length v in
  {| algorithm := Verdict.algorithm v;
     mode := Verdict.mode v;
     key_length := Verdict.key_length v;
     key := copy_into 64 (Verdict.key v) (Z.to_nat kl);
     mode_params := Verdict.mode_params v;
     iv := copy_into 24 (Verdict.iv v) (Z.to_nat ivl);
     iv_length := ivl;
     ctr_layout_tag := Verdict.ctr_layout_tag v |}.

Record sar_recovery_verify_t := {
  sample_offset : Z;
  sample_length : Z;
  sample_tag : bytes
}.

Definition sar_recovery_verify_from_record (rec : KsRec.semantics_ar_keystore_record_t)
  : sar_recovery_verify_t :=
  {| sample_offset := KsRec.sample_offset rec; sample_length := KsRec.sample_length rec;
     sample_tag := KsRec.sample_tag rec |}.

(** [None] is a NULL pointer. *)
Definition sar_recover_verify (pt : option bytes) (file_size : Z) (v : option sar_recovery_verify_t)
  : sar_recover_status_t :=
  match pt, v with
  | Some pt, Some v =>
    if sample_length v =? 0 then SAR_RECOVER_DECLINED_MISMATCH
    else if (file_size <? sample_offset v) || (u64 (file_size - sample_offset v) <? sample_length v)
    then SAR_RECOVER_DECLINED_MISMATCH
    else
      let tag := Keystore.sar_sample_tag (Some (drop (Z.to_nat (sample_offset v)) pt)) (sample_length v) in
      if negb (Mem.sar_ct_equal tag (sample_tag v) 32) then SAR_RECOVER_DECLINED_MISMATCH
      else SAR_RECOVER_OK
  | _, _ => SAR_RECOVER_INVALID
  end.

(** ** Geometry *)

Record sar_range_t := { range_offset : Z; range_length : Z }.

Definition SAR_GEOM_FULL : Z := 0.
Definition SAR_GEOM_HEAD : Z := 1.
Definition SAR_GEOM_STRIDE : Z := 2.
Definition SAR_GEOM_PERCENT : Z := 3.
Definition SAR_GEOM_EXPLICIT : Z := 4.
Definition SAR_MAX_RANGES : Z := 1024.

(** [ranges = None] is a NULL pointer. *)
Record sar_geometry_t := {
  geom_mode : Z;
  head_bytes : Z;
  chunk_bytes : Z;
  stride_bytes : Z;
  percent : Z;
  block_count : Z;
  counter_policy : Z;
  ranges : option (list sar_range_t);
  range_count : Z
}.

Definition zmin (a b : Z) : Z := if a <? b then a else b.

(** The loop of [SAR_GEOM_STRIDE] from [pos]; [out] is the array so far. Each
    pass fills a slot, so one pass more than the capacity ends it. *)
Fixpoint stride_loop (fuel : nat) (geom : sar_geometry_t) (file_size cap pos : Z) (out : list sar_range_t)
  : cres (option (list sar_range_t)) :=
  if pos <? file_size then
    match fuel with
    | O => NoFuel
    | S fuel =>
      let avail := file_size - pos in
      let len := zmin (chunk_bytes geom) avail in
      if len =? 0 then stride_loop fuel geom file_size cap (u64 (pos + stride_bytes geom)) out
      else if cap <=? Z.of_nat (length out) then Ret None
      else stride_loop fuel geom file_size cap (u64 (pos + stride_bytes geom))
             (out ++ [{| range_offset := pos; range_length := len |}])
    end
  else Ret (Some out).

(** The loop of [SAR_GEOM_PERCENT] over [i < bc]. *)
Fixpoint percent_loop (fuel : nat) (file_size cap chunk step bc i : Z) (out : list sar_range_t)
  : cres (option (list sar_range_t)) :=
  if i <? bc then
    match fuel with
    | O => NoFuel
    | S fuel =>
      let off := u64 (i * step) in
      if file_size <=? off then Ret (Some out)
      else
        let avail := file_size - off in
        let len := zmin chunk avail in
        if len =? 0 then percent_loop fuel file_size cap chunk step bc (i + 1) out
        else if cap <=? Z.of_nat (length out) then Ret None
        else percent_loop fuel file_size cap chunk step bc (i + 1)
               (out ++ [{| range_offset := off; range_length := len |}])
    end
  else Ret (Some out).

Fixpoint explicit_loop (rs : list sar_range_t) (file_size cap : Z) (out : list sar_range_t)
  : option (list sar_range_t) :=
  match rs with
  | [] => Some out
  | r :: rs =>
    if file_size <=? range_offset r then explicit_loop rs file_size cap out
    else
      let len := zmin (range_length r) (file_size - range_offset r) in
      if len =? 0 then explicit_loop rs file_size cap out
      else if cap <=? Z.of_nat (length out) then None
      else explicit_loop rs file_size cap (out ++ [{| range_offset := range_offset r; range_length := len |}])
  end.

Definition one_range (cap len : Z) : option (list sar_range_t) :=
  if cap <? 1 then None else Some [{| range_offset := 0; range_length := len |}].

(** [Ret None] is the return value -1, [Ret (Some out)] the filled array.  A
    NULL [ranges] with a non-zero count is refused; the array has [range_count]
    entries otherwise. *)
Definition sar_geometry_expand (geom : sar_geometry_t) (file_size cap : Z)
  : cres (option (list sar_range_t)) :=
  if file_size =? 0 then Ret (Some [])
  else if geom_mode geom =? SAR_GEOM_FULL then Ret (one_range cap file_size)
  else if geom_mode geom =? SAR_GEOM_HEAD then
    let len := zmin (head_bytes geom) file_size in
    if 0 <? len then Ret (one_range cap len) else Ret (Some [])
  else if geom_mode geom =? SAR_GEOM_STRIDE then
    if (stride_bytes geom =? 0) || (chunk_bytes geom =? 0) then Ret None
    else stride_loop (S (Z.to_nat cap)) geom file_size cap 0 []
  else if geom_mode geom =? SAR_GEOM_PERCENT then
    let bc := if block_count geom =? 0 then 1 else block_count geom in
    let total := u64 (file_size * percent geom) / 100 in
    let chunk := total / bc in
    let chunk := if chunk =? 0 then total else chunk in
    let step := file_size / bc in
    if (chunk =? 0) || (step =? 0) then Ret (Some [])
    else percent_loop (S (Z.to_nat cap)) file_size cap chunk step bc 0 []
  else if geom_mode geom =? SAR_GEOM_EXPLICIT then
    match ranges geom with
    | None => if 0 <? range_count geom then Ret None else Ret (Some [])
    | Some rs => Ret (explicit_loop (take (Z.to_nat (range_count geom)) rs) file_size cap [])
    end
  else Ret None.

(** The geometry of a known family comes from a function the caller supplies;
    [None] is the return value -1. *)
Definition sar_geometry_from_family (mapper : option (bytes -> Z -> Z -> option sar_geometry_t))
    (family_blob : bytes) (blob_len file_size : Z) : option sar_geometry_t :=
  match mapper with
  | None => None
  | Some f => f family_blob blob_len file_size
  end.

(** ** Recovery *)

Definition precheck (rk : sar_recovery_key_t) : sar_recover_status_t :=
  let m := mode rk in
  if (m =? SAR_MODE_ECB) || (m =? SAR_MODE_CBC) || (m =? SAR_MODE_CFB) then
    if negb (is_block_alg (algorithm rk)) then SAR_RECOVER_DECLINED_KEY else SAR_RECOVER_OK
  else if m =? SAR_MODE_OFB then
    if negb (is_block_alg (algorithm rk)) then SAR_RECOVER_DECLINED_KEY
    else if iv_length rk =? 0 then SAR_RECOVER_DECLINED_IV else SAR_RECOVER_OK
  else if m =? SAR_MODE_CTR then
    if negb (is_block_alg (algorithm rk)) then SAR_RECOVER_DECLINED_KEY
    else if (iv_length rk =? 0) || (ctr_layout_tag rk =? 0) || (8 <? ctr_layout_tag rk)
    then SAR_RECOVER_DECLINED_IV else SAR_RECOVER_OK
  else if m =? SAR_MODE_XTS then
    if negb (is_block_alg (algorithm rk)) then SAR_RECOVER_DECLINED_KEY
    else if negb (mode_params rk =? 512) && negb (mode_params rk =? 4096)
    then SAR_RECOVER_DECLINED_KEY else SAR_RECOVER_OK
  else if m =? SAR_MODE_STREAM then
    if algorithm rk =? SAR_ALG_RC4 then
      if key_length rk =? 0 then SAR_RECOVER_DECLINED_STATE_ONLY else SAR_RECOVER_OK
    else if negb (is_chacha_alg (algorithm rk)) && negb (is_salsa_alg (algorithm rk))
    then SAR_RECOVER_DECLINED_KEY
    else if iv_length rk =? 0 then SAR_RECOVER_DECLINED_IV else SAR_RECOVER_OK
  else SAR_RECOVER_DECLINED_KEY.

(** The cipher contexts; a context the mode does not use stays unset. *)
Inductive ciphers := Block (bc : block_cipher_ctx_t) | Xts (bc1 bc2 : block_cipher_ctx_t) | NoCipher.

(** [None] is [SAR_RECOVER_DECLINED_KEY]. *)
Definition build_ciphers (rk : sar_recovery_key_t) : option ciphers :=
  if mode rk =? SAR_MODE_XTS then
    match make_xts (algorithm rk) (key rk) (key_length rk) with
    | Some (bc1, bc2) => Some (Xts bc1 bc2)
    | None => None
    end
  else if is_block_alg (algorithm rk) then
    match make_block (algorithm rk) (key rk) (key_length rk) with
    | Some bc => Some (Block bc)
    | None => None
    end
  else Some NoCipher.

Definition is_rc4 (rk : sar_recovery_key_t) : bool :=
  (mode rk =? SAR_MODE_STREAM) && (algorithm rk =? SAR_ALG_RC4).

Definition recover_one_range (rk : sar_recovery_key_t) (policy : Z) (cs : ciphers) (ct : bytes) (pfx : nat)
    (pt : bytes) (origin start length base : nat) : cres bytes :=
  match cs with
  | Block bc =>
    if mode rk =? SAR_MODE_ECB then Ret (rec_ecb bc ct pfx pt start length base)
    else if mode rk =? SAR_MODE_CBC then rec_cbc bc rk policy ct pfx pt origin start length base
    else if mode rk =? SAR_MODE_CFB then rec_cfb bc rk policy ct pfx pt origin start length base
    else if mode rk =? SAR_MODE_OFB then Ret (rec_ofb bc rk policy ct pfx pt origin start length base)
    else if mode rk =? SAR_MODE_CTR then Ret (rec_ctr bc rk policy ct pfx pt origin start length base)
    else Ret pt
  | Xts bc1 bc2 =>
    if mode rk =? SAR_MODE_XTS
    then Ret (rec_xts bc1 bc2 (mode_params rk) ct pfx pt start length base) else Ret pt
  | NoCipher =>
    if is_rc4 rk then Ret (rec_rc4 rk policy ct pt start length)
    else if mode rk =? SAR_MODE_STREAM then rec_stream rk policy ct pfx pt origin start length base
    else Ret pt
  end.

Definition recover_ranges_into (rk : sar_recovery_key_t) (rs : list sar_range_t) (policy : Z)
    (ct : bytes) (pfx : nat) (pt : bytes) (file_size base : Z) : cres (sar_recover_status_t * bytes) :=
  match precheck rk with
  | SAR_RECOVER_OK =>
    if negb (base =? 0) && is_rc4 rk then Ret (SAR_RECOVER_DECLINED_GEOMETRY, pt)
    else
      match build_ciphers rk with
      | None => Ret (SAR_RECOVER_DECLINED_KEY, pt)
      | Some cs =>
        match cfold (fun pt r =>
          if (file_size <? range_offset r) || (file_size - range_offset r <? range_length r) then Ret pt
          else recover_one_range rk policy cs ct pfx pt (Z.to_nat (range_offset r))
                 (Z.to_nat (range_offset r)) (Z.to_nat (range_length r)) (Z.to_nat base)) rs pt with
        | Ret pt => Ret (SAR_RECOVER_OK, pt)
        | OutOfBounds => OutOfBounds
        | NoFuel => NoFuel
        end
      end
  | pc => Ret (pc, pt)
  end.

Definition full_geometry : sar_geometry_t :=
  {| geom_mode := SAR_GEOM_FULL; head_bytes := 0; chunk_bytes := 0; stride_bytes := 0; percent := 0;
     block_count := 0; counter_policy := 0; ranges := None; range_count := 0 |}.

(** The status and the contents of [pt]; the first [file_size] bytes are copied
    from the ciphertext before any range is decrypted. *)
Definition sar_recover_buffer (rk : sar_recovery_key_t) (geom : option sar_geometry_t) (ct pt : bytes)
    (file_size : Z) : cres (sar_recover_status_t * bytes) :=
  let '(g, policy) := match geom with
                      | Some g => (g, counter_policy g)
                      | None => (full_geometry, SAR_CTR_CONTINUOUS)
                      end in
  match sar_geometry_expand g file_size SAR_MAX_RANGES with
  | Ret (Some rs) =>
    let pt := mem_write pt 0 (take (Z.to_nat file_size) ct) in
    recover_ranges_into rk rs policy ct 0 pt file_size 0
  | Ret None => Ret (SAR_RECOVER_DECLINED_GEOMETRY, pt)
  | OutOfBounds => OutOfBounds
  | NoFuel => NoFuel
  end.

Definition sar_recover_range (rk : sar_recovery_key_t) (ct pt : bytes)
    (file_size off len : Z) : cres (sar_recover_status_t * bytes) :=
  if len =? 0 then Ret (SAR_RECOVER_OK, pt)
  else recover_ranges_into rk [{| range_offset := off; range_length := len |}] SAR_CTR_CONTINUOUS
         ct 0 pt file_size 0.

Definition sar_recover_chunk (rk : sar_recovery_key_t) (policy : Z) (ct : bytes) (pfx : nat)
    (pt : bytes) (origin start len base file_size : Z) : cres (sar_recover_status_t * bytes) :=
  if len =? 0 then Ret (SAR_RECOVER_OK, pt)
  else if (start <? origin) || (file_size <? start) || (file_size - start <? len)
  then Ret (SAR_RECOVER_INVALID, pt)
  else
    match precheck rk with
    | SAR_RECOVER_OK =>
      if is_rc4 rk then Ret (SAR_RECOVER_DECLINED_GEOMETRY, pt)
      else
        match build_ciphers rk with
        | None => Ret (SAR_RECOVER_DECLINED_KEY, pt)
        | Some cs =>
          match recover_one_range rk policy cs ct pfx pt (Z.to_nat origin) (Z.to_nat start)
                  (Z.to_nat len) (Z.to_nat base) with
          | Ret pt => Ret (SAR_RECOVER_OK, pt)
          | OutOfBounds => OutOfBounds
          | NoFuel => NoFuel
          end
        end
    | pc => Ret (pc, pt)
    end.

(** ** Locating a vector stored in the file *)

Record sar_recovery_sample_t := {
  s_file_offset : Z;
  s_plaintext : bytes;
  s_ciphertext : bytes;
  s_length : nat
}.

(** The comparison loop for the ChaCha and Salsa20 families, from [k]. Each pass
    advances [k], so [n] passes are enough. *)
Fixpoint fwd_stream (fuel : nat) (rk : sar_recovery_key_t) (P C : bytes) (n : nat) (so : Z) (k : nat)
  : bool :=
  if (k <? n)%nat then
    match fuel with
    | O => false
    | S fuel =>
      let eo := u64 (so + Z.of_nat k) in
      let within := Z.to_nat (eo mod 64) in
      let ks := stream_block rk (eo / 64) in
      let span := (if n - k <? 64 - within then n - k else 64 - within)%nat in
      if bytes_eqb (xor_bytes (blk P k span) (drop within ks)) (blk C k span)
      then fwd_stream fuel rk P C n so (k + span) else false
    end
  else true.

Definition fwd_block (bc : block_cipher_ctx_t) (rk : sar_recovery_key_t) (P C : bytes) (so : Z) : bool :=
  let bs := block_size bc in
  let has_iv := Z.of_nat bs <=? iv_length rk in
  let v := take bs (iv rk) in
  let p := blk P 0 bs in
  let c := blk C 0 bs in
  if mode rk =? SAR_MODE_ECB then bytes_eqb (E bc p) c
  else if mode rk =? SAR_MODE_CBC then
    if (so =? 0) && has_iv then bytes_eqb (E bc (xor_bytes p v)) c else false
  else if mode rk =? SAR_MODE_CFB then
    if (so =? 0) && has_iv then bytes_eqb (xor_bytes p (E bc v)) c else false
  else if mode rk =? SAR_MODE_OFB then
    if negb has_iv then false
    else bytes_eqb (xor_bytes p (Nat.iter (Z.to_nat (so / Z.of_nat bs)) (E bc) (E bc v))) c
  else if mode rk =? SAR_MODE_CTR then
    if negb has_iv || (ctr_layout_tag rk =? 0) || (8 <? ctr_layout_tag rk) then false
    else
      let L := nth (Z.to_nat (ctr_layout_tag rk - 1)) SAR_CTR_LAYOUTS default_layout in
      if negb (layout_block_size L =? bs)%nat then false
      else bytes_eqb (xor_bytes p (E bc (ctr_block rk L bs (so / Z.of_nat bs)))) c
  else false.

Definition forward_relation (rk : sar_recovery_key_t) (s : sar_recovery_sample_t) : bool :=
  let P := s_plaintext s in
  let C := s_ciphertext s in
  let n := s_length s in
  let so := s_file_offset s in
  if (n <? 16)%nat then false
  else if algorithm rk =? SAR_ALG_RC4 then
    if key_length rk =? 0 then false
    else Stream.rc4_verify (key rk) (Z.to_nat (key_length rk)) P C n so
  else if is_chacha_alg (algorithm rk) || is_salsa_alg (algorithm rk) then
    if iv_length rk =? 0 then false else fwd_stream n rk P C n so 0
  else if mode rk =? SAR_MODE_XTS then
    if negb (is_block_alg (algorithm rk)) then false
    else
      match make_xts (algorithm rk) (key rk) (key_length rk) with
      | None => false
      | Some (bc1, bc2) =>
        let du := mode_params rk in
        if du =? 0 then false
        else bytes_eqb (xts_block (E bc1) bc2 du so (blk P 0 16)) (blk C 0 16)
      end
  else if is_block_alg (algorithm rk) then
    match make_block (algorithm rk) (key rk) (key_length rk) with
    | None => false
    | Some bc => if (n <? block_size bc)%nat then false else fwd_block bc rk P C so
    end
  else false.

Definition set_iv (rk : sar_recovery_key_t) (v : bytes) (len tag : Z) : sar_recovery_key_t :=
  {| algorithm := algorithm rk; mode := mode rk; key_length := key_length rk; key := key rk;
     mode_params := mode_params rk; iv := v; iv_length := len; ctr_layout_tag := tag |}.

Definition widths : list nat := [8; 12; 16; 24]%nat.

(** The keys tried for the [w] bytes at [pos]: one, or one per counter layout. *)
Definition iv_candidates (rk : sar_recovery_key_t) (file : bytes) (pos w : nat) : list sar_recovery_key_t :=
  let v := copy_into 24 (drop pos file) w in
  let mk t := set_iv rk v (Z.of_nat w) t in
  if mode rk =? SAR_MODE_CTR then map mk [1; 2; 3; 4; 5; 6; 7; 8] else [mk (ctr_layout_tag rk)].

(** The positions of the head and of the tail region, in the order of the loops. *)
Definition iv_positions (file_size : nat) : list nat :=
  seq 0 (Nat.min file_size 256) ++ seq (file_size - 256) (file_size - (file_size - 256)).

(** The updated key; [None] is the return value 0 with the key unchanged. *)
Definition sar_recover_locate_iv (rk : sar_recovery_key_t) (file : bytes) (file_size : nat)
    (sample : sar_recovery_sample_t) : option sar_recovery_key_t :=
  if (mode rk =? SAR_MODE_ECB) || is_rc4 rk then None
  else
    first_some (fun pos =>
      first_some (fun w =>
        if (file_size <? pos + w)%nat then None
        else first_some (fun cand => if forward_relation cand sample then Some cand else None)
               (iv_candidates rk file pos w)) widths)
      (iv_positions file_size).

End Recover.
