(* ===== verification/RecoverCorrect.v ===== *)
(** * Recovery inverts encryption

    The reference is the textbook definition of each mode on a whole file
    ([encrypts]); the theorem is that the loops of recover.c, run on a range of
    such a file, put back exactly the plaintext of that range. *)

From S2P Require Import Prelude Mem Sha256 Format Chain Keystore CipherCommon.
From S2P Require Import Aes Des Sm4 Camellia Aria Seed Stream Modes Recover.
Import CtrLayout Modes Layout Recover.

(** ** Filling a range in order *)

(** [pt] with the bytes [s .. s + m) taken from [P]. *)
Definition patched (pt P : bytes) (s m : nat) : bytes :=
  take s pt ++ blk P s m ++ drop (s + m) pt.

Lemma length_blk P s n : (s + n <= length P)%nat -> length (blk P s n) = n.
Proof. intros. unfold blk. rewrite length_take, length_drop. lia. Qed.

Lemma patched_0 pt P s : patched pt P s 0 = pt.
Proof. unfold patched, blk. by rewrite Nat.add_0_r, take_0, app_nil_l, take_drop. Qed.

Lemma length_patched pt P s m : (s + m <= length P)%nat -> (s + m <= length pt)%nat ->
  length (patched pt P s m) = length pt.
Proof.
  intros H1 H2. unfold patched. rewrite !length_app, length_take, length_blk, length_drop by done. lia.
Qed.

Lemma blk_app P s m n : blk P s (m + n) = blk P s m ++ blk P (s + m) n.
Proof.
  unfold blk. rewrite <- (take_drop m (take (m + n) (drop s P))).
  rewrite take_take, skipn_firstn_comm, drop_drop. do 2 f_equal; lia.
Qed.

Lemma patched_step pt P s m n : (s + m + n <= length P)%nat -> (s + m + n <= length pt)%nat ->
  mem_write (patched pt P s m) (s + m) (blk P (s + m) n) = patched pt P s (m + n).
Proof.
  intros H1 H2. rewrite mem_write_spec by (rewrite length_patched, length_blk by lia; lia).
  rewrite length_blk by lia. unfold patched. rewrite (app_assoc (take s pt)).
  assert (Hl : length (take s pt ++ blk P s m) = (s + m)%nat)
    by (rewrite length_app, length_take, length_blk by lia; lia).
  rewrite take_app_length' by done. rewrite drop_app_ge by lia. rewrite Hl, drop_drop, blk_app.
  rewrite <- !app_assoc. do 4 f_equal; lia.
Qed.

Lemma patched_all P s pt : length pt = length P -> s = 0%nat ->
  patched pt P s (length P) = P.
Proof.
  intros H ->. unfold patched, blk. rewrite drop_0, take_0, take_ge by lia.
  rewrite drop_ge by lia. by rewrite app_nil_r.
Qed.

(** Two buffers that agree on a range can be patched from either. *)
Lemma patched_split pt P s m n : (s + m + n <= length P)%nat -> (s + m + n <= length pt)%nat ->
  blk pt (s + m) n = blk P (s + m) n -> patched pt P s m = patched pt P s (m + n).
Proof.
  intros H1 H2 E0. unfold patched. rewrite blk_app, <- app_assoc, <- E0. do 2 f_equal.
  unfold blk. replace (s + (m + n))%nat with (s + m + n)%nat by lia.
  by rewrite <- (drop_drop pt n (s + m)), take_drop.
Qed.

(** A loop over consecutive blocks, each pass storing the right plaintext. *)
Lemma fill_blocks bs pt P s n (g : nat -> bytes) :
  (s + n * bs <= length P)%nat -> (s + n * bs <= length pt)%nat ->
  (forall k, (k < n)%nat -> g k = blk P (s + k * bs) bs) ->
  fold_left (fun pt k => mem_write pt (s + k * bs) (g k)) (seq 0 n) pt = patched pt P s (n * bs).
Proof.
  intros H1 H2 Hg. induction n as [|n IH]; [by rewrite patched_0|].
  rewrite fold_seq_snoc, IH by (lia || (intros; apply Hg; lia)). cbn [Nat.add].
  rewrite Hg by lia. rewrite patched_step by lia. f_equal. lia.
Qed.

(** The same when a pass may read out of bounds. *)
Lemma fill_blocks_c bs pt P s n (f : bytes -> nat -> cres bytes) :
  (s + n * bs <= length P)%nat -> (s + n * bs <= length pt)%nat ->
  (forall k pt', (k < n)%nat -> f pt' k = Ret (mem_write pt' (s + k * bs) (blk P (s + k * bs) bs))) ->
  cfold f (seq 0 n) pt = Ret (patched pt P s (n * bs)).
Proof.
  intros H1 H2 Hf. induction n as [|n IH]; [unfold cfold; cbn; by rewrite patched_0|].
  unfold cfold in *. rewrite fold_seq_snoc, IH by (lia || (intros; apply Hf; lia)). cbn [Nat.add].
  rewrite Hf by lia. rewrite patched_step by lia. do 2 f_equal. lia.
Qed.

(** Block boundaries. *)
Lemma div_blocks len bs : (0 < bs)%nat -> (len / bs * bs <= len < len / bs * bs + bs)%nat.
Proof. intros H. pose proof (Nat.div_mod_eq len bs). pose proof (Nat.mod_upper_bound len bs). nia. Qed.

Lemma passes_spec len bs : (0 < bs)%nat -> (0 < len)%nat ->
  exists q, passes len bs = S q /\ (q * bs < len <= q * bs + bs)%nat.
Proof.
  intros Hb Hl. unfold passes. exists ((len - 1) / bs)%nat.
  replace (len + bs - 1)%nat with (1 * bs + (len - 1))%nat by lia.
  rewrite Nat.div_add_l by lia. split; [lia|]. pose proof (div_blocks (len - 1) bs Hb). lia.
Qed.

(** ** Slices of a xor *)

Lemma take_xor n a b : take n (xor_bytes a b) = xor_bytes (take n a) b.
Proof.
  revert a b. induction n as [|n IH]; intros [|x a] [|y b]; cbn; try done. f_equal. apply IH.
Qed.

Lemma drop_xor n a b : drop n (xor_bytes a b) = xor_bytes (drop n a) (drop n b).
Proof.
  revert a b. induction n as [|n IH]; intros a b; [done|].
  destruct a as [|x a]; [done|]. destruct b as [|y b]; [|apply IH].
  change (xor_bytes (x :: a) []) with (@nil Z). cbn [drop]. symmetry. by rewrite xor_bytes_comm.
Qed.

Lemma blk_sub X a w m n : (w + n <= m)%nat -> blk X (a + w) n = take n (drop w (blk X a m)).
Proof.
  intros H. unfold blk. rewrite skipn_firstn_comm, take_take, drop_drop. f_equal; lia.
Qed.

(** Any piece of a block that was xored with a key stream. *)
Lemma ks_piece P C ks a w m n : blk C a m = xor_bytes (blk P a m) ks ->
  (w + n <= m)%nat -> (a + w + n <= length P)%nat -> (m <= length ks)%nat ->
  xor_bytes (blk C (a + w) n) (drop w ks) = blk P (a + w) n.
Proof.
  intros H Hn HP Hk. rewrite (blk_sub C a w m n Hn), H, drop_xor, take_xor, <- (blk_sub P a w m n Hn).
  apply xor_bytes_cancel. rewrite length_blk, length_drop by done. lia.
Qed.

(** The counter field lies in the first block of a longer buffer. *)
Lemma field_read_take b n L : CtrLayout.layout_ok L -> layout_block_size L = n ->
  sar_ctr_field_read (take n b) L = sar_ctr_field_read b L.
Proof.
  intros [Hw Ho] Hn. unfold sar_ctr_field_read.
  destruct (big_endian L); apply fold_left_ext; intros v i [_ Hi]%elem_of_seq; rewrite Mem.rd_take by lia; done.
Qed.

(** ** The reference encryption of a file *)

(** Block after block through [f]; an incomplete last block stays as it is. *)
Definition blocks_file (bs : nat) (f : nat -> bytes -> bytes) (P C : bytes) : Prop :=
  (forall k, (k * bs + bs <= length P)%nat -> blk C (k * bs) bs = f k (blk P (k * bs) bs)) /\
  drop (length P / bs * bs) C = drop (length P / bs * bs) P.

(** Xor with the key-stream blocks [ks 0], [ks 1], ... *)
Definition ks_file (bs : nat) (ks : nat -> bytes) (P C : bytes) : Prop :=
  forall k, blk C (k * bs) bs = xor_bytes (blk P (k * bs) bs) (ks k).

(** The block the chaining modes feed into block [k]. *)
Definition prev_ct (bs : nat) (v C : bytes) (k : nat) : bytes :=
  match k with O => v | S k => blk C (k * bs) bs end.

Definition layout_of (rk : sar_recovery_key_t) : sar_ctr_layout_t :=
  nth (Z.to_nat (ctr_layout_tag rk - 1)) SAR_CTR_LAYOUTS default_layout.

Definition block_file (bc : block_cipher_ctx_t) (rk : sar_recovery_key_t) (P C : bytes) : Prop :=
  let bs := block_size bc in
  let v := take bs (iv rk) in
  if mode rk =? SAR_MODE_ECB then blocks_file bs (fun _ p => E bc p) P C
  else if mode rk =? SAR_MODE_CBC then
    blocks_file bs (fun k p => E bc (xor_bytes p (prev_ct bs v C k))) P C
  else if mode rk =? SAR_MODE_CFB then ks_file bs (fun k => E bc (prev_ct bs v C k)) P C
  else if mode rk =? SAR_MODE_OFB then ks_file bs (fun k => Nat.iter (S k) (E bc) v) P C
  else if mode rk =? SAR_MODE_CTR then
    ks_file bs (fun k => E bc (ctr_add (layout_of rk) v (Z.of_nat k))) P C
  else False.

(** [C] is the encryption of [P] under the key [rk]: of a whole file, or of a
    part of it that starts at offset [at0] and is encrypted on its own.  Only XTS
    looks at the offset. *)
Definition encrypts (rk : sar_recovery_key_t) (at0 : nat) (P C : bytes) : Prop :=
  length C = length P /\
  match build_ciphers rk with
  | None => False
  | Some (Block bc) => block_file bc rk P C
  | Some (Xts bc1 bc2) =>
    blocks_file 16 (fun k p => xts_block (E bc1) bc2 (mode_params rk) (Z.of_nat (at0 + k * 16)) p) P C
  | Some NoCipher =>
    if is_rc4 rk then
      C = xor_bytes P (Stream.rc4_stream (length P)
            (Stream.rc4_init (key rk) (Z.to_nat (key_length rk))))
    else ks_file 64 (fun k => stream_block rk (Z.of_nat k)) P C
  end.

(** A key that carries what its mode needs. *)
Record key_ok (rk : sar_recovery_key_t) : Prop := {
  ko_pre : precheck rk = SAR_RECOVER_OK;
  ko_key : is_bytes (key rk);
  ko_iv : is_block 24 (iv rk);
  ko_iv_len : forall bc, build_ciphers rk = Some (Block bc) -> mode rk <> SAR_MODE_ECB ->
    Z.of_nat (block_size bc) <= iv_length rk;
  ko_layout : forall bc, build_ciphers rk = Some (Block bc) -> mode rk = SAR_MODE_CTR ->
    layout_block_size (layout_of rk) = block_size bc;
  ko_xts : mode rk = SAR_MODE_XTS -> algorithm rk <> SAR_ALG_3DES
}.

(** ** The ciphers behind a key *)

Lemma make_block_cipher alg k klen bc : is_bytes k -> make_block alg k klen = Some bc -> BlockCipher bc.
Proof.
  intros Hk. unfold make_block.
  destruct (_ || _ || _)%bool; [intros [= <-]; by apply Aes.aes_block_cipher|].
  destruct (alg =? SAR_ALG_3DES); [intros [= <-]; apply Des.des3_block_cipher|].
  destruct (alg =? SAR_ALG_SM4); [intros [= <-]; apply Sm4.sm4_block_cipher|].
  destruct (alg =? SAR_ALG_CAMELLIA); [intros [= <-]; by apply Camellia.camellia_block_cipher|].
  destruct (alg =? SAR_ALG_ARIA); [intros [= <-]; by apply Aria.aria_block_cipher|].
  destruct (alg =? SAR_ALG_SEED); [intros [= <-]; apply Seed.seed_block_cipher|done].
Qed.

Lemma make_block_size alg k klen bc : make_block alg k klen = Some bc -> alg <> SAR_ALG_3DES ->
  block_size bc = 16%nat.
Proof.
  unfold make_block. intros H Hd.
  destruct (_ || _ || _)%bool; [by injection H as <-|].
  destruct (Z.eqb_spec alg SAR_ALG_3DES); [done|].
  destruct (alg =? SAR_ALG_SM4); [by injection H as <-|].
  destruct (alg =? SAR_ALG_CAMELLIA); [by injection H as <-|].
  destruct (alg =? SAR_ALG_ARIA); [by injection H as <-|].
  destruct (alg =? SAR_ALG_SEED); [by injection H as <-|done].
Qed.

(** ** The loops on an encrypted part of a file *)

(** The slice of [P] and [C] that is encrypted as one unit starts at [org] and
    has [m] bytes; the range to decrypt, [s .. s + len), lies inside it. *)
Section Range.
Context (P C pt : bytes) (org m s len : nat).
Context (HlC : length C = length P) (Hlpt : (s + len <= length pt)%nat) (Hm : (org + m <= length P)%nat).
Context (Hs : (org <= s)%nat) (Hlen : (s + len <= org + m)%nat).

Abbreviation P' := (blk P org m).
Abbreviation C' := (blk C org m).

Lemma slice_blk X a n : (a + n <= m)%nat -> blk X (org + a) n = blk (blk X org m) a n.
Proof. intros H. by apply blk_sub. Qed.

Lemma length_P' : length P' = m.
Proof. apply length_blk. lia. Qed.

(** *** Key-stream modes *)

Section KeyStream.
Context (bs k0 : nat) (ks : nat -> bytes).
Context (Hks : ks_file bs ks P' C') (Hbs : (0 < bs)%nat) (Hl : forall k, length (ks k) = bs).

(** Bytes [w .. w + n) of block [k]. *)
Lemma ks_at_piece k w n : (w + n <= bs)%nat -> (k * bs + w + n <= m)%nat ->
  xor_bytes (blk C (org + (k * bs + w)) n) (drop w (ks k)) = blk P (org + (k * bs + w)) n.
Proof.
  intros H1 H2. rewrite !slice_blk by lia.
  apply (ks_piece _ _ _ _ _ bs); [apply Hks|done|rewrite length_P'; lia|by rewrite Hl].
Qed.

Lemma xor_part_piece k pt' : (s + k * bs < s + len)%nat -> (s = org + k0 * bs)%nat ->
  xor_part C 0 pt' (ks (k0 + k)) s len 0 (s + k * bs) bs =
  mem_write pt' (s + k * bs) (blk P (s + k * bs) (Nat.min bs (len - k * bs))).
Proof.
  intros H1 H2. unfold xor_part. rewrite ?Nat.add_0_r, ?Nat.sub_0_r. f_equal.
  replace (if (_ <? _)%nat then _ else _) with (Nat.min bs (len - k * bs))
    by (destruct (Nat.ltb_spec (s + len - (s + k * bs)) bs); lia).
  replace (s + k * bs)%nat with (org + ((k0 + k) * bs + 0))%nat by lia.
  rewrite <- (drop_0 (ks (k0 + k))). apply ks_at_piece; lia.
Qed.

Lemma ks_fill : (s = org + k0 * bs)%nat ->
  fold_left (fun pt' k => xor_part C 0 pt' (ks (k0 + k)) s len 0 (s + k * bs) bs)
    (seq 0 (passes len bs)) pt = patched pt P s len.
Proof.
  intros H2. destruct (decide (len = 0)%nat) as [->|Hne].
  { unfold passes. rewrite Nat.div_small by lia. cbn. by rewrite patched_0. }
  destruct (passes_spec len bs) as (q & -> & Hq1 & Hq2); [done|lia|]. rewrite fold_seq_snoc.
  rewrite (fold_left_ext _ (fun pt' k => mem_write pt' (s + k * bs) (blk P (s + k * bs) bs))).
  - rewrite (fill_blocks bs pt P s q) by (lia || done). cbn [Nat.add].
    rewrite xor_part_piece by (lia || done). rewrite Nat.min_r by lia.
    rewrite patched_step by lia. f_equal. lia.
  - intros k pt' [_ Hk]%elem_of_seq. rewrite xor_part_piece by (nia || done). rewrite Nat.min_l by nia. done.
Qed.
End KeyStream.

(** *** Block modes *)

Section Blocks.
Context (bs k0 : nat) (f : nat -> bytes -> bytes) (Hbs : (0 < bs)%nat).
Context (Hf : blocks_file bs f P' C') (Hs0 : (s = org + k0 * bs)%nat).

Lemma block_at k : (k < len / bs)%nat ->
  blk C (s + k * bs) bs = f (k0 + k) (blk P (s + k * bs) bs).
Proof.
  intros Hk. pose proof (div_blocks len bs Hbs). destruct Hf as [H1 _].
  replace (s + k * bs)%nat with (org + (k0 + k) * bs)%nat by lia.
  rewrite !slice_blk by nia. apply H1. rewrite length_P'. nia.
Qed.

Context (Hend : (len mod bs = 0 \/ s + len = org + m)%nat).
Context (Hpt : (len mod bs <> 0)%nat -> blk pt s len = blk C s len).

(** The bytes after the last whole block. *)
Lemma tail_same :
  blk pt (s + len / bs * bs) (len - len / bs * bs) = blk P (s + len / bs * bs) (len - len / bs * bs).
Proof.
  pose proof (div_blocks len bs Hbs) as Hd.
  destruct (decide (len mod bs = 0)%nat) as [Hz|Hz0]; [|destruct Hend as [?|Hz]; [done|]].
  { pose proof (Nat.div_mod_eq len bs). replace (len - _)%nat with 0%nat by lia. by unfold blk. }
  rewrite (blk_sub pt s (len / bs * bs) len) by lia. rewrite Hpt by done.
  rewrite <- (blk_sub C s (len / bs * bs) len) by lia.
  destruct Hf as [_ H2]. rewrite length_P' in H2.
  assert (Hq : (m / bs = k0 + len / bs)%nat).
  { symmetry. apply (Nat.div_unique m bs _ (len - len / bs * bs)); lia. }
  rewrite Hq in H2. replace (s + len / bs * bs)%nat with (org + (k0 + len / bs) * bs)%nat by lia.
  rewrite !slice_blk by lia. unfold blk at 1 3. by rewrite H2.
Qed.

Lemma fill_tail : patched pt P s (len / bs * bs) = patched pt P s len.
Proof.
  pose proof (div_blocks len bs Hbs) as Hd.
  rewrite (patched_split pt P s (len / bs * bs) (len - len / bs * bs)); [|lia..|apply tail_same].
  f_equal. lia.
Qed.

Lemma block_fill g : (forall k, (k < len / bs)%nat -> g k = blk P (s + k * bs) bs) ->
  fold_left (fun pt' k => mem_write pt' (s + k * bs) (g k)) (seq 0 (len / bs)) pt = patched pt P s len.
Proof.
  intros Hg. pose proof (div_blocks len bs Hbs).
  rewrite (fill_blocks bs pt P s) by (lia || done). apply fill_tail.
Qed.

Lemma block_fill_c h :
  (forall k pt', (k < len / bs)%nat -> h pt' k = Ret (mem_write pt' (s + k * bs) (blk P (s + k * bs) bs))) ->
  cfold h (seq 0 (len / bs)) pt = Ret (patched pt P s len).
Proof.
  intros Hh. pose proof (div_blocks len bs Hbs).
  rewrite (fill_blocks_c bs pt P s) by (lia || done). by rewrite fill_tail.
Qed.
End Blocks.

Section Cipher.
Context (bc : block_cipher_ctx_t) `{!BlockCipher bc} (HP : is_bytes P) (HC : is_bytes C) (k0 : nat).
Context (Hs0 : (s = org + k0 * block_size bc)%nat).

Abbreviation bs := (block_size bc).

Lemma plain_block o : (o + bs <= length P)%nat -> is_block bs (blk P o bs).
Proof. intros H. split; [by apply length_blk|by apply Forall_take, Forall_drop]. Qed.

Lemma cipher_block o : (o + bs <= length P)%nat -> is_block bs (blk C o bs).
Proof. intros H. split; [apply length_blk; lia|by apply Forall_take, Forall_drop]. Qed.

Lemma in_block k : (k < len / bs)%nat -> (s + k * bs + bs <= length P)%nat.
Proof. intros Hk. pose proof (div_blocks len bs (proj1 (bs_pos bc))). nia. Qed.

Hint Resolve plain_block cipher_block in_block : core.

Lemma rec_ecb_correct : blocks_file bs (fun _ p => E bc p) P' C' ->
  (len mod bs = 0 \/ s + len = org + m)%nat ->
  ((len mod bs <> 0)%nat -> blk pt s len = blk C s len) ->
  rec_ecb bc C 0 pt s len 0 = patched pt P s len.
Proof.
  intros Hf He Hpt. unfold rec_ecb.
  rewrite <- (block_fill bs k0 (fun _ p => E bc p) (proj1 (bs_pos bc)) Hf Hs0 He Hpt
    (fun k => D bc (blk C (s + k * bs) bs))).
  - apply fold_left_ext. intros pt' k _. by rewrite Nat.add_0_r, !Nat.sub_0_r.
  - intros k Hk. rewrite (block_at bs k0 _ (proj1 (bs_pos bc)) Hf Hs0 k Hk). apply (D_E bc). auto.
Qed.

(** The vector or the ciphertext block before block [k0 + k] of the slice. *)
Lemma range_iv_block_ok rk policy origin k : Z.of_nat bs <= iv_length rk ->
  org = (if (policy =? SAR_CTR_RESET_PER_CHUNK)%Z then origin else 0)%nat ->
  (s + k * bs <= org + m)%nat ->
  range_iv_block rk policy (s + k * bs) origin bs C 0 0 =
    Ret (Some (prev_ct bs (take bs (iv rk)) C' (k0 + k))).
Proof.
  intros Hiv Horg Hk. pose proof (bs_pos bc) as Hb. unfold range_iv_block.
  destruct (k0 + k)%nat as [|j] eqn:Ej; cbn [prev_ct].
  - assert (Ho : (s + k * bs = org)%nat) by nia. rewrite Ho.
    destruct (Z.ltb_spec (iv_length rk) (Z.of_nat bs)); [lia|].
    replace (_ || _)%bool with true; [done|]. symmetry.
    destruct (policy =? SAR_CTR_RESET_PER_CHUNK); subst org; by rewrite Nat.eqb_refl, ?orb_true_r.
  - assert (Ho : (s + k * bs = org + j * bs + bs)%nat) by nia.
    replace (_ || _)%bool with false; [|symmetry].
    + destruct (Nat.leb_spec (bs + 0) (s + k * bs + 0)); [|nia].
      rewrite <- slice_blk by nia. do 3 f_equal. nia.
    + destruct (policy =? SAR_CTR_RESET_PER_CHUNK); subst org; cbn [andb];
        apply orb_false_iff; split; try done; apply Nat.eqb_neq; nia.
Qed.

Section Vector.
Context (rk : sar_recovery_key_t) (policy : Z) (origin : nat).
Context (Hiv : is_block 24 (iv rk)) (Hivl : Z.of_nat bs <= iv_length rk).
Context (Horg : org = (if (policy =? SAR_CTR_RESET_PER_CHUNK)%Z then origin else 0)%nat).

Abbreviation v := (take bs (iv rk)).

Lemma vector_block : is_block bs v.
Proof.
  destruct Hiv as [Hl Hb]. pose proof (bs_pos bc). split; [rewrite length_take; lia|by apply Forall_take].
Qed.

Lemma prev_block k : (k * bs <= m)%nat -> is_block bs (prev_ct bs v C' k).
Proof.
  intros Hk. destruct k as [|k]; [apply vector_block|]. cbn [prev_ct]. rewrite <- slice_blk by lia.
  apply cipher_block. lia.
Qed.

(** The first block of the slice that the range holds. *)
Lemma first_index : (if (policy =? SAR_CTR_RESET_PER_CHUNK)%Z then (s - origin) / bs else s / bs)%nat = k0.
Proof.
  pose proof (bs_pos bc). destruct (policy =? SAR_CTR_RESET_PER_CHUNK); subst org; rewrite Hs0;
    [rewrite Nat.add_comm, Nat.add_sub|rewrite Nat.add_0_l]; apply Nat.div_mul; lia.
Qed.

Lemma block_index k :
  (if (policy =? SAR_CTR_RESET_PER_CHUNK)%Z then (s + k * bs - origin) / bs else (s + k * bs) / bs)%nat =
  (k0 + k)%nat.
Proof.
  pose proof (bs_pos bc).
  destruct (policy =? SAR_CTR_RESET_PER_CHUNK); subst org; rewrite Hs0; symmetry;
    apply (Nat.div_unique _ _ _ 0); nia.
Qed.

Lemma rec_cbc_correct : blocks_file bs (fun k p => E bc (xor_bytes p (prev_ct bs v C' k))) P' C' ->
  (len mod bs = 0 \/ s + len = org + m)%nat ->
  ((len mod bs <> 0)%nat -> blk pt s len = blk C s len) ->
  rec_cbc bc rk policy C 0 pt origin s len 0 = Ret (patched pt P s len).
Proof.
  intros Hf He Hpt. pose proof (bs_pos bc) as Hb. unfold rec_cbc.
  apply (block_fill_c bs k0 _ (proj1 Hb) Hf Hs0 He Hpt). intros k pt' Hk.
  pose proof (div_blocks len bs (proj1 Hb)).
  rewrite range_iv_block_ok by (done || nia). rewrite ?Nat.add_0_r, ?Nat.sub_0_r. do 2 f_equal.
  rewrite (block_at bs k0 _ (proj1 Hb) Hf Hs0 k Hk).
  assert (Hp : is_block bs (prev_ct bs v C' (k0 + k))) by (apply prev_block; nia).
  assert (Hq : is_block bs (blk P (s + k * bs) bs)) by auto.
  rewrite (D_E bc) by by apply xor_bytes_block.
  apply xor_bytes_cancel. destruct Hp, Hq. lia.
Qed.

Lemma cfb_part_ok k n pt' : ks_file bs (fun k => E bc (prev_ct bs v C' k)) P' C' ->
  (n <= bs)%nat -> (s + k * bs + n <= org + m)%nat ->
  cfb_part bc rk policy C 0 pt' origin (s + k * bs) 0 n =
    Ret (mem_write pt' (s + k * bs) (blk P (s + k * bs) n)).
Proof.
  intros Hf Hn Hk. unfold cfb_part. rewrite range_iv_block_ok by (done || lia). rewrite ?Nat.add_0_r, ?Nat.sub_0_r. do 2 f_equal.
  replace (s + k * bs)%nat with (org + ((k0 + k) * bs + 0))%nat by lia. rewrite !slice_blk by lia.
  apply (ks_piece _ _ _ _ 0 bs n (Hf (k0 + k)%nat)); [lia|rewrite length_P'; lia|].
  destruct (E_block bc (prev_ct bs v C' (k0 + k))) as [-> _]; [apply prev_block|]; lia.
Qed.

Lemma rec_cfb_correct : ks_file bs (fun k => E bc (prev_ct bs v C' k)) P' C' ->
  rec_cfb bc rk policy C 0 pt origin s len 0 = Ret (patched pt P s len).
Proof.
  intros Hf. pose proof (bs_pos bc) as Hb. pose proof (div_blocks len bs (proj1 Hb)). unfold rec_cfb.
  rewrite (fill_blocks_c bs pt P s) by (lia || (intros; apply cfb_part_ok; [done|lia|nia])).
  destruct (Nat.ltb_spec 0 (len - len / bs * bs)) as [Hr|Hr].
  - rewrite cfb_part_ok by (done || lia). rewrite patched_step by lia. do 2 f_equal. lia.
  - do 2 f_equal. lia.
Qed.

Lemma iter_E_block j : is_block bs (Nat.iter j (E bc) v).
Proof. induction j as [|j IH]; [apply vector_block|]. by apply (E_block bc). Qed.

(** The loop of OFB with its running key-stream block made explicit. *)
Lemma fold_running {A} (h : A -> bytes -> nat -> A) (g : bytes -> bytes) a O n :
  fold_left (fun '(a, O) k => (h a O k, g O)) (seq 0 n) (a, O) =
  (fold_left (fun a k => h a (Nat.iter k g O) k) (seq 0 n) a, Nat.iter n g O).
Proof. induction n as [|n IH]; [done|]. by rewrite !fold_seq_snoc, IH. Qed.

Lemma rec_ofb_correct : ks_file bs (fun k => Nat.iter (S k) (E bc) v) P' C' ->
  rec_ofb bc rk policy C 0 pt origin s len 0 = patched pt P s len.
Proof.
  intros Hf. pose proof (bs_pos bc) as Hb. unfold rec_ofb. rewrite first_index.
  rewrite (fold_running (fun pt O k => xor_part C 0 pt O s len 0 (s + k * bs) bs) (E bc)). cbn [fst].
  rewrite <- (ks_fill bs k0 _ Hf (proj1 Hb)) by (done || (intros; apply iter_E_block)).
  apply fold_left_ext. intros pt' k _. f_equal.
  rewrite <- (Nat.iter_add k k0), (Nat.add_comm k k0). symmetry. apply Nat.iter_succ_r.
Qed.

Lemma rec_ctr_correct : layout_block_size (layout_of rk) = bs -> CtrLayout.layout_ok (layout_of rk) ->
  ks_file bs (fun k => E bc (ctr_add (layout_of rk) v (Z.of_nat k))) P' C' ->
  rec_ctr bc rk policy C 0 pt origin s len 0 = patched pt P s len.
Proof.
  intros HL Hok Hf. pose proof (bs_pos bc) as Hb. pose proof vector_block as Hv. unfold rec_ctr.
  fold (layout_of rk). rewrite <- (ks_fill bs k0 _ Hf (proj1 Hb)).
  - apply fold_left_ext. intros pt' k _. cbv zeta. rewrite block_index. f_equal. f_equal.
    unfold ctr_block. rewrite <- (field_read_take (iv rk) bs) by (done || lia).
    apply ctr_add_u64; [done|]. by rewrite HL.
  - intros k. apply (E_block bc). rewrite <- HL in *. by apply ctr_add_block.
  - done.
Qed.

End Vector.
End Cipher.

(** *** XTS, the stream ciphers and RC4 *)

Lemma xts_invert bc1 bc2 `{!BlockCipher bc1} `{!BlockCipher bc2} du o p :
  block_size bc1 = 16%nat -> block_size bc2 = 16%nat -> is_block 16 p ->
  xts_block (D bc1) bc2 du o (xts_block (E bc1) bc2 du o p) = p.
Proof.
  intros H1 H2 Hp. unfold xts_block. pose proof (tweak_block bc2 du o H2) as Ht.
  assert (Hx : is_block (block_size bc1) (xor_bytes p (tweak_at bc2 du o)))
    by (rewrite H1; by apply xor_bytes_block).
  pose proof (E_block bc1 _ Hx) as He. rewrite H1 in He.
  rewrite xor_bytes_cancel by (destruct He, Ht; lia). rewrite (D_E bc1) by done.
  apply xor_bytes_cancel. destruct Hp, Ht; lia.
Qed.

Lemma rec_xts_correct bc1 bc2 `{!BlockCipher bc1} `{!BlockCipher bc2} du k0 :
  block_size bc1 = 16%nat -> block_size bc2 = 16%nat -> is_bytes P -> (s = org + k0 * 16)%nat ->
  blocks_file 16 (fun k p => xts_block (E bc1) bc2 du (Z.of_nat (org + k * 16)) p) P' C' ->
  (len mod 16 = 0 \/ s + len = org + m)%nat ->
  ((len mod 16 <> 0)%nat -> blk pt s len = blk C s len) ->
  rec_xts bc1 bc2 du C 0 pt s len 0 = patched pt P s len.
Proof.
  intros H1 H2 HP Hs0 Hf He Hpt. unfold rec_xts. pose proof (div_blocks len 16 ltac:(lia)).
  rewrite <- (block_fill 16 k0 _ ltac:(lia) Hf Hs0 He Hpt
    (fun k => xts_block (D bc1) bc2 du (Z.of_nat (s + k * 16)) (blk C (s + k * 16) 16))).
  - apply fold_left_ext. intros pt' k _. by rewrite Nat.add_0_r, !Nat.sub_0_r.
  - intros k Hk. rewrite (block_at 16 k0 _ ltac:(lia) Hf Hs0 k Hk).
    replace (org + (k0 + k) * 16)%nat with (s + k * 16)%nat by lia. apply xts_invert; [done..|].
    split; [apply length_blk; lia|by apply Forall_take, Forall_drop].
Qed.

Lemma length_stream_block rk n : length (stream_block rk n) = 64%nat.
Proof.
  unfold stream_block.
  destruct (is_chacha_alg _).
  - destruct (_ =? SAR_ALG_XCHACHA20); exact (proj1 (Stream.chacha_block_ok _ _ _ _)).
  - destruct (_ =? SAR_ALG_XSALSA20); exact (proj1 (Stream.salsa_block_ok _ _ _ _)).
Qed.

Section Streams.
Context (rk : sar_recovery_key_t) (policy : Z) (origin : nat).
Context (Horg : org = (if (policy =? SAR_CTR_RESET_PER_CHUNK)%Z then origin else 0)%nat).

Lemma stream_loop_correct fuel o : ks_file 64 (fun k => stream_block rk (Z.of_nat k)) P' C' ->
  (s <= o <= s + len)%nat -> (s + len - o <= fuel)%nat ->
  stream_loop fuel rk policy C 0 (patched pt P s (o - s)) origin (s + len) 0 o = Ret (patched pt P s len).
Proof.
  intros Hf. revert o. induction fuel as [|fuel IH]; intros o Ho Hfu; cbn [stream_loop].
  { destruct (Nat.ltb_spec o (s + len)); [lia|]. do 2 f_equal. lia. }
  destruct (Nat.ltb_spec o (s + len)) as [Hlt|Hge]; [|do 2 f_equal; lia].
  replace (if (policy =? SAR_CTR_RESET_PER_CHUNK)%Z then (o - origin)%nat else o) with (o - org)%nat
    by (subst org; destruct (policy =? SAR_CTR_RESET_PER_CHUNK); lia).
  set (w := ((o - org) mod 64)%nat). set (q := ((o - org) / 64)%nat).
  assert (Ho' : (o = org + (q * 64 + w))%nat).
  { pose proof (Nat.div_mod_eq (o - org) 64). unfold q, w. lia. }
  assert (Hw : (w < 64)%nat) by (apply Nat.mod_upper_bound; lia).
  set (n := if (s + len - o <? 64 - w)%nat then (s + len - o)%nat else (64 - w)%nat).
  assert (Hn : (0 < n /\ w + n <= 64 /\ o + n <= s + len)%nat)
    by (unfold n; destruct (Nat.ltb_spec (s + len - o) (64 - w)); lia).
  rewrite ?Nat.add_0_r, ?Nat.sub_0_r. rewrite Ho' at 3.
  rewrite (ks_at_piece 64 _ Hf ltac:(lia) (fun k => length_stream_block rk _) q w n) by lia. rewrite <- Ho'.
  replace o with (s + (o - s))%nat at 2 3 by lia. rewrite patched_step by lia.
  rewrite <- (IH (o + n)%nat) by lia. do 2 f_equal. lia.
Qed.

Lemma rec_stream_correct : ks_file 64 (fun k => stream_block rk (Z.of_nat k)) P' C' ->
  rec_stream rk policy C 0 pt origin s len 0 = Ret (patched pt P s len).
Proof.
  intros Hf. unfold rec_stream. rewrite <- (stream_loop_correct len s) by (done || lia).
  by rewrite Nat.sub_diag, patched_0.
Qed.

End Streams.

Lemma blk_one X i : (i < length X)%nat -> blk X i 1 = [rd X i].
Proof.
  intros Hi. destruct (lookup_lt_is_Some_2 X i Hi) as [x Hx].
  unfold blk. rewrite (drop_S X x i Hx), (Mem.rd_lookup X i x Hx). done.
Qed.

(** The key-stream byte at offset [j] of the slice. *)
Lemma rc4_at st0 j : C' = xor_bytes P' (Stream.rc4_stream m st0) -> (j < m)%nat ->
  rd C (org + j) ⊕ Stream.rc4_byte (Nat.iter (S j) Stream.rc4_step st0) = rd P (org + j).
Proof.
  intros Hf Hj.
  assert (Hk : drop j (Stream.rc4_stream m st0) =
    Stream.rc4_byte (Nat.iter (S j) Stream.rc4_step st0) ::
    Stream.rc4_stream (m - S j) (Nat.iter (S j) Stream.rc4_step st0)).
  { replace m with (j + S (m - S j))%nat at 1 by lia.
    rewrite Stream.rc4_stream_app, drop_app_length' by (by rewrite Stream.length_rc4_stream). done. }
  assert (Hp : xor_bytes (blk C' (0 + j) 1) (drop j (Stream.rc4_stream m st0)) = blk P' (0 + j) 1).
  { apply (ks_piece _ _ _ 0 j m 1).
    - change (blk ?X 0 m) with (take m X). rewrite !take_ge by (rewrite length_blk; lia). exact Hf.
    - lia.
    - rewrite length_P'. lia.
    - by rewrite Stream.length_rc4_stream. }
  rewrite Hk, Nat.add_0_l, <- !slice_blk, !blk_one in Hp by lia. by injection Hp.
Qed.

Lemma rec_rc4_correct rk policy :
  (s - org = if (policy =? SAR_CTR_RESET_PER_CHUNK)%Z then 0 else s)%nat ->
  C' = xor_bytes P' (Stream.rc4_stream m (Stream.rc4_init (key rk) (Z.to_nat (key_length rk)))) ->
  rec_rc4 rk policy C pt s len = patched pt P s len.
Proof.
  intros Hsk Hf. unfold rec_rc4. rewrite <- Hsk.
  set (st0 := Stream.rc4_init _ _) in *.
  set (step := fun '(pt, st) o => _).
  assert (H : forall n, (n <= len)%nat ->
    fold_left step (seq s n) (pt, Nat.iter (s - org) Stream.rc4_step st0) =
    (patched pt P s n, Nat.iter (s - org + n) Stream.rc4_step st0)).
  { induction n as [|n IH]; intros Hn; [by rewrite patched_0, Nat.add_0_r|].
    rewrite fold_seq_snoc, IH by lia. unfold step. cbv zeta. rewrite Nat.add_succ_r. f_equal.
    change (Stream.rc4_step ?x) with (Nat.iter 1 Stream.rc4_step x).
    rewrite <- Nat.iter_add. replace (s + n)%nat with (org + (s - org + n))%nat at 2 by lia.
    rewrite rc4_at by (done || lia). replace (org + (s - org + n))%nat with (s + n)%nat by lia.
    rewrite <- (Nat.add_1_r n), <- patched_step by lia. by rewrite blk_one by lia. }
  by rewrite H by done.
Qed.

End Range.

(** ** Any range of an encrypted file *)

(** A range starts on a block of the slice at [org], and ends on one or with the
    slice. *)
Definition unit_of (cs : ciphers) : nat :=
  match cs with Block bc => block_size bc | Xts _ _ => 16 | NoCipher => 1 end.

(** The modes that leave an incomplete last block as it is. *)
Definition block_mode (rk : sar_recovery_key_t) : bool :=
  (mode rk =? SAR_MODE_ECB) || (mode rk =? SAR_MODE_CBC) || (mode rk =? SAR_MODE_XTS).

Record range_ok (cs : ciphers) (P : bytes) (org m s len : nat) : Prop := {
  ro_slice : (org + m <= length P)%nat;
  ro_start : exists k, (s = org + k * unit_of cs)%nat;
  ro_inside : (s + len <= org + m)%nat;
  ro_end : (len mod unit_of cs = 0 \/ s + len = org + m)%nat
}.

Definition origin_of (policy : Z) (origin : nat) : nat :=
  if policy =? SAR_CTR_RESET_PER_CHUNK then origin else 0%nat.

Lemma layout_of_ok rk : precheck rk = SAR_RECOVER_OK -> mode rk = SAR_MODE_CTR ->
  CtrLayout.layout_ok (layout_of rk).
Proof.
  intros Hp Hm. unfold precheck in Hp. rewrite Hm in Hp. cbn in Hp.
  destruct (negb _); [done|]. destruct (_ || _ || _)%bool eqn:Ht; [done|].
  apply orb_false_iff in Ht as [[_ H1%Z.eqb_neq]%orb_false_iff H2%Z.ltb_ge].
  apply layouts_ok. unfold layout_of. apply (list_elem_of_lookup_2 _ (Z.to_nat (ctr_layout_tag rk - 1))).
  destruct (nth_lookup_or_length SAR_CTR_LAYOUTS (Z.to_nat (ctr_layout_tag rk - 1)) default_layout)
    as [H|H]; [done|]. cbn in H. lia.
Qed.

Lemma ciphers_cases cs :
  (exists bc, cs = Block bc) \/ (exists bc1 bc2, cs = Xts bc1 bc2) \/ cs = NoCipher.
Proof. destruct cs; eauto. Qed.

Section Whole.
Context (rk : sar_recovery_key_t) (cs : ciphers) (policy : Z).
Context (Hok : key_ok rk) (Hcs : build_ciphers rk = Some cs).
Context (P C pt : bytes) (HP : is_bytes P) (HC : is_bytes C).
Context (origin m s len : nat).
Context (HlC : length C = length P) (Hlpt : (s + len <= length pt)%nat).

Abbreviation org := (origin_of policy origin).

Context (Hr : range_ok cs P org m s len) (Henc : encrypts rk org (blk P org m) (blk C org m)).
Context (Hpt : block_mode rk = true -> (len mod unit_of cs <> 0)%nat -> blk pt s len = blk C s len).

Lemma range_block_correct bc : cs = Block bc ->
  recover_one_range rk policy cs C 0 pt origin s len 0 = Ret (patched pt P s len).
Proof.
  intros ->. destruct Hok as [Hpre Hkey Hiv Hivl Hlay _], Hr as [Hsl [k0 Hs0] Hin He]. cbn [unit_of] in *.
  assert (BlockCipher bc) as Hbc.
  { unfold build_ciphers in Hcs. destruct (mode rk =? SAR_MODE_XTS); [by destruct (make_xts _ _ _) as [[]|]|].
    destruct (is_block_alg _); [|done]. destruct (make_block _ _ _) eqn:Hm; [|done].
    injection Hcs as ->. by eapply make_block_cipher. }
  destruct Henc as [_ Hb]. rewrite Hcs in Hb. unfold block_file in Hb. cbv zeta in Hb. unfold recover_one_range.
  assert (org <= s)%nat by lia.
  specialize (Hivl bc Hcs). specialize (Hlay bc Hcs).
  unfold block_mode in Hpt.
  destruct (Z.eqb_spec (mode rk) SAR_MODE_ECB) as [?|Hne]; [f_equal; eapply rec_ecb_correct; eauto|].
  specialize (Hivl Hne).
  destruct (mode rk =? SAR_MODE_CBC); [eapply rec_cbc_correct; eauto|].
  destruct (mode rk =? SAR_MODE_CFB); [by eapply rec_cfb_correct|].
  destruct (mode rk =? SAR_MODE_OFB); [f_equal; by eapply rec_ofb_correct|].
  destruct (Z.eqb_spec (mode rk) SAR_MODE_CTR) as [Hm|]; [|done].
  f_equal. eapply rec_ctr_correct; eauto using layout_of_ok.
Qed.

Lemma range_xts_correct bc1 bc2 : cs = Xts bc1 bc2 ->
  recover_one_range rk policy cs C 0 pt origin s len 0 = Ret (patched pt P s len).
Proof.
  intros ->. destruct Hok as [Hpre Hkey _ _ _ Hx], Hr as [Hsl [k0 Hs0] Hin He]. cbn [unit_of] in *.
  destruct Henc as [_ Hb]. rewrite Hcs in Hb. unfold build_ciphers in Hcs. unfold recover_one_range.
  destruct (Z.eqb_spec (mode rk) SAR_MODE_XTS) as [Hm|];
    [|destruct (is_block_alg _); [destruct (make_block _ _ _)|]; done].
  destruct (make_xts _ _ _) as [[b1 b2]|] eqn:Hmk; [|done]. injection Hcs as -> ->.
  unfold make_xts in Hmk. destruct (_ =? 0); [done|].
  destruct (make_block _ (key rk) _) as [c1|] eqn:M1; [|done].
  destruct (make_block _ (drop _ _) _) as [c2|] eqn:M2; [|done]. injection Hmk as -> ->.
  specialize (Hx Hm). f_equal. unfold block_mode in Hpt. rewrite Hm in Hpt. specialize (Hpt eq_refl).
  eapply rec_xts_correct; eauto using make_block_cipher, make_block_size, Forall_drop. lia.
Qed.

Lemma range_stream_correct : cs = NoCipher -> (is_rc4 rk = true -> origin = s) ->
  recover_one_range rk policy cs C 0 pt origin s len 0 = Ret (patched pt P s len).
Proof.
  intros -> Hrc. destruct Hok as [Hpre _ _ _ _ _], Hr as [Hsl [k0 Hs0] Hin _].
  destruct Henc as [_ Hb]. rewrite Hcs in Hb. unfold recover_one_range.
  assert (org <= s)%nat by lia.
  destruct (is_rc4 rk) eqn:E4.
  - f_equal. rewrite length_blk in Hb by done.
    eapply rec_rc4_correct; [done..| |exact Hb].
    unfold origin_of. rewrite (Hrc eq_refl). destruct (policy =? SAR_CTR_RESET_PER_CHUNK); lia.
  - destruct (Z.eqb_spec (mode rk) SAR_MODE_STREAM) as [Hm|Hm]; [by eapply rec_stream_correct|].
    exfalso. unfold build_ciphers in Hcs.
    destruct (mode rk =? SAR_MODE_XTS); [by destruct (make_xts _ _ _) as [[]|]|].
    destruct (is_block_alg _) eqn:Eb; [by destruct (make_block _ _ _)|].
    unfold precheck in Hpre. rewrite Eb in Hpre. cbn [negb] in Hpre.
    apply Z.eqb_neq in Hm. rewrite Hm in Hpre.
    repeat (case_match; try done).
Qed.

(** Decrypting a range of an encrypted file restores the plaintext of that range
    and leaves the rest of the output alone. *)
Lemma range_correct : (is_rc4 rk = true -> origin = s) ->
  recover_one_range rk policy cs C 0 pt origin s len 0 = Ret (patched pt P s len).
Proof.
  intros H. destruct (ciphers_cases cs) as [[bc Hc]|[(bc1 & bc2 & Hc)|Hc]];
    [by eapply range_block_correct|by eapply range_xts_correct|by apply range_stream_correct].
Qed.
End Whole.

(** ** A buffer, range by range *)

Lemma lookup_blk X s n i : blk X s n !! i = if decide (i < n)%nat then X !! (s + i)%nat else None.
Proof.
  unfold blk. case_decide.
  - by rewrite lookup_take_lt, lookup_drop.
  - apply lookup_take_ge. lia.
Qed.

Lemma lookup_patched pt P s n i : length pt = length P -> (s + n <= length P)%nat ->
  patched pt P s n !! i = if decide (s <= i < s + n)%nat then P !! i else pt !! i.
Proof.
  intros Hl Hn. unfold patched.
  destruct (decide (i < s)%nat) as [Hi|Hi].
  { rewrite lookup_app_l by (rewrite length_take; lia). rewrite lookup_take_lt by done.
    by rewrite decide_False by lia. }
  rewrite lookup_app_r by (rewrite length_take; lia). rewrite length_take, Nat.min_l by lia.
  destruct (decide (i < s + n)%nat) as [Hj|Hj].
  - rewrite lookup_app_l by (rewrite length_blk; lia). rewrite lookup_blk, decide_True by lia.
    rewrite decide_True by lia. f_equal. lia.
  - rewrite lookup_app_r by (rewrite length_blk; lia). rewrite length_blk, lookup_drop by lia.
    rewrite decide_False by lia. f_equal. lia.
Qed.

Definition off_of (r : sar_range_t) : nat := Z.to_nat (range_offset r).
Definition len_of (r : sar_range_t) : nat := Z.to_nat (range_length r).

(** Byte [i] belongs to the range. *)
Definition in_range (i : nat) (r : sar_range_t) : Prop := (off_of r <= i < off_of r + len_of r)%nat.

#[global] Instance in_range_dec i r : Decision (in_range i r).
Proof. unfold in_range. apply _. Defined.

Definition disjoint_ranges (r r' : sar_range_t) : Prop := forall i, in_range i r -> ~ in_range i r'.

(** The range is encrypted: as a part of the file's prefix, or on its own when
    the counters restart with each range. *)
Definition range_encrypted (rk : sar_recovery_key_t) (cs : ciphers) (policy : Z) (P C : bytes)
    (r : sar_range_t) : Prop :=
  0 <= range_offset r /\ 0 <= range_length r /\
  exists m, let org := origin_of policy (off_of r) in
    range_ok cs P org m (off_of r) (len_of r) /\ encrypts rk org (blk P org m) (blk C org m).

(** The file [C] is [P] with the ranges [rs] encrypted. *)
Record partly_encrypted (rk : sar_recovery_key_t) (policy : Z) (rs : list sar_range_t) (P C : bytes)
  : Prop := {
  pe_plain : is_bytes P;
  pe_cipher : is_bytes C;
  pe_length : length C = length P;
  pe_ranges : exists cs, build_ciphers rk = Some cs /\ Forall (range_encrypted rk cs policy P C) rs;
  pe_disjoint : ForallOrdPairs disjoint_ranges rs;
  pe_outside : forall i, Forall (fun r => ~ in_range i r) rs -> C !! i = P !! i
}.

Section Buffer.
Context (rk : sar_recovery_key_t) (Hok : key_ok rk) (policy : Z) (P C : bytes) (cs : ciphers).
Context (HP : is_bytes P) (HC : is_bytes C) (HlC : length C = length P) (Hcs : build_ciphers rk = Some cs).

(** [pt] holds the plaintext outside the ranges [rs] still to be decrypted, and
    the ciphertext inside them. *)
Definition pending (rs : list sar_range_t) (pt : bytes) : Prop :=
  length pt = length P /\
  forall i, pt !! i = if decide (Exists (in_range i) rs) then C !! i else P !! i.

Lemma pending_range r rs pt : pending (r :: rs) pt -> (off_of r + len_of r <= length P)%nat ->
  blk pt (off_of r) (len_of r) = blk C (off_of r) (len_of r).
Proof.
  intros [Hl Hi] Hr. apply list_eq. intros i. rewrite !lookup_blk. case_decide; [|done].
  rewrite Hi, decide_True; [done|]. left. unfold in_range. lia.
Qed.

Lemma pending_step r rs pt : pending (r :: rs) pt -> Forall (disjoint_ranges r) rs ->
  (off_of r + len_of r <= length P)%nat -> pending rs (patched pt P (off_of r) (len_of r)).
Proof.
  intros [Hl Hi] Hd Hr. split; [rewrite length_patched; lia|]. intros i. rewrite lookup_patched by done.
  destruct (decide (_ <= i < _)%nat) as [Hin|Hout].
  - rewrite decide_False; [done|]. intros (r' & Hr' & Hi')%Exists_exists.
    rewrite Forall_forall in Hd. by apply (Hd r' Hr' i).
  - rewrite Hi. apply decide_ext. rewrite Exists_cons. unfold in_range at 1. tauto.
Qed.

Lemma ranges_fold rs pt : Forall (range_encrypted rk cs policy P C) rs ->
  ForallOrdPairs disjoint_ranges rs -> pending rs pt ->
  cfold (fun pt r =>
    if (Z.of_nat (length P) <? range_offset r) || (Z.of_nat (length P) - range_offset r <? range_length r)
    then Ret pt
    else recover_one_range rk policy cs C 0 pt (off_of r) (off_of r) (len_of r) 0) rs pt = Ret P.
Proof.
  intros HF HD. revert pt. induction rs as [|r rs IH]; intros pt Hp.
  - unfold cfold. cbn. f_equal. apply list_eq. intros i. rewrite (proj2 Hp), decide_False; [done|].
    by intros []%Exists_nil.
  - apply Forall_cons in HF as [(H0 & H0' & m & Hr & He) HF]. inversion HD as [|? ? Hd HD']; subst.
    unfold cfold in *. cbn [fold_left]. destruct Hr as [? [k Hk] ? ?] eqn:Er. clear Er.
    assert (Hin : (off_of r + len_of r <= length P)%nat) by lia.
    replace (_ || _)%bool with false by (symmetry; apply orb_false_iff;
      unfold off_of, len_of in Hin; split; apply Z.ltb_ge; lia).
    rewrite (range_correct rk cs policy Hok Hcs P C pt HP HC (off_of r) m
      (off_of r) (len_of r) HlC); try done.
    + apply IH; [done..|]. by apply pending_step.
    + destruct Hp as [-> _]. lia.
    + intros _ _. by eapply pending_range.
Qed.
End Buffer.

Lemma buffer_correct rk g rs P C pt :
  key_ok rk -> length pt = length P ->
  sar_geometry_expand (default full_geometry g) (Z.of_nat (length P)) SAR_MAX_RANGES = Ret (Some rs) ->
  partly_encrypted rk (from_option counter_policy SAR_CTR_CONTINUOUS g) rs P C ->
  sar_recover_buffer rk g C pt (Z.of_nat (length P)) = Ret (SAR_RECOVER_OK, P).
Proof.
  intros Hok Hpt Hg [HP HC Hl (cs & Hcs & Hrs) Hd Ho]. unfold sar_recover_buffer.
  assert (Hsel : (match g with Some g => (g, counter_policy g) | None => (full_geometry, SAR_CTR_CONTINUOUS) end)
    = (default full_geometry g, from_option counter_policy SAR_CTR_CONTINUOUS g)) by by destruct g.
  rewrite Hsel, Hg. unfold recover_ranges_into. rewrite (ko_pre rk Hok), Hcs. change (0 =? 0) with true.
  cbn [negb andb]. rewrite Nat2Z.id, <- Hl, take_ge, mem_write_all by lia.
  change (Z.to_nat 0) with 0%nat. rewrite Hl.
  pose proof (ranges_fold rk Hok _ P C cs HP HC Hl Hcs rs C Hrs Hd) as Hf. unfold off_of, len_of in Hf.
  rewrite Hf; [done|]. split; [done|]. intros i. case_decide as Hi; [done|]. apply Ho.
  by apply Forall_Exists_neg.
Qed.

(** The case of a file encrypted as a whole. *)
Lemma recover_buffer_full rk P C pt : key_ok rk -> 
  partly_encrypted rk SAR_CTR_CONTINUOUS
    [{| range_offset := 0; range_length := Z.of_nat (length P) |}] P C ->
  length pt = length P -> (0 < length P)%nat ->
  sar_recover_buffer rk None C pt (Z.of_nat (length P)) = Ret (SAR_RECOVER_OK, P).
Proof.
  intros Hok Hpe Hl H0. eapply buffer_correct; [done|done| |exact Hpe]. cbn [default].
  unfold sar_geometry_expand. destruct (Z.eqb_spec (Z.of_nat (length P)) 0); [lia|done].
Qed.

(** Property C1: recovery inverts encryption.  When the file [C] is [P] with the
    ranges that the geometry describes encrypted - in any of the block modes
    ECB, CBC, CFB, OFB, CTR and XTS with any of the block ciphers, or with
    ChaCha20, XChaCha20, Salsa20, XSalsa20 or RC4 - and the key carries the
    vector its mode needs, [sar_recover_buffer] ends with [SAR_RECOVER_OK] and
    the output buffer holds [P], byte for byte; under the continuous counter
    policy as under the one that restarts with every range. *)
Theorem recover_buffer_correct rk g rs P C pt :
  key_ok rk -> length pt = length P ->
  sar_geometry_expand (default full_geometry g) (Z.of_nat (length P)) SAR_MAX_RANGES = Ret (Some rs) ->
  partly_encrypted rk (from_option counter_policy SAR_CTR_CONTINUOUS g) rs P C ->
  sar_recover_buffer rk g C pt (Z.of_nat (length P)) = Ret (SAR_RECOVER_OK, P).
Proof. apply buffer_correct. Qed.

(** A file of 40 bytes with two separately encrypted SM4-CBC blocks, 20 bytes
    apart. *)
Definition demo_key : sar_recovery_key_t :=
  {| algorithm := SAR_ALG_SM4; mode := SAR_MODE_CBC; key_length := 16;
     key := map Z.of_nat (seq 1 16); mode_params := 0; iv := map Z.of_nat (seq 7 24);
     iv_length := 16; ctr_layout_tag := 0 |}.

Definition demo_geometry : sar_geometry_t :=
  {| geom_mode := SAR_GEOM_STRIDE; head_bytes := 0; chunk_bytes := 16; stride_bytes := 20; percent := 0;
     block_count := 0; counter_policy := SAR_CTR_RESET_PER_CHUNK; ranges := None; range_count := 0 |}.

Definition demo_plain : bytes := map (fun i => Z.of_nat i * 3) (seq 0 40).

Definition demo_block (o : nat) : bytes :=
  E (Sm4.sm4_cipher (key demo_key)) (xor_bytes (blk demo_plain o 16) (take 16 (iv demo_key))).

Definition demo_cipher_file : bytes :=
  demo_block 0 ++ blk demo_plain 16 4 ++ demo_block 20 ++ blk demo_plain 36 4.

Lemma demo_key_ok : key_ok demo_key.
Proof.
  assert (Hb : build_ciphers demo_key = Some (Block (Sm4.sm4_cipher (key demo_key)))) by reflexivity.
  constructor; try (split; [done|]); try (by apply forall_u_check; vm_compute); try done.
  intros bc. rewrite Hb. by intros [= <-].
Qed.

Lemma demo_range_encrypted o : o = 0%nat \/ o = 20%nat ->
  range_encrypted demo_key (Block (Sm4.sm4_cipher (key demo_key))) SAR_CTR_RESET_PER_CHUNK
    demo_plain demo_cipher_file {| range_offset := Z.of_nat o; range_length := 16 |}.
Proof.
  intros Ho. assert (Hoff : off_of {| range_offset := Z.of_nat o; range_length := 16 |} = o)
    by apply Nat2Z.id.
  unfold range_encrypted. rewrite Hoff. split; [cbn; lia|]. split; [done|]. exists 16%nat.
  change (origin_of SAR_CTR_RESET_PER_CHUNK o) with o. change (len_of _) with 16%nat. split.
  - split; [destruct Ho as [-> | ->]; cbn; lia|exists 0%nat; lia|lia|by left].
  - split; [destruct Ho as [-> | ->]; done|].
    change (build_ciphers demo_key) with (Some (Block (Sm4.sm4_cipher (key demo_key)))).
    unfold block_file. change (mode demo_key) with SAR_MODE_CBC.
    change (block_size (Sm4.sm4_cipher (key demo_key))) with 16%nat. cbv zeta.
    change (SAR_MODE_CBC =? SAR_MODE_ECB) with false. change (SAR_MODE_CBC =? SAR_MODE_CBC) with true. cbv iota.
    split; [|destruct Ho as [-> | ->]; by vm_compute].
    intros k Hk. assert (k = 0%nat) as -> by (destruct Ho as [-> | ->]; cbn in Hk; lia).
    destruct Ho as [-> | ->]; by vm_compute.
Qed.

Definition demo_ranges : list sar_range_t :=
  [{| range_offset := 0; range_length := 16 |}; {| range_offset := 20; range_length := 16 |}].

Lemma recover_buffer_correct_witness :
  sar_recover_buffer demo_key (Some demo_geometry) demo_cipher_file (replicate 40 0) 40 =
    Ret (SAR_RECOVER_OK, demo_plain) /\ demo_cipher_file <> demo_plain.
Proof.
  split; [|by vm_compute].
  apply (recover_buffer_correct demo_key (Some demo_geometry) demo_ranges demo_plain); [apply demo_key_ok|done|done|].
  constructor.
  - by apply forall_u_check; vm_compute.
  - by apply forall_u_check; vm_compute.
  - by vm_compute.
  - exists (Block (Sm4.sm4_cipher (key demo_key))). split; [done|].
    constructor; [|constructor; [|done]]; [apply (demo_range_encrypted 0)|apply (demo_range_encrypted 20)]; auto.
  - repeat constructor. intros i H H'. unfold in_range, off_of, len_of in *. cbn in *. lia.
  - intros i Hi. apply Forall_cons in Hi as [H1 [H2 _]%Forall_cons].
    unfold in_range, off_of, len_of in *. cbn [range_offset range_length] in *.
    do 40 (destruct i as [|i]; [first [by vm_compute|exfalso; cbn in *; lia]|]). done.
Defined.
