(* ===== verification/RecoverProps.v ===== *)
(** * Geometry, range and verification properties of recover.c

    What [sar_geometry_expand] computes, that its loops end, and what the other
    entry points of engine/src/recover.c promise. *)

From S2P Require Import Prelude Mem Sha256 Format Chain Keystore CipherCommon.
From S2P Require Import Sm4 Modes Recover RecoverCorrect.
Import CtrLayout Modes Layout Recover.

(** ** Expanding a geometry *)

(** A non-empty range inside the file. *)
Definition inside (file_size : Z) (r : sar_range_t) : Prop :=
  0 <= range_offset r /\ 0 < range_length r /\ range_offset r + range_length r <= file_size.

(** What the array of ranges satisfies while it is filled. *)
Definition filled (file_size cap : Z) (out : list sar_range_t) : Prop :=
  Z.of_nat (length out) <= cap /\ Forall (inside file_size) out.

(** What a call returns: the error, or a well-formed array. *)
Definition expands (file_size cap : Z) (r : cres (option (list sar_range_t))) : Prop :=
  match r with
  | Ret (Some out) => filled file_size cap out
  | Ret None => True
  | _ => False
  end.

Lemma filled_snoc file_size cap out off len : filled file_size cap out ->
  Z.of_nat (length out) < cap -> 0 <= off -> 0 < len -> off + len <= file_size ->
  filled file_size cap (out ++ [{| range_offset := off; range_length := len |}]).
Proof.
  intros [Hl HF] Hc H0 H1 H2. split; [rewrite length_app; cbn; lia|].
  apply Forall_app. split; [done|]. by constructor.
Qed.

Lemma zmin_spec a b : zmin a b = Z.min a b.
Proof. unfold zmin. destruct (Z.ltb_spec a b); lia. Qed.

Record geometry_ok (geom : sar_geometry_t) : Prop := {
  gk_head : is_u64 (head_bytes geom);
  gk_chunk : is_u64 (chunk_bytes geom);
  gk_stride : is_u64 (stride_bytes geom);
  gk_percent : is_u32 (percent geom);
  gk_blocks : is_u32 (block_count geom);
  gk_ranges : forall rs, ranges geom = Some rs ->
    Forall (fun r => is_u64 (range_offset r) /\ is_u64 (range_length r)) rs
}.

Section Expand.
Context (geom : sar_geometry_t) (Hg : geometry_ok geom) (file_size cap : Z).
Context (Hfs : is_u64 file_size) (Hcap : 0 <= cap).

Lemma stride_loop_ok fuel pos out : 0 < chunk_bytes geom -> 0 <= pos ->
  filled file_size cap out -> (Z.to_nat cap < length out + fuel)%nat ->
  expands file_size cap (stride_loop fuel geom file_size cap pos out).
Proof.
  intros Hc. revert pos out. induction fuel as [|fuel IH]; intros pos out Hp Ho Hfu; cbn [stride_loop].
  { destruct Ho as [Hl _]. lia. }
  destruct (Z.ltb_spec pos file_size) as [Hlt|]; [|done]. rewrite zmin_spec.
  destruct (Z.eqb_spec (Z.min (chunk_bytes geom) (file_size - pos)) 0) as [?|_]; [lia|].
  destruct (Z.leb_spec cap (Z.of_nat (length out))) as [_|Hn]; [done|].
  apply IH; [apply is_u_u64|apply filled_snoc; (done || lia)|rewrite length_app; cbn; lia].
Qed.

Lemma percent_loop_ok fuel chunk step bc i out : 0 < chunk -> 0 <= i ->
  filled file_size cap out -> (Z.to_nat cap < length out + fuel)%nat ->
  expands file_size cap (percent_loop fuel file_size cap chunk step bc i out).
Proof.
  intros Hc. revert i out. induction fuel as [|fuel IH]; intros i out Hi Ho Hfu; cbn [percent_loop].
  { destruct Ho as [Hl _]. lia. }
  destruct (i <? bc); [|done].
  destruct (Z.leb_spec file_size (u64 (i * step))) as [_|Hlt]; [done|]. rewrite zmin_spec.
  assert (H0 : 0 <= u64 (i * step)) by apply is_u_u64.
  destruct (Z.eqb_spec (Z.min chunk (file_size - u64 (i * step))) 0) as [?|_]; [lia|].
  destruct (Z.leb_spec cap (Z.of_nat (length out))) as [_|Hn]; [done|].
  apply IH; [lia|apply filled_snoc; (done || lia)|rewrite length_app; cbn; lia].
Qed.

Lemma explicit_loop_ok rs out :
  Forall (fun r => is_u64 (range_offset r) /\ is_u64 (range_length r)) rs ->
  filled file_size cap out -> expands file_size cap (Ret (explicit_loop rs file_size cap out)).
Proof.
  intros HF. revert out. induction HF as [|r rs [H1 H2] HF IH]; intros out Ho; cbn [explicit_loop]; [done|].
  destruct (Z.leb_spec file_size (range_offset r)) as [_|Hlt]; [by apply IH|]. rewrite zmin_spec.
  destruct (Z.eqb_spec (Z.min (range_length r) (file_size - range_offset r)) 0) as [_|Hne]; [by apply IH|].
  destruct (Z.leb_spec cap (Z.of_nat (length out))) as [_|Hn]; [done|].
  unfold is_u in *. apply IH. apply filled_snoc; (done || lia).
Qed.

Lemma one_range_ok len : 0 < len <= file_size -> expands file_size cap (Ret (one_range cap len)).
Proof.
  intros Hl. unfold one_range. destruct (Z.ltb_spec cap 1); [done|].
  split; [cbn; lia|]. repeat constructor; cbn; lia.
Qed.

Lemma filled_nil : filled file_size cap [].
Proof. split; [cbn; lia|constructor]. Qed.

(** Property C33: expanding a geometry always ends - none of the loops runs on,
    not even when the 64-bit positions of a stride wrap around - and yields the
    error value or at most [cap] ranges, each non-empty and inside the file. *)
Theorem geometry_expand_safe : expands file_size cap (sar_geometry_expand geom file_size cap).
Proof.
  unfold sar_geometry_expand. destruct Hg as [Hh Hc Hst Hp Hb Hr]. unfold is_u in *.
  pose proof filled_nil as Hn.
  destruct (Z.eqb_spec file_size 0) as [_|Hne]; [done|].
  destruct (_ =? SAR_GEOM_FULL); [apply one_range_ok; lia|].
  destruct (_ =? SAR_GEOM_HEAD).
  { rewrite zmin_spec. destruct (Z.ltb_spec 0 (Z.min (head_bytes geom) file_size)); [|done].
    apply one_range_ok. lia. }
  destruct (_ =? SAR_GEOM_STRIDE).
  { destruct (Z.eqb_spec (chunk_bytes geom) 0); [by rewrite orb_true_r|]. rewrite orb_false_r.
    destruct (_ =? 0); [done|]. apply stride_loop_ok; [lia|lia|done|cbn; lia]. }
  destruct (_ =? SAR_GEOM_PERCENT).
  { cbv zeta. set (total := u64 _ / 100). set (bc := if _ =? 0 then 1 else _).
    assert (Ht : 0 <= total) by (apply Z.div_pos; [apply is_u_u64|lia]).
    assert (Hbc : 0 < bc) by (unfold bc; destruct (Z.eqb_spec (block_count geom) 0); lia).
    pose proof (Z.div_pos total bc Ht Hbc).
    set (chunk := if total / bc =? 0 then total else total / bc).
    destruct (Z.eqb_spec chunk 0) as [_|Hc0]; [done|]. cbn [orb]. destruct (file_size / bc =? 0); [done|].
    apply percent_loop_ok; [|lia|done|cbn; lia].
    unfold chunk in *. destruct (Z.eqb_spec (total / bc) 0); lia. }
  destruct (_ =? SAR_GEOM_EXPLICIT); [|done].
  destruct (ranges geom) as [rs|] eqn:Er; [|by destruct (0 <? _)].
  apply explicit_loop_ok; [|done]. by apply Forall_take, Hr.
Qed.
End Expand.

Lemma geometry_expand_safe_witness :
  expands 1000 4 (sar_geometry_expand demo_geometry 1000 4) /\
  sar_geometry_expand demo_geometry 1000 4 = Ret None.
Proof.
  split; [|done]. apply geometry_expand_safe; [|done|done].
  constructor; try done.
Defined.

(** ** What a stride covers *)

Section Stride.
Context (geom : sar_geometry_t) (file_size cap : Z).
Context (Hfs : 0 < file_size) (Hcap : 0 <= cap).
Context (Hc : 0 < chunk_bytes geom <= stride_bytes geom) (Hw : file_size + stride_bytes geom <= 2 ^ 64).

Abbreviation stride := (stride_bytes geom).
Abbreviation chunk := (chunk_bytes geom).

(** The [j]th range and the number of ranges. *)
Definition stride_range (j : nat) : sar_range_t :=
  {| range_offset := Z.of_nat j * stride;
     range_length := Z.min chunk (file_size - Z.of_nat j * stride) |}.

Definition stride_count : nat := Z.to_nat ((file_size + stride - 1) / stride).

Lemma stride_count_spec j : (j < stride_count)%nat <-> Z.of_nat j * stride < file_size.
Proof.
  unfold stride_count. pose proof (Z.div_mod (file_size + stride - 1) stride ltac:(lia)).
  pose proof (Z.mod_pos_bound (file_size + stride - 1) stride ltac:(lia)).
  set (q := (file_size + stride - 1) / stride) in *. split; intros H'.
  - assert (Z.of_nat j <= q - 1) by lia. nia.
  - assert (Z.of_nat j < q) by nia. lia.
Qed.

Lemma stride_loop_exact fuel j out : length out = j -> (j <= stride_count)%nat ->
  (j <= Z.to_nat cap)%nat -> (Z.to_nat cap < j + fuel)%nat ->
  stride_loop fuel geom file_size cap (Z.of_nat j * stride) out =
  Ret (if (stride_count <=? Z.to_nat cap)%nat
       then Some (out ++ map stride_range (seq j (stride_count - j))) else None).
Proof.
  revert j out. induction fuel as [|fuel IH]; intros j out Hl Hj Hjc Hfu; [lia|]. cbn [stride_loop].
  destruct (Z.ltb_spec (Z.of_nat j * stride) file_size) as [Hlt|Hge].
  - apply stride_count_spec in Hlt as Hjn. rewrite zmin_spec.
    destruct (Z.eqb_spec (Z.min chunk (file_size - Z.of_nat j * stride)) 0) as [?|_]; [lia|].
    destruct (Z.leb_spec cap (Z.of_nat (length out))) as [Hfull|Hroom].
    + destruct (Nat.leb_spec stride_count (Z.to_nat cap)); [lia|done].
    + fold (stride_range j).
      replace (u64 (Z.of_nat j * stride + stride)) with (Z.of_nat (S j) * stride)
        by (rewrite u64_mod, Z.mod_small by nia; lia).
      rewrite IH by (rewrite ?length_app; cbn [length]; lia).
      destruct (Nat.leb_spec stride_count (Z.to_nat cap)); [|done]. rewrite <- app_assoc.
      replace (stride_count - j)%nat with (S (stride_count - S j)) by lia. done.
  - assert (stride_count = j) as -> by (pose proof (stride_count_spec j); lia).
    destruct (Nat.leb_spec j (Z.to_nat cap)); [|lia]. by rewrite Nat.sub_diag, app_nil_r.
Qed.

Lemma stride_in_range i j : in_range i (stride_range j) <->
  Z.of_nat j * stride <= Z.of_nat i < Z.of_nat j * stride + chunk /\ Z.of_nat i < file_size.
Proof.
  assert (0 <= Z.of_nat j * stride) by nia.
  unfold in_range, off_of, len_of, stride_range. cbn [range_offset range_length]. lia.
Qed.

Lemma stride_disjoint n a : ForallOrdPairs disjoint_ranges (map stride_range (seq a n)).
Proof.
  revert a. induction n as [|n IH]; intros a; cbn; constructor; [|apply IH].
  apply Forall_forall. intros r (j & -> & Hj)%list_elem_of_fmap i Hi Hi'.
  apply elem_of_seq in Hj. apply stride_in_range in Hi as [Hi _], Hi' as [Hi' _]. nia.
Qed.

Lemma stride_covers i : Z.of_nat i < file_size ->
  Exists (in_range i) (map stride_range (seq 0 stride_count)) <-> Z.of_nat i mod stride < chunk.
Proof.
  intros Hi. pose proof (Z.div_mod (Z.of_nat i) stride ltac:(lia)) as Hd.
  pose proof (Z.mod_pos_bound (Z.of_nat i) stride ltac:(lia)) as Hmod. split.
  - intros (r & (j & -> & _)%list_elem_of_fmap & [Hr _]%stride_in_range)%Exists_exists.
    rewrite <- (Z.mod_unique_pos (Z.of_nat i) stride (Z.of_nat j) (Z.of_nat i - Z.of_nat j * stride)); lia.
  - intros Hlt. apply Exists_exists. set (q := Z.of_nat i / stride) in *.
    assert (Hq : 0 <= q) by (apply Z.div_pos; lia).
    exists (stride_range (Z.to_nat q)). split.
    + apply list_elem_of_fmap. eexists. split; [done|]. apply elem_of_seq. split; [lia|].
      apply stride_count_spec. nia.
    + apply stride_in_range. nia.
Qed.

(** A stride geometry describes exactly the bytes it means.  With
    chunks no longer than the stride, the expansion fails only when there are
    more chunks than [cap]; otherwise the ranges are pairwise disjoint and byte
    [i] of the file is in one of them if and only if [i mod stride < chunk]. *)
Theorem geometry_stride_exact : geom_mode geom = SAR_GEOM_STRIDE ->
  (sar_geometry_expand geom file_size cap = Ret None /\ cap < Z.of_nat stride_count) \/
  exists rs, sar_geometry_expand geom file_size cap = Ret (Some rs) /\
    ForallOrdPairs disjoint_ranges rs /\
    forall i, Z.of_nat i < file_size ->
      Exists (in_range i) rs <-> Z.of_nat i mod stride < chunk.
Proof.
  intros Hm. unfold sar_geometry_expand. rewrite Hm.
  destruct (Z.eqb_spec file_size 0) as [?|_]; [lia|].
  change (SAR_GEOM_STRIDE =? SAR_GEOM_FULL) with false. change (SAR_GEOM_STRIDE =? SAR_GEOM_HEAD) with false.
  change (SAR_GEOM_STRIDE =? SAR_GEOM_STRIDE) with true. cbv iota.
  replace ((stride =? 0) || (chunk =? 0))%bool with false
    by (symmetry; apply orb_false_iff; split; apply Z.eqb_neq; lia).
  rewrite (stride_loop_exact _ 0 []) by (done || lia).
  destruct (Nat.leb_spec stride_count (Z.to_nat cap)) as [Hle|Hgt]; [right|left; split; [done|lia]].
  rewrite Nat.sub_0_r, app_nil_l. eexists. split; [done|]. split.
  - apply stride_disjoint.
  - intros i Hi. apply stride_covers. done.
Qed.
End Stride.

Lemma geometry_stride_exact_witness :
  exists rs, sar_geometry_expand demo_geometry 90 8 = Ret (Some rs) /\
    ForallOrdPairs disjoint_ranges rs /\
    forall i, Z.of_nat i < 90 -> Exists (in_range i) rs <-> Z.of_nat i mod 20 < 16.
Proof.
  destruct (geometry_stride_exact demo_geometry 90 8) as [[H _]|H]; try done.
Defined.

(** ** A window of the file *)

(** Decrypting with the pointers of a window is decrypting the file: the window
    [ct] holds the file from [pfx] bytes before offset [base], the output window
    starts at [base]. *)

Definition cmap {A B} (h : A -> B) (r : cres A) : cres B :=
  match r with Ret a => Ret (h a) | OutOfBounds => OutOfBounds | NoFuel => NoFuel end.

Lemma fold_map {A A' B} (h : A -> A') (f : A -> B -> A) (g : A' -> B -> A') l a :
  (forall a y, y ∈ l -> g (h a) y = h (f a y)) -> fold_left g l (h a) = h (fold_left f l a).
Proof.
  revert a. induction l as [|y l IH]; intros a H; [done|]. cbn [fold_left].
  rewrite H by by left. apply IH. intros a' z Hz. apply H. by right.
Qed.

Lemma cfold_map {A A' B} (h : A -> A') (f : A -> B -> cres A) (g : A' -> B -> cres A') l a :
  (forall a y, y ∈ l -> g (h a) y = cmap h (f a y)) -> cfold g l (h a) = cmap h (cfold f l a).
Proof.
  intros H. unfold cfold. change (Ret (h a)) with (cmap h (Ret a)). apply fold_map.
  intros [a'| |] y Hy; [by apply H|done|done].
Qed.

Lemma mem_write_drop {A} (l : list A) base o x : (base <= o)%nat ->
  mem_write (drop base l) (o - base) x = drop base (mem_write l o x).
Proof.
  revert l o. induction x as [|y x IH]; intros l o H; [done|]. cbn [mem_write].
  rewrite <- drop_insert_ge by done. replace (S (o - base)) with (S o - base)%nat by lia. apply IH. lia.
Qed.

Section Window.
Context (ct C : bytes) (pfx base start len : nat) (Hb : (base <= start)%nat).
Context (Hwin : forall i, (base <= i + pfx)%nat -> (i < start + len)%nat ->
  ct !! (i + pfx - base)%nat = C !! i).

Lemma blk_window o n : (base <= o + pfx)%nat -> (o + n <= start + len)%nat ->
  blk ct (o + pfx - base) n = blk C o n.
Proof.
  intros H1 H2. apply list_eq. intros i. rewrite !lookup_blk. case_decide; [|done].
  rewrite <- Hwin by lia. f_equal. lia.
Qed.

(** The block in front of the window is readable when it is needed. *)
Definition prefix_ok (bs : nat) : Prop := base = 0%nat \/ (bs <= pfx)%nat.

Lemma range_iv_window rk policy o origin bs : prefix_ok bs -> (start <= o)%nat -> (o <= start + len)%nat ->
  (o = 0 \/ bs <= o)%nat ->
  range_iv_block rk policy o origin bs ct pfx base = range_iv_block rk policy o origin bs C 0 0.
Proof.
  intros Hp H1 H2 H3. unfold range_iv_block. destruct (_ || _)%bool eqn:E; [done|].
  apply orb_false_iff in E as [E%Nat.eqb_neq _]. unfold prefix_ok in Hp.
  destruct (Nat.leb_spec (bs + base) (o + pfx)); [|lia]. destruct (Nat.leb_spec (bs + 0) (o + 0)); [|lia].
  do 2 f_equal. rewrite <- blk_window by lia. f_equal. lia.
Qed.

Section Modes.
Context (bc : block_cipher_ctx_t) `{!BlockCipher bc} (rk : sar_recovery_key_t) (policy : Z) (origin : nat).
Context (pt : bytes) (Hp : prefix_ok (block_size bc)) (Hstart : (start = 0 \/ block_size bc <= start)%nat).

Abbreviation bs := (block_size bc).

Lemma whole_block k : k ∈ seq 0 (len / bs) -> (start + k * bs + bs <= start + len)%nat.
Proof. intros [_ Hk]%elem_of_seq. pose proof (div_blocks len bs (proj1 (bs_pos bc))). nia. Qed.

Lemma before_block k : (start + k * bs = 0 \/ bs <= start + k * bs)%nat.
Proof. destruct k; nia. Qed.

Lemma ecb_window :
  rec_ecb bc ct pfx (drop base pt) start len base = drop base (rec_ecb bc C 0 pt start len 0).
Proof.
  unfold rec_ecb. apply fold_map. intros pt' k Hk%whole_block.
  rewrite blk_window, mem_write_drop by lia. by rewrite Nat.add_0_r, Nat.sub_0_r.
Qed.

Lemma cbc_window :
  rec_cbc bc rk policy ct pfx (drop base pt) origin start len base =
  cmap (drop base) (rec_cbc bc rk policy C 0 pt origin start len 0).
Proof.
  unfold rec_cbc. apply cfold_map. intros pt' k Hk%whole_block.
  rewrite range_iv_window by (done || lia || apply before_block).
  destruct (range_iv_block _ _ _ _ _ _ _ _) as [[prev|]| |]; try done. cbn [cmap].
  rewrite blk_window, mem_write_drop by lia. by rewrite Nat.add_0_r, Nat.sub_0_r.
Qed.

Lemma cfb_part_window k n pt' : (start + k * bs + n <= start + len)%nat ->
  cfb_part bc rk policy ct pfx (drop base pt') origin (start + k * bs) base n =
  cmap (drop base) (cfb_part bc rk policy C 0 pt' origin (start + k * bs) 0 n).
Proof.
  intros Hk. unfold cfb_part. rewrite range_iv_window by (done || lia || apply before_block).
  destruct (range_iv_block _ _ _ _ _ _ _ _) as [[prev|]| |]; try done. cbn [cmap].
  rewrite blk_window, mem_write_drop by lia. by rewrite Nat.add_0_r, Nat.sub_0_r.
Qed.

Lemma cfb_window :
  rec_cfb bc rk policy ct pfx (drop base pt) origin start len base =
  cmap (drop base) (rec_cfb bc rk policy C 0 pt origin start len 0).
Proof.
  unfold rec_cfb.
  rewrite (cfold_map (drop base) (fun pt k => cfb_part bc rk policy C 0 pt origin (start + k * bs) 0 bs))
    by (intros pt' k Hk%whole_block; by apply cfb_part_window).
  destruct (cfold _ _ _) as [pt'| |]; [|done..]. cbn [cmap].
  pose proof (div_blocks len bs (proj1 (bs_pos bc))).
  destruct (Nat.ltb_spec 0 (len - len / bs * bs)); [|done]. apply cfb_part_window. lia.
Qed.

Lemma xor_part_window o n ks pt' : (start <= o <= start + len)%nat ->
  xor_part ct pfx (drop base pt') ks start len base o n =
  drop base (xor_part C 0 pt' ks start len 0 o n).
Proof.
  intros Ho. unfold xor_part. set (w := if (_ <? _)%nat then _ else _).
  assert (Hw : (o + w <= start + len)%nat) by (unfold w; destruct (Nat.ltb_spec (start + len - o) n); lia).
  rewrite blk_window, mem_write_drop by lia. by rewrite Nat.add_0_r, Nat.sub_0_r.
Qed.

Lemma pass_start k : k ∈ seq 0 (passes len bs) -> (start <= start + k * bs <= start + len)%nat.
Proof.
  intros [_ Hk]%elem_of_seq. pose proof (bs_pos bc). destruct (decide (len = 0)%nat) as [->|].
  - unfold passes in Hk. rewrite Nat.div_small in Hk; lia.
  - destruct (passes_spec len bs) as (q & Hq & ?); [lia..|]. nia.
Qed.

Lemma ofb_window :
  rec_ofb bc rk policy ct pfx (drop base pt) origin start len base =
  drop base (rec_ofb bc rk policy C 0 pt origin start len 0).
Proof.
  unfold rec_ofb. set (O0 := Nat.iter _ _ _).
  change (drop base pt, O0) with (prod_map (drop base) id (pt, O0)).
  rewrite (fold_map (prod_map (drop base) id)
    (fun '(pt, ob) k => (xor_part C 0 pt ob start len 0 (start + k * bs) bs, E bc ob))); [done|].
  intros [pt' ob] k Hk%pass_start. cbn. f_equal. by apply xor_part_window.
Qed.

Lemma ctr_window :
  rec_ctr bc rk policy ct pfx (drop base pt) origin start len base =
  drop base (rec_ctr bc rk policy C 0 pt origin start len 0).
Proof.
  unfold rec_ctr. apply fold_map. intros pt' k Hk%pass_start. by apply xor_part_window.
Qed.
End Modes.

Lemma xts_window bc1 bc2 du pt :
  rec_xts bc1 bc2 du ct pfx (drop base pt) start len base = drop base (rec_xts bc1 bc2 du C 0 pt start len 0).
Proof.
  unfold rec_xts. apply fold_map. intros pt' k [_ Hk]%elem_of_seq.
  pose proof (div_blocks len 16 ltac:(lia)).
  rewrite blk_window, mem_write_drop by lia. by rewrite Nat.add_0_r, Nat.sub_0_r.
Qed.

Lemma stream_window fuel rk policy pt origin o : (start <= o)%nat ->
  stream_loop fuel rk policy ct pfx (drop base pt) origin (start + len) base o =
  cmap (drop base) (stream_loop fuel rk policy C 0 pt origin (start + len) 0 o).
Proof.
  revert pt o. induction fuel as [|fuel IH]; intros pt o Ho; cbn [stream_loop];
    destruct (Nat.ltb_spec o (start + len)) as [Hlt|]; try done.
  set (w := (_ mod 64)%nat). set (n := if (_ <? _)%nat then _ else _).
  assert (Hn : (o + n <= start + len)%nat)
    by (unfold n; destruct (Nat.ltb_spec (start + len - o) (64 - w)); lia).
  rewrite blk_window, mem_write_drop by lia. rewrite Nat.add_0_r, !Nat.sub_0_r. apply IH. lia.
Qed.
(** All modes at once; RC4 has no windows. *)
Lemma range_window rk policy cs pt origin : is_rc4 rk = false -> (start = 0 \/ 16 <= start)%nat ->
  prefix_ok 16 -> (forall bc, cs = Block bc -> BlockCipher bc) ->
  recover_one_range rk policy cs ct pfx (drop base pt) origin start len base =
  cmap (drop base) (recover_one_range rk policy cs C 0 pt origin start len 0).
Proof.
  intros Hrc Hst Hpf Hbc. unfold recover_one_range. destruct cs as [bc|bc1 bc2|].
  - specialize (Hbc bc eq_refl). pose proof (bs_pos bc) as Hb16.
    assert (Hp : prefix_ok (block_size bc)) by (unfold prefix_ok in *; lia).
    assert (Hs : (start = 0 \/ block_size bc <= start)%nat) by lia.
    destruct (mode rk =? SAR_MODE_ECB); [cbn; f_equal; by apply ecb_window|].
    destruct (mode rk =? SAR_MODE_CBC); [by apply cbc_window|].
    destruct (mode rk =? SAR_MODE_CFB); [by apply cfb_window|].
    destruct (mode rk =? SAR_MODE_OFB); [cbn; f_equal; by apply ofb_window|].
    destruct (mode rk =? SAR_MODE_CTR); [cbn; f_equal; by apply ctr_window|done].
  - destruct (mode rk =? SAR_MODE_XTS); [cbn; f_equal; apply xts_window|done].
  - rewrite Hrc. destruct (mode rk =? SAR_MODE_STREAM); [by apply stream_window|done].
Qed.
End Window.

(** The file [P] and its ciphertext [C], of which the window [ct] shows the part
    around [start .. start + len). *)
Record window_of (C ct : bytes) (pfx base start len : nat) : Prop := {
  wo_base : (base <= start)%nat;
  wo_start : (start = 0 \/ 16 <= start)%nat;
  wo_prefix : (base = 0 \/ 16 <= pfx)%nat;
  wo_bytes : forall i, (base <= i + pfx)%nat -> (i < start + len)%nat ->
    ct !! (i + pfx - base)%nat = C !! i
}.

Lemma block_ciphers_ok rk bc : is_bytes (key rk) -> build_ciphers rk = Some (Block bc) -> BlockCipher bc.
Proof.
  intros Hk H. unfold build_ciphers in H.
  destruct (mode rk =? SAR_MODE_XTS); [by destruct (make_xts _ _ _) as [[]|]|].
  destruct (is_block_alg _); [|done]. destruct (make_block _ _ _) eqn:Hm; [|done].
  injection H as ->. by eapply make_block_cipher.
Qed.

(** A file-sized buffer whose part from [base] on is the window [w]. *)
Lemma drop_pad base (w : bytes) : drop base (replicate base 0 ++ w) = w.
Proof. apply drop_app_length'. by rewrite length_replicate. Qed.

Lemma drop_patched pt P base s n : (base <= s)%nat -> (s + n <= length P)%nat -> (s + n <= length pt)%nat ->
  take (s + n - base) (drop base (patched pt P s n)) =
  take (s - base) (drop base pt) ++ blk P s n.
Proof.
  intros H1 H2 H3. unfold patched. rewrite drop_app_le by (rewrite length_take; lia).
  rewrite skipn_firstn_comm, take_app, length_take, length_drop.
  rewrite (take_ge (take _ _)) by (rewrite length_take; lia). f_equal.
  rewrite take_app_le by (rewrite length_blk; lia). apply take_ge. rewrite length_blk; lia.
Qed.

(** Decrypting a file window by window is decrypting the file.  For
    a window that the continuous counter policy decrypts - block aligned, with
    16 bytes of ciphertext readable before it unless it starts the file -
    [sar_recover_chunk] succeeds and the output window holds the plaintext, whatever
    was in it before. *)
Theorem recover_chunk_correct rk cs P C m ct pfx pt origin start len base :
  key_ok rk -> is_rc4 rk = false -> build_ciphers rk = Some cs ->
  is_bytes P -> is_bytes C -> length C = length P -> (start + len <= base + length pt)%nat ->
  encrypts rk 0 (blk P 0 m) (blk C 0 m) -> range_ok cs P 0 m start len ->
  (block_mode rk = true -> len mod unit_of cs = 0)%nat ->
  window_of C ct pfx base start len -> (origin <= start)%nat -> (0 < len)%nat ->
  exists pt', sar_recover_chunk rk SAR_CTR_CONTINUOUS ct pfx pt (Z.of_nat origin) (Z.of_nat start)
    (Z.of_nat len) (Z.of_nat base) (Z.of_nat (length P)) = Ret (SAR_RECOVER_OK, pt') /\
    length pt' = length pt /\
    take (start + len - base) pt' = take (start - base) pt ++ blk P start len.
Proof.
  intros Hok Hrc Hcs HP HC Hl Hpt He Hr Hm [W1 W2 W3 W4] Ho H0.
  unfold sar_recover_chunk. destruct Hr as [R1 R2 R3 R4].
  destruct (Z.eqb_spec (Z.of_nat len) 0); [lia|].
  replace (_ || _ || _)%bool with false
    by (symmetry; rewrite !orb_false_iff, !Z.ltb_ge; lia).
  rewrite (ko_pre rk Hok), Hrc, Hcs, !Nat2Z.id.
  set (pt0 := replicate base 0 ++ pt).
  assert (Hl0 : length pt0 = (base + length pt)%nat) by (unfold pt0; rewrite length_app, length_replicate; lia).
  assert (Hd : drop base pt0 = pt) by apply drop_pad.
  pose proof (range_window ct C pfx base start len W1 W4 rk SAR_CTR_CONTINUOUS cs pt0 origin Hrc W2 W3) as Hw.
  rewrite Hd in Hw. rewrite Hw by (intros bc ->; apply (block_ciphers_ok rk); [apply Hok|done]).
  rewrite (range_correct rk cs SAR_CTR_CONTINUOUS Hok Hcs P C pt0 HP HC origin m start len Hl);
    [|lia|done|exact He|intros Hb Hne; by destruct (Hne (Hm Hb))|by rewrite Hrc].
  cbn [cmap]. eexists. split; [done|]. split.
  - rewrite length_drop, length_patched by lia. lia.
  - rewrite drop_patched by lia. by rewrite Hd.
Qed.

(** A file of two SM4-CBC blocks of which the second is decrypted in a window. *)
Definition demo_file2 : bytes := map (fun i => Z.of_nat i * 5) (seq 0 32).

Definition demo_cipher2 : bytes :=
  let e := E (Sm4.sm4_cipher (key demo_key)) in
  let c0 := e (xor_bytes (take 16 demo_file2) (take 16 (iv demo_key))) in
  c0 ++ e (xor_bytes (drop 16 demo_file2) c0).

Lemma demo2_encrypts : encrypts demo_key 0 demo_file2 demo_cipher2.
Proof.
  split; [done|]. change (build_ciphers demo_key) with (Some (Block (Sm4.sm4_cipher (key demo_key)))).
  unfold block_file. change (mode demo_key) with SAR_MODE_CBC.
  change (block_size (Sm4.sm4_cipher (key demo_key))) with 16%nat. cbv zeta.
  change (SAR_MODE_CBC =? SAR_MODE_ECB) with false. change (SAR_MODE_CBC =? SAR_MODE_CBC) with true. cbv iota.
  split; [|by vm_compute]. intros k Hk. cbn in Hk.
  assert (k = 0%nat \/ k = 1%nat) as [-> | ->] by lia; by vm_compute.
Qed.

Lemma recover_chunk_correct_witness : exists pt',
  sar_recover_chunk demo_key SAR_CTR_CONTINUOUS demo_cipher2 16 (replicate 20 255) 0 16 16 16 32 =
    Ret (SAR_RECOVER_OK, pt') /\ length pt' = 20%nat /\ take 16 pt' = drop 16 demo_file2.
Proof.
  apply (recover_chunk_correct demo_key (Block (Sm4.sm4_cipher (key demo_key))) demo_file2 demo_cipher2 32
    demo_cipher2 16 (replicate 20 255) 0 16 16 16).
  - apply demo_key_ok.
  - done.
  - done.
  - by apply forall_u_check; vm_compute.
  - by apply forall_u_check; vm_compute.
  - by vm_compute.
  - by vm_compute; lia.
  - replace (blk demo_file2 0 32) with demo_file2 by by vm_compute.
    replace (blk demo_cipher2 0 32) with demo_cipher2 by by vm_compute. apply demo2_encrypts.
  - split; [by vm_compute|by exists 1%nat|done|by left].
  - done.
  - split; [lia|lia|lia|]. intros i _ _. f_equal. lia.
  - lia.
  - lia.
Defined.

(** ** A read before the buffer *)

Lemma cfold_oob {A B} (f : A -> B -> cres A) x l a : f a x = OutOfBounds -> cfold f (x :: l) a = OutOfBounds.
Proof. intros H. unfold cfold. cbn. rewrite H. by induction l. Qed.

(** A CBC range that starts inside the first block of the file, but
    not at its beginning, makes [sar_recover_range] read before the start of the
    ciphertext buffer: [range_iv_block] takes the block in front of the range
    without checking that it exists. *)
Theorem recover_range_reads_before_buffer rk bc ct pt file_size off len :
  precheck rk = SAR_RECOVER_OK -> build_ciphers rk = Some (Block bc) -> mode rk = SAR_MODE_CBC ->
  0 < off < Z.of_nat (block_size bc) -> Z.of_nat (block_size bc) <= len -> off + len <= file_size ->
  sar_recover_range rk ct pt file_size off len = OutOfBounds.
Proof.
  intros Hp Hc Hm Ho Hl Hf. unfold sar_recover_range, recover_ranges_into.
  destruct (Z.eqb_spec len 0); [lia|]. rewrite Hp, Hc. cbn [Z.eqb negb andb].
  rewrite cfold_oob; [done|]. cbn [range_offset range_length].
  replace (_ || _)%bool with false by (symmetry; rewrite orb_false_iff, !Z.ltb_ge; lia).
  unfold recover_one_range. rewrite Hm.
  change (SAR_MODE_CBC =? SAR_MODE_ECB) with false. change (SAR_MODE_CBC =? SAR_MODE_CBC) with true. cbv iota.
  unfold rec_cbc. set (bs := block_size bc) in *.
  destruct (Z.to_nat len / bs)%nat as [|q] eqn:Eq;
    [pose proof (div_blocks (Z.to_nat len) bs ltac:(lia)) as Hd; lia|].
  cbn [seq]. apply cfold_oob. unfold range_iv_block.
  replace (_ || _)%bool with false
    by (symmetry; rewrite orb_false_iff, andb_false_iff; split; [apply Nat.eqb_neq; lia|by left]).
  destruct (Nat.leb_spec (bs + Z.to_nat 0) (Z.to_nat off + 0 * bs + 0)); [lia|done].
Qed.

Lemma recover_range_reads_before_buffer_witness :
  sar_recover_range demo_key demo_cipher2 demo_cipher2 32 4 16 = OutOfBounds.
Proof.
  apply (recover_range_reads_before_buffer demo_key (Sm4.sm4_cipher (key demo_key)));
    try done; cbn; lia.
Defined.

(** ** Verification of the recovered bytes *)

Record verify_ok (v : sar_recovery_verify_t) : Prop := {
  vo_offset : is_u64 (sample_offset v);
  vo_length : is_u32 (sample_length v);
  vo_tag : length (sample_tag v) = 32%nat /\ is_bytes (sample_tag v)
}.

Lemma recover_verify_iff pt v : verify_ok v -> Z.of_nat (length pt) < 2 ^ 64 ->
  sar_recover_verify (Some pt) (Z.of_nat (length pt)) (Some v) = SAR_RECOVER_OK <->
  0 < sample_length v /\ sample_offset v + sample_length v <= Z.of_nat (length pt) /\
  Sha256.sha256_oneshot (blk pt (Z.to_nat (sample_offset v)) (Z.to_nat (sample_length v))) = sample_tag v.
Proof.
  intros [Ho Hl [Ht Htb]] Hp. unfold is_u in Ho, Hl. unfold sar_recover_verify, blk.
  destruct (Z.eqb_spec (sample_length v) 0) as [?|H0]; [split; [done|lia]|].
  destruct (Z.ltb_spec (Z.of_nat (length pt)) (sample_offset v)) as [?|H1]; [split; [done|lia]|].
  rewrite u64_small by (unfold is_u; lia). cbn [orb].
  destruct (Z.ltb_spec (Z.of_nat (length pt) - sample_offset v) (sample_length v)) as [?|H2]; [split; [done|lia]|].
  set (d := drop (Z.to_nat (sample_offset v)) pt).
  destruct (Keystore.sample_tag_ok (Some d) (sample_length v)) as [L1 L2].
  pose proof (Mem.sar_ct_equal_eq _ _ _ L2 Htb L1 Ht) as Hiff.
  assert (Htag : Keystore.sar_sample_tag (Some d) (sample_length v) =
    Sha256.sha256_oneshot (take (Z.to_nat (sample_length v)) d)).
  { unfold Keystore.sar_sample_tag. rewrite (proj2 (Z.eqb_neq _ _) H0). apply Sha256.sha256_eq. }
  rewrite <- Htag. cbv zeta.
  destruct (Mem.sar_ct_equal _ _ _); cbn [negb].
  - split; [intros _; refine (conj _ (conj _ _)); [lia|lia|by apply Hiff]|done].
  - split; [discriminate|]. intros (_ & _ & He). apply Hiff in He. discriminate.
Qed.

(** ** From the verdict to the record to the key *)

Lemma copy_into_again size src n : (n <= length src)%nat -> (n <= size)%nat ->
  copy_into size (mem_write (replicate size 0) 0 (take n src)) n = copy_into size src n.
Proof.
  intros H1 H2. unfold copy_into. f_equal.
  rewrite mem_write_spec by (rewrite length_take, length_replicate; lia). rewrite take_0, app_nil_l.
  apply take_app_length'. rewrite length_take. lia.
Qed.

(** The key a record gives back is the key of the verdict it was made from. *)
Lemma key_from_record_init mac_key v path poff plen sample slen soff ctime actor : Verdict.wf v ->
  sar_recovery_key_from_record
    (Keystore.sar_keystore_record_init mac_key v path poff plen sample slen soff ctime actor) =
  sar_recovery_key_from_verdict v.
Proof.
  intros [Ha Hm [Hk Hkb] Hkl Hmp [Hi Hib] Hil Ht]. unfold is_u in Hkl, Hil.
  change SEMANTICS_AR_MAX_KEY_BYTES with 64%nat in Hk. change SEMANTICS_AR_IV_MAX with 24%nat in Hi.
  unfold sar_recovery_key_from_record, sar_recovery_key_from_verdict, Keystore.sar_keystore_record_init.
  change (Z.of_nat SEMANTICS_AR_MAX_KEY_BYTES) with 64. change (Z.of_nat SEMANTICS_AR_IV_MAX) with 24.
  change SEMANTICS_AR_MAX_KEY_BYTES with 64%nat. change SEMANTICS_AR_IV_MAX with 24%nat.
  destruct (match sample with Some s => _ | None => _ end) as [sl st].
  cbn [KsRec.algorithm KsRec.mode KsRec.key_length KsRec.key_bytes KsRec.mode_params KsRec.iv
       KsRec.iv_length KsRec.ctr_layout_tag].
  set (kl := if 64 <? Verdict.key_length v then 64 else Verdict.key_length v).
  set (ivl := if 24 <? Verdict.iv_length v then 24 else Verdict.iv_length v).
  assert (Hkl' : 0 <= kl <= 64) by (unfold kl; destruct (Z.ltb_spec 64 (Verdict.key_length v)); lia).
  assert (Hil' : 0 <= ivl <= 24) by (unfold ivl; destruct (Z.ltb_spec 24 (Verdict.iv_length v)); lia).
  replace (if 24 <? ivl then 24 else ivl) with ivl by (destruct (Z.ltb_spec 24 ivl); lia).
  by rewrite !copy_into_again by lia.
Qed.

(** What the record remembers of the sample. *)
Lemma verify_from_record_init mac_key v path poff plen s slen soff ctime actor : 0 < slen ->
  sar_recovery_verify_from_record
    (Keystore.sar_keystore_record_init mac_key v path poff plen (Some s) slen soff ctime actor) =
  {| sample_offset := soff; sample_length := Z.min 64 slen;
     sample_tag := Keystore.sar_sample_tag (Some s) (Z.min 64 slen) |}.
Proof.
  intros H. unfold sar_recovery_verify_from_record, Keystore.sar_keystore_record_init.
  change (Z.of_nat SEMANTICS_AR_SAMPLE_TAG_MAX) with 64.
  destruct (Z.ltb_spec 0 slen); [|lia].
  replace (if 64 <? slen then 64 else slen) with (Z.min 64 slen) by (destruct (Z.ltb_spec 64 slen); lia).
  done.
Qed.

(** A record made from a sample of [P] accepts [P]. *)
Lemma record_accepts mac_key v path poff plen P s slen soff ctime actor :
  (0 < slen)%nat -> (soff + slen <= length P)%nat -> Z.of_nat (length P) < 2 ^ 64 ->
  take slen s = blk P soff slen ->
  sar_recover_verify (Some P) (Z.of_nat (length P)) (Some (sar_recovery_verify_from_record
    (Keystore.sar_keystore_record_init mac_key v path poff plen (Some s) (Z.of_nat slen)
      (Z.of_nat soff) ctime actor))) = SAR_RECOVER_OK.
Proof.
  intros H0 H1 H2 Hs. rewrite verify_from_record_init by lia. apply recover_verify_iff; [|done|].
  - split; cbn [sample_offset sample_length sample_tag]; unfold is_u; [lia|lia|apply Keystore.sample_tag_ok].
  - cbn [sample_offset sample_length sample_tag]. refine (conj _ (conj _ _)); [lia|lia|].
    unfold Keystore.sar_sample_tag. rewrite (proj2 (Z.eqb_neq _ _)) by lia. rewrite Sha256.sha256_eq. f_equal.
    set (n := Z.to_nat (Z.min 64 (Z.of_nat slen))). assert (Hn : (n <= slen)%nat) by (unfold n; lia).
    rewrite Nat2Z.id. replace (take n s) with (take n (take slen s)) by (rewrite take_take; f_equal; lia).
    rewrite Hs. unfold blk. rewrite take_take. f_equal. lia.
Qed.
