(* ===== verification/RecoverFile.v ===== *)
(** * Recovering a file on disk

    engine/host/recover_file.c, the POSIX branch.  The system calls are the
    environment: each call takes its outcome from [io].  What the calls do to
    the disk is a list of operations on the target and the temporary file, so
    that a crash between any two of them can be described.  The replacement
    calls of the Windows branch are not modelled. *)

From S2P Require Import Prelude Mem Sha256 Format Chain Keystore CipherCommon.
From S2P Require Import Sm4 Modes Recover RecoverCorrect RecoverProps.
Import CtrLayout Modes Layout Recover.

Module RecoverFile.

(** ** The environment *)

(** The outcomes of the calls; [reads] and [writes] are the values that
    successive calls of [read] and [write] return (a missing value is -1), and
    [garbage] is what [malloc] finds in memory. *)
Record io := {
  open_ok : bool; fstat_ok : bool; read_malloc_ok : bool; reads : list Z;
  pt_malloc_ok : bool; name_malloc_ok : bool; mkstemp_ok : bool; writes : list Z;
  fchmod_ok : bool; fsync_ok : bool; close_ok : bool; rename_ok : bool;
  ranges_malloc_ok : bool;
  garbage : bytes
}.

(** The target and the temporary file; [None] is a file that does not exist. *)
Record disk := { target : option bytes; temp : option bytes }.

Inductive fs_op :=
  | Mkstemp
  | WriteTemp (data : bytes)
  | UnlinkTemp
  | RenameTemp.

Definition apply_op (d : disk) (op : fs_op) : disk :=
  match op with
  | Mkstemp => {| target := target d; temp := Some [] |}
  | WriteTemp x => {| target := target d; temp := match temp d with Some t => Some (t ++ x) | None => None end |}
  | UnlinkTemp => {| target := target d; temp := None |}
  | RenameTemp =>
    match temp d with
    | Some t => {| target := Some t; temp := None |}
    | None => d
    end
  end.

Definition run (ops : list fs_op) (d : disk) : disk := fold_left apply_op ops d.

(** ** Reading *)

(** [while (got < size)]; [None] is the failure of a call. *)
Fixpoint read_loop (rets : list Z) (file : bytes) (got : nat) (buf : bytes) : option bytes :=
  if (got <? length file)%nat then
    match rets with
    | [] => None
    | n :: rets =>
      if n <=? 0 then None
      else read_loop rets file (got + Z.to_nat n) (buf ++ take (Z.to_nat n) (drop got file))
    end
  else Some buf.

Definition sar_read_file (e : io) (file : option bytes) : option bytes :=
  match file with
  | None => None
  | Some f =>
    if negb (open_ok e) then None
    else if negb (fstat_ok e) then None
    else if (0 <? length f)%nat then
      if negb (read_malloc_ok e) then None else read_loop (reads e) f 0 []
    else Some []
  end.

(** ** Writing and replacing *)

(** [while (put < size)]: the operations, and whether all bytes were written. *)
Fixpoint write_loop (rets : list Z) (data : bytes) (put : nat) : list fs_op * bool :=
  if (put <? length data)%nat then
    match rets with
    | [] => ([UnlinkTemp], false)
    | n :: rets =>
      if n <=? 0 then ([UnlinkTemp], false)
      else
        let '(ops, ok) := write_loop rets data (put + Z.to_nat n) in
        (WriteTemp (take (Z.to_nat n) (drop put data)) :: ops, ok)
    end
  else ([], true).

(** The flag is the return value 0. *)
Definition sar_write_replace (e : io) (data : bytes) : list fs_op * bool :=
  if negb (name_malloc_ok e) then ([], false)
  else if negb (mkstemp_ok e) then ([], false)
  else
    let '(ops, ok) := write_loop (writes e) data 0 in
    if negb ok then (Mkstemp :: ops, false)
    else if negb (fchmod_ok e) || negb (fsync_ok e) || negb (close_ok e)
    then (Mkstemp :: ops ++ [UnlinkTemp], false)
    else if negb (rename_ok e) then (Mkstemp :: ops ++ [UnlinkTemp], false)
    else (Mkstemp :: ops ++ [RenameTemp], true).

(** The replacement of a file by one that is already written. *)
Definition sar_atomic_replace_file (e : io) : list fs_op * bool :=
  if negb (rename_ok e) then ([UnlinkTemp], false) else ([RenameTemp], true).

(** ** The whole call *)

Definition count_encrypted (e : io) (geom : option sar_geometry_t) (file_size : Z) : cres Z :=
  match geom with
  | None => Ret file_size
  | Some g =>
    if negb (ranges_malloc_ok e) then Ret 0
    else
      match sar_geometry_expand g file_size SAR_MAX_RANGES with
      | Ret (Some rs) => Ret (fold_left (fun total r => u64 (total + range_length r)) rs 0)
      | Ret None => Ret 0
      | OutOfBounds => OutOfBounds
      | NoFuel => NoFuel
      end
  end.

Record sar_recover_file_result_t := {
  status : sar_recover_status_t;
  encrypted_bytes : Z;
  file_size : Z
}.

Definition result (st : sar_recover_status_t) (enc size : Z) : sar_recover_file_result_t :=
  {| status := st; encrypted_bytes := enc; file_size := size |}.

(** [file] is the contents of the target; [None] keys, paths and verifications
    are NULL pointers. *)
Definition sar_recover_file (e : io) (path : bool) (rk : option sar_recovery_key_t)
    (geom : option sar_geometry_t) (verify : option sar_recovery_verify_t) (file : option bytes)
    : cres (sar_recover_file_result_t * list fs_op) :=
  match rk with
  | None => Ret (result SAR_RECOVER_INVALID 0 0, [])
  | Some rk =>
    if negb path then Ret (result SAR_RECOVER_INVALID 0 0, [])
    else
      match sar_read_file e file with
      | None => Ret (result SAR_RECOVER_INVALID 0 0, [])
      | Some ct =>
        let size := Z.of_nat (length ct) in
        if size =? 0 then Ret (result SAR_RECOVER_OK 0 size, [])
        else if negb (pt_malloc_ok e) then Ret (result SAR_RECOVER_INVALID 0 size, [])
        else
          match sar_recover_buffer rk geom ct (take (length ct) (garbage e ++ replicate (length ct) 0)) size with
          | Ret (SAR_RECOVER_OK, pt) =>
            match match verify with
                  | None => SAR_RECOVER_OK
                  | Some v => sar_recover_verify (Some pt) size (Some v)
                  end with
            | SAR_RECOVER_OK =>
              let '(ops, ok) := sar_write_replace e pt in
              if negb ok then Ret (result SAR_RECOVER_INVALID 0 size, ops)
              else
                match count_encrypted e geom size with
                | Ret n => Ret (result SAR_RECOVER_OK n size, ops)
                | OutOfBounds => OutOfBounds
                | NoFuel => NoFuel
                end
            | vst => Ret (result vst 0 size, [])
            end
          | Ret (st, _) => Ret (result st 0 size, [])
          | OutOfBounds => OutOfBounds
          | NoFuel => NoFuel
          end
      end
  end.

(** ** Replacement is atomic *)

(** Operations that leave the target alone. *)
Definition quiet (op : fs_op) : Prop := op <> RenameTemp.

Lemma run_app a b d : run (a ++ b) d = run b (run a d).
Proof. apply fold_left_app. Qed.

Lemma quiet_target ops d : Forall quiet ops -> target (run ops d) = target d.
Proof.
  intros H. revert d. induction H as [|op ops Hq H IH]; intros d; [done|]. cbn. fold (run ops (apply_op d op)).
  rewrite IH. by destruct op.
Qed.

Lemma write_loop_quiet rets data put : Forall quiet (write_loop rets data put).1.
Proof.
  revert put. induction rets as [|n rets IH]; intros put; cbn [write_loop]; destruct (put <? _)%nat.
  - by repeat constructor.
  - constructor.
  - destruct (n <=? 0); [by repeat constructor|]. specialize (IH (put + Z.to_nat n)%nat).
    destruct (write_loop _ _ _) as [ops ok]. by constructor.
  - constructor.
Qed.

(** What the loop leaves in the temporary file. *)
Lemma write_loop_temp rets data put d : (put <= length data)%nat -> temp d = Some (take put data) ->
  temp (run (write_loop rets data put).1 d) =
    if (write_loop rets data put).2 then Some data else None.
Proof.
  revert put d. induction rets as [|n rets IH]; intros put d Hp Hd; cbn [write_loop];
    destruct (Nat.ltb_spec put (length data)) as [Hlt|Hge]; try done.
  - cbn. rewrite Hd. by rewrite take_ge.
  - destruct (Z.leb_spec n 0) as [|Hn]; [done|].
    destruct (le_lt_dec (put + Z.to_nat n) (length data)) as [Hle|Hgt].
    + specialize (IH (put + Z.to_nat n)%nat (apply_op d (WriteTemp (take (Z.to_nat n) (drop put data)))) Hle).
      destruct (write_loop rets data (put + Z.to_nat n)) as [ops ok]. apply IH. cbn. rewrite Hd. f_equal.
      by rewrite take_take_drop.
    + assert (Hend : write_loop rets data (put + Z.to_nat n) = ([], true)).
      { destruct rets; cbn [write_loop]; destruct (Nat.ltb_spec (put + Z.to_nat n) (length data)); done || lia. }
      rewrite Hend. cbn. rewrite Hd. f_equal. rewrite (take_ge (drop put data)) by (rewrite length_drop; lia).
      apply take_drop.
  - cbn. rewrite Hd. by rewrite take_ge.
Qed.

(** A crash leaves the operations done so far. *)
Definition crash_of (done ops : list fs_op) : Prop := exists rest, ops = done ++ rest.

(** The operations of a replacement: quiet ones, then the rename if there is one. *)
Lemma write_replace_shape e data :
  exists qs, Forall quiet qs /\
    ((sar_write_replace e data = (qs, false) /\ forall d, temp d = None -> temp (run qs d) = None) \/
     (sar_write_replace e data = (qs ++ [RenameTemp], true) /\ forall d, temp (run qs d) = Some data)).
Proof.
  unfold sar_write_replace.
  destruct (negb (name_malloc_ok e)); [exists []; split; [constructor|by left]|].
  destruct (negb (mkstemp_ok e)); [exists []; split; [constructor|by left]|].
  pose proof (write_loop_quiet (writes e) data 0) as Hq.
  assert (Ht : forall d, temp (run (Mkstemp :: (write_loop (writes e) data 0).1) d) =
    if (write_loop (writes e) data 0).2 then Some data else None)
    by (intros d; apply (write_loop_temp _ _ 0 (apply_op d Mkstemp)); [lia|done]).
  destruct (write_loop (writes e) data 0) as [ops ok]. cbn [fst snd] in Hq, Ht.
  assert (Hq1 : Forall quiet (Mkstemp :: ops)) by by constructor.
  assert (Hq2 : Forall quiet (Mkstemp :: ops ++ [UnlinkTemp]))
    by (constructor; [done|]; apply Forall_app; split; [done|by repeat constructor]).
  assert (Ht2 : forall d, temp (run (Mkstemp :: ops ++ [UnlinkTemp]) d) = None)
    by (intros d; rewrite app_comm_cons, run_app; done).
  destruct ok; cbn [negb]; [|exists (Mkstemp :: ops); split; [done|left; split; [done|intros; apply Ht]]].
  destruct (_ || _ || _)%bool; [exists (Mkstemp :: ops ++ [UnlinkTemp]); split; [done|by left]|].
  destruct (negb (rename_ok e)); [exists (Mkstemp :: ops ++ [UnlinkTemp]); split; [done|by left]|].
  exists (Mkstemp :: ops). split; [done|]. right. by split.
Qed.

(** Whatever the calls return, a crash at any point leaves the old or the whole
    new file; a failed call leaves the old file and no temporary one. *)
Lemma write_replace_atomic e data d : temp d = None ->
  let '(ops, ok) := sar_write_replace e data in
  (forall done, crash_of done ops ->
    target (run done d) = target d \/ (ok = true /\ target (run done d) = Some data)) /\
  (ok = true -> target (run ops d) = Some data /\ temp (run ops d) = None) /\
  (ok = false -> target (run ops d) = target d /\ temp (run ops d) = None).
Proof.
  intros Hd. destruct (write_replace_shape e data) as (qs & Hq & [[-> Ht]|[-> Ht]]).
  - split; [|split; [done|intros _; split; [by apply quiet_target|by apply Ht]]].
    intros ds [rest ->]. left. apply quiet_target. by apply Forall_app in Hq as [? _].
  - assert (Hend : run (qs ++ [RenameTemp]) d = {| target := Some data; temp := None |}).
    { rewrite run_app. unfold run at 1. cbn. by rewrite Ht. }
    split; [|split; [intros _; by rewrite Hend|done]].
    intros ds [rest Hr]. destruct rest as [|op rest] using rev_ind.
    + rewrite app_nil_r in Hr. subst ds. right. by rewrite Hend.
    + left. rewrite app_assoc in Hr. apply app_inj_tail in Hr as [-> _].
      apply quiet_target. by apply Forall_app in Hq as [? _].
Qed.

(** ** What a call can do to the file *)

(** [pt] is what the key makes of the file, and it passes the verification. *)
Definition recovered (rk : option sar_recovery_key_t) (geom : option sar_geometry_t)
    (verify : option sar_recovery_verify_t) (ct pt : bytes) : Prop :=
  (exists k pt0, rk = Some k /\
    sar_recover_buffer k geom ct pt0 (Z.of_nat (length ct)) = Ret (SAR_RECOVER_OK, pt)) /\
  forall v, verify = Some v -> sar_recover_verify (Some pt) (Z.of_nat (length ct)) (Some v) = SAR_RECOVER_OK.

Lemma recover_file_cases e path rk geom verify file r ops :
  sar_recover_file e path rk geom verify file = Ret (r, ops) ->
  ops = [] \/
  exists ct pt, sar_read_file e file = Some ct /\ recovered rk geom verify ct pt /\
    ops = (sar_write_replace e pt).1 /\
    (status r = SAR_RECOVER_OK <-> (sar_write_replace e pt).2 = true).
Proof.
  unfold sar_recover_file. intros H.
  destruct rk as [k|]; [|left; by injection H]. destruct (negb path); [left; by injection H|].
  destruct (sar_read_file e file) as [ct|]; [|left; by injection H].
  destruct (_ =? 0); [left; by injection H|]. destruct (negb (pt_malloc_ok e)); [left; by injection H|].
  destruct (sar_recover_buffer _ _ _ _ _) as [[st pt]| |] eqn:Eb; [|done..].
  destruct st; try (left; by injection H).
  destruct (match verify with None => _ | Some v => _ end) eqn:Ev; try (left; by injection H).
  right. exists ct, pt. split; [done|]. destruct (sar_write_replace e pt) as [ops' ok] eqn:Ew.
  split; [split; [by eauto|intros v ->; done]|]. cbn [fst snd].
  destruct ok; cbn [negb] in H; [|by injection H as <- <-].
  destruct (count_encrypted _ _ _); [|done..]. by injection H as <- <-.
Qed.

Lemma read_loop_all rets f got : (got <= length f)%nat ->
  forall b, read_loop rets f got (take got f) = Some b -> b = f.
Proof.
  revert got. induction rets as [|n rets IH]; intros got Hg b; cbn [read_loop];
    destruct (Nat.ltb_spec got (length f)) as [Hlt|]; try done.
  - intros [= <-]. by apply take_ge.
  - destruct (Z.leb_spec n 0); [done|]. rewrite take_take_drop.
    destruct (le_lt_dec (got + Z.to_nat n) (length f)) as [Hle|Hgt]; [by apply IH|].
    intros Hr. destruct rets; cbn [read_loop] in Hr;
      destruct (Nat.ltb_spec (got + Z.to_nat n) (length f)); try lia; injection Hr as <-; apply take_ge; lia.
  - intros [= <-]. by apply take_ge.
Qed.

(** A read that succeeds returns the whole file. *)
Lemma read_file_all e f b : sar_read_file e (Some f) = Some b -> b = f.
Proof.
  unfold sar_read_file. destruct (negb _); [done|]. destruct (negb _); [done|].
  destruct (Nat.ltb_spec 0 (length f)) as [|H0].
  - destruct (negb _); [done|]. apply (read_loop_all _ _ 0). lia.
  - intros [= <-]. by destruct f; [|cbn in H0; lia].
Qed.

(** Recovering a file never damages it.  Whatever the system calls
    return and wherever the machine crashes, the target holds its old contents
    or the complete recovered bytes, and recovered bytes that were asked to be
    verified are written only if they match the recorded sample; a call that
    reports anything but success has left the old file and no temporary file. *)
Theorem recover_file_never_damages e path rk geom verify f d r ops :
  target d = Some f -> temp d = None ->
  sar_recover_file e path rk geom verify (Some f) = Ret (r, ops) ->
  (forall done, crash_of done ops ->
    target (run done d) = Some f \/
    exists pt, target (run done d) = Some pt /\ recovered rk geom verify f pt) /\
  (status r <> SAR_RECOVER_OK -> target (run ops d) = Some f /\ temp (run ops d) = None).
Proof.
  intros Hf Ht H. destruct (recover_file_cases _ _ _ _ _ _ _ _ H) as [->|(ct & pt & Hr & Hrec & -> & Hst)].
  - split; [|by intros _]. intros ds [rest Hrest]. destruct ds; [by left|done].
  - apply read_file_all in Hr. subst ct. pose proof (write_replace_atomic e pt d Ht) as Ha.
    destruct (sar_write_replace e pt) as [ops ok]. cbn [fst snd] in *. destruct Ha as (Hc & _ & Hn). split.
    + intros ds Hds. destruct (Hc ds Hds) as [->|[_ ->]]; eauto.
    + intros Hs. rewrite <- Hf. apply Hn. destruct ok; [by destruct Hs; apply Hst|done].
Qed.

Definition demo_io : io :=
  {| open_ok := true; fstat_ok := true; read_malloc_ok := true; reads := [20; 12]; pt_malloc_ok := true;
     name_malloc_ok := true; mkstemp_ok := true; writes := [32]; fchmod_ok := true; fsync_ok := true;
     close_ok := true; rename_ok := true; ranges_malloc_ok := true; garbage := [9] |}.

Lemma recover_file_never_damages_witness :
  let d := {| target := Some demo_cipher2; temp := None |} in
  exists r ops, sar_recover_file demo_io true (Some demo_key) None None (Some demo_cipher2) = Ret (r, ops) /\
    ops <> [] /\
    forall done, crash_of done ops -> target (run done d) = Some demo_cipher2 \/
      exists pt, target (run done d) = Some pt /\ recovered (Some demo_key) None None demo_cipher2 pt.
Proof.
  intros d. eexists _, _. split; [vm_compute; reflexivity|]. split; [done|].
  eapply (recover_file_never_damages demo_io true (Some demo_key) None None demo_cipher2 d);
    [done|done|vm_compute; reflexivity].
Defined.

(** ** From capture to the recovered file *)

(** Property C12: a captured key gives the file back.  Take any verdict of the
    engine and the keystore record made of it and of a sample of the plaintext.
    If the whole file [C] is the encryption of [P] under that verdict's key, and
    the system calls succeed, then [sar_recover_file] with the key and the
    verification data of the record succeeds and leaves [P] as the file. *)
Theorem captured_key_recovers_file e mac_key v path poff plen s slen soff ctime actor P C d :
  Verdict.wf v -> key_ok (sar_recovery_key_from_verdict v) ->
  partly_encrypted (sar_recovery_key_from_verdict v) SAR_CTR_CONTINUOUS
    [{| range_offset := 0; range_length := Z.of_nat (length P) |}] P C ->
  (0 < slen)%nat -> (soff + slen <= length P)%nat -> Z.of_nat (length P) < 2 ^ 64 ->
  take slen s = blk P soff slen ->
  sar_read_file e (Some C) = Some C -> pt_malloc_ok e = true -> (sar_write_replace e P).2 = true ->
  temp d = None ->
  let rec := Keystore.sar_keystore_record_init mac_key v path poff plen (Some s) (Z.of_nat slen)
    (Z.of_nat soff) ctime actor in
  exists r ops, sar_recover_file e true (Some (sar_recovery_key_from_record rec)) None
      (Some (sar_recovery_verify_from_record rec)) (Some C) = Ret (r, ops) /\
    status r = SAR_RECOVER_OK /\ target (run ops d) = Some P /\ temp (run ops d) = None.
Proof.
  intros Hv Hok Hpe H0 H1 H2 Hs Hr Hm Hw Hd rec. unfold sar_recover_file. rewrite Hr, Hm. cbn [negb].
  pose proof (pe_length _ _ _ _ _ Hpe) as Hl.
  destruct (Z.eqb_spec (Z.of_nat (length C)) 0) as [?|_]; [lia|].
  unfold rec. rewrite key_from_record_init by done. rewrite !Hl.
  rewrite (recover_buffer_full _ P C); [|done|done| |lia].
  2:{ rewrite length_take, length_app, length_replicate. lia. }
  rewrite record_accepts by done.
  pose proof (write_replace_atomic e P d Hd) as Ha.
  destruct (sar_write_replace e P) as [ops ok]. cbn [snd] in Hw. subst ok. cbn [negb count_encrypted].
  destruct Ha as (_ & Ha & _). destruct (Ha eq_refl). by eauto 10.
Qed.

(** The verdict of an SM4-CBC key, and the file of two blocks it encrypts. *)
Definition sm4_verdict : Verdict.sar_verdict_t :=
  {| Verdict.convicted := true; Verdict.algorithm := SAR_ALG_SM4; Verdict.mode := SAR_MODE_CBC;
     Verdict.key := map Z.of_nat (seq 1 16) ++ replicate 48 0; Verdict.key_length := 16;
     Verdict.mode_params := 0; Verdict.iv := map Z.of_nat (seq 7 16) ++ replicate 8 0;
     Verdict.iv_length := 16; Verdict.ctr_layout_tag := 0 |}.

Abbreviation demo_rk := (sar_recovery_key_from_verdict sm4_verdict).

Lemma sm4_verdict_wf : Verdict.wf sm4_verdict.
Proof.
  constructor; try (by split; vm_compute); (split; [done|by apply forall_u_check; vm_compute]).
Qed.

Lemma demo_rk_ok : key_ok demo_rk.
Proof.
  constructor; try (split; [done|]); try (by apply forall_u_check; vm_compute); try done.
  intros bc. change (build_ciphers demo_rk) with (Some (Block (Sm4.sm4_cipher (key demo_rk)))).
  by intros [= <-].
Qed.

Lemma demo_rk_encrypts : encrypts demo_rk 0 demo_file2 demo_cipher2.
Proof.
  split; [done|]. change (build_ciphers demo_rk) with (Some (Block (Sm4.sm4_cipher (key demo_rk)))).
  unfold block_file. change (mode demo_rk) with SAR_MODE_CBC.
  change (block_size (Sm4.sm4_cipher (key demo_rk))) with 16%nat. cbv zeta.
  change (SAR_MODE_CBC =? SAR_MODE_ECB) with false. change (SAR_MODE_CBC =? SAR_MODE_CBC) with true. cbv iota.
  split; [|by vm_compute]. intros k Hk. cbn in Hk.
  assert (k = 0%nat \/ k = 1%nat) as [-> | ->] by lia; by vm_compute.
Qed.

Lemma demo_partly : partly_encrypted demo_rk SAR_CTR_CONTINUOUS
  [{| range_offset := 0; range_length := 32 |}] demo_file2 demo_cipher2.
Proof.
  constructor.
  - by apply forall_u_check; vm_compute.
  - by apply forall_u_check; vm_compute.
  - by vm_compute.
  - exists (Block (Sm4.sm4_cipher (key demo_rk))). split; [done|]. constructor; [|done].
    split; [done|]. split; [done|]. exists 32%nat. cbv zeta. split.
    + split; [by vm_compute|by exists 0%nat|done|by left].
    + change (origin_of SAR_CTR_CONTINUOUS _) with 0%nat.
      replace (blk demo_file2 0 32) with demo_file2 by by vm_compute.
      replace (blk demo_cipher2 0 32) with demo_cipher2 by by vm_compute. apply demo_rk_encrypts.
  - repeat constructor.
  - intros i Hi. apply Forall_cons in Hi as [H1 _]. unfold in_range, off_of, len_of in H1. cbn in H1.
    rewrite !lookup_ge_None_2; [done|by vm_compute; lia..].
Qed.

Lemma captured_key_recovers_file_witness :
  let rec := Keystore.sar_keystore_record_init (replicate 32 1) sm4_verdict None 0 32
    (Some demo_file2) (Z.of_nat 20) (Z.of_nat 0) 5 6 in
  exists r ops, sar_recover_file demo_io true (Some (sar_recovery_key_from_record rec)) None
      (Some (sar_recovery_verify_from_record rec)) (Some demo_cipher2) = Ret (r, ops) /\
    status r = SAR_RECOVER_OK /\
    target (run ops {| target := Some demo_cipher2; temp := None |}) = Some demo_file2 /\
    temp (run ops {| target := Some demo_cipher2; temp := None |}) = None.
Proof.
  apply (captured_key_recovers_file demo_io (replicate 32 1) sm4_verdict None 0 32 demo_file2 20 0 5 6
    demo_file2 demo_cipher2 {| target := Some demo_cipher2; temp := None |} sm4_verdict_wf demo_rk_ok demo_partly).
  - lia.
  - by vm_compute; lia.
  - by vm_compute.
  - done.
  - by vm_compute.
  - done.
  - done.
  - done.
Defined.

End RecoverFile.
