(* ===== verification/Battery.v ===== *)
(** * The conviction engine

    engine/src/battery.c.  Every routine either convicts, and the verdict it
    fills in is its result, or returns 0 and leaves the verdict as it was
    ([None]).  Candidates are 16-byte blocks; a pointer into a buffer is the
    rest of the buffer from there on. *)

From S2P Require Import Prelude Mem Format CipherCommon.
From S2P Require Import Aes Des Sm4 Camellia Aria Seed Stream Modes.
Import CtrLayout Modes.

Module Battery.

Abbreviation verdict := Verdict.sar_verdict_t.

(** [if (a) return 1; ... b] *)
Definition orelse {A} (a b : option A) : option A :=
  match a with Some x => Some x | None => b end.

Notation "a <|> b" := (orelse a b) (at level 62, right associativity).

(** ** Tests on candidate bytes *)

Definition candidate_viable (d : bytes) : bool :=
  let unique := length (filter (fun i => ~ (rd d i ∈ map (rd d) (seq 0 i))) (seq 0 16)) in
  if (unique <? 4)%nat then false
  else existsb (fun i => negb (rd d i =? rd d 0)) (seq 1 15).

(** The loop over [d] from [i]; [seen] holds 256 flags. *)
Fixpoint sbox_loop (n : nat) (d : bytes) (seen : list bool) : bool :=
  match n, d with
  | S n, x :: d =>
    if nth (Z.to_nat x) seen false then false else sbox_loop n d (<[Z.to_nat x := true]> seen)
  | _, _ => true
  end.

Definition is_rc4_sbox (d : bytes) : bool := sbox_loop 256 d (replicate 256 false).

(** ** Filling in a verdict *)

Definition fill (v : verdict) (key : bytes) (klen : nat) (alg mode mp : Z) : verdict :=
  {| Verdict.convicted := true; Verdict.algorithm := alg; Verdict.mode := mode;
     Verdict.key := mem_write (Verdict.key v) 0 (take klen key);
     Verdict.key_length := Z.of_nat klen; Verdict.mode_params := mp;
     Verdict.iv := Verdict.iv v; Verdict.iv_length := Verdict.iv_length v;
     Verdict.ctr_layout_tag := Verdict.ctr_layout_tag v |}.

Definition apply_iv (v : verdict) (iv : sar_iv_out_t) : verdict :=
  {| Verdict.convicted := Verdict.convicted v; Verdict.algorithm := Verdict.algorithm v;
     Verdict.mode := Verdict.mode v; Verdict.key := Verdict.key v;
     Verdict.key_length := Verdict.key_length v; Verdict.mode_params := Verdict.mode_params v;
     Verdict.iv := mem_write (Verdict.iv v) 0 (take SEMANTICS_AR_IV_MAX (iv_bytes iv));
     Verdict.iv_length := iv_length iv; Verdict.ctr_layout_tag := iv_tag iv |}.

Definition fill_stream (v : verdict) (report_key : bytes) (alg : Z) (nonce : bytes) (nlen : nat)
    (rounds origin : Z) : verdict :=
  let v := fill v report_key 32 alg SAR_MODE_STREAM ((u32 rounds .<< 8) .| u32 origin) in
  {| Verdict.convicted := Verdict.convicted v; Verdict.algorithm := Verdict.algorithm v;
     Verdict.mode := Verdict.mode v; Verdict.key := Verdict.key v;
     Verdict.key_length := Verdict.key_length v; Verdict.mode_params := Verdict.mode_params v;
     Verdict.iv := mem_write (Verdict.iv v) 0 (take nlen nonce);
     Verdict.iv_length := Z.of_nat nlen; Verdict.ctr_layout_tag := 0 |}.

(** ** The battery *)

(** The sample: its plaintext, its ciphertext, its length and its offset in the
    file. *)
Section Sample.
Context (pt ct : bytes) (len : nat) (fo : Z) (v : verdict).

Definition block_try (bc : block_cipher_ctx_t) (key : bytes) (klen : nat) (alg : Z) : option verdict :=
  match engine_try_block_modes bc pt ct len fo with
  | Some (mode, iv) => Some (apply_iv (fill v key klen alg mode 0) iv)
  | None => None
  end.

Definition aes_try_master (master : bytes) (klen : nat) (alg : Z) : option verdict :=
  match engine_try_block_modes (Aes.aes_cipher master klen) pt ct len fo with
  | Some (mode, iv) => Some (apply_iv (fill v master klen alg mode 0) iv)
  | None => None
  end.

Definition aes_window_battery (window : bytes) (klen : nat) (alg : Z) (max_block : nat) : option verdict :=
  first_some (fun var =>
    aes_try_master var klen alg <|>
    first_some (fun b =>
      match Aes.aes_master_from_window klen var (Z.of_nat b) with
      | Some master => aes_try_master master klen alg
      | None => None
      end) (seq 1 max_block))
    [take klen window; Aes.aes_word_byteswap window klen].

Definition xts_try (bc1 bc2 : block_cipher_ctx_t) (keybytes : bytes) (klen : nat) (alg : Z)
  : option verdict :=
  match engine_verify_xts bc1 bc2 pt ct len fo with
  | Some du => Some (fill v keybytes klen alg SAR_MODE_XTS du)
  | None => None
  end.

Definition try_block_single (key : bytes) : option verdict :=
  aes_window_battery key 16 SAR_ALG_AES_128 10 <|>
  block_try (Sm4.sm4_cipher key) key 16 SAR_ALG_SM4 <|>
  block_try (Camellia.camellia_cipher key 16) key 16 SAR_ALG_CAMELLIA <|>
  block_try (Aria.aria_cipher key 16) key 16 SAR_ALG_ARIA <|>
  block_try (Seed.seed_cipher key) key 16 SAR_ALG_SEED.

Definition try_block_pair (a b : bytes) : option verdict :=
  let k32 := take 16 a ++ take 16 b in
  let k24a := take 16 a ++ take 8 b in
  let k24b := take 8 (drop 8 a) ++ take 16 b in
  aes_window_battery k32 32 SAR_ALG_AES_256 7 <|>
  aes_window_battery k24a 24 SAR_ALG_AES_192 7 <|>
  aes_window_battery k24b 24 SAR_ALG_AES_192 7 <|>
  block_try (Des.des3_cipher k24a) k24a 24 SAR_ALG_3DES <|>
  block_try (Des.des3_cipher k24b) k24b 24 SAR_ALG_3DES <|>
  block_try (Camellia.camellia_cipher k32 32) k32 32 SAR_ALG_CAMELLIA <|>
  block_try (Aria.aria_cipher k32 32) k32 32 SAR_ALG_ARIA <|>
  xts_try (Aes.aes_cipher a 16) (Aes.aes_cipher b 16) k32 32 SAR_ALG_AES_128 <|>
  xts_try (Sm4.sm4_cipher a) (Sm4.sm4_cipher b) k32 32 SAR_ALG_SM4 <|>
  xts_try (Camellia.camellia_cipher a 16) (Camellia.camellia_cipher b 16) k32 32 SAR_ALG_CAMELLIA <|>
  xts_try (Aria.aria_cipher a 16) (Aria.aria_cipher b 16) k32 32 SAR_ALG_ARIA <|>
  xts_try (Seed.seed_cipher a) (Seed.seed_cipher b) k32 32 SAR_ALG_SEED.

Definition aes256_xts_window (win64 : bytes) : option verdict :=
  xts_try (Aes.aes_cipher win64 32) (Aes.aes_cipher (drop 32 win64) 32) win64 64 SAR_ALG_AES_256.

(** The bytes of the sample that lie in its first key-stream block. *)
Definition stream_clen : nat := Nat.min (64 - Z.to_nat (fo mod 64)) len.

(** [pt[m] ^ ks[boff + m] == ct[m]] for every [m < clen] *)
Definition stream_match (ks : bytes) : bool :=
  bytes_eqb (xor_bytes (take stream_clen pt) (drop (Z.to_nat (fo mod 64)) ks)) (take stream_clen ct).

Definition try_chacha (gen_key report_key gen_nonce12 persist_nonce : bytes) (persist_len : nat) (alg : Z)
  : option verdict :=
  first_some (fun origin =>
    first_some (fun rounds =>
      let ks := Stream.chacha_block gen_key gen_nonce12 (u32 (u32 (fo / 64) + origin)) rounds in
      if (stream_clen <? 16)%nat then None
      else if stream_match ks
           then Some (fill_stream v report_key alg persist_nonce persist_len rounds origin)
           else None) Stream.STREAM_ROUNDS) [0; 1].

Definition try_salsa (gen_key report_key gen_nonce8 persist_nonce : bytes) (persist_len : nat) (alg : Z)
  : option verdict :=
  first_some (fun origin =>
    if (stream_clen <? 16)%nat then None
    else
      first_some (fun rounds =>
        let ks := Stream.salsa_block gen_key gen_nonce8 (u64 (fo / 64 + origin)) rounds in
        if stream_match ks
        then Some (fill_stream v report_key alg persist_nonce persist_len rounds origin)
        else None) Stream.STREAM_ROUNDS) [0; 1].

Definition cand (cands : list bytes) (i : nat) : bytes := nth i cands [].

(** The attempts with the nonce taken from candidate [k]. *)
Definition try_nonce (cands : list bytes) (key32 : bytes) (k : nat) : option verdict :=
  let nonce12 := take 12 (cand cands k) in
  let nonce8 := take 8 (cand cands k) in
  try_chacha key32 key32 nonce12 nonce12 12 SAR_ALG_CHACHA20 <|>
  try_salsa key32 key32 nonce8 nonce8 8 SAR_ALG_SALSA20 <|>
  if (k + 1 <? length cands)%nat then
    let nonce24 := take 16 (cand cands k) ++ take 8 (cand cands (k + 1)) in
    let derived12 := replicate 4 0 ++ take 8 (drop 16 nonce24) in
    let derived8 := take 8 (drop 16 nonce24) in
    try_chacha (Stream.hchacha20 key32 nonce24) key32 derived12 nonce24 24 SAR_ALG_XCHACHA20 <|>
    try_salsa (Stream.hsalsa20 key32 nonce24) key32 derived8 nonce24 24 SAR_ALG_XSALSA20
  else None.

Definition try_stream (cands : list bytes) : option verdict :=
  first_some (fun i =>
    if negb (candidate_viable (cand cands i)) then None
    else
      let key32 := take 16 (cand cands i) ++ take 16 (cand cands (i + 1)) in
      first_some (fun k =>
        if ((k =? i) || (k =? i + 1))%nat then None else try_nonce cands key32 k)
        (seq 0 (length cands)))
    (seq 0 (length cands - 1)).

Definition try_rc4_shortkey (key : bytes) : option verdict :=
  first_some (fun klen =>
    if Stream.rc4_verify key klen pt ct len fo
    then Some (fill v key klen SAR_ALG_RC4 SAR_MODE_STREAM 0) else None) [5; 8; 16]%nat.

(** ** Scanning a memory buffer *)

(** The offsets at which [n] bytes fit into a buffer of [buf_len] bytes. *)
Definition offsets (buf_len n : nat) : list nat := seq 0 (buf_len + 1 - n).

Definition aes_schedule_scan (buf : bytes) (buf_len : nat) : option verdict :=
  first_some (fun off =>
    first_some (fun '(klen, slen, alg) =>
      if (buf_len <? off + slen)%nat then None
      else if negb (Aes.aes_schedule_is_valid (drop off buf) klen) then None
      else aes_try_master (drop off buf) klen alg)
      [(16%nat, 176%nat, SAR_ALG_AES_128); (24%nat, 208%nat, SAR_ALG_AES_192);
       (32%nat, 240%nat, SAR_ALG_AES_256)])
    (offsets buf_len 176).

Definition SAR_STREAM_SIGMA : bytes :=
  [0x65; 0x78; 0x70; 0x61; 0x6e; 0x64; 0x20; 0x33;
   0x32; 0x2d; 0x62; 0x79; 0x74; 0x65; 0x20; 0x6b].

Definition stream_sigma_scan (buf : bytes) (buf_len : nat) : option verdict :=
  first_some (fun off =>
    let p := drop off buf in
    if negb (rd p 0 =? rd SAR_STREAM_SIGMA 0) then None
    else
      (if Mem.sar_memcmp p SAR_STREAM_SIGMA 16 =? 0 then
         let key := drop 16 p in
         let nonce12 := drop 52 p in
         try_chacha key key nonce12 nonce12 12 SAR_ALG_CHACHA20
       else None) <|>
      (if (Mem.sar_memcmp p SAR_STREAM_SIGMA 4 =? 0) &&
          (Mem.sar_memcmp (drop 20 p) (drop 4 SAR_STREAM_SIGMA) 4 =? 0) &&
          (Mem.sar_memcmp (drop 40 p) (drop 8 SAR_STREAM_SIGMA) 4 =? 0) &&
          (Mem.sar_memcmp (drop 60 p) (drop 12 SAR_STREAM_SIGMA) 4 =? 0)
       then
         let key32 := take 16 (drop 4 p) ++ take 16 (drop 44 p) in
         let nonce8 := drop 24 p in
         try_salsa key32 key32 nonce8 nonce8 8 SAR_ALG_SALSA20
       else None))
    (offsets buf_len 64).

Definition SAR_SCAN_BRUTE_CAP : nat := Z.to_nat 65536.

(** The permutation at [p], with the indices behind it packed or in words. *)
Definition try_rc4_state (p : bytes) (room : nat) : option verdict :=
  if is_rc4_sbox p then
    (if (258 <=? room)%nat && Stream.rc4_verify_state p (rd p 256) (rd p 257) pt ct len
     then Some (fill v p 0 SAR_ALG_RC4 SAR_MODE_STREAM 0) else None) <|>
    (if (264 <=? room)%nat && Stream.rc4_verify_state p (rd p 256) (rd p 260) pt ct len
     then Some (fill v p 0 SAR_ALG_RC4 SAR_MODE_STREAM 0) else None)
  else None.

Definition scan_battery (buf : bytes) (buf_len : nat) : option verdict :=
  let brute := if (buf_len <? SAR_SCAN_BRUTE_CAP)%nat then buf_len else SAR_SCAN_BRUTE_CAP in
  aes_schedule_scan buf buf_len <|>
  stream_sigma_scan buf buf_len <|>
  first_some (fun off => try_rc4_state (drop off buf) (buf_len - off)) (offsets brute 256) <|>
  first_some (fun i =>
    let off := (i * 16)%nat in
    let p := drop off buf in
    if negb (candidate_viable p) then None
    else
      try_block_single p <|>
      (if (off + 32 <=? brute)%nat && candidate_viable (drop 16 p)
       then try_block_pair p (drop 16 p) else None) <|>
      (if (off + 64 <=? brute)%nat then aes256_xts_window p else None) <|>
      try_rc4_shortkey p)
    (seq 0 (brute / 16)).

End Sample.

(** ** Conviction *)

(** [None] is a NULL pointer. *)
Record sar_engine_input_t := {
  candidates : list bytes;
  scan_buffer : option bytes;
  scan_length : nat;
  plaintext : option bytes;
  ciphertext : option bytes;
  sample_size : nat;
  file_offset : Z
}.

Definition sar_convict (inp : option sar_engine_input_t) : option verdict :=
  let out := Verdict.zero in
  match inp with
  | None => None
  | Some inp =>
    match plaintext inp, ciphertext inp with
    | Some pt, Some ct =>
      let len := sample_size inp in
      let fo := file_offset inp in
      let cands := candidates inp in
      if (len <? 16)%nat then None
      else
        first_some (fun c =>
          if negb (candidate_viable c) then None else try_block_single pt ct len fo out c) cands <|>
        first_some (fun i =>
          if negb (candidate_viable (cand cands i)) then None
          else
            first_some (fun j =>
              if (i =? j)%nat then None
              else try_block_pair pt ct len fo out (cand cands i) (cand cands j))
              (seq 0 (length cands)))
          (seq 0 (length cands)) <|>
        try_stream pt ct len fo out cands <|>
        first_some (fun c =>
          if negb (candidate_viable c) then None else try_rc4_shortkey pt ct len fo out c) cands <|>
        match scan_buffer inp with
        | Some buf =>
          if (16 <=? scan_length inp)%nat then scan_battery pt ct len fo out buf (scan_length inp) else None
        | None => None
        end
    | _, _ => None
    end
  end.

End Battery.
