(* ===== verification/BatteryCorrect.v ===== *)
(** * What a verdict means

    The engine and the recovery code agree: the key of a verdict, as recovery
    rebuilds the cipher from it, explains the sample the engine was given. *)

From S2P Require Import Prelude Mem Sha256 Format Chain Keystore CipherCommon.
From S2P Require Import Aes Des Sm4 Camellia Aria Seed Stream Modes Recover RecoverCorrect Battery.
Import CtrLayout Modes Layout Recover Battery.

(** ** A cipher reads no more than its key *)

(** The first [n] bytes are the same. *)
Definition same_key (n : nat) (k k' : bytes) : Prop := forall i, (i < n)%nat -> rd k i = rd k' i.

Lemma same_key_take n k k' : take n k = take n k' -> same_key n k k'.
Proof. intros H i Hi. by rewrite <- (Mem.rd_take k i n Hi), <- (Mem.rd_take k' i n Hi), H. Qed.

Section SameKey.
Context (n : nat) (k k' : bytes) (Hk : same_key n k k').

Lemma same_be32 o : (o + 4 <= n)%nat -> sar_be32 (drop o k) = sar_be32 (drop o k').
Proof. intros H. unfold sar_be32. rewrite !Mem.rd_drop, !Hk by lia. done. Qed.

Lemma same_load64 o : (o + 8 <= n)%nat -> sar_load64be (drop o k) = sar_load64be (drop o k').
Proof.
  intros H. unfold sar_load64be. rewrite !Mem.rd_drop, !Hk by lia. done.
Qed.

Lemma same_quad : (16 <= n)%nat -> load_quad k = load_quad k'.
Proof.
  intros H. unfold load_quad. rewrite <- (drop_0 k) at 1. rewrite <- (drop_0 k') at 1.
  by rewrite !same_be32 by lia.
Qed.
End SameKey.

Lemma sm4_same_key k k' : same_key 16 k k' -> Sm4.sm4_cipher k = Sm4.sm4_cipher k'.
Proof.
  intros H. unfold Sm4.sm4_cipher, Sm4.sm4_key_schedule. pose proof (same_be32 16 k k' H 0) as H0.
  rewrite !drop_0 in H0. rewrite H0, !(same_be32 16 k k' H) by lia. done.
Qed.

Lemma seed_same_key k k' : same_key 16 k k' -> Seed.seed_cipher k = Seed.seed_cipher k'.
Proof. intros H. unfold Seed.seed_cipher, Seed.seed_key_schedule. by rewrite (same_quad 16 k k'). Qed.

Lemma aria_same_key k k' klen : klen = 16 \/ klen = 32 -> same_key (Z.to_nat klen) k k' ->
  Aria.aria_cipher k klen = Aria.aria_cipher k' klen.
Proof.
  intros Hl H. unfold Aria.aria_cipher, Aria.aria_key_schedule. rewrite (same_quad _ k k' H) by lia.
  assert (Hkr : Aria.aria_kr k klen = Aria.aria_kr k' klen).
  { unfold Aria.aria_kr. destruct Hl as [-> | ->]; [done|]. by rewrite !(same_be32 _ k k' H) by lia. }
  by rewrite Hkr.
Qed.

Lemma camellia_same_key k k' klen : klen = 16 \/ klen = 32 -> same_key (Z.to_nat klen) k k' ->
  Camellia.camellia_cipher k klen = Camellia.camellia_cipher k' klen.
Proof.
  intros Hl H. unfold Camellia.camellia_cipher, Camellia.camellia_key_schedule.
  assert (Hkr : Camellia.camellia_kr k klen = Camellia.camellia_kr k' klen).
  { unfold Camellia.camellia_kr. destruct Hl as [-> | ->]; [done|]. by rewrite !(same_load64 _ k k' H) by lia. }
  pose proof (same_load64 _ k k' H 0) as H0. rewrite !drop_0 in H0.
  by rewrite Hkr, H0, (same_load64 _ k k' H 8) by lia.
Qed.

Lemma des3_same_key k k' : same_key 24 k k' -> Des.des3_cipher k = Des.des3_cipher k'.
Proof.
  intros H. unfold Des.des3_cipher.
  assert (Hs : Des.des3_setkey k = Des.des3_setkey k').
  { unfold Des.des3_setkey. apply map_ext_in. intros j Hj%in_seq. apply (f_equal Des.des_setkey_single). unfold Des.load_loop.
    apply fold_left_ext. intros b i [_ Hi]%elem_of_seq. rewrite !Mem.rd_drop, H by lia. done. }
  by rewrite Hs.
Qed.

Lemma aes_same_key k k' klen : take klen k = take klen k' -> Aes.aes_cipher k klen = Aes.aes_cipher k' klen.
Proof. intros H. unfold Aes.aes_cipher, Aes.aes_setkey. by rewrite H. Qed.

(** The stream ciphers. *)
Lemma same_le32 n k k' o : same_key n k k' -> (o + 4 <= n)%nat -> sar_le32 (drop o k) = sar_le32 (drop o k').
Proof. intros Hk H. unfold sar_le32. rewrite !Mem.rd_drop, !Hk by lia. done. Qed.

Lemma same_le32_0 n k k' : same_key n k k' -> (4 <= n)%nat -> sar_le32 k = sar_le32 k'.
Proof. intros Hk H. unfold sar_le32. rewrite !Hk by lia. done. Qed.

Lemma same_key_words k k' : same_key 32 k k' -> Stream.key_words k = Stream.key_words k'.
Proof.
  intros H. apply map_ext_in. intros i Hi%in_seq. apply (same_le32 32); [done|lia].
Qed.

Lemma chacha_same_key k k' n n' c r : same_key 32 k k' -> same_key 12 n n' ->
  Stream.chacha_block k n c r = Stream.chacha_block k' n' c r.
Proof.
  intros Hk Hn. unfold Stream.chacha_block.
  by rewrite (same_key_words k k' Hk), (same_le32_0 12 n n' Hn), !(same_le32 12 n n' _ Hn) by lia.
Qed.

Lemma hchacha_same_key k k' n n' : same_key 32 k k' -> same_key 16 n n' ->
  Stream.hchacha20 k n = Stream.hchacha20 k' n'.
Proof.
  intros Hk Hn. unfold Stream.hchacha20.
  by rewrite (same_key_words k k' Hk), (same_le32_0 16 n n' Hn), !(same_le32 16 n n' _ Hn) by lia.
Qed.

Lemma salsa_same_key k k' n n' c r : same_key 32 k k' -> same_key 8 n n' ->
  Stream.salsa_block k n c r = Stream.salsa_block k' n' c r.
Proof.
  intros Hk Hn. unfold Stream.salsa_block, Stream.salsa_state.
  by rewrite (same_key_words k k' Hk), (same_le32_0 8 n n' Hn), !(same_le32 8 n n' _ Hn) by lia.
Qed.

Lemma hsalsa_same_key k k' n n' : same_key 32 k k' -> same_key 16 n n' ->
  Stream.hsalsa20 k n = Stream.hsalsa20 k' n'.
Proof.
  intros Hk Hn. unfold Stream.hsalsa20, Stream.salsa_state.
  by rewrite (same_key_words k k' Hk), (same_le32_0 16 n n' Hn), !(same_le32 16 n n' _ Hn) by lia.
Qed.

Lemma rc4_same_key k k' n : (0 < n)%nat -> same_key n k k' -> Stream.rc4_init k n = Stream.rc4_init k' n.
Proof.
  intros Hn H. unfold Stream.rc4_init, Stream.rc4_ksa. do 2 f_equal. apply fold_left_ext. intros [s j] i _.
  unfold Stream.ksa_step. by rewrite H by (apply Nat.mod_upper_bound; lia).
Qed.

(** The key lengths the engine uses with each algorithm. *)
Definition klen_ok (alg : Z) (klen : nat) : Prop :=
  (alg = SAR_ALG_AES_128 /\ klen = 16 \/ alg = SAR_ALG_AES_192 /\ klen = 24 \/
   alg = SAR_ALG_AES_256 /\ klen = 32 \/ alg = SAR_ALG_3DES /\ klen = 24 \/
   alg = SAR_ALG_SM4 /\ klen = 16 \/ alg = SAR_ALG_SEED /\ klen = 16 \/
   alg = SAR_ALG_CAMELLIA /\ (klen = 16 \/ klen = 32) \/ alg = SAR_ALG_ARIA /\ (klen = 16 \/ klen = 32))%nat.

Lemma make_block_same_key alg k k' klen : klen_ok alg klen -> take klen k = take klen k' ->
  make_block alg k (Z.of_nat klen) = make_block alg k' (Z.of_nat klen).
Proof.
  intros Ha H. pose proof (same_key_take klen k k' H) as Hs. unfold make_block.
  unfold klen_ok in Ha.
  repeat destruct Ha as [Ha|Ha]; destruct Ha as [-> Hl]; cbn [Z.eqb orb]; apply (f_equal Some).
  - subst. by apply aes_same_key.
  - subst. by apply aes_same_key.
  - subst. by apply aes_same_key.
  - subst. by apply des3_same_key.
  - subst. by apply sm4_same_key.
  - subst. by apply seed_same_key.
  - apply camellia_same_key; [lia|by rewrite Nat2Z.id].
  - apply aria_same_key; [lia|by rewrite Nat2Z.id].
Qed.

(** ** What it means to explain a sample *)

(** The vector of a recovery key, in the form the mode search reports it. *)
Definition iv_of (rk : sar_recovery_key_t) : sar_iv_out_t :=
  {| iv_bytes := iv rk; Modes.iv_length := iv_length rk; iv_tag := ctr_layout_tag rk |}.

(** The memory that was searched, with the length that was searched of it. *)
Definition scanned (inp : sar_engine_input_t) : option (bytes * nat) :=
  (fun buf => (buf, scan_length inp)) <$> scan_buffer inp.

(** An RC4 state in the searched memory: the permutation, and behind it the two
    indices, packed or in words. *)
Definition state_in (scan : option (bytes * nat)) (st : Stream.rc4_state) : Prop :=
  exists buf n off, scan = Some (buf, n) /\ Stream.S_ st = blk buf off 256 /\ Stream.ri st = rd buf (off + 256) /\
    ((off + 258 <= n)%nat /\ Stream.rj st = rd buf (off + 257) \/ (off + 264 <= n)%nat /\ Stream.rj st = rd buf (off + 260)).

Section Explains.
Context (pt ct : bytes) (len : nat) (fo : Z) (scan : option (bytes * nat)).

Definition explains_block (rk : sar_recovery_key_t) : Prop :=
  exists bc s, make_block (algorithm rk) (key rk) (key_length rk) = Some bc /\
    mode rk ∈ search_order /\ s ∈ alignments (block_size bc) len (mode_blocks (mode rk)) /\
    mode_holds bc (mode rk) pt ct s /\ iv_holds bc (mode rk) pt ct fo s (iv_of rk).

Definition explains_xts (rk : sar_recovery_key_t) : Prop :=
  let skip := (16 - (fo .& 15)) .& 15 in
  exists bc1 bc2, mode rk = SAR_MODE_XTS /\
    make_xts (algorithm rk) (key rk) (key_length rk) = Some (bc1, bc2) /\
    (mode_params rk = 512 \/ mode_params rk = 4096) /\ skip + 16 <= Z.of_nat len /\
    blk ct (Z.to_nat skip) 16 =
      xts_block (E bc1) bc2 (mode_params rk) (u64 (fo + skip)) (blk pt (Z.to_nat skip) 16).

Definition explains_stream (rk : sar_recovery_key_t) : Prop :=
  mode rk = SAR_MODE_STREAM /\ (is_chacha_alg (algorithm rk) || is_salsa_alg (algorithm rk)) = true /\
  (16 <= stream_clen len fo)%nat /\
  take (stream_clen len fo) ct =
    xor_bytes (take (stream_clen len fo) pt) (drop (Z.to_nat (fo mod 64)) (stream_block rk (fo / 64))).

(** The RC4 key, from which the key stream at the offset of the sample is run up;
    or, without a key, a state in the searched memory whose key stream starts at
    the sample. *)
Definition explains_rc4 (rk : sar_recovery_key_t) : Prop :=
  is_rc4 rk = true /\
  exists st, take len ct = xor_bytes (take len pt) (Stream.rc4_stream len st) /\ Stream.rc4_perm (Stream.S_ st) /\
    (key_length rk = 0 /\ state_in scan st \/
     0 < key_length rk /\ st = Nat.iter (Z.to_nat fo) Stream.rc4_step (Stream.rc4_init (key rk) (Z.to_nat (key_length rk)))).

Definition explains (v : verdict) : Prop :=
  let rk := sar_recovery_key_from_verdict v in
  Verdict.convicted v = true /\ Verdict.wf v /\
  (explains_block rk \/ explains_xts rk \/ explains_stream rk \/ explains_rc4 rk).
End Explains.

(** ** The key of a filled verdict *)

Lemma copy_into_zero n src size : (n <= length src)%nat -> (n <= size)%nat ->
  take n (copy_into size src n) = take n src.
Proof. intros H1 H2. unfold copy_into. apply take_app_length'. rewrite length_take. lia. Qed.

Lemma mem_write_zeros size src n : (n <= size)%nat -> (n <= length src)%nat ->
  mem_write (replicate size 0) 0 (take n src) = copy_into size src n.
Proof.
  intros H1 H2. rewrite mem_write_spec by (rewrite length_take, length_replicate; lia).
  rewrite take_0, app_nil_l, length_take, Nat.min_l by lia. unfold copy_into. f_equal.
  by rewrite drop_replicate.
Qed.

Lemma copy_into_idem size src n : (n <= size)%nat -> (n <= length src)%nat ->
  copy_into size (copy_into size src n) n = copy_into size src n.
Proof. intros H1 H2. unfold copy_into at 1. by rewrite copy_into_zero. Qed.

Lemma key_of_fill key klen alg mode mp iv ivl tag : (klen <= length key)%nat -> (klen <= 64)%nat ->
  (ivl <= 24)%nat -> (ivl <= length iv)%nat ->
  sar_recovery_key_from_verdict
    {| Verdict.convicted := true; Verdict.algorithm := alg; Verdict.mode := mode;
       Verdict.key := mem_write (Verdict.key Verdict.zero) 0 (take klen key);
       Verdict.key_length := Z.of_nat klen; Verdict.mode_params := mp;
       Verdict.iv := copy_into 24 iv ivl; Verdict.iv_length := Z.of_nat ivl; Verdict.ctr_layout_tag := tag |} =
  {| algorithm := alg; Recover.mode := mode; key_length := Z.of_nat klen; Recover.key := copy_into 64 key klen;
     mode_params := mp; Recover.iv := copy_into 24 iv ivl; iv_length := Z.of_nat ivl; ctr_layout_tag := tag |}.
Proof.
  intros H1 H2 H3 H4. unfold sar_recovery_key_from_verdict.
  cbn [Verdict.algorithm Verdict.mode Verdict.key Verdict.key_length Verdict.mode_params Verdict.iv
       Verdict.iv_length Verdict.ctr_layout_tag].
  change (Verdict.key Verdict.zero) with (replicate 64 0). rewrite mem_write_zeros by done.
  destruct (Z.ltb_spec 64 (Z.of_nat klen)); [lia|]. destruct (Z.ltb_spec 24 (Z.of_nat ivl)); [lia|].
  by rewrite !Nat2Z.id, !copy_into_idem by done.
Qed.

(** The vector of a result is its first [length] bytes and zeros. *)
Lemma iv_holds_shape bc m pt ct fo s x : BlockCipher bc -> iv_holds bc m pt ct fo s x ->
  exists n, (n <= 24)%nat /\ Modes.iv_length x = Z.of_nat n /\ is_block 24 (iv_bytes x) /\
    iv_bytes x = copy_into 24 (iv_bytes x) n.
Proof.
  intros Hbc H. assert (Hc : x = iv_clear \/ exists v, carries bc x v).
  { unfold iv_holds in H. repeat case_decide;
      first [by left|right; by destruct H as (v & ? & _); exists v|right; by destruct H as (v & ? & ? & ? & _); exists v]. }
  destruct Hc as [->|(v & [Hl Hvb] & Hb & Hn)].
  - exists 0%nat. split; [lia|]. split; [done|]. split; [|done]. split; [done|by apply forall_u_check; vm_compute].
  - pose proof (bs_pos bc). exists (block_size bc). split; [lia|]. split; [done|].
    change SEMANTICS_AR_IV_MAX with 24%nat in Hb. rewrite Hb. split.
    + split; [rewrite length_app, length_replicate; lia|]. apply Forall_app. split; [done|].
      apply Forall_replicate. unfold is_u. lia.
    + unfold copy_into. by rewrite take_app_length'.
Qed.

(** The layout tag of a result is a byte. *)
Lemma iv_tag_set x b : iv_tag (iv_set x b) = iv_tag x.
Proof. done. Qed.

Lemma modes_tag bc pt ct len fo m x : engine_try_block_modes bc pt ct len fo = Some (m, x) -> is_u8 (iv_tag x).
Proof.
  assert (H0 : is_u8 (iv_tag iv_clear)) by (unfold is_u; cbn; lia).
  intros H. unfold engine_try_block_modes in H. destruct (generic_ecb _ _ _ _); [by injection H as _ <-|].
  destruct (_ <=? _)%nat; [|done].
  destruct (generic_cbc _ _ _ _ _ _) as [y|] eqn:E1.
  { injection H as _ <-. apply first_some_Some in E1 as (s & _ & E1). unfold cbc_at, cbc_iv in E1.
    repeat case_match; try done; by injection E1 as <-. }
  destruct (generic_cfb _ _ _ _ _ _) as [y|] eqn:E2.
  { injection H as _ <-. apply first_some_Some in E2 as (s & _ & E2). unfold cfb_at, cfb_iv in E2.
    repeat case_match; try done; by injection E2 as <-. }
  destruct (generic_ofb _ _ _ _ _ _) as [y|] eqn:E3.
  { injection H as _ <-. apply first_some_Some in E3 as (s & _ & E3). unfold ofb_at, ofb_iv in E3.
    repeat case_match; try done; by injection E3 as <-. }
  destruct (generic_ctr _ _ _ _ _ _) as [y|] eqn:E4; [|done].
  injection H as _ <-. apply first_some_Some in E4 as (s & _ & E4). unfold ctr_at in E4.
  destruct (decrypt bc _); [|done]. destruct (decrypt bc _); [|done].
  apply first_some_Some in E4 as ([t L] & _ & E4). unfold ctr_layout_at in E4.
  repeat case_match; try done. injection E4 as <-. apply is_u_u8.
Qed.

(** A filled verdict is well formed. *)
Lemma copy_into_block size src n : (n <= size)%nat -> (n <= length src)%nat -> is_bytes src ->
  is_block size (copy_into size src n).
Proof.
  intros H1 H2 Hb. unfold copy_into. split; [rewrite length_app, length_take, length_replicate; lia|].
  apply Forall_app. split; [by apply Forall_take|]. apply Forall_replicate. unfold is_u. lia.
Qed.

Lemma filled_wf k klen alg m mp x ivl tag : is_bytes k -> (klen <= length k)%nat -> (klen <= 64)%nat ->
  is_block 24 x -> is_u32 alg -> is_u32 m -> is_u64 mp -> (ivl <= 24)%nat -> is_u8 tag ->
  Verdict.wf {| Verdict.convicted := true; Verdict.algorithm := alg; Verdict.mode := m;
    Verdict.key := mem_write (Verdict.key Verdict.zero) 0 (take klen k);
    Verdict.key_length := Z.of_nat klen; Verdict.mode_params := mp;
    Verdict.iv := x; Verdict.iv_length := Z.of_nat ivl; Verdict.ctr_layout_tag := tag |}.
Proof.
  intros Hk Hl H64 Hx Ha Hm Hmp Hi Ht.
  change (Verdict.key Verdict.zero) with (replicate 64 0). rewrite mem_write_zeros by done.
  constructor; cbn [Verdict.algorithm Verdict.mode Verdict.key Verdict.key_length Verdict.mode_params
    Verdict.iv Verdict.iv_length Verdict.ctr_layout_tag]; try done.
  - by apply copy_into_block.
  - unfold is_u. lia.
  - unfold is_u. lia.
Qed.

Lemma klen_ok_alg alg klen : klen_ok alg klen -> is_u32 alg.
Proof.
  unfold klen_ok, is_u. intros H.
  repeat destruct H as [H|H]; destruct H as [-> _]; cbv; split; (discriminate || reflexivity).
Qed.

Lemma search_order_u32 m : m ∈ search_order -> is_u32 m.
Proof.
  intros Hm%list_elem_of_In. unfold is_u.
  destruct Hm as [<-|[<-|[<-|[<-|[<-|[]]]]]]; cbv; split; (discriminate || reflexivity).
Qed.

Lemma length_flat_map_4 (f : nat -> bytes) a q : (forall i, length (f i) = 4%nat) ->
  length (flat_map f (seq a q)) = (4 * q)%nat.
Proof.
  intros Hf. revert a. induction q as [|q IH]; intros a; [done|]. cbn [seq flat_map].
  rewrite length_app, Hf, IH. lia.
Qed.

Lemma orelse_Some {A} (a b : option A) x : (a <|> b) = Some x -> a = Some x \/ b = Some x.
Proof. destruct a; cbn; auto. Qed.

Lemma orelse_None {A} (a b : option A) : (a <|> b) = None <-> a = None /\ b = None.
Proof. destruct a; cbn; [split; [done|by intros [? _]]|tauto]. Qed.

(** ** The tests on candidate bytes *)

Lemma sbox_loop_spec n d seen : length seen = 256%nat -> (n <= length d)%nat -> is_bytes d ->
  sbox_loop n d seen = true <->
  NoDup (take n d) /\ Forall (fun x => nth (Z.to_nat x) seen false = false) (take n d).
Proof.
  revert d seen. induction n as [|n IH]; intros d seen Hl Hn Hd.
  { cbn. split; [intros _; split; constructor|done]. }
  destruct d as [|x d]; [cbn in Hn; lia|]. apply Forall_cons in Hd as [Hx Hd]. cbn in Hn.
  cbn [sbox_loop take]. rewrite NoDup_cons, Forall_cons.
  destruct (nth (Z.to_nat x) seen false) eqn:Es; [split; [done|by intros [_ [? _]]]|].
  unfold is_u in Hx. rewrite IH by (rewrite ?length_insert; (done || lia)).
  assert (Hnth : forall y, y ∈ take n d -> is_u8 y /\
    (nth (Z.to_nat y) (<[Z.to_nat x:=true]> seen) false = false <->
     y <> x /\ nth (Z.to_nat y) seen false = false)).
  { intros y Hy. assert (Hyb : is_u8 y) by (pose proof (Forall_take _ n d Hd) as Ht; rewrite Forall_forall in Ht; auto).
    split; [done|]. unfold is_u in Hyb. rewrite !nth_lookup. destruct (decide (y = x)) as [->|Hne].
    - rewrite list_lookup_insert_eq by lia. cbn. split; [done|by intros [? _]].
    - rewrite list_lookup_insert_ne by lia. tauto. }
  rewrite !Forall_forall. split.
  - intros [Hnd Hf]. split; [split; [|done]|split; [done|]].
    + intros Hin. by apply Hnth in Hin as Hi; destruct Hi as [_ Hi]; apply Hf, Hi in Hin as [? _].
    + intros y Hy. by apply (Hnth y Hy), Hf.
  - intros [[Hnin Hnd] [_ Hf]]. split; [done|]. intros y Hy. apply (Hnth y Hy). split; [|by apply Hf].
    by intros ->.
Qed.

Lemma nth_replicate_false i n : nth i (replicate n false) false = false.
Proof. revert i. induction n as [|n IH]; intros [|i]; cbn; auto. Qed.

(** A buffer passes for an RC4 state exactly when it is a permutation of the bytes. *)
Lemma rc4_sbox_iff d : (256 <= length d)%nat -> is_bytes d ->
  is_rc4_sbox d = true <-> Stream.rc4_perm (take 256 d).
Proof.
  intros Hl Hd. unfold is_rc4_sbox. rewrite sbox_loop_spec by (rewrite ?length_replicate; done).
  unfold Stream.rc4_perm, is_block. rewrite length_take, Nat.min_l by done.
  assert (Hz : Forall (fun x : Z => nth (Z.to_nat x) (replicate 256 false) false = false) (take 256 d)).
  { apply Forall_forall. intros x _. apply nth_replicate_false. }
  split; [intros [? _]; split; [split; [done|by apply Forall_take]|done]|by intros [_ ?]].
Qed.

Lemma offsets_elem n m off : (0 < m)%nat -> off ∈ offsets n m <-> (off + m <= n)%nat.
Proof. intros Hm. unfold offsets. rewrite elem_of_seq. lia. Qed.

Section Sound.
Context (pt ct : bytes) (len : nat) (fo : Z) (scan : option (bytes * nat)) (Hs : sample_ok pt ct len).

Abbreviation v0 := Verdict.zero.

Lemma block_explains bc k klen alg m x : klen_ok alg klen -> (klen <= length k)%nat -> is_bytes k ->
  make_block alg k (Z.of_nat klen) = Some bc ->
  engine_try_block_modes bc pt ct len fo = Some (m, x) ->
  explains pt ct len fo scan (apply_iv (fill v0 k klen alg m 0) x).
Proof.
  intros Hk Hl Hkb Hm Ht. assert (Hbc : BlockCipher bc) by by eapply make_block_cipher.
  pose proof (try_modes_exact bc pt ct len Hs fo) as He. rewrite Ht in He.
  destruct He as (pre & post & Hso & _ & s & Hal & Hmh & Hiv).
  destruct (iv_holds_shape bc m pt ct fo s x Hbc Hiv) as (n & Hn & Hxl & [Hxb Hxu] & Hx).
  assert (Hmo : m ∈ search_order) by (rewrite Hso; apply elem_of_app; right; by left).
  assert (Hklen : (klen <= 64)%nat) by (unfold klen_ok in Hk; lia).
  split; [done|]. unfold apply_iv, fill.
  cbn [Verdict.convicted Verdict.algorithm Verdict.mode Verdict.key Verdict.key_length Verdict.mode_params
       Verdict.iv].
  change (Verdict.iv v0) with (replicate 24 0). change SEMANTICS_AR_IV_MAX with 24%nat.
  rewrite (take_ge (iv_bytes x)) by lia. rewrite (mem_write_all _ (iv_bytes x)) by (by rewrite Hxb).
  rewrite Hxl. split.
  { apply filled_wf; [done|done|done|by split|by eapply klen_ok_alg|by apply search_order_u32|done|done|].
    by eapply modes_tag. }
  left. rewrite Hx, key_of_fill by lia.
  exists bc, s. unfold iv_of. cbn [algorithm mode key key_length iv iv_length ctr_layout_tag].
  rewrite <- (make_block_same_key alg k) by (done || (symmetry; by apply copy_into_zero)).
  split; [done|]. split; [done|]. split; [done|]. split; [done|].
  rewrite <- Hx, <- Hxl. by destruct x.
Qed.

Lemma block_try_explains bc k klen alg w : klen_ok alg klen -> (klen <= length k)%nat -> is_bytes k ->
  make_block alg k (Z.of_nat klen) = Some bc ->
  block_try pt ct len fo v0 bc k klen alg = Some w -> explains pt ct len fo scan w.
Proof.
  intros Hk Hl Hkb Hm. unfold block_try.
  destruct (engine_try_block_modes _ _ _ _ _) as [[m x]|] eqn:Ht; [|done].
  intros [= <-]. by eapply block_explains.
Qed.

Definition aes_klen (alg : Z) (klen : nat) : Prop :=
  (alg = SAR_ALG_AES_128 /\ klen = 16 \/ alg = SAR_ALG_AES_192 /\ klen = 24 \/
   alg = SAR_ALG_AES_256 /\ klen = 32)%nat.

Lemma aes_try_explains k klen alg w : aes_klen alg klen -> (klen <= length k)%nat -> is_bytes k ->
  aes_try_master pt ct len fo v0 k klen alg = Some w -> explains pt ct len fo scan w.
Proof.
  intros Ha Hl Hkb. apply (block_try_explains (Aes.aes_cipher k klen)); [|done|done|].
  - unfold klen_ok, aes_klen in *. tauto.
  - unfold make_block. rewrite Nat2Z.id. by destruct Ha as [[-> _]|[[-> _]|[-> _]]].
Qed.

Lemma window_explains window klen alg mb w : aes_klen alg klen -> (klen <= length window)%nat ->
  is_bytes window -> aes_window_battery pt ct len fo v0 window klen alg mb = Some w -> explains pt ct len fo scan w.
Proof.
  intros Ha Hl Hb H. unfold aes_window_battery in H. apply first_some_Some in H as (var & Hv & H).
  assert (Hvar : length var = klen /\ is_bytes var).
  { assert (Hd : (4 * (klen / 4) = klen)%nat) by (destruct Ha as [[_ ->]|[[_ ->]|[_ ->]]]; reflexivity).
    apply elem_of_cons in Hv as [->|Hv]; [split; [rewrite length_take; lia|by apply Forall_take]|].
    apply list_elem_of_singleton in Hv as ->. unfold Aes.aes_word_byteswap. split.
    - by rewrite length_flat_map_4, Hd.
    - apply Forall_flat_map, Forall_forall. intros i _. repeat constructor; by apply Mem.rd_byte. }
  destruct Hvar as [Hvl Hvb]. unfold orelse in H.
  destruct (aes_try_master _ _ _ _ _ var _ _) as [w'|] eqn:E.
  - injection H as <-. apply (aes_try_explains var klen alg); [done|lia|done|exact E].
  - apply first_some_Some in H as (b & _ & H).
    destruct (Aes.aes_master_from_window _ _ _) as [k|] eqn:Ek; [|done].
    apply Aes.master_from_window_block in Ek as [Hkl Hkb]; [|unfold aes_klen in Ha; lia|done|done].
    apply (aes_try_explains k klen alg); [done|lia|done|exact H].
Qed.

Lemma xts_try_explains bc1 bc2 k h alg w : klen_ok alg h -> alg <> SAR_ALG_3DES -> (2 * h <= length k)%nat ->
  is_bytes k -> make_block alg k (Z.of_nat h) = Some bc1 ->
  make_block alg (drop h k) (Z.of_nat h) = Some bc2 ->
  xts_try pt ct len fo v0 bc1 bc2 k (2 * h) alg = Some w -> explains pt ct len fo scan w.
Proof.
  intros Hk Hd Hl Hkb H1 H2 H. unfold xts_try in H.
  assert (Hh : (0 < h <= 32)%nat) by (unfold klen_ok in Hk; lia).
  assert (Hb1 : BlockCipher bc1) by by eapply make_block_cipher.
  assert (Hb2 : BlockCipher bc2) by (eapply make_block_cipher; [|done]; by apply Forall_drop).
  destruct Hs as [Hp Hc Hpl Hcl].
  pose proof (verify_xts_exact bc1 bc2 (make_block_size _ _ _ _ H1 Hd) (make_block_size _ _ _ _ H2 Hd)
    pt ct len fo Hp Hc Hpl Hcl) as Hx. cbv zeta in Hx.
  destruct (engine_verify_xts _ _ _ _ _ _) as [du|]; [|done]. injection H as <-.
  destruct Hx as [Hdu [Hsk Hx]]. split; [done|]. unfold fill.
  change (Verdict.iv v0) with (copy_into 24 [] 0). change (Verdict.iv_length v0) with (Z.of_nat 0).
  split.
  { apply filled_wf; [done|done|lia| |by eapply klen_ok_alg|done| |lia|done].
    - apply copy_into_block; [lia|cbn; lia|constructor].
    - unfold is_u. lia. }
  right. left. rewrite key_of_fill by (cbn; lia). exists bc1, bc2. cbn [mode algorithm key key_length mode_params].
  split; [done|]. split; [|by split_and!].
  unfold make_xts. replace (Z.of_nat (2 * h) / 2) with (Z.of_nat h) by (rewrite Nat2Z.inj_mul, Z.mul_comm, Z.div_mul; lia).
  destruct (Z.eqb_spec (Z.of_nat h) 0); [lia|]. rewrite Nat2Z.id.
  assert (Ht : take (2 * h) (copy_into 64 k (2 * h)) = take (2 * h) k) by (apply copy_into_zero; lia).
  rewrite (make_block_same_key alg (copy_into 64 k (2 * h)) k), H1; [|done|].
  - rewrite (make_block_same_key alg (drop h (copy_into 64 k (2 * h))) (drop h k)), H2; [done|done|].
    apply (f_equal (drop h)) in Ht. rewrite !skipn_firstn_comm in Ht. by replace (2 * h - h)%nat with h in Ht by lia.
  - apply (f_equal (take h)) in Ht. rewrite !take_take in Ht. by replace (h `min` (2 * h))%nat with h in Ht by lia.
Qed.

(** *** Stream ciphers *)

Lemma stream_params rounds origin : rounds ∈ Stream.STREAM_ROUNDS -> origin ∈ [0; 1] ->
  u32 (((u32 rounds .<< 8) .| u32 origin) .>> 8 .& 0xff) = rounds /\
  u32 (((u32 rounds .<< 8) .| u32 origin) .& 0xff) = origin /\
  is_u64 ((u32 rounds .<< 8) .| u32 origin).
Proof.
  intros Hr Ho. apply list_elem_of_In in Hr, Ho.
  destruct Hr as [<-|[<-|[<-|[]]]]; destruct Ho as [<-|[<-|[]]];
    (split; [by vm_compute|split; [by vm_compute|vm_compute; split; (discriminate || reflexivity)]]).
Qed.

Lemma stream_match_iff ks : length ks = 64%nat ->
  stream_match pt ct len fo ks = true <->
  take (stream_clen len fo) ct = xor_bytes (take (stream_clen len fo) pt) (drop (Z.to_nat (fo mod 64)) ks).
Proof. intros _. unfold stream_match, bytes_eqb. by rewrite bool_decide_eq_true, eq_comm. Qed.

(** The recovery key of a stream verdict. *)
Definition stream_key (key nonce : bytes) (nlen : nat) (alg rounds origin : Z) : sar_recovery_key_t :=
  {| algorithm := alg; mode := SAR_MODE_STREAM; key_length := 32; Recover.key := copy_into 64 key 32;
     mode_params := (u32 rounds .<< 8) .| u32 origin; iv := copy_into 24 nonce nlen;
     iv_length := Z.of_nat nlen; ctr_layout_tag := 0 |}.

Lemma fill_stream_key key alg nonce nlen rounds origin : (32 <= length key)%nat ->
  (nlen <= length nonce)%nat -> (nlen <= 24)%nat ->
  sar_recovery_key_from_verdict (fill_stream v0 key alg nonce nlen rounds origin) =
  stream_key key nonce nlen alg rounds origin.
Proof.
  intros H1 H2 H3. unfold fill_stream, fill.
  cbn [Verdict.convicted Verdict.algorithm Verdict.mode Verdict.key Verdict.key_length Verdict.mode_params
       Verdict.iv].
  change (Verdict.iv v0) with (replicate 24 0). rewrite (mem_write_zeros 24) by lia.
  by rewrite key_of_fill by lia.
Qed.

Lemma stream_alg_u32 alg : (is_chacha_alg alg || is_salsa_alg alg) = true -> is_u32 alg.
Proof.
  unfold is_chacha_alg, is_salsa_alg. rewrite !orb_true_iff, !Z.eqb_eq. unfold is_u.
  intros [[-> | ->]|[-> | ->]]; cbv; split; (discriminate || reflexivity).
Qed.

(** A stream routine convicts with a key stream block that recovery rebuilds. *)
Lemma stream_hit key alg nonce nlen rounds origin ks : is_bytes key -> is_bytes nonce -> (32 <= length key)%nat ->
  is_u64 ((u32 rounds .<< 8) .| u32 origin) ->
  (nlen <= length nonce)%nat -> (nlen <= 24)%nat ->
  (is_chacha_alg alg || is_salsa_alg alg) = true -> (16 <= stream_clen len fo)%nat ->
  stream_match pt ct len fo ks = true -> ks = stream_block (stream_key key nonce nlen alg rounds origin) (fo / 64) ->
  explains pt ct len fo scan (fill_stream v0 key alg nonce nlen rounds origin).
Proof.
  intros Hkb Hnb H1 Hmp H2 H3 Ha Hc Hm Hks. split; [done|]. split.
  { unfold fill_stream, fill.
    cbn [Verdict.convicted Verdict.algorithm Verdict.mode Verdict.key Verdict.key_length Verdict.mode_params
         Verdict.iv].
    change (Verdict.iv v0) with (replicate 24 0). rewrite (mem_write_zeros 24) by lia.
    apply filled_wf; [done|done|lia|by apply copy_into_block|by apply stream_alg_u32|done|done|done|done]. }
  right. right. left. rewrite fill_stream_key by done. split; [done|]. split; [done|]. split; [done|].
  rewrite <- Hks. apply stream_match_iff; [|done]. rewrite Hks. apply length_stream_block.
Qed.

Lemma try_chacha_explains gen key gn nonce nlen alg w : is_bytes key -> is_bytes nonce -> (32 <= length key)%nat ->
  (nlen <= length nonce)%nat -> (nlen <= 24)%nat -> is_chacha_alg alg = true ->
  (forall rounds origin c, let rk := stream_key key nonce nlen alg rounds origin in
    Stream.chacha_block gen gn c rounds =
    if alg =? SAR_ALG_XCHACHA20
    then Stream.chacha_block (Stream.hchacha20 (Recover.key rk) (iv rk))
           (replicate 4 0 ++ take 8 (drop 16 (iv rk))) c rounds
    else Stream.chacha_block (Recover.key rk) (iv rk) c rounds) ->
  try_chacha pt ct len fo v0 gen key gn nonce nlen alg = Some w -> explains pt ct len fo scan w.
Proof.
  intros Hkb Hnb H1 H2 H3 Ha Hg H. unfold try_chacha in H.
  apply first_some_Some in H as (origin & Ho & H). apply first_some_Some in H as (rounds & Hr & H).
  destruct (Nat.ltb_spec (stream_clen len fo) 16) as [|Hc]; [done|].
  destruct (stream_match _ _ _ _ _) eqn:Hm; [|done]. injection H as <-.
  destruct (stream_params rounds origin Hr Ho) as (Er & Eo & Hmp).
  eapply stream_hit; try done; [by rewrite Ha|].
  unfold stream_block, stream_key. cbn [algorithm mode_params]. rewrite Ha, Er, Eo.
  specialize (Hg rounds origin (u32 (u32 (fo / 64) + origin))). cbv zeta in Hg. rewrite Hg.
  assert (Hcc : u32 (u64 (fo / 64 + origin)) = u32 (u32 (fo / 64) + origin)).
  { rewrite !u32_mod, u64_mod, Zplus_mod_idemp_l. apply Z.mod_mod_divide. by exists (2 ^ 32). }
  rewrite Hcc. done.
Qed.

Lemma try_salsa_explains gen key gn nonce nlen alg w : is_bytes key -> is_bytes nonce -> (32 <= length key)%nat ->
  (nlen <= length nonce)%nat -> (nlen <= 24)%nat -> is_chacha_alg alg = false -> is_salsa_alg alg = true ->
  (forall rounds origin c, let rk := stream_key key nonce nlen alg rounds origin in
    Stream.salsa_block gen gn c rounds =
    if alg =? SAR_ALG_XSALSA20
    then Stream.salsa_block (Stream.hsalsa20 (Recover.key rk) (iv rk)) (take 8 (drop 16 (iv rk))) c rounds
    else Stream.salsa_block (Recover.key rk) (iv rk) c rounds) ->
  try_salsa pt ct len fo v0 gen key gn nonce nlen alg = Some w -> explains pt ct len fo scan w.
Proof.
  intros Hkb Hnb H1 H2 H3 Hna Ha Hg H. unfold try_salsa in H.
  apply first_some_Some in H as (origin & Ho & H).
  destruct (Nat.ltb_spec (stream_clen len fo) 16) as [|Hc]; [done|].
  apply first_some_Some in H as (rounds & Hr & H).
  destruct (stream_match _ _ _ _ _) eqn:Hm; [|done]. injection H as <-.
  destruct (stream_params rounds origin Hr Ho) as (Er & Eo & Hmp).
  eapply stream_hit; try done; [by rewrite Ha, orb_true_r|].
  unfold stream_block, stream_key. cbn [algorithm mode_params]. rewrite Hna, Er, Eo.
  specialize (Hg rounds origin (u64 (fo / 64 + origin))). cbv zeta in Hg. by rewrite Hg.
Qed.

(** The stored key and nonce begin with the bytes the engine used. *)
Lemma stored_key key : (32 <= length key)%nat -> same_key 32 key (copy_into 64 key 32).
Proof. intros H. apply same_key_take. symmetry. apply copy_into_zero; lia. Qed.

Lemma stored_nonce nonce nlen n : (n <= nlen)%nat -> (nlen <= length nonce)%nat -> (nlen <= 24)%nat ->
  same_key n nonce (copy_into 24 nonce nlen).
Proof.
  intros Hn H1 H2 i Hi.
  apply (same_key_take nlen); [symmetry; by apply copy_into_zero|lia].
Qed.

(** The last eight bytes of a stored 24-byte nonce. *)
Lemma stored_tail nonce : length nonce = 24%nat -> copy_into 24 nonce 24 = nonce.
Proof. intros H. unfold copy_into. rewrite take_ge by lia. apply app_nil_r. Qed.

Lemma plain_chacha_explains key nonce w : is_bytes key -> is_bytes nonce -> (32 <= length key)%nat -> (12 <= length nonce)%nat ->
  try_chacha pt ct len fo v0 key key nonce nonce 12 SAR_ALG_CHACHA20 = Some w -> explains pt ct len fo scan w.
Proof.
  intros Hkb Hnb H1 H2. apply try_chacha_explains; [done|done|done|done|lia|done|].
  intros rounds origin c. apply chacha_same_key; [by apply stored_key|apply stored_nonce; lia].
Qed.

Lemma plain_salsa_explains key nonce w : is_bytes key -> is_bytes nonce -> (32 <= length key)%nat -> (8 <= length nonce)%nat ->
  try_salsa pt ct len fo v0 key key nonce nonce 8 SAR_ALG_SALSA20 = Some w -> explains pt ct len fo scan w.
Proof.
  intros Hkb Hnb H1 H2. apply try_salsa_explains; [done|done|done|done|lia|done|done|].
  intros rounds origin c. apply salsa_same_key; [by apply stored_key|apply stored_nonce; lia].
Qed.

Lemma xchacha_explains key nonce w : is_bytes key -> is_bytes nonce -> (32 <= length key)%nat -> length nonce = 24%nat ->
  try_chacha pt ct len fo v0 (Stream.hchacha20 key nonce) key (replicate 4 0 ++ take 8 (drop 16 nonce))
    nonce 24 SAR_ALG_XCHACHA20 = Some w -> explains pt ct len fo scan w.
Proof.
  intros Hkb Hnb H1 H2. apply try_chacha_explains; [done|done|done|lia|lia|done|].
  intros rounds origin c. cbn [stream_key Recover.key iv]. rewrite stored_tail by done.
  by rewrite (hchacha_same_key key (copy_into 64 key 32) nonce nonce) by (done || by apply stored_key).
Qed.

Lemma xsalsa_explains key nonce w : is_bytes key -> is_bytes nonce -> (32 <= length key)%nat -> length nonce = 24%nat ->
  try_salsa pt ct len fo v0 (Stream.hsalsa20 key nonce) key (take 8 (drop 16 nonce))
    nonce 24 SAR_ALG_XSALSA20 = Some w -> explains pt ct len fo scan w.
Proof.
  intros Hkb Hnb H1 H2. apply try_salsa_explains; [done|done|done|lia|lia|done|done|].
  intros rounds origin c. cbn [stream_key Recover.key iv]. rewrite stored_tail by done.
  by rewrite (hsalsa_same_key key (copy_into 64 key 32) nonce nonce) by (done || by apply stored_key).
Qed.

(** *** RC4 *)

Lemma rc4_key_of_fill key klen : (klen <= length key)%nat -> (klen <= 64)%nat ->
  sar_recovery_key_from_verdict (fill v0 key klen SAR_ALG_RC4 SAR_MODE_STREAM 0) =
  {| algorithm := SAR_ALG_RC4; mode := SAR_MODE_STREAM; key_length := Z.of_nat klen;
     Recover.key := copy_into 64 key klen; mode_params := 0; iv := copy_into 24 [] 0;
     iv_length := 0; ctr_layout_tag := 0 |}.
Proof.
  intros H1 H2. unfold fill. change (Verdict.iv v0) with (copy_into 24 [] 0).
  change (Verdict.iv_length v0) with (Z.of_nat 0). by rewrite key_of_fill by (cbn; lia).
Qed.

Lemma rc4_fill_wf key klen : is_bytes key -> (klen <= length key)%nat -> (klen <= 64)%nat ->
  Verdict.wf (fill v0 key klen SAR_ALG_RC4 SAR_MODE_STREAM 0).
Proof.
  intros Hb H1 H2. unfold fill. change (Verdict.iv v0) with (copy_into 24 [] 0).
  change (Verdict.iv_length v0) with (Z.of_nat 0).
  apply filled_wf; [done|done|done| |done|done|done|lia|done].
  apply copy_into_block; [lia|cbn; lia|constructor].
Qed.

Lemma rc4_shortkey_explains key w : is_bytes key -> (16 <= length key)%nat ->
  try_rc4_shortkey pt ct len fo v0 key = Some w -> explains pt ct len fo scan w.
Proof.
  intros Hkb Hl H. unfold try_rc4_shortkey in H. apply first_some_Some in H as (klen & Hk & H).
  assert (Hk' : (0 < klen <= 16)%nat)
    by (apply list_elem_of_In in Hk; destruct Hk as [<-|[<-|[<-|[]]]]; lia).
  destruct (Stream.rc4_verify _ _ _ _ _ _) eqn:Hv; [|done]. injection H as <-. unfold Stream.rc4_verify in Hv.
  apply Stream.rc4_compare_spec in Hv; [|apply Hs|apply Hs].
  split; [done|]. split; [apply rc4_fill_wf; [done|lia|lia]|].
  right. right. right. rewrite rc4_key_of_fill by lia. split; [done|].
  eexists. split; [exact Hv|]. split; [apply Stream.rc4_iter_ok, Stream.rc4_init_ok|]. right.
  split; [cbn; lia|]. cbn [Recover.key key_length]. rewrite Nat2Z.id. f_equal. apply rc4_same_key; [lia|].
  apply same_key_take. symmetry. apply copy_into_zero; lia.
Qed.

Lemma rc4_state_explains buf n off w : (off + 256 <= length buf)%nat -> is_bytes buf -> scan = Some (buf, n) ->
  (off <= n)%nat -> try_rc4_state pt ct len v0 (drop off buf) (n - off) = Some w -> explains pt ct len fo scan w.
Proof.
  intros Hl Hb Hsc Hoff H. unfold try_rc4_state in H. destruct (is_rc4_sbox _) eqn:Hp; [|done].
  apply rc4_sbox_iff in Hp; [|rewrite length_drop; lia|by apply Forall_drop].
  assert (Hst : forall k, (k = 257 /\ off + 258 <= n \/ k = 260 /\ off + 264 <= n)%nat ->
    Stream.rc4_verify_state (drop off buf) (rd (drop off buf) 256) (rd (drop off buf) k) pt ct len = true ->
    explains pt ct len fo scan (fill v0 (drop off buf) 0 SAR_ALG_RC4 SAR_MODE_STREAM 0)).
  { intros k Hk Hv. unfold Stream.rc4_verify_state in Hv.
    apply Stream.rc4_compare_spec in Hv; [|apply Hs|apply Hs].
    split; [done|]. split; [apply rc4_fill_wf; [by apply Forall_drop|lia|lia]|].
    right. right. right. rewrite rc4_key_of_fill by lia. split; [done|].
    eexists. split; [exact Hv|]. split; [done|]. left. split; [done|]. exists buf, n, off. split; [done|].
    cbn [Stream.S_ Stream.ri Stream.rj]. rewrite !Mem.rd_drop. split_and!; [done|done|].
    destruct Hk as [[-> ?]|[-> ?]]; [by left|by right]. }
  unfold orelse in H. destruct ((258 <=? _)%nat && _)%bool eqn:E1.
  - apply andb_true_iff in E1 as [E0%Nat.leb_le E1]. injection H as <-. apply (Hst 257%nat); [lia|done].
  - destruct ((264 <=? _)%nat && _)%bool eqn:E2; [|done].
    apply andb_true_iff in E2 as [E0%Nat.leb_le E2]. injection H as <-. apply (Hst 260%nat); [lia|done].
Qed.

(** *** The batteries *)

Lemma single_explains k w : (16 <= length k)%nat -> is_bytes k ->
  try_block_single pt ct len fo v0 k = Some w -> explains pt ct len fo scan w.
Proof.
  intros Hl Hb H. unfold try_block_single in H.
  apply orelse_Some in H as [H|H]; [apply (window_explains k 16 SAR_ALG_AES_128 10); try done; by left|].
  apply orelse_Some in H as [H|H];
    [by apply (block_try_explains (Sm4.sm4_cipher k) k 16 SAR_ALG_SM4); [unfold klen_ok; tauto|..]|].
  apply orelse_Some in H as [H|H];
    [by apply (block_try_explains (Camellia.camellia_cipher k 16) k 16 SAR_ALG_CAMELLIA); [unfold klen_ok; tauto|..]|].
  apply orelse_Some in H as [H|H];
    [by apply (block_try_explains (Aria.aria_cipher k 16) k 16 SAR_ALG_ARIA); [unfold klen_ok; tauto|..]|].
  by apply (block_try_explains (Seed.seed_cipher k) k 16 SAR_ALG_SEED); [unfold klen_ok; tauto|..].
Qed.

(** XTS with the two halves in separate buffers. *)
Lemma pair_xts_explains a b alg bc1 bc2 w : klen_ok alg 16 -> alg <> SAR_ALG_3DES ->
  (16 <= length a)%nat -> (16 <= length b)%nat -> is_bytes a -> is_bytes b ->
  make_block alg a 16 = Some bc1 -> make_block alg b 16 = Some bc2 ->
  xts_try pt ct len fo v0 bc1 bc2 (take 16 a ++ take 16 b) 32 alg = Some w -> explains pt ct len fo scan w.
Proof.
  intros Hk Hd La Lb Ha Hb Ma Mb.
  assert (Lt : length (take 16 a) = 16%nat) by (rewrite length_take; lia).
  apply (xts_try_explains bc1 bc2 (take 16 a ++ take 16 b) 16 alg).
  - done.
  - done.
  - rewrite length_app, !length_take. lia.
  - apply Forall_app. split; by apply Forall_take.
  - rewrite (make_block_same_key alg _ a 16 Hk); [done|]. by apply take_app_length'.
  - rewrite drop_app_length' by done. rewrite (make_block_same_key alg _ b 16 Hk); [done|].
    rewrite take_take. done.
Qed.

Lemma pair_explains a b w : (16 <= length a)%nat -> (16 <= length b)%nat -> is_bytes a -> is_bytes b ->
  try_block_pair pt ct len fo v0 a b = Some w -> explains pt ct len fo scan w.
Proof.
  intros La Lb Ha Hb H. unfold try_block_pair in H. cbv zeta in H.
  set (k32 := take 16 a ++ take 16 b) in *. set (k24a := take 16 a ++ take 8 b) in *.
  set (k24b := take 8 (drop 8 a) ++ take 16 b) in *.
  assert (H32 : (32 <= length k32)%nat /\ is_bytes k32).
  { unfold k32. split; [rewrite length_app, !length_take; lia|apply Forall_app; split; by apply Forall_take]. }
  assert (Ha24 : (24 <= length k24a)%nat /\ is_bytes k24a).
  { unfold k24a. split; [rewrite length_app, !length_take; lia|apply Forall_app; split; by apply Forall_take]. }
  assert (Hb24 : (24 <= length k24b)%nat /\ is_bytes k24b).
  { unfold k24b. split; [rewrite length_app, !length_take, length_drop; lia|].
    apply Forall_app; split; [by apply Forall_take, Forall_drop|by apply Forall_take]. }
  destruct H32 as [L32 B32], Ha24 as [La24 Ba24], Hb24 as [Lb24 Bb24].
  assert (Hk16 : forall alg, alg ∈ [SAR_ALG_AES_128; SAR_ALG_SM4; SAR_ALG_CAMELLIA; SAR_ALG_ARIA; SAR_ALG_SEED] ->
    klen_ok alg 16 /\ alg <> SAR_ALG_3DES).
  { intros alg Hal%list_elem_of_In. unfold klen_ok.
    destruct Hal as [<-|[<-|[<-|[<-|[<-|[]]]]]]; (split; [tauto|done]). }
  apply orelse_Some in H as [H|H];
    [apply (window_explains k32 32 SAR_ALG_AES_256 7); unfold aes_klen; try done; tauto|].
  apply orelse_Some in H as [H|H];
    [apply (window_explains k24a 24 SAR_ALG_AES_192 7); unfold aes_klen; try done; tauto|].
  apply orelse_Some in H as [H|H];
    [apply (window_explains k24b 24 SAR_ALG_AES_192 7); unfold aes_klen; try done; tauto|].
  apply orelse_Some in H as [H|H];
    [by apply (block_try_explains (Des.des3_cipher k24a) k24a 24 SAR_ALG_3DES); [unfold klen_ok; tauto|..]|].
  apply orelse_Some in H as [H|H];
    [by apply (block_try_explains (Des.des3_cipher k24b) k24b 24 SAR_ALG_3DES); [unfold klen_ok; tauto|..]|].
  apply orelse_Some in H as [H|H];
    [by apply (block_try_explains (Camellia.camellia_cipher k32 32) k32 32 SAR_ALG_CAMELLIA); [unfold klen_ok; tauto|..]|].
  apply orelse_Some in H as [H|H];
    [by apply (block_try_explains (Aria.aria_cipher k32 32) k32 32 SAR_ALG_ARIA); [unfold klen_ok; tauto|..]|].
  repeat (apply orelse_Some in H as [H|H];
    [eapply pair_xts_explains; [..|exact H]; try done; apply Hk16; repeat constructor|]).
  eapply pair_xts_explains; [..|exact H]; try done; apply Hk16; repeat constructor.
Qed.

Lemma aes256_xts_explains win w : (64 <= length win)%nat -> is_bytes win ->
  aes256_xts_window pt ct len fo v0 win = Some w -> explains pt ct len fo scan w.
Proof.
  intros Hl Hb. unfold aes256_xts_window.
  by apply (xts_try_explains (Aes.aes_cipher win 32) (Aes.aes_cipher (drop 32 win) 32) win 32 SAR_ALG_AES_256);
    [unfold klen_ok; tauto|..].
Qed.

Lemma cand_block cands i : Forall (is_block 16) cands -> (i < length cands)%nat -> is_block 16 (cand cands i).
Proof.
  intros Hc Hi. destruct (lookup_lt_is_Some_2 cands i Hi) as [c Hci]. unfold cand.
  rewrite (nth_lookup_Some _ _ _ _ Hci). rewrite Forall_lookup in Hc. by apply (Hc i).
Qed.

Lemma nonce_explains cands key32 k w : Forall (is_block 16) cands -> is_block 32 key32 ->
  (k < length cands)%nat -> try_nonce pt ct len fo v0 cands key32 k = Some w -> explains pt ct len fo scan w.
Proof.
  intros Hc [Hk Hkb] Hlt H. unfold try_nonce in H. cbv zeta in H.
  destruct (cand_block cands k Hc Hlt) as [Lk Bk].
  apply orelse_Some in H as [H|H];
    [eapply plain_chacha_explains; [| | | |exact H]; [done|by apply Forall_take|lia|rewrite length_take; lia]|].
  apply orelse_Some in H as [H|H];
    [eapply plain_salsa_explains; [| | | |exact H]; [done|by apply Forall_take|lia|rewrite length_take; lia]|].
  destruct (Nat.ltb_spec (k + 1) (length cands)) as [Hlt1|]; [|done].
  destruct (cand_block cands (k + 1) Hc Hlt1) as [Lk1 Bk1].
  set (nonce24 := take 16 _ ++ take 8 _) in *.
  assert (Hn : length nonce24 = 24%nat) by (unfold nonce24; rewrite length_app, !length_take; lia).
  assert (Hnb : is_bytes nonce24) by (apply Forall_app; split; by apply Forall_take).
  apply orelse_Some in H as [H|H];
    [by eapply xchacha_explains; [| | | |exact H]; [| |lia|]|by eapply xsalsa_explains; [| | | |exact H]; [| |lia|]].
Qed.

Lemma stream_explains cands w : Forall (is_block 16) cands ->
  try_stream pt ct len fo v0 cands = Some w -> explains pt ct len fo scan w.
Proof.
  intros Hc H. unfold try_stream in H. apply first_some_Some in H as (i & Hi%elem_of_seq & H).
  destruct (negb _); [done|]. apply first_some_Some in H as (k & Hk%elem_of_seq & H).
  destruct (_ || _)%bool; [done|]. eapply nonce_explains; [done| | |exact H]; [|lia].
  destruct (cand_block cands i Hc) as [Li Bi]; [lia|]. destruct (cand_block cands (i + 1) Hc) as [Lj Bj]; [lia|].
  split; [rewrite length_app, !length_take; lia|]. apply Forall_app; split; by apply Forall_take.
Qed.

(** *** Scanning a buffer *)

Section Scan.
Context (buf : bytes) (buf_len : nat) (Hb : is_bytes buf) (Hbl : (buf_len <= length buf)%nat).
Context (Hscan : scan = Some (buf, buf_len)).

Lemma schedule_scan_explains w : aes_schedule_scan pt ct len fo v0 buf buf_len = Some w -> explains pt ct len fo scan w.
Proof.
  intros H. unfold aes_schedule_scan in H. apply first_some_Some in H as (off & Ho & H).
  apply offsets_elem in Ho; [|lia]. apply first_some_Some in H as ([[klen slen] alg] & Hk & H).
  assert (Ha : aes_klen alg klen).
  { apply list_elem_of_In in Hk. unfold aes_klen. destruct Hk as [[= <- <- <-]|[[= <- <- <-]|[[= <- <- <-]|[]]]]; tauto. }
  destruct (_ <? _)%nat; [done|]. destruct (negb _); [done|].
  eapply aes_try_explains; [exact Ha| |by apply Forall_drop|exact H].
  unfold aes_klen in Ha. rewrite length_drop. lia.
Qed.

Lemma sigma_scan_explains w : stream_sigma_scan pt ct len fo v0 buf buf_len = Some w -> explains pt ct len fo scan w.
Proof.
  intros H. unfold stream_sigma_scan in H. apply first_some_Some in H as (off & Ho & H).
  apply offsets_elem in Ho; [|lia]. cbv zeta in H. destruct (negb _); [done|].
  apply orelse_Some in H as [H|H].
  - destruct (_ =? 0); [|done]. eapply plain_chacha_explains; [| | | |exact H];
      [by apply Forall_drop, Forall_drop|by apply Forall_drop, Forall_drop|rewrite !length_drop; lia..].
  - destruct (_ && _ && _ && _)%bool; [|done]. eapply plain_salsa_explains; [| | | |exact H].
    + apply Forall_app. split; by apply Forall_take, Forall_drop, Forall_drop.
    + by apply Forall_drop, Forall_drop.
    + rewrite length_app, !length_take, !length_drop. lia.
    + rewrite !length_drop. lia.
Qed.

Lemma scan_explains w : scan_battery pt ct len fo v0 buf buf_len = Some w -> explains pt ct len fo scan w.
Proof.
  intros H. unfold scan_battery in H. cbv zeta in H.
  set (brute := if (buf_len <? SAR_SCAN_BRUTE_CAP)%nat then buf_len else SAR_SCAN_BRUTE_CAP) in *.
  assert (Hbr : (brute <= buf_len)%nat) by (unfold brute; destruct (Nat.ltb_spec buf_len SAR_SCAN_BRUTE_CAP); lia).
  apply orelse_Some in H as [H|H]; [by apply schedule_scan_explains|].
  apply orelse_Some in H as [H|H]; [by apply sigma_scan_explains|].
  apply orelse_Some in H as [H|H].
  - apply first_some_Some in H as (off & Ho & H). apply offsets_elem in Ho; [|lia].
    eapply rc4_state_explains; [| | | |exact H]; [lia|done|done|lia].
  - apply first_some_Some in H as (i & Hi%elem_of_seq & H). pose proof (div_blocks brute 16 ltac:(lia)) as Hd.
    destruct (negb _); [done|].
    assert (Hp : is_bytes (drop (i * 16) buf)) by by apply Forall_drop.
    apply orelse_Some in H as [H|H];
      [eapply single_explains; [|done|exact H]; rewrite length_drop; lia|].
    apply orelse_Some in H as [H|H].
    { destruct ((i * 16 + 32 <=? brute)%nat && _)%bool eqn:E; [|done].
      apply andb_true_iff in E as [E%Nat.leb_le _].
      eapply pair_explains; [| | | |exact H]; rewrite ?length_drop; [lia|lia|done|by apply Forall_drop]. }
    apply orelse_Some in H as [H|H].
    { destruct (Nat.leb_spec (i * 16 + 64) brute); [|done].
      eapply aes256_xts_explains; [|done|exact H]. rewrite length_drop. lia. }
    eapply rc4_shortkey_explains; [done| |exact H]. rewrite length_drop. lia.
Qed.
End Scan.

End Sound.

(** ** Conviction *)

Record input_ok (inp : sar_engine_input_t) : Prop := {
  io_candidates : Forall (is_block 16) (candidates inp);
  io_sample : forall pt ct, plaintext inp = Some pt -> ciphertext inp = Some ct ->
    sample_ok pt ct (sample_size inp);
  io_scan : forall buf, scan_buffer inp = Some buf -> is_bytes buf /\ (scan_length inp <= length buf)%nat
}.

Lemma cand_in cands c : c ∈ cands -> Forall (is_block 16) cands -> (16 <= length c)%nat /\ is_bytes c.
Proof. intros Hc HF. rewrite Forall_forall in HF. destruct (HF c Hc) as [-> ?]. by split. Qed.

Lemma convict_explains inp v pt ct : input_ok inp -> plaintext inp = Some pt -> ciphertext inp = Some ct ->
  sar_convict (Some inp) = Some v -> explains pt ct (sample_size inp) (file_offset inp) (scanned inp) v.
Proof.
  intros [Hc Hsm Hsc] Hp Hq H. unfold sar_convict in H. rewrite Hp, Hq in H.
  specialize (Hsm pt ct Hp Hq). destruct (_ <? 16)%nat; [done|].
  apply orelse_Some in H as [H|H].
  { apply first_some_Some in H as (c & Hin & H). destruct (negb _); [done|].
    destruct (cand_in _ _ Hin Hc). by eapply single_explains. }
  apply orelse_Some in H as [H|H].
  { apply first_some_Some in H as (i & Hi%elem_of_seq & H). destruct (negb _); [done|].
    apply first_some_Some in H as (j & Hj%elem_of_seq & H). destruct (i =? j)%nat; [done|].
    destruct (cand_block _ i Hc) as [Li Bi]; [lia|]. destruct (cand_block _ j Hc) as [Lj Bj]; [lia|].
    eapply pair_explains; [done| | | | |exact H]; [lia|lia|done|done]. }
  apply orelse_Some in H as [H|H]; [by eapply stream_explains|].
  apply orelse_Some in H as [H|H].
  { apply first_some_Some in H as (c & Hin & H). destruct (negb _); [done|].
    destruct (cand_in _ _ Hin Hc). by eapply rc4_shortkey_explains. }
  destruct (scan_buffer inp) as [buf|] eqn:Es; [|done]. destruct (_ <=? _)%nat; [|done].
  destruct (Hsc buf eq_refl). eapply scan_explains; try done. unfold scanned. by rewrite Es.
Qed.

(** Property C14: the engine convicts only on proof.  Whatever keys, memory and
    sample it is given, the verdict is backed by the part of the sample that the
    engine compares.  The key of the verdict - as the recovery code rebuilds it
    from that verdict - turns the plaintext of that part into its ciphertext: one
    or two blocks at some alignment in the reported block mode, with a vector that
    fits their position in the file; one block in XTS mode; the bytes in the
    first block of the key stream, at least sixteen, for the ChaCha and Salsa20
    families; the whole sample for an RC4 key.  A verdict without a key is RC4
    with a state of the searched memory that turns the whole sample. *)
Theorem convict_sound inp v pt ct : input_ok inp -> plaintext inp = Some pt -> ciphertext inp = Some ct ->
  sar_convict (Some inp) = Some v -> explains pt ct (sample_size inp) (file_offset inp) (scanned inp) v.
Proof. apply convict_explains. Qed.

(** A key the mode search cannot miss. *)
Lemma modes_hit bc pt ct len fo m s : BlockCipher bc -> sample_ok pt ct len -> m ∈ search_order ->
  s ∈ alignments (block_size bc) len (mode_blocks m) -> mode_holds bc m pt ct s ->
  engine_try_block_modes bc pt ct len fo <> None.
Proof.
  intros Hbc Hs Hm Ha Hh Hn. pose proof (try_modes_exact bc pt ct len Hs fo) as He. rewrite Hn in He.
  rewrite Forall_forall in He. by apply (He m Hm s Ha).
Qed.

Lemma orelse_hit_l {A} (a b : option A) : a <> None -> (a <|> b) <> None.
Proof. intros H [? _]%orelse_None. done. Qed.

Lemma orelse_hit_r {A} (a b : option A) : b <> None -> (a <|> b) <> None.
Proof. intros H [_ ?]%orelse_None. done. Qed.

Lemma cipher_hit pt ct len fo v bc k klen alg :
  engine_try_block_modes bc pt ct len fo <> None -> block_try pt ct len fo v bc k klen alg <> None.
Proof. unfold block_try. by destruct (engine_try_block_modes _ _ _ _ _) as [[]|]. Qed.

Lemma aes_window_hit pt ct len fo v k klen alg mb :
  engine_try_block_modes (Aes.aes_cipher k klen) pt ct len fo <> None ->
  aes_window_battery pt ct len fo v k klen alg mb <> None.
Proof.
  intros H. unfold aes_window_battery. apply (first_some_hit _ _ (take klen k)); [by left|].
  apply orelse_hit_l. rewrite (aes_same_key k (take klen k) klen) in H by by rewrite take_take, Nat.min_id.
  by apply cipher_hit.
Qed.

(** The key material an input offers to the block ciphers: a candidate, two of
    them joined, or an expanded AES key anywhere in the scanned memory. *)
Inductive offered (inp : sar_engine_input_t) : Z -> bytes -> nat -> Prop :=
  | offered_single c alg :
      c ∈ candidates inp -> candidate_viable c = true ->
      alg ∈ [SAR_ALG_AES_128; SAR_ALG_SM4; SAR_ALG_CAMELLIA; SAR_ALG_ARIA; SAR_ALG_SEED] ->
      offered inp alg c 16
  | offered_pair i j alg :
      (i < length (candidates inp))%nat -> (j < length (candidates inp))%nat -> i <> j ->
      candidate_viable (cand (candidates inp) i) = true ->
      alg ∈ [SAR_ALG_AES_256; SAR_ALG_CAMELLIA; SAR_ALG_ARIA] ->
      offered inp alg (take 16 (cand (candidates inp) i) ++ take 16 (cand (candidates inp) j)) 32
  | offered_pair_head i j alg :
      (i < length (candidates inp))%nat -> (j < length (candidates inp))%nat -> i <> j ->
      candidate_viable (cand (candidates inp) i) = true -> alg ∈ [SAR_ALG_AES_192; SAR_ALG_3DES] ->
      offered inp alg (take 16 (cand (candidates inp) i) ++ take 8 (cand (candidates inp) j)) 24
  | offered_pair_tail i j alg :
      (i < length (candidates inp))%nat -> (j < length (candidates inp))%nat -> i <> j ->
      candidate_viable (cand (candidates inp) i) = true -> alg ∈ [SAR_ALG_AES_192; SAR_ALG_3DES] ->
      offered inp alg (take 8 (drop 8 (cand (candidates inp) i)) ++ take 16 (cand (candidates inp) j)) 24
  | offered_schedule buf off k klen alg :
      scan_buffer inp = Some buf -> aes_klen alg klen -> (klen <= length k)%nat ->
      let w := Aes.rk (Aes.aes_setkey k klen) in
      (off + length w <= scan_length inp)%nat -> blk buf off (length w) = w ->
      offered inp alg k klen.

Lemma total_words_ge klen : (klen = 16 \/ klen = 24 \/ klen = 32)%nat ->
  (44 <= Aes.total_words (klen / 4))%nat.
Proof. intros [->|[->| ->]]; vm_compute; lia. Qed.

Section Complete.
Context (pt ct : bytes) (len : nat) (fo : Z) (v : verdict).

(** The ciphers of [alg] all reach the mode search. *)
Lemma single_hit k alg bc : alg ∈ [SAR_ALG_AES_128; SAR_ALG_SM4; SAR_ALG_CAMELLIA; SAR_ALG_ARIA; SAR_ALG_SEED] ->
  make_block alg k 16 = Some bc -> engine_try_block_modes bc pt ct len fo <> None ->
  try_block_single pt ct len fo v k <> None.
Proof.
  intros Ha Hm Ht. unfold try_block_single. apply list_elem_of_In in Ha.
  destruct Ha as [<-|[<-|[<-|[<-|[<-|[]]]]]]; injection Hm as <-.
  - by apply orelse_hit_l, aes_window_hit.
  - by apply orelse_hit_r, orelse_hit_l, cipher_hit.
  - by apply orelse_hit_r, orelse_hit_r, orelse_hit_l, cipher_hit.
  - by do 3 apply orelse_hit_r; apply orelse_hit_l, cipher_hit.
  - by do 4 apply orelse_hit_r; apply cipher_hit.
Qed.

Lemma pair32_hit a b alg bc : alg ∈ [SAR_ALG_AES_256; SAR_ALG_CAMELLIA; SAR_ALG_ARIA] ->
  make_block alg (take 16 a ++ take 16 b) 32 = Some bc -> engine_try_block_modes bc pt ct len fo <> None ->
  try_block_pair pt ct len fo v a b <> None.
Proof.
  intros Ha Hm Ht. unfold try_block_pair. apply list_elem_of_In in Ha.
  destruct Ha as [<-|[<-|[<-|[]]]]; injection Hm as <-.
  - by apply orelse_hit_l, aes_window_hit.
  - by do 5 apply orelse_hit_r; apply orelse_hit_l, cipher_hit.
  - by do 6 apply orelse_hit_r; apply orelse_hit_l, cipher_hit.
Qed.

Lemma pair24_hit a b alg bc k : alg ∈ [SAR_ALG_AES_192; SAR_ALG_3DES] ->
  k = take 16 a ++ take 8 b \/ k = take 8 (drop 8 a) ++ take 16 b ->
  make_block alg k 24 = Some bc -> engine_try_block_modes bc pt ct len fo <> None ->
  try_block_pair pt ct len fo v a b <> None.
Proof.
  intros Ha Hk Hm Ht. unfold try_block_pair. apply list_elem_of_In in Ha.
  destruct Ha as [<-|[<-|[]]]; injection Hm as <-; destruct Hk as [-> | ->].
  - by apply orelse_hit_r, orelse_hit_l, aes_window_hit.
  - by do 2 apply orelse_hit_r; apply orelse_hit_l, aes_window_hit.
  - by do 3 apply orelse_hit_r; apply orelse_hit_l, cipher_hit.
  - by do 4 apply orelse_hit_r; apply orelse_hit_l, cipher_hit.
Qed.

Lemma schedule_hit buf buf_len off k klen alg bc : aes_klen alg klen -> (klen <= length k)%nat ->
  (off + length (Aes.rk (Aes.aes_setkey k klen)) <= buf_len)%nat ->
  blk buf off (length (Aes.rk (Aes.aes_setkey k klen))) = Aes.rk (Aes.aes_setkey k klen) ->
  make_block alg k (Z.of_nat klen) = Some bc -> engine_try_block_modes bc pt ct len fo <> None ->
  aes_schedule_scan pt ct len fo v buf buf_len <> None.
Proof.
  intros Ha Hl Ho Hb Hm Ht.
  assert (Hk : (klen = 16 \/ klen = 24 \/ klen = 32)%nat) by (unfold aes_klen in Ha; lia).
  destruct (Aes.setkey_spec k klen Hk Hl) as (Hw & Hp & _).
  set (w := Aes.rk (Aes.aes_setkey k klen)) in *.
  assert (Hbc : bc = Aes.aes_cipher k klen).
  { unfold make_block in Hm. rewrite Nat2Z.id in Hm. by destruct Ha as [[-> _]|[[-> _]|[-> _]]]; injection Hm as <-. }
  assert (Hd : drop off buf = w ++ drop (off + length w) buf).
  { rewrite <- Hb at 1. unfold blk. by rewrite <- drop_drop, take_drop. }
  unfold aes_schedule_scan.
  apply (first_some_hit _ _ off).
  { rewrite offsets_elem by lia. pose proof (total_words_ge klen Hk). lia. }
  apply (first_some_hit _ _ (klen, length w, alg)).
  { rewrite Hw. destruct Ha as [[-> ->]|[[-> ->]|[-> ->]]]; vm_compute; repeat constructor. }
  destruct (Nat.ltb_spec buf_len (off + length w)); [lia|].
  rewrite Hd, (Aes.schedule_prefix_valid k klen _ Hk Hl). cbn [negb].
  apply cipher_hit. rewrite (aes_same_key _ k klen); [by rewrite <- Hbc|].
  rewrite take_app_le; [done|]. pose proof (total_words_ge klen Hk). lia.
Qed.
End Complete.

Lemma convict_hits inp pt ct alg k klen bc m s :
  input_ok inp -> plaintext inp = Some pt -> ciphertext inp = Some ct -> (16 <= sample_size inp)%nat ->
  offered inp alg k klen -> is_bytes k -> make_block alg k (Z.of_nat klen) = Some bc ->
  m ∈ search_order -> s ∈ alignments (block_size bc) (sample_size inp) (mode_blocks m) ->
  mode_holds bc m pt ct s -> sar_convict (Some inp) <> None.
Proof.
  intros [Hc Hsm Hsc] Hp Hq H16 Hof Hkb Hmk Hm Ha Hh. specialize (Hsm pt ct Hp Hq).
  assert (Hbc : BlockCipher bc) by by eapply make_block_cipher.
  pose proof (modes_hit bc pt ct _ (file_offset inp) m s Hbc Hsm Hm Ha Hh) as Ht.
  unfold sar_convict. rewrite Hp, Hq. destruct (Nat.ltb_spec (sample_size inp) 16); [lia|].
  assert (Hpair : forall i j, (i < length (candidates inp))%nat -> (j < length (candidates inp))%nat -> i <> j ->
    candidate_viable (cand (candidates inp) i) = true ->
    try_block_pair pt ct (sample_size inp) (file_offset inp) Verdict.zero
      (cand (candidates inp) i) (cand (candidates inp) j) <> None ->
    first_some (fun i => if negb (candidate_viable (cand (candidates inp) i)) then None
      else first_some (fun j => if (i =? j)%nat then None
        else try_block_pair pt ct (sample_size inp) (file_offset inp) Verdict.zero
          (cand (candidates inp) i) (cand (candidates inp) j)) (seq 0 (length (candidates inp))))
      (seq 0 (length (candidates inp))) <> None).
  { intros i j Hi Hj Hij Hv Ht'. apply (first_some_hit _ _ i); [apply elem_of_seq; lia|]. rewrite Hv. cbn [negb].
    apply (first_some_hit _ _ j); [apply elem_of_seq; lia|]. by destruct (Nat.eqb_spec i j). }
  destruct Hof as [c alg Hin Hv Hal|i j alg Hi Hj Hij Hv Hal|i j alg Hi Hj Hij Hv Hal|i j alg Hi Hj Hij Hv Hal
                  |buf off k klen alg Hb Hal Hl w Ho Hw].
  - apply orelse_hit_l, (first_some_hit _ _ c); [done|]. rewrite Hv. by eapply single_hit.
  - apply orelse_hit_r, orelse_hit_l, (Hpair i j); try done. by eapply pair32_hit.
  - apply orelse_hit_r, orelse_hit_l, (Hpair i j); try done. eapply pair24_hit; [done|by left|done|done].
  - apply orelse_hit_r, orelse_hit_l, (Hpair i j); try done. eapply pair24_hit; [done|by right|done|done].
  - do 4 apply orelse_hit_r. rewrite Hb.
    assert (Hlen : (16 <= scan_length inp)%nat).
    { assert (Hk : (klen = 16 \/ klen = 24 \/ klen = 32)%nat) by (unfold aes_klen in Hal; lia).
      destruct (Aes.setkey_spec k klen Hk Hl) as (Hwl & _). unfold w in Ho. rewrite Hwl in Ho.
      pose proof (total_words_ge klen Hk). lia. }
    destruct (Nat.leb_spec 16 (scan_length inp)); [|lia]. apply orelse_hit_l. by eapply schedule_hit.
Qed.

(** No block cipher key is missed.  If the input offers, as a
    viable candidate, as two candidates joined or as an expanded AES key
    anywhere in the scanned memory, a key under which the sample is explained
    at some alignment in ECB, CBC, CFB, OFB or CTR mode, the engine convicts. *)
Theorem convict_complete inp pt ct alg k klen bc m s :
  input_ok inp -> plaintext inp = Some pt -> ciphertext inp = Some ct -> (16 <= sample_size inp)%nat ->
  offered inp alg k klen -> is_bytes k -> make_block alg k (Z.of_nat klen) = Some bc ->
  m ∈ search_order -> s ∈ alignments (block_size bc) (sample_size inp) (mode_blocks m) ->
  mode_holds bc m pt ct s -> sar_convict (Some inp) <> None.
Proof. apply convict_hits. Qed.

(** An SM4-ECB sample with its key among the candidates. *)
Definition demo_sm4_key : bytes := map Z.of_nat (seq 1 16).

Definition sm4_input : sar_engine_input_t :=
  {| candidates := [replicate 16 0; demo_sm4_key]; scan_buffer := None; scan_length := 0;
     plaintext := Some (replicate 16 3); ciphertext := Some (E (Sm4.sm4_cipher demo_sm4_key) (replicate 16 3));
     sample_size := 16; file_offset := 0 |}.

Lemma sm4_sample_ok : sample_ok (replicate 16 3) (E (Sm4.sm4_cipher demo_sm4_key) (replicate 16 3)) 16.
Proof. split; [by apply forall_u_check; vm_compute|by apply forall_u_check; vm_compute|by vm_compute|by vm_compute]. Qed.

Lemma sm4_input_ok : input_ok sm4_input.
Proof.
  constructor.
  - apply Forall_cons_2; [|apply Forall_cons_2; [|apply Forall_nil_2]];
      (split; [reflexivity|by apply forall_u_check; vm_compute]).
  - intros pt ct Hp Hc. change (Some (replicate 16 3) = Some pt) in Hp.
    change (Some (E (Sm4.sm4_cipher demo_sm4_key) (replicate 16 3)) = Some ct) in Hc.
    apply (inj Some) in Hp, Hc. rewrite <- Hp, <- Hc. exact sm4_sample_ok.
  - done.
Qed.

Lemma convict_sound_witness : exists v, sar_convict (Some sm4_input) = Some v /\
  Verdict.algorithm v = SAR_ALG_SM4 /\
  explains (replicate 16 3) (E (Sm4.sm4_cipher demo_sm4_key) (replicate 16 3)) 16 0 None v.
Proof.
  eexists. split; [vm_compute; reflexivity|]. split; [reflexivity|].
  apply (convict_sound sm4_input _ _ _ sm4_input_ok eq_refl eq_refl). vm_compute. reflexivity.
Defined.

Lemma convict_complete_witness : sar_convict (Some sm4_input) <> None.
Proof.
  apply (convict_complete sm4_input (replicate 16 3) (E (Sm4.sm4_cipher demo_sm4_key) (replicate 16 3))
    SAR_ALG_SM4 demo_sm4_key 16 (Sm4.sm4_cipher demo_sm4_key) SAR_MODE_ECB 0 sm4_input_ok eq_refl eq_refl).
  - done.
  - apply offered_single; [by right; left|by vm_compute|by right; left].
  - by apply forall_u_check; vm_compute.
  - reflexivity.
  - by left.
  - by left.
  - by vm_compute.
Defined.
