(* ===== verification/Capture.v ===== *)
(** * The capture pipeline

    capture/src/capture.c: the gate, the conviction engine, the keystore record
    and the notification, composed the way [sar_capture_run] composes them. *)

From S2P Require Import Prelude Mem Sha256 Format Chain Keystore Gate Protocol CipherCommon.
From S2P Require Import Sm4 Modes Recover RecoverCorrect RecoverProps Battery BatteryCorrect.
Import CtrLayout Modes Layout Recover Battery.

Module Capture.

Inductive sar_capture_outcome_t :=
  | SAR_CAPTURE_INVALID | SAR_CAPTURE_SKIP_GATE | SAR_CAPTURE_NO_CONVICTION | SAR_CAPTURE_CONVICTED.

(** [None] is a NULL pointer. *)
Record sar_capture_request_t := {
  plaintext : option bytes;
  ciphertext : option bytes;
  sample_size : nat;
  file_offset : Z;
  candidates : list bytes;
  scan_buffer : option bytes;
  scan_length : nat;
  provenance_path : option (list Z);
  provenance_offset : Z;
  provenance_length : Z;
  capture_time : Z;
  actor_start_key : Z
}.

(** The message [semantics_ar_verdict_notify_t]. *)
Record notify_t := {
  header : Msg.msg_header;
  n_key_id : bytes;
  n_algorithm : Z;
  n_mode : Z;
  n_mode_params : Z;
  n_provenance_offset : Z;
  n_provenance_path : list Z
}.

Definition SAR_CANDIDATE_SIZE : nat := 16.

Definition sar_capture_build_notify (record : KsRec.semantics_ar_keystore_record_t) : notify_t :=
  {| header := {| Msg.protocol_version := Protocol.SEMANTICS_AR_PROTOCOL_VERSION;
                  Msg.message_type := Protocol.SEMANTICS_AR_MSG_VERDICT_NOTIFY;
                  Msg.message_length := u32 (Protocol.csizeof Protocol.semantics_ar_verdict_notify_t) |};
     n_key_id := take SEMANTICS_AR_KEY_ID_SIZE (KsRec.key_id record);
     n_algorithm := KsRec.algorithm record;
     n_mode := KsRec.mode record;
     n_mode_params := KsRec.mode_params record;
     n_provenance_offset := KsRec.provenance_offset record;
     n_provenance_path := take Protocol.SEMANTICS_AR_PROTO_PATH_MAX (KsRec.provenance_path record) |}.

(** The parts of the result a run fills in; the others stay zeroed ([None]). *)
Record sar_capture_result_t := {
  outcome : sar_capture_outcome_t;
  gate : option Gate.sar_gate_result_t;
  verdict_ : option verdict;
  record : option KsRec.semantics_ar_keystore_record_t;
  notify : option notify_t
}.

Definition sar_capture_result_zero : sar_capture_result_t :=
  {| outcome := SAR_CAPTURE_INVALID; gate := None; verdict_ := None; record := None; notify := None |}.

(** [gate_scratch = None] and [mac_key = None] are NULL pointers. *)
Definition sar_capture_run (req : option sar_capture_request_t) (gate_scratch mac_key : option bytes)
  : sar_capture_result_t :=
  let out := sar_capture_result_zero in
  match req, gate_scratch, mac_key with
  | Some req, Some scratch, Some mac_key =>
    match plaintext req, ciphertext req with
    | Some pt, Some ct =>
      if (sample_size req <? SAR_CANDIDATE_SIZE)%nat then out
      else
        let g := Gate.sar_gate_classify scratch pt ct (sample_size req) in
        if negb (Gate.candidate g)
        then {| outcome := SAR_CAPTURE_SKIP_GATE; gate := Some g; verdict_ := None; record := None;
                notify := None |}
        else
          let inp := {| Battery.candidates := candidates req; Battery.scan_buffer := scan_buffer req;
                        Battery.scan_length := scan_length req; Battery.plaintext := Some pt;
                        Battery.ciphertext := Some ct; Battery.sample_size := sample_size req;
                        Battery.file_offset := file_offset req |} in
          match sar_convict (Some inp) with
          | None => {| outcome := SAR_CAPTURE_NO_CONVICTION; gate := Some g; verdict_ := None;
                       record := None; notify := None |}
          | Some v =>
            let rec := Keystore.sar_keystore_record_init mac_key v (provenance_path req)
              (provenance_offset req) (provenance_length req) (Some pt) (Z.of_nat (sample_size req))
              (file_offset req) (capture_time req) (actor_start_key req) in
            {| outcome := SAR_CAPTURE_CONVICTED; gate := Some g; verdict_ := Some v; record := Some rec;
               notify := Some (sar_capture_build_notify rec) |}
          end
    | _, _ => out
    end
  | _, _, _ => out
  end.

(** ** What a capture promises *)

Record request_ok (req : sar_capture_request_t) (pt ct : bytes) : Prop := {
  rq_plaintext : plaintext req = Some pt;
  rq_ciphertext : ciphertext req = Some ct;
  rq_size : (16 <= sample_size req)%nat /\ Z.of_nat (sample_size req) < 2 ^ 32;
  rq_sample : sample_ok pt ct (sample_size req);
  rq_offset : is_u64 (file_offset req);
  rq_candidates : Forall (is_block 16) (candidates req);
  rq_scan : forall buf, scan_buffer req = Some buf -> is_bytes buf /\ (scan_length req <= length buf)%nat;
  rq_path : forall p, provenance_path req = Some p -> Forall is_u16 p;
  rq_provenance : is_u64 (provenance_offset req) /\ is_u64 (provenance_length req);
  rq_times : is_u64 (capture_time req) /\ is_u64 (actor_start_key req)
}.

Definition engine_input (req : sar_capture_request_t) (pt ct : bytes) : sar_engine_input_t :=
  {| Battery.candidates := candidates req; Battery.scan_buffer := scan_buffer req;
     Battery.scan_length := scan_length req; Battery.plaintext := Some pt; Battery.ciphertext := Some ct;
     Battery.sample_size := sample_size req; Battery.file_offset := file_offset req |}.

Lemma engine_input_ok req pt ct : request_ok req pt ct -> input_ok (engine_input req pt ct).
Proof.
  intros [Hp Hc _ Hs _ Hcd Hsc _ _ _]. constructor; [done| |done]. intros pt' ct' H1 H2.
  cbn in H1, H2. by injection H1 as <-; injection H2 as <-.
Qed.

(** The run of a valid request: gate, engine, record. *)
Lemma capture_run_valid req pt ct scratch mac_key : request_ok req pt ct ->
  let g := Gate.sar_gate_classify scratch pt ct (sample_size req) in
  let r := sar_capture_run (Some req) (Some scratch) (Some mac_key) in
  match sar_convict (Some (engine_input req pt ct)) with
  | Some v =>
    outcome r = (if Gate.candidate g then SAR_CAPTURE_CONVICTED else SAR_CAPTURE_SKIP_GATE) /\
    (Gate.candidate g = true ->
     let rec := Keystore.sar_keystore_record_init mac_key v (provenance_path req)
       (provenance_offset req) (provenance_length req) (Some pt) (Z.of_nat (sample_size req))
       (file_offset req) (capture_time req) (actor_start_key req) in
     verdict_ r = Some v /\ record r = Some rec /\ notify r = Some (sar_capture_build_notify rec))
  | None =>
    outcome r = (if Gate.candidate g then SAR_CAPTURE_NO_CONVICTION else SAR_CAPTURE_SKIP_GATE)
  end.
Proof.
  intros [Hp Hc [H16 _] _ _ _ _ _ _ _] g r. unfold r, sar_capture_run. rewrite Hp, Hc.
  destruct (Nat.ltb_spec (sample_size req) SAR_CANDIDATE_SIZE) as [Hlt|]; [unfold SAR_CANDIDATE_SIZE in Hlt; lia|].
  fold g. fold (engine_input req pt ct).
  destruct (Gate.candidate g), (sar_convict (Some (engine_input req pt ct))); done.
Qed.

(** The message says what the record says, in a message of its declared length. *)
Definition notifies (n : notify_t) (rec : KsRec.semantics_ar_keystore_record_t) : Prop :=
  Msg.message_length (header n) = Msg.sar_msg_expected_length (Msg.message_type (header n)) /\
  n_key_id n = KsRec.key_id rec /\ n_algorithm n = KsRec.algorithm rec /\ n_mode n = KsRec.mode rec /\
  n_mode_params n = KsRec.mode_params rec /\ n_provenance_path n = KsRec.provenance_path rec.

Lemma build_notify_ok rec : Keystore.rec_wf rec -> notifies (sar_capture_build_notify rec) rec.
Proof.
  intros Hw. unfold notifies, sar_capture_build_notify.
  cbn [header n_key_id n_algorithm n_mode n_mode_params n_provenance_path Msg.message_length Msg.message_type].
  pose proof (Keystore.rec_wf_key_id rec Hw) as Hk. destruct (Keystore.keystore_rec_wf_path rec Hw) as [Hp _].
  rewrite !take_ge by (rewrite ?Hk, ?Hp; vm_compute; lia). by split_and!.
Qed.

(** What a conviction leaves behind: a verdict that explains the sample; a
    well-formed record out of which the recovery code reads what it reads out of
    the verdict, and whose verification data accept every file that holds the
    sampled plaintext at the sampled offset; and a message about the record. *)
Definition convicts (req : sar_capture_request_t) (pt ct : bytes) (r : sar_capture_result_t) : Prop :=
  outcome r = SAR_CAPTURE_CONVICTED /\
  exists v rec n, verdict_ r = Some v /\ record r = Some rec /\ notify r = Some n /\
    explains pt ct (sample_size req) (file_offset req) (scanned (engine_input req pt ct)) v /\
    Keystore.rec_wf rec /\ notifies n rec /\
    sar_recovery_key_from_record rec = sar_recovery_key_from_verdict v /\
    forall P, Z.of_nat (length P) < 2 ^ 64 ->
      (Z.to_nat (file_offset req) + sample_size req <= length P)%nat ->
      blk P (Z.to_nat (file_offset req)) (sample_size req) = take (sample_size req) pt ->
      sar_recover_verify (Some P) (Z.of_nat (length P)) (Some (sar_recovery_verify_from_record rec)) =
        SAR_RECOVER_OK.

Lemma convicted_convicts req pt ct scratch mac_key : request_ok req pt ct ->
  outcome (sar_capture_run (Some req) (Some scratch) (Some mac_key)) = SAR_CAPTURE_CONVICTED ->
  convicts req pt ct (sar_capture_run (Some req) (Some scratch) (Some mac_key)).
Proof.
  intros Hok. set (r := sar_capture_run _ _ _). intros Hr.
  pose proof (capture_run_valid req pt ct scratch mac_key Hok) as Hv. cbv zeta in Hv.
  fold r in Hv. pose proof (engine_input_ok req pt ct Hok) as Hi.
  destruct (sar_convict (Some (engine_input req pt ct))) as [v|] eqn:Ev;
    [|rewrite Hr in Hv; by destruct (Gate.candidate _)].
  destruct Hv as [Ho Hv]. destruct (Gate.candidate _); [|by rewrite Hr in Ho]. specialize (Hv eq_refl).
  destruct Hv as (V1 & V2 & V3). pose proof (convict_explains _ _ pt ct Hi eq_refl eq_refl Ev) as Hex.
  destruct Hok as [_ _ [H16 H32] Hs Hfo _ _ Hpath [P1 P2] [T1 T2]].
  assert (Hwf : Verdict.wf v) by apply Hex. split; [exact Hr|].
  eexists v, _, _. split; [exact V1|]. split; [exact V2|]. split; [exact V3|]. split; [exact Hex|].
  set (rec := Keystore.sar_keystore_record_init _ _ _ _ _ _ _ _ _ _).
  assert (Hrw : Keystore.rec_wf rec).
  { apply Keystore.record_init_wf. constructor; try done. unfold is_u. lia. }
  split; [done|]. split; [by apply build_notify_ok|].
  split; [by apply key_from_record_init|].
  intros P HP1 HP2 HP3. unfold rec. unfold is_u in Hfo. rewrite <- (Z2Nat.id (file_offset req)) at 1 by lia.
  apply record_accepts; [lia|done|done|by rewrite HP3].
Qed.

(** Property C13: what a capture leaves behind.  When [sar_capture_run] reports a
    conviction, the verdict explains the sample in the sense of the engine's
    soundness; the record is well formed for the keystore; the recovery code
    reads out of the record exactly the key, mode and vector of the verdict - no
    key if the verdict is an RC4 state; the verification data of the record
    accept every file that holds the sampled plaintext at the sampled offset; and
    the notification is a valid message about that record. *)
Theorem capture_convicted_sound req pt ct scratch mac_key : request_ok req pt ct ->
  outcome (sar_capture_run (Some req) (Some scratch) (Some mac_key)) = SAR_CAPTURE_CONVICTED ->
  convicts req pt ct (sar_capture_run (Some req) (Some scratch) (Some mac_key)).
Proof. apply convicted_convicts. Qed.

Lemma detects req pt ct scratch mac_key alg k klen bc m s :
  request_ok req pt ct -> Gate.candidate (Gate.sar_gate_classify scratch pt ct (sample_size req)) = true ->
  offered (engine_input req pt ct) alg k klen -> is_bytes k -> make_block alg k (Z.of_nat klen) = Some bc ->
  m ∈ search_order -> s ∈ alignments (block_size bc) (sample_size req) (mode_blocks m) ->
  mode_holds bc m pt ct s ->
  convicts req pt ct (sar_capture_run (Some req) (Some scratch) (Some mac_key)).
Proof.
  intros Hok Hg Hof Hk Hmk Hm Ha Hh. apply (convicted_convicts req pt ct scratch mac_key Hok).
  pose proof (capture_run_valid req pt ct scratch mac_key Hok) as Hv. cbv zeta in Hv. rewrite Hg in Hv.
  pose proof (convict_hits (engine_input req pt ct) pt ct alg k klen bc m s (engine_input_ok req pt ct Hok)
    eq_refl eq_refl (proj1 (rq_size _ _ _ Hok)) Hof Hk Hmk Hm Ha Hh) as Hc.
  destruct (sar_convict (Some (engine_input req pt ct))); [apply Hv|done].
Qed.

(** Property C15: an encryption whose key is at hand does not pass unnoticed.  If
    the write is novel enough for the gate, and the request offers a block
    cipher key - a candidate of sixteen bytes that passes the test of candidates,
    two candidates of which the first does, or an expanded AES key anywhere in
    the scanned memory - under which the sample is explained at some alignment
    in ECB, CBC, CFB, OFB or CTR mode, the run ends in a conviction, with a
    verdict that explains the sample, a record of it and a notification. *)
Theorem capture_detects req pt ct scratch mac_key alg k klen bc m s :
  request_ok req pt ct -> Gate.candidate (Gate.sar_gate_classify scratch pt ct (sample_size req)) = true ->
  offered (engine_input req pt ct) alg k klen -> is_bytes k -> make_block alg k (Z.of_nat klen) = Some bc ->
  m ∈ search_order -> s ∈ alignments (block_size bc) (sample_size req) (mode_blocks m) ->
  mode_holds bc m pt ct s ->
  convicts req pt ct (sar_capture_run (Some req) (Some scratch) (Some mac_key)).
Proof. apply detects. Qed.

(** A write that replaces 32 equal bytes by their SM4-ECB encryption. *)
Definition demo_pt : bytes := replicate 32 3.
Definition demo_ct : bytes := let c := E (Sm4.sm4_cipher demo_sm4_key) (replicate 16 3) in c ++ c.

Definition demo_request : sar_capture_request_t :=
  {| plaintext := Some demo_pt; ciphertext := Some demo_ct; sample_size := 32; file_offset := 64;
     candidates := [demo_sm4_key]; scan_buffer := None; scan_length := 0; provenance_path := None;
     provenance_offset := 64; provenance_length := 32; capture_time := 7; actor_start_key := 8 |}.

Lemma demo_request_ok : request_ok demo_request demo_pt demo_ct.
Proof.
  constructor; try reflexivity; try done.
  - by split; vm_compute; [lia|].
  - split; [by apply forall_u_check; vm_compute|by apply forall_u_check; vm_compute|by vm_compute|by vm_compute].
  - apply Forall_cons_2; [|apply Forall_nil_2]. split; [reflexivity|by apply forall_u_check; vm_compute].
Qed.

Definition demo_scratch : bytes := replicate Gate.SAR_GATE_MAP_BYTES 0.

Lemma demo_novel :
  Gate.candidate (Gate.sar_gate_classify demo_scratch demo_pt demo_ct (sample_size demo_request)) = true.
Proof. vm_compute. reflexivity. Qed.

Lemma capture_detects_witness :
  convicts demo_request demo_pt demo_ct
    (sar_capture_run (Some demo_request) (Some demo_scratch) (Some (replicate 32 1))).
Proof.
  apply (capture_detects demo_request demo_pt demo_ct demo_scratch (replicate 32 1) SAR_ALG_SM4 demo_sm4_key 16
    (Sm4.sm4_cipher demo_sm4_key) SAR_MODE_ECB 0 demo_request_ok demo_novel).
  - apply offered_single; [by left|by vm_compute|by right; left].
  - by apply forall_u_check; vm_compute.
  - reflexivity.
  - by left.
  - by left.
  - by vm_compute.
Defined.

Lemma capture_convicted_sound_witness :
  convicts demo_request demo_pt demo_ct
    (sar_capture_run (Some demo_request) (Some demo_scratch) (Some (replicate 32 1))).
Proof.
  apply (capture_convicted_sound demo_request demo_pt demo_ct demo_scratch (replicate 32 1) demo_request_ok).
  vm_compute. reflexivity.
Defined.

End Capture.
