(* ===== verification/EventLog.v ===== *)
(** * The driver's event log

    driver/eventlog.c: a ring of the last 256 events with sequence numbers, read
    by polling.  Each call runs under the log's spin lock, so a call is one step;
    the system time a call reads is its argument.  The specification is the list
    of all events since the log was created. *)

From S2P Require Import Prelude CipherCommon.

Module EventLog.

Definition SAR_EVENTLOG_CAPACITY : nat := 256.

Record SAR_EVENT_RECORD := {
  ev_generation : Z;
  sequence : Z;
  timestamp_100ns : Z;
  actor_start_key : Z;
  event_class : Z
}.

Definition zero_record : SAR_EVENT_RECORD :=
  {| ev_generation := 0; sequence := 0; timestamp_100ns := 0; actor_start_key := 0; event_class := 0 |}.

Record SAR_EVENTLOG := {
  generation : Z;
  next_sequence : Z;
  head : nat;
  count : nat;
  records : list SAR_EVENT_RECORD
}.

(** [None] is [STATUS_INSUFFICIENT_RESOURCES]. *)
Definition SarEventLogCreate (alloc_ok : bool) (now : Z) : option SAR_EVENTLOG :=
  if negb alloc_ok then None
  else
    let g := u64 now in
    Some {| generation := if g =? 0 then 1 else g; next_sequence := 1; head := 0; count := 0;
            records := replicate SAR_EVENTLOG_CAPACITY zero_record |}.

Definition SarEventLogRecord (log : SAR_EVENTLOG) (now EventClass ActorStartKey : Z) : SAR_EVENTLOG :=
  let slot := {| ev_generation := generation log; sequence := next_sequence log;
                 timestamp_100ns := u64 now; actor_start_key := ActorStartKey; event_class := EventClass |} in
  {| generation := generation log;
     next_sequence := u64 (next_sequence log + 1);
     head := (head log + 1) mod SAR_EVENTLOG_CAPACITY;
     count := if (count log <? SAR_EVENTLOG_CAPACITY)%nat then (count log + 1)%nat else count log;
     records := <[head log := slot]> (records log) |}.

Definition slot_at (log : SAR_EVENTLOG) (i : nat) : SAR_EVENT_RECORD := nth i (records log) zero_record.

(** [*Out], [*Valid] and [*Gap]. [EventLog = None] is a NULL pointer. *)
Definition SarEventLogQuery (EventLog : option SAR_EVENTLOG) (QueryGeneration QuerySequence : Z)
  : SAR_EVENT_RECORD * bool * bool :=
  match EventLog with
  | None => (zero_record, false, false)
  | Some log =>
    if (count log =? 0)%nat then (zero_record, false, false)
    else
      let tail := ((head log + SAR_EVENTLOG_CAPACITY - count log) mod SAR_EVENTLOG_CAPACITY)%nat in
      let oldest := sequence (slot_at log tail) in
      let newest := u64 (next_sequence log - 1) in
      if (QueryGeneration =? generation log) && negb ((QueryGeneration =? 0) && (QuerySequence =? 0)) then
        let target := u64 (QuerySequence + 1) in
        if newest <? target then (zero_record, false, false)
        else if target <? oldest then (slot_at log tail, true, true)
        else
          let idx := Z.to_nat (u64 (Z.of_nat tail + u64 (target - oldest)) mod Z.of_nat SAR_EVENTLOG_CAPACITY) in
          (slot_at log idx, true, false)
      else (slot_at log tail, true, negb (QueryGeneration =? 0) || negb (QuerySequence =? 0))
  end.

(** ** The specification *)

(** An event: its time, its class and its actor. *)
Record event := { at_time : Z; class : Z; actor : Z }.

Section History.
Context (g : Z) (Hg : is_u64 g) (Hg0 : g <> 0).

(** The record of the [i]th event since the creation. *)
Definition record_of (h : list event) (i : nat) : SAR_EVENT_RECORD :=
  match h !! i with
  | Some e => {| ev_generation := g; sequence := Z.of_nat i + 1; timestamp_100ns := u64 (at_time e);
                 actor_start_key := actor e; event_class := class e |}
  | None => zero_record
  end.

(** The first event that is still kept. *)
Definition first_kept (h : list event) : nat := length h - SAR_EVENTLOG_CAPACITY.

(** What a query returns: the first event the reader has not seen, and whether it
    has lost events before it. *)
Definition spec_query (h : list event) (qg qs : Z) : SAR_EVENT_RECORD * bool * bool :=
  let o := first_kept h in
  if (length h =? 0)%nat then (zero_record, false, false)
  else if qg =? g then
    let target := u64 (qs + 1) in
    if Z.of_nat (length h) <? target then (zero_record, false, false)
    else if target <? Z.of_nat o + 1 then (record_of h o, true, true)
    else (record_of h (Z.to_nat (target - 1)), true, false)
  else (record_of h o, true, negb (qg =? 0) || negb (qs =? 0)).

(** The log holds the last events of the history [h]. *)
Record holds (log : SAR_EVENTLOG) (h : list event) : Prop := {
  h_generation : generation log = g;
  h_next : next_sequence log = Z.of_nat (length h) + 1;
  h_head : head log = (length h mod SAR_EVENTLOG_CAPACITY)%nat;
  h_count : count log = Nat.min (length h) SAR_EVENTLOG_CAPACITY;
  h_size : length (records log) = SAR_EVENTLOG_CAPACITY;
  h_records : forall i, (first_kept h <= i < length h)%nat ->
    records log !! (i mod SAR_EVENTLOG_CAPACITY)%nat = Some (record_of h i)
}.

(** The cells of different kept events are different. *)
Lemma cells_distinct i j n : (n - SAR_EVENTLOG_CAPACITY <= i < n)%nat -> (i < j < i + SAR_EVENTLOG_CAPACITY)%nat ->
  (i mod SAR_EVENTLOG_CAPACITY)%nat <> (j mod SAR_EVENTLOG_CAPACITY)%nat.
Proof.
  unfold SAR_EVENTLOG_CAPACITY. intros _ Hj He.
  pose proof (Nat.div_mod_eq i 256). pose proof (Nat.div_mod_eq j 256). lia.
Qed.

Lemma record_of_app h e i : (i < length h)%nat -> record_of (h ++ [e]) i = record_of h i.
Proof. intros Hi. unfold record_of. by rewrite lookup_app_l. Qed.

Lemma record_holds log h e : holds log h -> Z.of_nat (length h) + 2 < 2 ^ 64 ->
  holds (SarEventLogRecord log (at_time e) (class e) (actor e)) (h ++ [e]).
Proof.
  intros [H1 H2 H3 H4 H5 H6] Hn. unfold SarEventLogRecord.
  constructor; cbn [generation next_sequence head count records]; rewrite ?length_app; cbn [length].
  - done.
  - rewrite u64_small by (unfold is_u; lia). lia.
  - rewrite H3. rewrite (Nat.Div0.add_mod_idemp_l (length h) 1). done.
  - rewrite H4. destruct (Nat.ltb_spec (length h `min` SAR_EVENTLOG_CAPACITY) SAR_EVENTLOG_CAPACITY); lia.
  - by rewrite length_insert.
  - unfold first_kept. rewrite length_app. cbn [length]. intros i Hi. rewrite H3.
    destruct (decide (i = length h)) as [->|Hne].
    + rewrite list_lookup_insert_eq by (rewrite H5; apply Nat.mod_upper_bound; done).
      unfold record_of. rewrite list_lookup_middle by done. rewrite H1, H2. done.
    + rewrite list_lookup_insert_ne by (apply not_eq_sym, (cells_distinct i (length h) (length h)); lia).
      rewrite record_of_app by lia. apply H6. unfold first_kept. lia.
Qed.

Section Query.
Context (log : SAR_EVENTLOG) (h : list event) (Hh : holds log h).
Context (Hn : Z.of_nat (length h) + 2 < 2 ^ 64) (Hpos : (0 < length h)%nat).

Lemma tail_cell :
  ((head log + SAR_EVENTLOG_CAPACITY - count log) mod SAR_EVENTLOG_CAPACITY)%nat =
  (first_kept h mod SAR_EVENTLOG_CAPACITY)%nat.
Proof.
  destruct Hh as [_ _ -> -> _ _]. unfold first_kept, SAR_EVENTLOG_CAPACITY.
  pose proof (Nat.div_mod_eq (length h) 256). pose proof (Nat.mod_upper_bound (length h) 256).
  destruct (le_lt_dec 256 (length h)) as [Hle|Hlt].
  - rewrite Nat.min_r by done. rewrite Nat.add_sub, Nat.Div0.mod_mod.
    replace (length h) with (length h - 256 + 1 * 256)%nat at 1 by lia. apply Nat.Div0.mod_add.
  - rewrite Nat.min_l by lia. rewrite (Nat.mod_small (length h) 256) by done.
    replace (length h + 256 - length h)%nat with 256%nat by lia.
    replace (length h - 256)%nat with 0%nat by lia. reflexivity.
Qed.

Lemma kept_slot i : (first_kept h <= i < length h)%nat ->
  slot_at log (i mod SAR_EVENTLOG_CAPACITY) = record_of h i.
Proof.
  intros Hi. destruct Hh as [_ _ _ _ _ H6]. unfold slot_at. by rewrite nth_lookup, (H6 i Hi).
Qed.

Lemma first_kept_lt : (first_kept h < length h)%nat.
Proof. unfold first_kept, SAR_EVENTLOG_CAPACITY. lia. Qed.

Lemma record_sequence i : (i < length h)%nat -> sequence (record_of h i) = Z.of_nat i + 1.
Proof. intros Hi. unfold record_of. by destruct (lookup_lt_is_Some_2 h i Hi) as [e ->]. Qed.

(** The ring index of a target sequence number. *)
Lemma target_cell target : Z.of_nat (first_kept h) + 1 <= target <= Z.of_nat (length h) ->
  Z.to_nat (u64 (Z.of_nat (first_kept h mod SAR_EVENTLOG_CAPACITY) +
    u64 (target - (Z.of_nat (first_kept h) + 1))) mod Z.of_nat SAR_EVENTLOG_CAPACITY) =
  (Z.to_nat (target - 1) mod SAR_EVENTLOG_CAPACITY)%nat.
Proof.
  intros Ht.
  assert (Hd : target - (Z.of_nat (first_kept h) + 1) < 256) by (unfold first_kept, SAR_EVENTLOG_CAPACITY in *; lia).
  set (o := first_kept h) in *.
  pose proof (Nat.mod_upper_bound o SAR_EVENTLOG_CAPACITY ltac:(done)) as Hm.
  assert (Ho : (Z.of_nat (o mod SAR_EVENTLOG_CAPACITY) < 256)%Z) by (unfold SAR_EVENTLOG_CAPACITY in *; lia).
  rewrite (u64_small (target - _)) by (unfold is_u; lia). rewrite (u64_small (_ + _)) by (unfold is_u; lia).
  rewrite Nat2Z.inj_mod, Zplus_mod_idemp_l.
  replace (Z.of_nat o + (target - (Z.of_nat o + 1))) with (Z.of_nat (Z.to_nat (target - 1))) by lia.
  by rewrite <- Nat2Z.inj_mod, Nat2Z.id.
Qed.
End Query.

(** A query of the ring answers as the specification does. *)
Lemma query_refines log h qg qs : holds log h -> Z.of_nat (length h) + 2 < 2 ^ 64 -> is_u64 qs ->
  SarEventLogQuery (Some log) qg qs = spec_query h qg qs.
Proof.
  intros Hh Hn Hqs. unfold SarEventLogQuery, spec_query.
  assert (Hc : (count log =? 0)%nat = (length h =? 0)%nat).
  { destruct Hh as [_ _ _ -> _ _]. unfold SAR_EVENTLOG_CAPACITY.
    destruct (Nat.eqb_spec (length h) 0), (Nat.eqb_spec (length h `min` 256) 0); lia. }
  rewrite Hc. destruct (Nat.eqb_spec (length h) 0) as [|Hpos]; [done|].
  rewrite (tail_cell log h Hh), (kept_slot log h Hh) by (pose proof (first_kept_lt h ltac:(lia)); lia).
  pose proof (first_kept_lt h ltac:(lia)) as Hk. rewrite record_sequence by done.
  rewrite (h_generation log h Hh), (h_next log h Hh), Z.add_simpl_r.
  rewrite (u64_small (Z.of_nat (length h))) by (unfold is_u; lia).
  destruct (Z.eqb_spec qg g) as [->|]; [|done].
  replace (g =? 0) with false by (symmetry; by apply Z.eqb_neq). cbn [andb negb].
  destruct (Z.ltb_spec (Z.of_nat (length h)) (u64 (qs + 1))) as [|Hle]; [done|].
  destruct (Z.ltb_spec (u64 (qs + 1)) (Z.of_nat (first_kept h) + 1)) as [|Hge]; [done|].
  rewrite target_cell by (lia || done). rewrite (kept_slot log h Hh) by lia. done.
Qed.

(** Everything recorded after the creation. *)
Definition run (log : SAR_EVENTLOG) (h : list event) : SAR_EVENTLOG :=
  fold_left (fun log e => SarEventLogRecord log (at_time e) (class e) (actor e)) h log.

Lemma run_holds log h0 h : holds log h0 -> Z.of_nat (length (h0 ++ h)) + 2 < 2 ^ 64 -> holds (run log h) (h0 ++ h).
Proof.
  revert log h0. induction h as [|e h IH]; intros log h0 Hh Hn; [by rewrite app_nil_r|].
  cbn [run fold_left]. replace (h0 ++ e :: h) with ((h0 ++ [e]) ++ h) in * by (by rewrite <- app_assoc).
  apply IH; [|done]. apply record_holds; [done|]. rewrite !length_app in Hn. cbn in Hn. lia.
Qed.
End History.

Lemma create_holds now log : SarEventLogCreate true now = Some log ->
  is_u64 (generation log) /\ generation log <> 0 /\ holds (generation log) log [].
Proof.
  intros H. injection H as <-. pose proof (is_u_u64 now) as Hu. cbn [generation].
  destruct (Z.eqb_spec (u64 now) 0) as [|Hne].
  - split; [unfold is_u; lia|]. split; [lia|]. constructor; try done. cbn. intros i Hi. lia.
  - split; [done|]. split; [done|]. constructor; try done. cbn. intros i Hi. lia.
Qed.

(** The event log refines the list of all events.  After any
    sequence of recorded events (short of 2^64), whatever position a reader
    asks from, [SarEventLogQuery] on the ring returns what the specification
    [spec_query] reads off the complete history: the next event after the
    reader's position, or the oldest one kept with the gap flag. *)
Theorem eventlog_refines_history now log h qg qs :
  SarEventLogCreate true now = Some log -> Z.of_nat (length h) + 2 < 2 ^ 64 -> is_u64 qs ->
  SarEventLogQuery (Some (run log h)) qg qs = spec_query (generation log) h qg qs.
Proof.
  intros Hc Hn Hq. destruct (create_holds now log Hc) as (Hu & H0 & Hh).
  apply query_refines; [done| |done|done]. by apply (run_holds (generation log) log []).
Qed.

(** ** Reading by polling *)

(** [n] polls, each from the position of the last event received. *)
Fixpoint poll (n : nat) (log : SAR_EVENTLOG) (qg qs : Z) : list SAR_EVENT_RECORD :=
  match n with
  | O => []
  | S n =>
    let '(out, valid, _) := SarEventLogQuery (Some log) qg qs in
    if valid then out :: poll n log (ev_generation out) (sequence out) else []
  end.

Lemma poll_from g log h n i : is_u64 g -> g <> 0 -> holds g log h -> Z.of_nat (length h) + 2 < 2 ^ 64 ->
  (first_kept h <= i <= length h)%nat -> (length h - i <= n)%nat ->
  poll n log g (Z.of_nat i) = map (record_of g h) (seq i (length h - i)).
Proof.
  intros Hu H0 Hh Hn. revert i. induction n as [|n IH]; intros i Hi Hl.
  { by replace (length h - i)%nat with 0%nat by lia. }
  cbn [poll]. rewrite (query_refines g H0 log h) by (done || (unfold is_u; lia)). unfold spec_query.
  rewrite Z.eqb_refl, u64_small by (unfold is_u; lia).
  destruct (Nat.eqb_spec (length h) 0) as [->|]; [done|].
  destruct (Z.ltb_spec (Z.of_nat (length h)) (Z.of_nat i + 1)) as [Hend|Hlt].
  { by replace (length h - i)%nat with 0%nat by lia. }
  destruct (Z.ltb_spec (Z.of_nat i + 1) (Z.of_nat (first_kept h) + 1)); [lia|].
  replace (Z.to_nat (Z.of_nat i + 1 - 1)) with i by lia.
  replace (length h - i)%nat with (S (length h - S i)) by lia. cbn [seq map]. f_equal.
  rewrite record_sequence by lia.
  replace (ev_generation (record_of g h i)) with g
    by (unfold record_of; by destruct (lookup_lt_is_Some_2 h i ltac:(lia)) as [e ->]).
  replace (Z.of_nat i + 1) with (Z.of_nat (S i)) by lia. apply IH; lia.
Qed.

(** Polling delivers every kept event once and in order.  A reader
    that starts with no position and asks again from each event it receives gets
    exactly the last 256 events of the history, oldest first, and then nothing. *)
Theorem eventlog_poll_delivers now log h n :
  SarEventLogCreate true now = Some log -> Z.of_nat (length h) + 2 < 2 ^ 64 ->
  (SAR_EVENTLOG_CAPACITY < n)%nat ->
  poll n (run log h) 0 0 =
    map (record_of (generation log) h) (seq (first_kept h) (length h - first_kept h)).
Proof.
  intros Hc Hn Hcap. destruct (create_holds now log Hc) as (Hu & H0 & Hh).
  pose proof (run_holds (generation log) log [] h Hh Hn) as Hr. cbn [app] in Hr.
  destruct n as [|n]; [lia|]. cbn [poll]. rewrite (query_refines _ H0 _ _ 0 0 Hr Hn) by (unfold is_u; lia).
  unfold spec_query. destruct (Nat.eqb_spec (length h) 0) as [Hz|Hz].
  { by replace (length h - first_kept h)%nat with 0%nat by lia. }
  destruct (Z.eqb_spec 0 (generation log)); [lia|].
  pose proof (first_kept_lt h ltac:(lia)) as Hk.
  replace (length h - first_kept h)%nat with (S (length h - S (first_kept h))) by lia. cbn [seq map]. f_equal.
  rewrite record_sequence by done.
  replace (ev_generation (record_of (generation log) h (first_kept h))) with (generation log)
    by (unfold record_of; by destruct (lookup_lt_is_Some_2 h (first_kept h) Hk) as [e ->]).
  replace (Z.of_nat (first_kept h) + 1) with (Z.of_nat (S (first_kept h))) by lia.
  apply poll_from; [done|done|done|done|lia|]. unfold first_kept, SAR_EVENTLOG_CAPACITY in *. lia.
Qed.

Definition demo_events : list event := [{| at_time := 5; class := 1; actor := 9 |}; {| at_time := 6; class := 5; actor := 0 |}].
Definition demo_log : SAR_EVENTLOG := default {| generation := 0; next_sequence := 0; head := 0; count := 0; records := [] |} (SarEventLogCreate true 100).

Lemma eventlog_refines_history_witness :
  SarEventLogQuery (Some (run demo_log demo_events)) 100 1 = spec_query 100 demo_events 100 1 /\
  spec_query 100 demo_events 100 1 =
    ({| ev_generation := 100; sequence := 2; timestamp_100ns := 6; actor_start_key := 0; event_class := 5 |},
     true, false).
Proof.
  split; [|by vm_compute]. apply (eventlog_refines_history 100 demo_log demo_events); [reflexivity|by vm_compute|].
  by split; vm_compute.
Defined.

Lemma eventlog_poll_delivers_witness :
  map event_class (poll 300 (run demo_log demo_events) 0 0) = [1; 5].
Proof.
  rewrite (eventlog_poll_delivers 100 demo_log demo_events 300); [by vm_compute|reflexivity|by vm_compute|].
  apply Nat.ltb_lt. by vm_compute.
Defined.

End EventLog.
