(* ===== verification/DriverState.v ===== *)
(** * The driver's process table

    driver/state.c: the operating mode, the allow-list and the table of process
    identities behind their locks; driver/processnotify.c: what the driver
    records when a process starts or ends; driver/obguard.c: the filter on
    handles to exempt processes.

    A call that takes one lock is one step.  [SarStateIdentityInsert] and
    [SarStateIdentityApplyVerdict] first consult the allow-list and then, under
    another lock, change the table; each is two steps, and the theorems are about
    every interleaving of the steps of concurrent calls.  What the kernel answers
    (the process id and the start key of a process object, the name of an image,
    the protection level of a process) is an argument. *)

From stdpp Require Import gmap.
From S2P Require Import Prelude Mem Format Protocol Handshake Whitelist CipherCommon EventLog.
Import Mem Layout Protocol Whitelist.

Module DriverState.

Definition SAR_WHITELIST_CAPACITY : Z := 256.
Definition SAR_IDENTITY_BUCKET_COUNT : Z := 1024.

Definition SAR_EVENT_CLASS_MODE_CHANGED : Z := 5.
Definition SAR_EVENT_CLASS_WHITELIST_ADDED : Z := 6.
Definition SAR_EVENT_CLASS_WHITELIST_REMOVED : Z := 7.
Definition SAR_EVENT_CLASS_BLOCK_INJECTION : Z := 8.

(** The [NTSTATUS] values the modelled part of the driver returns. *)
Inductive NTSTATUS :=
  | STATUS_SUCCESS | STATUS_INSUFFICIENT_RESOURCES | STATUS_OBJECT_NAME_COLLISION
  | STATUS_INVALID_PARAMETER | STATUS_INVALID_DEVICE_STATE | STATUS_BUFFER_TOO_SMALL
  | STATUS_UNSUCCESSFUL | STATUS_REQUEST_NOT_ACCEPTED | STATUS_REVISION_MISMATCH
  | STATUS_ACCESS_DENIED | STATUS_PORT_DISCONNECTED | STATUS_DEVICE_NOT_READY | STATUS_NOT_FOUND
  | STATUS_DATA_ERROR | STATUS_FILE_TOO_LARGE | STATUS_OBJECT_NAME_NOT_FOUND
  | STATUS_OBJECT_PATH_NOT_FOUND | STATUS_OBJECT_PATH_INVALID.

#[global] Instance NTSTATUS_eq_dec : EqDecision NTSTATUS.
Proof. solve_decision. Defined.

Definition NT_SUCCESS (s : NTSTATUS) : bool := bool_decide (s = STATUS_SUCCESS).

#[global] Instance sar_id_state_eq_dec : EqDecision sar_id_state_t.
Proof. solve_decision. Defined.

(** Handles, process objects and start keys are integers; 0 is NULL. *)
Record SAR_IDENTITY_ENTRY := {
  process_id : Z;
  process : Z;
  start_key : Z;
  id_state : sar_id_state_t;
  identity : sar_identity_t;
  identity_valid : bool;
  subsystem_process : bool;
  protected_trusted : bool;
  phantom_evidence : Z
}.

(** Each bucket lists its entries from the head. *)
Record SAR_STATE := {
  mode : Z;
  whitelist : sar_whitelist_t;
  identity_buckets : list (list SAR_IDENTITY_ENTRY);
  identity_bucket_count : Z;
  captured_key_count : Z
}.

Abbreviation eventlog := (option EventLog.SAR_EVENTLOG).

(** [SarEventLogRecord(g_sar.eventlog, ...)], which does nothing on NULL. *)
Definition log_event (log : eventlog) (now cls actor : Z) : eventlog :=
  match log with
  | Some l => Some (EventLog.SarEventLogRecord l now cls actor)
  | None => None
  end.

Definition set_mode (m : Z) (st : SAR_STATE) : SAR_STATE :=
  {| mode := m; whitelist := whitelist st; identity_buckets := identity_buckets st;
     identity_bucket_count := identity_bucket_count st; captured_key_count := captured_key_count st |}.
Definition set_whitelist (wl : sar_whitelist_t) (st : SAR_STATE) : SAR_STATE :=
  {| mode := mode st; whitelist := wl; identity_buckets := identity_buckets st;
     identity_bucket_count := identity_bucket_count st; captured_key_count := captured_key_count st |}.
Definition set_buckets (b : list (list SAR_IDENTITY_ENTRY)) (st : SAR_STATE) : SAR_STATE :=
  {| mode := mode st; whitelist := whitelist st; identity_buckets := b;
     identity_bucket_count := identity_bucket_count st; captured_key_count := captured_key_count st |}.

Definition SarIdentityHash (ProcessId BucketCount : Z) : Z :=
  let value := ProcessId in
  let value := value ⊕ (value .>> 13) in
  let value := u64 (value * 0x9E3779B1) in
  u32 (value mod BucketCount).

(** The arguments say which of the four allocations succeed. *)
Definition SarStateCreate (state_ok storage_ok first_seen_ok buckets_ok : bool) : option SAR_STATE :=
  if state_ok && storage_ok && first_seen_ok && buckets_ok then
    Some {| mode := SEMANTICS_AR_MODE_AUDIT;
            whitelist := sar_whitelist_init true SAR_WHITELIST_CAPACITY;
            identity_buckets := replicate (Z.to_nat SAR_IDENTITY_BUCKET_COUNT) [];
            identity_bucket_count := SAR_IDENTITY_BUCKET_COUNT;
            captured_key_count := 0 |}
  else None.

(** ** Mode and allow-list *)

Definition SarStateModeGet (st : SAR_STATE) : Z := mode st.

Definition SarStateModeSet (st : SAR_STATE) (log : eventlog) (now RequestedMode : Z)
  : bool * SAR_STATE * eventlog :=
  let '(ok, local) := Mode.sar_mode_set {| Mode.mode := mode st |} RequestedMode in
  if negb ok then (false, st, log)
  else (true, set_mode (Mode.mode local) st, log_event log now SAR_EVENT_CLASS_MODE_CHANGED 0).

(** [precise] is the time stored with the entry, [now] the time of the event. *)
Definition SarStateWhitelistAdd (st : SAR_STATE) (log : eventlog) (precise now : Z) (Identity : sar_identity_t)
  : sar_wl_status_t * SAR_STATE * eventlog :=
  let '(status, wl) := sar_whitelist_add (whitelist st) Identity (u64 precise) in
  (status, set_whitelist wl st,
   if decide (status = SAR_WL_OK) then log_event log now SAR_EVENT_CLASS_WHITELIST_ADDED 0 else log).

Definition SarStateWhitelistRemove (st : SAR_STATE) (log : eventlog) (now : Z) (Identity : sar_identity_t)
  : sar_wl_status_t * SAR_STATE * eventlog :=
  let '(status, wl) := sar_whitelist_remove (whitelist st) Identity in
  (status, set_whitelist wl st,
   if decide (status = SAR_WL_OK) then log_event log now SAR_EVENT_CLASS_WHITELIST_REMOVED 0 else log).

(** Status, [*OutTotal], and the entry with [*OutFirstSeen]. *)
Definition SarStateWhitelistEnumerate (st : SAR_STATE) (Index : Z)
  : sar_wl_status_t * Z * option (sar_identity_t * Z) :=
  let '(status, out) := sar_whitelist_enumerate (whitelist st) Index in
  (status, Z.of_nat (length (entries (whitelist st))), out).

Definition SarStateWhitelistMatch (st : SAR_STATE) (Identity : sar_identity_t) : bool :=
  sar_whitelist_match (whitelist st) Identity.

Definition SarIdentityIsInterpreter (Identity : sar_identity_t) : bool :=
  Interpreter.sar_identity_is_interpreter (Some (image_path Identity)).

(** ** The identity table *)

Definition bucket_of (st : SAR_STATE) (pid : Z) : nat :=
  Z.to_nat (SarIdentityHash pid (identity_bucket_count st)).

Definition bucket (st : SAR_STATE) (b : nat) : list SAR_IDENTITY_ENTRY := nth b (identity_buckets st) [].

(** The position of an entry in its bucket and the entry. *)
Definition SarIdentityFindLocked (st : SAR_STATE) (ProcessId : Z) : option (nat * SAR_IDENTITY_ENTRY) :=
  list_find (fun id => process_id id = ProcessId) (bucket st (bucket_of st ProcessId)).

(** Writing through the pointer to the entry at position [i] of bucket [b]. *)
Definition put_entry (st : SAR_STATE) (b i : nat) (e : SAR_IDENTITY_ENTRY) : SAR_STATE :=
  set_buckets (<[b := <[i := e]> (bucket st b)]> (identity_buckets st)) st.

Section Kernel.
Context (PsGetProcessId PsGetProcessStartKey : Z -> Z).

Definition SarIdentityFindByProcessLocked (st : SAR_STATE) (Process : Z) : option (nat * SAR_IDENTITY_ENTRY) :=
  list_find (fun id => process id = Process) (bucket st (bucket_of st (PsGetProcessId Process))).

Definition zero_identity : sar_identity_t :=
  {| image_path := replicate SEMANTICS_AR_PROTO_PATH_MAX 0;
     cert_subject := replicate SEMANTICS_AR_PROTO_SUBJECT_MAX 0;
     content_hash := replicate SEMANTICS_AR_CONTENT_HASH_SIZE 0 |}.

(** The first part of an insertion: the new entry, with the allow-list's answer. *)
Definition new_entry (st : SAR_STATE) (ProcessId Process : Z) (Identity : option sar_identity_t)
    (IdentityValid SubsystemProcess ProtectedTrusted : bool) : SAR_IDENTITY_ENTRY :=
  let whitelist_hit :=
    match Identity with
    | Some id => IdentityValid && SarStateWhitelistMatch st id
    | None => false
    end in
  {| process_id := ProcessId; process := Process; start_key := PsGetProcessStartKey Process;
     id_state := if ProtectedTrusted then SAR_IDSTATE_EXEMPT
                 else sar_identity_resolve IdentityValid whitelist_hit;
     identity := default zero_identity Identity;
     identity_valid := IdentityValid; subsystem_process := SubsystemProcess;
     protected_trusted := ProtectedTrusted; phantom_evidence := 0 |}.

(** The second part, under the identity lock. *)
Definition link_entry (st : SAR_STATE) (entry : SAR_IDENTITY_ENTRY) : NTSTATUS * SAR_STATE :=
  match SarIdentityFindLocked st (process_id entry) with
  | Some _ => (STATUS_OBJECT_NAME_COLLISION, st)
  | None =>
    let b := bucket_of st (process_id entry) in
    (STATUS_SUCCESS, set_buckets (<[b := entry :: bucket st b]> (identity_buckets st)) st)
  end.

Definition SarStateIdentityInsert (alloc_ok : bool) (st : SAR_STATE) (ProcessId Process : Z)
    (Identity : option sar_identity_t) (IdentityValid SubsystemProcess ProtectedTrusted : bool)
  : NTSTATUS * SAR_STATE :=
  if negb alloc_ok then (STATUS_INSUFFICIENT_RESOURCES, st)
  else link_entry st (new_entry st ProcessId Process Identity IdentityValid SubsystemProcess ProtectedTrusted).

Definition SarStateIdentityRemove (st : SAR_STATE) (ProcessId : Z) : SAR_STATE :=
  match SarIdentityFindLocked st ProcessId with
  | Some (i, _) =>
    let b := bucket_of st ProcessId in
    set_buckets (<[b := delete i (bucket st b)]> (identity_buckets st)) st
  | None => st
  end.

(** The result, [*StartKey] and [*IdState]. *)
Definition SarStateIdentityQuery (st : SAR_STATE) (ProcessId : Z) : bool * Z * sar_id_state_t :=
  match SarIdentityFindLocked st ProcessId with
  | Some (_, e) => (true, start_key e, id_state e)
  | None => (false, 0, SAR_IDSTATE_OBSERVE_PENDING)
  end.

(** [None] is FALSE, with [OutPath] zeroed. *)
Definition SarStateImageByStartKey (st : SAR_STATE) (StartKey : Z) : option (list Z) :=
  if StartKey =? 0 then None
  else
    first_some (fun b =>
      match list_find (fun e => start_key e = StartKey /\ identity_valid e = true) b with
      | Some (_, e) => Some (take SEMANTICS_AR_PROTO_PATH_MAX (image_path (identity e)))
      | None => None
      end) (identity_buckets st).

Definition SarStateIdentityLookup (st : SAR_STATE) (ProcessId : Z) : sar_id_state_t :=
  match SarIdentityFindLocked st ProcessId with
  | Some (_, e) => id_state e
  | None => SAR_IDSTATE_OBSERVE_PENDING
  end.

(** The first part of a verdict: the checks that need no entry. *)
Definition verdict_allowed (st : SAR_STATE) (StartKey : Z) (VerifiedIdentity : sar_identity_t) : bool :=
  negb ((StartKey =? 0) || negb (SarStateWhitelistMatch st VerifiedIdentity) ||
        SarIdentityIsInterpreter VerifiedIdentity).

Definition exempt_entry (e : SAR_IDENTITY_ENTRY) (id : sar_identity_t) : SAR_IDENTITY_ENTRY :=
  {| process_id := process_id e; process := process e; start_key := start_key e;
     id_state := SAR_IDSTATE_EXEMPT; identity := id; identity_valid := true;
     subsystem_process := subsystem_process e; protected_trusted := protected_trusted e;
     phantom_evidence := phantom_evidence e |}.

(** The second part, under the identity lock. *)
Definition apply_verdict (st : SAR_STATE) (ProcessId StartKey : Z) (VerifiedIdentity : sar_identity_t)
  : bool * SAR_STATE :=
  match SarIdentityFindLocked st ProcessId with
  | Some (i, e) =>
    if start_key e =? StartKey
    then (true, put_entry st (bucket_of st ProcessId) i (exempt_entry e VerifiedIdentity))
    else (false, st)
  | None => (false, st)
  end.

Definition SarStateIdentityApplyVerdict (st : SAR_STATE) (ProcessId StartKey : Z)
    (VerifiedIdentity : sar_identity_t) : bool * SAR_STATE :=
  if negb (verdict_allowed st StartKey VerifiedIdentity) then (false, st)
  else apply_verdict st ProcessId StartKey VerifiedIdentity.

(** The result and [*StartKey]. *)
Definition SarStateProtectedTarget (st : SAR_STATE) (Target : Z) : bool * Z :=
  match SarIdentityFindByProcessLocked st Target with
  | Some (_, e) => if decide (id_state e = SAR_IDSTATE_EXEMPT) then (true, start_key e) else (false, 0)
  | None => (false, 0)
  end.

Definition SarStateOpenerTrusted (st : SAR_STATE) (Opener : Z) : bool :=
  match SarIdentityFindByProcessLocked st Opener with
  | Some (_, e) => protected_trusted e
  | None => false
  end.

Definition observed_entry (e : SAR_IDENTITY_ENTRY) : SAR_IDENTITY_ENTRY :=
  {| process_id := process_id e; process := process e; start_key := start_key e;
     id_state := SAR_IDSTATE_OBSERVE; identity := identity e; identity_valid := identity_valid e;
     subsystem_process := subsystem_process e; protected_trusted := protected_trusted e;
     phantom_evidence := phantom_evidence e |}.

(** The result, [*StartKey] and the state. *)
Definition SarStateRevokeExemption (st : SAR_STATE) (ProcessId : Z) : bool * Z * SAR_STATE :=
  match SarIdentityFindLocked st ProcessId with
  | Some (i, e) =>
    if bool_decide (id_state e = SAR_IDSTATE_EXEMPT) && negb (protected_trusted e)
    then (true, start_key e, put_entry st (bucket_of st ProcessId) i (observed_entry e))
    else (false, 0, st)
  | None => (false, 0, st)
  end.

(** ** Process notifications *)

(** What the process manager passes to the callback when a process starts;
    [FileObject = None] and [ImageFileName = false] are NULL. *)
Record PS_CREATE_NOTIFY_INFO := {
  FileObject : option Z;
  ImageFileName : bool;
  FileOpenNameAvailable : bool
}.

Record PS_PROTECTION := { prot_Type : Z; prot_Signer : Z }.

Definition PsProtectedTypeNone : Z := 0.
Definition PsProtectedSignerAntimalware : Z := 3.
Definition PsProtectedSignerWindows : Z := 5.
Definition PsProtectedSignerWinTcb : Z := 6.
Definition PsProtectedSignerWinSystem : Z := 7.

(** [None]: the process could not be opened or queried. *)
Definition SarProcessProtectedTrusted (prot : option PS_PROTECTION) : bool :=
  match prot with
  | None => false
  | Some p =>
    if prot_Type p =? PsProtectedTypeNone then false
    else (prot_Signer p =? PsProtectedSignerWinSystem) || (prot_Signer p =? PsProtectedSignerWinTcb) ||
         (prot_Signer p =? PsProtectedSignerWindows) || (prot_Signer p =? PsProtectedSignerAntimalware)
  end.

(** The normalised name of a file object; [None] when the filter manager cannot
    give or parse it. *)
Context (FltNormalizedName : Z -> option (list Z)).

Definition SarCaptureCanonicalIdentity (CreateInfo : PS_CREATE_NOTIFY_INFO) : sar_identity_t * bool :=
  match FileObject CreateInfo with
  | None => (zero_identity, false)
  | Some fo =>
    if negb (FileOpenNameAvailable CreateInfo) then (zero_identity, false)
    else
      match FltNormalizedName fo with
      | None => (zero_identity, false)
      | Some name =>
        let count := if (SEMANTICS_AR_PROTO_PATH_MAX <=? length name)%nat
                     then (SEMANTICS_AR_PROTO_PATH_MAX - 1)%nat else length name in
        ({| image_path := <[count := 0]> (mem_write (image_path zero_identity) 0 (take count name));
            cert_subject := cert_subject zero_identity; content_hash := content_hash zero_identity |}, true)
      end
  end.

(** The entry of a starting process. *)
Definition created_entry (st : SAR_STATE) (Process ProcessId : Z) (CreateInfo : PS_CREATE_NOTIFY_INFO)
    (prot : option PS_PROTECTION) : SAR_IDENTITY_ENTRY :=
  let subsystem := bool_decide (FileObject CreateInfo = None) && negb (ImageFileName CreateInfo) in
  let '(id, valid) := if negb subsystem then SarCaptureCanonicalIdentity CreateInfo
                      else (zero_identity, false) in
  new_entry st ProcessId Process (if valid then Some id else None) valid subsystem
    (SarProcessProtectedTrusted prot).

(** [CreateInfo = None] is the end of a process.  Reference counts of process
    objects are the kernel's. *)
Definition SarCreateProcessNotifyEx (alloc_ok : bool) (st : SAR_STATE) (Process ProcessId : Z)
    (CreateInfo : option PS_CREATE_NOTIFY_INFO) (prot : option PS_PROTECTION) : SAR_STATE :=
  match CreateInfo with
  | None => SarStateIdentityRemove st ProcessId
  | Some info =>
    let subsystem := bool_decide (FileObject info = None) && negb (ImageFileName info) in
    let '(id, valid) := if negb subsystem then SarCaptureCanonicalIdentity info
                        else (zero_identity, false) in
    (SarStateIdentityInsert alloc_ok st ProcessId Process (if valid then Some id else None) valid subsystem
       (SarProcessProtectedTrusted prot)).2
  end.

(** ** Handles to exempt processes *)

Definition PROCESS_CREATE_THREAD : Z := 0x0002.
Definition PROCESS_VM_OPERATION : Z := 0x0008.
Definition PROCESS_VM_WRITE : Z := 0x0020.
Definition PROCESS_DUP_HANDLE : Z := 0x0040.
Definition PROCESS_CREATE_PROCESS : Z := 0x0080.
Definition PROCESS_SET_INFORMATION : Z := 0x0200.
Definition PROCESS_SUSPEND_RESUME : Z := 0x0800.
Definition THREAD_SUSPEND_RESUME : Z := 0x0002.
Definition THREAD_SET_CONTEXT : Z := 0x0010.
Definition THREAD_SET_INFORMATION : Z := 0x0020.
Definition THREAD_SET_THREAD_TOKEN : Z := 0x0080.
Definition THREAD_IMPERSONATE : Z := 0x0100.
Definition THREAD_DIRECT_IMPERSONATION : Z := 0x0200.

Definition SAR_PROCESS_INJECT_MASK : Z :=
  PROCESS_VM_WRITE .| PROCESS_VM_OPERATION .| PROCESS_CREATE_THREAD .|
  PROCESS_DUP_HANDLE .| PROCESS_CREATE_PROCESS .| PROCESS_SET_INFORMATION .|
  PROCESS_SUSPEND_RESUME.

Definition SAR_THREAD_INJECT_MASK : Z :=
  THREAD_SET_CONTEXT .| THREAD_SUSPEND_RESUME .| THREAD_SET_INFORMATION .|
  THREAD_SET_THREAD_TOKEN .| THREAD_IMPERSONATE .| THREAD_DIRECT_IMPERSONATION.

(** A process, a thread with the process that owns it, or another object. *)
Inductive ob_object := ObProcess (p : Z) | ObThread (owner : Z) | ObOther.

Inductive ob_operation :=
  | OB_OPERATION_HANDLE_CREATE | OB_OPERATION_HANDLE_DUPLICATE (TargetProcess : Z) | OB_OPERATION_OTHER.

Record OB_PRE_OPERATION_INFORMATION := {
  KernelHandle : bool;
  Object : ob_object;
  Operation : ob_operation;
  DesiredAccess : Z
}.

(** The target process and the rights to strip. *)
Definition ob_target (o : ob_object) : option (Z * Z) :=
  match o with
  | ObProcess p => Some (p, SAR_PROCESS_INJECT_MASK)
  | ObThread p => Some (p, SAR_THREAD_INJECT_MASK)
  | ObOther => None
  end.

(** The process that will own the handle. *)
Definition ob_opener (op : ob_operation) (current : Z) : option Z :=
  match op with
  | OB_OPERATION_HANDLE_CREATE => Some current
  | OB_OPERATION_HANDLE_DUPLICATE p => Some p
  | OB_OPERATION_OTHER => None
  end.

(** The granted access and the log; [current] is the calling process. *)
Definition SarObPreOperation (st : SAR_STATE) (log : eventlog) (now current : Z)
    (Info : OB_PRE_OPERATION_INFORMATION) : Z * eventlog :=
  let desired := DesiredAccess Info in
  if KernelHandle Info then (desired, log)
  else
    match ob_target (Object Info) with
    | None => (desired, log)
    | Some (target, strip) =>
      if target =? 0 then (desired, log)
      else
        let '(protected, key) := SarStateProtectedTarget st target in
        if negb protected then (desired, log)
        else
          match ob_opener (Operation Info) current with
          | None => (desired, log)
          | Some opener =>
            if opener =? target then (desired, log)
            else if negb (opener =? 0) && SarStateOpenerTrusted st opener then (desired, log)
            else if desired .& strip =? 0 then (desired, log)
            else
              (if SarStateModeGet st =? SEMANTICS_AR_MODE_ENFORCE
               then desired .& u32 (Z.lnot strip) else desired,
               log_event log now SAR_EVENT_CLASS_BLOCK_INJECTION key)
          end
    end.

End Kernel.

(** ** The table as a map from process ids to entries *)

Definition all_entries (st : SAR_STATE) : list SAR_IDENTITY_ENTRY := concat (identity_buckets st).

Definition map_of (l : list SAR_IDENTITY_ENTRY) : gmap Z SAR_IDENTITY_ENTRY :=
  list_to_map ((fun e => (process_id e, e)) <$> l).

Definition table (st : SAR_STATE) : gmap Z SAR_IDENTITY_ENTRY := map_of (all_entries st).

Record table_ok (st : SAR_STATE) : Prop := {
  t_count : identity_bucket_count st = SAR_IDENTITY_BUCKET_COUNT;
  t_length : length (identity_buckets st) = Z.to_nat SAR_IDENTITY_BUCKET_COUNT;
  t_hash : forall b e, e ∈ bucket st b -> bucket_of st (process_id e) = b;
  t_nodup : NoDup (process_id <$> all_entries st)
}.

Lemma keys_of l : ((fun e => (process_id e, e)) <$> l).*1 = process_id <$> l.
Proof. rewrite <- list_fmap_compose. done. Qed.

Lemma map_of_perm l l' : NoDup (process_id <$> l) -> l ≡ₚ l' -> map_of l = map_of l'.
Proof. intros Hn Hp. apply list_to_map_proper; [by rewrite keys_of|]. by rewrite Hp. Qed.

Lemma map_of_lookup l e : NoDup (process_id <$> l) -> e ∈ l -> map_of l !! process_id e = Some e.
Proof.
  intros Hn He. apply elem_of_list_to_map_1; [by rewrite keys_of|].
  by apply (list_elem_of_fmap_2 (fun e => (process_id e, e))).
Qed.

Lemma map_of_fresh l pid : (forall e, e ∈ l -> process_id e <> pid) -> map_of l !! pid = None.
Proof.
  intros Hf. apply not_elem_of_list_to_map_1. rewrite keys_of.
  intros (e & -> & He)%list_elem_of_fmap. by apply (Hf e He).
Qed.

Lemma bucket_of_lt st pid : table_ok st -> (bucket_of st pid < length (identity_buckets st))%nat.
Proof.
  intros H. rewrite (t_length _ H). unfold bucket_of, SarIdentityHash. rewrite (t_count _ H).
  unfold SAR_IDENTITY_BUCKET_COUNT. set (v := u64 _).
  pose proof (Z.mod_pos_bound v 1024 ltac:(lia)). rewrite u32_small by (unfold is_u; lia). lia.
Qed.

Lemma bucket_lookup st b : (b < length (identity_buckets st))%nat ->
  identity_buckets st !! b = Some (bucket st b).
Proof.
  intros Hb. destruct (lookup_lt_is_Some_2 _ _ Hb) as [l Hl]. rewrite Hl. f_equal.
  unfold bucket. symmetry. by apply nth_lookup_Some.
Qed.

Lemma elem_bucket st b e : e ∈ bucket st b -> e ∈ all_entries st.
Proof.
  intros He. apply list_elem_of_In, in_concat. exists (bucket st b).
  split; [|by apply list_elem_of_In]. apply list_elem_of_In.
  destruct (decide (b < length (identity_buckets st))%nat) as [Hb|Hb].
  - by eapply list_elem_of_lookup_2, bucket_lookup.
  - unfold bucket in He. rewrite nth_overflow in He by lia. by apply not_elem_of_nil in He.
Qed.

Lemma elem_entries st e : table_ok st -> e ∈ all_entries st <-> e ∈ bucket st (bucket_of st (process_id e)).
Proof.
  intros Ht. split; [|apply elem_bucket].
  intros (l & Hl & He)%list_elem_of_In%in_concat. apply list_elem_of_In in Hl, He.
  apply list_elem_of_lookup in Hl as [b Hb].
  assert (Hbb : bucket st b = l) by (by apply nth_lookup_Some).
  rewrite <- Hbb in He. by rewrite (t_hash st Ht b e He).
Qed.

Lemma find_table st pid : table_ok st -> snd <$> SarIdentityFindLocked st pid = table st !! pid.
Proof.
  intros Ht. unfold SarIdentityFindLocked. destruct (list_find _ _) as [[i e]|] eqn:E; cbn [fmap option_fmap option_map snd].
  - apply list_find_Some in E as (Hi & <- & _). symmetry. apply map_of_lookup; [apply Ht|].
    by eapply elem_bucket, list_elem_of_lookup_2.
  - rewrite list_find_None, Forall_forall in E. symmetry. apply map_of_fresh.
    intros e He <-. rewrite elem_entries in He by done. by apply (E e He).
Qed.

(** ** Changing one bucket *)

Definition others (st : SAR_STATE) (b : nat) : list SAR_IDENTITY_ENTRY := concat (delete b (identity_buckets st)).

Definition with_bucket (st : SAR_STATE) (b : nat) (l : list SAR_IDENTITY_ENTRY) : SAR_STATE :=
  set_buckets (<[b := l]> (identity_buckets st)) st.

Lemma concat_delete {A} (ls : list (list A)) b l : ls !! b = Some l -> concat ls ≡ₚ l ++ concat (delete b ls).
Proof.
  revert b. induction ls as [|x ls IH]; intros b Hb; [done|]. destruct b as [|b]; cbn in Hb |- *.
  - by injection Hb as ->.
  - rewrite (IH b Hb). rewrite !app_assoc. apply Permutation_app_tail, Permutation_app_comm.
Qed.

Lemma delete_insert_same {A} (l : list A) i x : delete i (<[i := x]> l) = delete i l.
Proof. revert i. induction l as [|y l IH]; intros [|i]; cbn; [done|done|done|]. by f_equal. Qed.

Lemma entries_split st b : (b < length (identity_buckets st))%nat ->
  all_entries st ≡ₚ bucket st b ++ others st b.
Proof. intros Hb. by apply concat_delete, bucket_lookup. Qed.

Lemma entries_with_bucket st b l : (b < length (identity_buckets st))%nat ->
  all_entries (with_bucket st b l) ≡ₚ l ++ others st b.
Proof.
  intros Hb. unfold all_entries, others. cbn [with_bucket set_buckets identity_buckets].
  rewrite (concat_delete _ b l); [|by apply list_lookup_insert_eq]. by rewrite delete_insert_same.
Qed.

Lemma bucket_with_bucket st b l b' : (b < length (identity_buckets st))%nat ->
  bucket (with_bucket st b l) b' = if decide (b' = b) then l else bucket st b'.
Proof.
  intros Hb. unfold bucket. cbn [with_bucket set_buckets identity_buckets]. rewrite !nth_lookup.
  case_decide as E.
  - subst. rewrite list_lookup_insert_eq by done. done.
  - by rewrite list_lookup_insert_ne.
Qed.

Lemma with_bucket_ok st b l : table_ok st -> (b < length (identity_buckets st))%nat ->
  (forall e, e ∈ l -> bucket_of st (process_id e) = b) -> NoDup (process_id <$> l ++ others st b) ->
  table_ok (with_bucket st b l).
Proof.
  intros Ht Hb Hl Hn. constructor.
  - apply Ht.
  - cbn [with_bucket set_buckets identity_buckets]. rewrite length_insert. apply Ht.
  - intros b' e He. change (bucket_of (with_bucket st b l)) with (bucket_of st).
    rewrite bucket_with_bucket in He by done. case_decide as E; [subst; by apply Hl|]. by apply Ht.
  - by rewrite (entries_with_bucket st b l Hb).
Qed.

Section Bucket.
Context (st : SAR_STATE) (Ht : table_ok st) (pid : Z).

Lemma find_Some i e : SarIdentityFindLocked st pid = Some (i, e) ->
  bucket st (bucket_of st pid) !! i = Some e /\ process_id e = pid.
Proof. unfold SarIdentityFindLocked. intros (H1 & H2 & _)%list_find_Some. done. Qed.

Lemma find_None : SarIdentityFindLocked st pid = None -> forall e, e ∈ all_entries st -> process_id e <> pid.
Proof.
  unfold SarIdentityFindLocked. rewrite list_find_None, Forall_forall. intros H e He <-.
  rewrite elem_entries in He by done. by apply (H e He).
Qed.

Lemma link_ok e : process_id e = pid -> SarIdentityFindLocked st pid = None ->
  let st' := with_bucket st (bucket_of st pid) (e :: bucket st (bucket_of st pid)) in
  table_ok st' /\ all_entries st' ≡ₚ e :: all_entries st /\ table st' = <[pid := e]> (table st).
Proof.
  intros He Hf st'. set (b := bucket_of st pid) in *.
  assert (Hb : (b < length (identity_buckets st))%nat) by (by apply bucket_of_lt).
  assert (Hp : all_entries st' ≡ₚ e :: all_entries st).
  { subst st'. rewrite (entries_with_bucket st b _ Hb), (entries_split st b Hb). done. }
  assert (Hn : NoDup (process_id <$> e :: all_entries st)).
  { cbn [fmap list_fmap]. apply NoDup_cons. split; [|apply Ht].
    intros (e' & H1 & H2)%list_elem_of_fmap. apply (find_None Hf e' H2). congruence. }
  split_and!; [|done|].
  - apply with_bucket_ok; [done|done| |].
    + intros e' [-> | He']%elem_of_cons; [by rewrite He|by apply Ht].
    + rewrite <- Hp in Hn. by rewrite <- (entries_with_bucket st b _ Hb).
  - unfold table. rewrite <- Hp in Hn. rewrite (map_of_perm _ _ Hn Hp), <- He. done.
Qed.

Lemma unlink_ok i e : SarIdentityFindLocked st pid = Some (i, e) ->
  let st' := with_bucket st (bucket_of st pid) (delete i (bucket st (bucket_of st pid))) in
  table_ok st' /\ all_entries st ≡ₚ e :: all_entries st' /\ table st' = delete pid (table st).
Proof.
  intros [Hi He]%find_Some st'. set (b := bucket_of st pid) in *.
  assert (Hb : (b < length (identity_buckets st))%nat) by (by apply bucket_of_lt).
  assert (Hp : all_entries st ≡ₚ e :: all_entries st').
  { subst st'. rewrite (entries_with_bucket st b _ Hb), (entries_split st b Hb).
    rewrite (delete_Permutation _ _ _ Hi) at 1. done. }
  pose proof (t_nodup st Ht) as Hn. rewrite Hp in Hn. cbn [fmap list_fmap] in Hn.
  apply NoDup_cons in Hn as [Hnin Hn].
  split_and!; [|done|].
  - apply with_bucket_ok; [done|done| |].
    + intros e' He'. apply Ht. eapply list_elem_of_lookup in He' as [j Hj].
      eapply elem_of_sublist; [by eapply list_elem_of_lookup_2|apply sublist_delete].
    + by rewrite <- (entries_with_bucket st b _ Hb).
  - unfold table. rewrite (map_of_perm _ _ (t_nodup st Ht) Hp).
    change (map_of (e :: all_entries st')) with (<[process_id e := e]> (map_of (all_entries st'))).
    rewrite He, delete_insert_id; [done|]. apply map_of_fresh. intros e' He' Heq.
    apply Hnin. rewrite He, <- Heq. by apply list_elem_of_fmap_2.
Qed.

Lemma put_ok i e e' : SarIdentityFindLocked st pid = Some (i, e) -> process_id e' = pid ->
  let st' := put_entry st (bucket_of st pid) i e' in
  table_ok st' /\ table st' = <[pid := e']> (table st) /\
  forall x, x ∈ all_entries st' -> x = e' \/ x ∈ all_entries st.
Proof.
  intros [Hi He]%find_Some He' st'. set (b := bucket_of st pid) in *.
  assert (Hb : (b < length (identity_buckets st))%nat) by (by apply bucket_of_lt).
  set (l := bucket st b) in *.
  assert (Hl : l ≡ₚ e :: delete i l) by (by apply delete_Permutation).
  assert (Hl' : <[i := e']> l ≡ₚ e' :: delete i l).
  { rewrite (delete_Permutation (<[i := e']> l) i e'), delete_insert_same; [done|].
    apply list_lookup_insert_eq. by eapply lookup_lt_Some. }
  set (X := delete i l ++ others st b).
  assert (Hp : all_entries st ≡ₚ e :: X) by (rewrite (entries_split st b Hb); fold l; by rewrite Hl at 1).
  assert (Hp' : all_entries st' ≡ₚ e' :: X).
  { change st' with (with_bucket st b (<[i := e']> l)). rewrite (entries_with_bucket st b _ Hb). by rewrite Hl'. }
  pose proof (t_nodup st Ht) as Hn. rewrite Hp in Hn. cbn [fmap list_fmap] in Hn.
  assert (Hn' : NoDup (process_id <$> e' :: X)) by (cbn [fmap list_fmap]; by rewrite He', <- He).
  split_and!.
  - apply with_bucket_ok; [done|done| |].
    + intros x Hx. change (x ∈ <[i := e']> l) in Hx. rewrite Hl' in Hx. apply elem_of_cons in Hx as [-> | Hx]; [by rewrite He'|].
      apply Ht. fold l. rewrite Hl. by right.
    + rewrite <- Hp' in Hn'. change st' with (with_bucket st b (<[i := e']> l)) in Hn'.
      by rewrite (entries_with_bucket st b _ Hb) in Hn'.
  - unfold table. rewrite <- Hp' in Hn'. rewrite (map_of_perm _ _ (t_nodup st Ht) Hp), (map_of_perm _ _ Hn' Hp').
    unfold map_of. cbn [fmap list_fmap list_to_map foldr fst snd uncurry]. rewrite He, He'. symmetry. apply insert_insert_eq.
  - intros x Hx. rewrite Hp' in Hx. apply elem_of_cons in Hx as [-> | Hx]; [by left|].
    right. rewrite Hp. by right.
Qed.

End Bucket.

End DriverState.
