(* ===== verification/DriverTrust.v ===== *)
(** * Who is exempt, and from what

    The driver's promises about exemption (docs/CONSTITUTION.md, parts VI and
    VII) for the process table of DriverState.v, under every interleaving of
    concurrent calls: an exempt process is one the system protects or one whose
    own instance got a verdict for an allow-listed program that is no
    interpreter; and only a protected process may open an exempt one for
    manipulation. *)

From stdpp Require Import gmap.
From S2P Require Import Prelude Mem Format Protocol Handshake Whitelist CipherCommon EventLog DriverState.
Import Mem Layout Protocol Whitelist Interpreter DriverState.

Module DriverTrust.
Section Kernel.
Context (PsGetProcessId PsGetProcessStartKey : Z -> Z) (FltNormalizedName : Z -> option (list Z)).

(** ** Interleaved calls *)

(** One critical section of one call.  [ProcessStarts] and [VerdictArrives] are the
    first halves of an insertion and of a verdict; [Linked i] and [Applied i] are the
    second halves of the [i]th call that is under way. *)
Inductive step :=
  | ModeSet (now requested : Z)
  | AllowAdd (precise now : Z) (id : sar_identity_t)
  | AllowRemove (now : Z) (id : sar_identity_t)
  | ProcessStarts (Process ProcessId : Z) (info : PS_CREATE_NOTIFY_INFO) (prot : option PS_PROTECTION)
  | Linked (i : nat)
  | ProcessEnds (ProcessId : Z)
  | VerdictArrives (ProcessId StartKey : Z) (id : sar_identity_t)
  | Applied (i : nat)
  | Revoked (ProcessId : Z).

Record config := {
  st : SAR_STATE;
  log : eventlog;
  linking : list SAR_IDENTITY_ENTRY;
  applying : list (Z * Z * sar_identity_t)
}.

Definition with_st (s : SAR_STATE) (c : config) : config :=
  {| st := s; log := log c; linking := linking c; applying := applying c |}.
Definition with_st_log (s : SAR_STATE) (l : eventlog) (c : config) : config :=
  {| st := s; log := l; linking := linking c; applying := applying c |}.

Definition do_step (c : config) (s : step) : config :=
  match s with
  | ModeSet now m => let '(_, s, l) := SarStateModeSet (st c) (log c) now m in with_st_log s l c
  | AllowAdd precise now id =>
    let '(_, s, l) := SarStateWhitelistAdd (st c) (log c) precise now id in with_st_log s l c
  | AllowRemove now id => let '(_, s, l) := SarStateWhitelistRemove (st c) (log c) now id in with_st_log s l c
  | ProcessStarts p pid info prot =>
    {| st := st c; log := log c; applying := applying c;
       linking := linking c ++ [created_entry PsGetProcessStartKey FltNormalizedName (st c) p pid info prot] |}
  | Linked i =>
    match linking c !! i with
    | Some e => {| st := (link_entry (st c) e).2; log := log c; linking := delete i (linking c);
                   applying := applying c |}
    | None => c
    end
  | ProcessEnds pid => with_st (SarStateIdentityRemove (st c) pid) c
  | VerdictArrives pid key id =>
    if verdict_allowed (st c) key id
    then {| st := st c; log := log c; linking := linking c; applying := applying c ++ [(pid, key, id)] |}
    else c
  | Applied i =>
    match applying c !! i with
    | Some (pid, key, id) => {| st := (apply_verdict (st c) pid key id).2; log := log c; linking := linking c;
                                applying := delete i (applying c) |}
    | None => c
    end
  | Revoked pid => with_st (SarStateRevokeExemption (st c) pid).2 c
  end.

Definition run (c : config) (trace : list step) : config := fold_left do_step trace c.

(** A call on its own is its two halves. *)
Lemma notify_is_start_link s l p pid info prot :
  SarCreateProcessNotifyEx PsGetProcessStartKey FltNormalizedName true s p pid (Some info) prot =
    st (run {| st := s; log := l; linking := []; applying := [] |} [ProcessStarts p pid info prot; Linked 0]).
Proof.
  cbn [run fold_left do_step linking app lookup list_lookup st].
  unfold SarCreateProcessNotifyEx, created_entry. by destruct (if negb _ then _ else _) as [id valid].
Qed.

Lemma verdict_is_arrive_apply s l pid key id :
  (SarStateIdentityApplyVerdict s pid key id).2 =
    st (run {| st := s; log := l; linking := []; applying := [] |} [VerdictArrives pid key id; Applied 0]).
Proof.
  cbn [run fold_left do_step]. unfold SarStateIdentityApplyVerdict. cbn [st applying].
  destruct (verdict_allowed s key id); reflexivity.
Qed.

(** Messages have arrays of fixed size, and the process manager passes the id of
    the process object. *)
Definition step_wf (s : step) : Prop :=
  match s with
  | AllowAdd _ _ id | VerdictArrives _ _ id => id_wf id
  | ProcessStarts p pid _ _ => pid = PsGetProcessId p
  | _ => True
  end.

(** ** Anchors *)

(** Some [SarStateWhitelistAdd] of the trace was for the identity of [id]. *)
Definition was_allowed (trace : list step) (id : sar_identity_t) : Prop :=
  exists precise now w, AllowAdd precise now w ∈ trace /\ id_key w = id_key id.

(** Tier 1: the system protects the process and its signer is trusted. *)
Definition tier1 (trace : list step) (e : SAR_IDENTITY_ENTRY) : Prop :=
  protected_trusted e = true /\
  exists info prot, ProcessStarts (process e) (process_id e) info prot ∈ trace /\
    SarProcessProtectedTrusted prot = true.

Definition verdict_basis (trace : list step) (v : Z * Z * sar_identity_t) : Prop :=
  let '(pid, key, id) := v in
  VerdictArrives pid key id ∈ trace /\ key <> 0 /\ (program_name (image_path id) ∉ names) /\ was_allowed trace id.

(** Tier 2: a verdict for this instance, about an allow-listed program that is no
    interpreter. *)
Definition tier2 (trace : list step) (e : SAR_IDENTITY_ENTRY) : Prop :=
  verdict_basis trace (process_id e, start_key e, identity e).

Record entry_ok (trace : list step) (e : SAR_IDENTITY_ENTRY) : Prop := {
  eo_key : start_key e = PsGetProcessStartKey (process e);
  eo_pid : process_id e = PsGetProcessId (process e);
  eo_tier1 : protected_trusted e = true -> tier1 trace e /\ id_state e = SAR_IDSTATE_EXEMPT;
  eo_exempt : id_state e = SAR_IDSTATE_EXEMPT ->
    protected_trusted e = true \/ tier2 trace e \/ was_allowed trace zero_identity
}.

Record trust_inv (trace : list step) (c : config) : Prop := {
  ti_table : table_ok (st c);
  ti_wl : wl_inv (whitelist (st c));
  ti_allowed : forall w, w ∈ entries (whitelist (st c)) -> exists precise now, AllowAdd precise now w ∈ trace;
  ti_mode : SarStateModeGet (st c) ∈ [SEMANTICS_AR_MODE_AUDIT; SEMANTICS_AR_MODE_ENFORCE];
  ti_entries : Forall (entry_ok trace) (all_entries (st c));
  ti_linking : Forall (entry_ok trace) (linking c);
  ti_applying : Forall (verdict_basis trace) (applying c)
}.

Lemma was_allowed_app trace s id : was_allowed trace id -> was_allowed (trace ++ [s]) id.
Proof. intros (p & n & w & H & Hk). exists p, n, w. split; [apply elem_of_app; by left|done]. Qed.

Lemma verdict_basis_app trace s v : verdict_basis trace v -> verdict_basis (trace ++ [s]) v.
Proof.
  destruct v as [[pid key] id]. intros (H1 & H2 & H3 & H4).
  split_and!; [apply elem_of_app; by left|done|done|by apply was_allowed_app].
Qed.

Lemma entry_ok_app trace s e : entry_ok trace e -> entry_ok (trace ++ [s]) e.
Proof.
  intros [H1 H2 H3 H4]. constructor; [done|done| |].
  - intros Hp. destruct (H3 Hp) as [(_ & info & prot & Hi & Ht) Hx]. split; [|done]. split; [done|].
    exists info, prot. split; [apply elem_of_app; by left|done].
  - intros He. destruct (H4 He) as [H|[H|H]]; [by left|right; left|right; right].
    + by apply verdict_basis_app.
    + by apply was_allowed_app.
Qed.

Lemma trust_inv_app trace s c : trust_inv trace c -> trust_inv (trace ++ [s]) c.
Proof.
  intros [H1 H2 H3 H4 H5 H6 H7]. constructor; [done|done| |done| | |].
  - intros w Hw. destruct (H3 w Hw) as (p & n & H). exists p, n. apply elem_of_app. by left.
  - eapply Forall_impl; [exact H5|]. intros e. apply entry_ok_app.
  - eapply Forall_impl; [exact H6|]. intros e. apply entry_ok_app.
  - eapply Forall_impl; [exact H7|]. intros v. apply verdict_basis_app.
Qed.

Lemma matched_allowed trace c id : trust_inv trace c -> id_wf id ->
  SarStateWhitelistMatch (st c) id = true -> was_allowed trace id.
Proof.
  intros Hi Hid. unfold SarStateWhitelistMatch. rewrite (match_iff _ _ (wi_wf _ (ti_wl _ _ Hi)) Hid).
  intros (w & Hk & Hw)%list_elem_of_fmap. destruct (ti_allowed _ _ Hi w Hw) as (p & n & H).
  by exists p, n, w.
Qed.

Lemma zero_identity_wf : id_wf zero_identity.
Proof. repeat split. apply Forall_replicate. by unfold is_u. Qed.

(** The image name is all that is known of a starting process. *)
Lemma canonical_key info : id_key (SarCaptureCanonicalIdentity FltNormalizedName info).1 = id_key zero_identity.
Proof. unfold SarCaptureCanonicalIdentity. by repeat case_match. Qed.

Lemma key_wf id : id_key id = id_key zero_identity -> id_wf id.
Proof. intros [= H1 H2]. unfold id_wf. rewrite H1, H2. apply zero_identity_wf. Qed.

(** ** Every step keeps the invariant *)

Lemma created_ok trace c p pid info prot : trust_inv trace c -> pid = PsGetProcessId p ->
  entry_ok (trace ++ [ProcessStarts p pid info prot])
    (created_entry PsGetProcessStartKey FltNormalizedName (st c) p pid info prot).
Proof.
  intros Hi ->. unfold created_entry.
  set (sub := bool_decide _ && _). pose proof (canonical_key info) as Hk.
  destruct (if negb sub then _ else _) as [id valid] eqn:E.
  assert (Hid : id_key id = id_key zero_identity).
  { destruct sub; cbn [negb] in E; [by injection E as <- _|]. by rewrite E in Hk. }
  constructor; cbn [new_entry start_key process process_id protected_trusted id_state]; [done|done| |].
  - intros Hp. split; [|by rewrite Hp]. split; [done|].
    exists info, prot. split; [apply elem_of_app; right; by left|done].
  - destruct (SarProcessProtectedTrusted prot); [by left|]. intros He. right; right.
    apply was_allowed_app. destruct valid; [|done]. unfold sar_identity_resolve in He. cbn [negb andb] in He.
    destruct (SarStateWhitelistMatch (st c) id) eqn:Em; [|done].
    destruct (matched_allowed trace c id Hi (key_wf id Hid) Em) as (x & y & w & H1 & H2).
    exists x, y, w. by rewrite H2.
Qed.

(** A change of the table that leaves the rest of the state alone. *)
Lemma inv_table trace c s l a : trust_inv trace c -> table_ok s -> whitelist s = whitelist (st c) ->
  mode s = mode (st c) -> Forall (entry_ok trace) (all_entries s) -> Forall (entry_ok trace) l ->
  Forall (verdict_basis trace) a ->
  trust_inv trace {| st := s; log := log c; linking := l; applying := a |}.
Proof.
  intros [H1 H2 H3 H4 H5 H6 H7] Ht Hw Hm He Hl Ha.
  constructor; cbn [st linking applying]; rewrite ?Hw; try done. unfold SarStateModeGet. by rewrite Hm.
Qed.

Lemma link_inv trace c i e : trust_inv trace c -> linking c !! i = Some e ->
  trust_inv trace {| st := (link_entry (st c) e).2; log := log c; linking := delete i (linking c);
                     applying := applying c |}.
Proof.
  intros Hi He. pose proof Hi as [Ht _ _ _ Hes Hls Has].
  assert (Hd : Forall (entry_ok trace) (delete i (linking c))) by (by apply Forall_delete).
  unfold link_entry. destruct (SarIdentityFindLocked (st c) (process_id e)) as [|] eqn:E; cbn [snd];
    [by apply inv_table|].
  destruct (link_ok (st c) Ht (process_id e) e eq_refl E) as (Ht' & Hp & _).
  apply inv_table; try done. fold (with_bucket (st c) (bucket_of (st c) (process_id e))
    (e :: bucket (st c) (bucket_of (st c) (process_id e)))). rewrite Hp.
  constructor; [|done]. exact (Forall_lookup_1 _ _ _ _ Hls He).
Qed.

Lemma remove_inv_table trace c pid : trust_inv trace c ->
  trust_inv trace (with_st (SarStateIdentityRemove (st c) pid) c).
Proof.
  intros Hi. pose proof Hi as [Ht _ _ _ Hes Hls Has]. unfold SarStateIdentityRemove.
  destruct (SarIdentityFindLocked (st c) pid) as [[i e]|] eqn:E; [|by apply inv_table].
  destruct (unlink_ok (st c) Ht pid i e E) as (Ht' & Hp & _). apply inv_table; try done.
  rewrite Hp in Hes. by apply Forall_cons_1 in Hes as [_ Hes].
Qed.

(** Writing an entry in place. *)
Lemma put_inv trace c pid i e e' a : trust_inv trace c -> SarIdentityFindLocked (st c) pid = Some (i, e) ->
  process_id e' = pid -> entry_ok trace e' -> Forall (verdict_basis trace) a ->
  trust_inv trace {| st := put_entry (st c) (bucket_of (st c) pid) i e'; log := log c;
                     linking := linking c; applying := a |}.
Proof.
  intros Hi E He' Hok Ha. pose proof Hi as [Ht _ _ _ Hes Hls Has].
  destruct (put_ok (st c) Ht pid i e e' E He') as (Ht' & _ & Hx). apply inv_table; try done.
  apply Forall_forall. intros x [-> | H]%Hx; [done|]. rewrite Forall_forall in Hes. by apply Hes.
Qed.

Lemma found_ok trace c pid i e : trust_inv trace c -> SarIdentityFindLocked (st c) pid = Some (i, e) ->
  entry_ok trace e /\ process_id e = pid.
Proof.
  intros Hi E. apply find_Some in E as [E He]. split; [|done].
  eapply (proj1 (Forall_forall _ _) (ti_entries _ _ Hi)). by eapply elem_bucket, list_elem_of_lookup_2.
Qed.

Lemma apply_inv trace c i v : trust_inv trace c -> applying c !! i = Some v ->
  let '(pid, key, id) := v in
  trust_inv trace {| st := (apply_verdict (st c) pid key id).2; log := log c; linking := linking c;
                     applying := delete i (applying c) |}.
Proof.
  intros Hi Hv. destruct v as [[pid key] id]. pose proof Hi as [Ht _ _ _ Hes Hls Has].
  assert (Hd : Forall (verdict_basis trace) (delete i (applying c))) by (by apply Forall_delete).
  pose proof (Forall_lookup_1 _ _ _ _ Has Hv) as Hb. unfold apply_verdict.
  destruct (SarIdentityFindLocked (st c) pid) as [[j e]|] eqn:E; [|by apply inv_table].
  destruct (Z.eqb_spec (start_key e) key) as [Hk|]; [|by apply inv_table].
  destruct (found_ok trace c pid j e Hi E) as [[E1 E2 E3 E4] Hp]. cbn [snd].
  eapply put_inv; [done|exact E|done| |done]. constructor; cbn [exempt_entry start_key process process_id
    protected_trusted id_state]; [done|done| |].
  - intros Hpt. destruct (E3 Hpt) as [[Ha Hb'] _]. done.
  - intros _. right; left. unfold tier2. cbn [exempt_entry start_key process_id identity]. by rewrite Hp, Hk.
Qed.

Lemma revoke_inv trace c pid : trust_inv trace c ->
  trust_inv trace (with_st (SarStateRevokeExemption (st c) pid).2 c).
Proof.
  intros Hi. pose proof Hi as [Ht _ _ _ Hes Hls Has]. unfold SarStateRevokeExemption.
  destruct (SarIdentityFindLocked (st c) pid) as [[j e]|] eqn:E; [|by apply inv_table].
  destruct (bool_decide _ && negb _) eqn:Eb; [|by apply inv_table]. bsimp.
  destruct (found_ok trace c pid j e Hi E) as [[E1 E2 E3 E4] Hp].
  eapply put_inv; [done|exact E|done| |done].
  constructor; cbn [observed_entry start_key process process_id protected_trusted id_state];
    [done|done|congruence|done].
Qed.

Lemma add_entries wl id seen w : w ∈ entries (sar_whitelist_add wl id seen).2 -> w ∈ entries wl \/ w = id.
Proof.
  unfold sar_whitelist_add. repeat case_match; cbn [snd entries]; try (by left);
    (intros [Hx|Hx%list_elem_of_singleton]%elem_of_app; [by left|by right]).
Qed.

Lemma remove_entries wl id w : wl_inv wl -> w ∈ entries (sar_whitelist_remove wl id).2 -> w ∈ entries wl.
Proof.
  intros Hi. destruct (remove_eq wl id Hi) as [[_ ->]|(i & e & _ & _ & ->)]; [done|]. cbn [snd entries].
  intros H. eapply elem_of_sublist; [exact H|apply sublist_delete].
Qed.

(** A change of the allow-list, the mode or the log. *)
Lemma inv_control trace c s l : trust_inv trace c -> identity_buckets s = identity_buckets (st c) ->
  identity_bucket_count s = identity_bucket_count (st c) -> wl_inv (whitelist s) ->
  (forall w, w ∈ entries (whitelist s) -> exists precise now, AllowAdd precise now w ∈ trace) ->
  SarStateModeGet s ∈ [SEMANTICS_AR_MODE_AUDIT; SEMANTICS_AR_MODE_ENFORCE] ->
  trust_inv trace (with_st_log s l c).
Proof.
  intros [[T1 T2 T3 T4] H2 H3 H4 H5 H6 H7] Hb Hc Hw Ha Hm.
  constructor; cbn [with_st_log st linking applying]; try done.
  - constructor; [by rewrite Hc|by rewrite Hb| |unfold all_entries; by rewrite Hb].
    intros b e. unfold bucket, bucket_of. rewrite Hb, Hc. apply T3.
  - unfold all_entries. by rewrite Hb.
Qed.

Lemma step_inv trace c s : trust_inv trace c -> step_wf s -> trust_inv (trace ++ [s]) (do_step c s).
Proof.
  intros Hi Hs. pose proof (trust_inv_app trace s c Hi) as Hi'. pose proof Hi' as [_ Hw Ha Hm Hes Hls Has].
  destruct s as [now m|precise now id|now id|p pid info prot|i|pid|pid key id|i|pid]; cbn [do_step step_wf] in *.
  - unfold SarStateModeSet, Mode.sar_mode_set. destruct (negb _ && negb _) eqn:E; cbn [negb].
    { by apply inv_control. }
    apply inv_control; try done. cbn [Mode.mode set_mode SarStateModeGet mode].
    apply andb_false_iff in E as [E|E]; bsimp; subst; [by left|right; by left].
  - unfold SarStateWhitelistAdd. pose proof (add_inv _ id (u64 precise) Hw Hs) as Hw'.
    pose proof (add_entries (whitelist (st c)) id (u64 precise)) as Hx.
    destruct (sar_whitelist_add _ _ _) as [status wl]. apply inv_control; try done.
    intros w [H| ->]%Hx; [by apply Ha|]. exists precise, now. apply elem_of_app. right. by left.
  - unfold SarStateWhitelistRemove. pose proof (remove_inv _ id Hw) as Hw'.
    pose proof (remove_entries (whitelist (st c)) id) as Hx.
    destruct (sar_whitelist_remove _ _) as [status wl]. apply inv_control; try done.
    intros w H. by apply Ha, Hx.
  - apply inv_table; try done; [by apply Hi'|]. apply Forall_app. split; [done|].
    apply Forall_singleton. by apply created_ok.
  - destruct (linking c !! i) as [e|] eqn:E; [by apply link_inv|done].
  - by apply remove_inv_table.
  - destruct (verdict_allowed (st c) key id) eqn:E; [|done]. apply inv_table; try done; [by apply Hi'|].
    apply Forall_app. split; [done|]. apply Forall_singleton. unfold verdict_allowed in E. bsimp.
    split_and!; [apply elem_of_app; right; by left|done| |].
    + rewrite <- is_interpreter_iff. unfold SarIdentityIsInterpreter in *. congruence.
    + by eapply was_allowed_app, matched_allowed.
  - destruct (applying c !! i) as [v|] eqn:E; [|done]. pose proof (apply_inv _ c i v Hi' E).
    by destruct v as [[pid key] id].
  - by apply revoke_inv.
Qed.

Lemma run_inv_from trace0 c trace : trust_inv trace0 c -> Forall step_wf trace ->
  trust_inv (trace0 ++ trace) (run c trace).
Proof.
  revert trace0 c. induction trace as [|s trace IH]; intros trace0 c Hi Hw; [by rewrite app_nil_r|].
  apply Forall_cons_1 in Hw as [Hs Hw]. cbn [run fold_left].
  replace (trace0 ++ s :: trace) with ((trace0 ++ [s]) ++ trace) by by rewrite <- app_assoc.
  apply IH; [by apply step_inv|done].
Qed.

Lemma concat_replicate_nil {A} n : concat (replicate n (@nil A)) = [].
Proof. by induction n. Qed.

Definition init (s : SAR_STATE) (l : eventlog) : config := {| st := s; log := l; linking := []; applying := [] |}.

Lemma created_inv s l : SarStateCreate true true true true = Some s -> trust_inv [] (init s l).
Proof.
  cbn [SarStateCreate andb]. intros Hs. apply (inj Some) in Hs. subst s.
  assert (He : all_entries {| mode := SEMANTICS_AR_MODE_AUDIT;
    whitelist := sar_whitelist_init true SAR_WHITELIST_CAPACITY;
    identity_buckets := replicate (Z.to_nat SAR_IDENTITY_BUCKET_COUNT) [];
    identity_bucket_count := SAR_IDENTITY_BUCKET_COUNT; captured_key_count := 0 |} = [])
    by apply concat_replicate_nil.
  constructor; cbn [init st linking applying]; [| | | | |constructor|constructor].
  - constructor; [done|apply length_replicate| |rewrite He; constructor].
    intros b e Hb%elem_bucket. rewrite He in Hb. by apply not_elem_of_nil in Hb.
  - cbn [whitelist]. unfold sar_whitelist_init. constructor; cbn; [constructor|constructor|done| |constructor].
    by intros l' [= <-].
  - intros w Hw. by apply not_elem_of_nil in Hw.
  - by left.
  - rewrite He. constructor.
Qed.

Lemma run_inv s l trace : SarStateCreate true true true true = Some s -> Forall step_wf trace ->
  trust_inv trace (run (init s l) trace).
Proof. intros Hs Hw. apply (run_inv_from [] (init s l) trace); [by apply created_inv|done]. Qed.

(** The entry a look-up reads. *)
Lemma lookup_exempt s pid : table_ok s -> SarStateIdentityLookup s pid = SAR_IDSTATE_EXEMPT ->
  exists e, table s !! pid = Some e /\ id_state e = SAR_IDSTATE_EXEMPT /\ e ∈ all_entries s /\ process_id e = pid.
Proof.
  intros Ht. unfold SarStateIdentityLookup. pose proof (find_table s pid Ht) as Hf.
  destruct (SarIdentityFindLocked s pid) as [[i e]|] eqn:E; [|done]. intros Hx.
  apply find_Some in E as [Hi Hp]. exists e. split_and!; [by rewrite <- Hf|done| |done].
  by eapply elem_bucket, list_elem_of_lookup_2.
Qed.

(** ** Properties *)

(** Property C25: exemption is anchored (CONSTITUTION VI.1 to VI.2.4).  However
    process starts and ends, verdicts, allow-list changes, mode changes and
    revocations interleave, provided no all-zero identity was put on the
    allow-list, a process the driver treats as exempt either was started under
    system protection with a trusted signer, or got a verdict that carried the
    non-zero start key of this very process object, for a program that is no
    interpreter and whose content hash and signer an operator had added. *)
Theorem exemption_is_anchored s l trace pid :
  SarStateCreate true true true true = Some s -> Forall step_wf trace ->
  ~ was_allowed trace zero_identity ->
  let c := run (init s l) trace in
  SarStateIdentityLookup (st c) pid = SAR_IDSTATE_EXEMPT ->
  exists e, table (st c) !! pid = Some e /\ process_id e = pid /\ pid = PsGetProcessId (process e) /\
    start_key e = PsGetProcessStartKey (process e) /\ (tier1 trace e \/ tier2 trace e).
Proof.
  intros Hs Hw Hz c Hx. pose proof (run_inv s l trace Hs Hw) as Hi. fold c in Hi.
  destruct (lookup_exempt (st c) pid (ti_table _ _ Hi) Hx) as (e & He & Hst & Hin & Hp).
  pose proof (proj1 (Forall_forall _ _) (ti_entries _ _ Hi) e Hin) as [E1 E2 E3 E4].
  exists e. split_and!; [done|done|by rewrite <- Hp|done|].
  destruct (E4 Hst) as [H|[H|H]]; [left|by right|done]. by apply E3.
Qed.

(** *** The process table is a map *)

Definition spec_insert (m : gmap Z SAR_IDENTITY_ENTRY) (e : SAR_IDENTITY_ENTRY)
  : NTSTATUS * gmap Z SAR_IDENTITY_ENTRY :=
  match m !! process_id e with
  | Some _ => (STATUS_OBJECT_NAME_COLLISION, m)
  | None => (STATUS_SUCCESS, <[process_id e := e]> m)
  end.

Definition spec_verdict (m : gmap Z SAR_IDENTITY_ENTRY) (pid key : Z) (id : sar_identity_t)
  : bool * gmap Z SAR_IDENTITY_ENTRY :=
  match m !! pid with
  | Some e => if start_key e =? key then (true, <[pid := exempt_entry e id]> m) else (false, m)
  | None => (false, m)
  end.

Definition spec_revoke (m : gmap Z SAR_IDENTITY_ENTRY) (pid : Z) : bool * Z * gmap Z SAR_IDENTITY_ENTRY :=
  match m !! pid with
  | Some e => if bool_decide (id_state e = SAR_IDSTATE_EXEMPT) && negb (protected_trusted e)
              then (true, start_key e, <[pid := observed_entry e]> m) else (false, 0, m)
  | None => (false, 0, m)
  end.

Lemma link_refines s e : table_ok s ->
  let '(r, s') := link_entry s e in table_ok s' /\ (r, table s') = spec_insert (table s) e.
Proof.
  intros Ht. unfold link_entry, spec_insert. rewrite <- (find_table s (process_id e) Ht).
  destruct (SarIdentityFindLocked s (process_id e)) as [[i x]|] eqn:E; [done|].
  cbn [fmap option_fmap option_map].
  destruct (link_ok s Ht (process_id e) e eq_refl E) as (Ht' & _ & Htab). split; [done|].
  unfold with_bucket in Htab. by rewrite Htab.
Qed.

Lemma remove_refines s pid : table_ok s ->
  let s' := SarStateIdentityRemove s pid in table_ok s' /\ table s' = delete pid (table s).
Proof.
  intros Ht. unfold SarStateIdentityRemove. pose proof (find_table s pid Ht) as Hf.
  destruct (SarIdentityFindLocked s pid) as [[i x]|] eqn:E.
  - destruct (unlink_ok s Ht pid i x E) as (Ht' & _ & Htab). done.
  - split; [done|]. by rewrite delete_id.
Qed.

Lemma verdict_refines s pid key id : table_ok s ->
  let '(r, s') := apply_verdict s pid key id in
  table_ok s' /\ (r, table s') = spec_verdict (table s) pid key id.
Proof.
  intros Ht. unfold apply_verdict, spec_verdict. rewrite <- (find_table s pid Ht).
  destruct (SarIdentityFindLocked s pid) as [[i x]|] eqn:E; [|done]. cbn [fmap option_fmap option_map snd].
  destruct (start_key x =? key); [|done]. destruct (find_Some s pid i x E) as [_ Hp].
  destruct (put_ok s Ht pid i x (exempt_entry x id) E Hp) as (Ht' & Htab & _).
  split; [done|]. by rewrite Htab.
Qed.

Lemma revoke_refines s pid : table_ok s ->
  let '(r, key, s') := SarStateRevokeExemption s pid in
  table_ok s' /\ (r, key, table s') = spec_revoke (table s) pid.
Proof.
  intros Ht. unfold SarStateRevokeExemption, spec_revoke. rewrite <- (find_table s pid Ht).
  destruct (SarIdentityFindLocked s pid) as [[i x]|] eqn:E; [|done]. cbn [fmap option_fmap option_map snd].
  destruct (bool_decide _ && negb _); [|done]. destruct (find_Some s pid i x E) as [_ Hp].
  destruct (put_ok s Ht pid i x (observed_entry x) E Hp) as (Ht' & Htab & _).
  split; [done|]. by rewrite Htab.
Qed.

(** The hash table of 1024 buckets refines a finite map from process
    ids to entries.  Look-ups read the map; inserting, removing, applying a verdict
    and revoking an exemption act on it as their specifications do and keep the
    table well formed (every entry in the bucket of its hash, one entry per id). *)
Theorem identity_table_refines_map s : table_ok s ->
  (forall pid, SarStateIdentityLookup s pid =
     match table s !! pid with Some e => id_state e | None => SAR_IDSTATE_OBSERVE_PENDING end) /\
  (forall pid p id valid sub trusted,
     let e := new_entry PsGetProcessStartKey s pid p id valid sub trusted in
     let '(r, s') := SarStateIdentityInsert PsGetProcessStartKey true s pid p id valid sub trusted in
     table_ok s' /\ (r, table s') = spec_insert (table s) e) /\
  (forall pid, let s' := SarStateIdentityRemove s pid in table_ok s' /\ table s' = delete pid (table s)) /\
  (forall pid key id, verdict_allowed s key id = true ->
     let '(r, s') := SarStateIdentityApplyVerdict s pid key id in
     table_ok s' /\ (r, table s') = spec_verdict (table s) pid key id) /\
  (forall pid, let '(r, key, s') := SarStateRevokeExemption s pid in
     table_ok s' /\ (r, key, table s') = spec_revoke (table s) pid).
Proof.
  intros Ht. split_and!.
  - intros pid. unfold SarStateIdentityLookup. rewrite <- (find_table s pid Ht).
    by destruct (SarIdentityFindLocked s pid) as [[i x]|].
  - intros pid p id valid sub trusted. by apply link_refines.
  - intros pid. by apply remove_refines.
  - intros pid key id Ha. unfold SarStateIdentityApplyVerdict. rewrite Ha. by apply verdict_refines.
  - intros pid. by apply revoke_refines.
Qed.

(** *** Handles to exempt processes *)

(** The live entry of a process object. *)
Definition entry_of_process (s : SAR_STATE) (p : Z) : option SAR_IDENTITY_ENTRY :=
  match table s !! PsGetProcessId p with
  | Some e => if decide (process e = p) then Some e else None
  | None => None
  end.

Lemma find_by_process trace c p : trust_inv trace c ->
  snd <$> SarIdentityFindByProcessLocked PsGetProcessId (st c) p = entry_of_process (st c) p.
Proof.
  intros Hi. pose proof (ti_table _ _ Hi) as Ht. unfold SarIdentityFindByProcessLocked, entry_of_process.
  destruct (list_find _ _) as [[i e]|] eqn:E; cbn [fmap option_fmap option_map snd].
  - apply list_find_Some in E as (Hl & <- & _). apply list_elem_of_lookup_2, elem_bucket in Hl.
    pose proof (proj1 (Forall_forall _ _) (ti_entries _ _ Hi) e Hl) as He.
    rewrite <- (eo_pid _ _ He). unfold table. rewrite (map_of_lookup _ e (t_nodup _ Ht) Hl).
    by rewrite decide_True.
  - rewrite list_find_None, Forall_forall in E. pose proof (find_table (st c) (PsGetProcessId p) Ht) as Hf.
    destruct (SarIdentityFindLocked (st c) (PsGetProcessId p)) as [[i e]|] eqn:E2;
      cbn [fmap option_fmap option_map snd] in Hf; rewrite <- Hf; [|done].
    apply find_Some in E2 as [Hl _]. rewrite decide_False; [done|].
    apply E. by eapply list_elem_of_lookup_2.
Qed.

Lemma strip_rights d m : is_u32 d -> is_u32 m -> d .& u32 (Z.lnot m) = Z.ldiff d m.
Proof.
  intros Hd Hm. apply Z.bits_inj'. intros i Hi.
  rewrite Z.land_spec, u32_spec, Z.lnot_spec, Z.ldiff_spec by done.
  destruct (Z.ltb_spec i 32); [by rewrite andb_true_r|]. by rewrite (testbit_high 32 d).
Qed.

Lemma target_mask o p m : ob_target o = Some (p, m) -> is_u32 m.
Proof. destruct o; intros [= <- <-]; vm_compute; split; congruence. Qed.

Lemma nothing_to_strip d m : d .& m = 0 -> Z.ldiff d m = d.
Proof.
  intros H. apply Z.bits_inj'. intros i Hi. rewrite Z.ldiff_spec.
  pose proof (f_equal (fun x => Z.testbit x i) H) as Hb. cbn beta in Hb. rewrite Z.land_spec, Z.bits_0 in Hb.
  destruct (Z.testbit d i); [|done]. cbn in Hb |- *. by rewrite Hb.
Qed.

Lemma protected_target trace c p : trust_inv trace c ->
  SarStateProtectedTarget PsGetProcessId (st c) p =
    match entry_of_process (st c) p with
    | Some e => if decide (id_state e = SAR_IDSTATE_EXEMPT) then (true, start_key e) else (false, 0)
    | None => (false, 0)
    end.
Proof.
  intros Hi. rewrite <- (find_by_process trace c p Hi). unfold SarStateProtectedTarget.
  by destruct (SarIdentityFindByProcessLocked _ _ _) as [[i e]|].
Qed.

Lemma opener_trusted trace c p : trust_inv trace c ->
  SarStateOpenerTrusted PsGetProcessId (st c) p =
    match entry_of_process (st c) p with Some e => protected_trusted e | None => false end.
Proof.
  intros Hi. rewrite <- (find_by_process trace c p Hi). unfold SarStateOpenerTrusted.
  by destruct (SarIdentityFindByProcessLocked _ _ _) as [[i e]|].
Qed.

(** The opener is the target itself or a protected process. *)
Definition may_manipulate (s : SAR_STATE) (opener target : Z) : Prop :=
  opener = target \/ (opener <> 0 /\ exists e, entry_of_process s opener = Some e /\ protected_trusted e = true).

Definition exempt_process (s : SAR_STATE) (p key : Z) : Prop :=
  exists e, entry_of_process s p = Some e /\ id_state e = SAR_IDSTATE_EXEMPT /\ start_key e = key.

(** The process behind an object, and the rights on the object that manipulate it. *)
Inductive manipulates : ob_object -> Z -> Z -> Prop :=
  | manipulates_process p : manipulates (ObProcess p) p 0xaea
  | manipulates_thread p : manipulates (ObThread p) p 0x3b2.

(** Who will own the handle: the caller who creates it, the recipient of a duplicate. *)
Inductive new_owner : ob_operation -> Z -> Z -> Prop :=
  | owner_creates current : new_owner OB_OPERATION_HANDLE_CREATE current current
  | owner_receives current p : new_owner (OB_OPERATION_HANDLE_DUPLICATE p) current p.

Lemma manipulates_target o p m : manipulates o p m -> ob_target o = Some (p, m).
Proof. by intros []. Qed.

Lemma new_owner_opener op current p : new_owner op current p -> ob_opener op current = Some p.
Proof. by intros []. Qed.

(** A handle from user mode to a process or a thread. *)
Lemma guard_user s l trace now current info target strip opener :
  SarStateCreate true true true true = Some s -> Forall step_wf trace -> is_u32 (DesiredAccess info) ->
  KernelHandle info = false -> manipulates (Object info) target strip -> target <> 0 ->
  new_owner (Operation info) current opener ->
  let c := run (init s l) trace in
  let '(granted, log') := SarObPreOperation PsGetProcessId (st c) (log c) now current info in
  (forall key, exempt_process (st c) target key -> ~ may_manipulate (st c) opener target ->
    granted = (if mode (st c) =? SEMANTICS_AR_MODE_ENFORCE then Z.ldiff (DesiredAccess info) strip
               else DesiredAccess info) /\
    log' = (if DesiredAccess info .& strip =? 0 then log c
            else log_event (log c) now SAR_EVENT_CLASS_BLOCK_INJECTION key)) /\
  ((forall key, ~ exempt_process (st c) target key) \/ may_manipulate (st c) opener target ->
    granted = DesiredAccess info /\ log' = log c).
Proof.
  intros Hs Hw Hd Hk Ho%manipulates_target Ht Hop%new_owner_opener c.
  pose proof (run_inv s l trace Hs Hw) as Hi. fold c in Hi.
  unfold SarObPreOperation. rewrite Hk, Ho, (proj2 (Z.eqb_neq _ _) Ht), Hop.
  rewrite (protected_target trace c target Hi), (opener_trusted trace c opener Hi).
  assert (Hmay : (opener =? target) ||
    (negb (opener =? 0) && match entry_of_process (st c) opener with Some e => protected_trusted e | None => false end)
    = true <-> may_manipulate (st c) opener target).
  { unfold may_manipulate. rewrite orb_true_iff, andb_true_iff, negb_true_iff, Z.eqb_eq, Z.eqb_neq.
    destruct (entry_of_process (st c) opener) as [e|].
    - split; [intros [H|[H1 H2]]; [by left|right; split; [done|by exists e]]|].
      intros [H|[H1 (e' & [= <-] & H2)]]; [by left|by right].
    - split; [intros [H|[_ H]]; [by left|done]|]. intros [H|[_ (e & H & _)]]; [by left|done]. }
  unfold exempt_process.
  destruct (entry_of_process (st c) target) as [e|]; [destruct (decide (id_state e = SAR_IDSTATE_EXEMPT)) as [Hx|Hx]|].
  - cbn [negb]. destruct (opener =? target), (negb (opener =? 0) && _); cbn [orb] in Hmay;
      [split; [intros key _ Hno; exfalso; by apply Hno, Hmay|done]..|].
    assert (Hno : (forall key, ~ (exists e0, Some e = Some e0 /\ id_state e0 = SAR_IDSTATE_EXEMPT /\ start_key e0 = key)) \/
      may_manipulate (st c) opener target -> False).
    { intros [H|H]; [|by apply Hmay in H]. apply (H (start_key e)). by exists e. }
    unfold SarStateModeGet. destruct (Z.eqb_spec (DesiredAccess info .& strip) 0) as [Hz|Hz].
    + split; [|by intros ?%Hno]. intros key (e' & [= <-] & _ & <-) _.
      rewrite (nothing_to_strip _ _ Hz). by destruct (mode (st c) =? _).
    + split; [|by intros ?%Hno]. intros key (e' & [= <-] & _ & <-) _.
      by rewrite (strip_rights _ _ Hd (target_mask _ _ _ Ho)).
  - cbn [negb]. split; [intros key (e' & [= <-] & H & _); done|done].
  - cbn [negb]. split; [intros key (e' & H & _); done|done].
Qed.

(** What the guard acts on: a handle from user mode to an exempt process or a
    thread of it, for an owner that is neither that process nor trusted. *)
Definition guarded_open (s : SAR_STATE) (info : OB_PRE_OPERATION_INFORMATION) (current target strip opener key : Z) : Prop :=
  KernelHandle info = false /\ manipulates (Object info) target strip /\ target <> 0 /\
  new_owner (Operation info) current opener /\ exempt_process s target key /\ ~ may_manipulate s opener target.

Lemma may_manipulate_dec s opener target : may_manipulate s opener target \/ ~ may_manipulate s opener target.
Proof.
  unfold may_manipulate. destruct (decide (opener = target)) as [|H1]; [by left; left|].
  destruct (decide (opener = 0)) as [|H2]; [right; tauto|].
  destruct (entry_of_process s opener) as [e|]; [destruct (protected_trusted e) eqn:He|].
  - left. right. split; [done|]. by exists e.
  - right. intros [|[_ (e' & [= <-] & H)]]; congruence.
  - right. by intros [|[_ (e' & H & _)]].
Qed.

(** Property C26: the handle guard (CONSTITUTION VI.3.1 and VII.2.1), in every state
    the driver can reach.  When a handle is opened from user mode to an exempt
    process or a thread of it, and the process that will own the handle - on
    duplication, the recipient - is neither the target nor a protected process, in
    ENFORCE the handle gets exactly the requested rights without those that allow
    manipulation, in AUDIT it gets what it asked for, and the attempt is logged with
    the target's start key exactly when such rights were requested.  In all other
    cases, kernel handles and other operations included, nothing is changed and
    nothing is logged. *)
Theorem injection_guard s l trace now current info :
  SarStateCreate true true true true = Some s -> Forall step_wf trace -> is_u32 (DesiredAccess info) ->
  let c := run (init s l) trace in
  let '(granted, log') := SarObPreOperation PsGetProcessId (st c) (log c) now current info in
  (forall target strip opener key, guarded_open (st c) info current target strip opener key ->
    granted = (if mode (st c) =? SEMANTICS_AR_MODE_ENFORCE then Z.ldiff (DesiredAccess info) strip
               else DesiredAccess info) /\
    log' = (if DesiredAccess info .& strip =? 0 then log c
            else log_event (log c) now SAR_EVENT_CLASS_BLOCK_INJECTION key)) /\
  ((forall target strip opener key, ~ guarded_open (st c) info current target strip opener key) ->
    granted = DesiredAccess info /\ log' = log c).
Proof.
  intros Hs Hw Hd c. pose proof (guard_user s l trace now current info) as Hu. cbv zeta in Hu. fold c in Hu.
  destruct (SarObPreOperation PsGetProcessId (st c) (log c) now current info) as [granted log'] eqn:E. split.
  - intros target strip opener key (Hk & Hm & Ht & Ho & Hx & Hn).
    by apply (Hu target strip opener Hs Hw Hd Hk Hm Ht Ho).
  - intros Hall. unfold SarObPreOperation in E. destruct (KernelHandle info) eqn:Hk; [by injection E as <- <-|].
    destruct (ob_target (Object info)) as [[target strip]|] eqn:Htg; [|by injection E as <- <-].
    destruct (Z.eqb_spec target 0) as [|Ht]; [by injection E as <- <-|].
    assert (Hm : manipulates (Object info) target strip)
      by (destruct (Object info); [injection Htg as <- <-; constructor..|done]).
    destruct (ob_opener (Operation info) current) as [opener|] eqn:Hop.
    2: { destruct (SarStateProtectedTarget _ _ _) as [[] k]; by injection E as <- <-. }
    assert (Ho : new_owner (Operation info) current opener)
      by (destruct (Operation info); [injection Hop as <-; constructor..|done]).
    apply (Hu target strip opener Hs Hw Hd eq_refl Hm Ht Ho).
    destruct (may_manipulate_dec (st c) opener target) as [|Hn]; [by right|]. left. intros key Hx.
    by apply (Hall target strip opener key).
Qed.

(** *** The all-zero identity *)

(** Property C35: the allow-list entry whose content hash and signer are zero
    exempts everything.  The driver accepts such an entry, and a starting process
    is matched against the allow-list with a zeroed hash and signer, so from then
    on every process whose image name is known, interpreters included, starts
    exempt. *)
Theorem zero_identity_exempts_every_process s log0 precise now w s' log' p pid info prot fo name :
  wl_inv (whitelist s) -> table_ok s -> table s !! pid = None -> id_key w = id_key zero_identity ->
  SarStateWhitelistAdd s log0 precise now w = (SAR_WL_OK, s', log') ->
  FileObject info = Some fo -> FileOpenNameAvailable info = true -> FltNormalizedName fo = Some name ->
  SarStateIdentityLookup
    (SarCreateProcessNotifyEx PsGetProcessStartKey FltNormalizedName true s' p pid (Some info) prot) pid
  = SAR_IDSTATE_EXEMPT.
Proof.
  intros Hw Ht Hfree Hk Hadd Hfo Hav Hn.
  assert (Hs' : s' = set_whitelist (sar_whitelist_add (whitelist s) w (u64 precise)).2 s /\
                (sar_whitelist_add (whitelist s) w (u64 precise)).1 = SAR_WL_OK).
  { unfold SarStateWhitelistAdd in Hadd. destruct (sar_whitelist_add _ _ _) as [r wl].
    by injection Hadd as <- <- _. }
  destruct Hs' as [-> Hok]. set (s' := set_whitelist _ s).
  unfold SarCreateProcessNotifyEx. rewrite Hfo. cbn [bool_decide andb].
  rewrite bool_decide_eq_false_2 by done. cbn [andb negb].
  pose proof (canonical_key info) as Hc.
  destruct (SarCaptureCanonicalIdentity FltNormalizedName info) as [id valid] eqn:E.
  unfold SarCaptureCanonicalIdentity in E. rewrite Hfo, Hav, Hn in E. cbn [negb] in E.
  injection E as _ <-. cbn [fst] in Hc. unfold SarStateIdentityInsert. cbn [negb].
  assert (Hm : SarStateWhitelistMatch s' id = true).
  { unfold SarStateWhitelistMatch. subst s'. cbn [set_whitelist whitelist].
    rewrite (add_match _ w _ id Hw (key_wf w Hk) (key_wf id Hc) Hok).
    rewrite bool_decide_eq_true_2; [done|]. by rewrite Hc, Hk. }
  set (e := new_entry _ _ _ _ _ _ _ _).
  assert (He : id_state e = SAR_IDSTATE_EXEMPT).
  { subst e. cbn [new_entry id_state]. rewrite Hm. by destruct (SarProcessProtectedTrusted prot). }
  assert (Ht' : table_ok s').
  { destruct Ht as [T1 T2 T3 T4]. by constructor. }
  pose proof (link_refines s' e Ht') as Hl. destruct (link_entry s' e) as [r s2]. destruct Hl as [Ht2 Htab].
  unfold spec_insert in Htab. change (process_id e) with pid in Htab. change (table s') with (table s) in Htab.
  rewrite Hfree in Htab. injection Htab as _ Htab. cbn [snd].
  unfold SarStateIdentityLookup. pose proof (find_table s2 pid Ht2) as Hf.
  rewrite Htab, lookup_insert_eq in Hf.
  destruct (SarIdentityFindLocked s2 pid) as [[i x]|]; [|done]. cbn in Hf. by injection Hf as ->.
Qed.

End Kernel.

(** ** Witnesses *)

Definition demo_pid (p : Z) : Z := p.
Definition demo_key (p : Z) : Z := p * 10 + 1.
(** Every image is called \cmd.exe. *)
Definition demo_name (_ : Z) : option (list Z) := Some [92; 99; 109; 100; 46; 101; 120; 101].
Definition demo_info : PS_CREATE_NOTIFY_INFO :=
  {| FileObject := Some 5; ImageFileName := true; FileOpenNameAvailable := true |}.
Definition demo_state : SAR_STATE := default
  {| mode := 0; whitelist := sar_whitelist_init true 0; identity_buckets := []; identity_bucket_count := 0;
     captured_key_count := 0 |} (SarStateCreate true true true true).

(** An allowed program gets its verdict while another process, which the system
    protects, is being inserted. *)
Definition demo_trace : list step :=
  [AllowAdd 3 3 (demo_id 1); ProcessStarts 7 7 demo_info None; Linked 0; VerdictArrives 7 71 (demo_id 1);
   ProcessStarts 8 8 demo_info (Some {| prot_Type := 1; prot_Signer := 6 |}); Applied 0; Linked 0;
   ModeSet 4 SEMANTICS_AR_MODE_ENFORCE].

Lemma demo_created : SarStateCreate true true true true = Some demo_state.
Proof. reflexivity. Qed.

Lemma demo_trace_wf : Forall (step_wf demo_pid) demo_trace.
Proof. repeat constructor; try apply demo_id_wf; done. Qed.

Lemma demo_not_zero : ~ was_allowed demo_trace zero_identity.
Proof.
  intros (p & n & w & Hin & Hk). unfold demo_trace in Hin.
  repeat (apply elem_of_cons in Hin as [Hin|Hin]; [try discriminate Hin|]); [|by apply not_elem_of_nil in Hin].
  injection Hin as -> -> ->. apply (f_equal (fun k => hd 0 k.1)) in Hk. vm_compute in Hk. discriminate Hk.
Qed.

Lemma exemption_is_anchored_witness :
  let c := run demo_key demo_name (init demo_state None) demo_trace in
  exists e, table (st c) !! 7 = Some e /\ process_id e = 7 /\ 7 = demo_pid (process e) /\
    start_key e = demo_key (process e) /\ (tier1 demo_trace e \/ tier2 demo_trace e).
Proof.
  apply (exemption_is_anchored demo_pid demo_key demo_name demo_state None demo_trace 7 demo_created demo_trace_wf
    demo_not_zero). vm_compute. reflexivity.
Defined.

Lemma demo_table_ok : table_ok demo_state.
Proof. apply (ti_table _ _ _ _ (created_inv demo_pid demo_key demo_state None demo_created)). Qed.

Lemma identity_table_refines_map_witness :
  table_ok demo_state /\ SarStateIdentityLookup demo_state 7 = SAR_IDSTATE_OBSERVE_PENDING.
Proof.
  split; [exact demo_table_ok|].
  rewrite (proj1 (identity_table_refines_map demo_key demo_state demo_table_ok) 7). reflexivity.
Defined.

Definition demo_open : OB_PRE_OPERATION_INFORMATION :=
  {| KernelHandle := false; Object := ObProcess 7; Operation := OB_OPERATION_HANDLE_DUPLICATE 9;
     DesiredAccess := 0x1fffff |}.

(** A process without an entry asks for full access to the exempt process 7. *)
Lemma injection_guard_witness :
  let c := run demo_key demo_name (init demo_state None) demo_trace in
  (SarObPreOperation demo_pid (st c) (log c) 5 1 demo_open).1 = 0x1ff515.
Proof.
  intros c.
  pose proof (injection_guard demo_pid demo_key demo_name demo_state None demo_trace 5 1 demo_open
    demo_created demo_trace_wf ltac:(split; [discriminate|reflexivity])) as H.
  cbv zeta in H. fold c in H. destruct (SarObPreOperation _ _ _ _ _ _) as [granted log'].
  destruct H as [H _]. destruct (H 7 0xaea 9 71) as [-> _].
  { split; [reflexivity|]. split; [apply (manipulates_process 7)|]. split; [discriminate|].
    split; [apply (owner_receives 1 9)|]. split.
  - unfold exempt_process, entry_of_process. vm_compute. eexists. split; [reflexivity|]. split; reflexivity.
  - intros [H1|(_ & e & H1 & _)]; [discriminate H1|]. vm_compute in H1. discriminate H1. }
  vm_compute. reflexivity.
Defined.

(** [cmd.exe] starts exempt. *)
Lemma zero_identity_exempts_every_process_witness :
  let '(_, s', _) := SarStateWhitelistAdd demo_state None 3 3 (demo_id 0) in
  SarStateIdentityLookup (SarCreateProcessNotifyEx demo_key demo_name true s' 7 7 (Some demo_info) None) 7
  = SAR_IDSTATE_EXEMPT /\
  SarIdentityIsInterpreter (SarCaptureCanonicalIdentity demo_name demo_info).1 = true.
Proof.
  destruct (SarStateWhitelistAdd demo_state None 3 3 (demo_id 0)) as [[r s'] l'] eqn:E. split.
  - apply (zero_identity_exempts_every_process demo_key demo_name demo_state None 3 3 (demo_id 0) s' l' 7 7
      demo_info None 5 [92; 99; 109; 100; 46; 101; 120; 101]);
      [|exact demo_table_ok|reflexivity|reflexivity| |reflexivity|reflexivity|reflexivity].
    + apply (ti_wl _ _ _ _ (created_inv demo_pid demo_key demo_state None demo_created)).
    + rewrite E. repeat f_equal. transitivity (SarStateWhitelistAdd demo_state None 3 3 (demo_id 0)).1.1;
        [by rewrite E|vm_compute; reflexivity].
  - vm_compute. reflexivity.
Defined.

End DriverTrust.
