(* ===== verification/Comm.v ===== *)
(** * The driver's communication port

    driver/commport.c: who may connect, the challenge, the dispatch of messages
    and the handlers behind it.  The stores and the recovery the handlers call are
    an interface, [Services]; the theorems hold for every implementation.  The
    message buffer does not change while a call reads it, and the buffers a caller
    passes are accessible (the [__except] branch is not modelled).  A C enum or a
    [BOOLEAN] that is copied into a reply is kept as its value. *)

From Stdlib Require Import String.
From S2P Require Import Prelude Mem Format Protocol Handshake Whitelist CipherCommon EventLog DriverState.
Import Mem Layout Protocol Whitelist DriverState.

(** ** Fields of a packed message *)

(** The offset and the size of a field. *)
Fixpoint field_at (fs : list (string * ctype)) (name : string) (off : Z) : option (Z * Z) :=
  match fs with
  | [] => None
  | (n, t) :: fs => if String.eqb n name then Some (off, csizeof t) else field_at fs name (off + csizeof t)
  end.

Definition msg_field (t : ctype) (name : string) (buf : bytes) : bytes :=
  match t with
  | Struct fs =>
    match field_at fs name 0 with
    | Some (off, n) => take (Z.to_nat n) (drop (Z.to_nat off) buf)
    | None => []
    end
  | _ => []
  end.

Definition msg_uint (t : ctype) (name : string) (buf : bytes) : Z := le_val (msg_field t name buf).

(** The three arrays of an identity in a message. *)
Definition msg_identity (t : ctype) (buf : bytes) : sar_identity_t :=
  {| image_path := bytes_u16s SEMANTICS_AR_PROTO_PATH_MAX (msg_field t "image_path" buf);
     cert_subject := bytes_u16s SEMANTICS_AR_PROTO_SUBJECT_MAX (msg_field t "cert_subject" buf);
     content_hash := msg_field t "content_hash" buf |}.

(** ** What the handlers call *)

Record SAR_PRESERVE_STATS := {
  capacity_bytes : Z;
  used_bytes : Z;
  retention_100ns : Z;
  oldest_protected_time : Z;
  protected_count : Z;
  probation_count : Z
}.

(** The keystore, the preserve store, the capture engine and the recovery as the
    port sees them, with their state [E].  A projection is [None] when the store is
    not ready, otherwise the total and the entry at the index, if there is one. *)
Class Services (E : Type) := {
  SarRecoveryExecute : E -> bytes -> E * Z * Z;
  SarPreserveRecoveryExecute : E -> bytes -> E * Z * Z;
  SarPreserveSetBudget : E -> Z -> Z -> E;
  SarPreserveStats : E -> SAR_PRESERVE_STATS;
  SarCaptureInflight : E -> Z;
  tamper_detected : E -> bool;
  SarKeystoreProject : E -> Z -> option (Z * option bytes);
  SarPreserveProject : E -> Z -> option (Z * option bytes)
}.

Module Comm.

(** ** State *)

Record SAR_COMM := {
  client_port : option Z;
  handshake : Handshake.sar_handshake_t;
  tamper_counter : Z
}.

Definition set_handshake (hs : Handshake.sar_handshake_t) (comm : SAR_COMM) : SAR_COMM :=
  {| client_port := client_port comm; handshake := hs; tamper_counter := tamper_counter comm |}.
Definition set_port (p : option Z) (comm : SAR_COMM) : SAR_COMM :=
  {| client_port := p; handshake := handshake comm; tamper_counter := tamper_counter comm |}.

(** [InterlockedIncrement64(&comm->tamper_counter)] *)
Definition tampered (comm : SAR_COMM) : SAR_COMM :=
  {| client_port := client_port comm; handshake := handshake comm;
     tamper_counter := u64 (tamper_counter comm + 1) |}.

(** The data of a reply, without its header. *)
Inductive reply :=
  | StatusReply (mode captured_key_count : Z) (stats : SAR_PRESERVE_STATS) (capture_inflight : Z)
      (integrity_halt : bool)
  | ProcessReply (valid : bool) (start_key : Z) (id_state : sar_id_state_t)
  | RecoveryResult (type status bytes_recovered : Z)
  | CatalogReply (index total : Z) (entry : option bytes)
  | PreserveReply (index total : Z) (entry : option bytes)
  | EventsReply (valid gap : bool) (record : EventLog.SAR_EVENT_RECORD)
  | WhitelistReply (index total : Z) (entry : option (sar_identity_t * Z)).

(** [sizeof(reply)] *)
Definition reply_size (r : reply) : Z :=
  match r with
  | StatusReply _ _ _ _ _ => csizeof semantics_ar_status_reply_t
  | ProcessReply _ _ _ => csizeof semantics_ar_process_reply_t
  | RecoveryResult _ _ _ => csizeof semantics_ar_recovery_result_t
  | CatalogReply _ _ _ => csizeof semantics_ar_catalog_reply_t
  | PreserveReply _ _ _ => csizeof semantics_ar_preserve_reply_t
  | EventsReply _ _ _ => csizeof semantics_ar_events_reply_t
  | WhitelistReply _ _ _ => csizeof semantics_ar_whitelist_reply_t
  end.

Section Port.
Context {E : Type} `{!Services E}.
(** The check of a signature over a nonce with the service's public key
    ([SarHandshakeVerify], done by the system's ECDSA provider), and the case
    folding of the system's string comparison. *)
Context (SarHandshakeVerify : Handshake.sar_hs_verify_fn) (RtlUpcaseUnicodeChar : Z -> Z).

Record globals := {
  g_state : SAR_STATE;
  g_eventlog : eventlog;
  g_services : E
}.

Definition set_state (s : SAR_STATE) (l : eventlog) (g : globals) : globals :=
  {| g_state := s; g_eventlog := l; g_services := g_services g |}.
Definition set_services (e : E) (g : globals) : globals :=
  {| g_state := g_state g; g_eventlog := g_eventlog g; g_services := e |}.

(** ** Connecting *)

Inductive sar_ppl_class_t := SAR_PPL_NONE | SAR_PPL_AVAILABLE | SAR_PPL_ANTIMALWARE.

(** \semantics_ar_service.exe *)
Definition g_sar_service_image_allow : list Z :=
  [92; 115; 101; 109; 97; 110; 116; 105; 99; 115; 95; 97; 114; 95; 115; 101; 114; 118; 105; 99; 101;
   46; 101; 120; 101].

Definition SarImagePathAllowed (ImageName : list Z) : bool :=
  let suffix := g_sar_service_image_allow in
  if (length ImageName <? length suffix)%nat then false
  else
    let tail := drop (length ImageName - length suffix) ImageName in
    bytes_eqb (RtlUpcaseUnicodeChar <$> tail) (RtlUpcaseUnicodeChar <$> suffix).

Definition PsProtectedTypeProtected : Z := 2.

(** [None]: the process could not be looked up, opened or queried. *)
Definition SarQueryConnectorProtection (prot : option PS_PROTECTION) : sar_ppl_class_t :=
  match prot with
  | None => SAR_PPL_NONE
  | Some p =>
    if (prot_Type p =? PsProtectedTypeProtected) && (prot_Signer p =? PsProtectedSignerAntimalware)
    then SAR_PPL_ANTIMALWARE
    else if negb (prot_Type p =? PsProtectedTypeNone) then SAR_PPL_AVAILABLE else SAR_PPL_NONE
  end.

Definition SarCommPortCreate : SAR_COMM :=
  {| client_port := None;
     handshake := Handshake.sar_handshake_init SEMANTICS_AR_PROTOCOL_VERSION (Some SarHandshakeVerify);
     tamper_counter := 0 |}.

(** The third component is [g_sar.posture.ppl_available].  [image] is the image of
    the connecting process, when it can be found; [wi_ok] and [queue_ok] say whether
    the work item could be allocated and queued. *)
Definition SarCommConnectNotify (comm : SAR_COMM) (ppl : sar_ppl_class_t) (ClientPort : Z)
    (image : option (list Z)) (wi_ok queue_ok : bool) (prot : option PS_PROTECTION)
  : NTSTATUS * SAR_COMM * sar_ppl_class_t :=
  match image with
  | None => (STATUS_ACCESS_DENIED, comm, ppl)
  | Some image =>
    if negb (SarImagePathAllowed image) then (STATUS_ACCESS_DENIED, comm, ppl)
    else
      let comm := set_handshake (Handshake.sar_handshake_init SEMANTICS_AR_PROTOCOL_VERSION
                                   (Some SarHandshakeVerify)) comm in
      let comm := set_port (Some ClientPort) comm in
      if negb wi_ok || negb queue_ok then (STATUS_ACCESS_DENIED, set_port None comm, ppl)
      else
        let ppl :=
          match SarQueryConnectorProtection prot, ppl with
          | SAR_PPL_ANTIMALWARE, _ => SAR_PPL_ANTIMALWARE
          | SAR_PPL_AVAILABLE, SAR_PPL_NONE => SAR_PPL_AVAILABLE
          | _, _ => ppl
          end in
        (STATUS_SUCCESS, comm, ppl)
  end.

(** [random = None]: the generator failed.  The last argument is the status of
    sending the challenge. *)
Definition SarIssueChallenge (comm : SAR_COMM) (random : option bytes) (sent : NTSTATUS)
  : NTSTATUS * SAR_COMM :=
  match client_port comm with
  | None => (STATUS_PORT_DISCONNECTED, comm)
  | Some _ =>
    match random with
    | None => (STATUS_UNSUCCESSFUL, comm)
    | Some nonce =>
      match Handshake.sar_handshake_issue_challenge (handshake comm) (Some nonce) with
      | (Handshake.SAR_HS_RESULT_OK, hs) => (sent, set_handshake hs comm)
      | (_, hs) => (STATUS_UNSUCCESSFUL, set_handshake hs comm)
      end
    end
  end.

Definition SarCommDisconnectNotify (comm : SAR_COMM) : SAR_COMM :=
  let comm := set_port None comm in
  set_handshake (Handshake.sar_handshake_timeout (handshake comm)) comm.

(** ** Messages *)

(** A status, the reply, the port and the driver. *)
Definition outcome : Type := NTSTATUS * option reply * SAR_COMM * globals.

Definition SarHandleConnectResponse (comm : SAR_COMM) (buf : bytes) : NTSTATUS * SAR_COMM :=
  let sig_length := msg_uint semantics_ar_connect_response_t "sig_length" buf in
  if Z.of_nat SEMANTICS_AR_HS_SIG_MAX <? sig_length then (STATUS_INVALID_PARAMETER, comm)
  else
    let signature := take (Z.to_nat sig_length) (msg_field semantics_ar_connect_response_t "signature" buf) in
    let '(r, hs) := Handshake.sar_handshake_verify_response (handshake comm) (Some signature) in
    let comm := set_handshake hs comm in
    if negb (bool_decide (r = Handshake.SAR_HS_RESULT_OK)) then (STATUS_REQUEST_NOT_ACCEPTED, tampered comm)
    else
      let '(r, hs) := Handshake.sar_handshake_check_version (handshake comm)
                        (Msg.protocol_version (Msg.header_of buf)) in
      let comm := set_handshake hs comm in
      if negb (bool_decide (r = Handshake.SAR_HS_RESULT_OK)) then (STATUS_REVISION_MISMATCH, tampered comm)
      else (STATUS_SUCCESS, comm).

(** The guard every other handler starts with. *)
Definition guarded (comm : SAR_COMM) (g : globals) (k : outcome) : outcome :=
  if negb (Handshake.sar_handshake_authenticated (handshake comm))
  then (STATUS_INVALID_DEVICE_STATE, None, tampered comm, g) else k.

(** A handler with a reply of [size] bytes; [out] is the length of the output
    buffer, [None] when it is NULL. *)
Definition replying (comm : SAR_COMM) (g : globals) (out : option Z) (size : Z) (k : outcome) : outcome :=
  guarded comm g
    match out with
    | None => (STATUS_BUFFER_TOO_SMALL, None, comm, g)
    | Some n => if n <? size then (STATUS_BUFFER_TOO_SMALL, None, comm, g) else k
    end.

Definition SarHandleGetStatus (comm : SAR_COMM) (g : globals) (out : option Z) : outcome :=
  replying comm g out (csizeof semantics_ar_status_reply_t)
    (STATUS_SUCCESS,
     Some (StatusReply (SarStateModeGet (g_state g)) (captured_key_count (g_state g))
             (SarPreserveStats (g_services g)) (SarCaptureInflight (g_services g))
             (tamper_detected (g_services g))), comm, g).

Definition SarHandleProcessQuery (comm : SAR_COMM) (g : globals) (buf : bytes) (out : option Z) : outcome :=
  replying comm g out (csizeof semantics_ar_process_reply_t)
    (let '(valid, sk, ids) := SarStateIdentityQuery (g_state g) (msg_uint semantics_ar_process_query_t "pid" buf) in
     (STATUS_SUCCESS, Some (ProcessReply valid sk ids), comm, g)).

Definition SarHandleRecoveryExec (comm : SAR_COMM) (g : globals) (buf : bytes) (out : option Z) : outcome :=
  replying comm g out (csizeof semantics_ar_recovery_result_t)
    (let '(e, status, n) := SarRecoveryExecute (g_services g) buf in
     (STATUS_SUCCESS, Some (RecoveryResult SEMANTICS_AR_MSG_RECOVERY_RESULT status n), comm, set_services e g)).

Definition SarHandleCatalogQuery (comm : SAR_COMM) (g : globals) (buf : bytes) (out : option Z) : outcome :=
  replying comm g out (csizeof semantics_ar_catalog_reply_t)
    (let index := msg_uint semantics_ar_catalog_query_t "index" buf in
     let '(total, entry) := default (0, None) (SarKeystoreProject (g_services g) index) in
     (STATUS_SUCCESS, Some (CatalogReply index (u32 total) entry), comm, g)).

Definition SarHandlePreserveQuery (comm : SAR_COMM) (g : globals) (buf : bytes) (out : option Z) : outcome :=
  replying comm g out (csizeof semantics_ar_preserve_reply_t)
    (let index := msg_uint semantics_ar_preserve_query_t "index" buf in
     let '(total, entry) := default (0, None) (SarPreserveProject (g_services g) index) in
     (STATUS_SUCCESS, Some (PreserveReply index (u32 total) entry), comm, g)).

Definition SarHandlePreserveRecover (comm : SAR_COMM) (g : globals) (buf : bytes) (out : option Z) : outcome :=
  replying comm g out (csizeof semantics_ar_recovery_result_t)
    (let '(e, status, n) := SarPreserveRecoveryExecute (g_services g) buf in
     (STATUS_SUCCESS, Some (RecoveryResult SEMANTICS_AR_MSG_PRESERVE_RESULT status n), comm, set_services e g)).

Definition SarHandleEventsQuery (comm : SAR_COMM) (g : globals) (buf : bytes) (out : option Z) : outcome :=
  replying comm g out (csizeof semantics_ar_events_reply_t)
    (let '(record, valid, gap) := EventLog.SarEventLogQuery (g_eventlog g)
        (msg_uint semantics_ar_events_query_t "generation" buf)
        (msg_uint semantics_ar_events_query_t "sequence" buf) in
     (STATUS_SUCCESS, Some (EventsReply valid gap (if valid then record else EventLog.zero_record)), comm, g)).

Definition SarHandleWhitelistQuery (comm : SAR_COMM) (g : globals) (buf : bytes) (out : option Z) : outcome :=
  replying comm g out (csizeof semantics_ar_whitelist_reply_t)
    (let index := msg_uint semantics_ar_whitelist_query_t "index" buf in
     let '(_, total, entry) := SarStateWhitelistEnumerate (g_state g) index in
     (STATUS_SUCCESS, Some (WhitelistReply index total entry), comm, g)).

Definition wl_result (s : sar_wl_status_t) : NTSTATUS :=
  if decide (s = SAR_WL_OK) then STATUS_SUCCESS else STATUS_UNSUCCESSFUL.

(** [input = None] is a NULL buffer; [precise] and [now] are the two clocks. *)
Definition SarCommMessageNotify (comm : SAR_COMM) (g : globals) (precise now : Z) (input : option bytes)
    (out : option Z) : outcome :=
  match input with
  | None => (STATUS_INVALID_PARAMETER, None, comm, g)
  | Some buf =>
    let '(mv, type) := Msg.sar_msg_validate input in
    if negb (bool_decide (mv = Msg.SAR_MSG_OK)) then (STATUS_INVALID_PARAMETER, None, tampered comm, g)
    else if type =? SEMANTICS_AR_MSG_CONNECT_RESPONSE then
      let '(status, comm) := SarHandleConnectResponse comm buf in (status, None, comm, g)
    else if type =? SEMANTICS_AR_MSG_GET_STATUS then SarHandleGetStatus comm g out
    else if type =? SEMANTICS_AR_MSG_RECOVERY_EXEC then SarHandleRecoveryExec comm g buf out
    else if type =? SEMANTICS_AR_MSG_CATALOG_QUERY then SarHandleCatalogQuery comm g buf out
    else if type =? SEMANTICS_AR_MSG_PRESERVE_QUERY then SarHandlePreserveQuery comm g buf out
    else if type =? SEMANTICS_AR_MSG_PRESERVE_RECOVER then SarHandlePreserveRecover comm g buf out
    else if type =? SEMANTICS_AR_MSG_EVENTS_QUERY then SarHandleEventsQuery comm g buf out
    else if type =? SEMANTICS_AR_MSG_SET_BUDGET then
      guarded comm g
        (STATUS_SUCCESS, None, comm,
         set_services (SarPreserveSetBudget (g_services g)
                         (msg_uint semantics_ar_set_budget_t "retention_100ns" buf)
                         (msg_uint semantics_ar_set_budget_t "capacity_bytes" buf)) g)
    else if type =? SEMANTICS_AR_MSG_SET_MODE then
      guarded comm g
        (let '(ok, s, l) := SarStateModeSet (g_state g) (g_eventlog g) now
                              (msg_uint semantics_ar_set_mode_t "mode" buf) in
         (if ok : bool then STATUS_SUCCESS else STATUS_INVALID_PARAMETER, None, comm, set_state s l g))
    else if (type =? SEMANTICS_AR_MSG_WHITELIST_ADD) || (type =? SEMANTICS_AR_MSG_WHITELIST_REMOVE) then
      guarded comm g
        (let id := msg_identity semantics_ar_whitelist_control_t buf in
         let '(r, s, l) := if type =? SEMANTICS_AR_MSG_WHITELIST_ADD
                           then SarStateWhitelistAdd (g_state g) (g_eventlog g) precise now id
                           else SarStateWhitelistRemove (g_state g) (g_eventlog g) now id in
         (wl_result r, None, comm, set_state s l g))
    else if type =? SEMANTICS_AR_MSG_PROCESS_QUERY then SarHandleProcessQuery comm g buf out
    else if type =? SEMANTICS_AR_MSG_WHITELIST_QUERY then SarHandleWhitelistQuery comm g buf out
    else if type =? SEMANTICS_AR_MSG_IDENTITY_VERDICT then
      guarded comm g
        (let '(ok, s) := SarStateIdentityApplyVerdict (g_state g)
                           (msg_uint semantics_ar_identity_verdict_t "pid" buf)
                           (msg_uint semantics_ar_identity_verdict_t "start_key" buf)
                           (msg_identity semantics_ar_identity_verdict_t buf) in
         (if ok : bool then STATUS_SUCCESS else STATUS_UNSUCCESSFUL, None, comm, set_state s (g_eventlog g) g))
    else (STATUS_INVALID_PARAMETER, None, tampered comm, g)
  end.

(** ** Runs of the port *)

(** The callbacks of the port: a connection attempt, the worker that sends the
    challenge, a message and the end of a connection. *)
Inductive event :=
  | Connect (ClientPort : Z) (image : option (list Z)) (wi_ok queue_ok : bool) (prot : option PS_PROTECTION)
  | Challenge (random : option bytes) (sent : NTSTATUS)
  | Message (precise now : Z) (input : option bytes) (out : option Z)
  | Disconnect.

Record port := { comm : SAR_COMM; ppl : sar_ppl_class_t; drv : globals }.

Definition do_event (p : port) (e : event) : port :=
  match e with
  | Connect cp image wi_ok queue_ok prot =>
    let '(_, c, l) := SarCommConnectNotify (comm p) (ppl p) cp image wi_ok queue_ok prot in
    {| comm := c; ppl := l; drv := drv p |}
  | Challenge random sent =>
    {| comm := (SarIssueChallenge (comm p) random sent).2; ppl := ppl p; drv := drv p |}
  | Message precise now input out =>
    let '(_, _, c, g) := SarCommMessageNotify (comm p) (drv p) precise now input out in
    {| comm := c; ppl := ppl p; drv := g |}
  | Disconnect => {| comm := SarCommDisconnectNotify (comm p); ppl := ppl p; drv := drv p |}
  end.

Definition run_port (p : port) (events : list event) : port := fold_left do_event events p.

Definition fresh_port (g : globals) : port := {| comm := SarCommPortCreate; ppl := SAR_PPL_NONE; drv := g |}.

(** ** What authentication proves *)

(** A connection attempt by a process with the service's image. *)
Definition admits (e : event) : bool :=
  match e with Connect _ (Some image) _ _ _ => SarImagePathAllowed image | _ => false end.

Definition signature_of (buf : bytes) : bytes :=
  take (Z.to_nat (msg_uint semantics_ar_connect_response_t "sig_length" buf))
    (msg_field semantics_ar_connect_response_t "signature" buf).

(** A message that answers the challenge [r]. *)
Definition answers (r : bytes) (e : event) : Prop :=
  exists precise now buf out, e = Message precise now (Some buf) out /\
    Msg.sar_msg_validate (Some buf) = (Msg.SAR_MSG_OK, SEMANTICS_AR_MSG_CONNECT_RESPONSE) /\
    SarHandshakeVerify r 32 (signature_of buf) = true.

Definition connected (events : list event) : Prop :=
  exists a k b, events = a ++ k :: b /\ admits k = true /\ Forall (fun e => admits e = false) b.

Definition challenged (events : list event) (r : bytes) : Prop :=
  exists a sent c, events = a ++ Challenge (Some r) sent :: c /\ connected a /\
    Forall (fun e => admits e = false) c /\ length r = Handshake.SAR_HS_NONCE_SIZE.

(** Since the last admitted connection a challenge was sent and answered. *)
Definition proven (events : list event) : Prop :=
  exists a r m c, events = a ++ m :: c /\ challenged a r /\ answers r m /\ Forall (fun e => admits e = false) c.

Definition port_history (events : list event) (c : SAR_COMM) : Prop :=
  match Handshake.phase (handshake c) with
  | Handshake.SAR_HS_INIT => client_port c <> None -> connected events
  | Handshake.SAR_HS_CHALLENGE_ISSUED =>
    challenged events (Handshake.nonce (handshake c)) /\ Handshake.nonce_len (handshake c) = 32
  | Handshake.SAR_HS_AUTHENTICATED => False
  | Handshake.SAR_HS_VERSIONED => proven events
  | Handshake.SAR_HS_REJECTED => True
  end.

Definition port_inv (events : list event) (c : SAR_COMM) : Prop :=
  port_history events c /\
  Handshake.hs_ok SarHandshakeVerify SEMANTICS_AR_PROTOCOL_VERSION (handshake c).

Lemma connected_app events e : admits e = false -> connected events -> connected (events ++ [e]).
Proof.
  intros He (a & k & b & -> & Hk & Hb). exists a, k, (b ++ [e]). split_and!; [by rewrite <- app_assoc|done|].
  apply Forall_app. by rewrite Forall_singleton.
Qed.

Lemma challenged_app events e r : admits e = false -> challenged events r -> challenged (events ++ [e]) r.
Proof.
  intros He (a & s & c & -> & Ha & Hc & Hl). exists a, s, (c ++ [e]).
  split_and!; [by rewrite <- app_assoc|done| |done]. apply Forall_app. by rewrite Forall_singleton.
Qed.

Lemma proven_app events e : admits e = false -> proven events -> proven (events ++ [e]).
Proof.
  intros He (a & r & m & c & -> & Ha & Hm & Hc). exists a, r, m, (c ++ [e]).
  split_and!; [by rewrite <- app_assoc|done|done|]. apply Forall_app. by rewrite Forall_singleton.
Qed.

(** An event that leaves the handshake alone and opens no port. *)
Lemma port_inv_same events e c c' : admits e = false -> port_inv events c -> handshake c' = handshake c ->
  (client_port c' <> None -> client_port c <> None) -> port_inv (events ++ [e]) c'.
Proof.
  unfold port_inv, port_history. intros He [Hh Hok] Hs Hp. rewrite Hs. split; [|done].
  destruct (Handshake.phase (handshake c)); [| |done| |done].
  - intros H. apply connected_app; auto.
  - destruct Hh. split; [by apply challenged_app|done].
  - by apply proven_app.
Qed.

Lemma inv_rejected events c : Handshake.phase (handshake c) = Handshake.SAR_HS_REJECTED ->
  Handshake.hs_ok SarHandshakeVerify SEMANTICS_AR_PROTOCOL_VERSION (handshake c) -> port_inv events c.
Proof. intros Hp Hok. split; [|done]. unfold port_history. by rewrite Hp. Qed.

Lemma connect_inv events p cp image wi_ok queue_ok prot : port_inv events (comm p) ->
  port_inv (events ++ [Connect cp image wi_ok queue_ok prot])
    (comm (do_event p (Connect cp image wi_ok queue_ok prot))).
Proof.
  intros Hi. cbn [do_event]. unfold SarCommConnectNotify. destruct image as [image|].
  2: { cbn [comm]. by eapply port_inv_same. }
  destruct (SarImagePathAllowed image) eqn:Ha; cbn [negb].
  2: { cbn [comm]. by eapply port_inv_same. }
  assert (Hc : connected (events ++ [Connect cp (Some image) wi_ok queue_ok prot])).
  { exists events, (Connect cp (Some image) wi_ok queue_ok prot), []. split_and!; [done|done|constructor]. }
  destruct (negb wi_ok || negb queue_ok); cbn [comm]; (split; [by intros _|by repeat split]).
Qed.

Lemma challenge_inv events p random sent : port_inv events (comm p) ->
  port_inv (events ++ [Challenge random sent]) (comm (do_event p (Challenge random sent))).
Proof.
  intros Hi. cbn [do_event comm]. unfold SarIssueChallenge.
  destruct (client_port (comm p)) as [cp|] eqn:Ecp; [|by eapply port_inv_same].
  destruct random as [r|]; [|by eapply port_inv_same].
  pose proof Hi as [Hh Hok]. pose proof (Handshake.hs_step_ok _ _ _ (Handshake.Issue (Some r)) Hok) as Hok'.
  cbn [Handshake.hs_step] in Hok'. unfold Handshake.sar_handshake_issue_challenge in *.
  destruct (Nat.eqb_spec (length r) Handshake.SAR_HS_NONCE_SIZE) as [Er|]; cbn [negb] in *.
  2: { eapply port_inv_same; [done|exact Hi|done|done]. }
  destruct (bool_decide_reflect (Handshake.phase (handshake (comm p)) = Handshake.SAR_HS_INIT)) as [Hp|Hp];
    cbn [negb snd] in *; [|eapply port_inv_same; [done|exact Hi|done|done]].
  split; [|exact Hok']. unfold port_history. cbn [set_handshake handshake Handshake.phase Handshake.nonce Handshake.nonce_len].
  split; [|done]. rewrite mem_write_all by (destruct Hok as (_ & _ & ->); lia).
  exists events, sent, []. split_and!; [done| |constructor|done].
  unfold port_history in Hh. rewrite Hp in Hh. apply Hh. by rewrite Ecp.
Qed.

Lemma response_inv events c precise now buf out :
  Msg.sar_msg_validate (Some buf) = (Msg.SAR_MSG_OK, SEMANTICS_AR_MSG_CONNECT_RESPONSE) ->
  Msg.protocol_version (Msg.header_of buf) = SEMANTICS_AR_PROTOCOL_VERSION -> port_inv events c ->
  port_inv (events ++ [Message precise now (Some buf) out]) (SarHandleConnectResponse c buf).2.
Proof.
  intros Hv Hver Hi. unfold SarHandleConnectResponse. set (m := Message _ _ _ _). fold (signature_of buf).
  destruct (_ <? _) eqn:Elen; [by eapply port_inv_same|]. pose proof Hi as [Hh (Ok1 & Ok2 & Ok3)].
  unfold Handshake.sar_handshake_verify_response.
  destruct (bool_decide_reflect (Handshake.phase (handshake c) = Handshake.SAR_HS_CHALLENGE_ISSUED)) as [Hp|Hp];
    cbn [negb].
  2: { cbn [bool_decide negb]. rewrite bool_decide_eq_false_2 by done. cbn [negb snd].
       eapply port_inv_same; [done|exact Hi|done|done]. }
  rewrite Ok1. unfold port_history in Hh. rewrite Hp in Hh. destruct Hh as [Hc Hl].
  destruct (SarHandshakeVerify _ _ _) eqn:Es; cbn [negb].
  2: { rewrite bool_decide_eq_false_2 by done. cbn [negb snd]. by apply inv_rejected. }
  rewrite bool_decide_eq_true_2 by done. cbn [negb].
  unfold Handshake.sar_handshake_check_version. cbn [set_handshake handshake Handshake.set_phase Handshake.phase
    Handshake.version_local].
  rewrite bool_decide_eq_true_2 by done. cbn [negb]. rewrite Hver, Ok2, Z.eqb_refl. cbn [negb].
  rewrite bool_decide_eq_true_2 by done. cbn [negb snd]. split; [|done].
  unfold port_history. cbn. exists events, (Handshake.nonce (handshake c)), m, [].
  split_and!; [done|done| |constructor]. exists precise, now, buf, out. rewrite Hl in Es. done.
Qed.

(** ** Frames *)

(** The outcome leaves the handshake and the port alone and, without
    authentication, has no reply and no effect on the driver. *)
Definition framed (c : SAR_COMM) (g : globals) (o : outcome) : Prop :=
  let '(_, r, c', g') := o in
  handshake c' = handshake c /\ client_port c' = client_port c /\
  (Handshake.sar_handshake_authenticated (handshake c) = false -> r = None /\ g' = g).

Lemma framed_guarded c g k : k.1.2 = c -> framed c g (guarded c g k).
Proof.
  intros Hk. unfold guarded. destruct (Handshake.sar_handshake_authenticated (handshake c)) eqn:Ea; cbn [negb].
  - destruct k as [[[st r] c'] g']. cbn in Hk. subst c'. split_and!; [done|done|]. by rewrite Ea.
  - by split_and!.
Qed.

Lemma framed_replying c g out size k : k.1.2 = c -> framed c g (replying c g out size k).
Proof.
  intros Hk. apply framed_guarded. destruct out as [n|]; [|done]. by destruct (n <? size).
Qed.

Lemma framed_tampered c g s : framed c g (s, None, tampered c, g).
Proof. by split_and!. Qed.

Lemma message_framed c g precise now buf out ty mv : Msg.sar_msg_validate (Some buf) = (mv, ty) ->
  ~ (mv = Msg.SAR_MSG_OK /\ ty = SEMANTICS_AR_MSG_CONNECT_RESPONSE) ->
  framed c g (SarCommMessageNotify c g precise now (Some buf) out).
Proof.
  intros Hv Hn. unfold SarCommMessageNotify. rewrite Hv.
  destruct (bool_decide_reflect (mv = Msg.SAR_MSG_OK)) as [Hmv|_]; cbn [negb]; [|apply framed_tampered].
  destruct (Z.eqb_spec ty SEMANTICS_AR_MSG_CONNECT_RESPONSE) as [Hty|_]; [by destruct Hn|]. clear Hv Hn.
  repeat match goal with
  | |- framed _ _ (if ?b then _ else _) => destruct b
  end; unfold SarHandleGetStatus, SarHandleRecoveryExec, SarHandleCatalogQuery, SarHandlePreserveQuery,
    SarHandlePreserveRecover, SarHandleEventsQuery, SarHandleProcessQuery, SarHandleWhitelistQuery; first
  [ apply framed_tampered
  | apply framed_replying; repeat case_match; done
  | apply framed_guarded; repeat case_match; done ].
Qed.

Lemma message_inv events p precise now input out : port_inv events (comm p) ->
  port_inv (events ++ [Message precise now input out]) (comm (do_event p (Message precise now input out))).
Proof.
  intros Hi. cbn [do_event]. destruct input as [buf|]; [|by eapply port_inv_same].
  destruct (Msg.sar_msg_validate (Some buf)) as [mv ty] eqn:Ev.
  destruct (decide (mv = Msg.SAR_MSG_OK /\ ty = SEMANTICS_AR_MSG_CONNECT_RESPONSE)) as [[-> ->]|Hn].
  - pose proof (proj1 (Msg.validate_iff _ _) Ev) as (_ & Hver & _).
    unfold SarCommMessageNotify. rewrite Ev. rewrite bool_decide_eq_true_2 by done. cbn [negb].
    rewrite Z.eqb_refl. pose proof (response_inv events (comm p) precise now buf out Ev Hver Hi) as Hr.
    by destruct (SarHandleConnectResponse (comm p) buf) as [status c].
  - pose proof (message_framed (comm p) (drv p) precise now buf out ty mv Ev Hn) as Hf.
    destruct (SarCommMessageNotify _ _ _ _ _ _) as [[[s r] c] g]. destruct Hf as (Hh & Hp & _). cbn [comm].
    eapply port_inv_same; [done|exact Hi|done|]. by rewrite Hp.
Qed.

Lemma disconnect_inv events p : port_inv events (comm p) ->
  port_inv (events ++ [Disconnect]) (comm (do_event p Disconnect)).
Proof.
  intros Hi. cbn [do_event comm]. unfold SarCommDisconnectNotify, Handshake.sar_handshake_timeout.
  cbn [set_port handshake]. case_bool_decide as Hp; cbn [negb].
  - eapply port_inv_same; [done|exact Hi|done|done].
  - destruct Hi as [_ Hok]. by apply inv_rejected.
Qed.

Lemma event_inv events p e : port_inv events (comm p) -> port_inv (events ++ [e]) (comm (do_event p e)).
Proof.
  destruct e; [apply connect_inv|apply challenge_inv|apply message_inv|apply disconnect_inv].
Qed.

Lemma run_port_inv_from done_events p events : port_inv done_events (comm p) ->
  port_inv (done_events ++ events) (comm (run_port p events)).
Proof.
  revert done_events p. induction events as [|e events IH]; intros de p Hi; [by rewrite app_nil_r|].
  cbn [run_port fold_left]. replace (de ++ e :: events) with ((de ++ [e]) ++ events) by by rewrite <- app_assoc.
  by apply IH, event_inv.
Qed.

Lemma run_port_inv g events : port_inv events (comm (run_port (fresh_port g) events)).
Proof.
  apply (run_port_inv_from [] (fresh_port g)). split; [|by repeat split]. by intros [].
Qed.

(** Property C24: nothing happens on the port without proof of identity.  Whatever
    connections, challenges, messages and disconnections the driver has seen, if a
    message changes the driver - mode, allow-list, process table, event log, stores
    - or gets any reply, then before it, and since the last connection by a process
    with the service's image, a 32-byte challenge was sent and a valid response
    message carried a signature that the verification accepted for exactly that
    challenge. *)
Theorem comm_effects_need_proof g events precise now input out :
  let p := run_port (fresh_port g) events in
  let '(status, r, c', g') := SarCommMessageNotify (comm p) (drv p) precise now input out in
  r <> None \/ g' <> drv p -> proven events.
Proof.
  intros p. pose proof (run_port_inv g events) as [Hh _]. fold p in Hh.
  assert (Ha : Handshake.sar_handshake_authenticated (handshake (comm p)) = true -> proven events).
  { unfold Handshake.sar_handshake_authenticated. rewrite bool_decide_eq_true. intros Hp.
    unfold port_history in Hh. by rewrite Hp in Hh. }
  destruct input as [buf|]; [|by intros [H|H]].
  destruct (Msg.sar_msg_validate (Some buf)) as [mv ty] eqn:Ev.
  destruct (decide (mv = Msg.SAR_MSG_OK /\ ty = SEMANTICS_AR_MSG_CONNECT_RESPONSE)) as [[-> ->]|Hn].
  - unfold SarCommMessageNotify. rewrite Ev, bool_decide_eq_true_2 by done. cbn [negb]. rewrite Z.eqb_refl.
    destruct (SarHandleConnectResponse (comm p) buf) as [s c]. by intros [H|H].
  - pose proof (message_framed (comm p) (drv p) precise now buf out ty mv Ev Hn) as Hf.
    destruct (SarCommMessageNotify _ _ _ _ _ _) as [[[s r] c] g']. destruct Hf as (_ & _ & Hf).
    intros Hx. apply Ha. destruct (Handshake.sar_handshake_authenticated (handshake (comm p))); [done|].
    destruct (Hf eq_refl) as [-> ->]. by destruct Hx.
Qed.

End Port.

(** ** Witnesses *)

(** Stores that hold nothing. *)
Definition no_stats : SAR_PRESERVE_STATS :=
  {| capacity_bytes := 0; used_bytes := 0; retention_100ns := 0; oldest_protected_time := 0;
     protected_count := 0; probation_count := 0 |}.

#[local] Instance demo_services : Services unit := {|
  SarRecoveryExecute e _ := (e, 0, 0);
  SarPreserveRecoveryExecute e _ := (e, 0, 0);
  SarPreserveSetBudget e _ _ := e;
  SarPreserveStats _ := no_stats;
  SarCaptureInflight _ := 0;
  tamper_detected _ := false;
  SarKeystoreProject _ _ := None;
  SarPreserveProject _ _ := None
|}.

(** A signature scheme in which a nonce signs itself. *)
Definition demo_verify : Handshake.sar_hs_verify_fn := fun nonce _ sig => bytes_eqb nonce sig.
Definition demo_nonce : bytes := replicate 32 9.
Definition demo_response : bytes :=
  Msg.make_message SEMANTICS_AR_MSG_CONNECT_RESPONSE (le_bytes 4 32 ++ demo_nonce ++ replicate 480 0).

Definition demo_driver : globals (E := unit) :=
  {| g_state := {| mode := 0; whitelist := sar_whitelist_init true SAR_WHITELIST_CAPACITY;
                   identity_buckets := [[]]; identity_bucket_count := 1; captured_key_count := 0 |};
     g_eventlog := None; g_services := tt |}.

Definition demo_events : list event :=
  [Connect 1 (Some g_sar_service_image_allow) true true None; Challenge (Some demo_nonce) STATUS_SUCCESS;
   Message 1 1 (Some demo_response) None].

Lemma comm_effects_need_proof_witness : proven demo_verify (fun c => c) demo_events.
Proof.
  pose proof (comm_effects_need_proof demo_verify (fun c => c) demo_driver demo_events 2 2
    (Some (Msg.make_message SEMANTICS_AR_MSG_GET_STATUS [])) (Some 100)) as H.
  cbv zeta in H.
  assert (Hr : match SarCommMessageNotify (comm (run_port demo_verify (fun c => c) (fresh_port demo_verify demo_driver) demo_events))
      (drv (run_port demo_verify (fun c => c) (fresh_port demo_verify demo_driver) demo_events)) 2 2
      (Some (Msg.make_message SEMANTICS_AR_MSG_GET_STATUS [])) (Some 100) with (_, Some _, _, _) => true | _ => false end = true)
    by (vm_compute; reflexivity).
  destruct (SarCommMessageNotify _ _ _ _ _ _) as [[[status r] c'] g']. apply H. left. by destruct r.
Defined.

End Comm.
