(* ===== verification/Service.v ===== *)
(** * The service's side of the port

    service/control.c (the messages that change the mode and the allow-list) and
    service/autoverdict.c (the registry of allowed image paths and the verdict for
    a process).  The answers of the system - the image of a process, the evaluation
    of a file, the driver's reply - are arguments, in the order in which the code
    asks for them; the theorems connect the messages to the driver of Comm.v. *)

From stdpp Require Import gmap.
From Stdlib Require Import String.
From S2P Require Import Prelude Mem Format Keystore Protocol Handshake Whitelist CipherCommon EventLog.
From S2P Require Import DriverState DriverTrust Comm.
Import Mem Layout Protocol Whitelist Interpreter DriverState DriverTrust.

Module Service.

Definition SAR_CTL_OP_WHITELIST_ADD : Z := 2.
Definition SAR_CTL_OP_WHITELIST_REMOVE : Z := 3.

Inductive sar_identity_verdict_t :=
  | SAR_IDENTITY_VERDICT_VERIFIED | SAR_IDENTITY_VERDICT_UNSIGNED | SAR_IDENTITY_VERDICT_HASH_FAILED
  | SAR_IDENTITY_VERDICT_PATH_FAILED | SAR_IDENTITY_VERDICT_ERROR.

(** ** Messages *)

Definition msg_header_bytes (ty len : Z) : bytes :=
  le_bytes 4 SEMANTICS_AR_PROTOCOL_VERSION ++ le_bytes 4 ty ++ le_bytes 4 (u32 len).

Definition identity_bytes (id : sar_identity_t) : bytes :=
  u16s_bytes (image_path id) ++ u16s_bytes (cert_subject id) ++ content_hash id.

(** The message that is sent; [None] is [SAR_COMM_ERR_PROTOCOL]. *)
Definition sar_control_send_mode (mode : Z) : option bytes :=
  if negb (mode =? SEMANTICS_AR_MODE_AUDIT) && negb (mode =? SEMANTICS_AR_MODE_ENFORCE) then None
  else Some (msg_header_bytes SEMANTICS_AR_MSG_SET_MODE (csizeof semantics_ar_set_mode_t) ++ le_bytes 4 mode).

Definition sar_control_send_whitelist (op : Z) (identity : option sar_identity_t) : option bytes :=
  match identity with
  | None => None
  | Some id =>
    let msg ty := Some (msg_header_bytes ty (csizeof semantics_ar_whitelist_control_t) ++ identity_bytes id) in
    if op =? SAR_CTL_OP_WHITELIST_ADD then msg SEMANTICS_AR_MSG_WHITELIST_ADD
    else if op =? SAR_CTL_OP_WHITELIST_REMOVE then msg SEMANTICS_AR_MSG_WHITELIST_REMOVE
    else None
  end.

(** [image]: the image of the process with that id, when it can be asked; [reply]: the
    driver's answer to the process query, as (valid, start key, state); [eval]: the
    evaluation of the file.  The result and the verdict message, if one is sent;
    [sent] says whether the port took it. *)
Definition sar_verdict_pid (pid : Z) (image : option (list Z)) (reply : option (bool * Z * sar_id_state_t))
    (eval : sar_identity_verdict_t * sar_identity_t) (sent : bool) : sar_identity_verdict_t * option bytes :=
  match image with
  | None | Some [] => (SAR_IDENTITY_VERDICT_ERROR, None)
  | Some _ =>
    match reply with
    | None => (SAR_IDENTITY_VERDICT_ERROR, None)
    | Some (valid, start_key, _) =>
      if negb valid || (start_key =? 0) then (SAR_IDENTITY_VERDICT_ERROR, None)
      else
        match eval with
        | (SAR_IDENTITY_VERDICT_VERIFIED, id) =>
          (if sent then SAR_IDENTITY_VERDICT_VERIFIED else SAR_IDENTITY_VERDICT_ERROR,
           Some (msg_header_bytes SEMANTICS_AR_MSG_IDENTITY_VERDICT (csizeof semantics_ar_identity_verdict_t) ++
                 le_bytes 8 pid ++ le_bytes 8 start_key ++ identity_bytes id))
        | (v, _) => (v, None)
        end
    end
  end.

(** ** The registry of allowed paths *)

Section Registry.
(** The case folding of [_wcsicmp]. *)
Context (fold_case : Z -> Z).

Definition SAR_AV_MAX_PATHS : nat := 256.

Definition wcsicmp_eq (a b : list Z) : bool := bytes_eqb (fold_case <$> a) (fold_case <$> b).

(** [wcsncpy_s(dst, SEMANTICS_AR_PROTO_PATH_MAX, src, _TRUNCATE)] *)
Definition copy_path (p : list Z) : list Z := take (SEMANTICS_AR_PROTO_PATH_MAX - 1) p.

Fixpoint find_path (paths : list (list Z)) (path : list Z) (i : nat) : nat :=
  match paths with
  | [] => i
  | p :: paths => if wcsicmp_eq p path then i else find_path paths path (S i)
  end.

(** The registry, and whether the poller is told to look at all processes again. *)
Definition sar_autoverdict_note (paths : list (list Z)) (rescan : bool) (path : list Z) (add : bool)
  : list (list Z) * bool :=
  match path with
  | [] => (paths, rescan)
  | _ =>
    let i := find_path paths path 0 in
    if add then
      if (i =? length paths)%nat && (length paths <? SAR_AV_MAX_PATHS)%nat
      then (paths ++ [copy_path path], true) else (paths, rescan)
    else if (i <? length paths)%nat then (delete i paths, rescan) else (paths, rescan)
  end.

Definition sar_av_path_is_candidate (paths : list (list Z)) (path : list Z) : bool :=
  existsb (fun p => wcsicmp_eq p path) paths.

End Registry.

(** ** Decoding what was sent *)

(** The fixed arrays of an identity in C. *)
Record id_full (id : sar_identity_t) : Prop := {
  if_wf : id_wf id;
  if_path : length (image_path id) = SEMANTICS_AR_PROTO_PATH_MAX;
  if_path_u : Forall is_u16 (image_path id)
}.

Lemma bytes_u16s_u16s n l : length l = n -> Forall is_u16 l -> bytes_u16s n (u16s_bytes l) = l.
Proof. intros Hl Hu. apply (dec_enc (CodecOk := c_u16s_ok n) l). by split. Qed.

Lemma identity_fields pre id n : id_full id -> length pre = n ->
  let buf := pre ++ identity_bytes id in
  {| image_path := bytes_u16s SEMANTICS_AR_PROTO_PATH_MAX (take 520 (drop n buf));
     cert_subject := bytes_u16s SEMANTICS_AR_PROTO_SUBJECT_MAX (take 512 (drop (n + 520) buf));
     content_hash := take 32 (drop (n + 1032) buf) |} = id.
Proof.
  intros [(Hh & Hs & Hsu) Hp Hpu] Hn buf. unfold buf, identity_bytes.
  assert (Lp : length (u16s_bytes (image_path id)) = 520%nat) by (by rewrite Keystore.length_u16s_bytes, Hp).
  assert (Ls : length (u16s_bytes (cert_subject id)) = 512%nat) by (by rewrite Keystore.length_u16s_bytes, Hs).
  rewrite (drop_app_length' pre) by done. rewrite take_app_length' by done.
  rewrite <- (drop_drop (pre ++ _) 520 n), (drop_app_length' pre) by done.
  rewrite (drop_app_length' (u16s_bytes (image_path id))) by done. rewrite take_app_length' by done.
  replace (n + 1032)%nat with (n + (520 + 512))%nat by lia.
  rewrite <- (drop_drop (pre ++ _) (520 + 512) n), (drop_app_length' pre) by done.
  rewrite <- drop_drop, (drop_app_length' (u16s_bytes (image_path id))), (drop_app_length' (u16s_bytes (cert_subject id))) by done.
  rewrite take_ge by (by rewrite Hh). rewrite !bytes_u16s_u16s by done. by destruct id.
Qed.

Lemma length_identity_bytes id : id_full id -> length (identity_bytes id) = 1064%nat.
Proof.
  intros [(Hh & Hs & _) Hp _]. unfold identity_bytes.
  by rewrite !length_app, !Keystore.length_u16s_bytes, Hh, Hs, Hp.
Qed.

(** The test of a constant message type against the next case. *)
Ltac next_case ty :=
  match goal with
  | |- context [ty =? ?b] => let v := eval vm_compute in (ty =? b) in change (ty =? b) with v; cbn [orb]
  end.

Section Delivery.
Context {E : Type} `{!Services E} (c : Comm.SAR_COMM) (g : Comm.globals (E := E)) (precise now : Z) (out : option Z).
Hypothesis Hauth : Handshake.sar_handshake_authenticated (Comm.handshake c) = true.

Lemma guarded_open k : Comm.guarded c g k = k.
Proof using Hauth. unfold Comm.guarded. by rewrite Hauth. Qed.

Lemma dispatch ty body :
  Msg.known_type ty ->
  Z.of_nat (length body) = Msg.sar_msg_expected_length ty - 12 ->
  Msg.sar_msg_validate (Some (Msg.make_message ty body)) = (Msg.SAR_MSG_OK, ty).
Proof. apply Msg.msg_make_validate. Qed.

Lemma mode_delivers m msg : sar_control_send_mode m = Some msg ->
  Comm.SarCommMessageNotify c g precise now (Some msg) out =
    let '(ok, s, l) := SarStateModeSet (Comm.g_state g) (Comm.g_eventlog g) now m in
    (STATUS_SUCCESS, None, c, Comm.set_state s l g).
Proof using Hauth.
  unfold sar_control_send_mode. destruct (negb _ && negb _) eqn:Em; [done|]. intros H. apply (inj Some) in H.
  assert (Hm : is_u32 m).
  { apply andb_false_iff in Em as [Hx|Hx]; bsimp; subst m; by vm_compute. }
  change (Msg.make_message SEMANTICS_AR_MSG_SET_MODE (le_bytes 4 m) = msg) in H. subst msg.
  unfold Comm.SarCommMessageNotify. rewrite dispatch; [|by vm_compute|done].
  rewrite bool_decide_eq_true_2 by done. cbn [negb]. repeat next_case SEMANTICS_AR_MSG_SET_MODE.
  cbv iota. rewrite guarded_open.
  assert (Hf : msg_uint semantics_ar_set_mode_t "mode" (Msg.make_message SEMANTICS_AR_MSG_SET_MODE (le_bytes 4 m)) = m).
  { change (le_val (le_bytes 4 m) = m). by apply le_val_le_bytes. }
  rewrite Hf. unfold SarStateModeSet, Mode.sar_mode_set. by rewrite Em.
Qed.

Lemma make_message_prefix ty body : Msg.make_message ty body =
  (le_bytes 4 SEMANTICS_AR_PROTOCOL_VERSION ++ le_bytes 4 ty ++ le_bytes 4 (Msg.sar_msg_expected_length ty)) ++ body.
Proof. unfold Msg.make_message. by rewrite <- !app_assoc. Qed.

Lemma whitelist_identity ty id : id_full id ->
  msg_identity semantics_ar_whitelist_control_t (Msg.make_message ty (identity_bytes id)) = id.
Proof. intros Hid. rewrite make_message_prefix. by apply (identity_fields _ id 12). Qed.

Lemma whitelist_delivers op id msg : id_full id -> sar_control_send_whitelist op (Some id) = Some msg ->
  Comm.SarCommMessageNotify c g precise now (Some msg) out =
    let '(r, s, l) := if op =? SAR_CTL_OP_WHITELIST_ADD
                      then SarStateWhitelistAdd (Comm.g_state g) (Comm.g_eventlog g) precise now id
                      else SarStateWhitelistRemove (Comm.g_state g) (Comm.g_eventlog g) now id in
    (Comm.wl_result r, None, c, Comm.set_state s l g).
Proof using Hauth.
  intros Hid. unfold sar_control_send_whitelist. pose proof (length_identity_bytes id Hid) as Hl.
  destruct (op =? SAR_CTL_OP_WHITELIST_ADD); [|destruct (op =? SAR_CTL_OP_WHITELIST_REMOVE); [|done]];
    intros H; apply (inj Some) in H.
  - change (Msg.make_message SEMANTICS_AR_MSG_WHITELIST_ADD (identity_bytes id) = msg) in H. subst msg.
    unfold Comm.SarCommMessageNotify. rewrite dispatch; [|by vm_compute|by rewrite Hl].
    rewrite bool_decide_eq_true_2 by done. cbn [negb]. repeat next_case SEMANTICS_AR_MSG_WHITELIST_ADD.
    cbv iota. by rewrite guarded_open, (whitelist_identity _ id Hid).
  - change (Msg.make_message SEMANTICS_AR_MSG_WHITELIST_REMOVE (identity_bytes id) = msg) in H. subst msg.
    unfold Comm.SarCommMessageNotify. rewrite dispatch; [|by vm_compute|by rewrite Hl].
    rewrite bool_decide_eq_true_2 by done. cbn [negb]. repeat next_case SEMANTICS_AR_MSG_WHITELIST_REMOVE.
    cbv iota. by rewrite guarded_open, (whitelist_identity _ id Hid).
Qed.

Definition verdict_body (pid key : Z) (id : sar_identity_t) : bytes :=
  le_bytes 8 pid ++ le_bytes 8 key ++ identity_bytes id.

Lemma verdict_delivers pid image key ids id v msg :
  is_u64 pid -> is_u64 key -> id_full id ->
  sar_verdict_pid pid image (Some (true, key, ids)) (SAR_IDENTITY_VERDICT_VERIFIED, id) true = (v, Some msg) ->
  key <> 0 /\
  Comm.SarCommMessageNotify c g precise now (Some msg) out =
    let '(ok, s) := SarStateIdentityApplyVerdict (Comm.g_state g) pid key id in
    (if ok : bool then STATUS_SUCCESS else STATUS_UNSUCCESSFUL, None, c,
     Comm.set_state s (Comm.g_eventlog g) g).
Proof using Hauth.
  intros Hpid Hkey Hid. unfold sar_verdict_pid. destruct image as [[|x image]|]; [done| |done].
  cbn [negb orb]. destruct (Z.eqb_spec key 0) as [|Hk]; [done|]. intros H.
  apply (f_equal snd), (inj Some) in H. cbn [snd] in H. split; [done|].
  change (Msg.make_message SEMANTICS_AR_MSG_IDENTITY_VERDICT (verdict_body pid key id) = msg) in H. subst msg.
  unfold Comm.SarCommMessageNotify.
  rewrite dispatch; [|by vm_compute|unfold verdict_body; by rewrite !length_app, !length_le_bytes, (length_identity_bytes id Hid)].
  rewrite bool_decide_eq_true_2 by done. cbn [negb]. repeat next_case SEMANTICS_AR_MSG_IDENTITY_VERDICT.
  cbv iota. rewrite guarded_open. set (msg := Msg.make_message _ _).
  assert (Hp : msg_uint semantics_ar_identity_verdict_t "pid" msg = pid).
  { change (le_val (le_bytes 8 pid) = pid). by apply le_val_le_bytes. }
  assert (Hs : msg_uint semantics_ar_identity_verdict_t "start_key" msg = key).
  { change (le_val (le_bytes 8 key) = key). by apply le_val_le_bytes. }
  assert (Hi : msg_identity semantics_ar_identity_verdict_t msg = id).
  { subst msg. rewrite make_message_prefix. unfold verdict_body. rewrite !app_assoc.
    by apply (identity_fields _ id 28). }
  by rewrite Hp, Hs, Hi.
Qed.

(** What the service sends is what the driver does.  On an
    authenticated port the messages of [sar_control_send_mode] and
    [sar_control_send_whitelist] and the verdict of [sar_verdict_pid] pass
    validation and are decoded to exactly the mode, the identity, the process id and
    the start key they were built from, and run the corresponding operation. *)
Theorem service_messages_deliver :
  (forall m msg, sar_control_send_mode m = Some msg ->
     Comm.SarCommMessageNotify c g precise now (Some msg) out =
       let '(ok, s, l) := SarStateModeSet (Comm.g_state g) (Comm.g_eventlog g) now m in
       (STATUS_SUCCESS, None, c, Comm.set_state s l g)) /\
  (forall op id msg, id_full id -> sar_control_send_whitelist op (Some id) = Some msg ->
     Comm.SarCommMessageNotify c g precise now (Some msg) out =
       let '(r, s, l) := if op =? SAR_CTL_OP_WHITELIST_ADD
                         then SarStateWhitelistAdd (Comm.g_state g) (Comm.g_eventlog g) precise now id
                         else SarStateWhitelistRemove (Comm.g_state g) (Comm.g_eventlog g) now id in
       (Comm.wl_result r, None, c, Comm.set_state s l g)) /\
  (forall pid image key ids id v msg, is_u64 pid -> is_u64 key -> id_full id ->
     sar_verdict_pid pid image (Some (true, key, ids)) (SAR_IDENTITY_VERDICT_VERIFIED, id) true = (v, Some msg) ->
     Comm.SarCommMessageNotify c g precise now (Some msg) out =
       let '(ok, s) := SarStateIdentityApplyVerdict (Comm.g_state g) pid key id in
       (if ok : bool then STATUS_SUCCESS else STATUS_UNSUCCESSFUL, None, c,
        Comm.set_state s (Comm.g_eventlog g) g)).
Proof using Hauth.
  split_and!; [apply mode_delivers|apply whitelist_delivers|]. intros. by eapply verdict_delivers.
Qed.

End Delivery.

(** ** A verdict and the reuse of a process id *)

Section Race.
Context {E : Type} `{!Services E}.
Context (PsGetProcessStartKey : Z -> Z) (FltNormalizedName : Z -> option (list Z)).

Abbreviation entry_of := (created_entry PsGetProcessStartKey FltNormalizedName).

(** A process that starts on a free id. *)
Lemma start_link s p pid info prot : table_ok s -> table s !! pid = None ->
  let s' := (link_entry s (entry_of s p pid info prot)).2 in
  table_ok s' /\ table s' = <[pid := entry_of s p pid info prot]> (table s) /\ whitelist s' = whitelist s.
Proof.
  intros Ht Hf. pose proof (link_refines s (entry_of s p pid info prot) Ht) as Hl.
  assert (Hp : process_id (entry_of s p pid info prot) = pid).
  { unfold created_entry. by destruct (if negb _ then _ else _) as [id valid]. }
  assert (Hw : whitelist (link_entry s (entry_of s p pid info prot)).2 = whitelist s)
    by (unfold link_entry; by destruct (SarIdentityFindLocked _ _)).
  destruct (link_entry s _) as [r s']. destruct Hl as [Ht' Hl]. cbn [snd] in *.
  unfold spec_insert in Hl. rewrite Hp, Hf in Hl. injection Hl as _ Hl. done.
Qed.

Lemma created_fields s p pid info prot : start_key (entry_of s p pid info prot) = PsGetProcessStartKey p /\
  process (entry_of s p pid info prot) = p.
Proof. unfold created_entry. by destruct (if negb _ then _ else _) as [id valid]. Qed.

(** The state after a first process had the id, ended, and a second one took it. *)
Definition reused (id : sar_identity_t) (precise now pid pA pB : Z)
    (infoA infoB : PS_CREATE_NOTIFY_INFO) (protA protB : option PS_PROTECTION) : list step :=
  [AllowAdd precise now id; ProcessStarts pA pid infoA protA; Linked 0; ProcessEnds pid;
   ProcessStarts pB pid infoB protB; Linked 0].

(** Adding to the empty allow-list of a new driver. *)
Lemma first_add s l id precise now : SarStateCreate true true true true = Some s -> id_wf id ->
  (program_name (image_path id) ∉ names) ->
  exists s1, SarStateWhitelistAdd s l precise now id =
      (SAR_WL_OK, s1, log_event l now SAR_EVENT_CLASS_WHITELIST_ADDED 0) /\
    table_ok s1 /\ table s1 = ∅ /\ sar_whitelist_match (whitelist s1) id = true.
Proof.
  intros Hs Hid Hint. pose proof (created_inv (fun p => p) (fun p => p) s l Hs) as H0.
  cbn [SarStateCreate andb] in Hs. apply (inj Some) in Hs.
  exists (set_whitelist {| entries := [id]; first_seen := Some [u64 precise]; capacity := SAR_WHITELIST_CAPACITY |} s).
  split_and!.
  - unfold SarStateWhitelistAdd. subst s. cbn [whitelist sar_whitelist_init]. unfold sar_whitelist_add.
    cbn [entries existsb first_seen capacity length app].
    destruct (sar_identity_is_interpreter _) eqn:Ei; [by apply is_interpreter_iff in Ei|].
    change (SAR_WHITELIST_CAPACITY <=? Z.of_nat 0) with false. reflexivity.
  - destruct H0 as [[T1 T2 T3 T4] _ _ _ _ _ _]. by constructor.
  - unfold table, all_entries. subst s. cbn [set_whitelist identity_buckets]. by rewrite concat_replicate_nil.
  - unfold sar_whitelist_match. cbn [set_whitelist whitelist entries existsb].
    by rewrite (proj2 (identity_equal_iff id id Hid Hid)).
Qed.

(** One process after the other on the same id. *)
Lemma successor_state s1 l1 pid pA pB infoA infoB protA protB : table_ok s1 -> table s1 !! pid = None ->
  let s4 := st (run PsGetProcessStartKey FltNormalizedName (init s1 l1)
    [ProcessStarts pA pid infoA protA; Linked 0; ProcessEnds pid; ProcessStarts pB pid infoB protB; Linked 0]) in
  table_ok s4 /\ whitelist s4 = whitelist s1 /\
  exists e, table s4 !! pid = Some e /\ start_key e = PsGetProcessStartKey pB /\ process e = pB.
Proof.
  intros Ht1 Hn1. cbn [run fold_left do_step].
  cbn [with_st init st log linking applying app lookup list_lookup delete list_delete].
  destruct (start_link s1 pA pid infoA protA Ht1 Hn1) as (Ht2 & Htab2 & Hw2).
  set (s2 := (link_entry s1 _).2) in *.
  destruct (remove_refines s2 pid Ht2) as [Ht3 Htab3].
  assert (Hw3 : whitelist (SarStateIdentityRemove s2 pid) = whitelist s2)
    by (unfold SarStateIdentityRemove; by destruct (SarIdentityFindLocked s2 pid) as [[]|]).
  set (s3 := SarStateIdentityRemove s2 pid) in *.
  destruct (start_link s3 pB pid infoB protB Ht3 ltac:(rewrite Htab3; apply lookup_delete_eq)) as (Ht4 & Htab4 & Hw4).
  split_and!; [done|by rewrite Hw4, Hw3, Hw2|].
  exists (entry_of s3 pB pid infoB protB). rewrite Htab4, lookup_insert_eq. split; [done|]. apply created_fields.
Qed.

Lemma reused_state s l id precise now pid pA pB infoA infoB protA protB :
  SarStateCreate true true true true = Some s -> id_wf id -> (program_name (image_path id) ∉ names) ->
  let s2 := st (run PsGetProcessStartKey FltNormalizedName (init s l)
                  (reused id precise now pid pA pB infoA infoB protA protB)) in
  table_ok s2 /\ SarStateWhitelistMatch s2 id = true /\
  exists e, table s2 !! pid = Some e /\ start_key e = PsGetProcessStartKey pB /\ process e = pB.
Proof.
  intros Hs Hid Hint. destruct (first_add s l id precise now Hs Hid Hint) as (s1 & Hadd & Ht & Hn & Hm).
  assert (Hstep : do_step PsGetProcessStartKey FltNormalizedName (init s l) (AllowAdd precise now id) =
    init s1 (log_event l now SAR_EVENT_CLASS_WHITELIST_ADDED 0)).
  { cbn [do_step init st log]. by rewrite Hadd. }
  unfold run, reused. cbn [fold_left]. rewrite Hstep.
  destruct (successor_state s1 (log_event l now SAR_EVENT_CLASS_WHITELIST_ADDED 0) pid pA pB infoA infoB protA protB
    Ht ltac:(by rewrite Hn)) as (Ht4 & Hw4 & He).
  split_and!; [exact Ht4| |exact He]. unfold SarStateWhitelistMatch. unfold run in Hw4. cbn [fold_left] in Hw4.
  by rewrite Hw4.
Qed.

Lemma verdict_sent pid x image key ids id : key <> 0 ->
  exists msg, sar_verdict_pid pid (Some (x :: image)) (Some (true, key, ids)) (SAR_IDENTITY_VERDICT_VERIFIED, id) true
    = (SAR_IDENTITY_VERDICT_VERIFIED, Some msg).
Proof.
  intros Hk. unfold sar_verdict_pid. cbn [negb orb]. rewrite (proj2 (Z.eqb_neq _ _) Hk). by eexists.
Qed.

(** Whoever holds the id when the driver is asked gets the verdict. *)
Lemma verdict_hits_holder s2 e id pid key image (c : Comm.SAR_COMM) (g : Comm.globals (E := E)) precise now out :
  table_ok s2 -> SarStateWhitelistMatch s2 id = true -> table s2 !! pid = Some e -> start_key e = key ->
  id_full id -> (program_name (image_path id) ∉ names) -> is_u64 pid -> is_u64 key -> key <> 0 -> image <> [] ->
  Handshake.sar_handshake_authenticated (Comm.handshake c) = true -> Comm.g_state g = s2 ->
  exists msg,
    sar_verdict_pid pid (Some image) (Some (SarStateIdentityQuery s2 pid)) (SAR_IDENTITY_VERDICT_VERIFIED, id) true
      = (SAR_IDENTITY_VERDICT_VERIFIED, Some msg) /\
    let '(_, _, _, g') := Comm.SarCommMessageNotify c g precise now (Some msg) out in
    exists e', table (Comm.g_state g') !! pid = Some e' /\ process e' = process e /\ id_state e' = SAR_IDSTATE_EXEMPT.
Proof.
  intros Ht Hm He Hek Hid Hint Hpid Hku Hk0 Him Hauth Hg.
  assert (Hq : SarStateIdentityQuery s2 pid = (true, key, id_state e)).
  { unfold SarStateIdentityQuery. pose proof (find_table s2 pid Ht) as Hf. rewrite He in Hf.
    destruct (SarIdentityFindLocked s2 pid) as [[i x]|]; [|done]. injection Hf as ->. by rewrite Hek. }
  destruct image as [|x image]; [done|]. rewrite Hq.
  destruct (verdict_sent pid x image key (id_state e) id Hk0) as [msg Hmsg].
  exists msg. split; [exact Hmsg|].
  destruct (verdict_delivers c g precise now out Hauth pid (Some (x :: image)) key (id_state e) id _ msg
    Hpid Hku Hid Hmsg) as [_ ->].
  rewrite Hg. unfold SarStateIdentityApplyVerdict, verdict_allowed. rewrite Hm, (proj2 (Z.eqb_neq _ _) Hk0).
  replace (SarIdentityIsInterpreter id) with false.
  2: { unfold SarIdentityIsInterpreter. symmetry. destruct (sar_identity_is_interpreter _) eqn:Ei; [|done].
       by apply is_interpreter_iff in Ei. }
  cbn [negb orb]. pose proof (verdict_refines s2 pid key id Ht) as Hr.
  destruct (apply_verdict s2 pid key id) as [ok s3]. destruct Hr as [_ Hr].
  unfold spec_verdict in Hr. rewrite He, Hek, Z.eqb_refl in Hr. injection Hr as _ Htab.
  cbn [Comm.set_state Comm.g_state]. exists (exempt_entry e id). rewrite Htab, lookup_insert_eq. done.
Qed.

(** The start key does not bind a verdict to the image it is about.
    [sar_verdict_pid] reads the image of a process id first and asks the driver for
    the start key of that id afterwards.  If the process ends in between and another
    one takes the id, the driver's answer is the start key of the second process;
    the verdict for the image of the first one passes every check of the driver and
    makes the second process, whatever its image, exempt. *)
Theorem verdict_race_exempts_successor s l id precise now pid pA pB infoA infoB protA protB imageA
    (c : Comm.SAR_COMM) (g : Comm.globals (E := E)) precise' now' out :
  SarStateCreate true true true true = Some s -> id_full id -> (program_name (image_path id) ∉ names) ->
  is_u64 pid -> is_u64 (PsGetProcessStartKey pB) -> PsGetProcessStartKey pB <> 0 -> imageA <> [] ->
  let s2 := st (run PsGetProcessStartKey FltNormalizedName (init s l)
                  (reused id precise now pid pA pB infoA infoB protA protB)) in
  Handshake.sar_handshake_authenticated (Comm.handshake c) = true -> Comm.g_state g = s2 ->
  exists msg,
    sar_verdict_pid pid (Some imageA) (Some (SarStateIdentityQuery s2 pid)) (SAR_IDENTITY_VERDICT_VERIFIED, id) true
      = (SAR_IDENTITY_VERDICT_VERIFIED, Some msg) /\
    let '(_, _, _, g') := Comm.SarCommMessageNotify c g precise' now' (Some msg) out in
    exists e, table (Comm.g_state g') !! pid = Some e /\ process e = pB /\ id_state e = SAR_IDSTATE_EXEMPT.
Proof.
  intros Hs Hid Hint Hpid Hku Hk0 Him s2 Hauth Hg.
  pose proof (reused_state s l id precise now pid pA pB infoA infoB protA protB Hs (if_wf _ Hid) Hint) as H.
  cbv zeta in H. change (st _) with s2 in H. clearbody s2. destruct H as (Ht & Hm & e & He & Hek & Hep).
  destruct (verdict_hits_holder s2 e id pid _ imageA c g precise' now' out Ht Hm He Hek Hid Hint Hpid Hku Hk0 Him Hauth Hg)
    as (msg & Hmsg & H). exists msg. split; [exact Hmsg|]. by rewrite Hep in H.
Qed.

End Race.

(** ** Witnesses *)

Definition demo_full (h : Z) : sar_identity_t :=
  {| image_path := [67; 58; 92; 97; 46; 101; 120; 101] ++ replicate 252 0;
     cert_subject := replicate 256 0; content_hash := replicate 32 h |}.

Lemma demo_full_ok h : id_full (demo_full h).
Proof.
  constructor; [|done|apply forall_u_check; vm_compute; reflexivity].
  repeat split. apply Forall_replicate. by unfold is_u.
Qed.

Lemma demo_full_name h : program_name (image_path (demo_full h)) ∉ names.
Proof. apply (bool_decide_unpack _). vm_compute. exact I. Qed.

#[local] Existing Instance Comm.demo_services.

(** The port after a complete handshake. *)
Definition demo_comm : Comm.SAR_COMM :=
  Comm.comm (Comm.run_port Comm.demo_verify (fun c => c) (Comm.fresh_port Comm.demo_verify Comm.demo_driver)
    Comm.demo_events).

Lemma demo_authenticated : Handshake.sar_handshake_authenticated (Comm.handshake demo_comm) = true.
Proof. vm_compute. reflexivity. Qed.

(** ENFORCE, sent by the service, is the mode of the driver. *)
Lemma service_messages_deliver_witness :
  match sar_control_send_mode SEMANTICS_AR_MODE_ENFORCE with
  | Some msg =>
    let '(_, _, _, g') := Comm.SarCommMessageNotify demo_comm Comm.demo_driver 1 1 (Some msg) None in
    mode (Comm.g_state g') = SEMANTICS_AR_MODE_ENFORCE
  | None => False
  end.
Proof.
  destruct (sar_control_send_mode SEMANTICS_AR_MODE_ENFORCE) as [msg|] eqn:Em; [|discriminate Em].
  rewrite (proj1 (service_messages_deliver demo_comm Comm.demo_driver 1 1 None demo_authenticated) _ _ Em).
  reflexivity.
Defined.

Definition demo_reused : SAR_STATE :=
  st (run demo_key demo_name (init demo_state None)
    (reused (demo_full 1) 3 3 7 70 80 demo_info demo_info None None)).

(** Process 80 gets the exemption of the image of process 70. *)
Lemma verdict_race_exempts_successor_witness :
  exists msg,
    sar_verdict_pid 7 (Some [67]) (Some (SarStateIdentityQuery demo_reused 7))
      (SAR_IDENTITY_VERDICT_VERIFIED, demo_full 1) true = (SAR_IDENTITY_VERDICT_VERIFIED, Some msg) /\
    let '(_, _, _, g') := Comm.SarCommMessageNotify demo_comm
      {| Comm.g_state := demo_reused; Comm.g_eventlog := None; Comm.g_services := tt |} 1 1 (Some msg) None in
    exists e, table (Comm.g_state g') !! 7 = Some e /\ process e = 80 /\ id_state e = SAR_IDSTATE_EXEMPT.
Proof.
  apply (verdict_race_exempts_successor demo_key demo_name demo_state None (demo_full 1) 3 3 7 70 80
    demo_info demo_info None None [67] demo_comm
    {| Comm.g_state := demo_reused; Comm.g_eventlog := None; Comm.g_services := tt |} 1 1 None demo_created
    (demo_full_ok 1) (demo_full_name 1));
    [split; [discriminate|reflexivity]|split; [discriminate|reflexivity]|discriminate|discriminate|
     exact demo_authenticated|reflexivity].
Defined.

End Service.
