(* ===== verification/HeapSort.v ===== *)
(** * Sorting the payload extents (driver/preserve.c, SarPresHeapSort)

    The in-place heap sort by file offset that the free-space rebuild of the
    preservation store relies on: the sift loop, the two passes around it, and
    that the result is a sorted permutation for every input. *)

From Stdlib Require Import Sorted.
From S2P Require Import Prelude Mem Format Chain.

Module HeapSort.

Record SAR_PRES_EXTENT := { off : Z; len : Z }.

#[global] Instance ext_eq_dec : EqDecision SAR_PRES_EXTENT.
Proof. solve_decision. Defined.

Definition ext0 : SAR_PRES_EXTENT := {| off := 0; len := 0 |}.

(** [A[i]]; every access of the loops is below [N]. *)
Definition ext_at (A : list SAR_PRES_EXTENT) (i : nat) : SAR_PRES_EXTENT := nth i A ext0.

(** [{ SAR_PRES_EXTENT t = A[i]; A[i] = A[j]; A[j] = t; }] *)
Definition ext_swap (A : list SAR_PRES_EXTENT) (i j : nat) : list SAR_PRES_EXTENT :=
  <[j := ext_at A i]> (<[i := ext_at A j]> A).

(** The index [swap] one round of the sift loop settles on. *)
Definition sift_pick (A : list SAR_PRES_EXTENT) (root stop : nat) : nat :=
  let child := (2 * root + 1)%nat in
  let swap := root in
  let swap := if (child <? stop)%nat && (off (ext_at A swap) <? off (ext_at A child))
              then child else swap in
  let swap := if (child + 1 <? stop)%nat && (off (ext_at A swap) <? off (ext_at A (child + 1)))
              then (child + 1)%nat else swap in
  swap.

(** The inner [for (;;)] of both passes, from [root] over [A[0..stop)]. *)
Fixpoint sift (fuel : nat) (A : list SAR_PRES_EXTENT) (root stop : nat)
    : cres (list SAR_PRES_EXTENT) :=
  match fuel with
  | O => NoFuel
  | S fuel =>
      let swap := sift_pick A root stop in
      if (swap =? root)%nat then Ret A else sift fuel (ext_swap A root swap) swap stop
  end.

(** [for (i = n - 1; i >= 0; i--)]: build the heap. *)
Fixpoint heap_build (n : nat) (A : list SAR_PRES_EXTENT) : cres (list SAR_PRES_EXTENT) :=
  match n with
  | O => Ret A
  | S i => let! A := sift (S (length A)) A i (length A) in heap_build i A
  end.

(** [for (i = n; i > 0; i--)]: move the largest element behind the heap. *)
Fixpoint heap_extract (i : nat) (A : list SAR_PRES_EXTENT) : cres (list SAR_PRES_EXTENT) :=
  match i with
  | O => Ret A
  | S j => let! A := sift (S (length A)) (ext_swap A 0 i) 0 i in heap_extract j A
  end.

Definition SarPresHeapSort (A : list SAR_PRES_EXTENT) : cres (list SAR_PRES_EXTENT) :=
  let! A := heap_build (length A / 2) A in heap_extract (length A - 1) A.

(** ** Swaps *)

Abbreviation key A i := (off (ext_at A i)).

Lemma ext_at_lookup A i : (i < length A)%nat -> A !! i = Some (ext_at A i).
Proof.
  intros H. destruct (lookup_lt_is_Some_2 A i H) as [x Hx]. rewrite Hx. f_equal. symmetry.
  unfold ext_at. by apply nth_lookup_Some.
Qed.

Lemma ext_at_insert A i j x :
  (i < length A)%nat -> ext_at (<[i := x]> A) j = if decide (i = j) then x else ext_at A j.
Proof.
  intros Hi. unfold ext_at. rewrite !nth_lookup. destruct (decide (i = j)) as [->|Hn].
  - by rewrite list_lookup_insert_eq.
  - by rewrite list_lookup_insert_ne.
Qed.

Lemma length_ext_swap A i j : length (ext_swap A i j) = length A.
Proof. unfold ext_swap. by rewrite !length_insert. Qed.

Lemma ext_at_swap A i j k :
  (i < length A)%nat -> (j < length A)%nat ->
  ext_at (ext_swap A i j) k =
    if decide (k = j) then ext_at A i else if decide (k = i) then ext_at A j else ext_at A k.
Proof.
  intros Hi Hj. unfold ext_swap. rewrite !ext_at_insert by (rewrite ?length_insert; lia).
  destruct (decide (j = k)), (decide (k = j)), (decide (i = k)), (decide (k = i)); congruence.
Qed.

Lemma ext_swap_perm A i j :
  (i < length A)%nat -> (j < length A)%nat -> ext_swap A i j ≡ₚ A.
Proof.
  intros Hi Hj. unfold ext_swap. destruct (decide (i = j)) as [->|Hn].
  - rewrite list_insert_insert_eq. by rewrite list_insert_id by (by apply ext_at_lookup).
  - rewrite list_insert_insert_ne by done.
    apply Permutation_insert_swap; by apply ext_at_lookup.
Qed.

Lemma take_ext_swap A i j n :
  (i < n)%nat -> (j < n)%nat -> (n <= length A)%nat ->
  take n (ext_swap A i j) = ext_swap (take n A) i j.
Proof.
  intros Hi Hj Hn. unfold ext_swap, ext_at. rewrite !take_insert_lt by lia.
  by rewrite !nth_lookup, !lookup_take_lt by lia.
Qed.

Lemma drop_ext_swap A i j n :
  (i < n)%nat -> (j < n)%nat -> drop n (ext_swap A i j) = drop n A.
Proof. intros Hi Hj. unfold ext_swap. by rewrite !drop_insert_lt by lia. Qed.

(** ** Sifting *)

Definition child_of (p c : nat) : Prop := c = (2 * p + 1)%nat \/ c = (2 * p + 2)%nat.

(** Every node from [lo] on dominates its children below [stop]. *)
Definition heap_from (A : list SAR_PRES_EXTENT) (lo stop : nat) : Prop :=
  forall p c, (lo <= p)%nat -> child_of p c -> (c < stop)%nat -> key A c <= key A p.

(** The same but for [root], whose children its parent dominates. *)
Definition heap_hole (A : list SAR_PRES_EXTENT) (lo root stop : nat) : Prop :=
  (forall p c, (lo <= p)%nat -> p <> root -> child_of p c -> (c < stop)%nat -> key A c <= key A p) /\
  (forall p c, (lo <= p)%nat -> child_of p root -> child_of root c -> (c < stop)%nat ->
    key A c <= key A p).

(** [A'] rearranges the first [stop] elements of [A]. *)
Definition prefix_perm (stop : nat) (A A' : list SAR_PRES_EXTENT) : Prop :=
  length A' = length A /\ take stop A' ≡ₚ take stop A /\ drop stop A' = drop stop A.

#[global] Instance prefix_perm_preorder stop : PreOrder (prefix_perm stop).
Proof.
  split.
  - by intros A.
  - intros A B C (?&?&?) (?&?&?). split_and!; by etrans.
Qed.

Lemma prefix_perm_swap A i j stop :
  (i < stop)%nat -> (j < stop)%nat -> (stop <= length A)%nat -> prefix_perm stop A (ext_swap A i j).
Proof.
  intros Hi Hj Hs. split_and!.
  - apply length_ext_swap.
  - rewrite take_ext_swap by lia. apply ext_swap_perm; rewrite length_take; lia.
  - by apply drop_ext_swap.
Qed.

Lemma prefix_perm_all stop A A' : prefix_perm stop A A' -> A' ≡ₚ A.
Proof. intros (_&Ht&Hd). by rewrite <- (take_drop stop A), <- (take_drop stop A'), Ht, Hd. Qed.

Lemma sift_pick_spec A root stop :
  let s := sift_pick A root stop in
  (s = root \/ (child_of root s /\ (s < stop)%nat /\ key A root < key A s)) /\
  (forall c, child_of root c -> (c < stop)%nat -> key A c <= key A s).
Proof.
  unfold sift_pick, child_of. cbv zeta.
  replace (2 * root + 1 + 1)%nat with (2 * root + 2)%nat by lia.
  destruct (Nat.ltb_spec (2 * root + 1) stop), (Z.ltb_spec (key A root) (key A (2 * root + 1)));
    cbn [andb];
    match goal with |- context [off (ext_at A ?i) <? off (ext_at A (2 * root + 2)%nat)] =>
      destruct (Nat.ltb_spec (2 * root + 2) stop), (Z.ltb_spec (key A i) (key A (2 * root + 2)))
    end; cbn [andb];
    (split; [first [left; lia | right; repeat split; lia] | intros c [-> | ->] Hc; lia]).
Qed.

Lemma heap_hole_swap A lo root stop s :
  heap_hole A lo root stop -> (lo <= root)%nat -> (stop <= length A)%nat ->
  child_of root s -> (s < stop)%nat -> key A root < key A s ->
  (forall c, child_of root c -> (c < stop)%nat -> key A c <= key A s) ->
  heap_hole (ext_swap A root s) lo s stop.
Proof.
  intros [Hh Hg] Hlo Hlen Hs Hss Hlt Hmax.
  assert (root < s)%nat by (destruct Hs; lia).
  split; intros p c Hp.
  - intros Hps Hc Hcs. rewrite !ext_at_swap by lia.
    assert (p < c)%nat by (destruct Hc; lia).
    destruct (decide (p = s)); [done|]. destruct (decide (c = s)) as [->|].
    { assert (p = root) as -> by (destruct Hs, Hc; lia). rewrite decide_True by done. lia. }
    destruct (decide (p = root)) as [->|Hpr].
    { rewrite decide_False by lia. by apply Hmax. }
    destruct (decide (c = root)) as [->|]; [by apply Hg|by apply Hh].
  - intros Hps Hc Hcs. rewrite !ext_at_swap by lia.
    assert (p = root) as -> by (destruct Hs, Hps; lia).
    assert (s < c)%nat by (destruct Hc; lia).
    rewrite (decide_False (P := c = s)), (decide_False (P := c = root)) by lia.
    rewrite (decide_False (P := root = s)), decide_True by lia.
    apply Hh; [lia|lia|done|done].
Qed.

Lemma sift_spec fuel A lo root stop :
  heap_hole A lo root stop -> (lo <= root < stop)%nat -> (stop <= length A)%nat ->
  (stop - root < fuel)%nat ->
  exists A', sift fuel A root stop = Ret A' /\ heap_from A' lo stop /\ prefix_perm stop A A'.
Proof.
  revert A root. induction fuel as [|fuel IH]; intros A root Hh Hr Hlen Hf; [lia|]. simpl.
  destruct (sift_pick_spec A root stop) as [[Hs|(Hc&Hs&Hlt)] Hmax].
  - rewrite Hs, Nat.eqb_refl. exists A. split_and!; [done| |done].
    intros p c Hp Hc Hcs. destruct (decide (p = root)) as [->|].
    + rewrite Hs in Hmax. by apply Hmax.
    + destruct Hh as [Hh _]. by apply Hh.
  - set (s := sift_pick A root stop) in *. assert (root < s)%nat by (destruct Hc; lia).
    destruct (Nat.eqb_spec s root); [lia|].
    destruct (IH (ext_swap A root s) s) as (A'&HA'&HhA&HpA);
      [apply heap_hole_swap; first [done|lia]|lia|rewrite length_ext_swap; lia|lia|].
    exists A'. split_and!; [done|done|]. etrans; [|done]. apply prefix_perm_swap; lia.
Qed.

Lemma heap_build_spec n A :
  heap_from A n (length A) -> (n <= length A)%nat ->
  exists A', heap_build n A = Ret A' /\ heap_from A' 0 (length A) /\ A' ≡ₚ A.
Proof.
  revert A. induction n as [|n IH]; intros A Hh Hn; [by exists A|]. cbn [heap_build].
  destruct (sift_spec (S (length A)) A n n (length A)) as (A1&HA1&Hh1&Hp1); try lia.
  - split; intros p c Hp; [intros Hne; apply Hh; lia|intros [] _ _; lia].
  - rewrite HA1. pose proof Hp1 as (Hl1&_&_).
    destruct (IH A1) as (A'&HA'&Hh'&Hp'); [by rewrite Hl1|lia|].
    exists A'. split_and!; [done|by rewrite <- Hl1|].
    rewrite Hp'. by eapply prefix_perm_all.
Qed.

(** ** Extraction *)

(** The root of a heap is its maximum. *)
Lemma heap_root_max A stop i : heap_from A 0 stop -> (i < stop)%nat -> key A i <= key A 0.
Proof.
  intros Hh. induction (lt_wf i) as [i _ IH]. intros Hi.
  destruct (decide (i = 0%nat)) as [->|Hn]; [lia|].
  pose proof (Nat.div_mod (i - 1) 2). pose proof (Nat.mod_upper_bound (i - 1) 2).
  assert (Hc : child_of ((i - 1) / 2) i) by (unfold child_of; lia).
  specialize (IH ((i - 1) / 2)%nat ltac:(unfold child_of in Hc; lia)).
  specialize (Hh ((i - 1) / 2)%nat i ltac:(lia) Hc Hi).
  unfold child_of in Hc. lia.
Qed.

Definition ext_le (a b : SAR_PRES_EXTENT) : Prop := off a <= off b.

(** The state of the extraction pass: a heap, and behind it the largest
    elements in order. *)
Definition extracted (A : list SAR_PRES_EXTENT) (n : nat) : Prop :=
  heap_from A 0 n /\ StronglySorted ext_le (drop n A) /\
  Forall (fun x => Forall (fun y => ext_le x y) (drop n A)) (take n A).

Lemma elem_of_take_at A n x : x ∈ take n A -> exists i, (i < n)%nat /\ (i < length A)%nat /\ x = ext_at A i.
Proof.
  intros [i Hi]%list_elem_of_lookup. apply lookup_take_Some in Hi as [Hx Hi].
  exists i. split_and!; [done|by eapply lookup_lt_Some|]. symmetry. by apply nth_lookup_Some.
Qed.

Lemma extract_round A i :
  extracted A (S i) -> (S i <= length A)%nat -> (0 < i)%nat ->
  exists A', sift (S (length A)) (ext_swap A 0 i) 0 i = Ret A' /\ extracted A' i /\ prefix_perm (S i) A A'.
Proof.
  intros (Hh&Hss&Hle) Hl Hi.
  pose proof (prefix_perm_swap A 0 i (S i) ltac:(lia) ltac:(lia) Hl) as Hpp.
  destruct (sift_spec (S (length A)) (ext_swap A 0 i) 0 0 i) as (A'&HA'&Hh'&HlA&HtA&HdA);
    try (rewrite ?length_ext_swap; lia).
  { split; intros p c Hp; [|intros []; lia]. intros Hp0 Hc Hci. rewrite !ext_at_swap by lia.
    assert (p < c)%nat by (destruct Hc; lia).
    rewrite !(decide_False (P := _ = i)), !(decide_False (P := _ = 0%nat)) by lia.
    apply Hh; [lia|done|lia]. }
  exists A'. rewrite length_ext_swap in HlA.
  assert (HiA : drop i A' = ext_at A 0 :: drop (S i) A).
  { rewrite HdA. rewrite (drop_S _ (ext_at A 0)).
    - f_equal. apply drop_ext_swap; lia.
    - rewrite ext_at_lookup by (rewrite length_ext_swap; lia). f_equal.
      rewrite ext_at_swap by lia. by rewrite decide_True. }
  assert (Hmax : Forall (fun x => ext_le x (ext_at A 0)) (take i A')).
  { rewrite HtA. apply Forall_forall. intros x Hx.
    apply elem_of_take_at in Hx as (k&Hk&_&->).
    unfold ext_le. rewrite ext_at_swap by lia. rewrite (decide_False (P := k = i)) by lia.
    destruct (decide (k = 0%nat)); apply (heap_root_max A (S i)); auto; lia. }
  assert (HpA : prefix_perm (S i) A A').
  { etrans; [exact Hpp|]. split_and!; [by rewrite length_ext_swap| |].
    - rewrite !(take_S_r _ i (ext_at A 0)).
      + by rewrite HtA.
      + rewrite ext_at_lookup by (rewrite length_ext_swap; lia). f_equal.
        rewrite ext_at_swap by lia. by rewrite decide_True.
      + by rewrite <- (Nat.add_0_r i), <- lookup_drop, HiA.
    - rewrite drop_ext_swap by lia. apply (f_equal (drop 1)) in HiA. rewrite drop_drop in HiA.
      by replace (i + 1)%nat with (S i) in HiA by lia. }
  split_and!; [done| |done]. split_and!; [done| |].
  - rewrite HiA. constructor; [done|].
    rewrite Forall_forall in Hle. apply Hle. apply (list_elem_of_lookup_2 _ 0%nat).
    rewrite lookup_take_lt by lia. apply ext_at_lookup. lia.
  - rewrite HiA. apply Forall_forall. intros x Hx. constructor.
    + by eapply Forall_forall in Hmax.
    + rewrite Forall_forall in Hle. apply Hle. destruct HpA as (_&Hp&_).
      rewrite <- Hp.
      apply elem_of_take_at in Hx as (k&Hk&Hkl&->). apply (list_elem_of_lookup_2 _ k).
      rewrite lookup_take_lt by lia. apply ext_at_lookup. lia.
Qed.

Lemma heap_extract_spec i A :
  extracted A (S i) -> (S i <= length A)%nat ->
  exists A', heap_extract i A = Ret A' /\ StronglySorted ext_le A' /\ A' ≡ₚ A.
Proof.
  revert A. induction i as [|i IH]; intros A HA Hl.
  - exists A. split_and!; [done| |done]. destruct HA as (_&Hs&Hle).
    destruct A as [|x A]; [simpl in Hl; lia|]. constructor; [done|]. by inversion Hle.
  - destruct (extract_round A (S i) HA ltac:(lia) ltac:(lia)) as (A1&H1&He1&Hp1).
    cbn [heap_extract]. rewrite H1. pose proof Hp1 as (Hl1&_&_).
    destruct (IH A1 He1 ltac:(lia)) as (A'&H'&Hs'&Hp').
    exists A'. split_and!; [done|done|]. rewrite Hp'. by eapply prefix_perm_all.
Qed.

(** The sort returns, and its result is the sorted permutation of its input. *)
Lemma heap_sort_spec A :
  exists A', SarPresHeapSort A = Ret A' /\ StronglySorted ext_le A' /\ A' ≡ₚ A.
Proof.
  unfold SarPresHeapSort.
  pose proof (Nat.div_mod (length A) 2 ltac:(lia)).
  pose proof (Nat.mod_upper_bound (length A) 2 ltac:(lia)).
  destruct (heap_build_spec (length A / 2) A) as (A1&H1&Hh1&Hp1); [|lia|].
  { intros p c Hp [] Hc; lia. }
  rewrite H1. apply Permutation_length in Hp1 as Hl1.
  destruct A1 as [|x A1].
  { exists []. split_and!; [done|constructor|done]. }
  destruct (heap_extract_spec (length (x :: A1) - 1) (x :: A1)) as (A'&H'&Hs'&Hp').
  - replace (S (length (x :: A1) - 1)) with (length A) by (simpl in *; lia).
    rewrite <- Hl1. split_and!; [by rewrite Hl1| |].
    + rewrite drop_ge by lia. constructor.
    + rewrite (drop_ge _ _ (Nat.le_refl _)). apply Forall_true. by constructor.
  - simpl. lia.
  - exists A'. split_and!; [done|done|]. by rewrite Hp'.
Qed.

End HeapSort.
