(* ===== verification/DriverPreserve.v ===== *)
(** * The preservation store of the driver (driver/preserve.c)

    The driver keeps encrypted copies of file regions that are about to be
    destroyed: an index of records in memory, the payloads in a data file, and
    hard links in a quarantine directory for files that are deleted whole.
    This file has the state and the operations that work on it under the lock;
    [PreserveAlloc] proves the allocator, [PreserveRefine] that the store
    refines a list of (record, content) pairs.

    The index is the list of the [record_count] live records, the free list the
    [free_count] live extents.  Each call takes the answers of the system it
    asks for as arguments: whether an allocation succeeds, random bytes, the
    time, the mode, the status of an I/O request. *)

From S2P Require Import Prelude Mem Format Sha256 Chain Store Keystore Preserve.
From S2P Require Import Protocol Whitelist EventLog DriverState HeapSort.
Import Mem Layout Protocol Preserve PresRec HeapSort.
Import DriverState (NTSTATUS, NT_SUCCESS, STATUS_SUCCESS, STATUS_INSUFFICIENT_RESOURCES,
  STATUS_OBJECT_NAME_COLLISION, STATUS_INVALID_PARAMETER, STATUS_BUFFER_TOO_SMALL,
  STATUS_DEVICE_NOT_READY, STATUS_NOT_FOUND, STATUS_DATA_ERROR, STATUS_OBJECT_PATH_INVALID).

(** ** What the store asks of the system *)

(** The data file: writing a range and reading one ([None] is a failed read). *)
Class DataFile (F : Type) := {
  data_write : F -> Z -> bytes -> F;
  data_read : F -> Z -> nat -> option bytes
}.

(** A range that was written reads back, and a write leaves other ranges alone. *)
Class DataFileLaws (F : Type) `{DataFile F} : Prop := {
  data_read_write f o b : 0 <= o -> b <> [] -> data_read (data_write f o b) o (length b) = Some b;
  data_read_other f o n o' b x :
    0 <= o -> 0 <= o' -> o + Z.of_nat n <= o' \/ o' + Z.of_nat (length b) <= o ->
    data_read f o n = Some x -> data_read (data_write f o' b) o n = Some x
}.

(** AES in CBC mode without padding, as the provider implements it. *)
Class AesCbc := {
  bcrypt_encrypt : bytes -> bytes -> bytes -> bytes;
  bcrypt_decrypt : bytes -> bytes -> bytes -> bytes
}.

(** Decryption with the same key and vector inverts encryption of whole blocks. *)
Class AesCbcLaws `{AesCbc} : Prop := {
  bcrypt_length key iv pt : length (bcrypt_encrypt key iv pt) = length pt;
  bcrypt_inverse key iv pt :
    length iv = 16%nat -> (length pt mod 16 = 0)%nat ->
    bcrypt_decrypt key iv (bcrypt_encrypt key iv pt) = pt
}.

Module DriverPreserve.

Definition SAR_PRESERVE_RECORD_CAPACITY : Z := 65536.
Definition SAR_PRESERVE_AES_BLOCK : Z := 16.
Definition SAR_PRESERVE_KIND_BYTERANGE : Z := 0.
Definition SAR_PRESERVE_KIND_NAMESPACE : Z := 1.
Definition SAR_PRESERVE_DEFAULT_RETENTION_100NS : Z := 7 * 24 * 3600 * 10000000.
Definition SAR_PRESERVE_DEFAULT_CAPACITY_BYTES : Z := 10 * 1024 * 1024 * 1024.

Inductive SAR_STAGE_RESULT :=
  SAR_STAGE_STORED | SAR_STAGE_ALREADY_COVERED | SAR_STAGE_DROPPED | SAR_STAGE_FAILED.

#[global] Instance stage_result_eq_dec : EqDecision SAR_STAGE_RESULT.
Proof. solve_decision. Defined.

Record SAR_PRESERVE := {
  records : list rec;
  record_capacity : Z;
  free_ext : list SAR_PRES_EXTENT;
  free_capacity : Z;
  data_high_water : Z;
  free_dirty : bool;
  data_handle : bool;
  store_key : bytes;
  mac_key : bytes;
  have_key : bool;
  generation : Z;
  anchor : sar_keystore_anchor_t;
  retention_100ns : Z;
  capacity_bytes : Z;
  reserved_bytes : Z;
  ready : bool;
  dirty : bool;
  next_link_id : Z
}.

(** Assignments to fields. *)
Definition set_records (r : list rec) (p : SAR_PRESERVE) : SAR_PRESERVE :=
  {| records := r; record_capacity := record_capacity p; free_ext := free_ext p;
     free_capacity := free_capacity p; data_high_water := data_high_water p;
     free_dirty := free_dirty p; data_handle := data_handle p; store_key := store_key p;
     mac_key := mac_key p; have_key := have_key p; generation := generation p; anchor := anchor p;
     retention_100ns := retention_100ns p; capacity_bytes := capacity_bytes p;
     reserved_bytes := reserved_bytes p; ready := ready p; dirty := dirty p;
     next_link_id := next_link_id p |}.
Definition set_free (f : list SAR_PRES_EXTENT) (hw : Z) (d : bool) (p : SAR_PRESERVE) : SAR_PRESERVE :=
  {| records := records p; record_capacity := record_capacity p; free_ext := f;
     free_capacity := free_capacity p; data_high_water := hw;
     free_dirty := d; data_handle := data_handle p; store_key := store_key p;
     mac_key := mac_key p; have_key := have_key p; generation := generation p; anchor := anchor p;
     retention_100ns := retention_100ns p; capacity_bytes := capacity_bytes p;
     reserved_bytes := reserved_bytes p; ready := ready p; dirty := dirty p;
     next_link_id := next_link_id p |}.
Definition set_dirty (d : bool) (p : SAR_PRESERVE) : SAR_PRESERVE :=
  {| records := records p; record_capacity := record_capacity p; free_ext := free_ext p;
     free_capacity := free_capacity p; data_high_water := data_high_water p;
     free_dirty := free_dirty p; data_handle := data_handle p; store_key := store_key p;
     mac_key := mac_key p; have_key := have_key p; generation := generation p; anchor := anchor p;
     retention_100ns := retention_100ns p; capacity_bytes := capacity_bytes p;
     reserved_bytes := reserved_bytes p; ready := ready p; dirty := d;
     next_link_id := next_link_id p |}.
Definition set_reserved (n : Z) (p : SAR_PRESERVE) : SAR_PRESERVE :=
  {| records := records p; record_capacity := record_capacity p; free_ext := free_ext p;
     free_capacity := free_capacity p; data_high_water := data_high_water p;
     free_dirty := free_dirty p; data_handle := data_handle p; store_key := store_key p;
     mac_key := mac_key p; have_key := have_key p; generation := generation p; anchor := anchor p;
     retention_100ns := retention_100ns p; capacity_bytes := capacity_bytes p;
     reserved_bytes := n; ready := ready p; dirty := dirty p;
     next_link_id := next_link_id p |}.
Definition set_budget (ret cap : Z) (p : SAR_PRESERVE) : SAR_PRESERVE :=
  {| records := records p; record_capacity := record_capacity p; free_ext := free_ext p;
     free_capacity := free_capacity p; data_high_water := data_high_water p;
     free_dirty := free_dirty p; data_handle := data_handle p; store_key := store_key p;
     mac_key := mac_key p; have_key := have_key p; generation := generation p; anchor := anchor p;
     retention_100ns := ret; capacity_bytes := cap;
     reserved_bytes := reserved_bytes p; ready := ready p; dirty := dirty p;
     next_link_id := next_link_id p |}.
Definition set_next_link (n : Z) (p : SAR_PRESERVE) : SAR_PRESERVE :=
  {| records := records p; record_capacity := record_capacity p; free_ext := free_ext p;
     free_capacity := free_capacity p; data_high_water := data_high_water p;
     free_dirty := free_dirty p; data_handle := data_handle p; store_key := store_key p;
     mac_key := mac_key p; have_key := have_key p; generation := generation p; anchor := anchor p;
     retention_100ns := retention_100ns p; capacity_bytes := capacity_bytes p;
     reserved_bytes := reserved_bytes p; ready := ready p; dirty := dirty p;
     next_link_id := n |}.

(** [Preserve->free_dirty = TRUE] *)
Definition mark_free_dirty (p : SAR_PRESERVE) : SAR_PRESERVE :=
  set_free (free_ext p) (data_high_water p) true p.

(** [if (removed > 0) Preserve->free_dirty = TRUE], with the remaining records. *)
Definition removed_records (res : Z * list rec) (p : SAR_PRESERVE) : SAR_PRESERVE :=
  let '(removed, rs) := res in
  let p := set_records rs p in
  if 0 <? removed then mark_free_dirty p else p.

(** [SarPreserveCreate] with all allocations and the provider available. *)
Definition SarPreserveCreate (records_ok free_ok provider_ok : bool) : option SAR_PRESERVE :=
  if records_ok && free_ok && provider_ok then
    Some {| records := []; record_capacity := SAR_PRESERVE_RECORD_CAPACITY; free_ext := [];
            free_capacity := SAR_PRESERVE_RECORD_CAPACITY + 1; data_high_water := 0;
            free_dirty := false; data_handle := false;
            store_key := replicate SEMANTICS_AR_MAC_SIZE 0;
            mac_key := replicate SEMANTICS_AR_MAC_SIZE 0; have_key := false; generation := 0;
            anchor := {| anchor_present := false; anchor_generation := 0;
                         anchor_head_mac := replicate SEMANTICS_AR_MAC_SIZE 0 |};
            retention_100ns := SAR_PRESERVE_DEFAULT_RETENTION_100NS;
            capacity_bytes := SAR_PRESERVE_DEFAULT_CAPACITY_BYTES;
            reserved_bytes := 0; ready := false; dirty := false; next_link_id := 1 |}
  else None.

Definition SarPreserveReady (p : option SAR_PRESERVE) : bool :=
  match p with Some p => ready p | None => false end.

(** ** Encryption *)

Definition SarPresRound16 (v : Z) : Z :=
  u64 (v + (SAR_PRESERVE_AES_BLOCK - 1)) .& Z.lnot (SAR_PRESERVE_AES_BLOCK - 1).

(** What the system answers to one call of [SarPresCrypt]: the allocation of the
    key object, and the statuses of key generation and of the cipher. *)
Record crypt_env := { key_alloc : bool; key_status : NTSTATUS; cipher_status : NTSTATUS }.

Section Crypt.
Context `{AesCbc}.

(** The status and the output buffer. *)
Definition SarPresCrypt (env : crypt_env) (p : SAR_PRESERVE) (Encrypt : bool) (In Iv : bytes)
    : NTSTATUS * bytes :=
  if negb (Z.of_nat (length In) mod SAR_PRESERVE_AES_BLOCK =? 0) then (STATUS_INVALID_PARAMETER, [])
  else if negb (key_alloc env) then (STATUS_INSUFFICIENT_RESOURCES, [])
  else if negb (NT_SUCCESS (key_status env)) then (key_status env, [])
  else
    let iv_copy := take (Z.to_nat SAR_PRESERVE_AES_BLOCK) Iv in
    let out := if Encrypt then bcrypt_encrypt (store_key p) iv_copy In
               else bcrypt_decrypt (store_key p) iv_copy In in
    if NT_SUCCESS (cipher_status env) then (STATUS_SUCCESS, out) else (cipher_status env, []).

End Crypt.

(** ** The free list *)

(** One round of the scan over the sorted extents. *)
Definition free_scan (capacity : Z) (st : list SAR_PRES_EXTENT * Z) (e : SAR_PRES_EXTENT)
    : list SAR_PRES_EXTENT * Z :=
  let '(free, prev_end) := st in
  let free := if (prev_end <? off e) && (Z.of_nat (length free) <? capacity)
              then free ++ [{| off := prev_end; len := u64 (off e - prev_end) |}] else free in
  (free, if prev_end <? u64 (off e + len e) then u64 (off e + len e) else prev_end).

Definition record_extent (r : rec) : SAR_PRES_EXTENT :=
  {| off := payload_offset r; len := payload_length r |}.

(** [alloc_ok]: the allocation of the scratch array succeeds. *)
Definition SarPresFreeRebuild (alloc_ok : bool) (p : SAR_PRESERVE) : cres SAR_PRESERVE :=
  match records p with
  | [] => Ret (set_free [] 0 false p)
  | _ =>
    if negb alloc_ok then Ret (set_free [] (data_high_water p) (free_dirty p) p)
    else
      let! a := SarPresHeapSort (map record_extent (records p)) in
      let '(free, prev_end) := fold_left (free_scan (free_capacity p)) a ([], 0) in
      Ret (set_free free prev_end false p)
  end.

(** Taking [Len] bytes from extent [i]; an extent used up is replaced by the
    last one. *)
Definition take_extent (free : list SAR_PRES_EXTENT) (i : nat) (Len : Z) : list SAR_PRES_EXTENT :=
  let e := ext_at free i in
  let e := {| off := u64 (off e + Len); len := u64 (len e - Len) |} in
  let free := <[i := e]> free in
  if len e =? 0
  then take (length free - 1) (<[i := ext_at free (length free - 1)]> free)
  else free.

(** The offset and the store. *)
Definition SarPresAlloc (alloc_ok : bool) (p : SAR_PRESERVE) (Len : Z) : cres (Z * SAR_PRESERVE) :=
  let! p := if free_dirty p then SarPresFreeRebuild alloc_ok p else Ret p in
  match list_find (fun e => Len <= len e) (free_ext p) with
  | Some (i, e) =>
    Ret (off e, set_free (take_extent (free_ext p) i Len) (data_high_water p) (free_dirty p) p)
  | None =>
    Ret (data_high_water p,
         set_free (free_ext p) (u64 (data_high_water p + Len)) (free_dirty p) p)
  end.

(** ** Quarantine paths *)

(** L"\\SemanticsArQuarantine" *)
Definition SAR_Q_SUBDIR : list Z :=
  [92; 83; 101; 109; 97; 110; 116; 105; 99; 115; 65; 114; 81; 117; 97; 114; 97; 110; 116; 105; 110; 101].

(** The loop of [SarPresVolPrefixChars] at index [i] with [slashes] seen. *)
Fixpoint vol_prefix (path : list Z) (i slashes : nat) : nat :=
  match path with
  | [] => O
  | c :: path =>
    if c =? 0 then O
    else if c =? 92 then
      if (S slashes =? 3)%nat then i else vol_prefix path (S i) (S slashes)
    else vol_prefix path (S i) slashes
  end.

Definition SarPresVolPrefixChars (Path : list Z) : nat :=
  vol_prefix (take SEMANTICS_AR_PROVENANCE_PATH_MAX Path) 0 0.

(** L"0123456789abcdef"[d] *)
Definition hexd (d : Z) : Z := if d <? 10 then 48 + d else 87 + d.

(** The loop that fills [Out] from its last character. *)
Fixpoint hex_loop (n : nat) (V : Z) (out : list Z) : list Z :=
  match n with
  | O => out
  | S n => hex_loop n (V .>> 4) (hexd (V .& 0xF) :: out)
  end.

Definition SarPresHex64 (V : Z) : list Z := hex_loop 16 V [].

(** [None] is FALSE; the buffers with their terminators. *)
Definition SarPreserveQuarantinePaths (Path : list Z) (LinkId : Z) (DirCapChars LinkCapChars : nat)
    : option (list Z * list Z) :=
  let vp := SarPresVolPrefixChars Path in
  let sublen := length SAR_Q_SUBDIR in
  let need_dir := (vp + sublen)%nat in
  let need_link := (need_dir + 1 + 16 + 2)%nat in
  if (vp =? 0)%nat || (DirCapChars <=? need_dir)%nat || (LinkCapChars <=? need_link)%nat then None
  else
    let dir := take vp Path ++ SAR_Q_SUBDIR in
    Some (dir ++ [0], dir ++ [92] ++ SarPresHex64 LinkId ++ [46; 113; 0]).

(** The result and the store. *)
Definition SarPreserveAllocLinkId (p : SAR_PRESERVE) : Z * SAR_PRESERVE :=
  (next_link_id p, set_next_link (u64 (next_link_id p + 1)) p).

(** The file that is deleted, if any. *)
Definition SarPresUnlinkQuarantine (Path : list Z) (LinkId : Z) : option (list Z) :=
  match SarPreserveQuarantinePaths Path LinkId 320 360 with
  | Some (_, link) => Some link
  | None => None
  end.

(** The two ways the function is called: [ByAge = TRUE], or a path with a range. *)
Inductive reap_by := ByAge (Now Retention : Z) | ByKey (Path : list Z) (KeyOff KeyLen : Z).

Definition reap_match (by_ : reap_by) (r : rec) : bool :=
  (kind r =? SAR_PRESERVE_KIND_NAMESPACE) &&
  match by_ with
  | ByAge Now Retention =>
    (capture_time r <? Now) && (Retention <=? u64 (Now - capture_time r))
  | ByKey Path KeyOff KeyLen =>
    sar_pres_path_eq (provenance_path r) Path && (KeyOff <=? provenance_offset r) &&
    (u64 (provenance_offset r + provenance_length r) <=? u64 (KeyOff + KeyLen))
  end.

(** One critical section of [SarPresReapNamespace]: the record it removes. *)
Definition reap_round (by_ : reap_by) (p : SAR_PRESERVE) : option (rec * SAR_PRESERVE) :=
  match list_find (fun r => reap_match by_ r = true) (records p) with
  | Some (i, r) => Some (r, set_dirty true (set_records (shift_down (records p) i) p))
  | None => None
  end.

(** The store and the files deleted. *)
Fixpoint reap_loop (fuel : nat) (by_ : reap_by) (p : SAR_PRESERVE) : cres (SAR_PRESERVE * list (list Z)) :=
  match fuel with
  | O => NoFuel
  | S fuel =>
    match reap_round by_ p with
    | None => Ret (p, [])
    | Some (r, p) =>
      let! (p, del) := reap_loop fuel by_ p in
      Ret (p, match SarPresUnlinkQuarantine (provenance_path r) (payload_offset r) with
              | Some f => f :: del
              | None => del
              end)
    end
  end.

Definition SarPresReapNamespace (by_ : reap_by) (p : SAR_PRESERVE) : cres (SAR_PRESERVE * list (list Z)) :=
  reap_loop (S (length (records p))) by_ p.

(** The critical section of [SarPresMaintain]. *)
Definition maintain_evict (now : Z) (p : SAR_PRESERVE) : SAR_PRESERVE :=
  let '(removed, rs) := sar_preserve_evict_aged (records p) now (retention_100ns p) in
  let p := removed_records (removed, rs) p in
  if 0 <? removed then set_dirty true p else p.

Definition SarPresMaintain (now : Z) (p : SAR_PRESERVE) : cres (SAR_PRESERVE * list (list Z)) :=
  let! (p, del) := SarPresReapNamespace (ByAge now (retention_100ns p)) p in
  Ret (maintain_evict now p, del).

(** ** Staging *)

Definition set_kind (k : Z) (r : rec) : rec :=
  {| provenance_path := provenance_path r; provenance_offset := provenance_offset r;
     provenance_length := provenance_length r; capture_time := capture_time r;
     payload_offset := payload_offset r; payload_length := payload_length r;
     actor_id := actor_id r; state := state r; kind := k; iv := iv r; iv_length := iv_length r;
     content_tag := content_tag r; causing_image_path := causing_image_path r |}.
Definition set_causing (c : list Z) (r : rec) : rec :=
  {| provenance_path := provenance_path r; provenance_offset := provenance_offset r;
     provenance_length := provenance_length r; capture_time := capture_time r;
     payload_offset := payload_offset r; payload_length := payload_length r;
     actor_id := actor_id r; state := state r; kind := kind r; iv := iv r; iv_length := iv_length r;
     content_tag := content_tag r; causing_image_path := c |}.

(** The image of the acting process, zero when it is unknown. *)
Definition causing_path (st : option DriverState.SAR_STATE) (ActorId : Z) : list Z :=
  let zero := replicate SEMANTICS_AR_PROVENANCE_PATH_MAX 0 in
  match st with
  | Some st => default zero (DriverState.SarStateImageByStartKey st ActorId)
  | None => zero
  end.

(** [sar_preserve_append(...)] and [if (... == 1) InterlockedExchange(&dirty, 1)] *)
Definition append_record (r : rec) (p : SAR_PRESERVE) : SAR_PRESERVE :=
  let '(rc, rs) := sar_preserve_append (records p) (record_capacity p) r in
  let p := set_records rs p in
  if rc =? 1 then set_dirty true p else p.

Definition SarPreserveStageLink (p : SAR_PRESERVE) (st : option DriverState.SAR_STATE) (now : Z)
    (Path : list Z) (FileSize ActorId LinkId : Z) : NTSTATUS * SAR_PRESERVE :=
  if negb (ready p) then (STATUS_DEVICE_NOT_READY, p)
  else
    let causingPath := causing_path st ActorId in
    if existsb (fun r => (kind r =? SAR_PRESERVE_KIND_NAMESPACE) && (provenance_offset r =? 0) &&
                         sar_pres_path_eq (provenance_path r) Path) (records p)
    then (STATUS_OBJECT_NAME_COLLISION, p)
    else
      let p := removed_records (sar_preserve_evict_aged (records p) now (retention_100ns p)) p in
      if record_capacity p <=? Z.of_nat (length (records p)) then (STATUS_INSUFFICIENT_RESOURCES, p)
      else
        let rec := sar_preserve_record_init (Some Path) 0 FileSize now LinkId 0 ActorId None 0 None 0 in
        let rec := set_causing causingPath (set_kind SAR_PRESERVE_KIND_NAMESPACE rec) in
        (STATUS_SUCCESS, append_record rec p).

(** What the system answers during one round of the staging loop: the mode, the
    random vector, the two buffers, the encryption, the scratch array of the
    free list and the write. *)
Record stage_env := {
  mode_now : Z;
  random_iv : option bytes;
  ct_alloc : bool;
  pad_alloc : bool;
  crypt : crypt_env;
  rebuild_alloc : bool;
  write_status : NTSTATUS
}.

(** The end of a round: [break] with [result], or the new [cursor]. *)
Inductive round_end := Break (result : SAR_STAGE_RESULT) | Next (cursor : Z).

Record stage_args := {
  Path : list Z;
  Offset : Z;
  ActorId : Z;
  Plaintext : bytes;
  AgainstReservation : bool;
  stage_now : Z;
  causingPath : list Z
}.

Section Stage.
Context {F : Type} `{DataFile F, AesCbc}.

(** Making room for [ct_len] bytes: [None] is a [break] with DROPPED. *)
Definition stage_budget (mode : Z) (against : bool) (p : SAR_PRESERVE) (ct_len : Z)
    : cres (option SAR_PRESERVE) :=
  if capacity_bytes p <? ct_len then Ret None
  else
    let prot := sar_preserve_protected_bytes (records p) in
    let res := if against then 0 else reserved_bytes p in
    if capacity_bytes p <? u64 (prot + ct_len) then Ret None
    else if capacity_bytes p <? u64 (u64 (sar_preserve_total_bytes (records p) + res) + ct_len) then
      if mode =? SEMANTICS_AR_MODE_ENFORCE then Ret None
      else
        let! res := sar_preserve_evict_probation_oldest (records p)
                      (u64 (u64 (capacity_bytes p - prot) - ct_len)) in
        Ret (Some (removed_records res p))
    else Ret (Some p).

(** Encrypting and writing the gap [g_off, g_off + g_len). *)
Definition stage_store (env : stage_env) (a : stage_args) (p : SAR_PRESERVE) (f : F)
    (g_off g_len ct_len : Z) : cres (round_end * SAR_PRESERVE * F) :=
  let ptoff := u32 (u64 (g_off - Offset a)) in
  let gap := take (Z.to_nat g_len) (drop (Z.to_nat ptoff) (Plaintext a)) in
  match random_iv env with
  | None => Ret (Break SAR_STAGE_FAILED, p, f)
  | Some iv =>
    if negb (ct_alloc env) then Ret (Break SAR_STAGE_FAILED, p, f)
    else if negb (pad_alloc env) then Ret (Break SAR_STAGE_FAILED, p, f)
    else
      let padbuf := mem_write (replicate (Z.to_nat ct_len) 0) 0 gap in
      let '(status, ctbuf) := SarPresCrypt (crypt env) p true (take (Z.to_nat (u32 ct_len)) padbuf) iv in
      if negb (NT_SUCCESS status) then Ret (Break SAR_STAGE_FAILED, p, f)
      else
        let! (off, p) := SarPresAlloc (rebuild_alloc env) p ct_len in
        if negb (data_handle p) || negb (NT_SUCCESS (write_status env))
        then Ret (Break SAR_STAGE_FAILED, mark_free_dirty p, f)
        else
          let f := data_write f off ctbuf in
          let rec := sar_preserve_record_init (Some (Path a)) g_off g_len (stage_now a) off ct_len
                       (ActorId a) (Some iv) SAR_PRESERVE_AES_BLOCK (Some gap) (u32 g_len) in
          let rec := set_causing (causingPath a) rec in
          Ret (Next (u64 (g_off + g_len)), append_record rec p, f)
  end.

(** One round of [while (cursor < end)]. *)
Definition stage_round (env : stage_env) (a : stage_args) (p : SAR_PRESERVE) (f : F) (cursor stop : Z)
    : cres (round_end * SAR_PRESERVE * F) :=
  let! gap := sar_preserve_first_gap (records p) (Path a) cursor (u64 (stop - cursor)) in
  match gap with
  | None => Ret (Break SAR_STAGE_ALREADY_COVERED, p, f)
  | Some (g_off, g_len) =>
    let ct_len := SarPresRound16 g_len in
    let! room := stage_budget (mode_now env) (AgainstReservation a) p ct_len in
    match room with
    | None => Ret (Break SAR_STAGE_DROPPED, p, f)
    | Some p =>
      if record_capacity p <=? Z.of_nat (length (records p)) then Ret (Break SAR_STAGE_DROPPED, p, f)
      else stage_store env a p f g_off g_len ct_len
    end
  end.

(** The loop; [env i] answers round [i].  The result is [result] and [staged]. *)
Fixpoint stage_loop (fuel : nat) (env : nat -> stage_env) (i : nat) (a : stage_args)
    (p : SAR_PRESERVE) (f : F) (cursor stop : Z) (staged : bool)
    : cres (SAR_STAGE_RESULT * bool * SAR_PRESERVE * F) :=
  match fuel with
  | O => NoFuel
  | S fuel =>
    if cursor <? stop then
      let! (r, p, f) := stage_round (env i) a p f cursor stop in
      match r with
      | Break result => Ret (result, staged, p, f)
      | Next cursor => stage_loop fuel env (S i) a p f cursor stop true
      end
    else Ret (SAR_STAGE_ALREADY_COVERED, staged, p, f)
  end.

(** [PlaintextLen] is the length of the buffer. *)
Definition SarPreserveStage (env : nat -> stage_env) (p : SAR_PRESERVE) (f : F)
    (st : option DriverState.SAR_STATE) (now : Z) (Path : list Z) (Offset Length ActorId : Z)
    (Plaintext : bytes) (AgainstReservation : bool) : cres (SAR_STAGE_RESULT * SAR_PRESERVE * F) :=
  if negb (ready p) then Ret (SAR_STAGE_FAILED, p, f)
  else if (Z.of_nat (length Plaintext) =? 0) || (Length =? 0) then Ret (SAR_STAGE_STORED, p, f)
  else if negb (Z.of_nat (length Plaintext) =? Length) then Ret (SAR_STAGE_FAILED, p, f)
  else
    let a := {| Path := Path; Offset := Offset; ActorId := ActorId; Plaintext := Plaintext;
                AgainstReservation := AgainstReservation; stage_now := now;
                causingPath := causing_path st ActorId |} in
    let p := removed_records (sar_preserve_evict_aged (records p) now (retention_100ns p)) p in
    let stop := u64 (Offset + Length) in
    let! (result, staged, p, f) := stage_loop (S (Z.to_nat Length)) env 0 a p f Offset stop false in
    Ret (match result with
         | SAR_STAGE_DROPPED | SAR_STAGE_FAILED => result
         | _ => if staged then SAR_STAGE_STORED else SAR_STAGE_ALREADY_COVERED
         end, p, f).

(** ** Restoring *)

(** The record the search under the lock finds. *)
Definition restore_match (Path : list Z) (Offset Length : Z) (r : rec) : bool :=
  (provenance_offset r <=? Offset) &&
  (u64 (Offset + Length) <=? u64 (provenance_offset r + provenance_length r)) &&
  sar_pres_path_eq (provenance_path r) Path.

Definition restore_find (p : SAR_PRESERVE) (Path : list Z) (Offset Length : Z) : option rec :=
  match list_find (fun r => restore_match Path Offset Length r = true) (records p) with
  | Some (_, r) => Some r
  | None => None
  end.

(** The answers during one restoration: buffers, the read, the decryption; and
    reading [Length] bytes at [Offset] of a quarantined file. *)
Record restore_env := {
  bufs_alloc : bool;
  read_status : NTSTATUS;
  rcrypt : crypt_env;
  link_read : list Z -> Z -> Z -> NTSTATUS * bytes
}.

(** The link is opened and read; the status and the bytes read. *)
Definition SarPresReadLink (env : restore_env) (Path : list Z) (LinkId Offset Length : Z)
    : NTSTATUS * bytes :=
  match SarPreserveQuarantinePaths Path LinkId 320 360 with
  | None => (STATUS_OBJECT_PATH_INVALID, [])
  | Some (_, link) =>
    let '(status, out) := link_read env link Offset Length in
    if NT_SUCCESS status then (status, out) else (status, [])
  end.

(** [SarPresDataRead]: a failed request, or the bytes of the file. *)
Definition SarPresDataRead (status : NTSTATUS) (p : SAR_PRESERVE) (f : F) (Offset Len : Z)
    : NTSTATUS * bytes :=
  if negb (data_handle p) then (STATUS_DEVICE_NOT_READY, [])
  else if negb (NT_SUCCESS status) then (status, [])
  else match data_read f Offset (Z.to_nat Len) with
       | Some b => (STATUS_SUCCESS, b)
       | None => (STATUS_DATA_ERROR, [])
       end.

(** The part of [SarPreserveRestore] after the lock is released, for the record
    that was found; [f] is the data file at that time.  The status and the
    [*OutLen] bytes copied to [Out]. *)
Definition restore_record (env : restore_env) (p : SAR_PRESERVE) (f : F) (rec : rec) (Path : list Z)
    (Offset Length : Z) : NTSTATUS * bytes :=
  if kind rec =? SAR_PRESERVE_KIND_NAMESPACE
  then SarPresReadLink env Path (payload_offset rec) Offset (u32 Length)
  else if negb (bufs_alloc env) then (STATUS_INSUFFICIENT_RESOURCES, [])
  else
    let '(status, ctbuf) := SarPresDataRead (read_status env) p f (payload_offset rec) (u32 (payload_length rec)) in
    if negb (NT_SUCCESS status) then (status, [])
    else
      let '(status, ptbuf) := SarPresCrypt (rcrypt env) p false ctbuf (iv rec) in
      if negb (NT_SUCCESS status) then (status, [])
      else
        match sar_preserve_verify_extract rec Path Offset Length
                (take (Z.to_nat (provenance_length rec)) ptbuf) with
        | (SAR_PRES_OK, inner) =>
          (STATUS_SUCCESS, take (Z.to_nat Length) (drop (Z.to_nat inner) ptbuf))
        | _ => (STATUS_DATA_ERROR, [])
        end.

Definition SarPreserveRestore (env : restore_env) (p : SAR_PRESERVE) (f : F) (Path : list Z)
    (Offset Length OutCap : Z) : NTSTATUS * bytes :=
  if negb (ready p) then (STATUS_DEVICE_NOT_READY, [])
  else if OutCap <? Length then (STATUS_BUFFER_TOO_SMALL, [])
  else match restore_find p Path Offset Length with
       | None => (STATUS_NOT_FOUND, [])
       | Some rec => restore_record env p f rec Path Offset Length
       end.

End Stage.

(** ** The other operations *)

Definition SarPreservePromote (p : SAR_PRESERVE) (ActorId : Z) : SAR_PRESERVE :=
  if negb (ready p) then p
  else
    let '(promoted, rs) := sar_preserve_promote (records p) ActorId in
    let p := set_records rs p in
    if 0 <? promoted then set_dirty true p else p.

(** The critical section of [SarPreserveReconcile] after the reaping. *)
Definition reconcile_records (p : SAR_PRESERVE) (Path : list Z) (KeyOffset KeyLength : Z) : SAR_PRESERVE :=
  let '(removed, rs) := sar_preserve_reconcile (records p) Path KeyOffset KeyLength in
  let p := removed_records (removed, rs) p in
  if 0 <? removed then set_dirty true p else p.

Definition SarPreserveReconcile (p : SAR_PRESERVE) (Path : list Z) (KeyOffset KeyLength : Z)
    : cres (SAR_PRESERVE * list (list Z)) :=
  if negb (ready p) then Ret (p, [])
  else
    let! (p, del) := SarPresReapNamespace (ByKey Path KeyOffset KeyLength) p in
    Ret (reconcile_records p Path KeyOffset KeyLength, del).

Definition set_path (path : list Z) (r : rec) : rec :=
  {| provenance_path := path; provenance_offset := provenance_offset r;
     provenance_length := provenance_length r; capture_time := capture_time r;
     payload_offset := payload_offset r; payload_length := payload_length r;
     actor_id := actor_id r; state := state r; kind := kind r; iv := iv r; iv_length := iv_length r;
     content_tag := content_tag r; causing_image_path := causing_image_path r |}.

Definition rename_rec (OldPath NewPath : list Z) (r : rec) : rec :=
  if sar_pres_path_eq (provenance_path r) OldPath
  then set_path (take SEMANTICS_AR_PROVENANCE_PATH_MAX NewPath) r else r.

Definition SarPreserveRename (p : SAR_PRESERVE) (OldPath NewPath : list Z) : SAR_PRESERVE :=
  if negb (ready p) then p
  else
    let changed := existsb (fun r => sar_pres_path_eq (provenance_path r) OldPath) (records p) in
    let p := set_records (map (rename_rec OldPath NewPath) (records p)) p in
    if changed then set_dirty true p else p.

Definition SarPreserveWouldExceed (p : option SAR_PRESERVE) (IncomingBytes : Z) : bool :=
  match p with
  | None => false
  | Some p =>
    if negb (ready p) then false
    else capacity_bytes p <?
           u64 (u64 (sar_preserve_total_bytes (records p) + reserved_bytes p) + IncomingBytes)
  end.

Definition SarPreserveReserve (p : SAR_PRESERVE) (Bytes : Z) : bool * SAR_PRESERVE :=
  if negb (ready p) || (Bytes =? 0) then (false, p)
  else if u64 (u64 (sar_preserve_total_bytes (records p) + reserved_bytes p) + Bytes) <=? capacity_bytes p
  then (true, set_reserved (u64 (reserved_bytes p + Bytes)) p)
  else (false, p).

Definition SarPreserveRelease (p : SAR_PRESERVE) (Bytes : Z) : SAR_PRESERVE :=
  if negb (ready p) || (Bytes =? 0) then p
  else if reserved_bytes p <=? Bytes then set_reserved 0 p
  else set_reserved (reserved_bytes p - Bytes) p.

(** The fields of [semantics_ar_preserve_entry_t] the projection fills. *)
Record preserve_entry := {
  pe_path : list Z; pe_offset : Z; pe_length : Z; pe_time : Z; pe_payload_length : Z;
  pe_actor : Z; pe_state : Z; pe_cause : list Z
}.

(** [*Total] and the entry, if the index is in range. *)
Definition SarPreserveProject (p : SAR_PRESERVE) (Index : Z) : Z * option preserve_entry :=
  (Z.of_nat (length (records p)),
   if Index <? Z.of_nat (length (records p)) then
     let r := rec_at (records p) (Z.to_nat Index) in
     Some {| pe_path := provenance_path r; pe_offset := provenance_offset r;
             pe_length := provenance_length r; pe_time := capture_time r;
             pe_payload_length := payload_length r; pe_actor := actor_id r;
             pe_state := state r; pe_cause := causing_image_path r |}
   else None).

Record SAR_PRESERVE_STATS := {
  st_capacity_bytes : Z; st_used_bytes : Z; st_retention_100ns : Z;
  st_oldest_protected_time : Z; st_protected_count : Z; st_probation_count : Z
}.

(** One round of the counting loop: (protected, oldest, probation). *)
Definition stats_step (acc : Z * Z * Z) (r : rec) : Z * Z * Z :=
  let '(prot, oldest, prob) := acc in
  if state r =? SAR_PRESERVE_PROTECTED then
    (u32 (prot + 1), (if (oldest =? 0) || (capture_time r <? oldest) then capture_time r else oldest), prob)
  else (prot, oldest, u32 (prob + 1)).

Definition SarPreserveStats (p : option SAR_PRESERVE) : SAR_PRESERVE_STATS :=
  let zero := {| st_capacity_bytes := 0; st_used_bytes := 0; st_retention_100ns := 0;
                 st_oldest_protected_time := 0; st_protected_count := 0; st_probation_count := 0 |} in
  match p with
  | None => zero
  | Some p =>
    if negb (ready p) then zero
    else
      let '(prot, oldest, prob) := fold_left stats_step (records p) (0, 0, 0) in
      {| st_capacity_bytes := capacity_bytes p;
         st_used_bytes := sar_preserve_total_bytes (records p);
         st_retention_100ns := retention_100ns p; st_oldest_protected_time := oldest;
         st_protected_count := prot; st_probation_count := prob |}
  end.

End DriverPreserve.
