(* ===== verification/PreserveTable.v ===== *)
(** * The table of the preservation store under every operation of the driver

    [Preserve] has the operations of engine/src/preserve.c on the table; the
    driver changes it in two more ways (driver/preserve.c): [SarPreserveRename]
    rewrites the paths of records in place, and reaping removes one record.
    Renaming keeps records apart only when no record has the new path. *)

From stdpp Require Import relations.
From S2P Require Import Prelude Mem Format Chain Keystore Preserve DriverPreserve.
Import Mem Layout Preserve PresRec DriverPreserve.

Module PreserveTable.

(** One change of the table.  With [clean], files are only renamed to paths of
    which nothing is recorded. *)
Inductive table_step (clean : bool) (capacity : Z) : list rec -> list rec -> Prop :=
  | t_engine rs rs' : pres_step capacity rs rs' -> table_step clean capacity rs rs'
  | t_rename rs old new :
      length old = 260%nat -> Forall is_u16 old -> length new = 260%nat -> Forall is_u16 new ->
      (clean = true -> Forall (fun r => sar_pres_path_eq (provenance_path r) new = false) rs) ->
      table_step clean capacity rs (map (rename_rec old new) rs)
  | t_reap rs i : (i < length rs)%nat -> table_step clean capacity rs (shift_down rs i).

(** What holds whatever is renamed. *)
Definition table_wf (capacity : Z) (rs : list rec) : Prop :=
  Forall rec_wf rs /\ Z.of_nat (length rs) <= capacity.

Lemma set_path_wf path r : length path = 260%nat -> Forall is_u16 path -> rec_wf r -> rec_wf (set_path path r).
Proof.
  intros Hl Hu (?&?&?&?&?&?&?&?&?&?&?&?&?). unfold rec_wf, struct_wf.
  cbn [layout preserve_record_packed rec_codec c_iso wf c_pair]. by split_and!.
Qed.

Lemma rename_rec_wf old new r : length new = 260%nat -> Forall is_u16 new -> rec_wf r -> rec_wf (rename_rec old new r).
Proof.
  intros Hl Hu Hr. unfold rename_rec. dif; [|done]. apply set_path_wf; [|by apply Forall_take|done].
  rewrite length_take. unfold SEMANTICS_AR_PROVENANCE_PATH_MAX. lia.
Qed.

Lemma rename_rec_region old new r :
  provenance_offset (rename_rec old new r) = provenance_offset r /\ rend (rename_rec old new r) = rend r.
Proof. unfold rename_rec. by dif. Qed.

Lemma take_path (new : list Z) : length new = 260%nat -> take SEMANTICS_AR_PROVENANCE_PATH_MAX new = new.
Proof. intros H. apply take_ge. unfold SEMANTICS_AR_PROVENANCE_PATH_MAX. lia. Qed.

(** Records that had different paths still have them when the new path was free. *)
Lemma rename_paths_apart old new r s :
  rec_wf r -> rec_wf s -> length new = 260%nat -> Forall is_u16 new ->
  sar_pres_path_eq (provenance_path r) new = false -> sar_pres_path_eq (provenance_path s) new = false ->
  provenance_path (rename_rec old new r) = provenance_path (rename_rec old new s) ->
  sar_pres_path_eq (provenance_path r) old = sar_pres_path_eq (provenance_path s) old /\
  (sar_pres_path_eq (provenance_path r) old = false -> provenance_path r = provenance_path s).
Proof.
  intros [Lr Ur]%preserve_rec_wf_path [Ls Us]%preserve_rec_wf_path Hl Hu Nr Ns. unfold rename_rec.
  assert (Hne : forall a, length a = 260%nat -> Forall is_u16 a -> sar_pres_path_eq a new = false -> a <> new).
  { intros a La Ua Ha Eq. apply (path_eq_iff a new La Hl Ua Hu) in Eq. congruence. }
  destruct (sar_pres_path_eq (provenance_path r) old), (sar_pres_path_eq (provenance_path s) old);
    cbn [set_path provenance_path]; rewrite ?take_path by done; intros Eq; split; try done.
  - by destruct (Hne _ Ls Us Ns).
  - by destruct (Hne _ Lr Ur Nr).
  - by destruct (Hne _ Lr Ur Nr).
Qed.

Lemma rename_disjoint old new rs :
  Forall rec_wf rs -> length old = 260%nat -> Forall is_u16 old -> length new = 260%nat -> Forall is_u16 new ->
  Forall (fun r => sar_pres_path_eq (provenance_path r) new = false) rs ->
  disjoint_table rs -> disjoint_table (map (rename_rec old new) rs).
Proof.
  intros Hw Lo Uo Ln Un Hn Hd i j r s x Hij Hi Hj. rewrite list_lookup_fmap in Hi, Hj.
  destruct (rs !! i) as [r0|] eqn:Ei; [|done]. destruct (rs !! j) as [s0|] eqn:Ej; [|done].
  injection Hi as <-. injection Hj as <-. intros Heq.
  rewrite Forall_lookup in Hw, Hn. pose proof (Hw i r0 Ei) as Wr. pose proof (Hw j s0 Ej) as Ws.
  destruct (rename_paths_apart old new r0 s0 Wr Ws Ln Un (Hn i r0 Ei) (Hn j s0 Ej) Heq) as [Hb Hs].
  destruct (rename_rec_region old new r0) as [-> ->]. destruct (rename_rec_region old new s0) as [-> ->].
  apply (Hd i j); [done|done|done|].
  destruct (sar_pres_path_eq (provenance_path r0) old) eqn:Er; [|by apply Hs].
  apply preserve_rec_wf_path in Wr as [Lr Ur], Ws as [Ls Us].
  apply (path_eq_iff _ old Lr Lo Ur Uo) in Er as ->. symmetry in Hb. by apply (path_eq_iff _ old Ls Lo Us Uo) in Hb as ->.
Qed.

Lemma table_step_inv clean capacity rs rs' : table_step clean capacity rs rs' ->
  table_wf capacity rs /\ (clean = true -> disjoint_table rs) ->
  table_wf capacity rs' /\ (clean = true -> disjoint_table rs').
Proof.
  destruct 1 as [rs rs' Hs|rs old new Lo Uo Ln Un Hc|rs i Hi]; intros [[Hw Hl] Hd].
  - destruct (pres_step_wf _ _ _ Hs (conj Hw Hl)) as [Hw' Hl']. split; [done|]. intros Hcl.
    apply (inv_disjoint capacity). eapply pres_step_inv; [exact Hs|]. by constructor; [|apply Hd|].
  - split; [split; [|by rewrite length_map]|].
    + apply Forall_fmap. eapply Forall_impl; [exact Hw|]. intros r. by apply rename_rec_wf.
    + intros Hcl. apply rename_disjoint; auto.
  - rewrite shift_down_delete by done.
    assert (Hsub : sublist (delete i rs) rs) by apply sublist_delete.
    split; [split; [by eapply sublist_Forall|]|].
    + apply sublist_length in Hsub. lia.
    + intros Hcl. apply (inv_disjoint capacity), (table_inv_sublist _ rs); [done|]. by constructor; [|apply Hd|].
Qed.

(** Property C27: in every table that the operations of the driver make of the
    empty one - appending, promoting, reconciling, evicting, reaping and renaming -
    the records are well formed and at most [capacity] many; and as long as
    files are renamed only to paths of which nothing is recorded, no two records
    of the same file hold a common byte. *)
Theorem preserve_reachable_inv clean capacity rs :
  0 <= capacity -> rtc (table_step clean capacity) [] rs ->
  table_wf capacity rs /\ (clean = true -> disjoint_table rs).
Proof.
  intros Hc Hr. assert (H0 : table_wf capacity [] /\ (clean = true -> disjoint_table [])).
  { split; [by split|]. by intros _ ?? ??? ??. }
  remember [] as s0. clear Heqs0. induction Hr as [rs|rs1 rs2 rs3 Hs _ IH]; [done|].
  by apply IH, (table_step_inv _ _ rs1).
Qed.

(** A record, and its file renamed. *)
Lemma preserve_reachable_inv_witness :
  let new := [67; 58; 92; 98] ++ replicate 256 0 in
  let rs := map (rename_rec demo_path new) [demo_rec 0 4 1 4] in
  table_wf 2 rs /\ disjoint_table rs.
Proof.
  intros new rs. destruct (preserve_reachable_inv true 2 rs) as [Hw Hd]; [lia| |by split; [|apply Hd]].
  eapply rtc_l; [apply t_engine, (step_append 2 [] (demo_rec 0 4 1 4)), preserve_demo_rec_wf; unfold is_u; lia|].
  apply rtc_once. apply t_rename; try reflexivity; try (by apply forall_u_check; vm_compute).
  intros _. apply Forall_singleton. by vm_compute.
Defined.

(** Renaming a file to a path that has records makes records of two files records
    of one: where they held a byte each, the path holds it twice, and what is
    restored is the one that was recorded first. *)
Theorem rename_onto_recorded old new rs i j r s x :
  rec_wf r -> rec_wf s -> length old = 260%nat -> Forall is_u16 old -> length new = 260%nat -> Forall is_u16 new ->
  i <> j -> rs !! i = Some r -> rs !! j = Some s -> provenance_path r = old -> provenance_path s = new -> old <> new ->
  provenance_offset r <= x < rend r -> provenance_offset s <= x < rend s ->
  ~ disjoint_table (map (rename_rec old new) rs).
Proof.
  intros Wr Ws Lo Uo Ln Un Hij Hi Hj Hr Hs Hne Xr Xs Hd.
  apply (Hd i j (rename_rec old new r) (rename_rec old new s) x); [done|by rewrite list_lookup_fmap, Hi|by rewrite list_lookup_fmap, Hj| |].
  - unfold rename_rec. rewrite Hr, Hs. rewrite (proj2 (path_eq_iff old old Lo Lo Uo Uo) eq_refl).
    destruct (sar_pres_path_eq new old); cbn [set_path provenance_path]; rewrite ?take_path by done; congruence.
  - destruct (rename_rec_region old new r) as [-> ->]. by destruct (rename_rec_region old new s) as [-> ->].
Qed.

End PreserveTable.
