(* ===== verification/PreserveAlloc.v ===== *)
(** * The allocator of the preservation store

    Space in the data file comes from the gaps between live payloads or from
    the end of the file.  This file proves that what [SarPresAlloc] returns
    never overlaps a live payload nor a free extent, as long as the rebuild of
    the free list has run once since the index was loaded. *)

From Stdlib Require Import Sorted.
From S2P Require Import Prelude Mem Format Chain Preserve HeapSort DriverPreserve.
Import Mem Layout PresRec HeapSort DriverPreserve.

(** ** Pairwise relations on lists *)

Lemma insert_perm {A} (l : list A) i x : (i < length l)%nat -> <[i := x]> l ≡ₚ x :: delete i l.
Proof.
  intros Hx. rewrite insert_take_drop by lia. rewrite delete_take_drop.
  by rewrite Permutation_middle.
Qed.

Section Pairwise.
Context {A : Type} (R : A -> A -> Prop) `{!Symmetric R}.

Definition pairwise : list A -> Prop := StronglySorted R.

Lemma pairwise_cons x l : pairwise (x :: l) <-> Forall (R x) l /\ pairwise l.
Proof. split; [intros H; inversion H; auto|intros []; by constructor]. Qed.

Lemma pairwise_perm l l' : l ≡ₚ l' -> pairwise l -> pairwise l'.
Proof using Symmetric0.
  induction 1 as [|x l l' Hp IH|x y l|l l' l'' _ IH1 _ IH2]; rewrite ?pairwise_cons, ?Forall_cons; auto.
  - intros [Hx Hl]. split; [by rewrite <- Hp|auto].
  - intros [[? ?] [? ?]]. auto.
Qed.

Lemma pairwise_sublist l l' : sublist l' l -> pairwise l -> pairwise l'.
Proof.
  induction 1 as [|x l' l Hs IH|x l' l Hs IH]; rewrite ?pairwise_cons; auto.
  - intros [Hx Hl]. split; [|auto]. by eapply sublist_Forall.
  - intros [_ Hl]. auto.
Qed.

Lemma pairwise_snoc l x : Forall (fun y => R x y) l -> pairwise l -> pairwise (l ++ [x]).
Proof using Symmetric0.
  intros Hx Hl. apply (pairwise_perm (x :: l)); [apply Permutation_cons_append|].
  by apply pairwise_cons.
Qed.

End Pairwise.

Module PreserveAlloc.

(** Two ranges have no byte in common. *)
Definition apart (a b : SAR_PRES_EXTENT) : Prop :=
  len a <= 0 \/ len b <= 0 \/ off a + len a <= off b \/ off b + len b <= off a.

#[global] Instance apart_sym : Symmetric apart.
Proof. intros a b. unfold apart. lia. Qed.

Definition ext_end (e : SAR_PRES_EXTENT) : Z := off e + len e.

(** An extent of 64-bit numbers whose end does not wrap. *)
Definition ext_wf (e : SAR_PRES_EXTENT) : Prop := 0 <= off e /\ 0 <= len e /\ ext_end e < 2 ^ 64.

(** ** Rebuilding the free list *)

(** [free] has the gaps among the extents [live], all below [hw]. *)
Record free_list (hw : Z) (live free : list SAR_PRES_EXTENT) : Prop := {
  fl_range : Forall (fun e => 0 <= off e /\ 0 < len e /\ ext_end e <= hw) free;
  fl_pairwise : pairwise apart free;
  fl_live : Forall (fun e => Forall (apart e) live) free
}.

Lemma free_list_nil hw live : free_list hw live [].
Proof. split; constructor. Qed.

Lemma free_list_weaken hw hw' live live' free :
  hw <= hw' -> (forall x, x ∈ live' -> x ∈ live) -> free_list hw live free -> free_list hw' live' free.
Proof.
  intros Hhw Hs [H1 H2 H3]. split; [|done|].
  - eapply Forall_impl; [exact H1|]. simpl. lia.
  - eapply Forall_impl; [exact H3|]. simpl. intros e He.
    rewrite Forall_forall in *. auto.
Qed.

Lemma free_scan_eq cap free pe e :
  ext_wf e -> 0 <= pe < 2 ^ 64 ->
  free_scan cap (free, pe) e =
    ((if (pe <? off e) && (Z.of_nat (length free) <? cap)
      then free ++ [{| off := pe; len := off e - pe |}] else free),
     Z.max pe (ext_end e)).
Proof.
  intros (Ho&Hl&He) Hpe. unfold free_scan, ext_end in *.
  rewrite !(u64_small (off e + len e)) by (unfold is_u; lia). f_equal.
  - destruct (Z.ltb_spec pe (off e)); [|done]. by rewrite u64_small by (unfold is_u; lia).
  - destruct (Z.ltb_spec pe (off e + len e)); lia.
Qed.

Lemma free_scan_loop cap a done_ free pe :
  StronglySorted ext_le a -> Forall ext_wf a -> 0 <= pe < 2 ^ 64 ->
  Forall (fun x => ext_end x <= pe) done_ ->
  free_list pe (done_ ++ a) free -> Forall (fun e => Forall (fun x => ext_end e <= off x) a) free ->
  let '(free', pe') := fold_left (free_scan cap) a (free, pe) in
  free_list pe' (done_ ++ a) free' /\ pe <= pe' < 2 ^ 64 /\
  Forall (fun x => ext_end x <= pe') (done_ ++ a).
Proof.
  revert done_ free pe. induction a as [|e a IH]; intros done_ free pe Hs Hwf Hpe Hd Hf Hfa.
  { simpl. rewrite app_nil_r in *. split_and!; [done|lia|lia|done]. }
  inversion Hs as [|? ? Hs' He]; subst. inversion Hwf as [|? ? Hewf Hwf']; subst.
  pose proof Hewf as (Ho&Hl&He64).
  cbn [fold_left]. rewrite free_scan_eq by done.
  set (free1 := if _ && _ then _ else _).
  replace (done_ ++ e :: a) with ((done_ ++ [e]) ++ a) by (by rewrite <- app_assoc).
  rewrite (assoc (++)) in Hf || replace (done_ ++ e :: a) with ((done_ ++ [e]) ++ a) in Hf
    by (by rewrite <- app_assoc).
  assert (Hfa' : Forall (fun e => Forall (fun x => ext_end e <= off x) a) free)
    by (eapply Forall_impl; [exact Hfa|]; simpl; intros x Hx; by inversion Hx).
  specialize (IH (done_ ++ [e]) free1 (Z.max pe (ext_end e)) Hs' Hwf').
  destruct (fold_left _ a _) as [free' pe'].
  destruct IH as (IH1&IH2&IH3); [unfold ext_end in *; lia| | | |split_and!; [done|lia|lia|done]].
  - apply Forall_app. split; [|repeat constructor; lia]. eapply Forall_impl; [exact Hd|]. simpl. lia.
  - subst free1. destruct (Z.ltb_spec pe (off e)) as [Hlt|]; [|apply (free_list_weaken pe _ ((done_ ++ [e]) ++ a)); auto; lia].
    destruct (_ <? cap); [|apply (free_list_weaken pe _ ((done_ ++ [e]) ++ a)); auto; lia]. simpl.
    destruct Hf as [F1 F2 F3]. split.
    + apply Forall_app. split; [|repeat constructor; unfold ext_end in *; simpl; lia].
      eapply Forall_impl; [exact F1|]. simpl. lia.
    + apply pairwise_snoc; [apply _| |done]. eapply Forall_impl; [exact F1|].
      unfold apart, ext_end. simpl. lia.
    + apply Forall_app. split; [done|]. apply Forall_singleton.
      rewrite !Forall_app. split_and!.
      * eapply Forall_impl; [exact Hd|]. unfold apart, ext_end. simpl. lia.
      * apply Forall_singleton. unfold apart. simpl. lia.
      * eapply Forall_impl; [exact He|]. unfold apart, ext_le. simpl. lia.
  - subst free1. destruct (Z.ltb_spec pe (off e)) as [Hlt|]; [|done].
    destruct (_ <? cap); [|done]. simpl. apply Forall_app. split; [done|]. apply Forall_singleton.
    eapply Forall_impl; [exact He|]. unfold ext_le, ext_end. simpl. lia.
Qed.

(** ** The invariant of the allocator *)

Abbreviation live p := (map record_extent (records p)).

Record alloc_inv (p : SAR_PRESERVE) : Prop := {
  ai_live : Forall ext_wf (live p);
  ai_hw : 0 <= data_high_water p < 2 ^ 64;
  ai_free : free_list (data_high_water p) (live p) (free_ext p)
}.

(** No live payload reaches beyond the high-water mark. *)
Definition hw_covers (p : SAR_PRESERVE) : Prop :=
  Forall (fun e => len e = 0 \/ ext_end e <= data_high_water p) (live p).

(** [p'] differs from [p] in the free list only. *)
Definition same_index (p p' : SAR_PRESERVE) : Prop :=
  p' = set_free (free_ext p') (data_high_water p') (free_dirty p') p.

(** Everything the allocator knows of ends below [B]. *)
Definition bounded (B : Z) (p : SAR_PRESERVE) : Prop :=
  data_high_water p <= B /\ Forall (fun e => ext_end e <= B) (live p).

Lemma free_scan_bound cap B a free pe :
  Forall ext_wf a -> 0 <= pe < 2 ^ 64 -> pe <= B -> Forall (fun e => ext_end e <= B) a ->
  (fold_left (free_scan cap) a (free, pe)).2 <= B.
Proof.
  revert free pe. induction a as [|e a IH]; intros free pe Hwf Hpe HB Ha; [done|].
  inversion Hwf as [|? ? He Hwf']; inversion Ha as [|? ? HeB Ha']; subst.
  cbn [fold_left]. rewrite free_scan_eq by done. pose proof He as (?&?&?).
  apply IH; [done|unfold ext_end in *; lia|lia|done].
Qed.

Lemma rebuild_spec alloc_ok p B :
  alloc_inv p -> bounded B p -> 0 <= B -> hw_covers p \/ alloc_ok = true ->
  exists p', SarPresFreeRebuild alloc_ok p = Ret p' /\ same_index p p' /\ alloc_inv p' /\
    hw_covers p' /\ bounded B p'.
Proof.
  intros [Hl Hhw Hf] [HB HBl] HB0 Hc. unfold SarPresFreeRebuild.
  destruct (records p) as [|r rs] eqn:Hr.
  { eexists. split; [done|]. split; [done|]. split_and!.
    - split; simpl; rewrite ?Hr; [constructor|lia|apply free_list_nil].
    - unfold hw_covers. simpl. rewrite Hr. constructor.
    - split; simpl; [lia|rewrite Hr; constructor]. }
  rewrite <- Hr in *. destruct alloc_ok; cbn [negb].
  - destruct (heap_sort_spec (live p)) as (a&->&Hs&Hp). cbn [cbind].
    pose proof (free_scan_loop (free_capacity p) a [] [] 0 Hs) as Hloop.
    pose proof (free_scan_bound (free_capacity p) B a [] 0) as Hbnd.
    destruct (fold_left _ a _) as [free pe].
    destruct Hloop as (H1&H2&H3);
      [by rewrite Hp|lia|apply Forall_nil_2|apply free_list_nil|apply Forall_nil_2|].
    simpl in Hbnd, H1, H3. eexists. split; [done|]. split; [done|]. split_and!.
    + split; simpl; [done|lia|]. apply (free_list_weaken pe _ a); [done| |done].
      intros x. by rewrite Hp.
    + unfold hw_covers. simpl. rewrite <- Hp. eapply Forall_impl; [exact H3|]. simpl. lia.
    + split; simpl; [|done]. apply Hbnd; [by rewrite Hp|lia|lia|by rewrite Hp].
  - destruct Hc as [Hc|]; [|done]. eexists. split; [done|]. split; [done|]. split_and!.
    + split; simpl; [done|done|apply free_list_nil].
    + done.
    + by split.
Qed.

(** ** Taking space from an extent *)

Lemma take_extent_perm free i e Len :
  free !! i = Some e -> ext_wf e -> 0 < Len <= len e ->
  let e' := {| off := off e + Len; len := len e - Len |} in
  take_extent free i Len ≡ₚ (if len e' =? 0 then [] else [e']) ++ delete i free.
Proof.
  intros Hi (Ho&Hl&He) HLen e'. unfold take_extent.
  assert (Hat : ext_at free i = e) by (by apply nth_lookup_Some).
  unfold ext_end in He. rewrite Hat, !u64_small by (unfold is_u; lia). fold e'.
  pose proof (lookup_lt_Some _ _ _ Hi) as Hlt. rewrite !length_insert.
  destruct (len e' =? 0); simpl; [|by apply insert_perm].
  set (n := (length free - 1)%nat).
  assert (Hlast : ext_at (<[i := e']> free) n = if decide (i = n) then e' else ext_at free n)
    by (by apply ext_at_insert).
  rewrite Hlast. destruct (decide (i = n)) as [->|Hn].
  - rewrite delete_take_drop, drop_ge by (subst n; lia). rewrite app_nil_r.
    by rewrite !take_insert_ge by lia.
  - assert (Hsn : free = take n free ++ [ext_at free n]).
    { rewrite <- take_S_r by (apply ext_at_lookup; subst n; lia). by rewrite take_ge by (subst n; lia). }
    assert (Hd : delete i free = delete i (take n free) ++ [ext_at free n]).
    { rewrite Hsn at 1. rewrite !delete_take_drop.
      rewrite (take_app_le (take n free)), drop_app_le by (rewrite length_take; subst n; lia).
      by rewrite (assoc (++)). }
    rewrite Hd, list_insert_insert_eq, take_insert_lt by (subst n; lia).
    rewrite insert_perm by (rewrite length_take; subst n; lia). apply Permutation_cons_append.
Qed.

Lemma delete_elem {A} (l : list A) i x y : l !! i = Some x -> y ∈ delete i l -> y ∈ l.
Proof. intros Hi Hy. rewrite (delete_Permutation l i x Hi). by apply list_elem_of_further. Qed.

(** The range taken is apart from what remains, and what remains is a free list. *)
Lemma take_extent_spec hw lv free i e Len :
  free !! i = Some e -> hw < 2 ^ 64 -> 0 < Len <= len e -> free_list hw lv free ->
  let n := {| off := off e; len := Len |} in
  free_list hw lv (take_extent free i Len) /\ Forall (apart n) (take_extent free i Len) /\
  Forall (apart n) lv /\ 0 <= off e /\ off e + Len <= hw.
Proof.
  intros Hi Hhw HLen [F1 F2 F3] n.
  pose proof (proj1 (Forall_lookup _ _) F1 _ _ Hi) as (Ho&Hl&He). simpl in He.
  pose proof (proj1 (Forall_lookup _ _) F3 _ _ Hi) as Hlive.
  assert (Hwf : ext_wf e) by (unfold ext_wf, ext_end in *; lia).
  pose proof (take_extent_perm free i e Len Hi Hwf HLen) as Hp. simpl in Hp.
  pose proof (pairwise_perm _ _ _ (delete_Permutation free i e Hi) F2) as [Hpe Hpd]%pairwise_cons.
  assert (Hsub : forall x, apart e x -> apart n x /\ apart {| off := off e + Len; len := len e - Len |} x)
    by (intros x; unfold apart; simpl; lia).
  split_and!; [|rewrite Hp|..].
  - split; rewrite ?Hp.
    + apply Forall_app. split.
      * dif; constructor; [|constructor]. unfold ext_end in *. simpl. lia.
      * apply Forall_forall. intros y Hy. eapply Forall_forall in F1; [exact F1|]. by eapply delete_elem.
    + apply (pairwise_perm apart _ _ (symmetry Hp)). dif; simpl; [done|]. apply pairwise_cons. split; [|done].
      eapply Forall_impl; [exact Hpe|]. simpl. intros x Hx. by apply Hsub.
    + apply Forall_app. split.
      * dif; constructor; [|constructor]. eapply Forall_impl; [exact Hlive|]. simpl. intros x Hx.
        by apply Hsub.
      * apply Forall_forall. intros y Hy. eapply Forall_forall in F3; [exact F3|]. by eapply delete_elem.
  - apply Forall_app. split.
    + dif; constructor; [|constructor]. unfold apart. simpl. lia.
    + eapply Forall_impl; [exact Hpe|]. simpl. intros x Hx. by apply Hsub.
  - eapply Forall_impl; [exact Hlive|]. simpl. intros x Hx. by apply Hsub.
  - done.
  - unfold ext_end in He. lia.
Qed.

(** ** Allocation *)

(** What an allocation of [Len] bytes at [o] guarantees. *)
Record allocated (p p' : SAR_PRESERVE) (o Len B : Z) : Prop := {
  al_index : same_index p p';
  al_inv : alloc_inv p';
  al_covers : hw_covers p';
  al_bounded : bounded (B + Len) p';
  al_range : 0 <= o /\ o + Len <= data_high_water p';
  al_live : Forall (apart {| off := o; len := Len |}) (live p');
  al_free : Forall (apart {| off := o; len := Len |}) (free_ext p')
}.

Lemma alloc_spec alloc_ok p Len B :
  alloc_inv p -> bounded B p -> 0 <= B -> B + Len < 2 ^ 64 -> 0 < Len ->
  hw_covers p \/ (free_dirty p = true /\ alloc_ok = true) ->
  exists o p', SarPresAlloc alloc_ok p Len = Ret (o, p') /\ allocated p p' o Len B.
Proof.
  intros Hi Hb HB HBL HL Hc. unfold SarPresAlloc.
  assert (exists q, (if free_dirty p then SarPresFreeRebuild alloc_ok p else Ret p) = Ret q /\
            same_index p q /\ alloc_inv q /\ hw_covers q /\ bounded B q) as (q&->&Hs&Hq&Hcq&Hbq).
  { destruct (free_dirty p).
    - apply rebuild_spec; try done. tauto.
    - exists p. split_and!; [done| |done| |done]; [by destruct p|]. by destruct Hc as [|[? _]]. }
  cbn [cbind]. pose proof Hq as [Hl Hhw Hf]. destruct Hbq as [HBq HBl].
  destruct (list_find _ _) as [[i e]|] eqn:Hfind.
  - apply list_find_Some in Hfind as (Hie&HLe&_).
    destruct (take_extent_spec (data_high_water q) (live q) (free_ext q) i e Len) as (T1&T2&T3&T4&T5);
      [done|lia|lia|done|].
    eexists _, _. split; [done|]. split; simpl; [|by split|done| |done|done|done].
    + rewrite Hs. done.
    + split; simpl; [lia|]. eapply Forall_impl; [exact HBl|]. simpl. lia.
  - eexists _, _. split; [done|]. rewrite u64_small by (unfold is_u; lia).
    split; simpl; [rewrite Hs; done| | | |lia| |].
    + split; simpl; [done|lia|]. apply (free_list_weaken (data_high_water q) _ (live q)); auto. lia.
    + eapply Forall_impl; [exact Hcq|]. simpl. lia.
    + split; simpl; [lia|]. eapply Forall_impl; [exact HBl|]. simpl. lia.
    + eapply Forall_impl; [exact Hcq|]. unfold apart, ext_end. simpl. lia.
    + eapply Forall_impl; [exact (fl_range _ _ _ Hf)|]. unfold apart, ext_end. simpl. lia.
Qed.

End PreserveAlloc.
