(* ===== verification/PreserveRefine.v ===== *)
(** * The preservation store refines a list of preserved contents

    The abstract store is a list of entries, each with the bytes it preserves:
    no payloads, no encryption, no free list.  An operation of the driver is
    labelled with what it was asked to do ([aop]: the path, the offset and the
    plaintext of a staging call, its result, ...), and [astep] is what the
    operation with that label may do to the entries.  The simulation keeps
    [store_inv], which says that every payload in the data file decrypts to
    the content of its entry. *)

From Stdlib Require Import Sorted.
From stdpp Require Import relations.
From S2P Require Import Prelude Mem Format Sha256 Chain Keystore Protocol Preserve HeapSort.
From S2P Require Import DriverState DriverPreserve PreserveAlloc.
Import Mem Layout Protocol Preserve PresRec HeapSort DriverPreserve PreserveAlloc.
Import DriverState (NTSTATUS, NT_SUCCESS, STATUS_SUCCESS, STATUS_NOT_FOUND).

Module PreserveRefine.

(** ** The abstract store *)

Inductive content := Bytes (b : bytes) | Link (id size : Z).

Record entry := Entry {
  e_path : list Z;
  e_off : Z;
  e_content : content;
  e_time : Z;
  e_actor : Z;
  e_state : Z;
  e_cause : list Z
}.

Definition e_len (e : entry) : Z :=
  match e_content e with Bytes b => Z.of_nat (length b) | Link _ n => n end.

Definition e_protected (e : entry) : bool := negb (e_state e =? SAR_PRESERVE_PROBATION).
Definition e_link (e : entry) : bool := match e_content e with Link _ _ => true | _ => false end.

Definition e_aged (now retention : Z) (e : entry) : bool :=
  (e_time e <? now) && (retention <=? u64 (now - e_time e)).
Definition e_within (path : list Z) (key_offset key_length : Z) (e : entry) : bool :=
  sar_pres_path_eq (e_path e) path && sar_pres_contains key_offset key_length (e_off e) (e_len e).

Definition e_promote (actor : Z) (e : entry) : entry :=
  if (e_state e =? SAR_PRESERVE_PROBATION) && (e_actor e =? actor) then
    Entry (e_path e) (e_off e) (e_content e) (e_time e) (e_actor e) SAR_PRESERVE_PROTECTED (e_cause e)
  else e.
Definition e_rename (old new : list Z) (e : entry) : entry :=
  if sar_pres_path_eq (e_path e) old then
    Entry (take SEMANTICS_AR_PROVENANCE_PATH_MAX new) (e_off e) (e_content e) (e_time e) (e_actor e)
      (e_state e) (e_cause e)
  else e.

(** The bytes [n] of [b] from [o] on. *)
Definition slice (b : bytes) (o n : Z) : bytes := take (Z.to_nat n) (drop (Z.to_nat o) b).

(** The path as a record keeps it. *)
Definition stored_path (path : list Z) : list Z :=
  Keystore.copy_path SEMANTICS_AR_PROVENANCE_PATH_MAX path
    (replicate SEMANTICS_AR_PROVENANCE_PATH_MAX 0).

(** A byte of the file is preserved. *)
Definition a_covered (l : list entry) (path : list Z) (x : Z) : Prop :=
  Exists (fun e => sar_pres_path_eq (e_path e) path = true /\ e_off e <= x < e_off e + e_len e) l.

(** The entries that have not expired. *)
Definition a_fresh (now retention : Z) (l : list entry) : list entry :=
  List.filter (fun e => negb (e_aged now retention e)) l.

(** The entry for the bytes from [g_off] on of the region a call is given. *)
Definition gap_entry (a : stage_args) (g_off g_len : Z) : entry :=
  Entry (stored_path (Path a)) g_off (Bytes (slice (Plaintext a) (g_off - Offset a) g_len))
    (stage_now a) (ActorId a) SAR_PRESERVE_PROBATION (causingPath a).

(** One step of a staging call: in AUDIT mode entries on probation may make
    room; a part of the region that no entry of the file holds gets an entry
    with its bytes. *)
Inductive stage_move (enforce : bool) (a : stage_args) : list entry -> list entry -> Prop :=
  | s_evict l l' :
      enforce = false -> sublist l' l -> List.filter e_protected l' = List.filter e_protected l ->
      stage_move enforce a l l'
  | s_store g_off g_len l :
      Offset a <= g_off -> 0 < g_len -> g_off + g_len <= Offset a + Z.of_nat (length (Plaintext a)) ->
      (forall x, g_off <= x < g_off + g_len -> ~ a_covered l (Path a) x) ->
      stage_move enforce a l (l ++ [gap_entry a g_off g_len]).

(** The path is as a record keeps it. *)
Definition canonical (path : list Z) : Prop := stored_path path = path.

Definition fine (res : SAR_STAGE_RESULT) : Prop := res = SAR_STAGE_STORED \/ res = SAR_STAGE_ALREADY_COVERED.

(** A staging call for the region of [n] bytes at [Offset a], with the
    retention time of the store, and its result.  A call whose lengths disagree
    does nothing.  Any other drops the expired entries and then takes its
    steps; in ENFORCE mode a good result promises that the whole region is held. *)
Record staged (enforce : bool) (a : stage_args) (n retention : Z) (res : SAR_STAGE_RESULT)
    (l l' : list entry) : Prop := {
  st_steps : if (0 <? n) && (Z.of_nat (length (Plaintext a)) =? n)
             then rtc (stage_move enforce a) (a_fresh (stage_now a) retention l) l' else l' = l;
  st_covers : enforce = true -> fine res -> canonical (Path a) -> Z.of_nat (length (Plaintext a)) = n ->
              forall x, Offset a <= x < Offset a + n -> a_covered l' (Path a) x
}.

(** A staging call for a link [e] to a file of [size] bytes, with the unexpired
    entries [fresh]: the entry is added, unless bytes of the file are held already;
    a call that fails may still have dropped the expired entries. *)
Definition linked (e : entry) (size : Z) (fresh : list entry) (status : NTSTATUS) (l l' : list entry) : Prop :=
  if NT_SUCCESS status
  then l' = fresh ++ [e] \/
       (l' = fresh /\ exists x, 0 <= x < size /\ a_covered fresh (e_path e) x)
  else l' = l \/ l' = fresh.

(** The operations, with their arguments and results. *)
Inductive aop :=
  | OStage (enforce : bool) (a : stage_args) (n retention : Z) (res : SAR_STAGE_RESULT)
  | OLink (path : list Z) (size now actor id : Z) (cause : list Z) (retention : Z) (status : NTSTATUS)
  | OReap (by_ : reap_by)
  | OMaintain (now retention : Z)
  | OReconcile (path : list Z) (key_offset key_length : Z)
  | OPromote (actor : Z)
  | ORename (old new : list Z)
  | OReserve
  | ORestart.

(** A sequence of labelled steps. *)
Fixpoint runs {S L : Type} (step : L -> S -> S -> Prop) (ls : list L) (s s' : S) : Prop :=
  match ls with
  | [] => s' = s
  | x :: ls => exists t, step x s t /\ runs step ls t s'
  end.

(** The links that [SarPresReapNamespace] removes. *)
Definition e_reaped (by_ : reap_by) (e : entry) : bool :=
  e_link e &&
  match by_ with
  | ByAge now retention => e_aged now retention e
  | ByKey path key_offset key_length => e_within path key_offset key_length e
  end.

(** What an operation does to the entries. *)
Definition astep (op : aop) (l l' : list entry) : Prop :=
  match op with
  | OStage enforce a n retention res => staged enforce a n retention res l l'
  | OLink path size now actor id cause retention status =>
      linked (Entry (stored_path path) 0 (Link id size) now actor SAR_PRESERVE_PROBATION cause)
        size (a_fresh now retention l) status l l'
  | OReap by_ => exists l1 e l2, l = l1 ++ e :: l2 /\ l' = l1 ++ l2 /\ e_reaped by_ e = true /\
                   Forall (fun e => e_reaped by_ e = false) l1
  | OMaintain now retention => l' = a_fresh now retention l
  | OReconcile path ko kl => l' = List.filter (fun e => negb (e_within path ko kl e)) l
  | OPromote actor => l' = map (e_promote actor) l
  | ORename old new => l' = map (e_rename old new) l
  | OReserve | ORestart => l' = l
  end.

Definition e_match (path : list Z) (offset length : Z) (e : entry) : bool :=
  (e_off e <=? offset) && (u64 (offset + length) <=? u64 (e_off e + e_len e)) &&
  sar_pres_path_eq (e_path e) path.

(** What a restoration owes: the requested part of the first entry that covers
    the request. *)
Definition a_restore (l : list entry) (path : list Z) (offset length : Z) : option entry :=
  match list_find (fun e => e_match path offset length e = true) l with
  | Some (_, e) => Some e
  | None => None
  end.

(** ** Rounding and padding *)

Lemma round16_eq v : 0 <= v < 2 ^ 63 -> SarPresRound16 v = 16 * ((v + 15) / 16).
Proof.
  intros Hv. unfold SarPresRound16, SAR_PRESERVE_AES_BLOCK.
  rewrite u64_small by (unfold is_u; lia). replace (16 - 1) with (Z.ones 4) by done.
  rewrite <- Z.ldiff_land, Z.ldiff_ones_r by lia.
  rewrite Z.shiftl_mul_pow2, Z.shiftr_div_pow2 by lia. change (2 ^ 4) with 16.
  change (Z.ones 4) with 15. lia.
Qed.

Lemma round16_bounds v :
  0 <= v < 2 ^ 63 -> v <= SarPresRound16 v < v + 16 /\ SarPresRound16 v mod 16 = 0.
Proof. intros Hv. rewrite round16_eq by done. split; [dlia|]. rewrite Z.mul_comm. by apply Z_mod_mult. Qed.

(** The content with zeros up to the next block. *)
Definition pad16 (b : bytes) : bytes :=
  mem_write (replicate (Z.to_nat (SarPresRound16 (Z.of_nat (length b)))) 0) 0 b.

Lemma pad16_eq b :
  Z.of_nat (length b) < 2 ^ 63 ->
  pad16 b = b ++ replicate (Z.to_nat (SarPresRound16 (Z.of_nat (length b))) - length b) 0.
Proof.
  intros Hb. pose proof (round16_bounds (Z.of_nat (length b)) ltac:(lia)) as [? _].
  unfold pad16. rewrite mem_write_spec by (rewrite length_replicate; lia).
  rewrite take_0, drop_replicate. done.
Qed.

(** ** Lists related element by element *)

Lemma Forall2_filter_eq {A B} (R : A -> B -> Prop) (f : A -> bool) (g : B -> bool) l k :
  (forall x y, R x y -> f x = g y) -> Forall2 R l k -> Forall2 R (List.filter f l) (List.filter g k).
Proof.
  intros Hfg. induction 1 as [|x y l k Hxy _ IH]; [done|]. cbn [List.filter].
  rewrite (Hfg x y Hxy). destruct (g y); [by constructor|done].
Qed.

Lemma filter_sublist_length {A} (f : A -> bool) l l' :
  sublist l' l -> (length (List.filter f l') <= length (List.filter f l))%nat.
Proof. induction 1; cbn [List.filter]; try destruct (f x); simpl; lia. Qed.

(** A sublist on the left selects one on the right, which keeps what the left
    one keeps. *)
Lemma Forall2_sublist {A B} (R : A -> B -> Prop) (f : A -> bool) (g : B -> bool) l l' k :
  (forall x y, R x y -> f x = g y) -> sublist l' l -> Forall2 R l k ->
  List.filter f l' = List.filter f l ->
  exists k', sublist k' k /\ Forall2 R l' k' /\ List.filter g k' = List.filter g k.
Proof.
  intros Hfg Hs. revert k. induction Hs as [|x l' l Hs IH|x l' l Hs IH]; intros k Hk Heq.
  - exists []. inversion Hk; subst. by repeat constructor.
  - inversion Hk as [|? y ? k0 Hxy Hk0]; subst. cbn [List.filter] in Heq. pose proof (Hfg x y Hxy) as Hf.
    destruct (IH k0 Hk0) as (k'&Hk'&HR&Hg); [destruct (f x); [by injection Heq|done]|].
    exists (y :: k'). split_and!; [by constructor|by constructor|]. cbn [List.filter]. by rewrite Hg.
  - inversion Hk as [|? y ? k0 Hxy Hk0]; subst. cbn [List.filter] in Heq. pose proof (Hfg x y Hxy) as Hf.
    destruct (f x) eqn:Hfx.
    { pose proof (filter_sublist_length f _ _ Hs) as Hl. rewrite Heq in Hl. simpl in Hl. lia. }
    destruct (IH k0 Hk0 Heq) as (k'&Hk'&HR&Hg).
    exists k'. split_and!; [by constructor|done|]. cbn [List.filter]. by rewrite <- Hf.
Qed.

Lemma sublist_map {A B} (g : A -> B) l l' : sublist l' l -> sublist (map g l') (map g l).
Proof. induction 1; simpl; by constructor. Qed.

(** ** The refinement relation *)

Section Refine.
Context {F : Type} {DF : DataFile F} {DFL : DataFileLaws F} {AC : AesCbc} {ACL : AesCbcLaws}.

(** The payload of record [r] decrypts to the padded content [b]. *)
Record holds (key : bytes) (f : F) (r : rec) (b : bytes) : Prop := {
  h_kind : kind r = SAR_PRESERVE_KIND_BYTERANGE;
  h_length : payload_length r = SarPresRound16 (Z.of_nat (length b));
  h_small : 0 < Z.of_nat (length b) < 2 ^ 32 - 16;
  h_bytes : is_bytes b;
  h_tag : content_tag r = sar_preserve_content_tag (Some b) (Z.of_nat (length b));
  h_payload : exists ct, data_read f (payload_offset r) (Z.to_nat (payload_length r)) = Some ct /\
                length ct = Z.to_nat (payload_length r) /\
                bcrypt_decrypt key (take 16 (iv r)) ct = pad16 b
}.

Record rep (key : bytes) (f : F) (r : rec) (e : entry) : Prop := {
  r_path : provenance_path r = e_path e;
  r_off : provenance_offset r = e_off e;
  r_len : provenance_length r = e_len e;
  r_time : capture_time r = e_time e;
  r_actor : actor_id r = e_actor e;
  r_state : state r = e_state e;
  r_cause : causing_image_path r = e_cause e;
  r_range : 0 <= e_off e /\ 0 <= e_len e /\ e_off e + e_len e < 2 ^ 64;
  r_content : match e_content e with
              | Bytes b => holds key f r b
              | Link id _ => kind r = SAR_PRESERVE_KIND_NAMESPACE /\ payload_offset r = id /\
                             payload_length r = 0 /\ e_off e = 0
              end
}.

Record store_inv (p : SAR_PRESERVE) (f : F) (l : list entry) : Prop := {
  si_rep : Forall2 (rep (store_key p) f) (records p) l;
  si_alloc : alloc_inv p;
  si_apart : pairwise apart (live p);
  si_hw : hw_covers p \/ free_dirty p = true;
  si_handle : data_handle p = true;
  si_ready : ready p = true
}.

(** ** Restoration *)

(** The system grants everything a restoration asks for. *)
Definition grants (env : restore_env) : Prop :=
  bufs_alloc env = true /\ read_status env = STATUS_SUCCESS /\
  key_alloc (rcrypt env) = true /\ key_status (rcrypt env) = STATUS_SUCCESS /\
  cipher_status (rcrypt env) = STATUS_SUCCESS.

Lemma rep_match key f path o n r e : rep key f r e -> restore_match path o n r = e_match path o n e.
Proof. intros [Hp Ho Hl _ _ _ _ _ _]. unfold restore_match, e_match. by rewrite Hp, Ho, Hl. Qed.

Lemma list_find_rep key f path o n rs l :
  Forall2 (rep key f) rs l ->
  match list_find (fun r => restore_match path o n r = true) rs,
        list_find (fun e => e_match path o n e = true) l with
  | Some (_, r), Some (_, e) => rep key f r e /\ e_match path o n e = true
  | None, None => True
  | _, _ => False
  end.
Proof.
  induction 1 as [|r e rs l Hr _ IH]; [done|]. cbn [list_find].
  pose proof (rep_match key f path o n r e Hr) as Hm.
  destruct (decide (restore_match path o n r = true)) as [E1|E1],
    (decide (e_match path o n e = true)) as [E2|E2]; try congruence; [done|].
  destruct (list_find _ rs) as [[]|], (list_find _ l) as [[]|]; done.
Qed.

Lemma content_tag_bytes b len : is_bytes (sar_preserve_content_tag b len).
Proof.
  destruct (content_tag_sha256 b len) as [d ->]. apply Sha256.digest_bytes_range.
Qed.

Lemma restore_holds env p f r b path o n :
  grants env -> data_handle p = true -> holds (store_key p) f r b ->
  provenance_length r = Z.of_nat (length b) -> 0 <= provenance_offset r ->
  provenance_offset r + provenance_length r < 2 ^ 64 -> 0 < n -> 0 <= o -> o + n < 2 ^ 64 ->
  restore_match path o n r = true ->
  restore_record env p f r path o n = (STATUS_SUCCESS, slice b (o - provenance_offset r) n).
Proof.
  intros (Hb&Hrs&Hka&Hks&Hcs) Hh [Hk Hl Hs Hby Htag (ct&Hct&Hlct&Hdec)] Hpl Ho Hsum Hn Hon Hsumn Hm.
  unfold restore_match in Hm. apply andb_true_iff in Hm as [[Hm1 Hm2]%andb_true_iff Hm3].
  apply Z.leb_le in Hm1, Hm2. rewrite !u64_small in Hm2 by (unfold is_u; lia).
  pose proof (round16_bounds (Z.of_nat (length b)) ltac:(lia)) as [Hr1 Hr2].
  unfold restore_record. rewrite Hk. change (SAR_PRESERVE_KIND_BYTERANGE =? _) with false.
  rewrite Hb. cbn [negb]. unfold SarPresDataRead. rewrite Hh, Hrs. change (NT_SUCCESS STATUS_SUCCESS) with true. cbn [negb].
  rewrite u32_small by (unfold is_u; lia). rewrite Hct.
  change (NT_SUCCESS STATUS_SUCCESS) with true. cbn [negb].
  unfold SarPresCrypt. rewrite Hlct, Z2Nat.id by lia. rewrite Hl.
  unfold SAR_PRESERVE_AES_BLOCK at 1. rewrite Hr2. cbn [Z.eqb negb]. rewrite Hka, Hks, Hcs.
  change (NT_SUCCESS STATUS_SUCCESS) with true. cbn [negb].
  change (Z.to_nat SAR_PRESERVE_AES_BLOCK) with 16%nat. rewrite Hdec.
  assert (Htk : take (Z.to_nat (provenance_length r)) (pad16 b) = b).
  { rewrite pad16_eq by lia. rewrite Hpl, Nat2Z.id. by rewrite take_app_length. }
  rewrite Htk. unfold sar_preserve_verify_extract.
  destruct (Z.eqb_spec n 0); [lia|]. rewrite Hm3, Hpl, Z.eqb_refl.
  assert (Hc : sar_pres_contains (provenance_offset r) (Z.of_nat (length b)) o n = true).
  { unfold sar_pres_contains. rewrite !u64_small by (unfold is_u; lia).
    apply andb_true_iff. split; apply Z.leb_le; lia. }
  rewrite Hc, <- Htag, sar_ct_equal_refl by (rewrite Htag; apply content_tag_bytes).
  cbn [negb orb]. rewrite u64_small by (unfold is_u; lia). f_equal. unfold slice.
  rewrite pad16_eq by lia. rewrite drop_app_le by lia. by rewrite take_app_le by (rewrite length_drop; lia).
Qed.

(** A restoration returns the content of the first entry that covers it. *)
Lemma restore_refines env p f l path o n cap :
  store_inv p f l -> grants env -> 0 < n <= cap -> 0 <= o -> o + n < 2 ^ 64 ->
  match a_restore l path o n with
  | None => SarPreserveRestore env p f path o n cap = (STATUS_NOT_FOUND, [])
  | Some e =>
    match e_content e with
    | Bytes b => SarPreserveRestore env p f path o n cap =
                   (STATUS_SUCCESS, slice b (o - e_off e) n)
    | Link id _ => SarPreserveRestore env p f path o n cap = SarPresReadLink env path id o (u32 n)
    end
  end.
Proof.
  intros [Hrep _ _ _ Hh Hrdy] Hg Hn Ho Hsum. unfold SarPreserveRestore, restore_find, a_restore.
  rewrite Hrdy. cbn [negb]. destruct (Z.ltb_spec cap n); [lia|].
  pose proof (list_find_rep (store_key p) f path o n _ _ Hrep) as Hf.
  destruct (list_find _ (records p)) as [[i r]|], (list_find _ l) as [[j e]|]; try done.
  destruct Hf as [Hr Hm]. pose proof (rep_match _ _ path o n _ _ Hr) as Hrm.
  pose proof Hr as [_ Hoff Hlen _ _ _ _ Hrange Hc]. unfold e_len in Hlen.
  destruct (e_content e) as [b|id size] eqn:He.
  - rewrite <- Hoff. unfold e_len in Hrange. rewrite He in Hrange.
    apply restore_holds; try done; try lia.
  - destruct Hc as (Hk&<-&_&_). unfold restore_record. by rewrite Hk.
Qed.

(** ** Operations that keep or drop records *)

(** [p'] has the data file, the key and the free list of [p]. *)
Record frame (p p' : SAR_PRESERVE) : Prop := {
  fr_free : free_ext p' = free_ext p;
  fr_hw : data_high_water p' = data_high_water p;
  fr_dirty : free_dirty p = true -> free_dirty p' = true;
  fr_key : store_key p' = store_key p;
  fr_handle : data_handle p' = data_handle p;
  fr_ready : ready p' = ready p;
  fr_record_capacity : record_capacity p' = record_capacity p
}.

#[local] Instance frame_preorder : PreOrder frame.
Proof.
  split.
  - by intros p.
  - intros p q r [] []. split; try congruence; auto.
Qed.

Lemma frame_set_records rs p : frame p (set_records rs p).
Proof. done. Qed.

Lemma frame_set_dirty d p q : frame p q -> frame p (set_dirty d q).
Proof. intros []. by split. Qed.

Lemma frame_removed n rs p : frame p (removed_records (n, rs) p).
Proof. unfold removed_records. by dif. Qed.

Lemma removed_records_eq n rs p : records (removed_records (n, rs) p) = rs.
Proof. unfold removed_records. by dif. Qed.

Lemma store_inv_shrink p p' f l l' :
  store_inv p f l -> frame p p' -> sublist (records p') (records p) ->
  Forall2 (rep (store_key p) f) (records p') l' -> store_inv p' f l'.
Proof.
  intros [Hr [Hl Hhw Hf] Ha Hc Hh Hrd] [F1 F2 F3 F4 F5 F6 _] Hs Hr'.
  pose proof (sublist_map record_extent _ _ Hs) as Hsl. split.
  - by rewrite F4.
  - split; [by eapply sublist_Forall|by rewrite F2|]. rewrite F1, F2.
    eapply free_list_weaken; [done| |done]. intros x Hx. by eapply elem_of_sublist.
  - by eapply pairwise_sublist.
  - destruct Hc as [Hc|Hc]; [left|right; auto]. unfold hw_covers in *. rewrite F2.
    by eapply sublist_Forall.
  - by rewrite F5.
  - by rewrite F6.
Qed.

Lemma store_inv_map p p' f l g h :
  store_inv p f l -> frame p p' -> records p' = map g (records p) ->
  (forall r, record_extent (g r) = record_extent r) ->
  (forall r e, rep (store_key p) f r e -> rep (store_key p) f (g r) (h e)) ->
  store_inv p' f (map h l).
Proof.
  intros [Hr [Hl Hhw Hf] Ha Hc Hh Hrd] [F1 F2 F3 F4 F5 F6 _] Hrs Hx Hg.
  assert (Hlive : live p' = live p).
  { rewrite Hrs, map_map. apply map_ext. apply Hx. }
  split.
  - rewrite F4, Hrs. apply Forall2_fmap. eapply Forall2_impl; [exact Hr|done].
  - split; [by rewrite Hlive|by rewrite F2|by rewrite Hlive, F1, F2].
  - by rewrite Hlive.
  - destruct Hc as [Hc|Hc]; [left|right; auto]. unfold hw_covers in *. by rewrite F2, Hlive.
  - by rewrite F5.
  - by rewrite F6.
Qed.

Lemma rep_aged key f now ret r e :
  rep key f r e ->
  (capture_time r <? now) && (ret <=? u64 (now - capture_time r)) = e_aged now ret e.
Proof. intros [_ _ _ Ht _ _ _ _ _]. unfold e_aged. by rewrite Ht. Qed.

(** The compaction loops filter the entries. *)
Lemma compact_sim p f l discard adiscard n rs p' :
  store_inv p f l -> compact discard (records p) = (n, rs) -> frame p p' -> records p' = rs ->
  (forall r e, rep (store_key p) f r e -> discard r = adiscard e) ->
  store_inv p' f (List.filter (fun e => negb (adiscard e)) l).
Proof.
  intros Hi Hc Hfr Hrs Hd. rewrite compact_spec in Hc. injection Hc as _ <-.
  apply (store_inv_shrink p p' f l); [done|done| |]; rewrite Hrs.
  - apply filter_sublist.
  - eapply Forall2_filter_eq; [|apply Hi]. intros r e Hre. by rewrite (Hd r e Hre).
Qed.

Lemma aged_sim now p f l :
  store_inv p f l ->
  let '(n, rs) := sar_preserve_evict_aged (records p) now (retention_100ns p) in
  forall p', frame p p' -> records p' = rs ->
  store_inv p' f (List.filter (fun e => negb (e_aged now (retention_100ns p) e)) l).
Proof.
  intros Hi. destruct (sar_preserve_evict_aged _ _ _) as [n rs] eqn:He. intros p' Hfr Hrs.
  eapply compact_sim; [done|exact He|done|done|]. intros r e. apply rep_aged.
Qed.

Lemma maintain_sim now p f l :
  store_inv p f l ->
  store_inv (maintain_evict now p) f (List.filter (fun e => negb (e_aged now (retention_100ns p) e)) l).
Proof.
  intros Hi. pose proof (aged_sim now p f l Hi) as Ha. unfold maintain_evict.
  destruct (sar_preserve_evict_aged _ _ _) as [n rs].
  assert (Hfr : frame p (removed_records (n, rs) p)) by apply frame_removed.
  destruct (0 <? n); apply Ha; auto using frame_set_dirty, removed_records_eq.
  apply (removed_records_eq n rs p).
Qed.

Lemma reconcile_sim p f l path ko kl :
  store_inv p f l ->
  store_inv (reconcile_records p path ko kl) f (List.filter (fun e => negb (e_within path ko kl e)) l).
Proof.
  intros Hi. unfold reconcile_records. destruct (sar_preserve_reconcile _ _ _ _) as [n rs] eqn:He.
  assert (Hfr : frame p (removed_records (n, rs) p)) by apply frame_removed.
  eapply compact_sim; [done|exact He| | |].
  - destruct (0 <? n); auto using frame_set_dirty.
  - destruct (0 <? n); apply (removed_records_eq n rs p).
  - intros r e [Hp Ho Hl _ _ _ _ _ _]. unfold e_within. by rewrite Hp, Ho, Hl.
Qed.

Lemma promote_sim actor p f l :
  store_inv p f l -> store_inv (SarPreservePromote p actor) f (map (e_promote actor) l).
Proof.
  intros Hi. unfold SarPreservePromote. rewrite (si_ready _ _ _ Hi). cbn [negb].
  rewrite promote_eq. apply (store_inv_map p _ f l (promote_rec actor)); [done| | | |].
  - by dif.
  - by dif.
  - intros r. unfold promote_rec. by dif.
  - intros r e [Hp Ho Hl Ht Ha Hs Hc Hrg Hct]. unfold promote_rec, e_promote, is_state.
    rewrite Hs, Ha. destruct (_ && _); [|by split].
    split; try done. simpl. destruct (e_content e) as [b|]; [|done].
    by destruct Hct as [? ? ? ? ? ?].
Qed.

Lemma rename_sim old new p f l :
  store_inv p f l -> store_inv (SarPreserveRename p old new) f (map (e_rename old new) l).
Proof.
  intros Hi. unfold SarPreserveRename. rewrite (si_ready _ _ _ Hi). cbn [negb].
  apply (store_inv_map p _ f l (rename_rec old new)); [done| | | |].
  - by dif.
  - by dif.
  - intros r. unfold rename_rec. by dif.
  - intros r e [Hp Ho Hl Ht Ha Hs Hc Hrg Hct]. unfold rename_rec, e_rename. rewrite Hp.
    destruct (sar_pres_path_eq _ _); [|by split].
    split; try done. simpl. destruct (e_content e) as [b|]; [|done].
    by destruct Hct as [? ? ? ? ? ?].
Qed.

Lemma rep_reaped key f by_ r e : rep key f r e -> reap_match by_ r = e_reaped by_ e.
Proof.
  intros [Hp Ho Hl Ht _ _ _ _ Hc]. unfold reap_match, e_reaped, e_link, e_within, e_aged, sar_pres_contains.
  rewrite Hp, Ho, Hl, Ht. destruct (e_content e).
  - by destruct Hc as [-> _ _ _ _ _].
  - destruct Hc as [-> _]. rewrite Z.eqb_refl. destruct by_; [done|]. cbn [andb]. by rewrite andb_assoc.
Qed.

Lemma reap_sim by_ p f l r p' :
  store_inv p f l -> reap_round by_ p = Some (r, p') ->
  exists l', astep (OReap by_) l l' /\ store_inv p' f l'.
Proof.
  intros Hi. unfold reap_round. destruct (list_find _ _) as [[i r0]|] eqn:Hf; [|done].
  intros [= <- <-]. apply list_find_Some in Hf as (Hir&Hm&Hfirst).
  destruct (Forall2_lookup_l _ _ _ _ _ (si_rep _ _ _ Hi) Hir) as (e&Hle&Hre).
  exists (take i l ++ drop (S i) l). split.
  - exists (take i l), e, (drop (S i) l). split_and!; [by rewrite take_drop_middle|done| |].
    + by rewrite <- (rep_reaped _ _ by_ _ _ Hre).
    + apply Forall_lookup. intros j e' Hj. apply lookup_take_Some in Hj as [Hj Hlt].
      destruct (Forall2_lookup_r _ _ _ _ _ (si_rep _ _ _ Hi) Hj) as (r'&Hr'&Hre').
      rewrite <- (rep_reaped _ _ by_ _ _ Hre'). apply not_true_iff_false. by eapply Hfirst.
  - rewrite <- delete_take_drop.
    pose proof (lookup_lt_Some _ _ _ Hir) as Hlt.
    eapply store_inv_shrink; [done|by split| |]; simpl; rewrite shift_down_delete by done.
    + apply sublist_delete.
    + apply Forall2_delete, Hi.
Qed.

(** ** What is covered *)

Lemma rep_holds_byte key f path x r e :
  rep key f r e -> holds_byte path r x <->
  sar_pres_path_eq (e_path e) path = true /\ e_off e <= x < e_off e + e_len e.
Proof.
  intros [Hp Ho Hl _ _ _ _ Hrg _]. unfold holds_byte, rend. rewrite Hp, Ho, Hl, u64_small by (unfold is_u; lia). done.
Qed.

Lemma covered_rep p f l path x : store_inv p f l -> covered_at (records p) path x <-> a_covered l path x.
Proof.
  intros [Hr _ _ _ _ _]. unfold covered_at, a_covered. induction Hr as [|r e rs l Hre _ IH]; [by rewrite !Exists_nil|].
  by rewrite !Exists_cons, IH, (rep_holds_byte _ _ path x _ _ Hre).
Qed.

(** A part of the file that [sar_preserve_covered] finds has a byte that is held. *)
Lemma covered_overlap p f l path o n :
  store_inv p f l -> 0 <= o -> 0 < n \/ (o = 0 /\ n = 0) -> o + n < 2 ^ 64 ->
  sar_preserve_covered (records p) path o n = true ->
  exists x, o <= x < o + n /\ a_covered l path x.
Proof.
  intros Hi Ho Hn Hs He. unfold sar_preserve_covered in He.
  apply existsb_exists in He as (r&Hr&[Hp Hov]%andb_true_iff). apply list_elem_of_In in Hr.
  apply list_elem_of_lookup in Hr as [i Hr].
  destruct (Forall2_lookup_l _ _ _ _ _ (si_rep _ _ _ Hi) Hr) as (e&_&Hre).
  pose proof Hre as [_ Hoff Hl _ _ _ _ Hrg Hct].
  unfold sar_pres_overlap in Hov. apply andb_true_iff in Hov as [H1%Z.ltb_lt H2%Z.ltb_lt].
  rewrite Hoff, Hl, u64_small in H2 by (unfold is_u; lia). rewrite u64_small in H1 by (unfold is_u; lia).
  assert (Hpos : 0 < e_len e).
  { unfold e_len in *. destruct (e_content e); [by destruct Hct as [_ _ [? _] _ _ _]|].
    destruct Hct as (_&_&_&Hz). lia. }
  exists (Z.max (provenance_offset r) o). split; [lia|]. rewrite <- (covered_rep p f) by done.
  apply Exists_exists. exists r. split; [by eapply list_elem_of_lookup_2|].
  split; [done|]. unfold rend. rewrite Hl, Hoff, u64_small by (unfold is_u; lia). lia.
Qed.

(** ** Adding a record *)

Lemma append_record_cases r p :
  frame p (append_record r p) /\
  (records (append_record r p) = records p \/ records (append_record r p) = records p ++ [r]).
Proof.
  unfold append_record, sar_preserve_append. destruct (sar_preserve_covered _ _ _ _).
  { split; [by split|by left]. }
  destruct (_ <=? _); split; [by split|by left|by split|by right].
Qed.

Lemma store_inv_append p p' f l r e :
  store_inv p f l -> frame p p' -> records p' = records p ++ [r] -> rep (store_key p) f r e ->
  ext_wf (record_extent r) -> Forall (apart (record_extent r)) (live p) ->
  Forall (apart (record_extent r)) (free_ext p) ->
  payload_length r = 0 \/ ext_end (record_extent r) <= data_high_water p ->
  store_inv p' f (l ++ [e]).
Proof.
  intros [Hr [Hl Hhw Hf] Ha Hc Hh Hrd] [F1 F2 F3 F4 F5 F6 _] Hrs Hre Hwf Hal Haf Hend.
  assert (Hlive : live p' = live p ++ [record_extent r]) by (rewrite Hrs; apply map_app).
  split.
  - rewrite F4, Hrs. apply Forall2_app; [done|by constructor].
  - split; rewrite ?Hlive, ?F1, ?F2.
    + apply Forall_app. by rewrite Forall_singleton.
    + done.
    + destruct Hf as [G1 G2 G3]. split; [done|done|]. apply Forall_forall. intros e' He'.
      rewrite Forall_app, Forall_singleton. split; [by eapply Forall_forall in G3|].
      symmetry. by eapply Forall_forall in Haf.
  - rewrite Hlive. apply pairwise_snoc; [apply _|done|done].
  - destruct Hc as [Hc|Hc]; [left|right; auto]. unfold hw_covers in *.
    rewrite Hlive, F2, Forall_app, Forall_singleton. split; [done|]. simpl. tauto.
  - by rewrite F5.
  - by rewrite F6.
Qed.

Lemma stage_link_sim p f l st now path size actor id :
  store_inv p f l -> 0 <= id < 2 ^ 64 -> 0 <= size < 2 ^ 64 ->
  let '(status, p') := SarPreserveStageLink p st now path size actor id in
  exists l', astep (OLink path size now actor id (causing_path st actor) (retention_100ns p) status) l l' /\
    store_inv p' f l'.
Proof.
  intros Hi Hid Hsz. unfold SarPreserveStageLink, astep, linked. rewrite (si_ready _ _ _ Hi). cbn [negb].
  destruct (existsb _ _); [exists l; split; [by left|done]|].
  pose proof (aged_sim now p f l Hi) as Ha.
  destruct (sar_preserve_evict_aged _ _ _) as [n rs].
  specialize (Ha _ (frame_removed n rs p) (removed_records_eq n rs p)).
  fold (a_fresh now (retention_100ns p) l) in Ha.
  set (p1 := removed_records (n, rs) p) in *. set (l1 := a_fresh _ _ l) in *.
  destruct (_ <=? _) eqn:Hcap; [exists l1; split; [by right|done]|].
  change (NT_SUCCESS STATUS_SUCCESS) with true. cbv iota. cbn [e_path].
  set (r := set_causing _ _).
  destruct (append_record_cases r p1) as [Hfr [Hrs|Hrs]].
  - exists l1. split.
    + right. split; [done|]. apply (covered_overlap p1 f l1 (stored_path path) 0 size); [done|lia..|].
      revert Hrs. unfold append_record, sar_preserve_append. change (provenance_path r) with (stored_path path).
      change (provenance_offset r) with 0. change (provenance_length r) with size.
      destruct (sar_preserve_covered _ _ _ _); [done|]. rewrite Hcap. change (1 =? 1) with true. cbn [records set_dirty set_records].
      intros E%(f_equal length). rewrite length_app in E. simpl in E. lia.
    + eapply store_inv_shrink; [exact Ha|done|by rewrite Hrs|]. rewrite Hrs. apply Ha.
  - eexists. split; [by left|].
    eapply store_inv_append; [exact Ha|done|done| | | | |by left].
    + split; try done.
    + unfold ext_wf, ext_end. simpl. lia.
    + apply Forall_true. intros x. unfold apart. simpl. lia.
    + apply Forall_true. intros x. unfold apart. simpl. lia.
Qed.

End Refine.

End PreserveRefine.
