(* ===== verification/PreserveStage.v ===== *)
(** * Staging refines the abstract store

    The simulation for [SarPreserveStage]: it returns for every answer of the
    system, every gap it stores becomes one entry with the staged bytes, and in
    ENFORCE mode success means that the whole region is preserved.  The last
    part composes the operations into the refinement theorem. *)

From Stdlib Require Import Sorted.
From stdpp Require Import relations.
From S2P Require Import Prelude Mem Format Sha256 Chain Keystore Protocol Preserve HeapSort.
From S2P Require Import DriverState DriverPreserve PreserveAlloc PreserveRefine.
Import Mem Layout Protocol Preserve PresRec HeapSort DriverPreserve PreserveAlloc PreserveRefine.
Import DriverState (NTSTATUS, NT_SUCCESS, STATUS_SUCCESS, STATUS_NOT_FOUND).

Module PreserveStage.

Section Stage.
Context {F : Type} {DF : DataFile F} {DFL : DataFileLaws F} {AC : AesCbc} {ACL : AesCbcLaws}.
Implicit Types (enf : bool).

(** ** Writing beside live payloads *)

Lemma rep_write key f r e o b :
  rep key f r e -> 0 <= o -> 0 <= payload_offset r -> b <> [] ->
  apart {| off := o; len := Z.of_nat (length b) |} (record_extent r) ->
  rep key (data_write f o b) r e.
Proof using DFL.
  intros [Hp Ho Hl Ht Ha Hs Hc Hrg Hct] Ho' Hpo Hb Hap. split; try done.
  destruct (e_content e) as [c|]; [|done].
  destruct Hct as [Hk Hpl Hsm Hby Htag (ct&Hrd&Hlct&Hdec)]. split; try done.
  exists ct. split_and!; [|done|done]. apply data_read_other; [done|done| |done].
  pose proof (round16_bounds (Z.of_nat (length c)) ltac:(lia)) as [? _].
  destruct b; [done|]. unfold apart in Hap. simpl in *. lia.
Qed.

Lemma store_inv_write p f l o b :
  store_inv p f l -> 0 <= o -> b <> [] ->
  Forall (apart {| off := o; len := Z.of_nat (length b) |}) (live p) ->
  store_inv p (data_write f o b) l.
Proof using DFL.
  intros [Hr Hal Ha Hc Hh Hrd] Ho Hb Hap. split; try done.
  pose proof (ai_live _ Hal) as Hwf. clear Ha Hc Hal. revert Hap Hwf.
  induction Hr as [|r e rs l Hre _ IH]; [constructor|]. cbn [map].
  intros [Hx Hap]%Forall_cons [Hw Hwf]%Forall_cons. constructor; [|by apply IH].
  apply rep_write; try done. by destruct Hw.
Qed.

(** ** Storing one gap *)

(** The arguments of a call: [stop] is the end of the region. *)
Record args_ok (a : stage_args) (stop : Z) : Prop := {
  ao_offset : 0 <= Offset a;
  ao_stop : stop = Offset a + Z.of_nat (length (Plaintext a));
  ao_length : Z.of_nat (length (Plaintext a)) < 2 ^ 32 - 16;
  ao_no_wrap : stop < 2 ^ 64;
  ao_bytes : is_bytes (Plaintext a)
}.

(** The random generator fills the vector. *)
Definition env_ok (env : stage_env) : Prop :=
  forall v, random_iv env = Some v -> length v = 16%nat /\ is_bytes v.

(** The high-water mark is right, or the rebuild will make it right. *)
Definition hw_safe (env : stage_env) (p : SAR_PRESERVE) : Prop :=
  hw_covers p \/ (free_dirty p = true /\ rebuild_alloc env = true).

Lemma same_index_inv p p' f l :
  same_index p p' -> alloc_inv p' -> hw_covers p' -> store_inv p f l -> store_inv p' f l.
Proof.
  intros Hs Ha Hc [Hr _ Hap _ Hh Hrd]. rewrite Hs in *. split; try done. by left.
Qed.

(** The record [stage_store] makes. *)
Definition gap_record (a : stage_args) (v : bytes) (o g_off g_len ct_len : Z) : rec :=
  set_causing (causingPath a)
    (sar_preserve_record_init (Some (Path a)) g_off g_len (stage_now a) o ct_len (ActorId a)
       (Some v) SAR_PRESERVE_AES_BLOCK (Some (slice (Plaintext a) (g_off - Offset a) g_len)) (u32 g_len)).

Lemma length_slice b o n :
  0 <= o -> 0 <= n -> o + n <= Z.of_nat (length b) -> Z.of_nat (length (slice b o n)) = n.
Proof. intros. unfold slice. rewrite length_take, length_drop. lia. Qed.

Lemma gap_record_rep key f a stop v o g_off g_len :
  args_ok a stop -> Offset a <= g_off -> 0 < g_len -> g_off + g_len <= stop -> 0 <= o ->
  length v = 16%nat ->
  let b := slice (Plaintext a) (g_off - Offset a) g_len in
  let ct := bcrypt_encrypt key v (pad16 b) in
  rep key (data_write f o ct) (gap_record a v o g_off g_len (SarPresRound16 g_len)) (gap_entry a g_off g_len).
Proof using DFL ACL.
  intros [Ho Hst Hl Hw Hby] Hg Hgl Hend Hoo Hv b ct.
  assert (Hb : Z.of_nat (length b) = g_len) by (apply length_slice; lia).
  pose proof (round16_bounds g_len ltac:(lia)) as [Hr1 Hr2].
  assert (Hp : length (pad16 b) = Z.to_nat (SarPresRound16 g_len)).
  { unfold pad16. rewrite length_mem_write, length_replicate, Hb. done. }
  assert (Hlct : length ct = Z.to_nat (SarPresRound16 g_len)) by (unfold ct; by rewrite bcrypt_length).
  split; try done; unfold gap_entry, e_len; cbn [e_content e_off]; fold b; [lia|].
  split; rewrite ?Hb; try done.
  - lia.
  - unfold b, slice. apply Forall_take, Forall_drop, Hby.
  - cbn. fold b. by rewrite u32_small by (unfold is_u; lia).
  - exists ct. cbn [gap_record set_causing sar_preserve_record_init payload_offset payload_length iv].
    split_and!; [|done|].
    + rewrite <- Hlct. apply data_read_write; [done|]. intros E. apply (f_equal length) in E.
      rewrite Hlct in E. simpl in E. lia.
    + change (Z.to_nat (if _ <? _ then _ else _)) with 16%nat.
      rewrite mem_write_spec by (rewrite length_replicate, length_take, Hv; unfold SEMANTICS_AR_IV_MAX; lia).
      rewrite take_0, (take_ge v) by lia. cbn [app]. rewrite take_app_le by lia.
      rewrite take_ge by lia. unfold ct. apply bcrypt_inverse; [done|].
      rewrite Hp. apply Nat2Z.inj. rewrite Nat2Z.inj_mod, Z2Nat.id by lia. done.
Qed.

Lemma round16_factor v : 0 < v < 2 ^ 63 -> 0 < SarPresRound16 v <= 16 * v.
Proof. intros Hv. rewrite round16_eq by lia. dlia. Qed.

Lemma bounded_weaken B B' p : B <= B' -> bounded B p -> bounded B' p.
Proof. intros HB [H1 H2]. split; [lia|]. eapply Forall_impl; [exact H2|]. simpl. lia. Qed.

Lemma frame_mark_dirty p : frame p (mark_free_dirty p).
Proof. by split. Qed.

(** The encryption of the padded gap. *)
Lemma crypt_gap ce p b v :
  length v = 16%nat -> Z.of_nat (length b) < 2 ^ 32 - 16 ->
  NT_SUCCESS (SarPresCrypt ce p true (pad16 b) v).1 = true ->
  (SarPresCrypt ce p true (pad16 b) v).2 = bcrypt_encrypt (store_key p) v (pad16 b).
Proof.
  intros Hv Hb. unfold SarPresCrypt. change (Z.to_nat SAR_PRESERVE_AES_BLOCK) with 16%nat.
  rewrite take_ge by lia. destruct (negb (_ =? 0)); [done|]. destruct (key_alloc ce); [|done].
  cbn [negb]. destruct (NT_SUCCESS (key_status ce)) eqn:E1; cbn [negb fst snd]; [|congruence].
  destruct (NT_SUCCESS (cipher_status ce)) eqn:E2; cbn [fst snd]; [done|congruence].
Qed.

(** What [stage_store] leaves: the entries, the allocator and the table. *)
(** [l'] is [l] with entries for parts of the region. *)
Definition made (a : stage_args) (stop : Z) (l l' : list entry) : Prop :=
  exists es, l' = l ++ es /\ Forall (fun e => exists g_off g_len,
    Offset a <= g_off /\ 0 < g_len /\ g_off + g_len <= stop /\ e = gap_entry a g_off g_len) es.

Lemma made_refl a stop l : made a stop l l.
Proof. exists []. by rewrite app_nil_r. Qed.

Lemma made_trans a stop l l' l'' : made a stop l l' -> made a stop l' l'' -> made a stop l l''.
Proof. intros (k&->&Hk) (k'&->&Hk'). exists (k ++ k'). by rewrite app_assoc, Forall_app. Qed.

Record stored (a : stage_args) (p p' : SAR_PRESERVE) (B : Z) (r : round_end) (g_off g_len : Z) : Prop := {
  sd_hw : hw_covers p' \/ p' = p;
  sd_bounded : bounded (B + 16 * g_len) p';
  sd_frame : record_capacity p' = record_capacity p;
  sd_end : match r with
           | Break res => res = SAR_STAGE_FAILED /\ records p' = records p
           | Next c => c = g_off + g_len /\ exists v o,
               records p' = (sar_preserve_append (records p) (record_capacity p)
                               (gap_record a v o g_off g_len (SarPresRound16 g_len))).2
           end
}.

Lemma append_record_records r p :
  records (append_record r p) = (sar_preserve_append (records p) (record_capacity p) r).2.
Proof. unfold append_record. destruct (sar_preserve_append _ _ _). by dif. Qed.

(** A payload written at the allocated offset, and its record. *)
Lemma stage_append enf p p1 f l a stop v o g_off g_len B :
  store_inv p f l -> allocated p p1 o (SarPresRound16 g_len) B -> args_ok a stop ->
  Offset a <= g_off -> 0 < g_len -> g_off + g_len <= stop -> length v = 16%nat ->
  (forall x, g_off <= x < g_off + g_len -> ~ covered_at (records p) (Path a) x) ->
  let b := slice (Plaintext a) (g_off - Offset a) g_len in
  let p' := append_record (gap_record a v o g_off g_len (SarPresRound16 g_len)) p1 in
  exists l', rtc (stage_move enf a) l l' /\
    store_inv p' (data_write f o (bcrypt_encrypt (store_key p) v (pad16 b))) l' /\ made a stop l l' /\
    stored a p p' B (Next (g_off + g_len)) g_off g_len.
Proof using DFL ACL.
  intros Hi [Hsi Hal Hcov Hbd Hrng Hlv Hfr] Ha Hg Hgl Hend Hv Hun b p'.
  pose proof Ha as [Ho Hst Hl Hw Hby].
  assert (Hb : Z.of_nat (length b) = g_len) by (apply length_slice; lia).
  pose proof (round16_bounds g_len ltac:(lia)) as [Hr1 Hr2].
  pose proof (round16_factor g_len ltac:(lia)) as Hrf.
  set (ct := bcrypt_encrypt (store_key p) v (pad16 b)). set (r := gap_record a v o g_off g_len _) in *.
  assert (Hlct : Z.of_nat (length ct) = SarPresRound16 g_len).
  { unfold ct, pad16. rewrite bcrypt_length, length_mem_write, length_replicate, Hb. lia. }
  assert (Hne : ct <> []) by (intros E; rewrite E in Hlct; simpl in Hlct; lia).
  assert (Hkey : store_key p1 = store_key p) by (by rewrite Hsi).
  assert (Hidx : records p1 = records p /\ record_capacity p1 = record_capacity p) by (by rewrite Hsi).
  destruct Hidx as [Hrs Hcap].
  pose proof (same_index_inv _ _ _ _ Hsi Hal Hcov Hi) as Hi1.
  assert (Hi2 : store_inv p1 (data_write f o ct) l).
  { apply store_inv_write; [done|lia|done|]. by rewrite Hlct. }
  assert (Hrep : rep (store_key p1) (data_write f o ct) r (gap_entry a g_off g_len)).
  { rewrite Hkey. apply (gap_record_rep (store_key p) f a stop); auto; lia. }
  assert (Hext : record_extent r = {| off := o; len := SarPresRound16 g_len |}) by done.
  destruct (append_record_cases r p1) as [Hframe Hcases]. fold p' in Hframe, Hcases.
  assert (Hst' : stored a p p' B (Next (g_off + g_len)) g_off g_len).
  { destruct Hframe as [F1 F2 F3 F4 F5 F6 F7]. destruct Hbd as [Hb1 Hb2]. split.
    - left. unfold hw_covers. rewrite F2.
      destruct Hcases as [->| ->]; [done|]. rewrite map_app, Forall_app. split; [done|].
      apply Forall_singleton. rewrite Hext. unfold ext_end. simpl. lia.
    - split; [lia|]. assert (Forall (fun e => ext_end e <= B + 16 * g_len) (live p1))
        by (eapply Forall_impl; [exact Hb2|]; simpl; lia).
      destruct Hcases as [->| ->]; [done|]. rewrite map_app, Forall_app. split; [done|].
      apply Forall_singleton. rewrite Hext. unfold ext_end. simpl. lia.
    - congruence.
    - split; [done|]. exists v, o. fold r. rewrite <- Hrs, <- Hcap. apply append_record_records. }
  destruct Hcases as [Hc|Hc].
  - exists l. split_and!; [done| |apply made_refl|done]. eapply store_inv_shrink; [exact Hi2|done|by rewrite Hc|].
    rewrite Hc. apply Hi2.
  - exists (l ++ [gap_entry a g_off g_len]). split_and!; [| | |done].
    + apply rtc_once, s_store; [lia..|]. intros x Hx. rewrite <- (covered_rep p f) by done. by apply Hun.
    + eapply store_inv_append; [exact Hi2|done|done|done| | | |]; rewrite ?Hext.
      * destruct Hal as [_ ? _]. unfold ext_wf, ext_end. simpl. lia.
      * done.
      * done.
      * right. unfold ext_end. simpl. lia.
    + eexists. split; [done|]. apply Forall_singleton. by exists g_off, g_len.
Qed.

Lemma store_sim enf env a p f l stop g_off g_len B :
  store_inv p f l -> args_ok a stop -> env_ok env -> hw_safe env p ->
  bounded B p -> 0 <= B -> B + 16 * g_len < 2 ^ 64 ->
  Offset a <= g_off -> 0 < g_len -> g_off + g_len <= stop ->
  (forall x, g_off <= x < g_off + g_len -> ~ covered_at (records p) (Path a) x) ->
  exists r p' f' l',
    stage_store env a p f g_off g_len (SarPresRound16 g_len) = Ret (r, p', f') /\
    rtc (stage_move enf a) l l' /\ store_inv p' f' l' /\ made a stop l l' /\ stored a p p' B r g_off g_len.
Proof using DFL ACL.
  intros Hi Ha He Hhs Hb HB HBg Hg Hgl Hend Hun.
  pose proof Ha as [Ho Hst Hl Hw Hby].
  pose proof (round16_bounds g_len ltac:(lia)) as [Hr1 Hr2].
  pose proof (round16_factor g_len ltac:(lia)) as Hrf.
  assert (Hfail : stored a p p B (Break SAR_STAGE_FAILED) g_off g_len)
    by (split; [by right|eapply bounded_weaken; [|done]; lia|done|done]).
  assert (Hstay : exists r p' f' l', Ret (Break SAR_STAGE_FAILED, p, f) = Ret (r, p', f') /\
     rtc (stage_move enf a) l l' /\ store_inv p' f' l' /\ made a stop l l' /\ stored a p p' B r g_off g_len).
  { exists (Break SAR_STAGE_FAILED), p, f, l. split_and!; [done..|apply made_refl|done]. }
  unfold stage_store. rewrite (u64_small (g_off - Offset a)) by (unfold is_u; lia).
  rewrite (u32_small (g_off - Offset a)) by (unfold is_u; lia).
  rewrite (u32_small (SarPresRound16 g_len)) by (unfold is_u; lia).
  fold (slice (Plaintext a) (g_off - Offset a) g_len). set (b := slice _ _ _).
  assert (Hlb : Z.of_nat (length b) = g_len) by (apply length_slice; lia).
  destruct (random_iv env) as [v|] eqn:Hrv; [|done]. destruct (He v Hrv) as [Hv _].
  destruct (ct_alloc env); [|done]. destruct (pad_alloc env); [|done]. cbn [negb].
  replace (mem_write (replicate (Z.to_nat (SarPresRound16 g_len)) 0) 0 b) with (pad16 b)
    by (unfold pad16; by rewrite Hlb).
  rewrite (take_ge (pad16 b)) by (unfold pad16; rewrite length_mem_write, length_replicate, Hlb; lia).
  pose proof (crypt_gap (crypt env) p b v Hv ltac:(lia)) as Hcr.
  destruct (SarPresCrypt _ _ _ _ _) as [status ct]. simpl in Hcr.
  destruct (NT_SUCCESS status); [|done]. cbn [negb]. rewrite Hcr by done.
  destruct (alloc_spec (rebuild_alloc env) p (SarPresRound16 g_len) B) as (o&p1&->&Hal);
    [apply Hi|done|done|lia|lia|done|].
  cbn [cbind].
  pose proof Hal as [Hsi Hai Hcov Hbd Hrng Hlv Hfr].
  destruct (negb (data_handle p1) || negb (NT_SUCCESS (write_status env))).
  - exists (Break SAR_STAGE_FAILED), (mark_free_dirty p1), f, l. split_and!; [done|done| |apply made_refl|].
    + pose proof (same_index_inv _ _ _ _ Hsi Hai Hcov Hi) as Hi1.
      eapply store_inv_shrink; [exact Hi1|apply frame_mark_dirty|done|]. apply Hi1.
    + split; [by left| |by rewrite Hsi|by rewrite Hsi].
      eapply (bounded_weaken (B + SarPresRound16 g_len)); [lia|done].
  - rewrite u64_small by (unfold is_u; lia).
    destruct (stage_append enf p p1 f l a stop v o g_off g_len B) as (l'&Hl'&Hi'&Hmd&Hs'); try done.
    by eexists _, _, _, l'.
Qed.

(** ** One round *)

Lemma hw_covers_frame p p' : frame p p' -> sublist (records p') (records p) -> hw_covers p -> hw_covers p'.
Proof.
  intros [_ F2 _ _ _ _ _] Hs Hc. unfold hw_covers in *. rewrite F2.
  eapply sublist_Forall; [by apply sublist_map|done].
Qed.

Lemma bounded_frame B p p' : frame p p' -> sublist (records p') (records p) -> bounded B p -> bounded B p'.
Proof.
  intros [_ F2 _ _ _ _ _] Hs [H1 H2]. split; [by rewrite F2|].
  eapply sublist_Forall; [by apply sublist_map|done].
Qed.

(** Making room drops entries on probation only, and nothing in ENFORCE mode. *)
Lemma budget_sim mode against p f l ct_len :
  store_inv p f l ->
  exists o, stage_budget mode against p ct_len = Ret o /\
  match o with
  | None => True
  | Some p' => frame p p' /\ sublist (records p') (records p) /\
      (mode = SEMANTICS_AR_MODE_ENFORCE -> p' = p) /\
      exists l', sublist l' l /\ List.filter e_protected l' = List.filter e_protected l /\ store_inv p' f l'
  end.
Proof.
  intros Hi. unfold stage_budget. destruct (_ <? ct_len); [by exists None|].
  destruct (_ <? _); [by exists None|].
  destruct (_ <? u64 (u64 _ + _)); [|exists (Some p); split; [done|]; split_and!; [done|done|done|by exists l]].
  destruct (Z.eqb_spec mode SEMANTICS_AR_MODE_ENFORCE) as [|Hmode]; [by exists None|].
  set (cap := u64 (u64 _ - ct_len)).
  destruct (evict_loop_spec (S (length (records p))) (records p) cap 0) as (out&rs&He&Hev);
    [apply is_u_u64|lia|].
  unfold sar_preserve_evict_probation_oldest. rewrite He. cbn [cbind].
  set (n := 0 + Z.of_nat (length out)). exists (Some (removed_records (n, rs) p)). split; [done|].
  pose proof (frame_removed n rs p) as Hfr. pose proof (removed_records_eq n rs p) as Hrs.
  destruct Hev as [_ Hsub _ _ Hkept _ _].
  destruct (Forall2_sublist (rep (store_key p) f) (fun r => negb (is_state SAR_PRESERVE_PROBATION r))
              e_protected (records p) rs l) as (l'&Hl'&Hrep&Hg); [|done|apply Hi|done|].
  { intros r e Hre. unfold e_protected, is_state. by rewrite (r_state _ _ _ _ Hre). }
  split_and!; [done|by rewrite Hrs|done|]. exists l'. split_and!; [done|done|].
  eapply store_inv_shrink; [exact Hi|done|by rewrite Hrs|by rewrite Hrs].
Qed.

Lemma memcmp_refl x n : sar_memcmp x x n = 0.
Proof. revert x. induction n as [|n IH]; intros x; simpl; [done|]. by rewrite Z.eqb_refl, IH. Qed.

Lemma path_eq_refl x : sar_pres_path_eq x x = true.
Proof. unfold sar_pres_path_eq. by rewrite memcmp_refl. Qed.

(** A gap of the table is not covered. *)
Lemma gap_not_covered p f l path cursor stop g_off g_len :
  store_inv p f l -> 0 <= cursor -> stop < 2 ^ 64 ->
  gap_result (records p) path cursor stop (Some (g_off, g_len)) ->
  sar_preserve_covered (records p) path g_off g_len = false.
Proof.
  intros Hi Hc Hs (G1&G2&G3&_&G5&_). apply not_true_iff_false. intros He.
  destruct (covered_overlap p f l path g_off g_len) as (x&Hx&Hcov); [done|lia..|done|].
  apply (G5 x); [lia|]. by rewrite (covered_rep p f l).
Qed.

(** The table keeps what it has and gets records of the time [now]. *)
Definition grown (now : Z) (rs rs' : list rec) : Prop :=
  exists k, rs' = rs ++ k /\ Forall (fun r => capture_time r = now) k.

Lemma grown_refl now rs : grown now rs rs.
Proof. exists []. by rewrite app_nil_r. Qed.

Lemma grown_trans now rs rs' rs'' : grown now rs rs' -> grown now rs' rs'' -> grown now rs rs''.
Proof. intros (k&->&Hk) (k'&->&Hk'). exists (k ++ k'). by rewrite app_assoc, Forall_app. Qed.

Lemma grown_prefix now rs rs' : grown now rs rs' -> rs `prefix_of` rs'.
Proof. intros (k&->&_). by exists k. Qed.

(** What one round does to the table when nothing is evicted. *)
Definition preserved (a : stage_args) (cursor stop : Z) (p p' : SAR_PRESERVE) (r : round_end) : Prop :=
  grown (stage_now a) (records p) (records p') /\
  match r with
  | Break SAR_STAGE_ALREADY_COVERED =>
      forall x, cursor <= x < stop -> covered_at (records p') (Path a) x
  | Break SAR_STAGE_STORED => False
  | Break _ => True
  | Next c => forall x, cursor <= x < c -> covered_at (records p') (Path a) x
  end.

Lemma covered_prefix rs rs' path x : rs `prefix_of` rs' -> covered_at rs path x -> covered_at rs' path x.
Proof. intros [k ->] H. apply Exists_app. by left. Qed.

Lemma covered_grown now rs rs' path x : grown now rs rs' -> covered_at rs path x -> covered_at rs' path x.
Proof. intros H%grown_prefix. by apply covered_prefix. Qed.

Lemma stored_preserved a p p' f l B r cursor stop g_off g_len :
  store_inv p f l -> args_ok a stop -> Offset a <= cursor -> canonical (Path a) ->
  Z.of_nat (length (records p)) < record_capacity p ->
  gap_result (records p) (Path a) cursor stop (Some (g_off, g_len)) ->
  stored a p p' B r g_off g_len -> preserved a cursor stop p p' r.
Proof.
  intros Hi [Ho Hst Hl Hw _] Hc Hcan Hcap Hgap [_ _ _ Hend]. pose proof Hgap as (G1&G2&G3&G4&_).
  destruct r as [res|c].
  - destruct Hend as [-> Hrs]. split; [rewrite Hrs; apply grown_refl|done].
  - destruct Hend as (->&v&o&Hrs).
    set (rc := gap_record a v o g_off g_len _) in Hrs. unfold sar_preserve_append in Hrs.
    assert (Hpath : provenance_path rc = Path a) by apply Hcan.
    rewrite Hpath in Hrs. change (provenance_offset rc) with g_off in Hrs.
    change (provenance_length rc) with g_len in Hrs.
    rewrite (gap_not_covered p f l (Path a) cursor stop) in Hrs by (done || lia).
    destruct (Z.leb_spec (record_capacity p) (Z.of_nat (length (records p)))); [lia|]. cbn [snd] in Hrs.
    split; [rewrite Hrs; eexists; split; [done|by apply Forall_singleton]|]. intros x Hx. rewrite Hrs. apply Exists_app.
    destruct (Z_lt_le_dec x g_off); [left; apply G4; lia|right].
    apply Exists_cons. left. split; [rewrite Hpath; apply path_eq_refl|].
    change (provenance_offset rc) with g_off. unfold rend.
    change (provenance_offset rc) with g_off. change (provenance_length rc) with g_len.
    rewrite u64_small by (unfold is_u; lia). lia.
Qed.

(** The answers of the system during a call, and the assumption on the rebuild
    of the free list: it is needed only while the high-water mark is stale. *)
Definition rebuilds (env : nat -> stage_env) (p : SAR_PRESERVE) : Prop :=
  hw_covers p \/ forall i, rebuild_alloc (env i) = true.

Lemma round_sim enf env i a p f l cursor stop B :
  store_inv p f l -> (enf = true -> mode_now (env i) = SEMANTICS_AR_MODE_ENFORCE) -> args_ok a stop -> (forall i, env_ok (env i)) -> rebuilds env p ->
  bounded B p -> 0 <= B -> Offset a <= cursor < stop -> B + 16 * (stop - cursor) < 2 ^ 64 ->
  exists r p' f' l',
    stage_round (env i) a p f cursor stop = Ret (r, p', f') /\
    rtc (stage_move enf a) l l' /\ store_inv p' f' l' /\ rebuilds env p' /\ (hw_covers p -> hw_covers p') /\
    match r with
    | Break _ => bounded (B + 16 * (stop - cursor)) p'
    | Next c => cursor < c <= stop /\ bounded (B + 16 * (c - cursor)) p'
    end /\
    (mode_now (env i) = SEMANTICS_AR_MODE_ENFORCE -> made a stop l l' /\
      (canonical (Path a) -> preserved a cursor stop p p' r)).
Proof using DFL ACL.
  intros Hi Henf Ha He Hrb Hb HB Hcur HBs. pose proof Ha as [Ho Hst Hl Hw Hby].
  unfold stage_round. rewrite u64_small by (unfold is_u; lia). unfold sar_preserve_first_gap.
  rewrite u64_small by (unfold is_u; lia). replace (cursor + (stop - cursor)) with stop by lia.
  destruct (gap_loop_spec (S (length (records p))) (records p) (Path a) cursor stop) as (gap&->&Hgap);
    [lia|done| |].
  { pose proof (length_filter (fun r => (cursor < rend r)%Z) (records p)). lia. }
  pose proof (bounded_weaken B (B + 16 * (stop - cursor)) p ltac:(lia) Hb) as Hbw.
  cbn [cbind]. destruct gap as [[g_off g_len]|].
  2: { exists (Break SAR_STAGE_ALREADY_COVERED), p, f, l. split_and!; try done.
       intros _. split; [apply made_refl|]. intros _. split; [apply grown_refl|exact Hgap]. }
  pose proof Hgap as (G1&G2&G3&_&G5&_).
  destruct (budget_sim (mode_now (env i)) (AgainstReservation a) p f l (SarPresRound16 g_len) Hi)
    as ([p1|]&->&Hroom); cbn [cbind].
  2: { exists (Break SAR_STAGE_DROPPED), p, f, l. split_and!; try done.
       intros _. split; [apply made_refl|]. intros _. split; [apply grown_refl|done]. }
  destruct Hroom as (Hfr&Hsub&Hmode&Hl1).
  assert (exists l1, rtc (stage_move enf a) l l1 /\ store_inv p1 f l1 /\ (mode_now (env i) = SEMANTICS_AR_MODE_ENFORCE -> l1 = l))
    as (l1&Hr1&Hi1&Hll).
  { destruct (decide (mode_now (env i) = SEMANTICS_AR_MODE_ENFORCE)) as [Hm|Hm].
    - exists l. rewrite (Hmode Hm). done.
    - destruct Hl1 as (l1&?&?&?). exists l1. split_and!; [|done|done].
      apply rtc_once, s_evict; [|done|done]. destruct enf; [by destruct Hm, Henf|done]. }
  clear Hl1.
  assert (Hrb1 : rebuilds env p1).
  { destruct Hrb as [Hc|Hc]; [left; by eapply hw_covers_frame|by right]. }
  pose proof (bounded_frame B p p1 Hfr Hsub Hb) as Hb1.
  destruct (Z.leb_spec (record_capacity p1) (Z.of_nat (length (records p1)))).
  { exists (Break SAR_STAGE_DROPPED), p1, f, l1. split_and!; try done.
    - by apply hw_covers_frame.
    - eapply bounded_weaken; [|exact Hb1]. lia.
    - intros Hm. rewrite (Hmode Hm), (Hll Hm). split; [apply made_refl|]. intros _. split; [apply grown_refl|done]. }
  destruct (store_sim enf (env i) a p1 f l1 stop g_off g_len B) as (r&p'&f'&l'&->&Hl'&Hi'&Hmd&Hs');
    [done|done|done| |done|done|lia|lia|lia|lia| |].
  2: { intros x Hx Hcov. apply (G5 x Hx). apply Exists_exists in Hcov as (r&Hr&Hh).
       apply Exists_exists. exists r. split; [by eapply elem_of_sublist|done]. }
  { destruct (si_hw _ _ _ Hi1); [by left|]. destruct Hrb1; [by left|by right]. }
  exists r, p', f', l'. split_and!; [done|by etrans|done| | | |].
  - destruct (sd_hw _ _ _ _ _ _ _ Hs') as [Hc| ->]; [by left|done].
  - intros Hc. destruct (sd_hw _ _ _ _ _ _ _ Hs') as [?| ->]; [done|by eapply hw_covers_frame].
  - destruct Hs' as [_ Hbd _ Hend]. destruct r as [|c].
    + eapply bounded_weaken; [|exact Hbd]. lia.
    + destruct Hend as [-> _]. split; [lia|]. eapply bounded_weaken; [|exact Hbd]. lia.
  - intros Hm. rewrite (Hll Hm) in Hmd. split; [done|]. intros Hcan. rewrite (Hmode Hm) in *.
    eapply stored_preserved; try done; lia.
Qed.

(** ** The loop *)

(** The result of the loop in ENFORCE mode, for a path as records keep it. *)
Definition covers_region (a : stage_args) (cursor stop : Z) (p p' : SAR_PRESERVE)
    (res : SAR_STAGE_RESULT) : Prop :=
  grown (stage_now a) (records p) (records p') /\
  (res = SAR_STAGE_ALREADY_COVERED -> forall x, cursor <= x < stop -> covered_at (records p') (Path a) x) /\
  res <> SAR_STAGE_STORED.

Lemma loop_sim enf fuel env i a p f l cursor stop staged B :
  store_inv p f l -> (enf = true -> forall i, mode_now (env i) = SEMANTICS_AR_MODE_ENFORCE) -> args_ok a stop -> (forall i, env_ok (env i)) -> rebuilds env p ->
  bounded B p -> 0 <= B -> Offset a <= cursor -> B + 16 * (stop - cursor) < 2 ^ 64 ->
  (Z.to_nat (stop - cursor) < fuel)%nat ->
  exists res staged' p' f' l',
    stage_loop fuel env i a p f cursor stop staged = Ret (res, staged', p', f') /\
    rtc (stage_move enf a) l l' /\ store_inv p' f' l' /\ (hw_covers p -> hw_covers p') /\
    (cursor <= stop -> bounded (B + 16 * (stop - cursor)) p') /\
    ((forall i, mode_now (env i) = SEMANTICS_AR_MODE_ENFORCE) -> made a stop l l' /\
      (canonical (Path a) -> covers_region a cursor stop p p' res)).
Proof using DFL ACL.
  revert i p f l cursor staged B. induction fuel as [|fuel IH];
    intros i p f l cursor staged B Hi Henf Ha He Hrb Hb HB Hcur HBs Hf; [lia|].
  cbn [stage_loop]. destruct (Z.ltb_spec cursor stop) as [Hlt|Hge].
  2: { exists SAR_STAGE_ALREADY_COVERED, staged, p, f, l. split_and!; try done.
       - intros ?. by replace (stop - cursor) with 0 by lia; rewrite Z.add_0_r.
       - intros _. split; [apply made_refl|]. intros _. split_and!; [apply grown_refl| |done]. intros _ x Hx. lia. }
  destruct (round_sim enf env i a p f l cursor stop B) as (r&p1&f1&l1&->&Hl1&Hi1&Hrb1&Hw1&Hr&Hp1);
    [done|by auto|done..|lia|lia|].
  cbn [cbind]. destruct r as [res|c].
  - exists res, staged, p1, f1, l1. split_and!; try done. intros Hm. destruct (Hp1 (Hm i)) as [Hmd Hp2].
    split; [done|]. intros Hcan. destruct (Hp2 Hcan) as [Hpre Hc]. split_and!; [done| |].
    + intros ->. done.
    + intros ->. done.
  - destruct Hr as [Hc Hb1].
    destruct (IH (S i) p1 f1 l1 c true (B + 16 * (c - cursor))) as (res&st&p'&f'&l'&->&Hl'&Hi'&Hw'&Hbd'&Hcv);
      [done..|lia|lia|lia|lia|].
    exists res, st, p', f', l'. split_and!; [done|by etrans|done|by auto| |].
    { intros _. eapply bounded_weaken; [|apply Hbd'; lia]. lia. }
    intros Hm. destruct (Hp1 (Hm i)) as [Hmd Hp2]. destruct (Hcv Hm) as [Hmd' Hcv'].
    split; [by eapply made_trans|]. intros Hcan.
    destruct (Hp2 Hcan) as [Hpre Hcc]. destruct (Hcv' Hcan) as (Hpre'&Hcov&Hns).
    split_and!; [by eapply grown_trans| |done]. intros Hres x Hx.
    destruct (Z_lt_le_dec x c); [|apply Hcov; [done|lia]].
    eapply covered_grown; [done|]. apply Hcc. lia.
Qed.

(** What a call of [SarPreserveStage] may be given, and that the payloads fit. *)
Record stage_ok (env : nat -> stage_env) (p : SAR_PRESERVE) (Offset Length : Z) (Plaintext : bytes) : Prop := {
  so_env : forall i, env_ok (env i);
  so_rebuild : rebuilds env p;
  so_offset : 0 <= Offset /\ Offset + Length < 2 ^ 64;
  so_length : Z.of_nat (length Plaintext) < 2 ^ 32 - 16;
  so_bytes : is_bytes Plaintext;
  so_room : exists B, 0 <= B /\ bounded B p /\ B + 16 * Length < 2 ^ 64
}.

(** The arguments of a call as the loop keeps them. *)
Definition call_args (st : option DriverState.SAR_STATE) (now : Z) (path : list Z) (off actor : Z) (pt : bytes)
    (against : bool) : stage_args :=
  {| Path := path; Offset := off; ActorId := actor; Plaintext := pt; AgainstReservation := against;
     stage_now := now; causingPath := causing_path st actor |}.

(** One call in a state whose payloads end at [B] or before. *)
Lemma stage_sim_bounded enf env p f l st now path off len actor pt against B :
  store_inv p f l -> (enf = true -> forall i, mode_now (env i) = SEMANTICS_AR_MODE_ENFORCE) ->
  (forall i, env_ok (env i)) -> rebuilds env p -> 0 <= off -> off + len < 2 ^ 64 ->
  Z.of_nat (length pt) < 2 ^ 32 - 16 -> is_bytes pt -> 0 <= B -> 0 <= len -> bounded B p -> B + 16 * len < 2 ^ 64 ->
  let a := call_args st now path off actor pt against in
  exists res p' f' l', SarPreserveStage env p f st now path off len actor pt against = Ret (res, p', f') /\
    staged enf a len (retention_100ns p) res l l' /\
    store_inv p' f' l' /\ (hw_covers p -> hw_covers p') /\ bounded (B + 16 * len) p' /\
    ((forall i, mode_now (env i) = SEMANTICS_AR_MODE_ENFORCE) -> canonical path ->
     Z.of_nat (length pt) = len -> 0 < len ->
     made a (off + len) (a_fresh now (retention_100ns p) l) l' /\
     grown now (sar_preserve_evict_aged (records p) now (retention_100ns p)).2 (records p') /\
     (fine res -> forall x, off <= x < off + len -> covered_at (records p') path x)).
Proof using DFL ACL.
  intros Hi Henf He Hrb Ho Hol Hl Hby HB Hlen0 Hbd HBl a. unfold SarPreserveStage.
  pose proof (bounded_weaken B (B + 16 * len) p ltac:(lia) Hbd) as Hbw.
  rewrite (si_ready _ _ _ Hi). cbn [negb].
  destruct (Z.eqb_spec (Z.of_nat (length pt)) 0) as [Hz|Hz]; cbn [orb].
  { exists SAR_STAGE_STORED, p, f, l. split_and!; try done; [|lia].
    split; cbn [Plaintext Offset call_args a]; [|lia]. destruct (Z.ltb_spec 0 len), (Z.eqb_spec (Z.of_nat (length pt)) len); done || lia. }
  destruct (Z.eqb_spec len 0) as [|Hnz].
  { exists SAR_STAGE_STORED, p, f, l. split_and!; try done; [|lia].
    split; cbn [Plaintext Offset call_args a]; [|lia]. by destruct (Z.ltb_spec 0 len); [lia|]. }
  destruct (Z.eqb_spec (Z.of_nat (length pt)) len) as [Hlen|Hne]; cbn [negb].
  2: { exists SAR_STAGE_FAILED, p, f, l. split_and!; try done. split; cbn [Plaintext Offset call_args a]; [|done].
       destruct (Z.eqb_spec (Z.of_nat (length pt)) len); [done|]. by rewrite andb_false_r. }
  pose proof (aged_sim now p f l Hi) as Ha. destruct (sar_preserve_evict_aged _ _ _) as [n rs] eqn:Hev.
  pose proof (frame_removed n rs p) as Hfr. pose proof (removed_records_eq n rs p) as Hrs.
  specialize (Ha _ Hfr Hrs). fold (a_fresh now (retention_100ns p) l) in Ha.
  set (p1 := removed_records (n, rs) p) in *. set (l1 := a_fresh _ _ l) in *.
  assert (Hsub : sublist (records p1) (records p)).
  { rewrite Hrs. unfold sar_preserve_evict_aged in Hev. rewrite compact_spec in Hev.
    injection Hev as _ <-. apply filter_sublist. }
  rewrite u64_small by (unfold is_u; lia). fold (call_args st now path off actor pt against). fold a.
  destruct (loop_sim enf (S (Z.to_nat len)) env 0 a p1 f l1 off (off + len) false B)
    as (res&st'&p'&f'&l'&->&Hl'&Hi'&Hw'&Hb'&Hcv); try done.
  - split; simpl; lia || done.
  - destruct Hrb as [Hc|Hc]; [left; by eapply hw_covers_frame|by right].
  - by eapply bounded_frame.
  - replace (off + len - off) with len by lia. lia.
  - lia.
  - cbn [cbind]. set (result := match res with SAR_STAGE_STORED => _ | _ => _ end).
    assert (Hcov : (forall i, mode_now (env i) = SEMANTICS_AR_MODE_ENFORCE) -> canonical path -> fine result ->
      forall x, off <= x < off + len -> covered_at (records p') path x).
    { intros Hm Hcan Hres. destruct (Hcv Hm) as [_ Hcv']. destruct (Hcv' Hcan) as (_&Hc&Hns).
      destruct res; try done; [by apply Hc|by destruct Hres..]. }
    exists result, p', f', l'. split; [done|]. split_and!; [|done| | |].
    + split; cbn [Plaintext Offset stage_now call_args a].
      * rewrite Hlen, Z.eqb_refl. destruct (Z.ltb_spec 0 len); [exact Hl'|lia].
      * intros He' Hres Hcan _ x Hx. apply (covered_rep p' f'); [done|]. by apply Hcov; auto.
    + intros Hc. apply Hw'. by eapply hw_covers_frame.
    + replace len with (off + len - off) by lia. apply Hb'. lia.
    + intros Hm Hcan _ _. destruct (Hcv Hm) as [Hmd Hcv']. destruct (Hcv' Hcan) as (Hpre&_&_).
      split; [done|]. split; [by rewrite Hrs in Hpre|]. by apply Hcov.
Qed.

Lemma stage_sim enf env p f l st now path off len actor pt against :
  store_inv p f l -> stage_ok env p off len pt ->
  (enf = true -> forall i, mode_now (env i) = SEMANTICS_AR_MODE_ENFORCE) ->
  exists res p' f' l', SarPreserveStage env p f st now path off len actor pt against = Ret (res, p', f') /\
    staged enf (call_args st now path off actor pt against) len (retention_100ns p) res l l' /\ store_inv p' f' l' /\
    ((forall i, mode_now (env i) = SEMANTICS_AR_MODE_ENFORCE) -> canonical path ->
     Z.of_nat (length pt) = len -> 0 < len ->
     (sar_preserve_evict_aged (records p) now (retention_100ns p)).2 `prefix_of` records p' /\
     (fine res -> forall x, off <= x < off + len -> covered_at (records p') path x)).
Proof using DFL ACL.
  intros Hi [He Hrb Ho Hl Hby (B&HB&Hbd&HBl)] Henf. destruct (Z_lt_le_dec len 0) as [Hneg|Hpos].
  - unfold SarPreserveStage. rewrite (si_ready _ _ _ Hi). cbn [negb].
    assert (Hnil : forall res, staged enf (call_args st now path off actor pt against) len (retention_100ns p) res l l).
    { intros res. split; cbn [Plaintext Offset call_args]; [|lia]. by destruct (Z.ltb_spec 0 len); [lia|]. }
    destruct (Z.eqb_spec (Z.of_nat (length pt)) 0), (Z.eqb_spec len 0); cbn [orb]; try lia.
    + exists SAR_STAGE_STORED, p, f, l. split_and!; try done. lia.
    + destruct (Z.eqb_spec (Z.of_nat (length pt)) len); [lia|]. cbn [negb].
      by exists SAR_STAGE_FAILED, p, f, l.
  - destruct (stage_sim_bounded enf env p f l st now path off len actor pt against B)
      as (res&p'&f'&l'&Heq&Hl'&Hi'&_&_&Hc); try done; try lia. exists res, p', f', l'. split_and!; [done..|].
    intros Hm Hcan Hpt Hl0. destruct (Hc Hm Hcan Hpt Hl0) as (_&Hg&Hcov). split; [by eapply grown_prefix|done].
Qed.

End Stage.

End PreserveStage.
