(* ===== verification/PreserveStore.v ===== *)
(** * The preservation store: refinement and its limits

    [cstep] collects the operations of driver/preserve.c, one critical section
    each, labelled with what it was asked.  The main theorem says that after every
    sequence of them a restoration returns exactly the bytes that the labels
    say were staged.  Concrete runs show
    where the code departs from that: a failed rebuild after loading, eviction
    within one call in AUDIT mode, and quarantine links that lose their record. *)

From stdpp Require Import relations.
From S2P Require Import Prelude Mem Format Sha256 Chain Keystore Protocol Preserve HeapSort.
From S2P Require Import DriverState DriverPreserve PreserveAlloc PreserveRefine PreserveStage.
Import Mem Layout Protocol Preserve PresRec HeapSort DriverPreserve PreserveAlloc PreserveRefine.
Import PreserveStage.
Import DriverState (NTSTATUS, NT_SUCCESS, STATUS_SUCCESS, STATUS_NOT_FOUND, STATUS_DATA_ERROR).

Module PreserveStore.

(** ** The steps *)

Section Steps.
Context {F : Type} {DF : DataFile F} {DFL : DataFileLaws F} {AC : AesCbc} {ACL : AesCbcLaws}.

(** [p'] is what loading makes of the index of [p]: the free list is not built yet. *)
Record restarted (p p' : SAR_PRESERVE) : Prop := {
  rs_records : records p' = records p;
  rs_key : store_key p' = store_key p;
  rs_free : free_ext p' = [] /\ data_high_water p' = 0 /\ free_dirty p' = true;
  rs_ready : data_handle p' = true /\ ready p' = true
}.

Inductive cstep : aop -> SAR_PRESERVE * F -> SAR_PRESERVE * F -> Prop :=
  | c_stage enf env p f st now path o n actor pt against res p' f' :
      stage_ok env p o n pt -> (enf = true -> forall i, mode_now (env i) = SEMANTICS_AR_MODE_ENFORCE) ->
      SarPreserveStage env p f st now path o n actor pt against = Ret (res, p', f') ->
      cstep (OStage enf (call_args st now path o actor pt against) n (retention_100ns p) res) (p, f) (p', f')
  | c_link p f st now path size actor id status p' :
      0 <= id < 2 ^ 64 -> 0 <= size < 2 ^ 64 ->
      SarPreserveStageLink p st now path size actor id = (status, p') ->
      cstep (OLink path size now actor id (causing_path st actor) (retention_100ns p) status) (p, f) (p', f)
  | c_reap by_ p f r p' : reap_round by_ p = Some (r, p') -> cstep (OReap by_) (p, f) (p', f)
  | c_maintain now p f : cstep (OMaintain now (retention_100ns p)) (p, f) (maintain_evict now p, f)
  | c_reconcile p f path ko kl : cstep (OReconcile path ko kl) (p, f) (reconcile_records p path ko kl, f)
  | c_promote actor p f : cstep (OPromote actor) (p, f) (SarPreservePromote p actor, f)
  | c_rename old new p f : cstep (ORename old new) (p, f) (SarPreserveRename p old new, f)
  | c_reserve n p f : cstep OReserve (p, f) ((SarPreserveReserve p n).2, f)
  | c_release n p f : cstep OReserve (p, f) (SarPreserveRelease p n, f)
  | c_budget ret cap p f : cstep OReserve (p, f) (set_budget ret cap p, f)
  | c_linkid p f : cstep OReserve (p, f) ((SarPreserveAllocLinkId p).2, f)
  | c_restart p f p' : restarted p p' -> cstep ORestart (p, f) (p', f).

(** A change of the budget, the reservation or the link counter. *)
Lemma store_inv_same p p' f l :
  store_inv p f l -> frame p p' -> records p' = records p -> store_inv p' f l.
Proof.
  intros Hi Hfr Hrs. eapply store_inv_shrink; [exact Hi|done|by rewrite Hrs|].
  rewrite Hrs. apply Hi.
Qed.

Lemma restart_sim p p' f l : store_inv p f l -> restarted p p' -> store_inv p' f l.
Proof.
  intros [Hr [Hl _ _] Ha _ _ _] [R1 R2 (R3&R4&R5) [R6 R7]]. split; rewrite ?R1, ?R2; try done.
  - split; rewrite ?R1, ?R3, ?R4; [done|lia|apply free_list_nil].
  - by right.
Qed.

Lemma cstep_sim op s s' l :
  store_inv s.1 s.2 l -> cstep op s s' -> exists l', astep op l l' /\ store_inv s'.1 s'.2 l'.
Proof using DFL ACL.
  intros Hi Hs. destruct Hs as [enf env p f st now path o n actor pt against res p' f' Hok Henf Heq|
    p f st now path size actor id status p' Hid Hsz Heq|by_ p f r p' Hr| | | | | | | | |p f p' Hre]; cbn [fst snd] in *.
  - destruct (stage_sim enf env p f l st now path o n actor pt against) as (res'&q&g&l'&He&Hl&Hq&_);
      [done..|]. rewrite Heq in He. injection He as <- <- <-. eauto.
  - pose proof (stage_link_sim p f l st now path size actor id Hi Hid Hsz) as H. by rewrite Heq in H.
  - by eapply reap_sim.
  - eexists. split; [done|]. by apply maintain_sim.
  - eexists. split; [done|]. by apply reconcile_sim.
  - eexists. split; [done|]. by apply promote_sim.
  - eexists. split; [done|]. by apply rename_sim.
  - exists l. split; [done|]. unfold SarPreserveReserve.
    repeat dif; cbn [snd]; try done. by eapply store_inv_same.
  - exists l. split; [done|]. unfold SarPreserveRelease. repeat dif; try done; by eapply store_inv_same.
  - exists l. split; [done|]. by eapply store_inv_same.
  - exists l. split; [done|]. by eapply store_inv_same.
  - exists l. split; [done|]. by eapply restart_sim.
Qed.

Lemma csteps_sim ops s s' l :
  store_inv s.1 s.2 l -> runs cstep ops s s' -> exists l', runs astep ops l l' /\ store_inv s'.1 s'.2 l'.
Proof using DFL ACL.
  revert s l. induction ops as [|op ops IH]; intros s l Hi; cbn [runs]; [intros ->; by exists l|].
  intros (t&Hst&Hts). destruct (cstep_sim op s t l Hi Hst) as (l1&Hl1&Hi1).
  destruct (IH t l1 Hi1 Hts) as (l2&Hl2&Hi2). eauto.
Qed.

(** An empty store with its data file open. *)
Definition empty_store (p : SAR_PRESERVE) : Prop :=
  records p = [] /\ free_ext p = [] /\ data_high_water p = 0 /\ data_handle p = true /\ ready p = true.

Lemma empty_store_inv p f : empty_store p -> store_inv p f [].
Proof.
  intros (Hr&Hf&Hhw&Hh&Hrd). split; rewrite ?Hr; try done.
  - split; rewrite ?Hr, ?Hf, ?Hhw; [constructor|lia|apply free_list_nil].
  - constructor.
  - left. unfold hw_covers. rewrite Hr. constructor.
Qed.

(** Property C2: the store refines the list of preserved contents.  Take any
    sequence of operations and restarts on an empty store, labelled with what was
    asked: for a staging call the path, the offset, the plaintext, the time, the
    actor and the result.  Allocations, random numbers, encryptions and writes may
    fail on the way.  The same labels build a list of entries: a staging call drops the
    expired entries and adds, for parts of its region that no entry of the file
    holds yet, entries with exactly the bytes of its plaintext at those offsets
    (in AUDIT mode entries on probation may make room); in ENFORCE mode a result of
    STORED or ALREADY_COVERED means that the whole region is held, and nothing but
    expired entries is dropped.  A restoration that the system grants returns the
    requested bytes of the first entry of the list that covers them, or what the
    quarantined file of a link gives, and STATUS_NOT_FOUND if there is none.
    Assumed of each staging call ([stage_ok]): its region is shorter than
    2^32 - 16 bytes and inside 64 bits, the payloads fit 64 bits, and the scratch
    array of the free list is granted while the high-water mark is stale after a
    restart; without it the driver overwrites payloads (rebuild_failure_overwrites). *)
Theorem preserve_store_refines ops p f p' f' :
  empty_store p -> runs cstep ops (p, f) (p', f') ->
  exists l, runs astep ops [] l /\
    forall env path o n cap, grants env -> 0 < n <= cap -> 0 <= o -> o + n < 2 ^ 64 ->
      match a_restore l path o n with
      | None => SarPreserveRestore env p' f' path o n cap = (STATUS_NOT_FOUND, [])
      | Some e =>
        match e_content e with
        | Bytes b => SarPreserveRestore env p' f' path o n cap = (STATUS_SUCCESS, slice b (o - e_off e) n)
        | Link id _ => SarPreserveRestore env p' f' path o n cap = SarPresReadLink env path id o (u32 n)
        end
      end.
Proof using DFL ACL.
  intros He Hs. destruct (csteps_sim ops (p, f) (p', f') []) as (l&Hl&Hi); [by apply empty_store_inv|done|].
  exists l. split; [done|]. intros env path o n cap Hg Hn Ho Hsum. by apply restore_refines.
Qed.

(** Staging returns for every answer of the system, and in ENFORCE
    mode it never gives up a preserved original: the records that have not
    expired stay where they are, the first copy of a byte stays the one that is
    restored, and a result of STORED or ALREADY_COVERED means that every byte of
    the region is held by a record of the file. *)
Theorem stage_enforce_covers ops env p f p0 f0 st now path off len actor pt against :
  empty_store p0 -> runs cstep ops (p0, f0) (p, f) -> stage_ok env p off len pt ->
  Z.of_nat (length pt) = len -> 0 < len -> canonical path ->
  (forall i, mode_now (env i) = SEMANTICS_AR_MODE_ENFORCE) ->
  exists res p' f', SarPreserveStage env p f st now path off len actor pt against = Ret (res, p', f') /\
    (sar_preserve_evict_aged (records p) now (retention_100ns p)).2 `prefix_of` records p' /\
    (res = SAR_STAGE_STORED \/ res = SAR_STAGE_ALREADY_COVERED ->
     forall x, off <= x < off + len -> covered_at (records p') path x).
Proof using DFL ACL.
  intros He Hs Hok Hpt Hlen Hcan Hm.
  destruct (csteps_sim ops (p0, f0) (p, f) []) as (l&_&Hi); [by apply empty_store_inv|done|].
  destruct (stage_sim true env p f l st now path off len actor pt against Hi Hok (fun _ => Hm))
    as (res&p'&f'&l'&Heq&_&_&Hc). exists res, p', f'. split; [done|]. by apply Hc.
Qed.

End Steps.

(** ** A concrete system *)

(** The data file as the list of writes to it, newest first. *)
Definition write_log : Type := list (Z * bytes).

Fixpoint log_byte (f : write_log) (x : Z) : Z :=
  match f with
  | [] => 0
  | (o, b) :: f => if (o <=? x) && (x <? o + Z.of_nat (length b)) then rd b (Z.to_nat (x - o)) else log_byte f x
  end.

#[global] Instance log_file : DataFile write_log := {
  data_write f o b := (o, b) :: f;
  data_read f o n := Some (map (fun i => log_byte f (o + Z.of_nat i)) (seq 0 n))
}.

#[global] Instance log_file_laws : DataFileLaws write_log.
Proof.
  split.
  - intros f o b _ _. simpl. f_equal. apply list_eq. intros i. rewrite list_lookup_fmap.
    destruct (decide (i < length b)%nat) as [Hi|Hi].
    + rewrite lookup_seq_lt by done. simpl.
      destruct (Z.leb_spec o (o + Z.of_nat i)), (Z.ltb_spec (o + Z.of_nat i) (o + Z.of_nat (length b))); try lia.
      simpl. replace (o + Z.of_nat i - o) with (Z.of_nat i) by lia. rewrite Nat2Z.id.
      destruct (lookup_lt_is_Some_2 b i Hi) as [y Hy]. rewrite Hy. f_equal. by apply rd_lookup.
    + rewrite lookup_seq_ge by lia. simpl. by rewrite lookup_ge_None_2 by lia.
  - intros f o n o' b x Ho Ho' Hd. simpl. intros [= <-]. f_equal. apply map_ext_in.
    intros i Hi%in_seq. destruct (Z.leb_spec o' (o + Z.of_nat i)),
      (Z.ltb_spec (o + Z.of_nat i) (o' + Z.of_nat (length b))); try done; lia.
Qed.

(** A cipher that meets the interface. *)
#[global] Instance xor_cipher : AesCbc := {
  bcrypt_encrypt key iv pt := map (Z.lxor 0x5a) pt;
  bcrypt_decrypt key iv ct := map (Z.lxor 0x5a) ct
}.

#[global] Instance xor_cipher_laws : AesCbcLaws.
Proof.
  split; simpl.
  - intros. apply length_map.
  - intros _ _ pt _ _. rewrite map_map. rewrite <- (map_id pt) at 2. apply map_ext.
    intros x. apply lxor_cancel_l.
Qed.

(** An open, empty store with room for [cap] bytes. *)
Definition demo_store (cap : Z) : SAR_PRESERVE :=
  {| records := []; record_capacity := SAR_PRESERVE_RECORD_CAPACITY; free_ext := [];
     free_capacity := SAR_PRESERVE_RECORD_CAPACITY + 1; data_high_water := 0; free_dirty := false;
     data_handle := true; store_key := replicate 32 1; mac_key := replicate 32 2; have_key := true;
     generation := 0;
     anchor := {| anchor_present := false; anchor_generation := 0; anchor_head_mac := replicate 32 0 |};
     retention_100ns := 100; capacity_bytes := cap; reserved_bytes := 0; ready := true; dirty := false;
     next_link_id := 1 |}.

Definition crypt_granted : crypt_env :=
  {| key_alloc := true; key_status := STATUS_SUCCESS; cipher_status := STATUS_SUCCESS |}.

(** Everything is granted but, when [rebuild] is false, the scratch array. *)
Definition demo_env (rebuild : bool) : stage_env :=
  {| mode_now := SEMANTICS_AR_MODE_ENFORCE; random_iv := Some (replicate 16 7); ct_alloc := true;
     pad_alloc := true; crypt := crypt_granted; rebuild_alloc := rebuild; write_status := STATUS_SUCCESS |}.

Definition restore_granted : restore_env :=
  {| bufs_alloc := true; read_status := STATUS_SUCCESS; rcrypt := crypt_granted;
     link_read := fun _ _ _ => (STATUS_NOT_FOUND, []) |}.

Definition demo_text : bytes := [1; 2; 3; 4; 5; 6; 7; 8; 9; 10; 11; 12; 13; 14; 15; 16; 17; 18; 19; 20].
Definition other_path : list Z := [67; 58; 92; 98] ++ replicate 256 0.

Lemma demo_stage_ok rebuild cap : stage_ok (fun _ => demo_env rebuild) (demo_store cap) 0 20 demo_text.
Proof.
  split; try done.
  - intros _ v [= <-]. split; [done|by apply forall_u_check].
  - left. constructor.
  - by apply forall_u_check.
  - exists 0. split_and!; [done| |done]. split; [done|constructor].
Qed.

Lemma demo_empty cap : empty_store (demo_store cap).
Proof. by repeat split. Qed.

(** The store and the data file a staging call leaves. *)
Definition store_of (r : cres (SAR_STAGE_RESULT * SAR_PRESERVE * write_log)) : SAR_PRESERVE :=
  match r with Ret (_, p, _) => p | _ => demo_store 0 end.
Definition file_of (r : cres (SAR_STAGE_RESULT * SAR_PRESERVE * write_log)) : write_log :=
  match r with Ret (_, _, f) => f | _ => [] end.

(** Staging [demo_text]. *)
Definition demo_staged : cres (SAR_STAGE_RESULT * SAR_PRESERVE * write_log) :=
  SarPreserveStage (fun _ => demo_env true) (demo_store 4096) ([] : write_log) None 5 demo_path 0 20 9 demo_text false.

Definition demo_op : aop := OStage true (call_args None 5 demo_path 0 9 demo_text false) 20 100 SAR_STAGE_STORED.

Lemma demo_staged_eq : demo_staged = Ret (SAR_STAGE_STORED, store_of demo_staged, file_of demo_staged).
Proof.
  assert (Hv : match demo_staged with Ret (r, _, _) => r = SAR_STAGE_STORED | _ => False end) by (vm_compute; reflexivity).
  destruct demo_staged as [[[res p] f]| |]; [by rewrite Hv|done|done].
Qed.

Lemma demo_run :
  runs cstep [demo_op] (demo_store 4096, [] : write_log) (store_of demo_staged, file_of demo_staged).
Proof.
  exists (store_of demo_staged, file_of demo_staged). split; [|exact eq_refl].
  exact (c_stage true (fun _ => demo_env true) (demo_store 4096) [] None 5 demo_path 0 20 9 demo_text false
    SAR_STAGE_STORED (store_of demo_staged) (file_of demo_staged) (demo_stage_ok _ _) (fun _ _ => eq_refl)
    demo_staged_eq).
Qed.

Lemma demo_no_link path id o n : NT_SUCCESS (SarPresReadLink restore_granted path id o n).1 = false.
Proof. unfold SarPresReadLink. by destruct (SarPreserveQuarantinePaths _ _ _ _) as [[? link]|]. Qed.

(** Staging twenty bytes and restoring six of them. *)
Lemma preserve_store_refines_witness :
  exists l e b, runs astep [demo_op] [] l /\ a_restore l demo_path 4 6 = Some e /\ e_content e = Bytes b /\
    slice b (4 - e_off e) 6 = [5; 6; 7; 8; 9; 10].
Proof.
  destruct (preserve_store_refines [demo_op] (demo_store 4096) ([] : write_log) _ _ (demo_empty _) demo_run) as (l&Hl&Hr).
  specialize (Hr restore_granted demo_path 4 6 64 ltac:(done) ltac:(lia) ltac:(lia) ltac:(lia)).
  assert (Hv : SarPreserveRestore restore_granted (store_of demo_staged) (file_of demo_staged) demo_path 4 6 64 =
    (STATUS_SUCCESS, [5; 6; 7; 8; 9; 10])) by (vm_compute; reflexivity).
  rewrite Hv in Hr. clear Hv. destruct (a_restore l demo_path 4 6) as [e|] eqn:Ha; [|discriminate Hr].
  destruct (e_content e) as [b|id size] eqn:He.
  - exists l, e, b. split; [exact Hl|]. split; [exact Ha|]. split; [exact He|]. by injection Hr.
  - exfalso. apply (f_equal (fun r => NT_SUCCESS r.1)) in Hr. rewrite demo_no_link in Hr. discriminate Hr.
Defined.

Lemma stage_enforce_covers_witness :
  exists res p' f', SarPreserveStage (fun _ => demo_env true) (demo_store 4096) ([] : write_log) None 5
      demo_path 0 20 9 demo_text false = Ret (res, p', f') /\
    (res = SAR_STAGE_STORED \/ res = SAR_STAGE_ALREADY_COVERED -> covered_at (records p') demo_path 19).
Proof.
  destruct (stage_enforce_covers [] (fun _ => demo_env true) (demo_store 4096) ([] : write_log)
    (demo_store 4096) [] None 5 demo_path 0 20 9 demo_text false (demo_empty _) eq_refl
    (demo_stage_ok _ _) eq_refl ltac:(lia) ltac:(by vm_compute) (fun _ => eq_refl)) as (res&p'&f'&Heq&_&Hc).
  exists res, p', f'. split; [done|]. intros Hres. apply Hc; [done|lia].
Defined.

(** ** A failed rebuild after loading *)

(** What loading makes of the index of [p]. *)
Definition reload (p : SAR_PRESERVE) : SAR_PRESERVE := set_free [] 0 true p.

(** A region is staged, and the driver is restarted.  When the
    scratch array for rebuilding the free list cannot be allocated, staging
    another file in ENFORCE mode reports STORED, and its payload overwrites the
    first region: restoring the first file fails from then on. *)
Theorem rebuild_failure_overwrites :
  exists p1 f1 p2 f2,
    SarPreserveStage (fun _ => demo_env true) (demo_store 4096) ([] : write_log) None 5 demo_path 0 16 9
      (take 16 demo_text) false = Ret (SAR_STAGE_STORED, p1, f1) /\
    restarted p1 (reload p1) /\
    SarPreserveRestore restore_granted (reload p1) f1 demo_path 0 16 16 = (STATUS_SUCCESS, take 16 demo_text) /\
    SarPreserveStage (fun _ => demo_env false) (reload p1) f1 None 6 other_path 0 20 9 (reverse demo_text) false
      = Ret (SAR_STAGE_STORED, p2, f2) /\
    SarPreserveRestore restore_granted p2 f2 demo_path 0 16 16 = (STATUS_DATA_ERROR, []).
Proof.
  set (s1 := SarPreserveStage (fun _ => demo_env true) (demo_store 4096) ([] : write_log) None 5 demo_path 0 16 9
    (take 16 demo_text) false).
  set (s2 := SarPreserveStage (fun _ => demo_env false) (reload (store_of s1)) (file_of s1) None 6 other_path
    0 20 9 (reverse demo_text) false).
  exists (store_of s1), (file_of s1), (store_of s2), (file_of s2). split_and!.
  - vm_compute. reflexivity.
  - by split.
  - vm_compute. reflexivity.
  - vm_compute. reflexivity.
  - vm_compute. reflexivity.
Qed.

(** ** Links that lose their record *)

Definition volume_path : list Z := [92; 68; 92; 86; 92; 97] ++ replicate 254 0.

(** When a link record has expired, the maintenance thread removes
    it and deletes the quarantined file; but when another file is staged first,
    staging drops the record, and the file is never deleted. *)
Theorem stage_orphans_quarantine :
  exists p link p' f',
    (SarPreserveStageLink (demo_store 4096) None 5 volume_path 100 9 1).2 = p /\
    SarPresUnlinkQuarantine volume_path 1 = Some link /\
    (match SarPresMaintain 1000 p with Ret (q, deleted) => records q = [] /\ deleted = [link] | _ => False end) /\
    SarPreserveStage (fun _ => demo_env true) p ([] : write_log) None 1000 demo_path 0 16 9
      (take 16 demo_text) false = Ret (SAR_STAGE_STORED, p', f') /\
    Forall (fun r => kind r = SAR_PRESERVE_KIND_BYTERANGE) (records p') /\
    (match SarPresMaintain 2000 p' with Ret (_, deleted) => deleted = [] | _ => False end).
Proof.
  set (p := (SarPreserveStageLink (demo_store 4096) None 5 volume_path 100 9 1).2).
  set (s := SarPreserveStage (fun _ => demo_env true) p ([] : write_log) None 1000 demo_path 0 16 9
    (take 16 demo_text) false).
  exists p, (default [] (SarPresUnlinkQuarantine volume_path 1)), (store_of s), (file_of s). split_and!.
  - done.
  - vm_compute. reflexivity.
  - vm_compute. by split.
  - vm_compute. reflexivity.
  - vm_compute. by constructor.
  - vm_compute. reflexivity.
Qed.

End PreserveStore.
