(* ===== verification/StoreIo.v ===== *)
(** * Store files (driver/store_io.c)

    Reading a store file whole, and replacing one atomically: write a temporary
    file, flush it, rename it over the old one.  A write is modelled as the
    sequence of disk operations it issues, so that a crash between or within
    them is a state of the model; the theorem is that a reader then finds the
    old content or the new one. *)

From Stdlib Require Import String.
From stdpp Require Import strings gmap.
From S2P Require Import Prelude Mem Format Protocol Handshake Whitelist CipherCommon EventLog DriverState.
Import DriverState (NTSTATUS, NT_SUCCESS, STATUS_SUCCESS, STATUS_INSUFFICIENT_RESOURCES,
  STATUS_FILE_TOO_LARGE, STATUS_OBJECT_NAME_NOT_FOUND).

(** What the store files ask of the file system. *)
Class StoreFiles (FS : Type) := {
  fs_get : FS -> string -> option bytes;
  fs_set : FS -> string -> bytes -> FS;
  fs_rename : FS -> string -> string -> FS
}.

(** Files are independent, and a rename replaces its target in one step. *)
Class StoreFilesLaws (FS : Type) `{StoreFiles FS} : Prop := {
  fs_get_set fs a b : fs_get (fs_set fs a b) a = Some b;
  fs_get_set_ne fs a b x : x <> a -> fs_get (fs_set fs a b) x = fs_get fs x;
  fs_get_rename fs a b x : fs_get fs a = Some x -> fs_get (fs_rename fs a b) b = Some x;
  fs_get_rename_ne fs a b x : x <> a -> x <> b -> fs_get (fs_rename fs a b) x = fs_get fs x
}.

Module StoreIo.

(** Operations on the disk: truncating or creating a file, writing its content,
    forcing it to the disk, renaming it. *)
Inductive disk_op :=
  | Overwrite (path : string)
  | Write (path : string) (buf : bytes)
  | Flush (path : string)
  | Rename (tmp final : string).

(** The answers of the system to [SarStoreWriteAtomic], with what a failed write
    leaves in the file. *)
Record write_env := {
  create_status : NTSTATUS;
  file_write_status : NTSTATUS;
  partial : bytes;
  flush_status : NTSTATUS;
  open_status : NTSTATUS;
  info_alloc : bool;
  rename_status : NTSTATUS
}.

(** The status and the operations issued. *)
Definition SarStoreWriteRaw (env : write_env) (Path : string) (Buf : bytes) : NTSTATUS * list disk_op :=
  if negb (NT_SUCCESS (create_status env)) then (create_status env, [])
  else if negb (NT_SUCCESS (file_write_status env))
  then (file_write_status env, [Overwrite Path; Write Path (partial env)])
  else if negb (NT_SUCCESS (flush_status env)) then (flush_status env, [Overwrite Path; Write Path Buf])
  else (STATUS_SUCCESS, [Overwrite Path; Write Path Buf; Flush Path]).

Definition SarStoreRename (env : write_env) (Tmp Final : string) : NTSTATUS * list disk_op :=
  if negb (NT_SUCCESS (open_status env)) then (open_status env, [])
  else if negb (info_alloc env) then (STATUS_INSUFFICIENT_RESOURCES, [])
  else if negb (NT_SUCCESS (rename_status env)) then (rename_status env, [])
  else (STATUS_SUCCESS, [Rename Tmp Final; Flush Final]).

Definition SarStoreWriteAtomic (env : write_env) (Tmp Final : string) (Buf : bytes)
    : NTSTATUS * list disk_op :=
  let '(status, ops) := SarStoreWriteRaw env Tmp Buf in
  if negb (NT_SUCCESS status) then (status, ops)
  else
    let '(status, ops') := SarStoreRename env Tmp Final in
    (status, ops ++ ops').

(** The answers of the system to [SarStoreReadAll]. *)
Record read_env := {
  ropen_status : NTSTATUS;
  query_status : NTSTATUS;
  rbuf_alloc : bool;
  file_read_status : NTSTATUS
}.

Section Disk.
Context {FS : Type} {SF : StoreFiles FS} {SFL : StoreFilesLaws FS}.

(** The status and [*OutBuf] with its length ([None] is NULL). *)
Definition SarStoreReadAll (env : read_env) (fs : FS) (Path : string) (MaxBytes : Z)
    : NTSTATUS * option bytes :=
  match fs_get fs Path with
  | None => (STATUS_OBJECT_NAME_NOT_FOUND, None)
  | Some b =>
    if negb (NT_SUCCESS (ropen_status env)) then (ropen_status env, None)
    else if negb (NT_SUCCESS (query_status env)) then (query_status env, None)
    else if Z.of_nat (length b) =? 0 then (STATUS_SUCCESS, None)
    else if MaxBytes <? Z.of_nat (length b) then (STATUS_FILE_TOO_LARGE, None)
    else if negb (rbuf_alloc env) then (STATUS_INSUFFICIENT_RESOURCES, None)
    else if negb (NT_SUCCESS (file_read_status env)) then (file_read_status env, None)
    else (STATUS_SUCCESS, Some b)
  end.

Definition run_op (fs : FS) (op : disk_op) : FS :=
  match op with
  | Overwrite p => fs_set fs p []
  | Write p b => fs_set fs p b
  | Flush _ => fs
  | Rename a b => fs_rename fs a b
  end.

Definition run_ops (fs : FS) (ops : list disk_op) : FS := fold_left run_op ops fs.

(** The disk after a crash while [ops] run: some of them took effect, and a write
    that was not flushed may have left anything in its file. *)
Inductive crashed : list disk_op -> FS -> FS -> Prop :=
  | crash_here ops fs : crashed ops fs fs
  | crash_torn p b ops fs junk : crashed (Write p b :: ops) fs (fs_set fs p junk)
  | crash_later op ops fs fs' : crashed ops (run_op fs op) fs' -> crashed (op :: ops) fs fs'.

Lemma crashed_run ops fs : crashed ops fs (run_ops fs ops).
Proof. revert fs. induction ops as [|op ops IH]; intros fs; [constructor|]. apply crash_later, IH. Qed.

(** Operations on one file leave the others alone. *)
Definition op_only (p : string) (op : disk_op) : Prop :=
  match op with
  | Overwrite q | Write q _ | Flush q => q = p
  | Rename _ _ => False
  end.

Lemma crashed_only p ops fs fs' x :
  Forall (op_only p) ops -> x <> p -> crashed ops fs fs' -> fs_get fs' x = fs_get fs x.
Proof using SFL.
  intros Ho Hx Hc. induction Hc as [ops fs|q b ops fs junk|op ops fs fs' _ IH]; [done| |].
  - inversion Ho as [|? ? Hq]; subst. simpl in Hq. subst. by apply fs_get_set_ne.
  - inversion Ho as [|? ? Hq Ho']; subst. rewrite IH by done.
    destruct op; simpl in *; subst; try done; by apply fs_get_set_ne.
Qed.

Lemma crashed_app ops1 ops2 fs fs' :
  crashed (ops1 ++ ops2) fs fs' -> crashed ops1 fs fs' \/ crashed ops2 (run_ops fs ops1) fs'.
Proof.
  revert fs. induction ops1 as [|op ops1 IH]; intros fs Hc; [by right|].
  cbn [app] in Hc. inversion Hc as [| |? ? ? ? Hc']; subst.
  - left. constructor.
  - left. constructor.
  - destruct (IH _ Hc') as [H|H]; [left; by constructor|by right].
Qed.

Lemma write_raw_only env p buf : Forall (op_only p) (SarStoreWriteRaw env p buf).2.
Proof. unfold SarStoreWriteRaw. repeat dif; simpl; by repeat constructor. Qed.

Lemma write_raw_ok env p buf fs :
  NT_SUCCESS (SarStoreWriteRaw env p buf).1 = true ->
  fs_get (run_ops fs (SarStoreWriteRaw env p buf).2) p = Some buf.
Proof using SFL.
  unfold SarStoreWriteRaw. destruct (NT_SUCCESS (create_status env)) eqn:E1; cbn [negb]; [|simpl; congruence].
  destruct (NT_SUCCESS (file_write_status env)) eqn:E2; cbn [negb]; [|simpl; congruence].
  destruct (NT_SUCCESS (flush_status env)) eqn:E3; cbn [negb]; [|simpl; congruence].
  intros _. simpl. apply fs_get_set.
Qed.

(** During a rename the target has its old content or that of the source. *)
Lemma rename_crashed env tmp final buf fs fs' x :
  tmp <> final -> fs_get fs tmp = Some buf -> crashed (SarStoreRename env tmp final).2 fs fs' ->
  (x <> tmp -> x <> final -> fs_get fs' x = fs_get fs x) /\
  (fs_get fs' final = fs_get fs final \/ fs_get fs' final = Some buf) /\
  (NT_SUCCESS (SarStoreRename env tmp final).1 = false -> fs_get fs' final = fs_get fs final).
Proof using SFL.
  intros Hne Hb. unfold SarStoreRename.
  destruct (NT_SUCCESS (open_status env)) eqn:E1; cbn [negb fst snd].
  2: { intros Hc. inversion Hc; subst. auto. }
  destruct (info_alloc env); cbn [negb fst snd]; [|intros Hc; inversion Hc; subst; auto].
  destruct (NT_SUCCESS (rename_status env)) eqn:E2; cbn [negb fst snd].
  2: { intros Hc. inversion Hc; subst. auto. }
  intros Hc. inversion Hc as [| |? ? ? ? Hc']; subst; [by auto|].
  assert (fs' = fs_rename fs tmp final) as ->.
  { inversion Hc' as [| |? ? ? ? Hc'']; subst; [done|]. by inversion Hc''. }
  split_and!; [intros; by apply fs_get_rename_ne|right; by apply fs_get_rename|done].
Qed.

(** Everything a crash, or the end, of an atomic write can leave. *)
Lemma write_atomic_crashed env tmp final buf fs fs' :
  tmp <> final -> crashed (SarStoreWriteAtomic env tmp final buf).2 fs fs' ->
  (forall x, x <> tmp -> x <> final -> fs_get fs' x = fs_get fs x) /\
  (fs_get fs' final = fs_get fs final \/ fs_get fs' final = Some buf) /\
  (NT_SUCCESS (SarStoreWriteAtomic env tmp final buf).1 = false -> fs_get fs' final = fs_get fs final).
Proof using SFL.
  intros Hne. unfold SarStoreWriteAtomic.
  pose proof (write_raw_only env tmp buf) as Ho. pose proof (write_raw_ok env tmp buf fs) as Hok.
  destruct (SarStoreWriteRaw env tmp buf) as [st ops] eqn:Hraw. cbn [fst snd] in *.
  assert (Hraw' : forall fs', crashed ops fs fs' -> forall x, x <> tmp -> fs_get fs' x = fs_get fs x)
    by (intros f Hf x Hx; by eapply crashed_only).
  destruct (NT_SUCCESS st) eqn:Est; cbn [negb].
  2: { intros Hc. split_and!; [intros; by apply Hraw'|left; by apply Hraw'|intros _; by apply Hraw']. }
  pose proof (fun x => rename_crashed env tmp final buf (run_ops fs ops) fs' x Hne (Hok eq_refl)) as Hren.
  destruct (SarStoreRename env tmp final) as [st' ops'] eqn:Hrn. cbn [fst snd] in *.
  intros [Hc|Hc]%crashed_app.
  - split_and!; [intros; by apply Hraw'|left; by apply Hraw'|intros _; by apply Hraw'].
  - pose proof (Hraw' _ (crashed_run ops fs)) as Hr0.
    destruct (Hren tmp Hc) as (_&H2&H3). rewrite (Hr0 final) in H2, H3 by done.
    split_and!; [|done|done]. intros x Hx Hxf. destruct (Hren x Hc) as (H1&_&_).
    rewrite H1 by done. by apply Hr0.
Qed.

Lemma write_atomic_ok env tmp final buf fs :
  tmp <> final -> NT_SUCCESS (SarStoreWriteAtomic env tmp final buf).1 = true ->
  fs_get (run_ops fs (SarStoreWriteAtomic env tmp final buf).2) final = Some buf.
Proof using SFL.
  intros Hne. unfold SarStoreWriteAtomic. pose proof (write_raw_ok env tmp buf fs) as Hok.
  destruct (SarStoreWriteRaw env tmp buf) as [st ops]. cbn [fst snd] in *.
  destruct (NT_SUCCESS st) eqn:Est; cbn [negb fst snd]; [|congruence].
  unfold SarStoreRename.
  destruct (NT_SUCCESS (open_status env)) eqn:E1; cbn [negb fst snd]; [|congruence].
  destruct (info_alloc env); cbn [negb fst snd]; [|done].
  destruct (NT_SUCCESS (rename_status env)) eqn:E2; cbn [negb fst snd]; [|congruence].
  intros _. unfold run_ops in *. rewrite fold_left_app. simpl. by apply fs_get_rename, Hok.
Qed.

(** Replacing a store file is atomic.  Whenever the machine crashes
    during the call, and whatever fails, a reader of the file finds its old
    content or the complete new one, no other file but the temporary one
    changes, and a call that reports an error has changed nothing. *)
Theorem store_write_atomic env tmp final buf fs fs' :
  tmp <> final -> crashed (SarStoreWriteAtomic env tmp final buf).2 fs fs' ->
  (forall x, x <> tmp -> x <> final -> fs_get fs' x = fs_get fs x) /\
  (fs_get fs' final = fs_get fs final \/ fs_get fs' final = Some buf) /\
  (NT_SUCCESS (SarStoreWriteAtomic env tmp final buf).1 = false -> fs_get fs' final = fs_get fs final) /\
  (NT_SUCCESS (SarStoreWriteAtomic env tmp final buf).1 = true ->
   fs_get (run_ops fs (SarStoreWriteAtomic env tmp final buf).2) final = Some buf).
Proof using SFL.
  intros Hne Hc. destruct (write_atomic_crashed env tmp final buf fs fs' Hne Hc) as (H1&H2&H3).
  split_and!; [done|done|done|]. by apply write_atomic_ok.
Qed.

End Disk.

(** ** Files as a finite map *)

#[global] Instance map_files : StoreFiles (gmap string bytes) := {
  fs_get fs a := fs !! a;
  fs_set fs a b := <[a := b]> fs;
  fs_rename fs a b := match fs !! a with Some x => <[b := x]> (delete a fs) | None => fs end
}.

#[global] Instance map_files_laws : StoreFilesLaws (gmap string bytes).
Proof.
  split; simpl.
  - intros. apply lookup_insert_eq.
  - intros. by apply lookup_insert_ne.
  - intros fs a b x ->. apply lookup_insert_eq.
  - intros fs a b x Ha Hb. destruct (fs !! a); [|done].
    rewrite lookup_insert_ne by done. by apply lookup_delete_ne.
Qed.

Definition write_granted : write_env :=
  {| create_status := STATUS_SUCCESS; file_write_status := STATUS_SUCCESS; partial := [];
     flush_status := STATUS_SUCCESS; open_status := STATUS_SUCCESS; info_alloc := true;
     rename_status := STATUS_SUCCESS |}.

Definition read_granted : read_env :=
  {| ropen_status := STATUS_SUCCESS; query_status := STATUS_SUCCESS; rbuf_alloc := true;
     file_read_status := STATUS_SUCCESS |}.

Lemma store_write_atomic_witness :
  fs_get (run_ops (<["f" := [1]]> ∅ : gmap string bytes)
    (SarStoreWriteAtomic write_granted "f.tmp" "f" [2; 3]).2) "f" = Some [2; 3].
Proof.
  by apply (store_write_atomic write_granted "f.tmp" "f" [2; 3] (<["f" := [1]]> ∅) (<["f" := [1]]> ∅));
    [|apply crash_here|].
Defined.

End StoreIo.
