(* ===== verification/KeystorePersist.v ===== *)
(** * The keystore on disk (driver/keystore_persist.c)

    The captured keys in memory, the thread that persists them, and loading at
    start-up.  The ledger and the file with the MAC key and the rollback anchor
    are replaced one after the other; the theorem is that a crash at any point
    leaves a pair of files that loads to the old ledger or to the new one,
    without a tamper alarm. *)

From Stdlib Require Import String.
From stdpp Require Import strings gmap.
From S2P Require Import Prelude Mem Format Sha256 Chain Store Keystore Protocol Handshake Whitelist.
From S2P Require Import CipherCommon EventLog DriverState StoreIo.
Import Mem Layout KsRec Keystore KeystoreMgr StoreIo.
Import DriverState (NTSTATUS, NT_SUCCESS, STATUS_SUCCESS, STATUS_INSUFFICIENT_RESOURCES,
  STATUS_OBJECT_NAME_NOT_FOUND, STATUS_OBJECT_PATH_NOT_FOUND).

Module KeystorePersist.

Definition SAR_KS_FILE : string := "\SystemRoot\System32\drivers\SemanticsAr\keystore.bin".
Definition SAR_KS_TMP : string := "\SystemRoot\System32\drivers\SemanticsAr\keystore.tmp".
Definition SAR_KS_KEYFILE : string := "\SystemRoot\System32\drivers\SemanticsAr\mackey.bin".
Definition SAR_KS_KEYTMP : string := "\SystemRoot\System32\drivers\SemanticsAr\mackey.tmp".
Definition SAR_KS_MAX_FILE : Z := 64 * 1024 * 1024.
Definition SAR_KEYSTORE_CAPACITY : Z := 16384.
Definition SAR_MACKEY_MAGIC : Z := 0x314B4D53.
Definition SAR_MACKEY_VERSION : Z := 1.

(** ** The key file *)

Record SAR_MACKEY_BLOB := {
  b_magic : Z;
  b_version : Z;
  b_mac_key : bytes;
  b_anchor_present : Z;
  b_reserved : bytes;
  b_anchor_generation : Z;
  b_anchor_head_mac : bytes
}.

Definition blob_codec : codec SAR_MACKEY_BLOB :=
  c_iso (c_pair (c_uint 4) (c_pair (c_uint 4) (c_pair (c_bytes 32) (c_pair (c_uint 1)
          (c_pair (c_bytes 7) (c_pair (c_uint 8) (c_bytes 32)))))))
    (fun b => (b_magic b, (b_version b, (b_mac_key b, (b_anchor_present b,
                (b_reserved b, (b_anchor_generation b, b_anchor_head_mac b)))))))
    (fun '(a, (b, (c, (d, (e, (f, g)))))) => Build_SAR_MACKEY_BLOB a b c d e f g).

#[global] Instance blob_packed : Packed SAR_MACKEY_BLOB.
Proof.
  refine {| layout := blob_codec; layout_ok := c_iso_ok _ _ _ _ _ _ |}.
  - by intros (?&?&?&?&?&?&?).
  - by intros [].
Defined.

Definition SarKsFillBlob (MacKey : bytes) (Anchor : sar_keystore_anchor_t) : SAR_MACKEY_BLOB :=
  {| b_magic := SAR_MACKEY_MAGIC; b_version := SAR_MACKEY_VERSION; b_mac_key := MacKey;
     b_anchor_present := if anchor_present Anchor then 1 else 0;
     b_reserved := replicate 7 0; b_anchor_generation := anchor_generation Anchor;
     b_anchor_head_mac := anchor_head_mac Anchor |}.

(** ** State *)

Record SAR_KEYSTORE := {
  records : list semantics_ar_keystore_record_t;
  record_capacity : Z;
  mac_key : bytes;
  have_key : bool;
  generation : Z;
  anchor : sar_keystore_anchor_t;
  ready : bool;
  dirty : bool;
  thread_started : bool;
  keystore_persistent : bool;
  keystore_tamper_detected : bool
}.

Definition zero_anchor : sar_keystore_anchor_t :=
  {| anchor_present := false; anchor_generation := 0;
     anchor_head_mac := replicate SEMANTICS_AR_MAC_SIZE 0 |}.

Definition set_key (k : bytes) (a : sar_keystore_anchor_t) (ks : SAR_KEYSTORE) : SAR_KEYSTORE :=
  {| records := records ks; record_capacity := record_capacity ks; mac_key := k; have_key := true;
     generation := generation ks; anchor := a; ready := ready ks; dirty := dirty ks;
     thread_started := thread_started ks; keystore_persistent := keystore_persistent ks;
     keystore_tamper_detected := keystore_tamper_detected ks |}.
Definition set_table (rs : list semantics_ar_keystore_record_t) (g : Z) (a : sar_keystore_anchor_t)
    (ks : SAR_KEYSTORE) : SAR_KEYSTORE :=
  {| records := rs; record_capacity := record_capacity ks; mac_key := mac_key ks;
     have_key := have_key ks; generation := g; anchor := a; ready := ready ks; dirty := dirty ks;
     thread_started := thread_started ks; keystore_persistent := keystore_persistent ks;
     keystore_tamper_detected := keystore_tamper_detected ks |}.
Definition set_dirty (d : bool) (ks : SAR_KEYSTORE) : SAR_KEYSTORE :=
  {| records := records ks; record_capacity := record_capacity ks; mac_key := mac_key ks;
     have_key := have_key ks; generation := generation ks; anchor := anchor ks; ready := ready ks;
     dirty := d; thread_started := thread_started ks; keystore_persistent := keystore_persistent ks;
     keystore_tamper_detected := keystore_tamper_detected ks |}.
Definition set_posture (persistent tamper : bool) (ks : SAR_KEYSTORE) : SAR_KEYSTORE :=
  {| records := records ks; record_capacity := record_capacity ks; mac_key := mac_key ks;
     have_key := have_key ks; generation := generation ks; anchor := anchor ks; ready := ready ks;
     dirty := dirty ks; thread_started := thread_started ks; keystore_persistent := persistent;
     keystore_tamper_detected := tamper |}.
Definition set_ready (started : bool) (ks : SAR_KEYSTORE) : SAR_KEYSTORE :=
  {| records := records ks; record_capacity := record_capacity ks; mac_key := mac_key ks;
     have_key := have_key ks; generation := generation ks; anchor := anchor ks; ready := true;
     dirty := dirty ks; thread_started := started; keystore_persistent := keystore_persistent ks;
     keystore_tamper_detected := keystore_tamper_detected ks |}.

(** The flags of the posture are those of a fresh driver. *)
Definition SarKeystoreCreate (alloc_ok records_ok : bool) : option SAR_KEYSTORE :=
  if alloc_ok && records_ok then
    Some {| records := []; record_capacity := SAR_KEYSTORE_CAPACITY;
            mac_key := replicate SEMANTICS_AR_MAC_SIZE 0; have_key := false; generation := 0;
            anchor := zero_anchor; ready := false; dirty := false; thread_started := false;
            keystore_persistent := false; keystore_tamper_detected := false |}
  else None.

(** ** Persisting *)

Record persist_env := {
  pbuf_alloc : bool;
  ledger_write : write_env;
  blob_write : write_env
}.

(** [later] is the number of records when the files are written: other threads
    may append in between.  The store and the disk operations. *)
Definition SarKsPersist (env : persist_env) (ks : SAR_KEYSTORE) (later : Z) : SAR_KEYSTORE * list disk_op :=
  let c := Z.of_nat (length (records ks)) in
  let need := sar_keystore_serialized_size c in
  if negb (pbuf_alloc env) then (set_dirty true ks, [])
  else
    let '(s, out_len, buf, na) :=
      sar_ksm_persist (mac_key ks) (records ks) (generation ks) (replicate (Z.to_nat need) 0) zero_anchor in
    if negb (bool_decide (s = SAR_KSM_OK)) then (set_dirty true ks, [])
    else
      let '(status, ops) := SarStoreWriteAtomic (ledger_write env) SAR_KS_TMP SAR_KS_FILE
                              (take (Z.to_nat (u32 out_len)) buf) in
      if negb (NT_SUCCESS status) then (set_dirty true ks, ops)
      else
        let ks := set_table (records ks) (anchor_generation na) na ks in
        let '(status, ops') := SarStoreWriteAtomic (blob_write env) SAR_KS_KEYTMP SAR_KS_KEYFILE
                                 (struct_bytes (SarKsFillBlob (mac_key ks) na)) in
        let ks := if negb (NT_SUCCESS status) then set_dirty true ks else ks in
        (if c <? later then set_dirty true ks else ks, ops ++ ops').

(** One round of the thread: [InterlockedExchange(&dirty, 0)] and [SarKsPersist]. *)
Definition persist_round (env : persist_env) (ks : SAR_KEYSTORE) (later : Z) : SAR_KEYSTORE * list disk_op :=
  if dirty ks then SarKsPersist env (set_dirty false ks) later else (ks, []).

(** ** Loading *)

Record load_env := {
  key_read : read_env;
  random_key : option bytes;
  first_write : write_env;
  ledger_read : read_env;
  advance_write : write_env;
  thread_create : bool;
  thread_reference : bool
}.

(** The key file, if it is one of ours. *)
Definition read_blob (kbuf : NTSTATUS * option bytes) : option SAR_MACKEY_BLOB :=
  match kbuf with
  | (status, Some k) =>
    if NT_SUCCESS status && (length k =? sizeof SAR_MACKEY_BLOB)%nat then
      let b : SAR_MACKEY_BLOB := struct_of k in
      if (b_magic b =? SAR_MACKEY_MAGIC) && (b_version b =? SAR_MACKEY_VERSION) then Some b else None
    else None
  | _ => None
  end.

Definition blob_anchor (b : SAR_MACKEY_BLOB) : sar_keystore_anchor_t :=
  {| anchor_present := negb (b_anchor_present b =? 0); anchor_generation := b_anchor_generation b;
     anchor_head_mac := b_anchor_head_mac b |}.

Section Load.
Context {FS : Type} {SF : StoreFiles FS} {SFL : StoreFilesLaws FS}.

(** The first part: the MAC key, from its file or new.  [None] is the early
    return; otherwise the store, [persist_ok] and the disk operations. *)
Definition load_key (env : load_env) (fs : FS) (ks : SAR_KEYSTORE)
    : option (SAR_KEYSTORE * bool * list disk_op) :=
  match read_blob (SarStoreReadAll (key_read env) fs SAR_KS_KEYFILE SAR_KS_MAX_FILE) with
  | Some b => Some (set_key (b_mac_key b) (blob_anchor b) ks, true, [])
  | None =>
    match random_key env with
    | None => None
    | Some k =>
      let ks := set_key k zero_anchor ks in
      let '(status, ops) := SarStoreWriteAtomic (first_write env) SAR_KS_KEYTMP SAR_KS_KEYFILE
                              (struct_bytes (SarKsFillBlob k zero_anchor)) in
      Some (ks, NT_SUCCESS status, ops)
    end
  end.

(** The second part: the ledger. *)
Definition load_ledger (env : load_env) (fs : FS) (ks : SAR_KEYSTORE) (persist_ok : bool)
    : cres (SAR_KEYSTORE * bool * list disk_op) :=
  let '(status, fbuf) := SarStoreReadAll (ledger_read env) fs SAR_KS_FILE SAR_KS_MAX_FILE in
  let missing := bool_decide (status = STATUS_OBJECT_NAME_NOT_FOUND) ||
                 bool_decide (status = STATUS_OBJECT_PATH_NOT_FOUND) in
  let fbuf := if missing || negb (NT_SUCCESS status) then None else fbuf in
  let persist_ok := if negb missing && negb (NT_SUCCESS status) then false else persist_ok in
  let! (ls, out) := sar_ksm_load fbuf (mac_key ks)
                      (if anchor_present (anchor ks) then Some (anchor ks) else None)
                      (record_capacity ks) in
  let anchored := if anchor_present (anchor ks) then anchor_generation (anchor ks) else 0 in
  match ls with
  | SAR_KSM_OK =>
    let ks := set_table (lo_records out) (lo_generation out) (lo_anchor out) ks in
    Ret (ks, persist_ok,
         if lo_advanced out && persist_ok
         then (SarStoreWriteAtomic (advance_write env) SAR_KS_KEYTMP SAR_KS_KEYFILE
                 (struct_bytes (SarKsFillBlob (mac_key ks) (lo_anchor out)))).2
         else [])
  | SAR_KSM_EMPTY => Ret (set_table [] anchored (anchor ks) ks, persist_ok, [])
  | _ => Ret (set_posture (keystore_persistent ks) true (set_table [] anchored (anchor ks) ks), persist_ok, [])
  end.

(** The store and the disk operations. *)
Definition SarKeystoreLoad (env : load_env) (fs : FS) (ks : SAR_KEYSTORE)
    : cres (SAR_KEYSTORE * list disk_op) :=
  match load_key env fs ks with
  | None => Ret (set_posture false (keystore_tamper_detected ks) ks, [])
  | Some (ks, persist_ok, ops) =>
    let! (ks, persist_ok, ops') := load_ledger env (run_ops fs ops) ks persist_ok in
    let persistent := persist_ok && thread_create env in
    Ret (set_ready (persistent && thread_reference env)
           (set_posture persistent (keystore_tamper_detected ks) ks), ops ++ ops')
  end.

End Load.

(** ** Access *)

Definition SarKeystoreReady (ks : option SAR_KEYSTORE) : bool :=
  match ks with Some ks => ready ks | None => false end.

(** The result, the store and the count of captured keys of the driver state. *)
Definition SarKeystoreAppend (ks : SAR_KEYSTORE) (captured : Z) (Record_ : semantics_ar_keystore_record_t)
    : Z * SAR_KEYSTORE * Z :=
  let '(rc, rs) := sar_keystore_append (records ks) (record_capacity ks) Record_ in
  let ks := set_table rs (generation ks) (anchor ks) ks in
  if rc =? 1 then (rc, set_dirty true ks, u64 (captured + 1)) else (rc, ks, captured).

(** The fields of [semantics_ar_catalog_entry_t]. *)
Record catalog_entry := {
  ce_key_id : bytes; ce_algorithm : Z; ce_mode : Z; ce_offset : Z; ce_path : list Z;
  ce_time : Z; ce_actor : Z
}.

(** [*Total] and the record or entry, if the index is in range. *)
Definition SarKeystoreRecordAt (ks : SAR_KEYSTORE) (Index : Z)
    : Z * option semantics_ar_keystore_record_t :=
  (Z.of_nat (length (records ks)),
   if Index <? Z.of_nat (length (records ks)) then records ks !! Z.to_nat Index else None).

Definition SarKeystoreProject (ks : SAR_KEYSTORE) (Index : Z) : Z * option catalog_entry :=
  (Z.of_nat (length (records ks)),
   if Index <? Z.of_nat (length (records ks)) then
     match records ks !! Z.to_nat Index with
     | Some r => Some {| ce_key_id := key_id r; ce_algorithm := algorithm r; ce_mode := mode r;
                         ce_offset := provenance_offset r; ce_path := provenance_path r;
                         ce_time := capture_time r; ce_actor := actor_start_key r |}
     | None => None
     end
   else None).

(** ** What the disk holds *)

Definition granted : load_env :=
  {| key_read := read_granted; random_key := None; first_write := write_granted;
     ledger_read := read_granted; advance_write := write_granted;
     thread_create := true; thread_reference := true |}.

(** The anchor admits a ledger of generation [g] with chain head [h]. *)
Definition admits (a : sar_keystore_anchor_t) (g : Z) (h : bytes) : Prop :=
  anchor_present a = false \/
  (anchor_generation a < g \/ (anchor_generation a = g /\ anchor_head_mac a = h)).

Definition anchor_wf (a : sar_keystore_anchor_t) : Prop :=
  is_u64 (anchor_generation a) /\ is_mac (anchor_head_mac a).

Section Disk.
Context {FS : Type} {SF : StoreFiles FS} {SFL : StoreFilesLaws FS}.

(** The two files hold the ledger [rs] of generation [g] under key [k]. *)
Definition disk_holds (fs : FS) (k : bytes) (rs : list semantics_ar_keystore_record_t) (g : Z) : Prop :=
  exists a, fs_get fs SAR_KS_KEYFILE = Some (struct_bytes (SarKsFillBlob k a)) /\ anchor_wf a /\
    ((rs = [] /\ g = 0 /\ fs_get fs SAR_KS_FILE = None /\
      (anchor_present a = false \/ anchor_generation a = 0)) \/
     (table_ok rs g /\ Z.of_nat (length rs) <= SAR_KEYSTORE_CAPACITY /\
      fs_get fs SAR_KS_FILE = Some (keystore_image k rs g) /\ admits a g (chain_head k rs))).

Lemma blob_wf k a : is_mac k -> anchor_wf a -> struct_wf (SarKsFillBlob k a).
Proof.
  intros [Hk1 Hk2] [Hg [Hh1 Hh2]]. repeat split; cbn; try done; try (unfold is_u in *; lia).
  - by destruct (anchor_present a).
  - by destruct (anchor_present a).
  - by repeat constructor.
Qed.

Lemma blob_anchor_fill k a : blob_anchor (SarKsFillBlob k a) = a.
Proof. destruct a as [p g h]. unfold blob_anchor. cbn. by destruct p. Qed.

Lemma read_all_granted (fs : FS) p b max :
  fs_get fs p = Some b -> b <> [] -> Z.of_nat (length b) <= max ->
  SarStoreReadAll read_granted fs p max = (STATUS_SUCCESS, Some b).
Proof.
  intros Hg Hb Hm. unfold SarStoreReadAll. rewrite Hg.
  change (NT_SUCCESS (ropen_status read_granted)) with true.
  change (NT_SUCCESS (query_status read_granted)) with true.
  change (NT_SUCCESS (file_read_status read_granted)) with true. cbn [negb rbuf_alloc read_granted].
  destruct (Z.eqb_spec (Z.of_nat (length b)) 0); [by destruct b|].
  by destruct (Z.ltb_spec max (Z.of_nat (length b))); [lia|].
Qed.

Lemma load_key_holds (fs : FS) ks k a :
  is_mac k -> anchor_wf a -> fs_get fs SAR_KS_KEYFILE = Some (struct_bytes (SarKsFillBlob k a)) ->
  load_key granted fs ks = Some (set_key k a ks, true, []).
Proof.
  intros Hk Ha Hf. pose proof (blob_wf k a Hk Ha) as Hwf.
  pose proof (length_struct_bytes _ Hwf) as Hlen. unfold load_key.
  rewrite (read_all_granted fs _ _ _ Hf).
  - unfold read_blob. change (NT_SUCCESS STATUS_SUCCESS) with true. rewrite Hlen, Nat.eqb_refl.
    cbn [andb]. rewrite struct_of_bytes by done. change (b_magic _ =? _) with true.
    change (b_version _ =? _) with true. cbn [andb]. by rewrite blob_anchor_fill.
  - intros E. rewrite E in Hlen. done.
  - rewrite Hlen. by vm_compute.
Qed.

Lemma admits_advance k rs g a :
  admits a g (chain_head k rs) ->
  exists adv, anchor_advance (store_hdr k rs g) (if anchor_present a then Some a else None) = Some adv.
Proof.
  intros Ha. destruct (anchor_present a) eqn:Hp; [|by eexists]. unfold anchor_advance. rewrite Hp.
  cbn [store_hdr StoreHdr.generation StoreHdr.head_mac].
  destruct Ha as [?|[Hlt|[-> ->]]]; [congruence| |].
  - destruct (Z.ltb_spec g (anchor_generation a)); [lia|].
    destruct (Z.eqb_spec g (anchor_generation a)); [lia|]. by eexists.
  - rewrite Z.ltb_irrefl, Z.eqb_refl, sar_ct_equal_refl by apply chain_head_ok. by eexists.
Qed.

Lemma image_small k (rs : list semantics_ar_keystore_record_t) g :
  table_ok rs g -> Z.of_nat (length rs) <= SAR_KEYSTORE_CAPACITY ->
  keystore_image k rs g <> [] /\ Z.of_nat (length (keystore_image k rs g)) <= SAR_KS_MAX_FILE.
Proof.
  intros H Hc. rewrite keystore_image_eq.
  pose proof (length_image k rs g) as Hl. specialize (Hl H).
  change HDR with 52%nat in Hl. change DISK with (Store.DISK semantics_ar_keystore_record_t) in Hl.
  assert (Hd : Z.of_nat (Store.DISK semantics_ar_keystore_record_t) <= 1024) by (by vm_compute).
  unfold SAR_KEYSTORE_CAPACITY, SAR_KS_MAX_FILE in *. split.
  - intros E. rewrite E in Hl. simpl in Hl. lia.
  - rewrite Hl. nia.
Qed.

(** Loading what the disk holds. *)
Lemma load_holds (fs : FS) ks0 k rs g :
  SarKeystoreCreate true true = Some ks0 -> is_mac k -> disk_holds fs k rs g ->
  exists ks ops, SarKeystoreLoad granted fs ks0 = Ret (ks, ops) /\ records ks = rs /\ mac_key ks = k /\
    generation ks = g /\ ready ks = true /\ keystore_persistent ks = true /\
    keystore_tamper_detected ks = false.
Proof.
  intros [= <-] Hk (a&Hkf&Ha&Hd). unfold SarKeystoreLoad.
  rewrite (load_key_holds fs _ k a Hk Ha Hkf). cbn [run_ops fold_left]. unfold load_ledger.
  cbn [anchor set_key mac_key record_capacity ledger_read granted].
  destruct Hd as [(->&->&Hf&Hz)|(Hok&Hc&Hf&Had)].
  - unfold SarStoreReadAll. rewrite Hf. cbn [bool_decide orb negb andb].
    rewrite bool_decide_eq_true_2 by done. cbn [orb negb andb]. unfold sar_ksm_load.
    destruct (anchor_present a) eqn:Hp.
    + assert (Hg0 : anchor_generation a = 0) by (by destruct Hz as [Hz|Hz]; [congruence|]).
      rewrite Hp, Hg0. cbn [andb Z.ltb Z.compare cbind]. by eexists _, _.
    + cbn [cbind]. by eexists _, _.
  - destruct (image_small k rs g Hok Hc) as [Hne Hsz].
    rewrite (read_all_granted fs _ _ _ Hf Hne Hsz).
    rewrite !bool_decide_eq_false_2 by done. change (NT_SUCCESS STATUS_SUCCESS) with true.
    cbn [orb negb andb]. rewrite load_image by done.
    destruct (admits_advance k rs g a Had) as [adv ->]. cbn [cbind].
    by eexists _, _.
Qed.

(** ** Crashes *)

Lemma admits_next a g h h' : admits a g h -> admits a (g + 1) h'.
Proof. intros [?|[?|[? _]]]; [by left|right; left; lia|right; left; lia]. Qed.

(** Once the ledger of the next generation is in place, both key files admit it. *)
Lemma holds_new (fs : FS) k rs g a :
  fs_get fs SAR_KS_KEYFILE = Some (struct_bytes (SarKsFillBlob k a)) -> anchor_wf a ->
  table_ok rs g -> Z.of_nat (length rs) <= SAR_KEYSTORE_CAPACITY ->
  fs_get fs SAR_KS_FILE = Some (keystore_image k rs g) -> admits a g (chain_head k rs) ->
  disk_holds fs k rs g.
Proof. intros Hkf Ha Hok Hc Hf Had. exists a. split_and!; [done|done|]. by right. Qed.

Lemma table_ok_small (rs : list semantics_ar_keystore_record_t) g :
  Forall struct_wf rs -> is_u64 g -> Z.of_nat (length rs) <= SAR_KEYSTORE_CAPACITY -> table_ok rs g.
Proof.
  intros Hwf Hg Hc. split; [done|done|]. change (Z.of_nat HDR) with 52.
  assert (Hd : Z.of_nat (Store.DISK semantics_ar_keystore_record_t) <= 1024) by (by vm_compute).
  unfold SAR_KEYSTORE_CAPACITY in Hc. nia.
Qed.

(** Replacing the ledger by that of the next generation. *)
Lemma ledger_crashed env (fs fs' : FS) k rs g rs' :
  disk_holds fs k rs g -> table_ok rs' (g + 1) -> Z.of_nat (length rs') <= SAR_KEYSTORE_CAPACITY ->
  crashed (SarStoreWriteAtomic env SAR_KS_TMP SAR_KS_FILE (keystore_image k rs' (g + 1))).2 fs fs' ->
  let ok := NT_SUCCESS (SarStoreWriteAtomic env SAR_KS_TMP SAR_KS_FILE (keystore_image k rs' (g + 1))).1 in
  (disk_holds fs' k rs g \/ disk_holds fs' k rs' (g + 1)) /\ (ok = false -> disk_holds fs' k rs g).
Proof using SFL.
  intros (a&Hkf&Ha&Hd) Hok Hc Hcr ok.
  destruct (write_atomic_crashed env SAR_KS_TMP SAR_KS_FILE _ fs fs' ltac:(done) Hcr) as (H1&H2&H3).
  assert (Hkf' : fs_get fs' SAR_KS_KEYFILE = Some (struct_bytes (SarKsFillBlob k a)))
    by (rewrite H1; done).
  assert (Hold : fs_get fs' SAR_KS_FILE = fs_get fs SAR_KS_FILE -> disk_holds fs' k rs g).
  { intros E. exists a. split_and!; [done|done|]. by rewrite E. }
  split; [|intros Hf; apply Hold, H3, Hf]. destruct H2 as [E|E]; [left; by apply Hold|right].
  apply (holds_new fs' k rs' (g + 1) a); try done.
  destruct Hd as [(->&->&_&Hz)|(_&_&_&Had)].
  - destruct Hz as [Hz|Hz]; [by left|right; left; lia].
  - by eapply admits_next.
Qed.

(** Recording the anchor of the ledger that is in place. *)
Lemma blob_crashed env (fs fs' : FS) k rs g :
  is_mac k -> table_ok rs g -> Z.of_nat (length rs) <= SAR_KEYSTORE_CAPACITY -> disk_holds fs k rs g ->
  fs_get fs SAR_KS_FILE = Some (keystore_image k rs g) ->
  crashed (SarStoreWriteAtomic env SAR_KS_KEYTMP SAR_KS_KEYFILE
             (struct_bytes (SarKsFillBlob k (anchor_of k rs g)))).2 fs fs' ->
  disk_holds fs' k rs g.
Proof using SFL.
  intros Hk Hok Hc (a&Hkf&Ha&Hd) Hf Hcr.
  destruct (write_atomic_crashed env SAR_KS_KEYTMP SAR_KS_KEYFILE _ fs fs' ltac:(done) Hcr) as (H1&H2&_).
  assert (Hf' : fs_get fs' SAR_KS_FILE = Some (keystore_image k rs g)) by (rewrite H1; done).
  assert (Had : admits a g (chain_head k rs)).
  { destruct Hd as [(_&_&Hn&_)|(_&_&_&Had)]; [congruence|done]. }
  destruct H2 as [E|E]; [rewrite Hkf in E; by eapply holds_new|].
  eapply (holds_new fs' k rs g (anchor_of k rs g)); try done.
  - split; [by destruct Hok|apply chain_head_ok].
  - right. right. done.
Qed.

(** A store in memory, and the prefix [rs] of its records that the disk holds. *)
Record kinv (ks : SAR_KEYSTORE) (fs : FS) (rs : list semantics_ar_keystore_record_t) : Prop := {
  ki_disk : disk_holds fs (mac_key ks) rs (generation ks);
  ki_prefix : rs `prefix_of` records ks;
  ki_key : is_mac (mac_key ks);
  ki_wf : Forall struct_wf (records ks);
  ki_capacity : record_capacity ks = SAR_KEYSTORE_CAPACITY;
  ki_count : Z.of_nat (length (records ks)) <= SAR_KEYSTORE_CAPACITY;
  ki_gen : 0 <= generation ks
}.

Lemma set_dirty_kinv d ks fs rs : kinv ks fs rs -> kinv (set_dirty d ks) fs rs.
Proof. intros []. by split. Qed.

Lemma ksm_persist_image ks fs rs :
  kinv ks fs rs -> generation ks < 2 ^ 64 - 1 ->
  let need := sar_keystore_serialized_size (Z.of_nat (length (records ks))) in
  exists out_len buf,
    sar_ksm_persist (mac_key ks) (records ks) (generation ks) (replicate (Z.to_nat need) 0) zero_anchor =
      (SAR_KSM_OK, out_len, buf, anchor_of (mac_key ks) (records ks) (generation ks + 1)) /\
    take (Z.to_nat (u32 out_len)) buf = keystore_image (mac_key ks) (records ks) (generation ks + 1).
Proof.
  intros [_ _ _ Hwf _ Hn Hg] Hlt need.
  assert (Hok : table_ok (records ks) (generation ks + 1)) by (apply table_ok_small; try done; unfold is_u; lia).
  assert (Hu : u64 (generation ks + 1) = generation ks + 1) by (apply u64_small; unfold is_u; lia).
  assert (Hneed : (HDR + length (records ks) * DISK <= length (replicate (Z.to_nat need) 0%Z))%nat).
  { rewrite length_replicate. unfold need, sar_keystore_serialized_size.
    pose proof (tok_size _ _ Hok). rewrite serialized_size_exact by lia. lia. }
  rewrite (persist_ok (mac_key ks) (records ks) (generation ks)); [|rewrite Hu; exact Hok|exact Hneed]. rewrite Hu. eexists _, _. split; [done|].
  destruct (keystore_serialize_ok (mac_key ks) (records ks) (generation ks + 1)
    (replicate (Z.to_nat need) 0) Hok Hneed) as [_ Ht].
  rewrite u32_small, Nat2Z.id; [done|]. unfold is_u. change HDR with 52%nat.
  assert (Hd : Z.of_nat (Store.DISK semantics_ar_keystore_record_t) <= 1024) by (by vm_compute).
  unfold SAR_KEYSTORE_CAPACITY in Hn. nia.
Qed.

(** A crash during a persist leaves the old ledger or the new one; at its end the
    store still matches the disk. *)
Lemma persist_crashed env ks (fs : FS) rs later :
  kinv ks fs rs -> generation ks < 2 ^ 64 - 1 ->
  (forall fs', crashed (SarKsPersist env ks later).2 fs fs' ->
     disk_holds fs' (mac_key ks) rs (generation ks) \/
     disk_holds fs' (mac_key ks) (records ks) (generation ks + 1)) /\
  exists rs', kinv (SarKsPersist env ks later).1 (run_ops fs (SarKsPersist env ks later).2) rs' /\
    rs `prefix_of` rs'.
Proof using SFL.
  intros Hi Hlt. pose proof Hi as [Hd Hpre Hk Hwf Hcap Hn Hg].
  assert (Hok : table_ok (records ks) (generation ks + 1)) by (apply table_ok_small; try done; unfold is_u; lia).
  destruct (ksm_persist_image ks fs rs Hi Hlt) as (out_len&buf&Hp&Hbuf).
  unfold SarKsPersist. rewrite Hp. destruct (pbuf_alloc env); cbn [negb fst snd].
  2: { split; [intros fs' Hc; inversion Hc; subst; by left|]. exists rs. split; [by apply set_dirty_kinv|done]. }
  rewrite bool_decide_eq_true_2 by done. cbn [negb]. rewrite Hbuf.
  pose proof (fun fs' => ledger_crashed (ledger_write env) fs fs' _ rs _ (records ks) Hd Hok Hn) as Hl.
  pose proof (write_atomic_ok (ledger_write env) SAR_KS_TMP SAR_KS_FILE
    (keystore_image (mac_key ks) (records ks) (generation ks + 1)) fs ltac:(done)) as Hfile.
  destruct (SarStoreWriteAtomic (ledger_write env) _ _ _) as [st ops]. cbn [fst snd] in *.
  destruct (NT_SUCCESS st); cbn [negb fst snd].
  2: { split; [intros fs' Hc; by apply Hl|]. exists rs. split; [|done].
       split; try done. simpl. by apply Hl; [apply crashed_run|]. }
  specialize (Hfile eq_refl).
  assert (Hnew : disk_holds (run_ops fs ops) (mac_key ks) (records ks) (generation ks + 1)).
  { destruct (Hl _ (crashed_run ops fs)) as [[Ho|Ho] _]; [|done].
    destruct Ho as (a&Hkf&Ha&[(_&_&Hnone&_)|(_&_&_&Had)]); [congruence|].
    eapply holds_new; try done. by eapply admits_next. }
  pose proof (fun fs' => blob_crashed (blob_write env) (run_ops fs ops) fs' _ _ _ Hk Hok Hn Hnew Hfile) as Hb.
  destruct (SarStoreWriteAtomic (blob_write env) _ _ _) as [st' ops']. cbn [fst snd] in *. split.
  - intros fs' [Hc|Hc]%crashed_app; [by apply Hl|right; by apply Hb].
  - exists (records ks). split; [|done]. unfold run_ops. rewrite fold_left_app.
    fold (run_ops fs ops). fold (run_ops (run_ops fs ops) ops').
    pose proof (Hb _ (crashed_run ops' (run_ops fs ops))) as Hend.
    repeat dif; split; simpl; try done; lia.
Qed.

(** Appends and rounds of the persisting thread. *)
Inductive kstep : SAR_KEYSTORE * FS -> SAR_KEYSTORE * FS -> Prop :=
  | k_append ks fs captured r :
      struct_wf r -> kstep (ks, fs) ((SarKeystoreAppend ks captured r).1.2, fs)
  | k_persist env ks fs later :
      generation ks < 2 ^ 64 - 1 ->
      kstep (ks, fs) ((persist_round env ks later).1, run_ops fs (persist_round env ks later).2).

Lemma append_kinv ks fs rs captured r :
  kinv ks fs rs -> struct_wf r -> kinv (SarKeystoreAppend ks captured r).1.2 fs rs.
Proof.
  intros [Hd Hp Hk Hw Hc Hn Hg] Hr. unfold SarKeystoreAppend, sar_keystore_append.
  destruct (existsb _ _); [by split|].
  destruct (Z.leb_spec (record_capacity ks) (Z.of_nat (length (records ks)))); [by split|].
  split; try done; simpl.
  - by apply prefix_app_r.
  - apply Forall_app. split; [done|by constructor].
  - rewrite length_app. simpl. rewrite Hc in *. lia.
Qed.

Lemma kstep_kinv s s' rs : kinv s.1 s.2 rs -> kstep s s' -> exists rs', kinv s'.1 s'.2 rs' /\ rs `prefix_of` rs'.
Proof using SFL.
  intros Hi Hs. destruct Hs as [ks fs captured r Hr|env ks fs later Hg]; cbn [fst snd] in *.
  - exists rs. split; [by apply append_kinv|done].
  - unfold persist_round. destruct (dirty ks); [|by exists rs].
    by apply (persist_crashed env (set_dirty false ks)); [apply set_dirty_kinv|].
Qed.

Lemma ksteps_kinv s s' rs :
  kinv s.1 s.2 rs -> rtc kstep s s' -> exists rs', kinv s'.1 s'.2 rs' /\ rs `prefix_of` rs'.
Proof using SFL.
  intros Hi Hs. revert rs Hi. induction Hs as [s|s t u Hst _ IH]; intros rs Hi; [by exists rs|].
  destruct (kstep_kinv s t rs Hi Hst) as (rs1&Hi1&Hp1). destruct (IH rs1 Hi1) as (rs2&Hi2&Hp2).
  exists rs2. split; [done|by etrans].
Qed.

(** Property C20: no persisted key is lost to a crash.  Start from a store whose
    records are on the disk, append and persist in any order with any failures
    of the system, and crash at any point of a persist: loading succeeds without
    a tamper alarm, gives back every record that was on the disk at the start,
    and nothing that was not captured, in the order of capture. *)
Theorem keystore_crash_safe ks0 fs0 ks (fs fs' : FS) env later fresh :
  kinv ks0 fs0 (records ks0) -> rtc kstep (ks0, fs0) (ks, fs) -> generation ks < 2 ^ 64 - 1 ->
  crashed (persist_round env ks later).2 fs fs' -> SarKeystoreCreate true true = Some fresh ->
  exists ks' ops, SarKeystoreLoad granted fs' fresh = Ret (ks', ops) /\
    records ks0 `prefix_of` records ks' /\ records ks' `prefix_of` records ks /\
    mac_key ks' = mac_key ks /\ ready ks' = true /\ keystore_persistent ks' = true /\
    keystore_tamper_detected ks' = false.
Proof using SFL.
  intros H0 Hs Hg Hc Hf.
  destruct (ksteps_kinv (ks0, fs0) (ks, fs) _ H0 Hs) as (rs&Hi&Hpre). cbn [fst snd] in *.
  assert (Hd : exists rs' g, disk_holds fs' (mac_key ks) rs' g /\ rs `prefix_of` rs' /\
                 rs' `prefix_of` records ks).
  { pose proof Hi as [Hd Hp _ _ _ _ _]. unfold persist_round in Hc. destruct (dirty ks).
    - destruct (persist_crashed env (set_dirty false ks) fs rs later (set_dirty_kinv _ _ _ _ Hi) Hg)
        as [Hcr _]. destruct (Hcr fs' Hc); [by eexists rs, _|by eexists (records ks), _].
    - inversion Hc; subst. by eexists rs, _. }
  destruct Hd as (rs'&g&Hd&Hp1&Hp2).
  destruct (load_holds fs' fresh (mac_key ks) rs' g Hf (ki_key _ _ _ Hi) Hd)
    as (ks'&ops&Hl&Hr&Hk&_&Hrd&Hper&Ht).
  exists ks', ops. rewrite Hr. split_and!; try done. by etrans.
Qed.

End Disk.

(** ** A concrete run *)

Definition demo_disk : gmap string bytes :=
  <[SAR_KS_KEYFILE := struct_bytes (SarKsFillBlob demo_key zero_anchor)]> ∅.

Definition demo_store : SAR_KEYSTORE :=
  {| records := []; record_capacity := SAR_KEYSTORE_CAPACITY; mac_key := demo_key; have_key := true;
     generation := 0; anchor := zero_anchor; ready := true; dirty := false; thread_started := true;
     keystore_persistent := true; keystore_tamper_detected := false |}.

Lemma demo_store_kinv : kinv demo_store demo_disk [].
Proof.
  split; try done.
  - exists zero_anchor. split_and!; [done|split; [by vm_compute|split; [done|by apply forall_u_check]]|].
    left. split_and!; try done. by left.
  - split; [done|]. by apply forall_u_check.
Qed.

Definition demo_env : persist_env :=
  {| pbuf_alloc := true; ledger_write := write_granted; blob_write := write_granted |}.

(** One key is captured; the machine stops after the persist. *)
Lemma keystore_crash_safe_witness :
  let ks := (SarKeystoreAppend demo_store 0 (demo_rec 0)).1.2 in
  let fs := run_ops demo_disk (persist_round demo_env ks 1).2 in
  exists fresh ks' ops, SarKeystoreCreate true true = Some fresh /\
    SarKeystoreLoad granted fs fresh = Ret (ks', ops) /\ records ks' `prefix_of` records ks /\
    keystore_tamper_detected ks' = false.
Proof.
  intros ks fs.
  assert (Hrun : rtc kstep (demo_store, demo_disk) (ks, demo_disk))
    by apply rtc_once, (k_append demo_store demo_disk 0 (demo_rec 0) demo_rec_wf_0).
  destruct (keystore_crash_safe demo_store demo_disk ks demo_disk fs demo_env 1
    _ demo_store_kinv Hrun ltac:(done) (crashed_run _ _) eq_refl)
    as (ks'&ops&Hl&_&Hp&_&_&_&Ht).
  eexists _, ks', ops.
  split; [reflexivity|]. split; [exact Hl|]. split; [exact Hp|exact Ht].
Defined.

End KeystorePersist.
