(* ===== verification/PreservePersist.v ===== *)
(** * The preservation index on disk (driver/preserve.c)

    Persisting the index and the key file, and loading them at start-up.  A
    restart after a persist gives the store back, wherever the persist was
    interrupted; an index file that was cut short is discarded without an
    alarm. *)

From Stdlib Require Import String.
From stdpp Require Import strings gmap relations.
From S2P Require Import Prelude Mem Format Sha256 Chain Store Keystore Protocol Preserve HeapSort.
From S2P Require Import DriverState StoreIo DriverPreserve PreserveAlloc PreserveRefine PreserveStage.
From S2P Require Import PreserveStore KeystorePersist.
Import Mem Layout Protocol Preserve PresRec HeapSort DriverPreserve PreserveAlloc PreserveRefine.
Import PreserveStage PreserveStore StoreIo.
Import KeystorePersist (admits, anchor_wf, admits_next, read_all_granted).
Import DriverState (NTSTATUS, NT_SUCCESS, STATUS_SUCCESS, STATUS_NOT_FOUND, STATUS_DATA_ERROR).

Module PreservePersist.

Definition SAR_PRES_INDEX : string := "\SystemRoot\System32\drivers\SemanticsAr\preserve.idx".
Definition SAR_PRES_INDEXTMP : string := "\SystemRoot\System32\drivers\SemanticsAr\preserve.tmp".
Definition SAR_PRES_KEYFILE : string := "\SystemRoot\System32\drivers\SemanticsAr\preskey.bin".
Definition SAR_PRES_KEYTMP : string := "\SystemRoot\System32\drivers\SemanticsAr\preskey.tmp".
Definition SAR_PRESKEY_MAGIC : Z := 0x4B455250.
Definition SAR_PRESERVE_MAX_INDEX_FILE : Z := 256 * 1024 * 1024.

(** ** The key file *)

Record SAR_PRESKEY_BLOB := {
  k_magic : Z;
  k_store_key : bytes;
  k_mac_key : bytes;
  k_anchor_present : Z;
  k_reserved : bytes;
  k_anchor_generation : Z;
  k_anchor_head_mac : bytes;
  k_retention_100ns : Z;
  k_capacity_bytes : Z
}.

Definition preskey_codec : codec SAR_PRESKEY_BLOB :=
  c_iso (c_pair (c_uint 4) (c_pair (c_bytes 32) (c_pair (c_bytes 32) (c_pair (c_uint 1)
          (c_pair (c_bytes 7) (c_pair (c_uint 8) (c_pair (c_bytes 32) (c_pair (c_uint 8) (c_uint 8)))))))))
    (fun b => (k_magic b, (k_store_key b, (k_mac_key b, (k_anchor_present b, (k_reserved b,
                (k_anchor_generation b, (k_anchor_head_mac b, (k_retention_100ns b, k_capacity_bytes b)))))))))
    (fun '(a, (b, (c, (d, (e, (f, (g, (h, i)))))))) => Build_SAR_PRESKEY_BLOB a b c d e f g h i).

#[global] Instance preskey_packed : Packed SAR_PRESKEY_BLOB.
Proof.
  refine {| layout := preskey_codec; layout_ok := c_iso_ok _ _ _ _ _ _ |}.
  - by intros (?&?&?&?&?&?&?&?&?).
  - by intros [].
Defined.

Definition SarPresFillBlob (p : SAR_PRESERVE) : SAR_PRESKEY_BLOB :=
  {| k_magic := SAR_PRESKEY_MAGIC; k_store_key := store_key p; k_mac_key := mac_key p;
     k_anchor_present := if anchor_present (anchor p) then 1 else 0; k_reserved := replicate 7 0;
     k_anchor_generation := anchor_generation (anchor p);
     k_anchor_head_mac := anchor_head_mac (anchor p);
     k_retention_100ns := retention_100ns p; k_capacity_bytes := capacity_bytes p |}.

Definition SarPresWriteBlob (env : write_env) (p : SAR_PRESERVE) : NTSTATUS * list disk_op :=
  SarStoreWriteAtomic env SAR_PRES_KEYTMP SAR_PRES_KEYFILE (struct_bytes (SarPresFillBlob p)).

(** ** Persisting *)

Definition set_index (g : Z) (a : sar_keystore_anchor_t) (p : SAR_PRESERVE) : SAR_PRESERVE :=
  {| records := records p; record_capacity := record_capacity p; free_ext := free_ext p;
     free_capacity := free_capacity p; data_high_water := data_high_water p;
     free_dirty := free_dirty p; data_handle := data_handle p; store_key := store_key p;
     mac_key := mac_key p; have_key := have_key p; generation := g; anchor := a;
     retention_100ns := retention_100ns p; capacity_bytes := capacity_bytes p;
     reserved_bytes := reserved_bytes p; ready := ready p; dirty := dirty p;
     next_link_id := next_link_id p |}.

Record persist_env := { ibuf_alloc : bool; index_write : write_env; key_write : write_env }.

(** The store and the disk operations.  The data file is opened write-through,
    so flushing it first changes nothing in the model. *)
Definition SarPresPersistIndex (env : persist_env) (p : SAR_PRESERVE) : SAR_PRESERVE * list disk_op :=
  let c := Z.of_nat (length (records p)) in
  let gen := u64 (generation p + 1) in
  let need := sar_preserve_serialized_size c in
  if negb (ibuf_alloc env) then (set_dirty true p, [])
  else
    let '(rc, out_len, buf) :=
      sar_preserve_serialize (mac_key p) (records p) gen (replicate (Z.to_nat need) 0) in
    if negb (bool_decide (rc = SAR_PRES_OK)) then (set_dirty true p, [])
    else
      let '(status, ops) := SarStoreWriteAtomic (index_write env) SAR_PRES_INDEXTMP SAR_PRES_INDEX
                              (take (Z.to_nat (u32 out_len)) buf) in
      if negb (NT_SUCCESS status) then (set_dirty true p, ops)
      else
        let hdr : StoreHdr.store_header_t := struct_of (take HDR buf) in
        let p := set_index gen {| anchor_present := true; anchor_generation := gen;
                                  anchor_head_mac := StoreHdr.head_mac hdr |} p in
        (p, ops ++ (SarPresWriteBlob (key_write env) p).2).

(** One round of [SarPresPersistThread]. *)
Definition persist_round (env : persist_env) (now : Z) (p : SAR_PRESERVE)
    : cres (SAR_PRESERVE * list (list Z) * list disk_op) :=
  let! (p, del) := SarPresMaintain now p in
  Ret (if dirty p then let '(p, ops) := SarPresPersistIndex env (set_dirty false p) in (p, del, ops)
       else (p, del, [])).

Definition SarPreserveSetBudget (env : write_env) (p : SAR_PRESERVE) (Retention100ns CapacityBytes : Z)
    : SAR_PRESERVE * list disk_op :=
  if (Retention100ns =? 0) || (CapacityBytes =? 0) then (p, [])
  else
    let p := set_budget Retention100ns CapacityBytes p in
    (p, (SarPresWriteBlob env p).2).

(** ** Loading *)

Record load_env := {
  key_read : read_env;
  random_store_key : option bytes;
  random_mac_key : option bytes;
  first_write : write_env;
  data_open : bool;
  index_read : read_env;
  advance_write : write_env
}.

Definition set_keys (sk mk : bytes) (a : sar_keystore_anchor_t) (ret cap : Z) (p : SAR_PRESERVE) : SAR_PRESERVE :=
  {| records := records p; record_capacity := record_capacity p; free_ext := free_ext p;
     free_capacity := free_capacity p; data_high_water := data_high_water p;
     free_dirty := free_dirty p; data_handle := data_handle p; store_key := sk;
     mac_key := mk; have_key := true; generation := generation p; anchor := a;
     retention_100ns := ret; capacity_bytes := cap;
     reserved_bytes := reserved_bytes p; ready := ready p; dirty := dirty p;
     next_link_id := next_link_id p |}.
(** [P->data_handle = h] *)
Definition SarPresOpenData (p : SAR_PRESERVE) : SAR_PRESERVE :=
  {| records := records p; record_capacity := record_capacity p; free_ext := free_ext p;
     free_capacity := free_capacity p; data_high_water := data_high_water p;
     free_dirty := free_dirty p; data_handle := true; store_key := store_key p;
     mac_key := mac_key p; have_key := have_key p; generation := generation p; anchor := anchor p;
     retention_100ns := retention_100ns p; capacity_bytes := capacity_bytes p;
     reserved_bytes := reserved_bytes p; ready := ready p; dirty := dirty p;
     next_link_id := next_link_id p |}.
(** [InterlockedExchange(&Preserve->ready, 1)] *)
Definition set_ready (p : SAR_PRESERVE) : SAR_PRESERVE :=
  {| records := records p; record_capacity := record_capacity p; free_ext := free_ext p;
     free_capacity := free_capacity p; data_high_water := data_high_water p;
     free_dirty := free_dirty p; data_handle := data_handle p; store_key := store_key p;
     mac_key := mac_key p; have_key := have_key p; generation := generation p; anchor := anchor p;
     retention_100ns := retention_100ns p; capacity_bytes := capacity_bytes p;
     reserved_bytes := reserved_bytes p; ready := true; dirty := dirty p;
     next_link_id := next_link_id p |}.

(** A 64-bit value read as [LONG64]. *)
Definition as_long64 (v : Z) : Z := if v <? 2 ^ 63 then v else v - 2 ^ 64.

(** The loop over the loaded records that finds the next link id. *)
Definition next_link (rs : list rec) (next : Z) : Z :=
  fold_left (fun next r =>
    if (kind r =? SAR_PRESERVE_KIND_NAMESPACE) && (next <=? as_long64 (payload_offset r))
    then as_long64 (payload_offset r) + 1 else next) rs next.

(** The key file, if it is one of ours. *)
Definition read_preskey (kbuf : NTSTATUS * option bytes) : option SAR_PRESKEY_BLOB :=
  match kbuf with
  | (status, Some k) =>
    if NT_SUCCESS status && (length k =? sizeof SAR_PRESKEY_BLOB)%nat then
      let b : SAR_PRESKEY_BLOB := struct_of k in
      if k_magic b =? SAR_PRESKEY_MAGIC then Some b else None
    else None
  | _ => None
  end.

Section Load.
Context {FS : Type} {SF : StoreFiles FS} {SFL : StoreFilesLaws FS}.

(** The keys, from their file or new; [None] is the early return. *)
Definition load_keys (env : load_env) (fs : FS) (p : SAR_PRESERVE) : option (SAR_PRESERVE * list disk_op) :=
  match read_preskey (SarStoreReadAll (key_read env) fs SAR_PRES_KEYFILE
                        (Z.of_nat (sizeof SAR_PRESKEY_BLOB))) with
  | Some b =>
    let a := {| anchor_present := negb (k_anchor_present b =? 0);
                anchor_generation := k_anchor_generation b;
                anchor_head_mac := k_anchor_head_mac b |} in
    let budget := negb (k_capacity_bytes b =? 0) in
    Some (set_keys (k_store_key b) (k_mac_key b) a
            (if budget then k_retention_100ns b else retention_100ns p)
            (if budget then k_capacity_bytes b else capacity_bytes p) p, [])
  | None =>
    match random_store_key env, random_mac_key env with
    | Some sk, Some mk =>
      let p := set_keys sk mk (anchor p) (retention_100ns p) (capacity_bytes p) p in
      Some (p, (SarPresWriteBlob (first_write env) p).2)
    | _, _ => None
    end
  end.

(** The index: the store, [preserve_tamper_detected] and the disk operations. *)
Definition load_index (env : load_env) (fs : FS) (p : SAR_PRESERVE) (tamper : bool)
    : cres (SAR_PRESERVE * bool * list disk_op) :=
  match SarStoreReadAll (index_read env) fs SAR_PRES_INDEX SAR_PRESERVE_MAX_INDEX_FILE with
  | (status, Some fbuf) =>
    if NT_SUCCESS status && (HDR <=? length fbuf)%nat then
      let prior_present := anchor_present (anchor p) in
      let prior_gen := if prior_present then anchor_generation (anchor p) else 0 in
      let! (vr, count) := sar_preserve_verify (Some fbuf) (mac_key p)
                            (if prior_present then Some (anchor p) else None) in
      match vr with
      | SAR_PRES_OK =>
        let hdr : StoreHdr.store_header_t := struct_of (take HDR fbuf) in
        let count := if record_capacity p <? count then record_capacity p else count in
        let rs := chain_read (R := rec) (Z.to_nat count) (drop HDR fbuf) in
        let p := set_index (StoreHdr.generation hdr)
                   {| anchor_present := true; anchor_generation := StoreHdr.generation hdr;
                      anchor_head_mac := StoreHdr.head_mac hdr |} (set_records rs p) in
        let ops := if have_key p && (negb prior_present || (prior_gen <? StoreHdr.generation hdr))
                   then (SarPresWriteBlob (advance_write env) p).2 else [] in
        let p := mark_free_dirty p in
        Ret (set_next_link (next_link rs (next_link_id p)) p, tamper, ops)
      | _ =>
        let tamper := tamper || bool_decide (vr = SAR_PRES_BAD_MAGIC) ||
                      bool_decide (vr = SAR_PRES_RECORD_MAC) || bool_decide (vr = SAR_PRES_ROLLBACK) in
        Ret (set_records [] p, tamper, [])
      end
    else Ret (p, tamper, [])
  | _ => Ret (p, tamper, [])
  end.

(** The store, [preserve_tamper_detected] and the disk operations.  The store
    directory exists, and the persist thread is represented by the rounds above.
    When a key cannot be drawn, the store stays as it was: it is never ready, so
    what the code has put into it is not used. *)
Definition SarPreserveLoad (env : load_env) (fs : FS) (p : SAR_PRESERVE)
    : cres (SAR_PRESERVE * bool * list disk_op) :=
  match load_keys env fs p with
  | None => Ret (p, false, [])
  | Some (p, ops) =>
    if negb (data_open env) then Ret (p, false, ops)
    else
      let! (p, tamper, ops') := load_index env (run_ops fs ops) (SarPresOpenData p) false in
      Ret (set_ready p, tamper, ops ++ ops')
  end.

(** ** What the disk holds *)

Definition granted : load_env :=
  {| key_read := read_granted; random_store_key := None; random_mac_key := None;
     first_write := write_granted; data_open := true; index_read := read_granted;
     advance_write := write_granted |}.

(** The fields that the key file keeps are in the range of their types. *)
Definition keys_ok (p : SAR_PRESERVE) : Prop :=
  is_mac (store_key p) /\ is_mac (mac_key p) /\ anchor_wf (anchor p) /\
  is_u64 (retention_100ns p) /\ is_u64 (capacity_bytes p).

(** The key file has the keys of [p]; the index file holds [rs] of generation
    [g], or there is none yet. *)
Definition disk_holds (fs : FS) (p : SAR_PRESERVE) (rs : list rec) (g : Z) : Prop :=
  exists q, fs_get fs SAR_PRES_KEYFILE = Some (struct_bytes (SarPresFillBlob q)) /\ keys_ok q /\
    store_key q = store_key p /\ mac_key q = mac_key p /\
    ((rs = [] /\ g = 0 /\ fs_get fs SAR_PRES_INDEX = None /\
      (anchor_present (anchor q) = false \/ anchor_generation (anchor q) = 0)) \/
     (table_ok rs g /\ Z.of_nat (length rs) <= SAR_PRESERVE_RECORD_CAPACITY /\
      fs_get fs SAR_PRES_INDEX = Some (preserve_image (mac_key p) rs g) /\
      admits (anchor q) g (chain_of (mac_key p) rs g).2)).

Lemma preskey_wf p : keys_ok p -> struct_wf (SarPresFillBlob p).
Proof.
  intros ([? ?]&[? ?]&[? [? ?]]&?&?). repeat split; cbn; try done; try (unfold is_u in *; lia).
  - by destruct (anchor_present _).
  - by destruct (anchor_present _).
  - by repeat constructor.
Qed.

Lemma load_keys_holds (fs : FS) p q :
  fs_get fs SAR_PRES_KEYFILE = Some (struct_bytes (SarPresFillBlob q)) -> keys_ok q ->
  exists ret cap, load_keys granted fs p = Some (set_keys (store_key q) (mac_key q) (anchor q) ret cap p, []).
Proof.
  intros Hf Hq. pose proof (preskey_wf q Hq) as Hwf. pose proof (length_struct_bytes _ Hwf) as Hlen.
  unfold load_keys. cbn [key_read granted]. rewrite (read_all_granted fs _ _ _ Hf).
  - unfold read_preskey. change (NT_SUCCESS STATUS_SUCCESS) with true. rewrite Hlen, Nat.eqb_refl.
    cbn [andb]. rewrite struct_of_bytes by done. change (k_magic _ =? _) with true.
    eexists _, _. do 3 f_equal. destruct (anchor q) as [[] ? ?] eqn:Ha; cbn; by rewrite Ha.
  - intros E. rewrite E in Hlen. done.
  - by rewrite Hlen.
Qed.

Lemma admits_no_rollback k (rs : list rec) g a :
  admits a g (chain_of k rs g).2 ->
  anchor_rollback (store_hdr k rs g) (if anchor_present a then Some a else None) = false.
Proof.
  intros Ha. destruct (anchor_present a) eqn:Hp; [|done]. unfold anchor_rollback. rewrite Hp.
  cbn [store_hdr StoreHdr.generation StoreHdr.head_mac andb].
  destruct Ha as [?|[Hlt|[-> ->]]]; [congruence| |].
  - destruct (Z.ltb_spec g (anchor_generation a)); [lia|].
    by destruct (Z.eqb_spec g (anchor_generation a)); [lia|].
  - by rewrite Z.ltb_irrefl, Z.eqb_refl, sar_ct_equal_refl by apply chain_of_head.
Qed.

Lemma index_small k (rs : list rec) g :
  table_ok rs g -> Z.of_nat (length rs) <= SAR_PRESERVE_RECORD_CAPACITY ->
  length (preserve_image k rs g) = (HDR + length rs * Store.DISK rec)%nat /\
  Z.of_nat (HDR + length rs * Store.DISK rec) <= SAR_PRESERVE_MAX_INDEX_FILE /\
  preserve_image k rs g <> [].
Proof.
  intros H Hc. rewrite preserve_image_eq. pose proof (length_image k rs g H) as Hl.
  unfold SAR_PRESERVE_RECORD_CAPACITY, SAR_PRESERVE_MAX_INDEX_FILE in *.
  assert (Hd : Z.of_nat (Store.DISK rec) = 1182) by (by vm_compute). change HDR with 52%nat in *.
  split_and!; [done|nia|]. intros E. rewrite E in Hl. simpl in Hl. lia.
Qed.

(** Link ids below which [next] is. *)
Lemma next_link_fresh rs next :
  next <= next_link rs next /\
  Forall (fun r => kind r = SAR_PRESERVE_KIND_NAMESPACE -> 0 <= payload_offset r < 2 ^ 63 ->
                   payload_offset r < next_link rs next) rs.
Proof.
  unfold next_link. revert next. induction rs as [|r rs IH]; intros next; [by split|]. cbn [fold_left].
  set (n := if _ && _ then _ else next). destruct (IH n) as [H1 H2].
  assert (Hn : next <= n /\ (kind r = SAR_PRESERVE_KIND_NAMESPACE -> 0 <= payload_offset r < 2 ^ 63 ->
                             payload_offset r < n)).
  { unfold n, as_long64. destruct (Z.eqb_spec (kind r) SAR_PRESERVE_KIND_NAMESPACE); [|done].
    destruct (Z.ltb_spec (payload_offset r) (2 ^ 63)); cbn [andb];
      match goal with |- context [next <=? ?b] => destruct (Z.leb_spec next b) end; lia. }
  split; [lia|]. constructor; [|done]. intros Hk Hr. specialize (proj2 Hn Hk Hr). lia.
Qed.

(** What loading makes of it. *)
Record loaded (p p' : SAR_PRESERVE) (rs : list rec) : Prop := {
  ld_records : records p' = rs;
  ld_keys : store_key p' = store_key p /\ mac_key p' = mac_key p;
  ld_free : free_ext p' = [] /\ data_high_water p' = 0 /\ (rs <> [] -> free_dirty p' = true);
  ld_ready : data_handle p' = true /\ ready p' = true;
  ld_links : Forall (fun r => kind r = SAR_PRESERVE_KIND_NAMESPACE -> 0 <= payload_offset r < 2 ^ 63 ->
                              payload_offset r < next_link_id p') rs
}.

Lemma pres_load_holds (fs : FS) fresh p rs g :
  SarPreserveCreate true true true = Some fresh -> disk_holds fs p rs g ->
  exists p' ops, SarPreserveLoad granted fs fresh = Ret (p', false, ops) /\ loaded p p' rs.
Proof.
  intros [= <-] (q&Hkf&Hq&Hs&Hm&Hd). unfold SarPreserveLoad.
  match goal with |- context [load_keys granted fs ?x] =>
    destruct (load_keys_holds fs x q Hkf Hq) as (ret&cap&->) end.
  cbn [data_open granted negb run_ops fold_left]. unfold load_index.
  cbn [SarPresOpenData set_keys anchor mac_key record_capacity index_read granted next_link_id have_key].
  destruct Hd as [(->&->&Hf&Hz)|(Hok&Hc&Hf&Had)].
  - unfold SarStoreReadAll. rewrite Hf. cbn [cbind]. eexists _, _. split; [done|]. by split.
  - destruct (index_small (mac_key p) rs g Hok Hc) as (Hlen&Hsz&Hne).
    rewrite (read_all_granted fs _ _ _ Hf Hne) by (rewrite Hlen; done).
    change (NT_SUCCESS STATUS_SUCCESS) with true. rewrite Hlen.
    replace (HDR <=? HDR + length rs * Store.DISK rec)%nat with true
      by (symmetry; apply Nat.leb_le; lia).
    cbn [andb]. rewrite Hm, preserve_verify_image by done.
    rewrite (admits_no_rollback _ _ _ _ Had). cbn [cbind].
    rewrite preserve_image_eq, image_take, image_drop by done.
    destruct (Z.ltb_spec SAR_PRESERVE_RECORD_CAPACITY (Z.of_nat (length rs))); [lia|].
    rewrite Nat2Z.id, image_read by done. eexists _, _. split; [done|].
    split; try done. simpl. apply next_link_fresh.
Qed.

(** ** Crashes and restarts *)

Lemma pres_holds_new (fs : FS) p q rs g :
  fs_get fs SAR_PRES_KEYFILE = Some (struct_bytes (SarPresFillBlob q)) -> keys_ok q ->
  store_key q = store_key p -> mac_key q = mac_key p ->
  table_ok rs g -> Z.of_nat (length rs) <= SAR_PRESERVE_RECORD_CAPACITY ->
  fs_get fs SAR_PRES_INDEX = Some (preserve_image (mac_key p) rs g) ->
  admits (anchor q) g (chain_of (mac_key p) rs g).2 -> disk_holds fs p rs g.
Proof. intros. exists q. split_and!; try done. by right. Qed.

(** Everything a crash during the replacement of the index can leave. *)
Lemma index_crashed env (fs fs' : FS) p rs g rs' :
  disk_holds fs p rs g -> table_ok rs' (g + 1) ->
  Z.of_nat (length rs') <= SAR_PRESERVE_RECORD_CAPACITY ->
  crashed (SarStoreWriteAtomic env SAR_PRES_INDEXTMP SAR_PRES_INDEX
             (preserve_image (mac_key p) rs' (g + 1))).2 fs fs' ->
  disk_holds fs' p rs g \/ disk_holds fs' p rs' (g + 1).
Proof using SFL.
  intros (q&Hkf&Hq&Hs&Hm&Hd) Hok Hc Hcr.
  destruct (write_atomic_crashed env SAR_PRES_INDEXTMP SAR_PRES_INDEX _ fs fs' ltac:(done) Hcr)
    as (H1&H2&_).
  assert (Hkf' : fs_get fs' SAR_PRES_KEYFILE = Some (struct_bytes (SarPresFillBlob q)))
    by (rewrite H1; done).
  destruct H2 as [E|E].
  - left. exists q. split_and!; try done. by rewrite E.
  - right. apply (pres_holds_new fs' p q); try done.
    destruct Hd as [(->&->&_&Hz)|(_&_&_&Had)]; [|by eapply admits_next].
    destruct Hz as [Hz|Hz]; [by left|right; left; lia].
Qed.

(** The anchor that a persist records for its own index. *)
Lemma pres_blob_crashed env (fs fs' : FS) p p1 rs g :
  disk_holds fs p rs g -> fs_get fs SAR_PRES_INDEX = Some (preserve_image (mac_key p) rs g) ->
  table_ok rs g -> Z.of_nat (length rs) <= SAR_PRESERVE_RECORD_CAPACITY -> keys_ok p1 ->
  store_key p1 = store_key p -> mac_key p1 = mac_key p ->
  anchor p1 = {| anchor_present := true; anchor_generation := g;
                 anchor_head_mac := (chain_of (mac_key p) rs g).2 |} ->
  crashed (SarPresWriteBlob env p1).2 fs fs' -> disk_holds fs' p rs g.
Proof using SFL.
  intros (q&Hkf&Hq&Hs&Hm&Hd) Hf Hok Hc Hk1 Hs1 Hm1 Ha1 Hcr.
  destruct (write_atomic_crashed env SAR_PRES_KEYTMP SAR_PRES_KEYFILE _ fs fs' ltac:(done) Hcr)
    as (H1&H2&_).
  assert (Hf' : fs_get fs' SAR_PRES_INDEX = Some (preserve_image (mac_key p) rs g)) by (rewrite H1; done).
  destruct H2 as [E|E].
  - rewrite Hkf in E. apply (pres_holds_new fs' p q); try done.
    destruct Hd as [(_&_&Hn&_)|(_&_&_&Had)]; [congruence|done].
  - apply (pres_holds_new fs' p p1); try done. rewrite Ha1. right. by right.
Qed.

(** [SarPresPersistIndex] with the image it writes. *)
Lemma persist_index_eq env p :
  table_ok (records p) (generation p + 1) -> is_u64 (generation p + 1) ->
  Z.of_nat (length (records p)) <= SAR_PRESERVE_RECORD_CAPACITY ->
  let g := generation p + 1 in
  let w := SarStoreWriteAtomic (index_write env) SAR_PRES_INDEXTMP SAR_PRES_INDEX
             (preserve_image (mac_key p) (records p) g) in
  let p1 := set_index g {| anchor_present := true; anchor_generation := g;
                           anchor_head_mac := (chain_of (mac_key p) (records p) g).2 |} p in
  SarPresPersistIndex env p =
    if negb (ibuf_alloc env) then (set_dirty true p, [])
    else if negb (NT_SUCCESS w.1) then (set_dirty true p, w.2)
    else (p1, w.2 ++ (SarPresWriteBlob (key_write env) p1).2).
Proof.
  intros Hok Hg Hc g w p1. unfold SarPresPersistIndex. rewrite (u64_small (generation p + 1)) by done. fold g.
  destruct (ibuf_alloc env); cbn [negb]; [|done].
  destruct (index_small (mac_key p) (records p) g Hok Hc) as (_&Hsz&_).
  set (need := sar_preserve_serialized_size _).
  assert (Hneed : (HDR + length (records p) * Store.DISK rec <= length (replicate (Z.to_nat need) 0%Z))%nat).
  { rewrite length_replicate. unfold need, sar_preserve_serialized_size.
    pose proof (tok_size _ _ Hok). rewrite serialized_size_exact by lia. lia. }
  destruct (preserve_serialize_ok (mac_key p) (records p) g _ Hok Hneed) as [-> Ht].
  rewrite bool_decide_eq_true_2 by done. cbn [negb].
  rewrite u32_small, Nat2Z.id, Ht by (unfold is_u, SAR_PRESERVE_MAX_INDEX_FILE in *; lia).
  fold w. destruct w as [st ops]. cbn [fst snd]. destruct (NT_SUCCESS st); cbn [negb]; [|done].
  assert (Hh : take HDR (mem_write (replicate (Z.to_nat need) 0) 0 (preserve_image (mac_key p) (records p) g)) =
               take HDR (preserve_image (mac_key p) (records p) g)).
  { rewrite <- Ht at 2. by rewrite take_take, Nat.min_l by lia. }
  by rewrite Hh, preserve_image_eq, image_take by done.
Qed.

Lemma persist_index_crashed env (fs : FS) p rs :
  disk_holds fs p rs (generation p) -> keys_ok p -> table_ok (records p) (generation p + 1) ->
  Z.of_nat (length (records p)) <= SAR_PRESERVE_RECORD_CAPACITY ->
  (forall fs', crashed (SarPresPersistIndex env p).2 fs fs' ->
     disk_holds fs' p rs (generation p) \/ disk_holds fs' p (records p) (generation p + 1)) /\
  (generation (SarPresPersistIndex env p).1 = generation p + 1 ->
   disk_holds (run_ops fs (SarPresPersistIndex env p).2) p (records p) (generation p + 1)).
Proof using SFL.
  intros Hd (Hk1&Hk2&Hk3&Hk4&Hk5) Hok Hc. pose proof (tok_gen _ _ Hok) as Hg.
  rewrite persist_index_eq by done.
  destruct (ibuf_alloc env); cbn [negb fst snd].
  2: { split; [intros fs' H; inversion H; subst; by left|]. simpl. lia. }
  pose proof (fun fs' => index_crashed (index_write env) fs fs' p rs (generation p) (records p) Hd Hok Hc) as Hl.
  pose proof (write_atomic_ok (index_write env) SAR_PRES_INDEXTMP SAR_PRES_INDEX
    (preserve_image (mac_key p) (records p) (generation p + 1)) fs ltac:(done)) as Hfile.
  destruct (SarStoreWriteAtomic (index_write env) _ _ _) as [st ops]. cbn [fst snd] in *.
  destruct (NT_SUCCESS st); cbn [negb fst snd].
  2: { split; [intros fs' H; by apply Hl|]. simpl. lia. }
  specialize (Hfile eq_refl).
  set (p1 := set_index _ _ p).
  assert (Hnew : disk_holds (run_ops fs ops) p (records p) (generation p + 1)).
  { destruct (Hl _ (crashed_run ops fs)) as [(q&Hkf&Hq&Hs&Hm&Hh)|Ho]; [|done].
    apply (pres_holds_new _ p q); try done.
    destruct Hh as [(_&_&Hn&_)|(_&_&_&Had)]; [congruence|by eapply admits_next]. }
  assert (Hk : keys_ok p1).
  { split_and!; try done. split; [done|apply chain_of_head]. }
  pose proof (fun fs' => pres_blob_crashed (key_write env) (run_ops fs ops) fs' p p1 (records p)
    (generation p + 1) Hnew Hfile Hok Hc Hk eq_refl eq_refl eq_refl) as Hb.
  split.
  - intros fs' [Hcr|Hcr]%crashed_app; [by apply Hl|right; by apply Hb].
  - intros _. unfold run_ops. rewrite fold_left_app.
    fold (run_ops fs ops). apply Hb. apply crashed_run.
Qed.

(** Property C21: a crash during a persist loses nothing of the index.  At every
    point of the call the disk loads, without a tamper alarm, to the index it
    held before or to the one being written, and after a persist that succeeds
    to the latter; the keys are the same, every restoration gives what it gave
    before the restart, and new link ids are above those in use. *)
Theorem preserve_restart {F} `{DataFile F} `{AesCbc} env (fs fs' : FS) p rs fresh :
  disk_holds fs p rs (generation p) -> keys_ok p -> table_ok (records p) (generation p + 1) ->
  Z.of_nat (length (records p)) <= SAR_PRESERVE_RECORD_CAPACITY ->
  data_handle p = true -> ready p = true -> SarPreserveCreate true true true = Some fresh ->
  crashed (SarPresPersistIndex env p).2 fs fs' ->
  (exists p' ops rs', SarPreserveLoad granted fs' fresh = Ret (p', false, ops) /\ loaded p p' rs' /\
     (rs' = rs \/ rs' = records p)) /\
  (generation (SarPresPersistIndex env p).1 = generation p + 1 ->
   exists p' ops,
     SarPreserveLoad granted (run_ops fs (SarPresPersistIndex env p).2) fresh = Ret (p', false, ops) /\
     loaded p p' (records p) /\
     forall renv (f : F) path o n cap,
       SarPreserveRestore renv p' f path o n cap = SarPreserveRestore renv p f path o n cap).
Proof using SFL.
  intros Hd Hk Hok Hc Hh Hr Hf Hcr.
  destruct (persist_index_crashed env fs p rs Hd Hk Hok Hc) as [H1 H2]. split.
  - destruct (H1 fs' Hcr) as [Hx|Hx];
      destruct (pres_load_holds _ _ _ _ _ Hf Hx) as (p'&ops&Hl&Hld); eexists p', ops, _;
      (split_and!; [exact Hl|exact Hld|by auto]).
  - intros Hgen. destruct (pres_load_holds _ _ _ _ _ Hf (H2 Hgen)) as (p'&ops&Hl&Hld).
    exists p', ops. split_and!; [done|done|]. intros renv f path o n cap.
    destruct Hld as [L1 [L2 _] _ [L3 L4] _]. unfold SarPreserveRestore, restore_find.
    rewrite L4, Hr, L1. destruct (cap <? n); [done|]. destruct (list_find _ _) as [[i r]|]; [|done].
    cbn [negb]. unfold restore_record, SarPresDataRead, SarPresCrypt. by rewrite L3, Hh, L2.
Qed.

(** ** An index that was cut short *)

Lemma verify_truncated k (rs : list rec) g n a :
  table_ok rs g -> (HDR <= n < HDR + length rs * Store.DISK rec)%nat ->
  sar_preserve_verify (Some (take n (preserve_image k rs g))) k a = Ret (SAR_PRES_TRUNCATED, 0).
Proof.
  intros Hok Hn. unfold sar_preserve_verify.
  assert (Hl : length (take n (preserve_image k rs g)) = n).
  { rewrite length_take, preserve_image_eq, length_image by done. lia. }
  rewrite Hl. destruct (Nat.ltb_spec n HDR); [lia|].
  rewrite take_take, Nat.min_l, preserve_image_eq, image_take by (done || lia).
  cbn [store_hdr StoreHdr.magic StoreHdr.record_count].
  change (negb (store_magic =? SEMANTICS_AR_PRESERVE_MAGIC)) with false.
  destruct (Z.ltb_spec ((Z.of_nat n - Z.of_nat HDR) / Z.of_nat (Store.DISK rec)) (Z.of_nat (length rs)))
    as [|Hge]; [done|]. exfalso.
  assert (Hd : Z.of_nat (Store.DISK rec) = 1182) by (by vm_compute). rewrite Hd in Hge.
  pose proof (Z.mul_div_le (Z.of_nat n - Z.of_nat HDR) 1182). nia.
Qed.

(** An index file that was cut short, at whatever length, loads as an
    empty store: its records are gone, the store is ready, and no tamper alarm
    is raised. *)
Theorem preserve_truncated_index_silent (fs : FS) fresh p rs g n :
  SarPreserveCreate true true true = Some fresh -> disk_holds fs p rs g ->
  fs_get fs SAR_PRES_INDEX = Some (preserve_image (mac_key p) rs g) ->
  (n < length (preserve_image (mac_key p) rs g))%nat ->
  exists p' ops,
    SarPreserveLoad granted (fs_set fs SAR_PRES_INDEX (take n (preserve_image (mac_key p) rs g))) fresh
      = Ret (p', false, ops) /\
    records p' = [] /\ ready p' = true.
Proof using SFL.
  intros [= <-] (q&Hkf&Hq&Hs&Hm&Hd) Hi Hn.
  destruct Hd as [(_&_&Hi'&_)|(Hok&Hc&_&_)]; [congruence|].
  destruct (index_small (mac_key p) rs g Hok Hc) as (Hlen&Hsz&Hne). rewrite Hlen in Hn.
  set (fs1 := fs_set _ _ _). unfold SarPreserveLoad.
  match goal with |- context [load_keys granted fs1 ?x] =>
    destruct (load_keys_holds fs1 x q) as (ret&cap&->) end; [unfold fs1; by rewrite fs_get_set_ne|done|].
  cbn [data_open granted negb run_ops fold_left]. unfold load_index.
  cbn [SarPresOpenData set_keys anchor mac_key record_capacity index_read granted next_link_id have_key].
  assert (Hg : fs_get fs1 SAR_PRES_INDEX = Some (take n (preserve_image (mac_key p) rs g)))
    by (unfold fs1; apply fs_get_set).
  assert (Hl : length (take n (preserve_image (mac_key p) rs g)) = n)
    by (rewrite length_take, Hlen; lia).
  destruct n as [|n].
  { unfold SarStoreReadAll. rewrite Hg. cbn. by eexists _, _. }
  rewrite (read_all_granted fs1 _ _ _ Hg) by (try (intros E; rewrite E in Hl; done); rewrite Hl; lia).
  change (NT_SUCCESS STATUS_SUCCESS) with true. rewrite Hl. cbn [andb].
  destruct (Nat.leb_spec HDR (S n)).
  - rewrite Hm, verify_truncated by (done || lia). cbn [cbind]. by eexists _, _.
  - cbn [cbind]. by eexists _, _.
Qed.

End Load.

(** ** A concrete run *)

Definition demo_disk : gmap string bytes :=
  <[SAR_PRES_KEYFILE := struct_bytes (SarPresFillBlob (demo_store 4096))]> ∅.

Definition demo_persist_env : persist_env :=
  {| ibuf_alloc := true; index_write := write_granted; key_write := write_granted |}.

Definition demo_full : SAR_PRESERVE := set_records [demo_rec 0 10 5 16] (demo_store 4096).

Lemma demo_keys_ok cap : is_u64 cap -> keys_ok (demo_store cap).
Proof.
  intros Hc. split_and!; try done; try (split; [done|by apply forall_u_check]).
  split; [by vm_compute|]. split; [done|by apply forall_u_check].
Qed.

Lemma demo_disk_holds : disk_holds demo_disk demo_full [] 0.
Proof.
  exists (demo_store 4096). split_and!; try done; [by apply demo_keys_ok|].
  left. split_and!; try done. by left.
Qed.

Lemma pres_demo_full_ok : table_ok (records demo_full) 1.
Proof.
  split; [|by vm_compute|by vm_compute].
  apply Forall_singleton. apply preserve_demo_rec_wf; by vm_compute.
Qed.

(** One record is persisted and the driver restarted. *)
Lemma preserve_restart_witness :
  exists fresh p' ops, SarPreserveCreate true true true = Some fresh /\
    SarPreserveLoad granted (run_ops demo_disk (SarPresPersistIndex demo_persist_env demo_full).2) fresh
      = Ret (p', false, ops) /\
    loaded demo_full p' (records demo_full).
Proof.
  destruct (SarPreserveCreate true true true) as [fresh|] eqn:Hf; [|done].
  destruct (preserve_restart (F := write_log) demo_persist_env demo_disk demo_disk demo_full [] fresh
    demo_disk_holds (demo_keys_ok 4096 ltac:(done)) pres_demo_full_ok ltac:(done) eq_refl eq_refl Hf
    (crash_here _ _)) as [_ H].
  destruct H as (p'&ops&Hl&Hld&_).
  - by rewrite persist_index_eq by (try apply pres_demo_full_ok; done).
  - exists fresh, p', ops. split_and!; [done|exact Hl|exact Hld].
Defined.

(** The index with one record, cut in the middle of it. *)
Definition demo_index_disk : gmap string bytes :=
  <[SAR_PRES_INDEX := preserve_image (mac_key demo_full) (records demo_full) 1]> demo_disk.

Lemma demo_index_holds : disk_holds demo_index_disk demo_full (records demo_full) 1.
Proof.
  exists (demo_store 4096). split_and!; try done; [by apply demo_keys_ok|].
  right. split_and!; [apply pres_demo_full_ok|done| |by left].
  unfold demo_index_disk. simpl. by rewrite lookup_insert_eq.
Qed.

Lemma preserve_truncated_index_silent_witness :
  exists fresh p' ops, SarPreserveCreate true true true = Some fresh /\
    SarPreserveLoad granted (fs_set demo_index_disk SAR_PRES_INDEX
      (take 100 (preserve_image (mac_key demo_full) (records demo_full) 1))) fresh = Ret (p', false, ops) /\
    records p' = [].
Proof.
  destruct (SarPreserveCreate true true true) as [fresh|] eqn:Hf; [|done].
  destruct (preserve_truncated_index_silent demo_index_disk fresh demo_full (records demo_full) 1 100 Hf
    demo_index_holds) as (p'&ops&Hl&Hr&_).
  - unfold demo_index_disk. simpl. by rewrite lookup_insert_eq.
  - rewrite (proj1 (index_small _ _ _ pres_demo_full_ok ltac:(done))). by apply Nat.ltb_lt.
  - exists fresh, p', ops. split_and!; [done|exact Hl|exact Hr].
Defined.

End PreservePersist.
