(* ===== verification/Calls.v ===== *)
(** * Programs that call the system

    A small monad for driver code that allocates pool memory and reads and
    writes files: every call of the system takes its answer from a stream, a
    refused write may have been done in part, and [goto cleanup] leaves the
    program with a result.  [wp] is total correctness: a program that satisfies
    it returns, without running out of fuel and without reading outside a
    buffer. *)

From stdpp Require Import gmap.
From S2P Require Import Prelude Mem Chain.

(** A UTF-16 path without its terminator. *)
Definition file_name : Type := list Z.

(** The answer to one call.  The number of a refusal is the error code, or for a
    write the bytes that were written before it failed. *)
Inductive answer := Granted | Refused (n : nat).

Record world := {
  files : gmap file_name bytes;
  answers : nat -> answer;
  calls : nat
}.

Definition set_files (f : gmap file_name bytes) (w : world) : world :=
  {| files := f; answers := answers w; calls := calls w |}.
Definition next_call (w : world) : world :=
  {| files := files w; answers := answers w; calls := S (calls w) |}.

(** [inl r] is [goto cleanup] with the result [r]. *)
Definition prog (R A : Type) : Type := world -> cres ((R + A) * world).

Section Monad.
Context {R : Type}.

Definition pret {A} (a : A) : prog R A := fun w => Ret (inr a, w).
Definition cleanup {A} (r : R) : prog R A := fun w => Ret (inl r, w).
Definition pbind {A B} (m : prog R A) (k : A -> prog R B) : prog R B := fun w =>
  match m w with
  | Ret (inr a, w) => k a w
  | Ret (inl r, w) => Ret (inl r, w)
  | OutOfBounds => OutOfBounds
  | NoFuel => NoFuel
  end.
(** A computation of the engine. *)
Definition plift {A} (c : cres A) : prog R A := fun w =>
  match c with
  | Ret a => Ret (inr a, w)
  | OutOfBounds => OutOfBounds
  | NoFuel => NoFuel
  end.

End Monad.

Declare Scope prog_scope.
Delimit Scope prog_scope with prog.
Notation "'let*' x := m 'in' k" := (pbind m (fun x => k))
  (at level 10, x pattern, m at level 100, k at level 200) : prog_scope.

(** ** Calls *)

(** [b] with [data] written at [off]; a gap is filled with zeros. *)
Definition pwrite (b : bytes) (off : nat) (data : bytes) : bytes :=
  take off (b ++ replicate (off - length b) 0) ++ data ++ drop (off + length data) b.

(** The file cut or extended with zeros to [n] bytes. *)
Definition set_size (b : bytes) (n : nat) : bytes := take n b ++ replicate (n - length b) 0.

Section Calls.
Context {R : Type}.
Open Scope prog_scope.

Definition ask : prog R answer := fun w => Ret (inr (answers w (calls w)), next_call w).

(** Calls without an effect that the programs observe: allocations, flushing. *)
Definition request : prog R bool :=
  let* a := ask in pret match a with Granted => true | Refused _ => false end.

(** FILE_OPEN; the file must exist. *)
Definition open_file (p : file_name) : prog R bool :=
  let* ok := request in
  fun w => Ret (inr (ok && bool_decide (is_Some (files w !! p))), w).

(** FILE_OVERWRITE_IF: the file is there afterwards, and empty. *)
Definition create_file (p : file_name) : prog R bool :=
  let* ok := request in
  fun w => Ret (inr ok, if ok then set_files (<[p := []]> (files w)) w else w).

Definition query_size (p : file_name) : prog R (option Z) :=
  let* ok := request in
  fun w => Ret (inr (if ok then (fun b => Z.of_nat (length b)) <$> files w !! p else None), w).

(** A read at or after the end fails; otherwise it returns what there is. *)
Definition read_file (p : file_name) (off n : Z) : prog R (option bytes) :=
  let* ok := request in
  fun w => Ret (inr (if ok then
                       match files w !! p with
                       | Some b => if off <? Z.of_nat (length b)
                                   then Some (take (Z.to_nat n) (drop (Z.to_nat off) b)) else None
                       | None => None
                       end
                     else None), w).

Definition write_file (p : file_name) (off : Z) (data : bytes) : prog R bool :=
  let* a := ask in
  let data := match a with Granted => data | Refused n => take n data end in
  fun w => Ret (inr (match a with Granted => true | Refused _ => false end),
                set_files (alter (fun b => pwrite b (Z.to_nat off) data) p (files w)) w).

Definition resize_file (p : file_name) (n : Z) : prog R bool :=
  let* ok := request in
  fun w => Ret (inr ok, if ok then set_files (alter (fun b => set_size b (Z.to_nat n)) p (files w)) w else w).

End Calls.

(** ** Total correctness *)

Definition wp {R A} (m : prog R A) (w : world) (Q : A -> world -> Prop) (X : R -> world -> Prop) : Prop :=
  exists r w', m w = Ret (r, w') /\ match r with inr a => Q a w' | inl x => X x w' end.

Create HintDb wp.

Section Wp.
Context {R : Type}.
Implicit Types X : R -> world -> Prop.

Lemma wp_ret {A} (a : A) w Q X : Q a w -> wp (pret a) w Q X.
Proof. intros H. by exists (inr a), w. Qed.

Lemma wp_cleanup {A} r w (Q : A -> world -> Prop) X : X r w -> wp (cleanup r) w Q X.
Proof. intros H. by exists (inl r), w. Qed.

Lemma wp_bind {A B} (m : prog R A) (k : A -> prog R B) w Q X :
  wp m w (fun a w => wp (k a) w Q X) X -> wp (pbind m k) w Q X.
Proof.
  intros (r&w'&Hm&H). unfold wp, pbind. rewrite Hm. destruct r as [x|a].
  - by exists (inl x), w'.
  - destruct H as (r&w''&Hk&H). by exists r, w''.
Qed.

Lemma wp_mono {A} (m : prog R A) w (Q Q' : A -> world -> Prop) X X' :
  wp m w Q X -> (forall a w, Q a w -> Q' a w) -> (forall x w, X x w -> X' x w) -> wp m w Q' X'.
Proof. intros (r&w'&Hm&H) HQ HX. exists r, w'. split; [done|]. destruct r; auto. Qed.

Lemma wp_lift {A} (c : cres A) a w (Q : A -> world -> Prop) X : c = Ret a -> Q a w -> wp (plift c) w Q X.
Proof. intros -> H. by exists (inr a), w. Qed.

(** The rules for calls: [w'] is the world with the call counted. *)
Lemma wp_request w Q X : (forall b, Q b (next_call w)) -> wp (R := R) request w Q X.
Proof. intros H. eexists (inr _), _. split; [done|apply H]. Qed.

Lemma wp_open p w Q X :
  (is_Some (files w !! p) -> Q true (next_call w)) -> Q false (next_call w) -> wp (R := R) (open_file p) w Q X.
Proof.
  intros H1 H2. eexists (inr _), _. split; [done|]. cbn [files next_call].
  destruct (answers w (calls w)); cbn [andb]; [|done].
  destruct (files w !! p); [by apply H1|done].
Qed.

Lemma wp_create p w Q X :
  Q true (set_files (<[p := []]> (files w)) (next_call w)) -> Q false (next_call w) ->
  wp (R := R) (create_file p) w Q X.
Proof.
  intros H1 H2. eexists (inr _), _. split; [done|]. by destruct (answers w (calls w)).
Qed.

Lemma wp_query p w Q X :
  (forall b, files w !! p = Some b -> Q (Some (Z.of_nat (length b))) (next_call w)) ->
  Q None (next_call w) -> wp (R := R) (query_size p) w Q X.
Proof.
  intros H1 H2. eexists (inr _), _. split; [done|]. cbn [files next_call].
  destruct (answers w (calls w)); [|done]. destruct (files w !! p) eqn:E; [by apply H1|done].
Qed.

Lemma wp_read p off n w Q X :
  (forall b, files w !! p = Some b -> off < Z.of_nat (length b) ->
     Q (Some (take (Z.to_nat n) (drop (Z.to_nat off) b))) (next_call w)) ->
  Q None (next_call w) -> wp (R := R) (read_file p off n) w Q X.
Proof.
  intros H1 H2. eexists (inr _), _. split; [done|]. cbn [files next_call].
  destruct (answers w (calls w)); [|done]. destruct (files w !! p) as [b|] eqn:E; [|done].
  destruct (Z.ltb_spec off (Z.of_nat (length b))); [by apply H1|done].
Qed.

Lemma wp_write p off data w Q X :
  (forall ok d, (ok = true -> d = data) ->
     Q ok (set_files (alter (fun b => pwrite b (Z.to_nat off) d) p (files w)) (next_call w))) ->
  wp (R := R) (write_file p off data) w Q X.
Proof.
  intros H. unfold wp, write_file, pbind, ask. destruct (answers w (calls w)) as [|n].
  - eexists (inr true), _. split; [done|]. by apply H.
  - eexists (inr false), _. split; [done|]. by apply H.
Qed.

Lemma wp_resize p n w Q X :
  Q true (set_files (alter (fun b => set_size b (Z.to_nat n)) p (files w)) (next_call w)) ->
  Q false (next_call w) -> wp (R := R) (resize_file p n) w Q X.
Proof.
  intros H1 H2. eexists (inr _), _. split; [done|]. by destruct (answers w (calls w)).
Qed.

End Wp.

(** ** When every call succeeds *)

Lemma alter_as_insert (f : bytes -> bytes) (m : gmap file_name bytes) p b :
  m !! p = Some b -> alter f p m = <[p := f b]> m.
Proof.
  intros H. apply map_eq. intros q. destruct (decide (q = p)) as [->|].
  - by rewrite lookup_alter_eq, H, lookup_insert_eq.
  - by rewrite lookup_alter_ne, lookup_insert_ne.
Qed.

Definition granted (w : world) : Prop := forall n, answers w n = Granted.

Section Granted.
Context {R : Type}.
Implicit Types X : R -> world -> Prop.

Lemma gwp_request w Q X : granted w -> Q true (next_call w) -> wp (R := R) request w Q X.
Proof. intros Hg H. eexists (inr _), _. split; [done|]. by rewrite Hg. Qed.

Lemma gwp_open p w b Q X :
  granted w -> files w !! p = Some b -> Q true (next_call w) -> wp (R := R) (open_file p) w Q X.
Proof.
  intros Hg Hp H. eexists (inr _), _. split; [done|]. cbn [files next_call]. by rewrite Hg, Hp.
Qed.

Lemma gwp_create p w Q X :
  granted w -> Q true (set_files (<[p := []]> (files w)) (next_call w)) -> wp (R := R) (create_file p) w Q X.
Proof. intros Hg H. eexists (inr _), _. split; [done|]. cbn [files next_call]. by rewrite Hg. Qed.

Lemma gwp_query p w b Q X :
  granted w -> files w !! p = Some b -> Q (Some (Z.of_nat (length b))) (next_call w) ->
  wp (R := R) (query_size p) w Q X.
Proof. intros Hg Hp H. eexists (inr _), _. split; [done|]. cbn [files next_call]. by rewrite Hg, Hp. Qed.

Lemma gwp_read p off n w b Q X :
  granted w -> files w !! p = Some b -> off < Z.of_nat (length b) ->
  Q (Some (take (Z.to_nat n) (drop (Z.to_nat off) b))) (next_call w) -> wp (R := R) (read_file p off n) w Q X.
Proof.
  intros Hg Hp Ho H. eexists (inr _), _. split; [done|]. cbn [files next_call]. rewrite Hg, Hp.
  by destruct (Z.ltb_spec off (Z.of_nat (length b))); [|lia].
Qed.

Lemma gwp_write p off data w b Q X :
  granted w -> files w !! p = Some b ->
  (forall w', answers w' = answers w -> files w' = <[p := pwrite b (Z.to_nat off) data]> (files w) -> Q true w') ->
  wp (R := R) (write_file p off data) w Q X.
Proof.
  intros Hg Hp H. unfold wp, write_file, pbind, ask. rewrite Hg.
  eexists (inr true), _. split; [done|]. apply H; [done|]. cbn [files set_files next_call].
  by rewrite (alter_as_insert _ _ _ _ Hp).
Qed.

Lemma gwp_resize p n w b Q X :
  granted w -> files w !! p = Some b ->
  (forall w', answers w' = answers w -> files w' = <[p := set_size b (Z.to_nat n)]> (files w) -> Q true w') ->
  wp (R := R) (resize_file p n) w Q X.
Proof.
  intros Hg Hp H. eexists (inr _), _. split; [done|]. cbn [files next_call]. rewrite Hg.
  apply H; [done|]. cbn [files set_files next_call]. by rewrite (alter_as_insert _ _ _ _ Hp).
Qed.

End Granted.

#[export] Hint Resolve wp_ret wp_cleanup : wp.

(** Runs through a program up to the next branch or loop. *)
Ltac wp_step :=
  match goal with
  | |- wp (pbind _ _) _ _ _ => apply wp_bind
  | |- wp (pret _) _ _ _ => apply wp_ret
  | |- wp (cleanup _) _ _ _ => apply wp_cleanup
  | |- wp request _ _ _ => apply wp_request; intros []
  | |- wp (open_file _) _ _ _ => apply wp_open; [intros ?|]
  | |- wp (create_file _) _ _ _ => apply wp_create
  | |- wp (query_size _) _ _ _ => apply wp_query; [intros ? ?|]
  | |- wp (read_file _ _ _) _ _ _ => apply wp_read; [intros ? ? ?|]
  | |- wp (write_file _ _ _) _ _ _ => apply wp_write; intros [] ? ?
  | |- wp (resize_file _ _) _ _ _ => apply wp_resize
  end.
