(* ===== verification/DriverRecovery.v ===== *)
(** * Recovery in the driver (driver/recovery.c, service/recovery.c)

    The driver builds the recovered content in a temporary file beside the
    target, from the keystore ([SarRecoveryExecute]) or from the preservation
    store ([SarPreserveRecoveryExecute]); the service then replaces the target by
    it.  A buffer obtained from [ExAllocatePool2] is zero at first; it is
    represented by the bytes written to it so far.  The target does not change
    while the driver has it open, which its share mode excludes. *)

From stdpp Require Import gmap.
From S2P Require Import Prelude Mem Format Sha256 Chain Keystore CipherCommon Modes Recover.
From S2P Require Import KeystorePersist DriverState Preserve DriverPreserve Calls.
Import Mem Layout Modes Recover.
Import DriverState (NTSTATUS, NT_SUCCESS).

Module DriverRecovery.

Open Scope prog_scope.

Definition SEMANTICS_AR_PROTO_PATH_MAX : nat := 260.
Definition SAR_PRESERVE_STAGE_MAX : Z := 4 * 1024 * 1024.

(** L"\\??\\" and L".sarrectmp" *)
Definition SAR_REC_NT_PREFIX : list Z := [92; 63; 63; 92].
Definition SAR_REC_TMP_SUFFIX : list Z := [46; 115; 97; 114; 114; 101; 99; 116; 109; 112].

(** The characters before the terminator, at most [n]. *)
Fixpoint upto_nul (n : nat) (s : list Z) : list Z :=
  match n, s with
  | S n, c :: s => if c =? 0 then [] else c :: upto_nul n s
  | _, _ => []
  end.

(** The names of the target and of the temporary file; [None] is 0. *)
Definition SarRecBuildPaths (In : list Z) : option (file_name * file_name) :=
  let prefix := if rd In 0 =? 92 then [] else SAR_REC_NT_PREFIX in
  match upto_nul SEMANTICS_AR_PROTO_PATH_MAX In with
  | [] => None
  | s => Some (prefix ++ s, prefix ++ s ++ SAR_REC_TMP_SUFFIX)
  end.

(** The first [n] bytes of a buffer, at least. *)
Definition buffer (b : bytes) (n : Z) : bytes := b ++ replicate (Z.to_nat n - length b) 0.

Abbreviation rprog := (prog sar_recover_status_t).

Definition SarRecWriteTemp (Path : file_name) (Buf : bytes) : rprog bool :=
  let* ok := create_file Path in
  if negb ok then pret false
  else
    let* ok := if (0 <? length Buf)%nat then write_file Path 0 Buf else pret true in
    if negb ok then pret false else request.

(** ** Recovery with a captured key *)

(** The size of the piece at [pos] of a region that ends at [stop]. *)
Definition piece (pos stop : Z) : Z :=
  if SAR_PRESERVE_STAGE_MAX <? stop - pos then SAR_PRESERVE_STAGE_MAX else stop - pos.

(** The number of pieces, and one round more. *)
Definition rounds (len : Z) : nat := S (S (Z.to_nat (len / SAR_PRESERVE_STAGE_MAX))).

(** How many bytes of ciphertext before [pos] are read along. *)
Definition prefix_of_pos (pos : Z) : Z := if 16 <=? pos then 16 else 0.

(** The trial decryption of the sample: the verdict and [ptchunk]. *)
Definition check_sample (target : file_name) (rk : sar_recovery_key_t)
    (record : KsRec.semantics_ar_keystore_record_t) (off targetlen : Z) (pt : bytes) : rprog (bool * bytes) :=
  let soff := KsRec.sample_offset record in
  let slen := KsRec.sample_length record in
  let prefix := prefix_of_pos soff in
  let* r := read_file target (soff - prefix) (prefix + slen) in
  match r with
  | None => pret (false, pt)
  | Some ct =>
    let* (st, pt) := plift (sar_recover_chunk rk SAR_CTR_CONTINUOUS ct (Z.to_nat prefix) (buffer pt slen)
                              off soff slen soff targetlen) in
    pret (bool_decide (st = SAR_RECOVER_OK) &&
          bool_decide (Keystore.sar_sample_tag (Some pt) slen = KsRec.sample_tag record), pt)
  end.

(** The temporary file is a copy of the target at first. *)
Fixpoint copy_loop (fuel : nat) (target temp : file_name) (targetlen pos : Z) : rprog unit :=
  match fuel with
  | O => plift NoFuel
  | S fuel =>
    if pos <? targetlen then
      let* r := read_file target pos (piece pos targetlen) in
      match r with
      | None => cleanup SAR_RECOVER_DECLINED_TARGET_IO
      | Some ct =>
        let* ok := write_file temp pos ct in
        if ok then copy_loop fuel target temp targetlen (u64 (pos + SAR_PRESERVE_STAGE_MAX))
        else cleanup SAR_RECOVER_DECLINED_TARGET_IO
      end
    else pret tt
  end.

(** The pieces of the range from [pos] to [stop]; the result is [ptchunk]. *)
Fixpoint range_loop (fuel : nat) (target temp : file_name) (rk : sar_recovery_key_t)
    (off stop targetlen pos : Z) (pt : bytes) : rprog bytes :=
  match fuel with
  | O => plift NoFuel
  | S fuel =>
    if pos <? stop then
      let wlen := piece pos stop in
      let pfx := prefix_of_pos pos in
      let* r := read_file target (pos - pfx) (pfx + wlen) in
      match r with
      | None => cleanup SAR_RECOVER_DECLINED_TARGET_IO
      | Some ct =>
        let* (st, pt) := plift (sar_recover_chunk rk SAR_CTR_CONTINUOUS ct (Z.to_nat pfx) (buffer pt wlen)
                                  off pos wlen pos targetlen) in
        if negb (bool_decide (st = SAR_RECOVER_OK)) then cleanup SAR_RECOVER_DECLINED_MISMATCH
        else
          let* ok := write_file temp pos (take (Z.to_nat wlen) pt) in
          if ok then range_loop fuel target temp rk off stop targetlen (u64 (pos + SAR_PRESERVE_STAGE_MAX)) pt
          else cleanup SAR_RECOVER_DECLINED_TARGET_IO
      end
    else pret pt
  end.

(** The variables of the loop over the records. *)
Record progress := {
  matched : bool;
  applied : Z;
  recovered : Z;
  recoveredEnd : Z;
  oh : bool;
  ptchunk : bytes
}.

Definition start : progress :=
  {| matched := false; applied := 0; recovered := 0; recoveredEnd := 0; oh := false; ptchunk := [] |}.

(** [continue] after the key id has matched. *)
Definition skip (pt : bytes) (s : progress) : progress :=
  {| matched := true; applied := applied s; recovered := recovered s; recoveredEnd := recoveredEnd s;
     oh := oh s; ptchunk := pt |}.

(** The first record that applies opens the temporary file. *)
Definition open_temp (target temp : file_name) (targetlen : Z) (s : progress) : rprog unit :=
  if oh s then pret tt
  else
    let* ok := create_file temp in
    if negb ok then cleanup SAR_RECOVER_DECLINED_TARGET_IO
    else copy_loop (rounds targetlen) target temp targetlen 0.

(** The length of the range of a record in a file of [targetlen] bytes. *)
Definition range_len (record : KsRec.semantics_ar_keystore_record_t) (targetlen : Z) : Z :=
  let rlen := KsRec.provenance_length record in
  let rest := targetlen - KsRec.provenance_offset record in
  if (rlen =? 0) || (rest <? rlen) then rest else rlen.

(** The sample lies in the range and in the buffer. *)
Definition sample_fits (record : KsRec.semantics_ar_keystore_record_t) (off rlen : Z) : bool :=
  let soff := KsRec.sample_offset record in
  let slen := KsRec.sample_length record in
  negb ((slen =? 0) || (SAR_PRESERVE_STAGE_MAX <? slen) || (soff <? off) ||
        (u64 (off + rlen) <? u64 (soff + slen))).

(** One round of the loop over the records. *)
Definition record_step (target temp : file_name) (targetlen : Z) (KeyId : bytes)
    (record : KsRec.semantics_ar_keystore_record_t) (s : progress) : rprog progress :=
  let off := KsRec.provenance_offset record in
  let rlen := range_len record targetlen in
  if negb (bool_decide (KsRec.key_id record = KeyId)) then pret s
  else if targetlen <=? off then pret (skip (ptchunk s) s)
  else if negb (sample_fits record off rlen) then pret (skip (ptchunk s) s)
  else
    let rk := sar_recovery_key_from_record record in
    let* (good, pt) := check_sample target rk record off targetlen (ptchunk s) in
    if negb good then pret (skip pt s)
    else
      let* _ := open_temp target temp targetlen s in
      let* pt := range_loop (rounds rlen) target temp rk off (u64 (off + rlen)) targetlen off pt in
      pret {| matched := true; applied := applied s + 1; recovered := u64 (recovered s + rlen);
              recoveredEnd := if recoveredEnd s <? u64 (off + rlen) then u64 (off + rlen) else recoveredEnd s;
              oh := true; ptchunk := pt |}.

Fixpoint record_loop (target temp : file_name) (targetlen : Z) (KeyId : bytes)
    (rs : list KsRec.semantics_ar_keystore_record_t) (s : progress) : rprog progress :=
  match rs with
  | [] => pret s
  | r :: rs =>
    let* s := record_step target temp targetlen KeyId r s in
    record_loop target temp targetlen KeyId rs s
  end.

(** What follows the loop: [*BytesRecovered]. *)
Definition finish (temp : file_name) (targetlen : Z) (s : progress) : rprog Z :=
  if negb (matched s) then cleanup SAR_RECOVER_DECLINED_NO_KEY_ID
  else if applied s =? 0 then cleanup SAR_RECOVER_DECLINED_MISMATCH
  else
    let* ok := if oh s && (recoveredEnd s <? targetlen) then resize_file temp (recoveredEnd s) else pret true in
    if negb ok then cleanup SAR_RECOVER_DECLINED_TARGET_IO
    else
      let* ok := if oh s then request else pret true in
      if negb ok then cleanup SAR_RECOVER_DECLINED_TARGET_IO else pret (recovered s).

(** The keystore is the one the last query of the loop sees: records are only
    ever appended. *)
Definition SarRecoveryExecute (ks : option KeystorePersist.SAR_KEYSTORE) (KeyId : bytes)
    (TargetPath : list Z) : rprog Z :=
  match ks with
  | Some ks =>
    if negb (KeystorePersist.ready ks) then cleanup SAR_RECOVER_DECLINED_TARGET_IO
    else
      let* ok := request in
      if negb ok then cleanup SAR_RECOVER_INVALID
      else
        match SarRecBuildPaths TargetPath with
        | None => cleanup SAR_RECOVER_INVALID
        | Some (target, temp) =>
          let* record := request in
          let* ctchunk := request in
          let* ptchunk := request in
          if negb (record && ctchunk && ptchunk) then cleanup SAR_RECOVER_INVALID
          else
            let* th := open_file target in
            if negb th then cleanup SAR_RECOVER_DECLINED_TARGET_IO
            else
              let* si := query_size target in
              let targetlen := default 0 si in
              if targetlen =? 0 then
                let* ok := SarRecWriteTemp temp [] in
                cleanup (if ok then SAR_RECOVER_OK else SAR_RECOVER_DECLINED_TARGET_IO)
              else
                let* s := record_loop target temp targetlen KeyId (KeystorePersist.records ks) start in
                finish temp targetlen s
        end
  | None => cleanup SAR_RECOVER_DECLINED_TARGET_IO
  end.

(** ** Recovery of a preserved region *)

(** What the object manager answers for the name of the target: the name of
    the opened file, or the target of the drive's symbolic link. *)
Record resolve_env := {
  opened : bool;
  object_name : option (list Z);
  link_target : option (list Z)
}.

(** [NtPath]: 260 characters. *)
Definition SarRecResolveNtPath (env : resolve_env) (DosPath : file_name) : list Z :=
  let zero := replicate SEMANTICS_AR_PROVENANCE_PATH_MAX 0 in
  let room := (SEMANTICS_AR_PROVENANCE_PATH_MAX - 1)%nat in
  if opened env then
    match object_name env with
    | Some n => mem_write zero 0 (take room n)
    | None => zero
    end
  else if (length DosPath <? 7)%nat then zero
  else
    match link_target env with
    | Some dev => mem_write zero 0 (take room (dev ++ drop 6 DosPath))
    | None => zero
    end.

(** The piece of [size] bytes at [pos]: the target's bytes, then the region. *)
Definition overlay (chunk region : bytes) (off rlen pos size : Z) : bytes :=
  let ostart := if pos <? off then off else pos in
  let oend := if u64 (off + rlen) <? u64 (pos + size) then u64 (off + rlen) else u64 (pos + size) in
  if ostart <? oend
  then mem_write chunk (Z.to_nat (ostart - pos))
         (take (Z.to_nat (oend - ostart)) (drop (Z.to_nat (ostart - off)) region))
  else chunk.

(** The loop over the pieces; [th] is whether the target is open. *)
Fixpoint overlay_loop (fuel : nat) (target temp : file_name) (th : bool) (targetlen final_size : Z)
    (region : bytes) (off rlen pos : Z) : rprog unit :=
  match fuel with
  | O => plift NoFuel
  | S fuel =>
    if pos <? final_size then
      let csize := piece pos final_size in
      let zero := replicate (Z.to_nat csize) 0 in
      let* chunk :=
        if th && (pos <? targetlen) then
          let rd := if csize <? targetlen - pos then csize else targetlen - pos in
          let* r := read_file target pos rd in
          match r with
          | None => cleanup SAR_RECOVER_DECLINED_TARGET_IO
          | Some b => pret (mem_write zero 0 b)
          end
        else pret zero in
      let* ok := write_file temp pos (overlay chunk region off rlen pos csize) in
      if ok then overlay_loop fuel target temp th targetlen final_size region off rlen
                   (u64 (pos + SAR_PRESERVE_STAGE_MAX))
      else cleanup SAR_RECOVER_DECLINED_TARGET_IO
    else pret tt
  end.

Section PreserveRecovery.
Context {F : Type} `{DataFile F} `{AesCbc}.

(** [renv] answers the calls of [SarPreserveRestore], [nenv] those of the name
    resolution. *)
Definition SarPreserveRecoveryExecute (renv : DriverPreserve.restore_env) (nenv : resolve_env)
    (preserve : option (DriverPreserve.SAR_PRESERVE * F)) (TargetPath : list Z) (off rlen : Z) : rprog Z :=
  match preserve with
  | None => cleanup SAR_RECOVER_DECLINED_TARGET_IO
  | Some (p, f) =>
    if (rlen =? 0) || (u64 (off + rlen) <? off) then cleanup SAR_RECOVER_INVALID
    else
      let* ok := request in
      if negb ok then cleanup SAR_RECOVER_INVALID
      else
        match SarRecBuildPaths TargetPath with
        | None => cleanup SAR_RECOVER_INVALID
        | Some (target, temp) =>
          let* region := request in
          let* chunk := request in
          if negb (region && chunk) then cleanup SAR_RECOVER_INVALID
          else
            let resolved := SarRecResolveNtPath nenv target in
            let provpath := if negb (rd resolved 0 =? 0) then resolved else TargetPath in
            let '(status, region) := DriverPreserve.SarPreserveRestore renv p f provpath off rlen (u32 rlen) in
            if negb (NT_SUCCESS status) || negb (Z.of_nat (length region) =? u32 rlen)
            then cleanup SAR_RECOVER_DECLINED_MISMATCH
            else
              let* th := open_file target in
              let* si := if th then query_size target else pret None in
              let targetlen := default 0 si in
              let final_size := if targetlen <? u64 (off + rlen) then u64 (off + rlen) else targetlen in
              let* ok := create_file temp in
              if negb ok then cleanup SAR_RECOVER_DECLINED_TARGET_IO
              else
                let* _ := overlay_loop (rounds final_size) target temp th targetlen final_size region off rlen 0 in
                let* ok := request in
                if negb ok then cleanup SAR_RECOVER_DECLINED_TARGET_IO else pret rlen
        end
  end.

End PreserveRecovery.

(** ** The service *)

(** The status and [bytes_recovered] of the reply. *)
Definition reply (m : rprog Z) : prog Empty_set (sar_recover_status_t * Z) := fun w =>
  match m w with
  | Ret (inr n, w) => Ret (inr (SAR_RECOVER_OK, n), w)
  | Ret (inl st, w) => Ret (inr (st, 0), w)
  | OutOfBounds => OutOfBounds
  | NoFuel => NoFuel
  end.

(** The file [temp] takes the name [target]. *)
Definition rename (temp target : file_name) : prog Empty_set unit := fun w =>
  Ret (inr tt, match files w !! temp with
               | Some b => set_files (<[target := b]> (delete temp (files w))) w
               | None => w
               end).

Definition remove (p : file_name) : prog Empty_set unit := fun w =>
  Ret (inr tt, set_files (delete p (files w)) w).

Definition exists_file (p : file_name) : prog Empty_set bool := fun w =>
  Ret (inr (bool_decide (is_Some (files w !! p))), w).

Definition sar_rename_posix (temp target : file_name) : prog Empty_set bool :=
  let* h := open_file temp in
  if negb h then pret false
  else
    let* info := request in
    if negb info then pret false
    else
      let* ok := request in
      if ok then let* _ := rename temp target in pret true else pret false.

Definition ERROR_UNABLE_TO_MOVE_REPLACEMENT : Z := 1176.

Definition ERROR_UNABLE_TO_MOVE_REPLACEMENT_2 : Z := 1177.

(** The files when [p] has been given a name that no file has. *)
Definition aside (p : file_name) (f : gmap file_name bytes) : gmap file_name bytes :=
  match f !! p with
  | Some b => <[fresh (dom f) := b]> (delete p f)
  | None => f
  end.

Definition set_aside (p : file_name) : prog Empty_set unit := fun w =>
  Ret (inr tt, set_files (aside p (files w)) w).

(** [ReplaceFileW] needs both files.  Without a backup name, the error
    ERROR_UNABLE_TO_MOVE_REPLACEMENT says that the replaced file no longer exists
    and the replacement has kept its name, and ERROR_UNABLE_TO_MOVE_REPLACEMENT_2
    that the replaced file has another name; after any other error both files
    have their names. *)
Definition sar_replace_w (wtarget wrepl : file_name) : prog Empty_set bool :=
  let* a := ask in
  let* there := exists_file wtarget in
  let* repl := exists_file wrepl in
  match a with
  | Granted =>
    if there && repl then let* _ := rename wrepl wtarget in pret true
    else sar_rename_posix wrepl wtarget
  | Refused e =>
    if (Z.of_nat e =? ERROR_UNABLE_TO_MOVE_REPLACEMENT) && there && repl
    then let* _ := remove wtarget in pret true
    else
      let* _ := if (Z.of_nat e =? ERROR_UNABLE_TO_MOVE_REPLACEMENT_2) && there && repl
                then set_aside wtarget else pret tt in
      sar_rename_posix wrepl wtarget
  end.

(** The two names are converted first. *)
Definition sar_atomic_replace_file (target temp : file_name) : prog Empty_set bool :=
  let* wtarget := request in
  let* wrepl := request in
  if wtarget && wrepl then
    let* ok := sar_replace_w target temp in
    if ok then pret true
    else
      let* deleted := request in
      let* _ := if deleted then remove temp else pret tt in
      pret false
  else pret false.

(** The path of the request: at most 259 characters and the terminator. *)
Definition request_path (target_path : list Z) : list Z :=
  let s := upto_nul (SEMANTICS_AR_PROTO_PATH_MAX - 1) target_path in
  s ++ replicate (SEMANTICS_AR_PROTO_PATH_MAX - length s) 0.

(** The message to the driver and the replacement; [exec] is the handler that
    serves the request.  The conversions of the name are one call.  The
    dispatcher in control.c has cut [target_path] to 259 characters, so the file
    that is replaced is the one whose name was sent. *)
Definition recovery_run (exec : list Z -> rprog Z) (target_path : list Z)
    : prog Empty_set (sar_recover_status_t * Z) :=
  let path := request_path target_path in
  let* sent := request in
  if negb sent then pret (SAR_RECOVER_INVALID, 0)
  else
    let* (st, n) := reply (exec path) in
    if negb (bool_decide (st = SAR_RECOVER_OK)) then pret (st, 0)
    else
      let* named := request in
      match named, SarRecBuildPaths path with
      | true, Some (target, temp) =>
        let* ok := sar_atomic_replace_file target temp in
        pret (if ok then (SAR_RECOVER_OK, n) else (SAR_RECOVER_INVALID, 0))
      | _, _ => pret (SAR_RECOVER_INVALID, 0)
      end.

Definition sar_recovery_run (ks : option KeystorePersist.SAR_KEYSTORE) (key_id : bytes)
    (target_path : list Z) : prog Empty_set (sar_recover_status_t * Z) :=
  recovery_run (SarRecoveryExecute ks key_id) target_path.

Definition sar_preserve_recovery_run {F} `{DataFile F} `{AesCbc} (renv : DriverPreserve.restore_env)
    (nenv : resolve_env) (preserve : option (DriverPreserve.SAR_PRESERVE * F)) (target_path : list Z)
    (offset length : Z) : prog Empty_set (sar_recover_status_t * Z) :=
  recovery_run (fun path => SarPreserveRecoveryExecute renv nenv preserve path offset length) target_path.

End DriverRecovery.
