(* ===== verification/RecoveryFrame.v ===== *)
(** * What recovery leaves alone

    Whatever the system answers and whatever the keystore or the preservation
    store holds, the driver returns, and changes no file but the temporary one;
    the service touches the target only after the driver has reported success. *)

From stdpp Require Import gmap.
From S2P Require Import Prelude Mem Format Sha256 Chain Keystore CipherCommon Modes Recover RecoverCorrect.
From S2P Require Import RecoverProps KeystorePersist DriverState Preserve DriverPreserve Calls DriverRecovery.
Import Mem Layout Modes Recover DriverRecovery.
Import DriverState (NTSTATUS, NT_SUCCESS).

Module RecoveryFrame.

(** ** The decryption of a piece returns *)

Lemma cfold_returns {A B} (f : A -> B -> cres A) l a :
  (forall a x, x ∈ l -> exists b, f a x = Ret b) -> exists b, cfold f l a = Ret b.
Proof.
  revert a. induction l as [|x l IH]; intros a H; [by exists a|]. unfold cfold. cbn [fold_left].
  destruct (H a x) as [b ->]; [left|]. apply IH. intros. apply H. by right.
Qed.

Lemma stream_loop_returns fuel rk policy ct pfx pt origin stop base o :
  (stop - o <= fuel)%nat -> exists pt', stream_loop fuel rk policy ct pfx pt origin stop base o = Ret pt'.
Proof.
  revert pt o. induction fuel as [|fuel IH]; intros pt o H; cbn [stream_loop];
    destruct (Nat.ltb_spec o stop); try (by eexists); [lia|].
  apply IH. set (e := if policy =? _ then _ else _). pose proof (Nat.mod_upper_bound e 64).
  destruct (Nat.ltb_spec (stop - o) (64 - e mod 64)); lia.
Qed.

Lemma iv_block_returns rk policy o origin bs ct pfx base :
  (o = 0 \/ bs + base <= o + pfx)%nat -> exists b, range_iv_block rk policy o origin bs ct pfx base = Ret b.
Proof.
  intros H. unfold range_iv_block. destruct (_ || _) eqn:E; [destruct (_ <? _); by eexists|].
  apply orb_false_iff in E as [E%Nat.eqb_neq _].
  destruct (Nat.leb_spec (bs + base) (o + pfx)); [by eexists|lia].
Qed.

Lemma make_block_small alg k klen bc : make_block alg k klen = Some bc -> (0 < block_size bc <= 16)%nat.
Proof.
  unfold make_block. intros H.
  repeat match type of H with context [if ?b then _ else _] => destruct b end;
    try (by injection H as <-; cbn; lia); try done;
    repeat match type of H with context [match ?b with _ => _ end] => destruct b end;
    simplify_eq; cbn; lia.
Qed.

(** A piece at [start] with the block before it, unless it starts the file. *)
Lemma chunk_returns rk ct pfx pt origin start len fs :
  0 <= start -> (start = 0 \/ pfx = 16%nat) ->
  exists st pt', sar_recover_chunk rk SAR_CTR_CONTINUOUS ct pfx pt origin start len start fs = Ret (st, pt').
Proof.
  intros H0 Hp. unfold sar_recover_chunk. destruct (len =? 0); [by eexists _, _|].
  destruct (_ || _ || _); [by eexists _, _|]. destruct (precheck rk); try (by eexists _, _).
  destruct (is_rc4 rk) eqn:Hrc; [by eexists _, _|].
  destruct (build_ciphers rk) as [cs|] eqn:Hcs; [|by eexists _, _].
  enough (exists p, recover_one_range rk SAR_CTR_CONTINUOUS cs ct pfx pt (Z.to_nat origin) (Z.to_nat start)
            (Z.to_nat len) (Z.to_nat start) = Ret p) as [p ->] by (by eexists _, _).
  unfold recover_one_range. destruct cs as [bc|bc1 bc2|].
  - assert (Hbs : (0 < block_size bc <= 16)%nat).
    { unfold build_ciphers in Hcs. destruct (mode rk =? SAR_MODE_XTS); [by destruct (make_xts _ _ _) as [[]|]|].
      destruct (is_block_alg _); [|done]. destruct (make_block _ _ _) eqn:E; [|done].
      injection Hcs as <-. by eapply make_block_small. }
    assert (Hiv : forall k, (Z.to_nat start + k * block_size bc = 0 \/
              block_size bc + Z.to_nat start <= Z.to_nat start + k * block_size bc + pfx)%nat).
    { intros [|k]; [|right; simpl; lia]. destruct Hp as [->| ->]; [by left|right; simpl; lia]. }
    destruct (_ =? SAR_MODE_ECB); [by eexists|]. destruct (_ =? SAR_MODE_CBC).
    { apply cfold_returns. intros a k _. cbv beta zeta.
      destruct (iv_block_returns rk SAR_CTR_CONTINUOUS _ (Z.to_nat origin) _ ct pfx _ (Hiv k)) as [[] ->];
        by eexists. }
    assert (Hpart : forall a k n, exists b, cfb_part bc rk SAR_CTR_CONTINUOUS ct pfx a (Z.to_nat origin)
              (Z.to_nat start + k * block_size bc) (Z.to_nat start) n = Ret b).
    { intros a k n. unfold cfb_part.
      destruct (iv_block_returns rk SAR_CTR_CONTINUOUS _ (Z.to_nat origin) _ ct pfx _ (Hiv k)) as [[] ->];
        by eexists. }
    destruct (_ =? SAR_MODE_CFB).
    { unfold rec_cfb. destruct (cfold_returns (fun pt k => cfb_part bc rk SAR_CTR_CONTINUOUS ct pfx pt
        (Z.to_nat origin) (Z.to_nat start + k * block_size bc) (Z.to_nat start) (block_size bc))
        (seq 0 (Z.to_nat len / block_size bc)) pt) as [b ->]; [by intros; apply Hpart|].
      destruct (_ <? _)%nat; [apply Hpart|by eexists]. }
    destruct (_ =? SAR_MODE_OFB); [by eexists|]. destruct (_ =? SAR_MODE_CTR); by eexists.
  - destruct (_ =? SAR_MODE_XTS); by eexists.
  - rewrite Hrc. destruct (_ =? SAR_MODE_STREAM); [|by eexists]. apply stream_loop_returns. lia.
Qed.

(** ** Frames *)

(** Only the file [t] may differ. *)
Definition frame (t : file_name) (w w' : world) : Prop :=
  (forall p, p <> t -> files w' !! p = files w !! p) /\ answers w' = answers w.

Lemma frame_refl t w : frame t w w.
Proof. by split. Qed.

Lemma frame_trans t w1 w2 w3 : frame t w1 w2 -> frame t w2 w3 -> frame t w1 w3.
Proof. intros [H1 H2] [H3 H4]. split; [intros; by rewrite H3, H1|by rewrite H4]. Qed.

Lemma frame_call t w w' : frame t w w' -> frame t w (next_call w').
Proof. done. Qed.

Lemma frame_alter t f w w' : frame t w w' -> frame t w (set_files (alter f t (files w')) (next_call w')).
Proof.
  intros [H1 H2]. split; [|done]. intros p Hp. cbn [files set_files next_call].
  rewrite lookup_alter_ne by done. by apply H1.
Qed.

Lemma frame_insert t b w w' : frame t w w' -> frame t w (set_files (<[t := b]> (files w')) (next_call w')).
Proof.
  intros [H1 H2]. split; [|done]. intros p Hp. cbn [files set_files next_call].
  rewrite lookup_insert_ne by done. by apply H1.
Qed.

Create HintDb frame.
#[local] Hint Resolve frame_refl frame_call frame_alter frame_insert : frame.

(** [m] returns and leaves every file but [t] alone. *)
Definition framed {A} (t : file_name) (m : rprog A) : Prop :=
  forall w0 w, frame t w0 w -> wp m w (fun _ w' => frame t w0 w') (fun _ w' => frame t w0 w').

Lemma framed_use {A} t (m : rprog A) w0 w (Q : A -> world -> Prop) (X : sar_recover_status_t -> world -> Prop) :
  framed t m -> frame t w0 w -> (forall a w', frame t w0 w' -> Q a w') ->
  (forall x w', frame t w0 w' -> X x w') -> wp m w Q X.
Proof. intros Hm Hf HQ HX. eapply wp_mono; [by apply Hm|done|done]. Qed.

Lemma framed_bind {A B} t (m : rprog A) (k : A -> rprog B) :
  framed t m -> (forall a, framed t (k a)) -> framed t (pbind m k).
Proof.
  intros Hm Hk w0 w Hf. apply wp_bind. eapply framed_use; [done|done| |done]. intros a w' Hw. by apply Hk.
Qed.

Lemma framed_ret {A} t (a : A) : framed t (pret a).
Proof. intros w0 w Hf. by apply wp_ret. Qed.

Lemma framed_cleanup {A} t r : framed (A := A) t (cleanup r).
Proof. intros w0 w Hf. by apply wp_cleanup. Qed.

Lemma framed_if {A} t (b : bool) (m k : rprog A) : framed t m -> framed t k -> framed t (if b then m else k).
Proof. by destruct b. Qed.

Lemma framed_request t : framed t request.
Proof. intros w0 w Hf. by repeat wp_step. Qed.
Lemma framed_open t p : framed t (open_file p).
Proof. intros w0 w Hf. by repeat wp_step. Qed.
Lemma framed_query t p : framed t (query_size p).
Proof. intros w0 w Hf. by repeat wp_step. Qed.
Lemma framed_read t p o n : framed t (read_file p o n).
Proof. intros w0 w Hf. by repeat wp_step. Qed.
Lemma framed_create t : framed t (create_file t).
Proof. intros w0 w Hf. repeat wp_step; auto with frame. Qed.
Lemma framed_write t o d : framed t (write_file t o d).
Proof. intros w0 w Hf. repeat wp_step; auto with frame. Qed.
Lemma framed_resize t n : framed t (resize_file t n).
Proof. intros w0 w Hf. repeat wp_step; auto with frame. Qed.
Lemma framed_lift {A} t (c : cres A) : (exists a, c = Ret a) -> framed t (plift c).
Proof. intros [a Ha] w0 w Hf. by eapply wp_lift. Qed.

Create HintDb framed.
#[local] Hint Resolve framed_ret framed_cleanup framed_request framed_open framed_query framed_read
  framed_create framed_write framed_resize : framed.

(** Runs through a program. *)
Ltac framed :=
  repeat first
    [ progress intros
    | solve [auto with framed]
    | apply framed_bind
    | apply framed_if
    | match goal with
      | |- framed _ (match ?x with _ => _ end) => destruct x
      | |- framed _ (let '(_, _) := ?x in _) => destruct x
      end ].

(** ** The programs *)

Lemma rounds_enough len : 0 <= len -> len <= (Z.of_nat (rounds len) - 1) * SAR_PRESERVE_STAGE_MAX.
Proof.
  intros H. unfold rounds, SAR_PRESERVE_STAGE_MAX.
  pose proof (Z.div_mod len (4 * 1024 * 1024) ltac:(lia)).
  pose proof (Z.mod_pos_bound len (4 * 1024 * 1024) ltac:(lia)).
  pose proof (Z.div_pos len (4 * 1024 * 1024) H ltac:(lia)). lia.
Qed.

(** The fuel [n] lasts from [pos] to [stop]. *)
Definition lasts (n : nat) (pos stop : Z) : Prop :=
  0 <= pos /\ stop < 2 ^ 63 /\ pos < stop + SAR_PRESERVE_STAGE_MAX /\
  stop - pos <= (Z.of_nat n - 1) * SAR_PRESERVE_STAGE_MAX.

Lemma lasts_next n pos stop : lasts (S n) pos stop -> pos < stop ->
  lasts n (u64 (pos + SAR_PRESERVE_STAGE_MAX)) stop /\
  u64 (pos + SAR_PRESERVE_STAGE_MAX) = pos + SAR_PRESERVE_STAGE_MAX.
Proof.
  unfold lasts, SAR_PRESERVE_STAGE_MAX. intros (H1&H2&H3&H4) H5.
  rewrite u64_small by (unfold is_u; lia). lia.
Qed.

Lemma lasts_pos n pos stop : lasts n pos stop -> n <> O.
Proof. unfold lasts, SAR_PRESERVE_STAGE_MAX. intros (H1&H2&H3&H4) ->. lia. Qed.

Lemma lasts_rounds pos stop : 0 <= pos <= stop -> stop < 2 ^ 63 -> lasts (rounds (stop - pos)) pos stop.
Proof.
  intros H1 H2. pose proof (rounds_enough (stop - pos) ltac:(lia)).
  unfold lasts, SAR_PRESERVE_STAGE_MAX in *. lia.
Qed.

Lemma copy_loop_framed n target t targetlen pos :
  lasts n pos targetlen -> framed t (copy_loop n target t targetlen pos).
Proof.
  revert pos. induction n as [|n IH]; intros pos Hn; [by apply lasts_pos in Hn|]. cbn [copy_loop].
  destruct (Z.ltb_spec pos targetlen); [|auto with framed].
  destruct (lasts_next n pos targetlen Hn ltac:(done)) as [Hl _]. framed.
Qed.

Lemma prefix_reads rk ct pt off pos len targetlen :
  0 <= pos -> (pos = 0 \/ 16 <= pos) ->
  exists a, sar_recover_chunk rk SAR_CTR_CONTINUOUS ct (Z.to_nat (prefix_of_pos pos)) pt off pos len pos targetlen
    = Ret a.
Proof.
  intros H0 Ha. destruct (chunk_returns rk ct (Z.to_nat (prefix_of_pos pos)) pt off pos len targetlen)
    as (st&p&->); [done| |by eexists].
  unfold prefix_of_pos. destruct (Z.leb_spec 16 pos); [by right|left; lia].
Qed.

Lemma range_loop_framed n target t rk off stop targetlen pos pt :
  lasts n pos stop -> (pos = 0 \/ 16 <= pos) ->
  framed t (range_loop n target t rk off stop targetlen pos pt).
Proof.
  revert pos pt. induction n as [|n IH]; intros pos pt Hn Ha; [by apply lasts_pos in Hn|]. cbn [range_loop].
  destruct (Z.ltb_spec pos stop); [|auto with framed].
  destruct (lasts_next n pos stop Hn ltac:(done)) as [Hl Hu]. pose proof Hn as (?&?&?&?).
  framed; [by apply framed_lift, prefix_reads|].
  apply IH; [done|]. rewrite Hu. unfold SAR_PRESERVE_STAGE_MAX. lia.
Qed.

Lemma write_temp_framed t b : framed t (SarRecWriteTemp t b).
Proof. unfold SarRecWriteTemp. framed. Qed.

(** The records in the keystore that the decryption can handle: those that do
    not start inside the first block of a file. *)
Record readable (r : KsRec.semantics_ar_keystore_record_t) : Prop := {
  rd_wf : struct_wf r;
  rd_off : KsRec.provenance_offset r = 0 \/ 16 <= KsRec.provenance_offset r;
  rd_sample : KsRec.sample_offset r = 0 \/ 16 <= KsRec.sample_offset r
}.

Lemma readable_u64 r : readable r ->
  is_u64 (KsRec.provenance_offset r) /\ is_u64 (KsRec.provenance_length r) /\
  is_u64 (KsRec.sample_offset r) /\ is_u32 (KsRec.sample_length r).
Proof. intros [H _ _]. by repeat (destruct H as [? H]; try done). Qed.

Lemma range_len_bounds r targetlen : readable r -> KsRec.provenance_offset r < targetlen ->
  0 < range_len r targetlen <= targetlen - KsRec.provenance_offset r.
Proof.
  intros (Ho&Hl&_)%readable_u64 H. unfold range_len, is_u in *.
  destruct (Z.eqb_spec (KsRec.provenance_length r) 0); cbn [orb]; [lia|].
  destruct (Z.ltb_spec (targetlen - KsRec.provenance_offset r) (KsRec.provenance_length r)); lia.
Qed.

Lemma record_step_framed target t targetlen k r s :
  readable r -> 0 < targetlen < 2 ^ 63 -> framed t (record_step target t targetlen k r s).
Proof.
  intros Hr Hl. unfold record_step. pose proof (readable_u64 r Hr) as (Ho&_&Hso&_).
  apply framed_if; [auto with framed|].
  destruct (Z.leb_spec targetlen (KsRec.provenance_offset r)); [auto with framed|].
  pose proof (range_len_bounds r targetlen Hr ltac:(done)) as Hrl.
  assert (Hu : u64 (KsRec.provenance_offset r + range_len r targetlen) =
               KsRec.provenance_offset r + range_len r targetlen) by (apply u64_small; unfold is_u in *; lia).
  apply framed_if; [auto with framed|]. destruct Hr as [_ Ha Hs]. unfold is_u in *.
  apply framed_bind; [|intros [good pt]; apply framed_if; [auto with framed|]].
  - unfold check_sample. framed. apply framed_lift, prefix_reads; [lia|done].
  - apply framed_bind; [|intros _; apply framed_bind; [|auto with framed]].
    + assert (framed t (copy_loop (rounds targetlen) target t targetlen 0)).
      { apply copy_loop_framed. rewrite <- (Z.sub_0_r targetlen) at 1. apply lasts_rounds; lia. }
      unfold open_temp. framed.
    + apply range_loop_framed; [|done]. rewrite Hu.
      replace (range_len r targetlen) with
        (KsRec.provenance_offset r + range_len r targetlen - KsRec.provenance_offset r) at 1 by lia.
      apply lasts_rounds; lia.
Qed.

Lemma record_loop_framed target t targetlen k rs s :
  Forall readable rs -> 0 < targetlen < 2 ^ 63 -> framed t (record_loop target t targetlen k rs s).
Proof.
  revert s. induction rs as [|r rs IH]; intros s Hrs Hl; [apply framed_ret|]. inversion Hrs; subst.
  cbn [record_loop]. apply framed_bind; [by apply record_step_framed|]. intros. by apply IH.
Qed.

Lemma finish_framed t targetlen s : framed t (finish t targetlen s).
Proof. unfold finish. framed. Qed.

Lemma overlay_loop_framed n target t th targetlen final_size region off rlen pos :
  lasts n pos final_size ->
  framed t (overlay_loop n target t th targetlen final_size region off rlen pos).
Proof.
  revert pos. induction n as [|n IH]; intros pos Hn; [by apply lasts_pos in Hn|]. cbn [overlay_loop].
  destruct (Z.ltb_spec pos final_size); [|auto with framed].
  destruct (lasts_next n pos final_size Hn ltac:(done)) as [Hl _]. framed.
Qed.

(** The two names differ. *)
Lemma paths_differ path target temp : SarRecBuildPaths path = Some (target, temp) -> target <> temp.
Proof.
  unfold SarRecBuildPaths. destruct (upto_nul _ _) as [|c s]; [done|].
  intros [= <- <-] E. apply (f_equal length) in E. rewrite !length_app in E. cbn [length] in E.
  rewrite !length_app in E. cbn in E. lia.
Qed.

(** ** Both handlers *)

(** The target is shorter than [2 ^ 63] bytes, as files are. *)
Definition target_small (path : list Z) (w : world) : Prop :=
  forall target temp b, SarRecBuildPaths path = Some (target, temp) -> files w !! target = Some b ->
    Z.of_nat (length b) < 2 ^ 63.

(** No file changes but the temporary one, if the name is valid. *)
Definition only_temp (path : list Z) (w w' : world) : Prop :=
  match SarRecBuildPaths path with
  | Some (_, temp) => frame temp w w'
  | None => files w' = files w /\ answers w' = answers w
  end.

Definition leaves_alone (path : list Z) (exec : rprog Z) : Prop :=
  forall w, target_small path w -> wp exec w (fun _ => only_temp path w) (fun _ => only_temp path w).

Lemma execute_alone ks k path :
  Forall readable (KeystorePersist.records ks) -> leaves_alone path (SarRecoveryExecute (Some ks) k path).
Proof.
  intros Hrs w Hs. unfold SarRecoveryExecute, only_temp. unfold target_small in Hs.
  destruct (SarRecBuildPaths path) as [[target temp]|] eqn:Hb.
  2: { destruct (KeystorePersist.ready ks); cbn [negb]; [|by wp_step]. do 2 wp_step; cbn [negb]; by wp_step. }
  destruct (KeystorePersist.ready ks); cbn [negb]; [|by wp_step].
  do 2 wp_step; cbn [negb]; [|by wp_step].
  do 2 wp_step; do 2 wp_step; do 2 wp_step; cbn [andb negb]; try (by wp_step).
  do 2 wp_step; cbn [negb]; [|by wp_step]. do 2 wp_step.
  - change (default 0 (Some ?n)) with n. specialize (Hs target temp b eq_refl ltac:(done)).
    destruct (Z.eqb_spec (Z.of_nat (length b)) 0).
    + assert (framed temp (let* ok := SarRecWriteTemp temp [] in
        cleanup (A := Z) (if ok then SAR_RECOVER_OK else SAR_RECOVER_DECLINED_TARGET_IO))) as Hf.
      { apply framed_bind; [apply write_temp_framed|]. intros. apply framed_cleanup. }
      by apply Hf.
    + eapply framed_use; [|by apply frame_refl|done|done].
      apply framed_bind; [apply record_loop_framed; [done|lia]|]. intros. apply finish_framed.
  - change (default 0 None =? 0) with true. cbv iota.
    eapply framed_use; [|by apply frame_refl|done|done].
    apply framed_bind; [apply write_temp_framed|]. intros. apply framed_cleanup.
Qed.

Section Preserve.
Context {F : Type} `{DataFile F} `{AesCbc}.

Lemma preserve_execute_alone renv nenv p path off rlen :
  0 <= off -> 0 <= rlen -> off + rlen < 2 ^ 63 ->
  leaves_alone path (SarPreserveRecoveryExecute (F := F) renv nenv p path off rlen).
Proof.
  intros Ho Hl Hsum w Hs. unfold SarPreserveRecoveryExecute, only_temp. unfold target_small in Hs.
  rewrite u64_small by (unfold is_u; lia).
  destruct p as [[p f]|]; [|wp_step; by destruct (SarRecBuildPaths path) as [[]|]].
  destruct (SarRecBuildPaths path) as [[target temp]|] eqn:Hb.
  2: { destruct (_ || _); [by wp_step|]. do 2 wp_step; cbn [negb]; by wp_step. }
  destruct (_ || _); [by wp_step|]. do 2 wp_step; cbn [negb]; [|by wp_step].
  do 2 wp_step; do 2 wp_step; cbn [andb negb]; try (by wp_step).
  destruct (DriverPreserve.SarPreserveRestore _ _ _ _ _ _ _) as [status region].
  destruct (_ || _); [by wp_step|].
  assert (Htail : forall th targetlen w', 0 <= targetlen < 2 ^ 63 -> frame temp w w' ->
    wp (let final_size := if targetlen <? off + rlen then off + rlen else targetlen in
        let* ok := create_file temp in
        if negb ok then cleanup SAR_RECOVER_DECLINED_TARGET_IO
        else
          let* _ := overlay_loop (rounds final_size) target temp th targetlen final_size region off rlen 0 in
          let* ok := request in
          if negb ok then cleanup SAR_RECOVER_DECLINED_TARGET_IO else pret rlen) w'
      (fun _ => frame temp w) (fun _ => frame temp w)).
  { intros th targetlen w' Ht Hw. cbv zeta. set (fs := if _ <? _ then _ else _).
    assert (Hfs : 0 <= fs < 2 ^ 63) by (unfold fs; destruct (Z.ltb_spec targetlen (off + rlen)); lia).
    assert (framed temp (overlay_loop (rounds fs) target temp th targetlen fs region off rlen 0)).
    { apply overlay_loop_framed. rewrite <- (Z.sub_0_r fs) at 1. apply lasts_rounds; lia. }
    eapply framed_use; [framed|done|done|done]. }
  do 2 wp_step.
  - do 2 wp_step; (apply Htail; [|done]); [|cbn; lia].
    change (default 0 (Some ?n)) with n. specialize (Hs target temp b eq_refl).
    cbn [files next_call] in *. specialize (Hs ltac:(done)). lia.
  - do 2 wp_step. apply Htail; [cbn; lia|done].
Qed.

End Preserve.

(** ** The service *)

(** The replacement as a rename that takes effect or does not. *)
Lemma rename_posix_effect (target temp : file_name) (content : bytes) (f : gmap file_name bytes)
    (Q : bool -> world -> Prop) (X : Empty_set -> world -> Prop) w :
  f !! temp = Some content -> files w = f -> (forall w, files w = f -> Q false w) ->
  (forall w, files w = <[target := content]> (delete temp f) -> Q true w) ->
  wp (sar_rename_posix temp target) w Q X.
Proof.
  intros Htemp Hw Hkept Hrenamed. unfold sar_rename_posix. do 2 wp_step; cbn [negb]; [|wp_step; by apply Hkept].
  do 2 wp_step; cbn [negb]; [|wp_step; by apply Hkept]. do 2 wp_step; [|wp_step; by apply Hkept].
  wp_step. eexists (inr tt), _. split; [done|]. wp_step. apply Hrenamed. cbn [files next_call]. by rewrite Hw, Htemp.
Qed.

(** A file with a new name: the name was free, and the other files are as before. *)
Lemma aside_spec (target : file_name) (f : gmap file_name bytes) (b : bytes) : f !! target = Some b -> exists p,
  f !! p = None /\ p <> target /\ aside target f = <[p := b]> (delete target f).
Proof.
  intros Hb. unfold aside. rewrite Hb. exists (fresh (dom f)).
  assert (Hf : f !! fresh (dom f) = None) by (apply not_elem_of_dom, is_fresh).
  split_and!; [done| |done]. intros E. congruence.
Qed.

Lemma aside_temp (target temp : file_name) (f : gmap file_name bytes) (content : bytes) :
  target <> temp -> f !! temp = Some content -> aside target f !! temp = Some content.
Proof.
  intros Hne Ht. destruct (f !! target) as [b|] eqn:Hb; [|unfold aside; by rewrite Hb].
  destruct (aside_spec target f b Hb) as (p&Hp&Hpt&->).
  rewrite lookup_insert_ne by congruence. by rewrite lookup_delete_ne.
Qed.

(** [f0] are the files when the replacement starts. *)
Section Replace.
Context (target temp : file_name) (content : bytes) (f0 : gmap file_name bytes).
Context (Hne : target <> temp) (Htemp : f0 !! temp = Some content).
Context (Q : bool -> world -> Prop) (X : Empty_set -> world -> Prop).
Context (Hkept : forall w, files w = f0 \/ files w = aside target f0 -> Q false w).
Context (Hrenamed : forall w f, f = f0 \/ f = aside target f0 -> files w = <[target := content]> (delete temp f) -> Q true w).
Context (Hgone : forall w, files w = delete target f0 -> Q true w).

Lemma replace_w_effect w : files w = f0 -> wp (sar_replace_w target temp) w Q X.
Proof using All.
  intros Hw. unfold sar_replace_w.
  wp_step. eexists (inr _), _. split; [done|]. wp_step. eexists (inr _), _. split; [done|].
  wp_step. eexists (inr _), _. split; [done|]. cbn [files next_call]. rewrite Hw.
  assert (Hp : forall w1, files w1 = f0 -> wp (sar_rename_posix temp target) w1 Q X).
  { intros w1 Hw1. apply (rename_posix_effect target temp content f0); [done|done|by auto|]. intros w2. apply Hrenamed. by left. }
  destruct (answers w (calls w)) as [|e].
  - destruct (_ && _); [|by apply Hp].
    wp_step. eexists (inr tt), _. split; [done|]. wp_step. eapply Hrenamed; [by left|].
    cbn [files next_call]. by rewrite Hw, Htemp.
  - destruct (_ && _ && _).
    { wp_step. eexists (inr tt), _. split; [done|]. wp_step. apply Hgone. cbn [files next_call set_files]. by rewrite Hw. }
    destruct (_ && _ && _).
    + wp_step. eexists (inr tt), _. split; [done|].
      apply (rename_posix_effect target temp content (aside target f0)); [by apply aside_temp| |by auto|].
      * cbn [files next_call set_files]. by rewrite Hw.
      * intros w2. apply Hrenamed. by right.
    + wp_step. eexists (inr tt), _. split; [done|]. by apply Hp.
Qed.

End Replace.

(** The replacement: nothing, the temporary file under the target's name, or
    the target gone or under another name. *)
Lemma replace_file_effect target temp content w (Q : bool -> world -> Prop) X :
  target <> temp -> files w !! temp = Some content ->
  (forall w' f, f = files w \/ f = aside target (files w) -> files w' = f \/ files w' = delete temp f -> Q false w') ->
  (forall w' f, f = files w \/ f = aside target (files w) -> files w' = <[target := content]> (delete temp f) -> Q true w') ->
  (forall w', files w' = delete target (files w) -> Q true w') ->
  wp (sar_atomic_replace_file target temp) w Q X.
Proof.
  intros Hne Hb H0 H1 H2. unfold sar_atomic_replace_file.
  do 2 wp_step; do 2 wp_step; cbn [andb]; try (wp_step; eapply H0; by left).
  wp_step. apply (replace_w_effect target temp content (files w)); try done.
  - intros w1 Hw1. do 2 wp_step; wp_step.
    + eexists (inr tt), _. split; [done|]. wp_step. apply (H0 _ (files w1)); [done|]. by right.
    + do 2 wp_step. apply (H0 _ (files w1)); [done|]. by left.
  - intros w1 f Hf Hw1. wp_step. by eapply H1.
  - intros w1 Hw1. wp_step. by apply H2.
Qed.

(** What a replacement may do to the files [f], given whether it reports success. *)
Record replaced (target temp : file_name) (f : gmap file_name bytes) (ok : bool) (f' : gmap file_name bytes)
  : Prop := {
  rp_others : forall p, p <> target -> p <> temp -> f' !! p = f !! p \/ f !! p = None /\ f' !! p = f !! target;
  rp_declined : ok = false -> f' !! target = f !! target \/
    f' !! target = None /\ exists p, p <> target /\ f !! p = None /\ f' !! p = f !! target;
  rp_done : ok = true -> exists content,
    (f' !! target = Some content /\ f' !! temp = None) \/ (f' !! target = None /\ f' !! temp = Some content)
}.

(** Without a temporary file nothing happens. *)
Lemma replace_file_missing target temp w (Q : bool -> world -> Prop) X :
  files w !! temp = None -> (forall w', files w' = files w -> Q false w') ->
  wp (sar_atomic_replace_file target temp) w Q X.
Proof.
  intros Hb H0. unfold sar_atomic_replace_file.
  do 2 wp_step; do 2 wp_step; cbn [andb]; try (wp_step; by apply H0).
  assert (Hp : forall w1, files w1 = files w -> wp (sar_rename_posix temp target) w1
    (fun ok w' => ok = false /\ files w' = files w) X).
  { intros w1 Hw1. unfold sar_rename_posix. do 2 wp_step; cbn [negb]; [|by wp_step].
    rewrite Hw1, Hb in *. by destruct H. }
  wp_step. eapply wp_mono with (Q := fun ok w' => ok = false /\ files w' = files w); [| |done].
  - unfold sar_replace_w. wp_step. eexists (inr _), _. split; [done|]. wp_step. eexists (inr _), _. split; [done|].
    wp_step. eexists (inr _), _. split; [done|]. cbn [files next_call]. rewrite Hb, andb_false_r.
    destruct (answers _ _); cbn [andb]; [by apply Hp|]. rewrite !andb_false_r.
    wp_step. eexists (inr tt), _. split; [done|]. by apply Hp.
  - intros ok w' [-> Hw]. do 2 wp_step; wp_step.
    + eexists (inr tt), _. split; [done|]. wp_step. apply H0. cbn [files set_files next_call].
      rewrite Hw. by apply delete_id.
    + do 2 wp_step. by apply H0.
Qed.

(** The files seen from before the driver made the temporary one. *)
Lemma aside_others (target temp : file_name) (f f1 f2 : gmap file_name bytes) : target <> temp ->
  (forall p, p <> temp -> f1 !! p = f !! p) -> is_Some (f1 !! temp) ->
  f2 = f1 \/ f2 = aside target f1 ->
  (forall p, p <> target -> p <> temp -> f2 !! p = f !! p \/ f !! p = None /\ f2 !! p = f !! target) /\
  (f2 !! target = f !! target \/
   f2 !! target = None /\ exists p, p <> target /\ p <> temp /\ f !! p = None /\ f2 !! p = f !! target).
Proof.
  intros Hne Hf [c Hc] [-> | ->]; [split; [intros; left; auto|left; auto]|].
  destruct (f1 !! target) as [b|] eqn:Hb.
  2: { unfold aside. rewrite Hb. split; [intros; left; auto|left; rewrite <- (Hf target) by done; congruence]. }
  destruct (aside_spec target f1 b Hb) as (p&Hp&Hpt&->).
  assert (Hptemp : p <> temp) by congruence. rewrite <- (Hf target) by done. rewrite Hb. split.
  - intros q Hq Hqt. destruct (decide (q = p)) as [->|Hqp].
    + right. rewrite lookup_insert_eq. by rewrite <- Hf.
    + left. rewrite lookup_insert_ne by done. rewrite lookup_delete_ne by done. by apply Hf.
  - right. rewrite lookup_insert_ne by done. rewrite lookup_delete_eq. split; [done|].
    exists p. rewrite lookup_insert_eq. split_and!; try done. by rewrite <- Hf.
Qed.

Lemma replace_effect target temp w w1 : target <> temp -> frame temp w w1 ->
  wp (sar_atomic_replace_file target temp) w1 (fun ok w' => replaced target temp (files w) ok (files w'))
    (fun _ _ => False).
Proof.
  intros Hne [Hf _]. destruct (files w1 !! temp) as [content|] eqn:Ht.
  - apply (replace_file_effect _ _ content); [done|done| | |].
    + intros w' f Hcase Hw'.
      destruct (aside_others target temp (files w) (files w1) f Hne Hf ltac:(by rewrite Ht) Hcase) as [Ho Hd].
      split; [| |done].
      * intros p Hp Hpt. destruct Hw' as [-> | ->]; rewrite ?lookup_delete_ne by done; by apply Ho.
      * intros _. destruct Hw' as [-> | ->]; rewrite ?lookup_delete_ne by done.
        { destruct Hd as [|(?&p&?&?&?&?)]; [by left|right]. split; [done|]. by exists p. }
        destruct Hd as [|(?&p&?&?&?&?)]; [by left|right]. split; [done|]. exists p. by rewrite lookup_delete_ne.
    + intros w' f Hcase Hw'.
      destruct (aside_others target temp (files w) (files w1) f Hne Hf ltac:(by rewrite Ht) Hcase) as [Ho Hd].
      rewrite Hw'. split; [|done|].
      * intros p Hp Hpt. rewrite lookup_insert_ne, lookup_delete_ne by done. by apply Ho.
      * intros _. exists content. left. rewrite lookup_insert_eq.
        by rewrite lookup_insert_ne, lookup_delete_eq by done.
    + intros w' Hw'. rewrite Hw'. split; [|done|].
      * intros p Hp Hpt. left. rewrite lookup_delete_ne by done. by apply Hf.
      * intros _. exists content. right. rewrite lookup_delete_eq. by rewrite lookup_delete_ne by done.
  - apply replace_file_missing; [done|]. intros w' ->. split; [| |done]; intros; left; by apply Hf.
Qed.

(** The files after a run that ended with [st]. *)
Definition run_effect (path : list Z) (w : world) (st : sar_recover_status_t) (w' : world) : Prop :=
  match SarRecBuildPaths path with
  | Some (target, temp) => replaced target temp (files w) (bool_decide (st = SAR_RECOVER_OK)) (files w')
  | None => files w' = files w /\ st <> SAR_RECOVER_OK
  end.

Lemma run_effect_kept path w w' st : st <> SAR_RECOVER_OK -> only_temp path w w' -> run_effect path w st w'.
Proof.
  unfold only_temp, run_effect. destruct (SarRecBuildPaths path) as [[target temp]|] eqn:E; [|by intros ? []].
  intros Hst [Hf _]. pose proof (paths_differ _ _ _ E). rewrite bool_decide_eq_false_2 by done.
  split; [intros; left; by auto|intros; left; by auto|done].
Qed.

Lemma recovery_run_effect exec tp w :
  leaves_alone (request_path tp) (exec (request_path tp)) -> target_small (request_path tp) w ->
  wp (recovery_run exec tp) w (fun r w' => run_effect (request_path tp) w r.1 w') (fun _ _ => False).
Proof.
  intros Ha Hs. unfold recovery_run. set (path := request_path tp) in *.
  do 2 wp_step; cbn [negb].
  2: { wp_step. apply run_effect_kept; [done|]. unfold only_temp. by destruct (SarRecBuildPaths path) as [[]|]. }
  wp_step. destruct (Ha (next_call w) Hs) as (r&w1&He&Hr).
  assert (Hot : only_temp path w w1) by (by destruct r).
  assert (Hrep : exists st n, reply (exec path) (next_call w) = Ret (inr (st, n), w1)).
  { unfold reply. rewrite He. destruct r; by eexists _, _. }
  destruct Hrep as (st&n&Hrep). eexists (inr _), _. split; [exact Hrep|]. cbv beta iota.
  destruct (bool_decide (st = SAR_RECOVER_OK)) eqn:Hst; cbn [negb].
  2: { wp_step. apply bool_decide_eq_false in Hst. by apply run_effect_kept. }
  do 2 wp_step. 2: { wp_step. by apply run_effect_kept. }
  unfold run_effect, only_temp in *. destruct (SarRecBuildPaths path) as [[target temp]|] eqn:Hb.
  2: { wp_step. by destruct Hot. }
  wp_step. eapply wp_mono; [apply (replace_effect _ _ w); [by eapply paths_differ|done]| |done].
  intros ok w' Hw'. wp_step. by destruct ok.
Qed.

(** A request for recovery: with a captured key, or of a preserved region. *)
Inductive recovery_call {F : Type} :=
  | WithKey (ks : KeystorePersist.SAR_KEYSTORE) (key_id : bytes)
  | FromStore (renv : DriverPreserve.restore_env) (nenv : resolve_env)
      (preserve : option (DriverPreserve.SAR_PRESERVE * F)) (offset length : Z).
Arguments recovery_call F : clear implicits.

Definition run_call {F} `{DataFile F} `{AesCbc} (c : recovery_call F) (target_path : list Z)
    : prog Empty_set (sar_recover_status_t * Z) :=
  match c with
  | WithKey ks key_id => sar_recovery_run (Some ks) key_id target_path
  | FromStore renv nenv p offset length => sar_preserve_recovery_run renv nenv p target_path offset length
  end.

Definition call_ok {F} (c : recovery_call F) : Prop :=
  match c with
  | WithKey ks _ => Forall readable (KeystorePersist.records ks)
  | FromStore _ _ _ offset length => 0 <= offset /\ 0 <= length /\ offset + length < 2 ^ 63
  end.


End RecoveryFrame.
