(* ===== verification/RecoveryRestore.v ===== *)
(** * What recovery with a captured key restores

    A file [C] that is the encryption of [P], and keystore records of the writes
    that encrypted it: the driver and the service leave [P] in the ranges of the
    records. *)

From stdpp Require Import gmap.
From S2P Require Import Prelude Mem Format Sha256 Chain Keystore CipherCommon Modes Recover RecoverCorrect.
From S2P Require Import RecoverProps KeystorePersist DriverState Preserve DriverPreserve Calls DriverRecovery.
From S2P Require Import RecoveryFrame.
Import Mem Layout Modes Recover DriverRecovery RecoveryFrame.

Module RecoveryRestore.

(** ** Files *)

Lemma pwrite_inside b off data : (off <= length b)%nat -> pwrite b off data = take off b ++ data ++ drop (off + length data) b.
Proof. intros H. unfold pwrite. by rewrite take_app_le by done. Qed.

Lemma pwrite_patched T P pos n : (pos + n <= length P)%nat -> (pos <= length T)%nat ->
  pwrite T pos (blk P pos n) = patched T P pos n.
Proof. intros H1 H2. rewrite pwrite_inside, length_blk by done. done. Qed.

Lemma patched_app T P s m n : (s + m + n <= length P)%nat -> length T = length P ->
  patched (patched T P s m) P (s + m) n = patched T P s (m + n).
Proof.
  intros H1 H2. rewrite <- patched_step by lia. rewrite mem_write_spec.
  - by rewrite length_blk by lia.
  - rewrite length_blk, length_patched by lia. lia.
Qed.

Lemma pwrite_next (C : bytes) pos n : (pos <= length C)%nat ->
  pwrite (take pos C) pos (take n (drop pos C)) = take (pos + n) C.
Proof.
  intros H. rewrite pwrite_inside by (rewrite length_take; lia). rewrite take_take, Nat.min_id.
  rewrite (drop_ge (take pos C)) by (rewrite length_take; lia). rewrite app_nil_r.
  rewrite <- (take_drop pos (take (pos + n) C)), take_take, skipn_firstn_comm. f_equal; f_equal; lia.
Qed.

(** The size of a piece. *)
Lemma piece_bounds pos stop : pos < stop -> 0 < piece pos stop <= stop - pos /\
  (piece pos stop = SAR_PRESERVE_STAGE_MAX \/ piece pos stop = stop - pos) /\
  (stop <= pos + SAR_PRESERVE_STAGE_MAX -> piece pos stop = stop - pos) /\
  (pos + SAR_PRESERVE_STAGE_MAX <= stop -> piece pos stop = SAR_PRESERVE_STAGE_MAX).
Proof.
  intros H. unfold piece. unfold SAR_PRESERVE_STAGE_MAX in *.
  destruct (Z.ltb_spec (4 * 1024 * 1024) (stop - pos)); lia.
Qed.

(** ** The copy of the target *)

Section Restore.
Context (target temp : file_name) (P C : bytes).
Context (Hne : target <> temp) (HP : is_bytes P) (HC : is_bytes C) (Hl : length C = length P).
Context (Hsmall : 0 < Z.of_nat (length C) < 2 ^ 63).

Abbreviation L := (Z.of_nat (length C)).

(** All calls succeed, the target is [C] and the temporary file is [T]. *)
Record holding (T : bytes) (w0 w : world) : Prop := {
  hd_granted : granted w;
  hd_target : files w !! target = Some C;
  hd_temp : files w !! temp = Some T;
  hd_frame : frame temp w0 w
}.

Lemma holding_call T w0 w : holding T w0 w -> holding T w0 (next_call w).
Proof. intros [H1 H2 H3 H4]. by split. Qed.

Lemma holding_write T T' w0 w w' : holding T w0 w -> answers w' = answers w ->
  files w' = <[temp := T']> (files w) -> holding T' w0 w'.
Proof.
  intros [H1 H2 H3 [H4 H5]] Ha Hw. split; [intros n; by rewrite Ha|rewrite Hw, lookup_insert_ne by done; done| |].
  - by rewrite Hw, lookup_insert_eq.
  - split; [|by rewrite Ha]. intros p Hp. rewrite Hw, lookup_insert_ne by done. by apply H4.
Qed.

Lemma copy_loop_spec n w0 w pos : lasts n pos L -> (pos <= L \/ pos < L + SAR_PRESERVE_STAGE_MAX) ->
  holding (take (Z.to_nat pos) C) w0 w ->
  wp (copy_loop n target temp L pos) w (fun _ w' => holding C w0 w') (fun _ _ => False).
Proof.
  revert w pos. induction n as [|n IH]; intros w pos Hn Hp Hh; [by apply lasts_pos in Hn|]. cbn [copy_loop].
  pose proof Hn as (H0&_&_&_).
  destruct (Z.ltb_spec pos L) as [Hlt|Hge].
  2: { wp_step. rewrite take_ge in Hh by lia. done. }
  destruct (lasts_next n pos L Hn Hlt) as [Hn' Hu]. destruct (piece_bounds pos L Hlt) as (Hb&Hc&Hd&He).
  wp_step. apply (gwp_read target pos (piece pos L) w C); [apply Hh|apply Hh|done|].
  wp_step. apply (gwp_write temp pos _ (next_call w) (take (Z.to_nat pos) C)); [apply Hh|apply Hh|].
  intros w' Ha Hw. apply IH; [done|rewrite Hu; unfold SAR_PRESERVE_STAGE_MAX in *; lia|].
  eapply holding_write; [by apply holding_call|done|]. rewrite Hw, pwrite_next by lia.
  replace (take (Z.to_nat (u64 (pos + SAR_PRESERVE_STAGE_MAX))) C)
    with (take (Z.to_nat pos + Z.to_nat (piece pos L)) C); [done|].
  rewrite Hu. unfold SAR_PRESERVE_STAGE_MAX in *. destruct (Z.leb_spec L (pos + 4 * 1024 * 1024)).
  - rewrite !take_ge by lia. done.
  - f_equal. lia.
Qed.

(** ** One range *)

Section Range.
Context (rk : sar_recovery_key_t) (cs : ciphers) (m : nat).
Context (Hok : key_ok rk) (Hrc : is_rc4 rk = false) (Hcs : build_ciphers rk = Some cs).
Context (Henc : encrypts rk 0 (blk P 0 m) (blk C 0 m)) (Hm : (m <= length P)%nat).

(** The bytes [s .. s + n) are whole blocks of the encrypted part, or for a mode
    that needs no whole blocks, end with it. *)
Record aligned (s n : Z) : Prop := {
  al_pos : 0 <= s;
  al_readable : s = 0 \/ 16 <= s;
  al_start : (Z.of_nat (unit_of cs) | s);
  al_inside : s + n <= Z.of_nat m;
  al_end : (Z.of_nat (unit_of cs) | n) \/ (block_mode rk = false /\ s + n = Z.of_nat m)
}.

Lemma unit_divides : (0 < unit_of cs)%nat /\ (Z.of_nat (unit_of cs) | 16).
Proof using Hok Hcs.
  clear -Hok Hcs. destruct cs as [bc|bc1 bc2|]; cbn [unit_of]; [|split; [lia|by exists 1]|split; [lia|by exists 16]].
  destruct (bc_size (BlockCipher := block_ciphers_ok rk bc (ko_key rk Hok) Hcs)) as [-> | ->];
    (split; [lia|]); [by exists 2|by exists 1].
Qed.

(** A piece of an aligned range. *)
Lemma aligned_piece s n k x : aligned s n -> 0 <= k -> (16 | k) -> 0 < x -> k + x <= n ->
  ((16 | x) \/ k + x = n) -> aligned (s + k) x.
Proof using All.
  intros [A1 A2 A3 A4 A5] Hk Hd Hx Hn Hx'. destruct unit_divides as [U1 U2].
  assert (Huk : (Z.of_nat (unit_of cs) | k)) by (by apply Z.divide_trans with 16).
  split; [lia|destruct Hd as [j ->]; lia|by apply Z.divide_add_r|lia|].
  destruct Hx' as [Hx'|Hx']; [left; by apply Z.divide_trans with 16|]. destruct A5 as [A5|[A5 A6]]; [left|right; split; [done|lia]].
  replace x with (n - k) by lia. by apply Z.divide_sub_r.
Qed.

Lemma aligned_range s n : aligned s n -> 0 < n ->
  range_ok cs P 0 m (Z.to_nat s) (Z.to_nat n) /\ (block_mode rk = true -> Z.to_nat n mod unit_of cs = 0)%nat.
Proof using All.
  intros [A1 A2 [q A3] A4 A5] Hn. destruct unit_divides as [U1 _].
  assert (Hdiv : (Z.of_nat (unit_of cs) | n) -> (Z.to_nat n mod unit_of cs = 0)%nat).
  { intros [j ->]. apply Nat2Z.inj. rewrite Nat2Z.inj_mod, Z2Nat.id by lia.
    rewrite Z.mod_mul by lia. done. }
  split; [split|].
  - lia.
  - exists (Z.to_nat q). apply Nat2Z.inj. nia.
  - lia.
  - destruct A5 as [A5|[_ A5]]; [left; by apply Hdiv|right; lia].
  - intros Hb. destruct A5 as [A5|[A5 _]]; [by apply Hdiv|congruence].
Qed.

(** The window that is read for a piece. *)
Lemma read_window s n : 0 <= s -> s = 0 \/ 16 <= s -> 0 < n -> s + n <= L ->
  window_of C (take (Z.to_nat (prefix_of_pos s + n)) (drop (Z.to_nat (s - prefix_of_pos s)) C))
    (Z.to_nat (prefix_of_pos s)) (Z.to_nat s) (Z.to_nat s) (Z.to_nat n).
Proof using All.
  intros H1 H2 H3 H4. unfold prefix_of_pos. split.
  - done.
  - lia.
  - destruct (Z.leb_spec 16 s); lia.
  - intros i Hi1 Hi2. rewrite lookup_take, lookup_drop.
    destruct (Z.leb_spec 16 s); (rewrite decide_True by lia); f_equal; lia.
Qed.

(** One piece is decrypted. *)
Lemma chunk_spec s n off pt : aligned s n -> 0 < n -> 0 <= off <= s ->
  exists pt', sar_recover_chunk rk SAR_CTR_CONTINUOUS
      (take (Z.to_nat (prefix_of_pos s + n)) (drop (Z.to_nat (s - prefix_of_pos s)) C))
      (Z.to_nat (prefix_of_pos s)) (buffer pt n) off s n s L = Ret (SAR_RECOVER_OK, pt') /\
    take (Z.to_nat n) pt' = blk P (Z.to_nat s) (Z.to_nat n).
Proof using All.
  intros Ha Hn Ho. destruct (aligned_range s n Ha Hn) as [Hr Hb]. destruct Ha as [A1 A2 _ A4 _].
  destruct (recover_chunk_correct rk cs P C m
    (take (Z.to_nat (prefix_of_pos s + n)) (drop (Z.to_nat (s - prefix_of_pos s)) C))
    (Z.to_nat (prefix_of_pos s)) (buffer pt n) (Z.to_nat off) (Z.to_nat s) (Z.to_nat n) (Z.to_nat s))
    as (pt'&Hc&_&Ht); try done.
  - unfold buffer. rewrite length_app, length_replicate. lia.
  - apply read_window; lia.
  - lia.
  - lia.
  - rewrite !Z2Nat.id, <- Hl in Hc by lia. exists pt'. split; [done|].
    rewrite Nat.sub_diag, take_0 in Ht. replace (Z.to_nat s + Z.to_nat n - Z.to_nat s)%nat with (Z.to_nat n) in Ht by lia.
    done.
Qed.

(** The loop over the pieces of a range. *)
Lemma range_loop_spec n w0 w off rlen k T pt :
  aligned off rlen -> 0 <= k -> (16 | k) -> lasts n (off + k) (off + rlen) -> holding T w0 w -> length T = length P ->
  wp (range_loop n target temp rk off (off + rlen) L (off + k) pt) w
    (fun _ w' => holding (patched T P (Z.to_nat (off + k)) (Z.to_nat (rlen - k))) w0 w') (fun _ _ => False).
Proof using All.
  revert w k T pt. induction n as [|n IH]; intros w k T pt Ha Hk Hd Hn Hh HT; [by apply lasts_pos in Hn|].
  cbn [range_loop]. destruct (Z.ltb_spec (off + k) (off + rlen)) as [Hlt|Hge].
  2: { wp_step. replace (Z.to_nat (rlen - k)) with 0%nat by lia. by rewrite patched_0. }
  destruct (lasts_next n (off + k) (off + rlen) Hn Hlt) as [Hn' Hu].
  destruct (piece_bounds (off + k) (off + rlen) Hlt) as (Hb&Hc&Hd'&He).
  set (x := piece _ _) in *. assert (Hap : aligned (off + k) x).
  { apply aligned_piece with (n := rlen); [done|done|done|lia|lia|].
    destruct Hc as [->|Hc]; [left; by exists (256 * 1024)|right; lia]. }
  pose proof Hap as [B1 B2 _ B4 _]. pose proof (al_inside _ _ Ha) as Hin. assert (Hp : 0 <= off + k - prefix_of_pos (off + k))
    by (unfold prefix_of_pos; destruct (Z.leb_spec 16 (off + k)); lia).
  wp_step. apply (gwp_read target _ _ w C); [apply Hh|apply Hh|
    unfold prefix_of_pos; destruct (Z.leb_spec 16 (off + k)); lia|].
  destruct (chunk_spec (off + k) x off pt Hap ltac:(lia) ltac:(destruct Ha; lia)) as (pt'&Hch&Ht).
  wp_step. eapply wp_lift; [exact Hch|]. cbv beta iota. rewrite bool_decide_eq_true_2 by done. cbn [negb]. rewrite Ht.
  wp_step. apply (gwp_write temp _ _ (next_call w) T); [apply Hh|apply Hh|]. intros w' Hans Hw.
  rewrite Hu. rewrite <- Z.add_assoc.
  assert (Hh' : holding (patched T P (Z.to_nat (off + k)) (Z.to_nat x)) w0 w').
  { eapply holding_write; [by apply holding_call|done|]. rewrite Hw. f_equal. apply pwrite_patched; lia. }
  assert (Hd2 : (16 | k + SAR_PRESERVE_STAGE_MAX)) by (apply Z.divide_add_r; [done|by exists (256 * 1024)]).
  eapply wp_mono; [apply (IH w' (k + SAR_PRESERVE_STAGE_MAX)
    (patched T P (Z.to_nat (off + k)) (Z.to_nat x)) pt' Ha)|..].
  - unfold SAR_PRESERVE_STAGE_MAX; lia.
  - done.
  - by rewrite Z.add_assoc, <- Hu.
  - done.
  - rewrite length_patched; lia.
  - intros ? w1. unfold SAR_PRESERVE_STAGE_MAX in *.
    destruct (Z.leb_spec rlen (k + 4 * 1024 * 1024)).
    + replace (Z.to_nat (rlen - (k + 4 * 1024 * 1024))) with 0%nat by lia. rewrite patched_0.
      by replace (Z.to_nat x) with (Z.to_nat (rlen - k)) by lia.
    + replace (Z.to_nat (off + (k + 4 * 1024 * 1024))) with (Z.to_nat (off + k) + Z.to_nat x)%nat by lia.
      rewrite patched_app by lia. by replace (Z.to_nat x + Z.to_nat (rlen - (k + 4 * 1024 * 1024)))%nat
        with (Z.to_nat (rlen - k)) by lia.
  - done.
Qed.

Lemma range_spec w0 w off rlen T pt : aligned off rlen -> 0 < rlen -> holding T w0 w -> length T = length P ->
  wp (range_loop (rounds rlen) target temp rk off (off + rlen) L off pt) w
    (fun _ w' => holding (patched T P (Z.to_nat off) (Z.to_nat rlen)) w0 w') (fun _ _ => False).
Proof using All.
  intros Ha Hr Hh HT. pose proof Ha as [A1 _ _ A4 _].
  pose proof (range_loop_spec (rounds rlen) w0 w off rlen 0 T pt Ha ltac:(lia) ltac:(by exists 0)) as Hs.
  rewrite Z.add_0_r, Z.sub_0_r in Hs. apply Hs; [|done|done].
  replace rlen with (off + rlen - off) at 1 by lia. apply lasts_rounds; lia.
Qed.

End Range.

(** ** The records *)

Abbreviation rk_of := sar_recovery_key_from_record.
Abbreviation off_of r := (KsRec.provenance_offset r).

(** The record of a write that was part of encrypting [P] to [C]: its key
    encrypts a prefix of the file, its range and its sample are whole blocks of
    it, and the tag is that of the sample of [P]. *)
Record captured (r : KsRec.semantics_ar_keystore_record_t) : Prop := {
  cp_readable : readable r;
  cp_inside : off_of r < L;
  cp_key : key_ok (rk_of r);
  cp_rc4 : is_rc4 (rk_of r) = false;
  cp_ranges : exists cs m, build_ciphers (rk_of r) = Some cs /\ (m <= length P)%nat /\
    encrypts (rk_of r) 0 (blk P 0 m) (blk C 0 m) /\
    aligned (rk_of r) cs m (off_of r) (range_len r L) /\
    aligned (rk_of r) cs m (KsRec.sample_offset r) (KsRec.sample_length r);
  cp_sample : sample_fits r (off_of r) (range_len r L) = true;
  cp_tag : Keystore.sar_sample_tag
      (Some (blk P (Z.to_nat (KsRec.sample_offset r)) (Z.to_nat (KsRec.sample_length r))))
      (KsRec.sample_length r) = KsRec.sample_tag r
}.

(** The temporary file before a record is applied. *)
Definition prepared (s : progress) (T : bytes) (w0 w : world) : Prop :=
  if oh s then holding T w0 w
  else T = C /\ granted w /\ files w !! target = Some C /\ frame temp w0 w.

Lemma sample_tag_take (b : bytes) n : 0 < n ->
  Keystore.sar_sample_tag (Some b) n = Keystore.sar_sample_tag (Some (take (Z.to_nat n) b)) n.
Proof.
  intros H. unfold Keystore.sar_sample_tag. destruct (Z.eqb_spec n 0); [lia|]. by rewrite take_take, Nat.min_id.
Qed.

Lemma captured_bounds r : captured r ->
  0 <= off_of r /\ 0 < range_len r L <= L - off_of r /\ 0 < KsRec.sample_length r /\
  0 <= off_of r <= KsRec.sample_offset r /\ KsRec.sample_offset r + KsRec.sample_length r <= L /\
  u64 (off_of r + range_len r L) = off_of r + range_len r L.
Proof using All.
  intros Hr. pose proof (range_len_bounds r L (cp_readable r Hr) (cp_inside r Hr)) as Hb.
  pose proof (readable_u64 r (cp_readable r Hr)) as (H1&_&H3&H4).
  pose proof (cp_sample r Hr) as Hs. unfold sample_fits in Hs. rewrite negb_true_iff, !orb_false_iff in Hs.
  destruct Hs as [[[S1%Z.eqb_neq S2%Z.ltb_ge] S3%Z.ltb_ge] S4%Z.ltb_ge].
  unfold is_u, SAR_PRESERVE_STAGE_MAX in *.
  destruct (cp_ranges r Hr) as (cs&m&_&Hm&_&_&[_ _ _ A4 _]).
  assert (E : u64 (off_of r + range_len r L) = off_of r + range_len r L) by (apply u64_small; unfold is_u; lia).
  rewrite E. lia.
Qed.

Lemma prepared_target s T w0 w : prepared s T w0 w -> granted w /\ files w !! target = Some C.
Proof. unfold prepared. destruct (oh s); [intros [? ? ? ?]|intros (_&?&?&_)]; done. Qed.

Lemma prepared_call s T w0 w : prepared s T w0 w -> prepared s T w0 (next_call w).
Proof. unfold prepared. destruct (oh s); [apply holding_call|done]. Qed.

Lemma check_sample_spec r s T w0 w pt : captured r -> prepared s T w0 w ->
  wp (check_sample target (rk_of r) r (off_of r) L pt) w
    (fun x w' => x.1 = true /\ prepared s T w0 w') (fun _ _ => False).
Proof using All.
  intros Hr Hw. destruct (prepared_target _ _ _ _ Hw) as [Hg Ht].
  destruct (captured_bounds r Hr) as (B1&B2&B3&B4&B5&_).
  destruct (cp_ranges r Hr) as (cs&m&Hcs&Hm&He&_&Ha).
  destruct (chunk_spec (rk_of r) cs m (cp_key r Hr) (cp_rc4 r Hr) Hcs He Hm
    (KsRec.sample_offset r) (KsRec.sample_length r) (off_of r) pt Ha B3 B4) as (pt'&Hch&Hpt).
  unfold check_sample. wp_step. apply (gwp_read target _ _ w C); [done|done|
    unfold prefix_of_pos; destruct (Z.leb_spec 16 (KsRec.sample_offset r)); lia|].
  wp_step. eapply wp_lift; [exact Hch|]. cbv beta iota. wp_step. split; [|by apply prepared_call].
  cbn [fst]. rewrite sample_tag_take, Hpt, (cp_tag r Hr) by done. by rewrite !bool_decide_eq_true_2.
Qed.

Lemma open_temp_spec s T w0 w : prepared s T w0 w ->
  wp (open_temp target temp L s) w (fun _ w' => holding T w0 w') (fun _ _ => False).
Proof using All.
  unfold prepared, open_temp. destruct (oh s); [intros H; by wp_step|]. intros (->&Hg&Ht&Hf).
  wp_step. apply gwp_create; [done|]. cbn [negb]. apply copy_loop_spec.
  - rewrite <- (Z.sub_0_r L) at 1. apply lasts_rounds; lia.
  - left. lia.
  - split; [done| |by cbn [files set_files]; rewrite lookup_insert_eq|by apply frame_insert].
    cbn [files set_files next_call]. by rewrite lookup_insert_ne.
Qed.

(** What one record does to the content. *)
Definition apply_range (k : bytes) (T : bytes) (r : KsRec.semantics_ar_keystore_record_t) : bytes :=
  if bool_decide (KsRec.key_id r = k) then patched T P (Z.to_nat (off_of r)) (Z.to_nat (range_len r L)) else T.

Lemma length_apply_range k T r : (KsRec.key_id r = k -> captured r) -> length T = length P ->
  length (apply_range k T r) = length P.
Proof using All.
  intros Hr HT. unfold apply_range. case_bool_decide; [|done].
  destruct (captured_bounds r) as (B1&B2&_); [by apply Hr|]. rewrite length_patched; lia.
Qed.

(** The end of the last range, and whether a record has the key id. *)
Definition last_end (k : bytes) (rs : list KsRec.semantics_ar_keystore_record_t) : Z :=
  fold_left (fun e r => if bool_decide (KsRec.key_id r = k) then Z.max e (off_of r + range_len r L) else e) rs 0.

Definition some_hit (k : bytes) (rs : list KsRec.semantics_ar_keystore_record_t) : bool :=
  existsb (fun r => bool_decide (KsRec.key_id r = k)) rs.

(** The state of the loop after the records [rs]. *)
Record after (k : bytes) (rs : list KsRec.semantics_ar_keystore_record_t) (s : progress) (w0 w : world)
  : Prop := {
  af_prepared : prepared s (fold_left (apply_range k) rs C) w0 w;
  af_length : length (fold_left (apply_range k) rs C) = length P;
  af_end : recoveredEnd s = last_end k rs;
  af_open : oh s = some_hit k rs;
  af_matched : matched s = some_hit k rs;
  af_applied : 0 <= applied s /\ (some_hit k rs = true -> 0 < applied s)
}.

Lemma after_skip k rs r s w0 w : after k rs s w0 w -> KsRec.key_id r <> k -> after k (rs ++ [r]) s w0 w.
Proof.
  intros [H1 H2 H3 H4 H5 H6] Hk.
  assert (E1 : fold_left (apply_range k) (rs ++ [r]) C = fold_left (apply_range k) rs C)
    by (rewrite fold_left_app; cbn; unfold apply_range; by rewrite bool_decide_eq_false_2).
  assert (E2 : last_end k (rs ++ [r]) = last_end k rs)
    by (unfold last_end; rewrite fold_left_app; cbn; by rewrite bool_decide_eq_false_2).
  assert (E3 : some_hit k (rs ++ [r]) = some_hit k rs)
    by (unfold some_hit; rewrite existsb_app; cbn; by rewrite bool_decide_eq_false_2, !orb_false_r).
  by split; rewrite ?E1, ?E2, ?E3.
Qed.

Lemma record_step_spec k rs r s w0 w : (KsRec.key_id r = k -> captured r) -> after k rs s w0 w ->
  wp (record_step target temp L k r s) w (fun s' w' => after k (rs ++ [r]) s' w0 w') (fun _ _ => False).
Proof using All.
  intros Hr Haf. unfold record_step. destruct (decide (KsRec.key_id r = k)) as [Hk|Hk].
  2: { rewrite bool_decide_eq_false_2 by done. cbn [negb]. wp_step. by apply after_skip. }
  rewrite bool_decide_eq_true_2 by done. cbn [negb]. specialize (Hr Hk).
  destruct (captured_bounds r Hr) as (B1&B2&B3&B4&B5&B6).
  destruct (Z.leb_spec L (off_of r)); [lia|]. rewrite (cp_sample r Hr). cbn [negb].
  destruct Haf as [H1 H2 H3 H4 H5 [H6 _]].
  wp_step. eapply wp_mono; [by apply check_sample_spec| |done]. intros [good pt] w1 [Hgood Hw1].
  cbn [fst] in Hgood. rewrite Hgood. cbn [negb].
  wp_step. eapply wp_mono; [by apply open_temp_spec| |done]. intros ? w2 Hw2. cbv beta in Hw2 |- *.
  destruct (cp_ranges r Hr) as (cs&m&Hcs&Hm&He&Ha&_). rewrite B6.
  wp_step. eapply wp_mono;
    [apply (range_spec (rk_of r) cs m (cp_key r Hr) (cp_rc4 r Hr) Hcs He Hm w0 w2 (off_of r) (range_len r L)
       (fold_left (apply_range k) rs C) pt Ha); [lia|done|done]| |done].
  intros pt' w3 Hw3. cbv beta in *. wp_step.
  assert (E1 : fold_left (apply_range k) (rs ++ [r]) C =
    patched (fold_left (apply_range k) rs C) P (Z.to_nat (off_of r)) (Z.to_nat (range_len r L)))
    by (rewrite fold_left_app; cbn; unfold apply_range; by rewrite bool_decide_eq_true_2).
  assert (E3 : some_hit k (rs ++ [r]) = true)
    by (unfold some_hit; rewrite existsb_app; cbn; by rewrite bool_decide_eq_true_2, orb_true_r by done).
  split; rewrite ?E1, ?E3; cbn [oh matched applied recoveredEnd]; try done.
  - rewrite length_patched; lia.
  - unfold last_end. rewrite fold_left_app. cbn. rewrite bool_decide_eq_true_2 by done. fold (last_end k rs).
    rewrite <- H3. destruct (Z.ltb_spec (recoveredEnd s) (off_of r + range_len r L)); lia.
  - lia.
Qed.

Lemma record_loop_spec k done rs s w0 w : Forall (fun r => KsRec.key_id r = k -> captured r) rs ->
  after k done s w0 w ->
  wp (record_loop target temp L k rs s) w (fun s' w' => after k (done ++ rs) s' w0 w') (fun _ _ => False).
Proof using All.
  revert done s w. induction rs as [|r rs IH]; intros dn s w Hrs Haf; cbn [record_loop].
  - wp_step. by rewrite app_nil_r.
  - inversion Hrs; subst. wp_step. eapply wp_mono; [by apply record_step_spec| |done].
    intros s' w' Hw'. replace (dn ++ r :: rs) with ((dn ++ [r]) ++ rs) by (by rewrite <- app_assoc).
    by apply IH.
Qed.

Lemma last_end_bounds k rs : Forall (fun r => KsRec.key_id r = k -> captured r) rs -> 0 <= last_end k rs <= L.
Proof using All.
  intros H. unfold last_end. assert (Hg : forall e, 0 <= e <= L -> 0 <= fold_left (fun e r =>
    if bool_decide (KsRec.key_id r = k) then Z.max e (off_of r + range_len r L) else e) rs e <= L); [|apply Hg; lia].
  induction rs as [|r rs IH]; intros e He; [done|]. inversion H; subst. cbn [fold_left]. apply IH; [done|].
  case_bool_decide; [|done]. destruct (captured_bounds r) as (B1&B2&_); [by auto|]. lia.
Qed.

(** The content the driver puts together. *)
Definition restored (k : bytes) (rs : list KsRec.semantics_ar_keystore_record_t) : bytes :=
  take (Z.to_nat (last_end k rs)) (fold_left (apply_range k) rs C).

Lemma finish_spec k rs s w0 w : Forall (fun r => KsRec.key_id r = k -> captured r) rs -> some_hit k rs = true ->
  after k rs s w0 w ->
  wp (finish temp L s) w (fun _ w' => holding (restored k rs) w0 w') (fun _ _ => False).
Proof using All.
  intros Hrs Hhit [H1 H2 H3 H4 H5 [_ H6]]. unfold finish, prepared in *. rewrite H5, H4, Hhit in *. cbn [negb andb].
  destruct (Z.eqb_spec (applied s) 0); [lia|]. rewrite H3. pose proof (last_end_bounds k rs Hrs) as Hb.
  wp_step. unfold restored. destruct (Z.ltb_spec (last_end k rs) L).
  - eapply gwp_resize; [apply H1|apply H1|]. intros w' Ha Hw. cbn [negb].
    assert (Hh : holding (take (Z.to_nat (last_end k rs)) (fold_left (apply_range k) rs C)) w0 w').
    { eapply holding_write; [done|done|]. rewrite Hw. f_equal. unfold set_size.
      replace (_ - _)%nat with 0%nat by lia. cbn [replicate]. by rewrite app_nil_r. }
    wp_step. apply gwp_request; [apply Hh|]. cbn [negb]. wp_step. by apply holding_call.
  - wp_step. cbn [negb]. wp_step. apply gwp_request; [apply H1|]. cbn [negb]. wp_step.
    rewrite take_ge by lia. by apply holding_call.
Qed.

(** ** The run *)

Lemma execute_spec ks k path w :
  SarRecBuildPaths path = Some (target, temp) -> granted w -> files w !! target = Some C ->
  KeystorePersist.ready ks = true ->
  Forall (fun r => KsRec.key_id r = k -> captured r) (KeystorePersist.records ks) ->
  some_hit k (KeystorePersist.records ks) = true ->
  wp (SarRecoveryExecute (Some ks) k path) w
    (fun _ w' => holding (restored k (KeystorePersist.records ks)) w w') (fun _ _ => False).
Proof using All.
  intros Hb Hg Ht Hrd Hrs Hhit. unfold SarRecoveryExecute. rewrite Hrd, Hb. cbn [negb].
  wp_step. apply gwp_request; [done|]. cbn [negb].
  wp_step. apply gwp_request; [done|]. wp_step. apply gwp_request; [done|].
  wp_step. apply gwp_request; [done|]. cbn [negb andb].
  wp_step. apply (gwp_open target _ C); [done|done|]. cbn [negb].
  wp_step. apply (gwp_query target _ C); [done|done|]. change (default 0 (Some ?n)) with n.
  destruct (Z.eqb_spec L 0); [lia|]. set (w1 := next_call _).
  wp_step. eapply wp_mono; [apply (record_loop_spec k [] (KeystorePersist.records ks) start w w1 Hrs)| |done].
  - split; cbn; try done.
  - intros s w' Hw'. cbn [app] in Hw'. by apply finish_spec.
Qed.

(** The ranges with the key id: their bytes, and what is before the end of one. *)
Definition covered (k : bytes) (rs : list KsRec.semantics_ar_keystore_record_t) (i : nat) : Prop :=
  Exists (fun r => KsRec.key_id r = k /\ off_of r <= Z.of_nat i < off_of r + range_len r L) rs.
Definition below (k : bytes) (rs : list KsRec.semantics_ar_keystore_record_t) (i : nat) : Prop :=
  Exists (fun r => KsRec.key_id r = k /\ Z.of_nat i < off_of r + range_len r L) rs.

Lemma ranges_lookup k rs i : Forall (fun r => KsRec.key_id r = k -> captured r) rs ->
  length (fold_left (apply_range k) rs C) = length P /\
  (covered k rs i -> fold_left (apply_range k) rs C !! i = P !! i) /\
  (~ covered k rs i -> fold_left (apply_range k) rs C !! i = C !! i).
Proof using All.
  induction rs as [|r rs IH] using rev_ind; intros Hrs.
  { split_and!; [done|by intros H; inversion H|done]. }
  apply Forall_app in Hrs as [Hrs [Hr _]%Forall_cons]. destruct (IH Hrs) as (I1&I2&I3).
  rewrite fold_left_app. cbn [fold_left]. unfold covered. rewrite Exists_app, Exists_cons, Exists_nil.
  fold (covered k rs i). set (T := fold_left (apply_range k) rs C) in *.
  split; [by apply length_apply_range|]. unfold apply_range.
  destruct (decide (KsRec.key_id r = k)) as [Hk|Hk].
  2: { rewrite bool_decide_eq_false_2 by done. split; [intros [H|[[H _]|[]]]; [by apply I2|done]|by intros; apply I3; auto]. }
  rewrite bool_decide_eq_true_2 by done. destruct (captured_bounds r (Hr Hk)) as (B1&B2&_).
  rewrite lookup_patched by lia. case_decide as Hd.
  - split; [done|]. intros Hn. destruct Hn. right. left. split; [done|lia].
  - split; [|by intros; apply I3; auto]. intros [H|[[_ H]|[]]]; [by apply I2|]. lia.
Qed.

Lemma below_last k rs i : below k rs i <-> Z.of_nat i < last_end k rs.
Proof using All.
  unfold below, last_end. induction rs as [|r rs IH] using rev_ind.
  { split; [intros H; inversion H|cbn; lia]. }
  rewrite fold_left_app, Exists_app, Exists_cons, Exists_nil, IH. cbn [fold_left].
  case_bool_decide.
  - rewrite Z.max_lt_iff. intuition.
  - intuition.
Qed.

Lemma restored_lookup k rs i : Forall (fun r => KsRec.key_id r = k -> captured r) rs ->
  (covered k rs i -> restored k rs !! i = P !! i) /\
  (~ covered k rs i -> below k rs i -> restored k rs !! i = C !! i) /\
  (~ below k rs i -> restored k rs !! i = None).
Proof using All.
  intros Hrs. destruct (ranges_lookup k rs i Hrs) as (I1&I2&I3). unfold restored.
  assert (Hcb : covered k rs i -> below k rs i).
  { unfold covered, below. intros H. eapply Exists_impl; [exact H|]. intros r [? ?]. split; [done|lia]. }
  rewrite lookup_take. split_and!.
  - intros Hc. pose proof (proj1 (below_last k rs i) (Hcb Hc)). rewrite decide_True by lia. by apply I2.
  - intros Hc Hb. apply below_last in Hb. rewrite decide_True by lia. by apply I3.
  - rewrite below_last. intros Hb. rewrite decide_False; [done|lia].
Qed.

End Restore.

Lemma frame_delete t w w' : frame t w w' -> delete t (files w') = delete t (files w).
Proof.
  intros [H _]. apply map_eq. intros p. destruct (decide (p = t)) as [->|].
  - by rewrite !lookup_delete_eq.
  - rewrite !lookup_delete_ne by done. by apply H.
Qed.

(** When every call succeeds the service puts the driver's file in place. *)
Lemma run_granted exec tp target temp X w :
  SarRecBuildPaths (request_path tp) = Some (target, temp) -> granted w ->
  wp (exec (request_path tp)) (next_call w)
    (fun _ w' => granted w' /\ files w' !! temp = Some X /\ frame temp (next_call w) w') (fun _ _ => False) ->
  exists n w', recovery_run exec tp w = Ret (inr (SAR_RECOVER_OK, n), w') /\
    files w' = <[target := X]> (delete temp (files w)).
Proof.
  intros Hb Hg ([x|n]&w1&He&Hw1); [done|]. destruct Hw1 as (Hg1&Hx&Hf).
  pose proof (paths_differ _ _ _ Hb) as Hne.
  assert (Hwp : wp (recovery_run exec tp) w (fun r w' => r = (SAR_RECOVER_OK, n) /\
      files w' = <[target := X]> (delete temp (files w))) (fun _ _ => False)).
  { unfold recovery_run. wp_step. apply gwp_request; [done|]. cbn [negb].
    wp_step. exists (inr (SAR_RECOVER_OK, n)), w1. split; [unfold reply; by rewrite He|]. cbv beta iota.
    rewrite bool_decide_eq_true_2 by done. cbn [negb]. wp_step. apply gwp_request; [done|]. rewrite Hb.
    wp_step. unfold sar_atomic_replace_file. wp_step. apply gwp_request; [done|].
    wp_step. apply gwp_request; [done|]. cbn [andb]. wp_step. unfold sar_replace_w.
    wp_step. eexists (inr _), _. split; [done|]. wp_step. eexists (inr _), _. split; [done|].
    wp_step. eexists (inr _), _. split; [done|]. cbn [files next_call answers calls].
    rewrite Hg1, Hx, (bool_decide_eq_true_2 (is_Some (Some X))), andb_true_r by by eexists.
    assert (Hd : <[target := X]> (delete temp (files w1)) = <[target := X]> (delete temp (files w)))
      by (f_equal; by apply frame_delete).
    destruct (bool_decide _).
    - wp_step. eexists (inr tt), _. split; [done|]. do 3 wp_step. split; [done|].
      cbn [files next_call]. rewrite Hx. exact Hd.
    - unfold sar_rename_posix. wp_step. apply (gwp_open temp _ X); [done|done|]. cbn [negb].
      wp_step. apply gwp_request; [done|]. cbn [negb]. wp_step. apply gwp_request; [done|].
      wp_step. eexists (inr tt), _. split; [done|]. do 3 wp_step. split; [done|].
      cbn [files next_call]. rewrite Hx. exact Hd. }
  destruct Hwp as ([[]|r]&w'&Hr&->&Hw'). by exists n, w'.
Qed.

(** Property C5: recovery with a captured key gives the original back.  The
    target is [C], the encryption of [P].  Every keystore record with the requested
    key id was captured from that encryption ([captured]), and there is one: its key is
    not an RC4 key and turns a prefix of [P] into that of [C] from offset 0 on,
    its range and its sample lie in that prefix, start at 0 or at a block from byte 16
    on and are whole blocks (or, in a mode that needs none, end with the prefix), the
    sample lies in the range, and its tag is that of the sample of [P].  When the system grants every call, the service reports success and the target
    holds the bytes of [P] in the ranges of the records, its own bytes between them,
    and ends with the last of them; no other file has changed.  If the records
    cover all that differs and reach the end of the file, the target is [P].  For a
    range that ends inside a block the code writes zeros in place of its last
    bytes (recovery_zeroes_last_block), which this theorem excludes. *)
Theorem driver_recovery_restores ks k tp target temp P C w :
  is_bytes P -> is_bytes C -> length C = length P -> 0 < Z.of_nat (length C) < 2 ^ 63 ->
  SarRecBuildPaths (request_path tp) = Some (target, temp) -> granted w -> files w !! target = Some C ->
  KeystorePersist.ready ks = true ->
  Forall (fun r => KsRec.key_id r = k -> captured P C r) (KeystorePersist.records ks) ->
  some_hit k (KeystorePersist.records ks) = true ->
  exists n w' X, sar_recovery_run (Some ks) k tp w = Ret (inr (SAR_RECOVER_OK, n), w') /\
    files w' = <[target := X]> (delete temp (files w)) /\
    (forall i, (covered C k (KeystorePersist.records ks) i -> X !! i = P !! i) /\
       (~ covered C k (KeystorePersist.records ks) i -> below C k (KeystorePersist.records ks) i -> X !! i = C !! i) /\
       (~ below C k (KeystorePersist.records ks) i -> X !! i = None)) /\
    ((forall i, ~ covered C k (KeystorePersist.records ks) i -> C !! i = P !! i) ->
     below C k (KeystorePersist.records ks) (length C - 1) -> X = P).
Proof.
  intros HP HC Hl Hs Hb Hg Ht Hr Hrs Hhit. pose proof (paths_differ _ _ _ Hb) as Hne.
  set (rs := KeystorePersist.records ks) in *.
  assert (Hlook : forall i, (covered C k rs i -> restored P C k rs !! i = P !! i) /\
       (~ covered C k rs i -> below C k rs i -> restored P C k rs !! i = C !! i) /\
       (~ below C k rs i -> restored P C k rs !! i = None)).
  { intros i. by apply (restored_lookup target temp P C). }
  destruct (run_granted (SarRecoveryExecute (Some ks) k) tp target temp (restored P C k rs) w Hb Hg)
    as (n&w'&Hrun&Hw').
  - eapply wp_mono; [by apply (execute_spec target temp P C)| |done]. by intros ? w1 [? ? ? ?].
  - exists n, w', (restored P C k rs). split_and!; [done|done|done|]. intros Hout Hend.
    apply list_eq. intros i. destruct (Hlook i) as (L1&L2&L3).
    destruct (decide (i < length C)%nat) as [Hi|Hi].
    + assert (Hbi : below C k rs i).
      { eapply Exists_impl; [exact Hend|]. intros r [? ?]. split; [done|lia]. }
      destruct (decide (covered C k rs i)) as [Hc|Hc]; [by apply L1|]. rewrite (L2 Hc Hbi). by apply Hout.
    + rewrite (lookup_ge_None_2 P) by lia. unfold restored. rewrite lookup_take.
      case_decide; [|done]. apply lookup_ge_None_2. rewrite (proj1 (ranges_lookup target temp P C Hne HP HC Hl Hs k rs i Hrs)). lia.
Qed.

End RecoveryRestore.
