(* ===== verification/RecoveryPreserve.v ===== *)
(** * What recovery from the preservation store restores

    The driver lays the preserved region over the target: in every state of the
    store, the file that replaces the target is the target with the bytes that
    were staged for the region. *)

From stdpp Require Import gmap relations.
From S2P Require Import Prelude Mem Format Sha256 Chain Keystore CipherCommon Modes Recover RecoverCorrect.
From S2P Require Import DriverState Preserve DriverPreserve PreserveAlloc PreserveRefine PreserveStage PreserveStore.
From S2P Require Import Calls DriverRecovery RecoveryFrame RecoveryRestore.
Import Mem Layout Recover DriverRecovery RecoveryFrame RecoveryRestore.
Import DriverPreserve PreserveRefine PreserveStage PreserveStore.
Import DriverState (NTSTATUS, NT_SUCCESS, STATUS_SUCCESS, STATUS_NOT_FOUND).

Module RecoveryPreserve.

(** ** The overlay *)

(** Byte [i] of the file [B] with [region] written at [off]. *)
Lemma lookup_pwrite B off region i :
  pwrite B off region !! i =
    if decide (off <= i < off + length region)%nat then region !! (i - off)%nat
    else if decide (i < length B)%nat then B !! i
    else if decide (i < off)%nat then Some 0 else None.
Proof.
  unfold pwrite. assert (Hl : length (take off (B ++ replicate (off - length B) 0)) = off).
  { rewrite length_take, length_app, length_replicate. lia. }
  destruct (decide (i < off)%nat) as [Hi|Hi].
  - rewrite lookup_app_l by lia. rewrite lookup_take, decide_True by done.
    rewrite (decide_False (P := (off <= i < off + length region)%nat)) by lia.
    case_decide; [by rewrite lookup_app_l|]. rewrite lookup_app_r by lia. apply lookup_replicate_2. lia.
  - rewrite lookup_app_r, Hl by lia. destruct (decide (i < off + length region)%nat) as [Hi2|Hi2].
    + rewrite lookup_app_l by lia. by rewrite decide_True by lia.
    + rewrite lookup_app_r, lookup_drop by lia.
      rewrite (decide_False (P := (off <= i < off + length region)%nat)) by lia.
      replace (off + length region + (i - off - length region))%nat with i by lia.
      case_decide; [done|]. by apply lookup_ge_None_2; lia.
Qed.

Lemma length_pwrite B off region :
  length (pwrite B off region) = Nat.max (length B) (off + length region).
Proof.
  unfold pwrite. rewrite !length_app, length_take, length_app, length_replicate, length_drop. lia.
Qed.

Lemma recoverypreserve_lookup_mem_write {A} (dst : list A) off src i : (off + length src <= length dst)%nat ->
  mem_write dst off src !! i =
    if decide (off <= i < off + length src)%nat then src !! (i - off)%nat else dst !! i.
Proof.
  intros H. rewrite mem_write_spec by done.
  assert (Hl : length (take off dst) = off) by (rewrite length_take; lia).
  destruct (decide (i < off)%nat).
  - rewrite lookup_app_l by lia. rewrite lookup_take, decide_True by done. by rewrite decide_False by lia.
  - rewrite lookup_app_r, Hl by lia. destruct (decide (i < off + length src)%nat).
    + rewrite lookup_app_l by lia. by rewrite decide_True by lia.
    + rewrite lookup_app_r, lookup_drop by lia. rewrite decide_False by lia. f_equal. lia.
Qed.

Section Overlay.
Context (target temp : file_name) (B region : bytes) (off rlen : Z).
Context (Hne : target <> temp) (Hoff : 0 <= off) (Hr : 0 < rlen) (Hregion : Z.of_nat (length region) = rlen).
Context (Hsum : off + rlen < 2 ^ 63) (HB : Z.of_nat (length B) < 2 ^ 63).

Abbreviation result := (pwrite B (Z.to_nat off) region).
Abbreviation size := (Z.of_nat (length result)).

Lemma size_eq : size = Z.max (Z.of_nat (length B)) (off + rlen).
Proof using Hregion Hoff. rewrite length_pwrite. lia. Qed.

(** The bytes of the target in the piece at [pos], in a zeroed buffer. *)
Definition base_piece (pos n : Z) : bytes :=
  mem_write (replicate (Z.to_nat n) 0) 0 (take (Z.to_nat n) (drop (Z.to_nat pos) B)).

Lemma overlay_piece pos n : 0 <= pos -> 0 < n -> pos + n <= size ->
  overlay (base_piece pos n) region off rlen pos n = take (Z.to_nat n) (drop (Z.to_nat pos) result).
Proof using All.
  intros Hp Hn Hs. pose proof size_eq as Hsz. unfold overlay.
  rewrite !u64_small by (unfold is_u; lia).
  set (os := if pos <? off then off else pos). set (oe := if off + rlen <? pos + n then off + rlen else pos + n).
  assert (Hos : os = Z.max off pos) by (unfold os; destruct (Z.ltb_spec pos off); lia).
  assert (Hoe : oe = Z.min (off + rlen) (pos + n)) by (unfold oe; destruct (Z.ltb_spec (off + rlen) (pos + n)); lia).
  assert (Hlb : length (base_piece pos n) = Z.to_nat n) by (unfold base_piece; rewrite length_mem_write, length_replicate; done).
  assert (Hbase : forall i, (i < Z.to_nat n)%nat -> base_piece pos n !! i =
    if decide (Z.to_nat pos + i < length B)%nat then B !! (Z.to_nat pos + i)%nat else Some 0).
  { intros i Hi. unfold base_piece.
    rewrite recoverypreserve_lookup_mem_write by (rewrite length_take, length_drop, length_replicate; lia).
    rewrite length_take, length_drop, Nat.sub_0_r. repeat case_decide; try lia.
    - by rewrite lookup_take, decide_True, lookup_drop by lia.
    - by apply lookup_replicate_2. }
  apply list_eq. intros i. rewrite lookup_take, lookup_drop.
  destruct (decide (i < Z.to_nat n)%nat) as [Hi|Hi].
  2: { apply lookup_ge_None_2. destruct (os <? oe); rewrite ?length_mem_write; lia. }
  rewrite lookup_pwrite. set (j := (Z.to_nat pos + i)%nat).
  destruct (decide (Z.to_nat off <= j < Z.to_nat off + length region)%nat) as [Hj|Hj].
  - destruct (Z.ltb_spec os oe); [|lia].
    rewrite recoverypreserve_lookup_mem_write by (rewrite length_take, length_drop; lia).
    rewrite length_take, length_drop, decide_True by lia.
    rewrite lookup_take, decide_True, lookup_drop by lia. f_equal. lia.
  - transitivity (base_piece pos n !! i).
    + destruct (Z.ltb_spec os oe); [|done].
      rewrite recoverypreserve_lookup_mem_write by (rewrite length_take, length_drop; lia).
      by rewrite length_take, length_drop, decide_False by lia.
    + rewrite Hbase by done. fold j. destruct (decide (j < length B)%nat); [done|]. by rewrite decide_True by lia.
Qed.

(** The target is open with content [B], or counts as empty. *)
Definition based (th : bool) (w : world) : Prop :=
  granted w /\ (if th then files w !! target = Some B else B = []).

Lemma overlay_loop_spec n th w0 w pos :
  lasts n pos size -> based th w -> files w !! temp = Some (take (Z.to_nat pos) result) -> RecoveryFrame.frame temp w0 w ->
  wp (overlay_loop n target temp th (Z.of_nat (length B)) size region off rlen pos) w
    (fun _ w' => granted w' /\ files w' !! temp = Some result /\ RecoveryFrame.frame temp w0 w') (fun _ _ => False).
Proof using All.
  revert w pos. induction n as [|n IH]; intros w pos Hn Hb Ht Hf; [by apply lasts_pos in Hn|].
  cbn [overlay_loop]. pose proof Hn as (H0&_&_&_). destruct Hb as [Hg Hb].
  destruct (Z.ltb_spec pos size) as [Hlt|Hge].
  2: { wp_step. rewrite take_ge in Ht by lia. done. }
  destruct (lasts_next n pos size Hn Hlt) as [Hn' Hu]. destruct (piece_bounds pos size Hlt) as (Hp1&_&Hp3&Hp4).
  set (x := piece pos size) in *. wp_step.
  eapply wp_mono with (Q := fun chunk w1 => chunk = base_piece pos x /\ (w1 = w \/ w1 = next_call w))
    (X := fun _ _ => False); [| |done].
  - destruct (Z.ltb_spec pos (Z.of_nat (length B))) as [HpB|HpB].
    + destruct th; [|exfalso; rewrite Hb in HpB; cbn in HpB; lia]. cbn [andb]. wp_step.
      apply (gwp_read target _ _ w B); [done|done|done|]. wp_step. split; [|by right].
      unfold base_piece. f_equal. destruct (Z.ltb_spec x (Z.of_nat (length B) - pos)); [done|].
      rewrite !take_ge; [done|rewrite length_drop; lia..].
    + rewrite andb_false_r. wp_step. split; [|by left]. unfold base_piece.
      by rewrite drop_ge, take_nil by lia.
  - intros chunk w1 [-> Hw1].
    assert (Hw1' : granted w1 /\ files w1 = files w /\ answers w1 = answers w) by (by destruct Hw1 as [-> | ->]).
    destruct Hw1' as (Hg1&Hf1&Ha1). wp_step.
    apply (gwp_write temp _ _ w1 (take (Z.to_nat pos) result)); [done|by rewrite Hf1|]. intros w2 Ha2 Hw2.
    rewrite overlay_piece, pwrite_next in Hw2 by lia.
    apply IH; [done| | |].
    + split; [intros j; by rewrite Ha2|]. destruct th; [|done]. rewrite Hw2, lookup_insert_ne, Hf1 by done. done.
    + rewrite Hw2, lookup_insert_eq, Hu. f_equal. unfold SAR_PRESERVE_STAGE_MAX in *.
      destruct (Z.leb_spec size (pos + 4 * 1024 * 1024)); [rewrite !take_ge by lia; done|f_equal; lia].
    + destruct Hf as [F1 F2]. split; [|by rewrite Ha2, Ha1]. intros q Hq.
      rewrite Hw2, lookup_insert_ne, Hf1 by done. by apply F1.
Qed.

End Overlay.

(** ** The run *)

Section Run.
Context {F : Type} {DF : DataFile F} {DFL : DataFileLaws F} {AC : AesCbc} {ACL : AesCbcLaws}.

(** The path under which the store is asked. *)
Definition lookup_path (nenv : resolve_env) (path : list Z) (target : file_name) : list Z :=
  let resolved := SarRecResolveNtPath nenv target in
  if negb (rd resolved 0 =? 0) then resolved else path.

(** The driver with a region that the store gives back; [B] is the target, or
    empty if there is none. *)
Lemma preserve_execute_spec renv nenv p (f : F) path off rlen target temp B st region w :
  SarRecBuildPaths path = Some (target, temp) -> granted w ->
  files w !! target = Some B \/ (files w !! target = None /\ B = []) ->
  0 <= off -> 0 < rlen < 2 ^ 32 -> off + rlen < 2 ^ 63 -> Z.of_nat (length B) < 2 ^ 63 ->
  SarPreserveRestore renv p f (lookup_path nenv path target) off rlen rlen = (st, region) -> NT_SUCCESS st = true ->
  Z.of_nat (length region) = rlen ->
  wp (SarPreserveRecoveryExecute renv nenv (Some (p, f)) path off rlen) w
    (fun _ w' => granted w' /\ files w' !! temp = Some (pwrite B (Z.to_nat off) region) /\
       RecoveryFrame.frame temp w w') (fun _ _ => False).
Proof.
  intros Hb Hg HB Ho Hr Hs HBl Hres Hst Hreg. unfold SarPreserveRecoveryExecute.
  pose proof (paths_differ _ _ _ Hb) as Hne.
  rewrite (u64_small (off + rlen)), (u32_small rlen) by (unfold is_u; lia).
  replace ((rlen =? 0) || (off + rlen <? off)) with false
    by (symmetry; apply orb_false_iff; split; [apply Z.eqb_neq; lia|apply Z.ltb_ge; lia]).
  wp_step. apply gwp_request; [done|]. cbn [negb]. rewrite Hb.
  wp_step. apply gwp_request; [done|]. wp_step. apply gwp_request; [done|]. cbn [andb negb].
  fold (lookup_path nenv path target). rewrite Hres, Hst, Hreg, Z.eqb_refl. cbn [negb orb].
  set (w1 := next_call (next_call (next_call w))).
  assert (Htail : forall (th : bool) w2, granted w2 -> files w2 = files w -> answers w2 = answers w ->
    (if th then files w !! target = Some B else B = []) ->
    wp (let* ok := create_file temp in
        if negb ok then cleanup SAR_RECOVER_DECLINED_TARGET_IO
        else
          let* _ := overlay_loop (rounds (Z.of_nat (length (pwrite B (Z.to_nat off) region)))) target temp th
                      (Z.of_nat (length B)) (Z.of_nat (length (pwrite B (Z.to_nat off) region))) region off rlen 0 in
          let* ok := request in
          if negb ok then cleanup SAR_RECOVER_DECLINED_TARGET_IO else pret rlen) w2
      (fun _ w' => granted w' /\ files w' !! temp = Some (pwrite B (Z.to_nat off) region) /\
         RecoveryFrame.frame temp w w') (fun _ _ => False)).
  { intros th w2 Hg2 Hf2 Ha2 Hth. wp_step. apply gwp_create; [done|]. cbn [negb]. wp_step.
    eapply wp_mono; [apply (overlay_loop_spec target temp B region off rlen Hne Ho ltac:(lia) Hreg Hs HBl _ th w)| |done].
    - rewrite <- (Z.sub_0_r (Z.of_nat (length (pwrite B (Z.to_nat off) region)))) at 1.
      apply lasts_rounds; [lia|]. rewrite length_pwrite. lia.
    - split; [done|]. destruct th; [|done]. cbn [files set_files next_call]. by rewrite lookup_insert_ne, Hf2.
    - cbn [files set_files next_call]. by rewrite lookup_insert_eq.
    - split; [|done]. intros q Hq. cbn [files set_files next_call]. by rewrite lookup_insert_ne, Hf2.
    - intros ? w3 (G1&G2&G3). wp_step. apply gwp_request; [done|]. cbn [negb]. by wp_step. }
  assert (Hfs : (if Z.of_nat (length B) <? off + rlen then off + rlen else Z.of_nat (length B)) =
    Z.of_nat (length (pwrite B (Z.to_nat off) region))).
  { rewrite length_pwrite. destruct (Z.ltb_spec (Z.of_nat (length B)) (off + rlen)); lia. }
  wp_step. destruct HB as [HB|[HB ->]].
  - apply (gwp_open target _ B); [done|done|]. wp_step. apply (gwp_query target _ B); [done|done|].
    change (default 0 (Some ?n)) with n. rewrite Hfs. by apply Htail.
  - apply wp_open; [cbn [files next_call w1]; rewrite HB; by intros []|]. wp_step. wp_step. change (default 0 None) with (Z.of_nat (length ([] : bytes))).
    rewrite Hfs. by apply Htail.
Qed.

Lemma preserve_execute_declined renv nenv p (f : F) path off rlen target temp st region w :
  SarRecBuildPaths path = Some (target, temp) -> granted w -> 0 <= off -> 0 < rlen < 2 ^ 32 -> off + rlen < 2 ^ 63 ->
  SarPreserveRestore renv p f (lookup_path nenv path target) off rlen rlen = (st, region) ->
  NT_SUCCESS st && (Z.of_nat (length region) =? rlen) = false ->
  wp (SarPreserveRecoveryExecute renv nenv (Some (p, f)) path off rlen) w (fun _ _ => False)
    (fun st w' => st = SAR_RECOVER_DECLINED_MISMATCH /\ files w' = files w).
Proof.
  intros Hb Hg Ho Hr Hs Hres Hst. unfold SarPreserveRecoveryExecute.
  rewrite (u64_small (off + rlen)), (u32_small rlen) by (unfold is_u; lia).
  replace ((rlen =? 0) || (off + rlen <? off)) with false
    by (symmetry; apply orb_false_iff; split; [apply Z.eqb_neq; lia|apply Z.ltb_ge; lia]).
  wp_step. apply gwp_request; [done|]. cbn [negb]. rewrite Hb.
  wp_step. apply gwp_request; [done|]. wp_step. apply gwp_request; [done|]. cbn [andb negb].
  fold (lookup_path nenv path target). rewrite Hres, <- negb_andb, Hst. cbn [negb]. by wp_step.
Qed.

(** A request that the driver declines. *)
Lemma run_declined exec tp st w : granted w -> st <> SAR_RECOVER_OK ->
  wp (exec (request_path tp)) (next_call w) (fun _ _ => False) (fun st' w' => st' = st /\ files w' = files w) ->
  exists w', recovery_run exec tp w = Ret (inr (st, 0), w') /\ files w' = files w.
Proof.
  intros Hg Hst ([x|n]&w1&He&Hw); [destruct Hw as [-> Hw]|done].
  assert (Hwp : wp (recovery_run exec tp) w (fun r w' => r = (st, 0) /\ files w' = files w) (fun _ _ => False)).
  { unfold recovery_run. wp_step. apply gwp_request; [done|]. cbn [negb].
    wp_step. exists (inr (st, 0)), w1. split; [unfold reply; by rewrite He|]. cbv beta iota.
    rewrite bool_decide_eq_false_2 by done. cbn [negb]. by wp_step. }
  destruct Hwp as ([[]|r]&w'&Hr&->&Hw'). by exists w'.
Qed.

(** The bytes an entry gives for a region it covers. *)
Lemma a_restore_length p (f : F) l path o n e b :
  store_inv p f l -> a_restore l path o n = Some e -> e_content e = Bytes b -> 0 <= o -> 0 < n -> o + n < 2 ^ 64 ->
  Z.of_nat (length (slice b (o - e_off e) n)) = n.
Proof.
  intros [Hrep _ _ _ _ _] Ha Hb Ho Hn Hs. unfold a_restore in Ha.
  pose proof (list_find_rep (store_key p) f path o n _ _ Hrep) as Hf.
  destruct (list_find _ (records p)) as [[i r]|], (list_find _ l) as [[j e']|]; try done.
  injection Ha as ->. destruct Hf as [[_ _ _ _ _ _ _ [R1 [R2 R3]] _] Hm]. unfold e_match in Hm.
  rewrite !u64_small in Hm by (unfold is_u; lia). rewrite !andb_true_iff, !Z.leb_le in Hm.
  assert (He : e_len e = Z.of_nat (length b)) by (unfold e_len; by rewrite Hb). rewrite He in *.
  unfold slice. rewrite length_take, length_drop. lia.
Qed.

(** What a recovery owes to a region that the store gives back ([Some]) or not. *)
Definition restores (r : cres ((Empty_set + sar_recover_status_t * Z) * world)) (w : world) (target temp : file_name)
    (B : bytes) (off : Z) (region : option bytes) : Prop :=
  match region with
  | Some region => exists n w', r = Ret (inr (SAR_RECOVER_OK, n), w') /\
      files w' = <[target := pwrite B (Z.to_nat off) region]> (delete temp (files w))
  | None => exists w', r = Ret (inr (SAR_RECOVER_DECLINED_MISMATCH, 0), w') /\ files w' = files w
  end.

(** The region an entry gives: a part of its bytes, or what reading the
    quarantined file gives if it is all that was asked for. *)
Definition entry_region (renv : restore_env) (path : list Z) (off rlen : Z) (e : entry) : option bytes :=
  match e_content e with
  | Bytes b => Some (slice b (off - e_off e) rlen)
  | Link id _ =>
    let '(st, region) := SarPresReadLink renv path id off (u32 rlen) in
    if NT_SUCCESS st && (Z.of_nat (length region) =? rlen) then Some region else None
  end.

Lemma run_restores renv nenv p (f : F) tp target temp B off rlen w st region :
  granted w -> SarRecBuildPaths (request_path tp) = Some (target, temp) ->
  files w !! target = Some B \/ (files w !! target = None /\ B = []) -> Z.of_nat (length B) < 2 ^ 63 ->
  0 <= off -> 0 < rlen < 2 ^ 32 -> off + rlen < 2 ^ 63 ->
  SarPreserveRestore renv p f (lookup_path nenv (request_path tp) target) off rlen rlen = (st, region) ->
  restores (sar_preserve_recovery_run renv nenv (Some (p, f)) tp off rlen w) w target temp B off
    (if NT_SUCCESS st && (Z.of_nat (length region) =? rlen) then Some region else None).
Proof.
  intros Hg Hb HB HBl Ho Hr Hsum Hres. destruct (NT_SUCCESS st && _) eqn:Hok; cbn [restores].
  - apply andb_true_iff in Hok as [Hst Hlen%Z.eqb_eq]. apply (run_granted _ tp target temp); [done|done|].
    by apply (preserve_execute_spec _ _ _ _ _ _ _ target temp B st).
  - apply run_declined; [done|done|].
    eapply wp_mono; [by apply (preserve_execute_declined _ _ _ _ _ _ _ target temp st region)|done|done].
Qed.

(** Property C6: recovery from the preservation store restores what was staged.
    Take any sequence of labelled operations and restarts on an empty store, with
    the assumptions on staging calls of [stage_ok].  The same labels build a list of
    entries (as in [preserve_store_refines]: each holds exactly the bytes of the staging call
    that added it) such that a recovery request for 0 < rlen < 2^32 bytes at [off], for
    which the system grants every call of the recovery and of the restoration,
    behaves as follows.  If the first entry that covers the region holds bytes,
    the run reports success, and the target is replaced by itself with those
    bytes written over the region: it is created if it is gone, and extended if
    it is too short.  If the entry is a link, the same happens with what the
    quarantined file gives, provided that all of it can be read; otherwise, and if no
    entry covers the region, the run is declined with MISMATCH and no file changes.
    If the target exists but its open is refused, the code takes it for empty
    (preserve_recovery_unreadable_target), which this theorem excludes. *)
Theorem preserve_recovery_restores ops p0 (f0 : F) p f :
  empty_store p0 -> runs cstep ops (p0, f0) (p, f) ->
  exists l, runs astep ops [] l /\
    forall renv nenv tp target temp B off rlen w,
      grants renv -> granted w -> SarRecBuildPaths (request_path tp) = Some (target, temp) ->
      files w !! target = Some B \/ (files w !! target = None /\ B = []) -> Z.of_nat (length B) < 2 ^ 63 ->
      0 <= off -> 0 < rlen < 2 ^ 32 -> off + rlen < 2 ^ 63 ->
      let path := lookup_path nenv (request_path tp) target in
      restores (sar_preserve_recovery_run renv nenv (Some (p, f)) tp off rlen w) w target temp B off
        (e ← a_restore l path off rlen; entry_region renv path off rlen e).
Proof using DFL ACL.
  intros He Hs. destruct (csteps_sim ops (p0, f0) (p, f) []) as (l&Hl&Hi); [by apply empty_store_inv|done|].
  exists l. split; [done|]. intros renv nenv tp target temp B off rlen w Hgr Hg Hb HB HBl Ho Hr Hsum path.
  pose proof (restore_refines renv p f l path off rlen rlen Hi Hgr ltac:(lia) Ho ltac:(lia)) as Hres.
  destruct (a_restore l path off rlen) as [e|] eqn:Ha; cbn [mbind option_bind].
  - unfold entry_region. destruct (e_content e) as [b|id size] eqn:Hee.
    + pose proof (run_restores renv nenv p f tp target temp B off rlen w _ _ Hg Hb HB HBl Ho Hr Hsum Hres) as H.
      by rewrite (a_restore_length p f l path off rlen e b Hi Ha Hee Ho ltac:(lia) ltac:(lia)), Z.eqb_refl in H.
    + destruct (SarPresReadLink _ _ _ _ _) as [st region]. by apply (run_restores _ _ _ _ _ _ _ _ _ _ _ st region).
  - by apply (run_restores _ _ _ _ _ _ _ _ _ _ _ STATUS_NOT_FOUND []).
Qed.

End Run.

End RecoveryPreserve.
