(* ===== verification/RecoveryRuns.v ===== *)
(** * Runs of the recovery

    A concrete run that restores a file, and runs in which a reported success
    has lost data: bytes after the last captured range, an incomplete last
    block, a target that could not be opened, and a replacement that the system
    abandoned halfway. *)

From stdpp Require Import gmap.
From S2P Require Import Prelude Mem Format Sha256 Chain Keystore CipherCommon Sm4 Modes Recover RecoverCorrect.
From S2P Require Import RecoverProps RecoverFile KeystorePersist DriverState Preserve DriverPreserve PreserveStore.
From S2P Require Import PreserveRefine PreserveStage Calls DriverRecovery RecoveryFrame RecoveryRestore RecoveryPreserve.

Import Mem Layout Modes Recover DriverRecovery RecoveryFrame RecoveryRestore RecoveryPreserve.
Import PreserveStore.
Import RecoverFile (sm4_verdict, sm4_verdict_wf, demo_rk_ok, demo_rk_encrypts).

Module RecoveryRuns.

Open Scope Z_scope.

(** L"C:\\a" *)
Definition demo_name : list Z := [67; 58; 92; 97].
Definition demo_target : file_name := SAR_REC_NT_PREFIX ++ demo_name.
Definition demo_temp : file_name := demo_target ++ SAR_REC_TMP_SUFFIX.

Lemma demo_paths : SarRecBuildPaths (request_path demo_name) = Some (demo_target, demo_temp).
Proof. by vm_compute. Qed.

Definition demo_world (c : bytes) (ans : nat -> answer) : world :=
  {| files := <[demo_target := c]> ∅; answers := ans; calls := 0 |}.

(** The record of a write of [len] bytes at the start of the file. *)
Definition demo_record (len : Z) : KsRec.semantics_ar_keystore_record_t :=
  Keystore.sar_keystore_record_init (replicate 32 1) sm4_verdict None 0 len (Some demo_file2) 32 0 5 6.

Definition demo_id : bytes := KsRec.key_id (demo_record 32).

Definition demo_keystore (len : Z) : KeystorePersist.SAR_KEYSTORE :=
  KeystorePersist.set_ready true
    (KeystorePersist.set_table [demo_record len] 1 KeystorePersist.zero_anchor KeystorePersist.demo_store).

Lemma demo_record_readable len : is_u64 len -> readable (demo_record len).
Proof.
  intros H. split; [|by left|by left]. apply Keystore.record_init_wf.
  by constructor; try apply sm4_verdict_wf.
Qed.

Lemma demo_key_of len : sar_recovery_key_from_record (demo_record len) = sar_recovery_key_from_verdict sm4_verdict.
Proof. apply key_from_record_init, sm4_verdict_wf. Qed.

Lemma demo_aligned rk n : (16 | n) -> n <= 32 -> aligned rk (Block (Sm4.sm4_cipher (key rk))) 32 0 n.
Proof. intros H1 H2. split; [lia|by left|by exists 0|lia|by left]. Qed.

(** The record of the write that encrypted the whole file. *)
Lemma demo_captured : captured demo_file2 demo_cipher2 (demo_record 32).
Proof.
  split.
  - by apply demo_record_readable.
  - by vm_compute.
  - rewrite demo_key_of. apply demo_rk_ok.
  - by rewrite demo_key_of.
  - rewrite demo_key_of. exists (Block (Sm4.sm4_cipher (key (sar_recovery_key_from_verdict sm4_verdict)))), 32%nat.
    split_and!.
    + done.
    + by vm_compute.
    + replace (blk demo_file2 0 32) with demo_file2 by by vm_compute.
      replace (blk demo_cipher2 0 32) with demo_cipher2 by by vm_compute. apply demo_rk_encrypts.
    + by apply demo_aligned; [exists 2; vm_compute|vm_compute].
    + by apply demo_aligned; [exists 2; vm_compute|vm_compute].
  - by vm_compute.
  - by vm_compute.
Qed.

Lemma demo_small c ans : Z.of_nat (length c) < 2 ^ 63 -> target_small (request_path demo_name) (demo_world c ans).
Proof.
  intros Hc target temp b. rewrite demo_paths. intros [= <- <-]. cbn [files demo_world].
  rewrite lookup_insert_eq. by intros [= <-].
Qed.

Definition all_granted : nat -> answer := fun _ => Granted.

Lemma demo_range : range_len (demo_record 32) (Z.of_nat (length demo_cipher2)) = 32.
Proof. by vm_compute. Qed.

Lemma demo_covered i : (i < 32)%nat -> covered demo_cipher2 demo_id [demo_record 32] i.
Proof.
  intros Hi. unfold demo_id; apply Exists_cons_hd. split; [reflexivity|]. rewrite demo_range.
  change (KsRec.provenance_offset (demo_record 32)) with 0. lia.
Qed.

Lemma demo_outside i : ~ covered demo_cipher2 demo_id [demo_record 32] i -> demo_cipher2 !! i = demo_file2 !! i.
Proof.
  intros Hi. assert (Hge : (32 <= i)%nat) by (destruct (decide (i < 32)%nat); [destruct Hi; by apply demo_covered|lia]).
  assert (H1 : length demo_cipher2 = 32%nat) by (vm_compute; reflexivity).
  assert (H2 : length demo_file2 = 32%nat) by (vm_compute; reflexivity).
  rewrite !lookup_ge_None_2; [reflexivity|lia|lia].
Qed.

Lemma demo_below : below demo_cipher2 demo_id [demo_record 32] (length demo_cipher2 - 1).
Proof.
  unfold demo_id; apply Exists_cons_hd. split; [reflexivity|]. rewrite demo_range.
  change (KsRec.provenance_offset (demo_record 32)) with 0.
  assert (H1 : length demo_cipher2 = 32%nat) by (vm_compute; reflexivity). lia.
Qed.

(** The file of two encrypted blocks comes back. *)
Lemma driver_recovery_restores_witness :
  exists n w', sar_recovery_run (Some (demo_keystore 32)) demo_id demo_name (demo_world demo_cipher2 all_granted)
      = Ret (inr (SAR_RECOVER_OK, n), w') /\ files w' !! demo_target = Some demo_file2.
Proof.
  destruct (driver_recovery_restores (demo_keystore 32) demo_id demo_name demo_target demo_temp demo_file2
    demo_cipher2 (demo_world demo_cipher2 all_granted)) as (n&w'&X&Hr&Hw&_&HX).
  - by apply forall_u_check; vm_compute.
  - by apply forall_u_check; vm_compute.
  - by vm_compute.
  - by vm_compute.
  - apply demo_paths.
  - done.
  - apply lookup_insert_eq.
  - done.
  - apply Forall_singleton. intros _. apply demo_captured.
  - by vm_compute.
  - exists n, w'. split; [exact Hr|]. rewrite Hw, lookup_insert_eq. f_equal. apply HX.
    + exact demo_outside.
    + exact demo_below.
Defined.


Definition no_names : resolve_env := {| opened := false; object_name := None; link_target := None |}.

(** Twenty bytes of the file are staged, and six of them recovered. *)
Definition preserve_run (p : DriverPreserve.SAR_PRESERVE) (f : write_log) (ans : nat -> answer)
    : cres ((Empty_set + sar_recover_status_t * Z) * world) :=
  sar_preserve_recovery_run restore_granted no_names (Some (p, f)) demo_name 4 6 (demo_world (replicate 20 9) ans).

Definition staged : cres (DriverPreserve.SAR_STAGE_RESULT * DriverPreserve.SAR_PRESERVE * write_log) :=
  DriverPreserve.SarPreserveStage (fun _ => demo_env true) (demo_store 4096) ([] : write_log) None 5
    (request_path demo_name) 0 20 9 demo_text false.

Definition staged_op : PreserveRefine.aop :=
  PreserveRefine.OStage true (PreserveStage.call_args None 5 (request_path demo_name) 0 9 demo_text false) 20 100
    DriverPreserve.SAR_STAGE_STORED.

Lemma staged_eq : staged = Ret (DriverPreserve.SAR_STAGE_STORED, store_of staged, file_of staged).
Proof.
  assert (Hv : match staged with Ret (r, _, _) => r = DriverPreserve.SAR_STAGE_STORED | _ => False end)
    by (vm_compute; reflexivity).
  destruct staged as [[[res p] f]| |]; [by rewrite Hv|done|done].
Qed.

Lemma staged_runs :
  PreserveRefine.runs cstep [staged_op] (demo_store 4096, [] : write_log) (store_of staged, file_of staged).
Proof.
  exists (store_of staged, file_of staged). split; [|exact eq_refl].
  exact (c_stage true (fun _ => demo_env true) (demo_store 4096) [] None 5 (request_path demo_name) 0 20 9 demo_text false
    DriverPreserve.SAR_STAGE_STORED (store_of staged) (file_of staged) (demo_stage_ok _ _) (fun _ _ => eq_refl)
    staged_eq).
Qed.

(** The abstract store has an entry for the request, and it is what the
    recovered file holds. *)
Lemma preserve_recovery_restores_witness :
  exists l region n w', PreserveRefine.runs PreserveRefine.astep [staged_op] [] l /\
    (e ← PreserveRefine.a_restore l (lookup_path no_names (request_path demo_name) demo_target) 4 6;
     entry_region restore_granted (lookup_path no_names (request_path demo_name) demo_target) 4 6 e) = Some region /\
    preserve_run (store_of staged) (file_of staged) all_granted = Ret (inr (SAR_RECOVER_OK, n), w') /\
    files w' !! demo_target = Some (pwrite (replicate 20 9) 4 region).
Proof.
  assert (Hv : match preserve_run (store_of staged) (file_of staged) all_granted with
               | Ret (inr (st, _), _) => st = SAR_RECOVER_OK | _ => False end) by (vm_compute; reflexivity).
  pose proof staged_runs as Hrun. revert Hv Hrun. generalize (store_of staged), (file_of staged). intros p f Hv Hrun.
  destruct (preserve_recovery_restores [staged_op] (demo_store 4096) ([] : write_log) p f (demo_empty _) Hrun)
    as (l&Hl&Hr).
  specialize (Hr restore_granted no_names demo_name demo_target demo_temp (replicate 20 9) 4 6
    (demo_world (replicate 20 9) all_granted) ltac:(done) ltac:(done) demo_paths (or_introl (lookup_insert_eq _ _ _))
    ltac:(by vm_compute) ltac:(lia) ltac:(lia) ltac:(lia)).
  cbv zeta in Hr. fold (preserve_run p f all_granted) in Hr.
  destruct (_ ≫= _) as [region|] eqn:Ha in Hr; cbn [restores] in Hr.
  - destruct Hr as (n&w'&Hr&Hw). exists l, region, n, w'. split; [exact Hl|]. split; [exact Ha|].
    split; [exact Hr|]. rewrite Hw. apply lookup_insert_eq.
  - destruct Hr as (w'&Hr&_). rewrite Hr in Hv. discriminate Hv.
Defined.

(** ** Reported successes that lose data *)

(** Three bytes that the attack left alone after the encrypted range. *)
Definition demo_tail : bytes := [201; 202; 203].

(** The target after a run that reported success. *)
Definition target_after (r : cres ((Empty_set + sar_recover_status_t * Z) * world)) : option (option bytes) :=
  match r with
  | Ret (inr (SAR_RECOVER_OK, _), w) => Some (files w !! demo_target)
  | _ => None
  end.

(** Recovery drops what follows the last captured range.  A file
    whose first 32 bytes were encrypted and whose last three were left alone
    comes back without the three, and the status is OK. *)
Lemma recovery_drops_intact_tail :
  target_after (sar_recovery_run (Some (demo_keystore 32)) demo_id demo_name
    (demo_world (demo_cipher2 ++ demo_tail) all_granted)) = Some (Some demo_file2).
Proof. vm_compute. reflexivity. Qed.

(** Recovery writes zeros for an incomplete last block.  When the
    captured range ends with a block the cipher left as it was, the recovered
    file has zeros in its place, and the status is OK. *)
Lemma recovery_zeroes_last_block :
  target_after (sar_recovery_run (Some (demo_keystore 35)) demo_id demo_name
    (demo_world (demo_cipher2 ++ demo_tail) all_granted)) = Some (Some (demo_file2 ++ [0; 0; 0])).
Proof. vm_compute. reflexivity. Qed.

(** Only the call number [n] is refused, with the error [e]. *)
Definition all_but (n e : nat) : nat -> answer := fun i => if (i =? n)%nat then Refused e else Granted.

Definition staged_run (ans : nat -> answer) : cres ((Empty_set + sar_recover_status_t * Z) * world) :=
  match staged with
  | Ret (_, p, f) => preserve_run p f ans
  | OutOfBounds => OutOfBounds
  | NoFuel => NoFuel
  end.

(** A target that cannot be opened for reading is taken for an
    empty one.  Restoring six bytes in the middle of a file of twenty writes
    them over the file when it can be opened; when it cannot (a program
    has it open for writing, and shares it), the status is OK as well, and the rest of the
    file is lost. *)
Lemma preserve_recovery_unreadable_target :
  target_after (staged_run all_granted)
    = Some (Some (replicate 4 9 ++ [5; 6; 7; 8; 9; 10] ++ replicate 10 9)) /\
  target_after (staged_run (all_but 4 0)) = Some (Some ([0; 0; 0; 0] ++ [5; 6; 7; 8; 9; 10])).
Proof. vm_compute. split; reflexivity. Qed.

(** A replacement that the system abandoned halfway is reported as
    a success.  With ERROR_UNABLE_TO_MOVE_REPLACEMENT the target no longer
    exists, and the status is OK. *)
Lemma abandoned_replacement_is_ok :
  target_after (staged_run (all_but 13 1176)) = Some None.
Proof. vm_compute. reflexivity. Qed.

(** A replacement that leaves the target under another name.  With
    ERROR_UNABLE_TO_MOVE_REPLACEMENT_2 and a refused rename the run is declined, the
    recovered content is deleted, and the file is no longer found under its own
    name. *)
Lemma declined_replacement_renames :
  match staged_run (fun i => if (i =? 13)%nat then Refused 1177 else if (i =? 14)%nat then Refused 5 else Granted) with
  | Ret (inr (st, _), w) => st <> SAR_RECOVER_OK /\ files w !! demo_target = None /\ files w !! demo_temp = None
  | _ => False
  end.
Proof. vm_compute. by split_and!. Qed.

End RecoveryRuns.
