(* ===== verification/Streams.v ===== *)
(** * Streams, names and seams (driver/seam.c, driver/capture.c, driver/operations.c)

    What the driver remembers of an open stream: its flags, a sample of what
    was read, and the ranges whose old content it has preserved.  Also the tests
    on file names that exempt system files and protect the driver's own store,
    and the classification of requests. *)

From stdpp Require Import sorting strings sets.
From S2P Require Import Prelude Mem Format Chain Protocol DriverState.
Import Mem Protocol Layout.

Module Streams.

(** ** The stream context *)

Definition SAR_CAPTURE_BUFFER_BYTES : Z := 256.

Definition SAR_STREAMCTX_FLAG_SECTION_DIRTY : Z := 0x001.
Definition SAR_STREAMCTX_FLAG_OWN_STORE : Z := 0x002.
Definition SAR_STREAMCTX_FLAG_PHANTOM_BACKING : Z := 0x004.
Definition SAR_STREAMCTX_FLAG_READ_OBSERVED : Z := 0x010.
Definition SAR_STREAMCTX_FLAG_TRACKED_FROM_OPEN : Z := 0x020.
Definition SAR_STREAMCTX_FLAG_OS_OWNED : Z := 0x040.
Definition SAR_STREAMCTX_FLAG_MMAP_RESERVE_TRIED : Z := 0x080.
Definition SAR_STREAMCTX_FLAG_OSOWN_CHECKED : Z := 0x100.

Record SAR_CAPTURED_RANGE := { start : Z; range_end : Z }.

Record SAR_EXTENT := { vcn_byte : Z; ext_len : Z; lcn_byte : Z }.

Record SAR_EXTENT_MAP := { sector_size : Z; covered_len : Z; ext : list SAR_EXTENT }.

Record SAR_STREAM_CONTEXT := {
  flags : Z;
  read_length : Z;
  read_offset : Z;
  cap_ranges : list SAR_CAPTURED_RANGE;
  cap_capacity : Z;
  mmap_map : option SAR_EXTENT_MAP;
  mmap_path : option (list Z);
  mmap_arm_pid : Z;
  mmap_arm_key : Z;
  mmap_reserved : Z;
  read_sample : bytes
}.

(** A new context, as [SarGetStreamContext] fills it. *)
Definition new_context : SAR_STREAM_CONTEXT :=
  {| flags := 0; read_length := 0; read_offset := 0; cap_ranges := []; cap_capacity := 0;
     mmap_map := None; mmap_path := None; mmap_arm_pid := 0; mmap_arm_key := 0; mmap_reserved := 0;
     read_sample := replicate (Z.to_nat SAR_CAPTURE_BUFFER_BYTES) 0 |}.

Definition set_flags (f : Z) (sc : SAR_STREAM_CONTEXT) : SAR_STREAM_CONTEXT :=
  {| flags := f; read_length := read_length sc; read_offset := read_offset sc;
     cap_ranges := cap_ranges sc; cap_capacity := cap_capacity sc; mmap_map := mmap_map sc;
     mmap_path := mmap_path sc; mmap_arm_pid := mmap_arm_pid sc; mmap_arm_key := mmap_arm_key sc;
     mmap_reserved := mmap_reserved sc; read_sample := read_sample sc |}.
Definition set_ranges (rs : list SAR_CAPTURED_RANGE) (cap : Z) (sc : SAR_STREAM_CONTEXT) : SAR_STREAM_CONTEXT :=
  {| flags := flags sc; read_length := read_length sc; read_offset := read_offset sc;
     cap_ranges := rs; cap_capacity := cap; mmap_map := mmap_map sc;
     mmap_path := mmap_path sc; mmap_arm_pid := mmap_arm_pid sc; mmap_arm_key := mmap_arm_key sc;
     mmap_reserved := mmap_reserved sc; read_sample := read_sample sc |}.
Definition set_read (n off : Z) (s : bytes) (sc : SAR_STREAM_CONTEXT) : SAR_STREAM_CONTEXT :=
  {| flags := flags sc; read_length := n; read_offset := off;
     cap_ranges := cap_ranges sc; cap_capacity := cap_capacity sc; mmap_map := mmap_map sc;
     mmap_path := mmap_path sc; mmap_arm_pid := mmap_arm_pid sc; mmap_arm_key := mmap_arm_key sc;
     mmap_reserved := mmap_reserved sc; read_sample := s |}.
Definition set_reserved (n : Z) (sc : SAR_STREAM_CONTEXT) : SAR_STREAM_CONTEXT :=
  {| flags := flags sc; read_length := read_length sc; read_offset := read_offset sc;
     cap_ranges := cap_ranges sc; cap_capacity := cap_capacity sc; mmap_map := mmap_map sc;
     mmap_path := mmap_path sc; mmap_arm_pid := mmap_arm_pid sc; mmap_arm_key := mmap_arm_key sc;
     mmap_reserved := n; read_sample := read_sample sc |}.
Definition set_mmap (m : option SAR_EXTENT_MAP) (p : option (list Z)) (pid key : Z) (sc : SAR_STREAM_CONTEXT)
    : SAR_STREAM_CONTEXT :=
  {| flags := flags sc; read_length := read_length sc; read_offset := read_offset sc;
     cap_ranges := cap_ranges sc; cap_capacity := cap_capacity sc; mmap_map := m;
     mmap_path := p; mmap_arm_pid := pid; mmap_arm_key := key;
     mmap_reserved := mmap_reserved sc; read_sample := read_sample sc |}.

(** [InterlockedOr(&sc->flags, f)] and [sc->flags & f]. *)
Definition or_flags (f : Z) (sc : SAR_STREAM_CONTEXT) : SAR_STREAM_CONTEXT := set_flags (flags sc .| f) sc.
Definition has_flag (sc : SAR_STREAM_CONTEXT) (f : Z) : bool := negb (flags sc .& f =? 0).

(** [SarStreamConfidentBlind] of a stream that has a context. *)
Definition confident_blind (sc : SAR_STREAM_CONTEXT) : bool :=
  has_flag sc SAR_STREAMCTX_FLAG_TRACKED_FROM_OPEN &&
  negb (has_flag sc SAR_STREAMCTX_FLAG_READ_OBSERVED) &&
  negb (has_flag sc SAR_STREAMCTX_FLAG_SECTION_DIRTY).

(** ** Captured ranges *)

(** The two loops that find the place of the range and make room for it. *)
Fixpoint insert_range (r : SAR_CAPTURED_RANGE) (l : list SAR_CAPTURED_RANGE) : list SAR_CAPTURED_RANGE :=
  match l with
  | [] => [r]
  | q :: l' => if start q <? start r then q :: insert_range r l' else r :: l
  end.

(** One round of the merging loop; [out] is [arr[w - 1], ..., arr[0]]. *)
Definition merge_step (out : list SAR_CAPTURED_RANGE) (r : SAR_CAPTURED_RANGE) : list SAR_CAPTURED_RANGE :=
  match out with
  | q :: out' =>
    if start r <=? range_end q
    then if range_end q <? range_end r then {| start := start q; range_end := range_end r |} :: out' else out
    else r :: out
  | [] => [r]
  end.

Definition merge_ranges (l : list SAR_CAPTURED_RANGE) : list SAR_CAPTURED_RANGE :=
  rev (fold_left merge_step l []).

(** The result and the context; [alloc] is whether a larger array is granted. *)
Definition SarCapRangeInsert (alloc : bool) (Start End : Z) (Sc : SAR_STREAM_CONTEXT)
    : bool * SAR_STREAM_CONTEXT :=
  let rs := merge_ranges (insert_range {| start := Start; range_end := End |} (cap_ranges Sc)) in
  if cap_capacity Sc <? Z.of_nat (length (cap_ranges Sc)) + 1 then
    if alloc
    then (true, set_ranges rs (if negb (cap_capacity Sc =? 0) then u32 (cap_capacity Sc * 2) else 8) Sc)
    else (false, Sc)
  else (true, set_ranges rs (cap_capacity Sc) Sc).

Definition SarMmapRangeCovered (Sc : SAR_STREAM_CONTEXT) (Offset Length : Z) : bool :=
  existsb (fun r => (start r <=? Offset) && (u64 (Offset + Length) <=? range_end r)) (cap_ranges Sc).

(** ** Names *)

(** ASCII letters in lower and in upper case. *)
Definition lower (c : Z) : Z := if (65 <=? c) && (c <=? 90) then c + 32 else c.
Definition upper (c : Z) : Z := if (97 <=? c) && (c <=? 122) then c - 32 else c.

Fixpoint SarWideCaselessPrefix (Str P : list Z) : bool :=
  match P, Str with
  | [], _ => true
  | _, [] => false
  | p :: P, s :: Str => (lower s =? lower p) && SarWideCaselessPrefix Str P
  end.

(** The prefix is followed by the end of the name or by a backslash. *)
Fixpoint SarWideCaselessComponent (Str P : list Z) : bool :=
  match P, Str with
  | [], [] => true
  | [], s :: _ => s =? 92
  | _, [] => false
  | p :: P, s :: Str => (lower s =? lower p) && SarWideCaselessComponent Str P
  end.

Fixpoint SarWidePrefixI (Str Prefix : list Z) : bool :=
  match Prefix, Str with
  | [], _ => true
  | _, [] => false
  | p :: Prefix, a :: Str => negb (a =? 0) && (upper a =? upper p) && SarWidePrefixI Str Prefix
  end.

(** The ASCII characters of a string. *)
Definition wide (s : string) : list Z := (fun c => Z.of_nat (Ascii.nat_of_ascii c)) <$> String.list_ascii_of_string s.

Section Names.
(** The case folding of [RtlPrefixUnicodeString]. *)
Context (upcase : Z -> Z).

Definition RtlPrefixUnicodeString (prefix s : list Z) : bool :=
  bool_decide (take (length prefix) (upcase <$> s) = upcase <$> prefix).

(** [g_sar_sysroot], if it is valid: the name of the directory that
    L"\\SystemRoot" opened, at most 280 characters. *)
Definition SarOsAnchorInit (opened : bool) (name : option (list Z)) : option (list Z) :=
  match name with
  | Some n => if opened && (0 <? length n)%nat && (length n <=? 280)%nat then Some n else None
  | None => None
  end.

Definition exempt_subs : list (list Z) :=
  [wide "\system32\config\"; wide "\system32\wbem\repository\"; wide "\system32\winevt\logs\";
   wide "\system32\logfiles\"; wide "\system32\catroot2\"; wide "\serviceprofiles\";
   wide "\softwaredistribution\datastore\"; wide "\inf\"].

Definition SarTargetExempt (sysroot : option (list Z)) (Normalized : list Z) : bool :=
  match sysroot with
  | None => false
  | Some root =>
    if negb (RtlPrefixUnicodeString root Normalized) then false
    else if (length Normalized <=? length root)%nat then false
    else
      let rem := drop (length root) Normalized in
      if negb (rd rem 0 =? 92) then false
      else existsb (SarWideCaselessPrefix rem) exempt_subs
  end.

Definition SarPathUnderSystemRoot (sysroot : option (list Z)) (Normalized : list Z) : bool :=
  match sysroot with
  | None => false
  | Some root =>
    RtlPrefixUnicodeString root Normalized &&
    ((length Normalized =? length root)%nat || (rd Normalized (length root) =? 92))
  end.

(** The name from its third backslash on. *)
Fixpoint third_slash (n : nat) (s : list Z) : option (list Z) :=
  match s with
  | [] => None
  | c :: s' =>
    if c =? 92 then match n with O => Some s | S n => third_slash n s' end
    else third_slash n s'
  end.

(** [vp] is the index of the third backslash; the code takes index 0 for none,
    but the third backslash is never the first character. *)
Definition SarNameIsOwnStore (sysroot : option (list Z)) (Name : list Z) : bool :=
  match sysroot with
  | Some root =>
    (length root <? length Name)%nat && RtlPrefixUnicodeString root Name &&
    SarWideCaselessComponent (drop (length root) Name) (wide "\System32\drivers\SemanticsAr")
  | None => false
  end ||
  match third_slash 2 Name with
  | Some s => SarWideCaselessComponent s (wide "\SemanticsArQuarantine")
  | None => false
  end.

(** [Path] holds 260 characters; the marker L"SemanticsAr" anywhere in it. *)
Fixpoint SarCaptureProvenanceIsOwn (Path : list Z) : bool :=
  match Path with
  | [] => false
  | c :: Path' =>
    if c =? 0 then false
    else bool_decide (take 11 Path = wide "SemanticsAr") || SarCaptureProvenanceIsOwn Path'
  end.

(** The characters of a path buffer before its terminator. *)
Fixpoint path_chars (Path : list Z) : list Z :=
  match Path with
  | [] => []
  | c :: Path => if c =? 0 then [] else c :: path_chars Path
  end.

Definition SarCapturePathExempt (sysroot : option (list Z)) (Path : list Z) : bool :=
  (rd Path 0 =? 0) || SarCaptureProvenanceIsOwn Path || SarTargetExempt sysroot (path_chars Path).

Definition SarMmapPathExcluded (Path : option (list Z)) : bool :=
  match Path with
  | None => false
  | Some p =>
    match third_slash 2 (path_chars p) with
    | Some s => SarWidePrefixI (drop 1 s) (wide "Windows\") ||
                SarWidePrefixI (drop 1 s) (wide "ProgramData\Microsoft\")
    | None => false
    end
  end.

End Names.

(** A name in a path buffer of 260 characters, cut to 259; zeros if there is
    no name. *)
Definition SarCaptureResolveProvenance (name : option (list Z)) : list Z :=
  let zero := replicate SEMANTICS_AR_PROVENANCE_PATH_MAX 0 in
  match name with
  | Some n => mem_write zero 0 (take (SEMANTICS_AR_PROVENANCE_PATH_MAX - 1) n)
  | None => zero
  end.

(** ** The captured ranges are a set of offsets *)

(** [x] lies in one of the ranges. *)
Definition in_ranges (rs : list SAR_CAPTURED_RANGE) (x : Z) : Prop :=
  Exists (fun r => start r <= x < range_end r) rs.

(** No range is empty, and there is a gap between a range and the next. *)
Definition ranges_ok (rs : list SAR_CAPTURED_RANGE) : Prop :=
  Forall (fun r => start r < range_end r) rs /\
  StronglySorted (fun a b => range_end a < start b) rs.

(** The array before the merging loop: ordered by the start. *)
Definition by_start (rs : list SAR_CAPTURED_RANGE) : Prop :=
  Forall (fun r => start r < range_end r) rs /\ StronglySorted (fun a b => start a <= start b) rs.

Lemma insert_range_elem r l q : q ∈ insert_range r l <-> q = r \/ q ∈ l.
Proof.
  induction l as [|a l IH]; simpl; [by rewrite list_elem_of_singleton, elem_of_nil; tauto|].
  case_match; rewrite !elem_of_cons, ?IH; tauto.
Qed.

Lemma separated_sorted l : ranges_ok l -> StronglySorted (fun a b => start a <= start b) l.
Proof.
  intros [Hne Hs]. induction Hs as [|a l Hs IH Ha]; constructor; apply Forall_cons in Hne as [Hn Hne].
  - by apply IH.
  - eapply Forall_impl; [exact Ha|]. simpl. lia.
Qed.

Lemma insert_range_sorted r l : start r < range_end r -> ranges_ok l -> by_start (insert_range r l).
Proof.
  intros Hr [Hne Hs]. split.
  { apply Forall_forall. intros q [->|Hq]%insert_range_elem; [done|]. by eapply Forall_forall in Hne. }
  induction Hs as [|a l Hs IH Ha]; simpl; [by repeat constructor|].
  apply Forall_cons in Hne as [Ha' Hne]. rewrite Forall_forall in Ha, Hne. case_match eqn:E; bsimp.
  - constructor; [apply IH; by apply Forall_forall|]. apply Forall_forall.
    intros q [->|Hq]%insert_range_elem; [lia|]. specialize (Ha q Hq). lia.
  - constructor; [constructor|].
    + apply separated_sorted. split; [by apply Forall_forall|done].
    + apply Forall_forall. intros q Hq. specialize (Ha q Hq). lia.
    + apply Forall_cons. split; [lia|]. apply Forall_forall. intros q Hq. specialize (Ha q Hq). lia.
Qed.

(** The merging loop from the last range written. *)
Definition widen (q r : SAR_CAPTURED_RANGE) : SAR_CAPTURED_RANGE :=
  if range_end q <? range_end r then {| start := start q; range_end := range_end r |} else q.

Fixpoint merge_from (q : SAR_CAPTURED_RANGE) (l : list SAR_CAPTURED_RANGE) : list SAR_CAPTURED_RANGE :=
  match l with
  | [] => [q]
  | r :: l => if start r <=? range_end q then merge_from (widen q r) l else q :: merge_from r l
  end.

Lemma merge_fold q out l : rev (fold_left merge_step l (q :: out)) = rev out ++ merge_from q l.
Proof.
  revert q out. induction l as [|r l IH]; intros q out; [done|]. cbn [fold_left merge_step merge_from].
  unfold widen. destruct (start r <=? range_end q).
  - destruct (range_end q <? range_end r); apply IH.
  - rewrite IH. simpl. by rewrite <- app_assoc.
Qed.

Lemma merge_from_spec q l :
  start q < range_end q -> by_start (q :: l) ->
  ranges_ok (merge_from q l) /\ Forall (fun r => start q <= start r) (merge_from q l) /\
  forall x, in_ranges (merge_from q l) x <-> start q <= x < range_end q \/ in_ranges l x.
Proof.
  revert q. induction l as [|r l IH]; intros q Hq [Hne Hs]; cbn [merge_from].
  - split_and!.
    + split; [by apply Forall_singleton|by repeat constructor].
    + by apply Forall_singleton.
    + intros x. unfold in_ranges. rewrite Exists_cons, !Exists_nil. tauto.
  - apply Forall_cons in Hne as [_ Hne]. apply Forall_cons in Hne as [Hr Hne].
    apply StronglySorted_inv in Hs as [Hs Hqs]. apply Forall_cons in Hqs as [Hqr Hql].
    apply StronglySorted_inv in Hs as [Hs Hrl]. destruct (Z.leb_spec (start r) (range_end q)) as [Hle|Hgt].
    + assert (Hw : start (widen q r) = start q /\ range_end (widen q r) = Z.max (range_end q) (range_end r)).
      { unfold widen. destruct (Z.ltb_spec (range_end q) (range_end r)); simpl; lia. }
      destruct Hw as [Hw1 Hw2]. destruct (IH (widen q r)) as (I1&I2&I3).
      * lia.
      * split; [by constructor; [lia|]|]. constructor; [done|]. by rewrite Hw1.
      * split_and!; [done|by rewrite Hw1 in I2|]. intros x. rewrite I3, Hw1, Hw2. unfold in_ranges.
        rewrite Exists_cons. split; [intros [H|H]|intros [H|[H|H]]]; [|tauto|left; lia|left; lia|tauto].
        destruct (Z_lt_le_dec x (range_end q)); [left; lia|right; left; lia].
    + destruct (IH r Hr) as (I1&I2&I3); [by split; constructor|]. destruct I1 as [J1 J2]. split_and!.
      * split; [by constructor|]. constructor; [done|]. eapply Forall_impl; [exact I2|]. simpl. lia.
      * constructor; [lia|]. eapply Forall_impl; [exact I2|]. simpl. lia.
      * intros x. unfold in_ranges in *. by rewrite !Exists_cons, I3.
Qed.

Lemma in_insert_range r l x :
  in_ranges (insert_range r l) x <-> start r <= x < range_end r \/ in_ranges l x.
Proof.
  unfold in_ranges. rewrite !Exists_exists. setoid_rewrite insert_range_elem. naive_solver.
Qed.

Lemma merge_ranges_spec l :
  by_start l -> ranges_ok (merge_ranges l) /\ forall x, in_ranges (merge_ranges l) x <-> in_ranges l x.
Proof.
  destruct l as [|q l]; intros Hl; [by split; [split; constructor|]|].
  unfold merge_ranges. cbn [fold_left merge_step]. rewrite merge_fold. cbn [rev app].
  pose proof Hl as [Hne _]. apply Forall_cons in Hne as [Hq _].
  destruct (merge_from_spec q l Hq Hl) as (H1&_&H3). split; [done|].
  intros x. rewrite H3. unfold in_ranges. by rewrite Exists_cons.
Qed.

Lemma length_merge_from q l : (length (merge_from q l) <= S (length l))%nat.
Proof.
  revert q. induction l as [|r l IH]; intros q; simpl; [done|]. case_match.
  - specialize (IH (widen q r)). lia.
  - specialize (IH r). simpl. lia.
Qed.

Lemma length_merge_ranges l : (length (merge_ranges l) <= length l)%nat.
Proof.
  destruct l as [|q l]; [done|]. unfold merge_ranges. cbn [fold_left merge_step].
  rewrite merge_fold. apply length_merge_from.
Qed.

Lemma length_insert_range r l : length (insert_range r l) = S (length l).
Proof. induction l; simpl; [done|]. case_match; simpl; auto. Qed.

(** The invariant of a context: the array holds its ranges, and they are
    separated. *)
Definition context_ok (sc : SAR_STREAM_CONTEXT) : Prop :=
  ranges_ok (cap_ranges sc) /\ 0 <= cap_capacity sc < 2 ^ 31 /\ Z.of_nat (length (cap_ranges sc)) <= cap_capacity sc.

(** Inserting a range keeps the array sorted and separated, stays within its
    capacity, and adds exactly the offsets of the range; if memory for a larger
    array is refused, nothing changes. *)
Lemma cap_range_insert_spec alloc s e sc :
  context_ok sc -> s < e ->
  let '(ok, sc') := SarCapRangeInsert alloc s e sc in
  ranges_ok (cap_ranges sc') /\ Z.of_nat (length (cap_ranges sc')) <= cap_capacity sc' /\
  (ok = true -> forall x, in_ranges (cap_ranges sc') x <-> s <= x < e \/ in_ranges (cap_ranges sc) x) /\
  (ok = false -> alloc = false /\ sc' = sc).
Proof.
  intros (Hok&Hc&Hl) Hse. unfold SarCapRangeInsert.
  set (r := {| start := s; range_end := e |}).
  destruct (merge_ranges_spec (insert_range r (cap_ranges sc))) as [H1 H2];
    [by apply insert_range_sorted|].
  pose proof (length_merge_ranges (insert_range r (cap_ranges sc))) as Hlen. rewrite length_insert_range in Hlen.
  assert (H3 : forall x, in_ranges (merge_ranges (insert_range r (cap_ranges sc))) x <->
                 s <= x < e \/ in_ranges (cap_ranges sc) x) by (intros x; by rewrite H2, in_insert_range).
  destruct (Z.ltb_spec (cap_capacity sc) (Z.of_nat (length (cap_ranges sc)) + 1)); [destruct alloc|].
  - cbn [set_ranges cap_ranges cap_capacity]. split_and!; try done.
    destruct (Z.eqb_spec (cap_capacity sc) 0); cbn [negb]; [lia|]. rewrite u32_small by (unfold is_u; lia). lia.
  - by split_and!.
  - cbn [set_ranges cap_ranges cap_capacity]. split_and!; try done. lia.
Qed.

End Streams.
