(* ===== verification/CaptureSeam.v ===== *)
(** * Preserving what an operation destroys (driver/capture.c)

    The functions the callbacks use to keep the old content: a region of a file
    that is about to be overwritten, and a whole file that is about to be
    deleted, renamed over or superseded.  The state is what they share: the
    preservation store, the stream contexts, the quarantine links and the table
    of blocked processes.  A page-in error while a mapped view is read is not
    modelled. *)

From stdpp Require Import gmap.
From S2P Require Import Prelude Mem Format Chain Keystore Protocol Whitelist Preserve EventLog DriverState.
From S2P Require Import DriverPreserve KeystorePersist Streams Calls DriverRecovery.
Import Mem Layout Protocol Preserve Whitelist Streams.
Import DriverState (NTSTATUS, NT_SUCCESS, STATUS_SUCCESS, SAR_STATE, eventlog, log_event,
  SarStateModeGet, SarStateIdentityLookup).
Import DriverPreserve (SAR_PRESERVE, stage_env, SAR_STAGE_RESULT, SAR_STAGE_STORED, SAR_STAGE_ALREADY_COVERED,
  SAR_STAGE_DROPPED, SAR_STAGE_FAILED, SarPreserveStage, SarPreserveStageLink, SarPreserveAllocLinkId,
  SarPreserveQuarantinePaths, SarPreserveRename, SarPreserveReady).
Import DriverRecovery (SAR_PRESERVE_STAGE_MAX, piece, rounds).

Module CaptureSeam.

Definition SAR_EVENT_CLASS_KEY_CAPTURED : Z := 1.
Definition SAR_EVENT_CLASS_BLOCK_FORWARD : Z := 2.
Definition SAR_EVENT_CLASS_BLOCK_PHANTOM : Z := 3.
Definition SAR_EVENT_CLASS_BLOCK_CAPACITY : Z := 4.
Definition SAR_BLOCKED_CAPACITY : Z := 256.
Definition SAR_MAP_GRANULARITY : Z := 0x10000.

(** The process of a request: [PEPROCESS], its id and its start key. *)
Record process := { eprocess : Z; process_id : Z; start_key : Z }.

(** [_SAR_CAPTURE_CTX]: the tables hold process objects. *)
Record SAR_CAPTURE_CTX := {
  blocked : list Z;
  inflight : Z;
  mmap_inflight : Z;
  whitelist_skips : Z;
  pressure_drops : Z;
  preload_drops : Z;
  scanned : list Z
}.

Definition set_blocked (b : list Z) (c : SAR_CAPTURE_CTX) : SAR_CAPTURE_CTX :=
  {| blocked := b; inflight := inflight c; mmap_inflight := mmap_inflight c;
     whitelist_skips := whitelist_skips c; pressure_drops := pressure_drops c;
     preload_drops := preload_drops c; scanned := scanned c |}.

(** [SAR_CAPTURE_WORK]: a work item.  Buffers are as long as what they hold. *)
Record SAR_CAPTURE_WORK := {
  originator_process : option process;
  file_offset : Z;
  write_length : Z;
  pre_image : bytes;
  written : bytes;
  provenance_path : list Z;
  provenance_offset : Z;
  actor_key : Z;
  preserve_buf : option bytes;
  preserve_only : bool;
  read_by_path : bool;
  mmap_backed : bool;
  mmap_admitted : bool;
  stream_ctx : option Z
}.

(** [SAR_SEAM_COVERAGE], by the number of the member. *)
Record SAR_SEAM_COVERAGE := { capture_seam_counts : list Z; metadata_seam_counts : list Z }.

(** What the functions share.  A quarantine link is a name that leads to a
    stream; the queue holds the work items that have not run. *)
Record driver (F : Type) := {
  state : SAR_STATE;
  log : eventlog;
  preserve : option (SAR_PRESERVE * F);
  keystore : option KeystorePersist.SAR_KEYSTORE;
  capture : option SAR_CAPTURE_CTX;
  streams : gmap Z SAR_STREAM_CONTEXT;
  links : gmap (list Z) Z;
  queue : list SAR_CAPTURE_WORK;
  seam : SAR_SEAM_COVERAGE;
  sysroot : option (list Z)
}.
Arguments state {F}. Arguments log {F}. Arguments preserve {F}. Arguments keystore {F}.
Arguments capture {F}. Arguments streams {F}. Arguments links {F}. Arguments queue {F}.
Arguments seam {F}. Arguments sysroot {F}.

Section Setters.
Context {F : Type}.
Implicit Types d : driver F.

Definition set_log (l : eventlog) d : driver F :=
  {| state := state d; log := l; preserve := preserve d; keystore := keystore d;
     capture := capture d; streams := streams d; links := links d; queue := queue d;
     seam := seam d; sysroot := sysroot d |}.
Definition set_preserve (p : SAR_PRESERVE) (f : F) d : driver F :=
  {| state := state d; log := log d; preserve := Some (p, f); keystore := keystore d;
     capture := capture d; streams := streams d; links := links d; queue := queue d;
     seam := seam d; sysroot := sysroot d |}.
Definition set_keystore (k : KeystorePersist.SAR_KEYSTORE) d : driver F :=
  {| state := state d; log := log d; preserve := preserve d; keystore := Some k;
     capture := capture d; streams := streams d; links := links d; queue := queue d;
     seam := seam d; sysroot := sysroot d |}.
Definition set_capture (c : SAR_CAPTURE_CTX) d : driver F :=
  {| state := state d; log := log d; preserve := preserve d; keystore := keystore d;
     capture := Some c; streams := streams d; links := links d; queue := queue d; seam := seam d;
     sysroot := sysroot d |}.
Definition set_streams (s : gmap Z SAR_STREAM_CONTEXT) d : driver F :=
  {| state := state d; log := log d; preserve := preserve d; keystore := keystore d;
     capture := capture d; streams := s; links := links d; queue := queue d; seam := seam d;
     sysroot := sysroot d |}.
Definition set_links (l : gmap (list Z) Z) d : driver F :=
  {| state := state d; log := log d; preserve := preserve d; keystore := keystore d;
     capture := capture d; streams := streams d; links := l; queue := queue d; seam := seam d;
     sysroot := sysroot d |}.
Definition set_queue (q : list SAR_CAPTURE_WORK) d : driver F :=
  {| state := state d; log := log d; preserve := preserve d; keystore := keystore d;
     capture := capture d; streams := streams d; links := links d; queue := q; seam := seam d;
     sysroot := sysroot d |}.
Definition set_seam (s : SAR_SEAM_COVERAGE) d : driver F :=
  {| state := state d; log := log d; preserve := preserve d; keystore := keystore d;
     capture := capture d; streams := streams d; links := links d; queue := queue d; seam := s;
     sysroot := sysroot d |}.
Definition set_stream (s : Z) (sc : SAR_STREAM_CONTEXT) d : driver F := set_streams (<[s := sc]> (streams d)) d.

(** [SarStreamConfidentBlind] and [SarCaptureStreamConfidentBlind]. *)
Definition SarStreamConfidentBlind (s : Z) d : bool :=
  match streams d !! s with Some sc => confident_blind sc | None => false end.

Definition identity_exempt (pr : process) d : bool :=
  bool_decide (SarStateIdentityLookup (state d) (process_id pr) = SAR_IDSTATE_EXEMPT).

(** [g_sar.preserve != NULL && SarPreserveReady(g_sar.preserve)], with [Ctx]. *)
Definition store_of d : option (SAR_PRESERVE * F) :=
  match capture d, preserve d with
  | Some _, Some (p, f) => if DriverPreserve.ready p then Some (p, f) else None
  | _, _ => None
  end.

(** ** Blocked processes *)

Definition SarCaptureBlockOriginator (now : Z) (c : SAR_CAPTURE_CTX) (Originator : process) (EventClass : Z)
    (l : eventlog) : SAR_CAPTURE_CTX * eventlog :=
  let present := existsb (Z.eqb (eprocess Originator)) (blocked c) in
  let c := if negb present && (Z.of_nat (length (blocked c)) <? SAR_BLOCKED_CAPACITY)
           then set_blocked (blocked c ++ [eprocess Originator]) c else c in
  (c, log_event l now EventClass (start_key Originator)).

Definition SarCaptureNoteCapacityRefusal (now : Z) (Originator : process) d : driver F :=
  set_log (log_event (log d) now SAR_EVENT_CLASS_BLOCK_CAPACITY (start_key Originator)) d.

Definition SarCaptureOriginatorBlocked (Originator : process) d : bool :=
  match capture d with
  | Some c => existsb (Z.eqb (eprocess Originator)) (blocked c)
  | None => false
  end.

End Setters.

Section Seam.
Context {F : Type} `{DataFile F, AesCbc}.
Context (upcase : Z -> Z).
Implicit Types d : driver F.

(** The answers to one call of [SarPreserveStage], and the time of the call. *)
Record stage_call := { call_env : nat -> stage_env; call_now : Z }.

(** [if (r == SAR_STAGE_FAILED || r == SAR_STAGE_DROPPED) worst = r] *)
Definition worse (worst r : SAR_STAGE_RESULT) : SAR_STAGE_RESULT :=
  match r with SAR_STAGE_FAILED | SAR_STAGE_DROPPED => r | _ => worst end.

(** ** A region *)

(** Staging [off, SpanEnd) in pieces; the view starts at [AlignedStart].  Calls
    of [SarPreserveStage] are numbered, and the next number is returned. *)
Fixpoint span_loop (fuel : nat) (calls : nat -> stage_call) (k : nat) (st : SAR_STATE) (p : SAR_PRESERVE) (f : F)
    (Path : list Z) (Actor : Z) (view : bytes) (AlignedStart off SpanEnd : Z) (worst : SAR_STAGE_RESULT)
    : cres (SAR_STAGE_RESULT * nat * SAR_PRESERVE * F) :=
  match fuel with
  | O => NoFuel
  | S fuel =>
    if off <? SpanEnd then
      let chunk := piece off SpanEnd in
      let data := take (Z.to_nat chunk) (drop (Z.to_nat (off - AlignedStart)) view) in
      let! (r, p, f) := SarPreserveStage (call_env (calls k)) p f (Some st) (call_now (calls k)) Path off chunk
                          Actor data false in
      span_loop fuel calls (S k) st p f Path Actor view AlignedStart (u64 (off + SAR_PRESERVE_STAGE_MAX)) SpanEnd
        (worse worst r)
    else Ret (worst, k, p, f)
  end.

Definition SarCaptureStageSpan (calls : nat -> stage_call) (k : nat) (st : SAR_STATE) (p : SAR_PRESERVE) (f : F)
    (Path : list Z) (Actor : Z) (view : bytes) (AlignedStart SpanStart SpanEnd : Z)
    : cres (SAR_STAGE_RESULT * nat * SAR_PRESERVE * F) :=
  span_loop (rounds (SpanEnd - SpanStart)) calls k st p f Path Actor view AlignedStart SpanStart SpanEnd
    SAR_STAGE_STORED.

(** The loop over the captured ranges: the gaps between them are staged.  The
    result is the cursor, the worst result, the next call and the store. *)
Fixpoint gaps_loop (rs : list SAR_CAPTURED_RANGE) (calls : nat -> stage_call) (k : nat) (st : SAR_STATE)
    (p : SAR_PRESERVE) (f : F) (Path : list Z) (Actor : Z) (view : bytes) (alignedStart stop cursor : Z)
    (worst : SAR_STAGE_RESULT) : cres (Z * SAR_STAGE_RESULT * nat * SAR_PRESERVE * F) :=
  match rs with
  | [] => Ret (cursor, worst, k, p, f)
  | r :: rs =>
    if negb (cursor <? stop) then Ret (cursor, worst, k, p, f)
    else if range_end r <=? cursor
    then gaps_loop rs calls k st p f Path Actor view alignedStart stop cursor worst
    else if stop <=? start r then Ret (cursor, worst, k, p, f)
    else
      let! (worst, k, p, f) :=
        if cursor <? start r then
          let! (res, k, p, f) := SarCaptureStageSpan calls k st p f Path Actor view alignedStart cursor
                                   (if start r <? stop then start r else stop) in
          Ret (worse worst res, k, p, f)
        else Ret (worst, k, p, f) in
      gaps_loop rs calls k st p f Path Actor view alignedStart stop (range_end r) worst
  end.

(** The answers to one call of [SarCaptureInPlaceRegion]: the normalized name,
    the section context, the section (the content of the file), its view, the
    calls that stage, and the memory for a larger array of ranges. *)
Record region_env := {
  re_name : option (list Z);
  re_section_ctx : bool;
  re_section : option bytes;
  re_view : bool;
  re_calls : nat -> stage_call;
  re_array : bool
}.

(** What happens under [cap_lock]. *)
Definition stage_region (env : region_env) (st : SAR_STATE) (p : SAR_PRESERVE) (f : F) (path : list Z)
    (actor : Z) (content : bytes) (sc : SAR_STREAM_CONTEXT) (Offset stop : Z)
    : cres (SAR_STAGE_RESULT * SAR_STREAM_CONTEXT * SAR_PRESERVE * F) :=
  let alignedStart := Offset .& Z.lnot (SAR_MAP_GRANULARITY - 1) in
  let view := drop (Z.to_nat alignedStart) content in
  let! (cursor, worst, k, p, f) := gaps_loop (cap_ranges sc) (re_calls env) 0 st p f path actor view alignedStart
                                     stop Offset SAR_STAGE_STORED in
  let! (worst, p, f) :=
    if cursor <? stop then
      let! (r, _, p, f) := SarCaptureStageSpan (re_calls env) k st p f path actor view alignedStart cursor stop in
      Ret (worse worst r, p, f)
    else Ret (worst, p, f) in
  let sc := if bool_decide (worst = SAR_STAGE_STORED) then (SarCapRangeInsert (re_array env) Offset stop sc).2 else sc in
  Ret (worst, sc, p, f).

Definition SarCaptureInPlaceRegion (env : region_env) (passive : bool) (s : Z) (Originator : process)
    (Offset Length : Z) d : cres (SAR_STAGE_RESULT * driver F) :=
  match store_of d with
  | None => Ret (SAR_STAGE_STORED, d)
  | Some (p, f) =>
    let path := SarCaptureResolveProvenance (re_name env) in
    if negb passive || (Length =? 0) || SarCapturePathExempt upcase (sysroot d) path
    then Ret (SAR_STAGE_STORED, d)
    else
      match streams d !! s, re_section_ctx env, re_section env with
      | Some sc, true, Some content =>
        let fileSize := Z.of_nat (length content) in
        let stop := if fileSize <? u64 (Offset + Length) then fileSize else u64 (Offset + Length) in
        if (Offset <? stop) && re_view env then
          let! (worst, sc, p, f) := stage_region env (state d) p f path (start_key Originator) content sc Offset stop in
          Ret (worst, set_stream s sc (set_preserve p f d))
        else Ret (SAR_STAGE_STORED, d)
      | _, _, _ => Ret (SAR_STAGE_STORED, d)
      end
  end.

(** ** A whole file *)

Record whole_env := {
  we_section_ctx : bool;
  we_section : option bytes;
  we_view : bool;
  we_calls : nat -> stage_call
}.

(** The whole file is the span from 0; its view starts at 0. *)
Definition SarCaptureWholeContent (env : whole_env) (Path : list Z) (Originator : process)
    d (p : SAR_PRESERVE) (f : F) : cres (SAR_STAGE_RESULT * driver F) :=
  if SarCapturePathExempt upcase (sysroot d) Path then Ret (SAR_STAGE_STORED, d)
  else
    match we_section_ctx env, we_section env with
    | true, Some content =>
      let size := Z.of_nat (length content) in
      if (0 <? size) && we_view env then
        let! (worst, _, p, f) := span_loop (rounds size) (we_calls env) 0 (state d) p f Path (start_key Originator)
                                   content 0 0 size SAR_STAGE_STORED in
        Ret (worst, set_preserve p f d)
      else Ret (SAR_STAGE_STORED, d)
    | _, _ => Ret (SAR_STAGE_STORED, d)
    end.

(** The size of the file, whether the link is made, the time, and what answers
    the copy when there is no link. *)
Record link_env := {
  le_size : option Z;
  le_link : bool;
  le_now : Z;
  le_whole : whole_env
}.

(** [s] is the stream of the file that goes away.  A link is not made over an
    existing name. *)
Definition SarCaptureLinkPreserve (env : link_env) (passive : bool) (s : Z) (Path : list Z) (Originator : process)
    d : cres (SAR_STAGE_RESULT * driver F) :=
  match store_of d with
  | None => Ret (SAR_STAGE_STORED, d)
  | Some (p, f) =>
    if negb passive || SarCapturePathExempt upcase (sysroot d) Path || identity_exempt Originator d ||
       SarStreamConfidentBlind s d
    then Ret (SAR_STAGE_STORED, d)
    else
      match le_size env with
      | None => Ret (SAR_STAGE_STORED, d)
      | Some size =>
        if size =? 0 then Ret (SAR_STAGE_STORED, d)
        else
          let '(linkid, p) := SarPreserveAllocLinkId p in
          let d := set_preserve p f d in
          match SarPreserveQuarantinePaths Path linkid 96 128 with
          | None => Ret (SAR_STAGE_FAILED, d)
          | Some (_, linkbuf) =>
            if le_link env && negb (bool_decide (is_Some (links d !! linkbuf))) then
              let d := set_links (<[linkbuf := s]> (links d)) d in
              let '(status, p) := SarPreserveStageLink p (Some (state d)) (le_now env) Path size
                                    (start_key Originator) linkid in
              let d := set_preserve p f d in
              if negb (bool_decide (status = STATUS_SUCCESS))
              then Ret (SAR_STAGE_DROPPED, set_links (delete linkbuf (links d)) d)
              else Ret (SAR_STAGE_STORED, d)
            else SarCaptureWholeContent (le_whole env) Path Originator d p f
          end
      end
  end.

(** [name] is the normalized name of the file. *)
Definition SarCaptureSubmitDelete (env : link_env) (name : option (list Z)) (passive : bool) (s : Z)
    (Originator : process) d : cres (SAR_STAGE_RESULT * driver F) :=
  match store_of d with
  | None => Ret (SAR_STAGE_STORED, d)
  | Some _ =>
    if negb passive then Ret (SAR_STAGE_STORED, d)
    else SarCaptureLinkPreserve env passive s (SarCaptureResolveProvenance name) Originator d
  end.

(** FILE_RENAME_INFORMATION and FILE_LINK_INFORMATION: the first field as a
    number, and the length of the name. *)
Record rename_info := { ri_flags : Z; ri_name_length : Z }.

Definition FILE_RENAME_REPLACE_IF_EXISTS : Z := 1.

(** [ex] is whether the class is one of the two Ex classes; [dest] the
    normalized name of the destination, and [opened] its stream, if it is
    there and can be opened. *)
Definition SarCaptureSubmitRenameTarget (env : link_env) (buf : option rename_info) (ex : bool)
    (dest : option (list Z)) (opened : option Z) (passive : bool) (Originator : process)
    d : cres (SAR_STAGE_RESULT * driver F) :=
  match store_of d, buf with
  | Some _, Some ri =>
    let replace := if ex then negb (ri_flags ri .& FILE_RENAME_REPLACE_IF_EXISTS =? 0)
                   else negb (u8 (ri_flags ri) =? 0) in
    if negb passive || negb replace || (ri_name_length ri =? 0) then Ret (SAR_STAGE_STORED, d)
    else
      match dest, opened with
      | Some n, Some s => SarCaptureLinkPreserve env passive s (SarCaptureResolveProvenance (Some n)) Originator d
      | _, _ => Ret (SAR_STAGE_STORED, d)
      end
  | _, _ => Ret (SAR_STAGE_STORED, d)
  end.

Definition SarCaptureSubmitRenameRekey (buf : option rename_info) (src dest : option (list Z)) (passive : bool)
    d : driver F :=
  match store_of d, buf with
  | Some (p, f), Some ri =>
    if negb passive || (ri_name_length ri =? 0) then d
    else
      match src, dest with
      | Some o, Some n =>
        set_preserve (SarPreserveRename p (SarCaptureResolveProvenance (Some o)) (SarCaptureResolveProvenance (Some n))) f d
      | _, _ => d
      end
  | _, _ => d
  end.

(** [named] is whether the name the file is opened by is known; [opened] the
    stream of the existing file, and [name] its normalized name. *)
Definition SarCaptureSubmitSupersede (env : whole_env) (named : bool) (opened : option Z) (name : option (list Z))
    (passive top_level : bool) (Originator : process) d : cres (SAR_STAGE_RESULT * driver F) :=
  match store_of d with
  | None => Ret (SAR_STAGE_STORED, d)
  | Some (p, f) =>
    if negb passive || negb top_level || negb named then Ret (SAR_STAGE_STORED, d)
    else
      match opened with
      | None => Ret (SAR_STAGE_STORED, d)
      | Some s =>
        let path := SarCaptureResolveProvenance name in
        if negb (SarStreamConfidentBlind s d) && negb (rd path 0 =? 0) && negb (SarCaptureProvenanceIsOwn path)
        then SarCaptureWholeContent env path Originator d p f
        else Ret (SAR_STAGE_STORED, d)
      end
  end.

End Seam.

End CaptureSeam.
