(* ===== verification/Snapshot.v ===== *)
(** * The snapshot of a process (driver/capture.c)

    When a write looks like an encryption the driver copies the writable private
    memory of the writing process into one buffer, heaps first, a resident page
    at a time; the key is then searched in the buffer.  The address space is a
    list of regions that the memory manager answers queries from, and a
    function from page addresses to the content of the resident pages. *)

From S2P Require Import Prelude Mem Chain.
Import Mem.

Module Snapshot.

Definition PAGE_SIZE : Z := 4096.
Definition SAR_CAPTURE_HEAP_BUDGET : Z := 4 * 1024 * 1024.
Definition SAR_CAPTURE_HEAP_PER_CAP : Z := 1 * 1024 * 1024.
Definition SAR_CAPTURE_HEAP_MAX : nat := 64.

Definition MEM_COMMIT : Z := 0x1000.
Definition MEM_PRIVATE : Z := 0x20000.
Definition PAGE_NOACCESS : Z := 0x01.
Definition PAGE_READWRITE : Z := 0x04.
Definition PAGE_EXECUTE_READWRITE : Z := 0x40.
Definition PAGE_GUARD : Z := 0x100.

Record MEMORY_BASIC_INFORMATION := {
  BaseAddress : Z;
  RegionSize : Z;
  State : Z;
  Type_ : Z;
  Protect : Z
}.

(** Committed private memory that can be written, without guard pages. *)
Definition scannable (m : MEMORY_BASIC_INFORMATION) : bool :=
  (State m =? MEM_COMMIT) && (Type_ m =? MEM_PRIVATE) &&
  negb (Protect m .& (PAGE_READWRITE .| PAGE_EXECUTE_READWRITE) =? 0) &&
  (Protect m .& (PAGE_GUARD .| PAGE_NOACCESS) =? 0).

Definition next_addr (m : MEMORY_BASIC_INFORMATION) : Z := u64 (BaseAddress m + RegionSize m).

(** The page of an address. *)
Definition page_of (addr : Z) : Z := addr - addr mod PAGE_SIZE.

(** The part of region [m] from the page of [addr] on. *)
Definition rest_from (addr : Z) (m : MEMORY_BASIC_INFORMATION) : MEMORY_BASIC_INFORMATION :=
  {| BaseAddress := page_of addr; RegionSize := BaseAddress m + RegionSize m - page_of addr;
     State := State m; Type_ := Type_ m; Protect := Protect m |}.

(** The region of an address. *)
Definition region_at (regions : list MEMORY_BASIC_INFORMATION) (addr : Z) : option MEMORY_BASIC_INFORMATION :=
  List.find (fun m => (BaseAddress m <=? addr) && (addr <? BaseAddress m + RegionSize m)) regions.

(** [ZwQueryVirtualMemory]: the answer starts at the page of the address, also
    when the region starts before it. *)
Definition query (regions : list MEMORY_BASIC_INFORMATION) (addr : Z) : option MEMORY_BASIC_INFORMATION :=
  rest_from addr <$> region_at regions addr.

Section Snapshot.
Context (regions : list MEMORY_BASIC_INFORMATION) (resident : Z -> option bytes).

(** Pages from [p] to [stop]; a page that is not resident, or that goes away
    before it is copied, is passed over.  The result is what is in the buffer. *)
Fixpoint copy_pages (fuel : nat) (p stop Cap : Z) (buf : bytes) : cres bytes :=
  match fuel with
  | O => NoFuel
  | S fuel =>
    let total := Z.of_nat (length buf) in
    if (p <? stop) && (total <? Cap) then
      let want := if Cap - total <? PAGE_SIZE then Cap - total else PAGE_SIZE in
      let buf := match resident p with
                 | Some page => buf ++ take (Z.to_nat want) page
                 | None => buf
                 end in
      copy_pages fuel (u64 (p + PAGE_SIZE)) stop Cap buf
    else Ret buf
  end.

(** What is copied to [Buf], at most [Cap] bytes. *)
Definition SarCaptureCopyResident (Base Size Cap : Z) : cres bytes :=
  copy_pages (S (S (Z.to_nat (Size / PAGE_SIZE)))) Base (u64 (Base + Size)) Cap [].

(** A heap: the run of scannable regions that starts at [addr]. *)
Fixpoint heap_loop (fuel : nat) (addr Cap : Z) (buf : bytes) : cres bytes :=
  match fuel with
  | O => NoFuel
  | S fuel =>
    if Z.of_nat (length buf) <? Cap then
      match query regions addr with
      | None => Ret buf
      | Some m =>
        if (RegionSize m =? 0) || (next_addr m <=? addr) then Ret buf
        else if negb (scannable m) then Ret buf
        else
          let! got := SarCaptureCopyResident (BaseAddress m) (RegionSize m) (Cap - Z.of_nat (length buf)) in
          heap_loop fuel (next_addr m) Cap (buf ++ got)
      end
    else Ret buf
  end.

Definition SarCaptureSnapshotHeap (HeapBase Cap : Z) : cres bytes :=
  heap_loop (S (length regions)) HeapBase Cap [].

(** The share of one heap or region. *)
Definition share (Cap : Z) (buf : bytes) : Z :=
  let remain := Cap - Z.of_nat (length buf) in
  if remain <? SAR_CAPTURE_HEAP_PER_CAP then remain else SAR_CAPTURE_HEAP_PER_CAP.

Fixpoint heaps_loop (heapbases : list Z) (Cap : Z) (buf : bytes) : cres bytes :=
  match heapbases with
  | [] => Ret buf
  | h :: heapbases =>
    if Z.of_nat (length buf) <? Cap then
      let! got := SarCaptureSnapshotHeap h (share Cap buf) in
      heaps_loop heapbases Cap (buf ++ got)
    else Ret buf
  end.

(** The rest of the address space, without the regions in which a heap starts. *)
Fixpoint regions_loop (fuel : nat) (heapbases : list Z) (addr Cap : Z) (buf : bytes) : cres bytes :=
  match fuel with
  | O => NoFuel
  | S fuel =>
    if Z.of_nat (length buf) <? Cap then
      match query regions addr with
      | None => Ret buf
      | Some m =>
        if (RegionSize m =? 0) || (next_addr m <=? addr) then Ret buf
        else
          let isheap := existsb (fun h => (BaseAddress m <=? h) && (h <? next_addr m)) heapbases in
          let! got := if scannable m && negb isheap
                      then SarCaptureCopyResident (BaseAddress m) (RegionSize m) (share Cap buf) else Ret [] in
          regions_loop fuel heapbases (next_addr m) Cap (buf ++ got)
      end
    else Ret buf
  end.

(** [heaps] is the array of the process environment block, [None] if reading it
    faults or it is NULL. *)
Definition SarCaptureSnapshotProcess (heaps : option (list Z)) (Cap : Z) : cres bytes :=
  let heapbases := match heaps with
                   | Some hs => List.filter (fun h => negb (h =? 0)) (take SAR_CAPTURE_HEAP_MAX hs)
                   | None => []
                   end in
  let! buf := heaps_loop heapbases Cap [] in
  regions_loop (S (length regions)) heapbases 0 Cap buf.

(** ** The snapshot stays in the buffer *)

(** Regions are pages. *)
Definition region_ok (m : MEMORY_BASIC_INFORMATION) : Prop :=
  0 <= BaseAddress m /\ 0 <= RegionSize m /\ BaseAddress m + RegionSize m < 2 ^ 63 /\
  BaseAddress m mod PAGE_SIZE = 0 /\ RegionSize m mod PAGE_SIZE = 0.

(** Pages have their size. *)
Definition pages_ok : Prop := forall p page, resident p = Some page -> Z.of_nat (length page) = PAGE_SIZE.

(** The resident pages among [n] from [p] on. *)
Fixpoint resident_pages (n : nat) (p : Z) : bytes :=
  match n with
  | O => []
  | S n => default [] (resident p) ++ resident_pages n (p + PAGE_SIZE)
  end.

(** A result within [Cap] that is [all] unless the buffer is full. *)
Definition fills (Cap : Z) (all r : bytes) : Prop :=
  Z.of_nat (length r) <= Cap /\ (Z.of_nat (length r) < Cap -> r = all).

Hypothesis Hpages : pages_ok.

Lemma copy_pages_spec n fuel p stop Cap buf :
  0 <= p -> 0 <= stop < 2 ^ 63 -> p < 2 ^ 63 + PAGE_SIZE ->
  stop <= p + PAGE_SIZE * Z.of_nat n -> ((0 < n)%nat -> p + PAGE_SIZE * (Z.of_nat n - 1) < stop) ->
  (n < fuel)%nat -> Z.of_nat (length buf) <= Cap ->
  exists r, copy_pages fuel p stop Cap buf = Ret r /\ fills Cap (buf ++ resident_pages n p) r /\
    Z.of_nat (length r) <= Z.of_nat (length buf) + PAGE_SIZE * Z.of_nat n.
Proof using Hpages.
  revert fuel p buf. induction n as [|n IH]; intros fuel p buf Hp Hs Hp2 Hle Hlt Hf Hb;
    (destruct fuel as [|fuel]; [lia|]); cbn [copy_pages].
  - destruct (Z.ltb_spec p stop); [lia|]. cbn [andb]. eexists. split; [done|]. split; [|lia]. split; [done|].
    intros _. by rewrite app_nil_r.
  - unfold PAGE_SIZE in *. assert (Hps : p < stop) by (specialize (Hlt ltac:(lia)); lia).
    destruct (Z.ltb_spec p stop); [|lia]. cbn [andb].
    destruct (Z.ltb_spec (Z.of_nat (length buf)) Cap) as [Hc|Hc].
    2: { eexists. split; [done|]. split; [split; [done|lia]|lia]. }
    rewrite u64_small by (unfold is_u; lia).
    set (want := if Cap - Z.of_nat (length buf) <? 4096 then Cap - Z.of_nat (length buf) else 4096).
    assert (Hw : 0 < want <= 4096 /\ Z.of_nat (length buf) + want <= Cap /\
                 (want < 4096 -> Z.of_nat (length buf) + want = Cap)).
    { subst want. destruct (Z.ltb_spec (Cap - Z.of_nat (length buf)) 4096); lia. }
    set (buf' := match resident p with Some page => buf ++ take (Z.to_nat want) page | None => buf end).
    assert (Hb' : fills Cap (buf ++ default [] (resident p)) buf').
    { subst buf'. destruct (resident p) as [page|] eqn:Ep; cbn [default]; [|rewrite app_nil_r; by split; [lia|]].
      pose proof (Hpages _ _ Ep) as Hlen. unfold PAGE_SIZE in Hlen. unfold fills.
      rewrite length_app, length_take. split; [lia|].
      intros Hlt'. by rewrite take_ge by lia. }
    assert (Hb'' : Z.of_nat (length buf') <= Z.of_nat (length buf) + 4096).
    { subst buf'. destruct (resident p); [|lia]. rewrite length_app, length_take. lia. }
    destruct (IH fuel (p + 4096) buf') as (r&Hr&[Hr1 Hr2]&Hr3); [lia..|apply Hb'|].
    exists r. split; [exact Hr|]. split; [|lia]. split; [done|]. intros Hrc.
    rewrite (Hr2 Hrc) in Hrc |- *. cbn [resident_pages]. rewrite app_assoc. f_equal.
    apply Hb'. rewrite length_app in Hrc. lia.
Qed.

(** The number of pages of a region. *)
Definition page_count (size : Z) : nat := Z.to_nat ((size + (PAGE_SIZE - 1)) / PAGE_SIZE).

Lemma copy_resident_spec m Cap :
  region_ok m -> 0 <= Cap ->
  exists r, SarCaptureCopyResident (BaseAddress m) (RegionSize m) Cap = Ret r /\
    fills Cap (resident_pages (page_count (RegionSize m)) (BaseAddress m)) r /\
    Z.of_nat (length r) <= PAGE_SIZE * Z.of_nat (page_count (RegionSize m)).
Proof using Hpages.
  intros (Hb&Hs&Hsum&_) Hc. unfold SarCaptureCopyResident, page_count, PAGE_SIZE in *.
  rewrite u64_small by (unfold is_u; lia).
  apply (copy_pages_spec _ _ _ _ _ []); unfold PAGE_SIZE; try dlia. simpl. lia.
Qed.

(** The regions that end after [addr]. *)
Definition after (addr : Z) : list MEMORY_BASIC_INFORMATION :=
  filter (fun m => addr < BaseAddress m + RegionSize m) regions.

Hypothesis Hregions : Forall region_ok regions.

(** The page of an address in a region is in it too. *)
Lemma page_of_ge m x : region_ok m -> BaseAddress m <= x -> BaseAddress m <= page_of x <= x /\ page_of x mod PAGE_SIZE = 0.
Proof. unfold region_ok, page_of, PAGE_SIZE. intros. dlia. Qed.

(** What a query answers: the rest of a region, which ends where the region ends. *)
Lemma query_some addr q : query regions addr = Some q -> exists m, m ∈ regions /\ region_ok m /\
  BaseAddress m <= addr < BaseAddress m + RegionSize m /\ q = rest_from addr m /\ region_ok q /\
  BaseAddress q <= addr /\ next_addr q = BaseAddress m + RegionSize m.
Proof using Hregions.
  unfold query. destruct (region_at regions addr) as [m|] eqn:Hf; [|done]. intros [= <-].
  apply find_some in Hf as [Hin Hx]. bsimp. apply list_elem_of_In in Hin.
  rewrite Forall_forall in Hregions. pose proof (Hregions m Hin) as Hok.
  destruct (page_of_ge m addr Hok ltac:(lia)) as [H3 H4]. exists m. pose proof Hok as (R1&R2&R3&R4&R5).
  unfold next_addr. cbn [rest_from BaseAddress RegionSize].
  rewrite u64_small by (unfold is_u; lia). split_and!; try done; try lia. unfold region_ok. cbn. split_and!; try done; try lia.
  unfold PAGE_SIZE in *. dlia.
Qed.

(** Every round passes the region it has found. *)
Lemma after_decreases addr q : query regions addr = Some q -> (length (after (next_addr q)) < length (after addr))%nat.
Proof using Hregions.
  intros Hq. destruct (query_some _ _ Hq) as (m&Hin&_&H4&_&_&_&->).
  unfold after. apply (filter_length_lt _ _ _ m); [|done|lia|lia].
  intros x. lia.
Qed.

Lemma heap_loop_bound fuel addr Cap buf :
  (length (after addr) < fuel)%nat -> Z.of_nat (length buf) <= Cap ->
  exists r, heap_loop fuel addr Cap buf = Ret r /\ Z.of_nat (length r) <= Cap.
Proof using Hpages Hregions.
  revert addr buf. induction fuel as [|fuel IH]; intros addr buf Hf Hb; [lia|]. cbn [heap_loop].
  destruct (_ <? Cap); [|by eauto]. destruct (query regions addr) as [m|] eqn:Hq; [|by eauto].
  destruct (_ || _); [by eauto|]. destruct (scannable m); cbn [negb]; [|by eauto].
  destruct (query_some _ _ Hq) as (_&_&_&_&_&Hm&_). pose proof (after_decreases _ _ Hq).
  destruct (copy_resident_spec m (Cap - Z.of_nat (length buf)) Hm) as (got&->&[Hg _]&_); [lia|]. cbn [cbind].
  apply IH; [lia|]. rewrite length_app. lia.
Qed.

Lemma length_after addr : (length (after addr) <= length regions)%nat.
Proof. apply length_filter. Qed.

Lemma heaps_loop_bound hs Cap buf : Z.of_nat (length buf) <= Cap ->
  exists r, heaps_loop hs Cap buf = Ret r /\ Z.of_nat (length r) <= Cap.
Proof using Hpages Hregions.
  revert buf. induction hs as [|h hs IH]; intros buf Hb; cbn [heaps_loop]; [by eauto|].
  destruct (Z.ltb_spec (Z.of_nat (length buf)) Cap); [|by eauto].
  assert (Hs : 0 <= share Cap buf <= Cap - Z.of_nat (length buf)).
  { unfold share, SAR_CAPTURE_HEAP_PER_CAP. dif; bsimp; lia. }
  destruct (heap_loop_bound (S (length regions)) h (share Cap buf) []) as (got&Hg&Hl);
    [pose proof (length_after h); lia|simpl; lia|].
  unfold SarCaptureSnapshotHeap. rewrite Hg. cbn [cbind]. apply IH. rewrite length_app. lia.
Qed.

(** What [regions_loop] copies of one region. *)
Definition wanted (heapbases : list Z) (m : MEMORY_BASIC_INFORMATION) : bool :=
  scannable m && negb (existsb (fun h => (BaseAddress m <=? h) && (h <? next_addr m)) heapbases).

Lemma region_copy hs m Cap buf :
  region_ok m -> Z.of_nat (length buf) < Cap ->
  exists got, (if wanted hs m then SarCaptureCopyResident (BaseAddress m) (RegionSize m) (share Cap buf) else Ret [])
      = Ret got /\
    Z.of_nat (length (buf ++ got)) <= Cap /\
    (Z.of_nat (length (buf ++ got)) < Cap -> wanted hs m = true ->
     PAGE_SIZE * Z.of_nat (page_count (RegionSize m)) < SAR_CAPTURE_HEAP_PER_CAP ->
     got = resident_pages (page_count (RegionSize m)) (BaseAddress m)).
Proof using Hpages.
  intros Hm Hb. destruct (wanted hs m).
  2: { exists []. rewrite app_nil_r. split_and!; [done|lia|done]. }
  set (n := share Cap buf).
  assert (Hs : n = Z.min (Cap - Z.of_nat (length buf)) SAR_CAPTURE_HEAP_PER_CAP).
  { unfold n, share. dif; bsimp; lia. }
  destruct (copy_resident_spec m n Hm) as (got&Hg&[Hl Hall]&Hsize); [unfold SAR_CAPTURE_HEAP_PER_CAP in *; lia|].
  exists got. rewrite length_app. split_and!; [done|lia|]. intros Hlt _ Hsz. apply Hall. lia.
Qed.

Lemma regions_loop_bound fuel hs addr Cap buf :
  (length (after addr) < fuel)%nat -> Z.of_nat (length buf) <= Cap ->
  exists r, regions_loop fuel hs addr Cap buf = Ret r /\ Z.of_nat (length r) <= Cap.
Proof using Hpages Hregions.
  revert addr buf. induction fuel as [|fuel IH]; intros addr buf Hf Hb; [lia|]. cbn [regions_loop].
  destruct (Z.ltb_spec (Z.of_nat (length buf)) Cap) as [Hc|]; [|by eauto].
  destruct (query regions addr) as [m|] eqn:Hq; [|by eauto].
  destruct (_ || _); [by eauto|]. fold (wanted hs m).
  destruct (query_some _ _ Hq) as (_&_&_&_&_&Hm&_). pose proof (after_decreases _ _ Hq).
  destruct (region_copy hs m Cap buf Hm Hc) as (got&->&Hg&_). cbn [cbind]. apply IH; [lia|done].
Qed.

(** ** What the snapshot holds *)

(** [x] is a contiguous part of [r]. *)
Definition part_of (x r : bytes) : Prop := exists a b, r = a ++ x ++ b.

Lemma part_of_app_l x a r : part_of x r -> part_of x (a ++ r).
Proof. intros (u&v&->). exists (a ++ u), v. by rewrite <- app_assoc. Qed.
Lemma part_of_app_r x r b : part_of x r -> part_of x (r ++ b).
Proof. intros (u&v&->). exists u, (v ++ b). by rewrite <- !app_assoc. Qed.
Lemma part_of_trans x y r : part_of x y -> part_of y r -> part_of x r.
Proof. intros Hx (u&v&->). by apply part_of_app_l, part_of_app_r. Qed.

Lemma resident_pages_part n p k page : (k < n)%nat -> resident (p + PAGE_SIZE * Z.of_nat k) = Some page ->
  part_of page (resident_pages n p).
Proof.
  revert p k. induction n as [|n IH]; intros p k Hk Hp; [lia|]. cbn [resident_pages]. destruct k as [|k].
  - rewrite Z.mul_0_r, Z.add_0_r in Hp. rewrite Hp. exists [], (resident_pages n (p + PAGE_SIZE)). done.
  - apply part_of_app_l, (IH _ k); [lia|]. rewrite <- Hp. f_equal. lia.
Qed.

(** The resident pages of a region, and that they fit the share of a region. *)
Definition content (m : MEMORY_BASIC_INFORMATION) : bytes :=
  resident_pages (page_count (RegionSize m)) (BaseAddress m).
Definition small (m : MEMORY_BASIC_INFORMATION) : Prop :=
  PAGE_SIZE * Z.of_nat (page_count (RegionSize m)) < SAR_CAPTURE_HEAP_PER_CAP.

(** A loop extends its buffer. *)
Lemma heap_loop_extends fuel addr Cap buf r : heap_loop fuel addr Cap buf = Ret r -> exists e, r = buf ++ e.
Proof.
  revert addr buf. induction fuel as [|fuel IH]; intros addr buf; cbn [heap_loop]; [done|].
  assert (Hd : Ret buf = Ret r -> exists e, r = buf ++ e) by (intros [= <-]; exists []; by rewrite app_nil_r).
  destruct (_ <? Cap); [|done]. destruct (query regions addr); [|done]. destruct (_ || _); [done|].
  destruct (scannable _); [|done]. cbn [negb]. destruct (SarCaptureCopyResident _ _ _) as [got| |]; [|done..].
  cbn [cbind]. intros [e ->]%IH. exists (got ++ e). by rewrite app_assoc.
Qed.

(** A heap starts with the region its address lies in. *)
Lemma snapshot_heap_part h n m r :
  query regions h = Some m -> scannable m = true -> small m -> 0 < n ->
  SarCaptureSnapshotHeap h n = Ret r -> Z.of_nat (length r) < n \/ SAR_CAPTURE_HEAP_PER_CAP <= n ->
  part_of (content m) r.
Proof using Hpages Hregions.
  intros Hq Hsc Hsm Hn. unfold SarCaptureSnapshotHeap. cbn [heap_loop length].
  destruct (query_some _ _ Hq) as (m0&_&_&H0&E&Hm&Hb&Hx). pose proof Hm as (H1&H2&H3&_).
  assert (Hend : BaseAddress m + RegionSize m = BaseAddress m0 + RegionSize m0) by (rewrite E; cbn; lia).
  destruct (Z.ltb_spec (Z.of_nat 0) n); [|lia]. rewrite Hq, Hsc. cbn [negb].
  rewrite Hx. destruct (Z.eqb_spec (RegionSize m) 0); [lia|].
  destruct (Z.leb_spec (BaseAddress m0 + RegionSize m0) h); [lia|]. cbn [orb].
  destruct (copy_resident_spec m (n - Z.of_nat 0) Hm) as (got&->&[Hg Hall]&Hgs); [lia|]. cbn [cbind app].
  intros Hr Hlt. destruct (heap_loop_extends _ _ _ _ _ Hr) as [e ->]. apply part_of_app_r.
  rewrite length_app in Hlt. unfold small in Hsm. rewrite Hall by lia. by exists [], []; rewrite app_nil_r.
Qed.

Lemma heaps_loop_part hs Cap buf : Z.of_nat (length buf) <= Cap ->
  exists e, heaps_loop hs Cap buf = Ret (buf ++ e) /\ Z.of_nat (length (buf ++ e)) <= Cap /\
  (Z.of_nat (length (buf ++ e)) < Cap -> forall h m, h ∈ hs -> query regions h = Some m ->
   scannable m = true -> small m -> part_of (content m) e).
Proof using Hpages Hregions.
  revert buf. induction hs as [|h hs IH]; intros buf Hb; cbn [heaps_loop].
  { exists []. rewrite app_nil_r. split_and!; [done|done|]. intros _ h m Hh. by apply elem_of_nil in Hh. }
  destruct (Z.ltb_spec (Z.of_nat (length buf)) Cap) as [Hc|].
  2: { exists []. rewrite app_nil_r. split_and!; [done|done|lia]. }
  set (n := share Cap buf).
  assert (Hs : n = Z.min (Cap - Z.of_nat (length buf)) SAR_CAPTURE_HEAP_PER_CAP).
  { unfold n, share. dif; bsimp; lia. }
  assert (Hn : 0 < n) by (unfold SAR_CAPTURE_HEAP_PER_CAP in *; lia).
  destruct (heap_loop_bound (S (length regions)) h n []) as (got&Hg&Hl);
    [pose proof (length_after h); lia|simpl; lia|].
  fold (SarCaptureSnapshotHeap h n) in Hg. rewrite Hg. cbn [cbind].
  destruct (IH (buf ++ got)) as (e&He&Hle&Hpart); [rewrite length_app; lia|].
  exists (got ++ e). rewrite app_assoc. split_and!; [done|done|]. intros Hlt h' m [->|Hh]%elem_of_cons Hq Hsc Hsm.
  - apply part_of_app_r. apply (snapshot_heap_part h n m); try done. rewrite !length_app in Hlt. lia.
  - apply part_of_app_l. by apply (Hpart Hlt h').
Qed.

(** The regions follow each other from [addr] on. *)
Fixpoint tiled (addr : Z) (l : list MEMORY_BASIC_INFORMATION) : Prop :=
  match l with
  | [] => True
  | m :: l => BaseAddress m = addr /\ 0 < RegionSize m /\ tiled (addr + RegionSize m) l
  end.

Lemma tiled_find addr l m x : tiled addr l -> m ∈ l -> BaseAddress m <= x < BaseAddress m + RegionSize m ->
  addr <= BaseAddress m /\
  List.find (fun m => (BaseAddress m <=? x) && (x <? BaseAddress m + RegionSize m)) l = Some m.
Proof.
  revert addr. induction l as [|a l IH]; intros addr; [intros _ H; by apply elem_of_nil in H|].
  intros (Ha&Hs&Ht) [->|Hin]%elem_of_cons Hx; cbn [List.find].
  - destruct (Z.leb_spec (BaseAddress a) x), (Z.ltb_spec x (BaseAddress a + RegionSize a)); try lia.
    split; [lia|done].
  - destruct (IH _ Ht Hin Hx) as [Hge Hf]. split; [lia|].
    destruct (Z.ltb_spec x (BaseAddress a + RegionSize a)); [lia|]. by rewrite andb_false_r.
Qed.

Hypothesis Htiled : tiled 0 regions.

Lemma query_tiled m x : m ∈ regions -> BaseAddress m <= x < BaseAddress m + RegionSize m ->
  query regions x = Some (rest_from x m).
Proof using Htiled. intros Hm Hx. unfold query, region_at. by rewrite (proj2 (tiled_find 0 _ _ _ Htiled Hm Hx)). Qed.

Lemma rest_from_base m : region_ok m -> rest_from (BaseAddress m) m = m.
Proof. intros (_&_&_&H&_). unfold rest_from, page_of. rewrite H. destruct m as [b s ? ? ?]. cbn. f_equal; lia. Qed.

Lemma regions_loop_extends fuel hs addr Cap buf r :
  regions_loop fuel hs addr Cap buf = Ret r -> exists e, r = buf ++ e.
Proof.
  revert addr buf. induction fuel as [|fuel IH]; intros addr buf; cbn [regions_loop]; [done|].
  assert (Hd : Ret buf = Ret r -> exists e, r = buf ++ e) by (intros [= <-]; exists []; by rewrite app_nil_r).
  destruct (_ <? Cap); [|done]. destruct (query regions addr); [|done]. destruct (_ || _); [done|].
  destruct (if scannable _ && _ then _ else _) as [got| |]; [|done..].
  cbn [cbind]. intros [e ->]%IH. exists (got ++ e). by rewrite app_assoc.
Qed.

Lemma regions_loop_part fuel hs todo Cap buf addr :
  (forall m, m ∈ todo -> m ∈ regions) -> tiled addr todo -> (length (after addr) < fuel)%nat ->
  Z.of_nat (length buf) <= Cap ->
  exists e, regions_loop fuel hs addr Cap buf = Ret (buf ++ e) /\ Z.of_nat (length (buf ++ e)) <= Cap /\
  (Z.of_nat (length (buf ++ e)) < Cap -> forall m, m ∈ todo -> wanted hs m = true -> small m ->
   part_of (content m) e).
Proof using Hpages Hregions Htiled.
  revert todo buf addr. induction fuel as [|fuel IH]; intros todo buf addr Hsub Ht Hf Hb; [lia|].
  destruct (regions_loop_bound (S fuel) hs addr Cap buf Hf Hb) as (r&Hr&Hlr).
  destruct (regions_loop_extends _ _ _ _ _ _ Hr) as [e0 ->].
  destruct todo as [|m todo].
  { exists e0. split_and!; [done|done|]. intros _ m Hm. by apply elem_of_nil in Hm. }
  clear Hr Hlr e0. cbn [regions_loop]. destruct (Z.ltb_spec (Z.of_nat (length buf)) Cap) as [Hc|].
  2: { exists []. rewrite app_nil_r. split_and!; [done|done|lia]. }
  destruct Ht as (Ha&Hs&Ht). pose proof (Hsub m ltac:(left)) as Hin.
  assert (Hm : region_ok m) by (rewrite Forall_forall in Hregions; by apply Hregions).
  assert (Hq : query regions addr = Some m).
  { rewrite <- Ha. rewrite <- (rest_from_base m Hm) at 2. apply query_tiled; [done|lia]. }
  rewrite Hq. pose proof Hm as (H1&H2&H3&_).
  pose proof (after_decreases _ _ Hq) as Hdec. unfold next_addr in Hdec |- *.
  rewrite u64_small in Hdec |- * by (unfold is_u; lia).
  destruct (Z.eqb_spec (RegionSize m) 0); [lia|]. destruct (Z.leb_spec (BaseAddress m + RegionSize m) addr); [lia|].
  cbn [orb]. destruct (region_copy hs m Cap buf Hm Hc) as (got&Hgot&Hl&Hall). unfold wanted, next_addr in Hgot.
  rewrite u64_small in Hgot by (unfold is_u; lia). rewrite Hgot. cbn [cbind].
  destruct (IH todo (buf ++ got) (BaseAddress m + RegionSize m)) as (e&He&Hle&Hpart); [|by rewrite Ha|lia|done|].
  { intros x Hx. apply Hsub. by right. }
  exists (got ++ e). rewrite app_assoc. split_and!; [done|done|]. intros Hlt x [->|Hx]%elem_of_cons Hw Hsm.
  - apply part_of_app_r. rewrite Hall; [by exists [], []; rewrite app_nil_r| |done|done].
    rewrite length_app in Hlt. lia.
  - apply part_of_app_l. by apply Hpart.
Qed.

(** The heaps that [SarCaptureSnapshotProcess] takes from the array. *)
Definition heap_list (heaps : option (list Z)) : list Z :=
  match heaps with
  | Some hs => List.filter (fun h => negb (h =? 0)) (take SAR_CAPTURE_HEAP_MAX hs)
  | None => []
  end.

(** The page at [x] of region [m] is read: no heap starts in the region, or one
    starts in this page or before it. *)
Definition reached (heaps : option (list Z)) (m : MEMORY_BASIC_INFORMATION) (x : Z) : Prop :=
  (forall h, h ∈ heap_list heaps -> BaseAddress m <= h < BaseAddress m + RegionSize m ->
   exists h', h' ∈ heap_list heaps /\ BaseAddress m <= h' < x + PAGE_SIZE).

(** A page of the region is a page of what is left of it from an earlier page on. *)
Lemma rest_page m h k : region_ok m -> (k < page_count (RegionSize m))%nat -> BaseAddress m <= h ->
  h < BaseAddress m + PAGE_SIZE * Z.of_nat k + PAGE_SIZE ->
  exists k', (k' < page_count (RegionSize (rest_from h m)))%nat /\
    BaseAddress (rest_from h m) + PAGE_SIZE * Z.of_nat k' = BaseAddress m + PAGE_SIZE * Z.of_nat k.
Proof.
  intros (R1&R2&R3&R4&R5). cbn [rest_from BaseAddress RegionSize]. unfold page_count, page_of, PAGE_SIZE in *. intros Hk H1 H2.
  exists (Z.to_nat ((BaseAddress m + 4096 * Z.of_nat k - (h - h mod 4096)) / 4096)).
  assert (Hd : 0 <= BaseAddress m + 4096 * Z.of_nat k - (h - h mod 4096)) by dlia.
  assert (Hm : (BaseAddress m + 4096 * Z.of_nat k - (h - h mod 4096)) mod 4096 = 0) by dlia.
  split; dlia.
Qed.

Lemma snapshot_pages heaps Cap :
  0 <= Cap ->
  exists snap, SarCaptureSnapshotProcess heaps Cap = Ret snap /\ Z.of_nat (length snap) <= Cap /\
    (Z.of_nat (length snap) < Cap -> forall m k page, m ∈ regions -> scannable m = true -> small m ->
     (k < page_count (RegionSize m))%nat -> reached heaps m (BaseAddress m + PAGE_SIZE * Z.of_nat k) ->
     resident (BaseAddress m + PAGE_SIZE * Z.of_nat k) = Some page -> part_of page snap).
Proof using Hpages Hregions Htiled.
  intros Hc. unfold SarCaptureSnapshotProcess. fold (heap_list heaps).
  destruct (heaps_loop_part (heap_list heaps) Cap []) as (e1&->&Hb&H1); [done|]. cbn [cbind app] in *.
  destruct (regions_loop_part (S (length regions)) (heap_list heaps) regions Cap e1 0) as (e2&->&Hl&H2);
    [done|done|pose proof (length_after 0); lia|done|].
  exists (e1 ++ e2). split_and!; [done|done|]. intros Hlt m k page Hm Hsc Hsm Hk Hrch Hpage.
  destruct (wanted (heap_list heaps) m) eqn:Hw.
  { apply (part_of_trans _ (content m)); [by apply (resident_pages_part _ _ k)|]. by apply part_of_app_l, H2. }
  unfold wanted in Hw. rewrite Hsc in Hw. cbn [andb] in Hw. bsimp.
  apply existsb_exists in Hw as (h&Hh&Hin). apply list_elem_of_In in Hh. bsimp.
  rewrite Forall_forall in Hregions. pose proof (Hregions m Hm) as Hok. pose proof Hok as (R1&R2&R3&R4&R5). unfold next_addr in *.
  rewrite u64_small in * by (unfold is_u; lia).
  assert (Hx : BaseAddress m <= h < BaseAddress m + RegionSize m) by lia.
  destruct (Hrch h Hh Hx) as (h'&Hh'&Hb1&Hb2).
  destruct (rest_page m h' k Hok Hk Hb1 Hb2) as (k'&Hk'&Ek').
  assert (Hp : part_of page (content (rest_from h' m))).
  { apply (resident_pages_part _ _ k'); [done|]. by rewrite Ek'. }
  apply (part_of_trans _ _ _ Hp), part_of_app_r, (H1 ltac:(rewrite length_app in Hlt; lia) h'); try done.
  - apply query_tiled; [done|]. unfold page_count, PAGE_SIZE in *. dlia.
  - unfold small in *. destruct (page_of_ge m h' Hok Hb1) as [Hp1 _]. cbn. unfold page_count, PAGE_SIZE in *. dlia.
Qed.

(** ** The snapshot holds bytes *)

Hypothesis Hbytes : forall p page, resident p = Some page -> is_bytes page.

Lemma copy_pages_bytes fuel p stop Cap buf r :
  copy_pages fuel p stop Cap buf = Ret r -> is_bytes buf -> is_bytes r.
Proof using Hbytes.
  revert p buf. induction fuel as [|fuel IH]; intros p buf; cbn [copy_pages]; [done|]. dif; [|by intros [= <-]].
  intros Hr Hb. eapply IH; [exact Hr|]. destruct (resident p) as [page|] eqn:Hp; [|done].
  apply Forall_app. split; [done|]. apply Forall_take. by eapply Hbytes.
Qed.

Lemma heap_loop_bytes fuel addr Cap buf r : heap_loop fuel addr Cap buf = Ret r -> is_bytes buf -> is_bytes r.
Proof using Hbytes.
  revert addr buf. induction fuel as [|fuel IH]; intros addr buf; cbn [heap_loop]; [done|]. dif; [|by intros [= <-]].
  destruct (query regions addr) as [m|]; [|by intros [= <-]]. repeat (dif; [by intros [= <-]|]).
  destruct (SarCaptureCopyResident _ _ _) as [got| |] eqn:Hg; cbn [cbind]; [|done..]. intros Hr Hb.
  eapply IH; [exact Hr|]. apply Forall_app. split; [done|]. by eapply copy_pages_bytes; [exact Hg|].
Qed.

Lemma heaps_loop_bytes hs Cap buf r : heaps_loop hs Cap buf = Ret r -> is_bytes buf -> is_bytes r.
Proof using Hbytes.
  revert buf. induction hs as [|h hs IH]; intros buf; cbn [heaps_loop]; [by intros [= <-]|]. dif; [|by intros [= <-]].
  destruct (SarCaptureSnapshotHeap _ _) as [got| |] eqn:Hg; cbn [cbind]; [|done..]. intros Hr Hb.
  eapply IH; [exact Hr|]. apply Forall_app. split; [done|]. by eapply heap_loop_bytes; [exact Hg|].
Qed.

Lemma regions_loop_bytes fuel hs addr Cap buf r : regions_loop fuel hs addr Cap buf = Ret r -> is_bytes buf -> is_bytes r.
Proof using Hbytes.
  revert addr buf. induction fuel as [|fuel IH]; intros addr buf; cbn [regions_loop]; [done|]. dif; [|by intros [= <-]].
  destruct (query regions addr) as [m|]; [|by intros [= <-]]. dif; [by intros [= <-]|].
  destruct (if scannable m && _ then _ else _) as [got| |] eqn:Hg; cbn [cbind]; [|done..]. intros Hr Hb.
  eapply IH; [exact Hr|]. apply Forall_app. split; [done|]. revert Hg. dif; [|by intros [= <-]].
  intros Hg. by eapply copy_pages_bytes; [exact Hg|].
Qed.

Lemma snapshot_bytes heaps Cap r : SarCaptureSnapshotProcess heaps Cap = Ret r -> is_bytes r.
Proof using Hbytes.
  unfold SarCaptureSnapshotProcess. destruct (heaps_loop _ _ _) as [buf| |] eqn:Hh; cbn [cbind]; [|done..].
  intros Hr. eapply regions_loop_bytes; [exact Hr|]. by eapply heaps_loop_bytes; [exact Hh|].
Qed.

(** Property C17: a key in memory reaches the search.  For every address space of
    regions that follow each other the snapshot ends and stays within its buffer;
    and unless the buffer is full, it holds in one piece every resident page of a
    region of committed, private, writable memory, when the pages of the region
    are less than the share of one region (1 MB) and, if a heap starts in the
    region, one starts in the page or before it. *)
Theorem snapshot_holds_pages heaps Cap :
  0 <= Cap ->
  exists snap, SarCaptureSnapshotProcess heaps Cap = Ret snap /\ Z.of_nat (length snap) <= Cap /\
    (Z.of_nat (length snap) < Cap -> forall m k page, m ∈ regions -> scannable m = true -> small m ->
     (k < page_count (RegionSize m))%nat -> reached heaps m (BaseAddress m + PAGE_SIZE * Z.of_nat k) ->
     resident (BaseAddress m + PAGE_SIZE * Z.of_nat k) = Some page -> part_of page snap).
Proof using Hpages Hregions Htiled. apply snapshot_pages. Qed.

End Snapshot.

(** Two pages of a heap, of which the second is resident. *)
Definition demo_regions : list MEMORY_BASIC_INFORMATION :=
  [{| BaseAddress := 0; RegionSize := 0x10000; State := 0x10000; Type_ := 0; Protect := 1 |};
   {| BaseAddress := 0x10000; RegionSize := 0x2000; State := MEM_COMMIT; Type_ := MEM_PRIVATE;
      Protect := PAGE_READWRITE |}].
Definition demo_page : bytes := replicate 4096 7.
Definition demo_resident (p : Z) : option bytes := if p =? 0x11000 then Some demo_page else None.

Lemma snapshot_holds_pages_witness :
  exists snap, SarCaptureSnapshotProcess demo_regions demo_resident (Some [0; 0x10010]) 8192 = Ret snap /\
    part_of demo_page snap.
Proof.
  destruct (snapshot_holds_pages demo_regions demo_resident) with (heaps := Some [0; 0x10010]) (Cap := 8192)
    as (snap&Hs&Hl&Hp).
  - intros p page. unfold demo_resident. destruct (p =? 0x11000); [|done]. intros [= <-]. by vm_compute.
  - repeat constructor; vm_compute; done.
  - by vm_compute.
  - lia.
  - exists snap. split; [done|].
    assert (Hlen : match SarCaptureSnapshotProcess demo_regions demo_resident (Some [0; 0x10010]) 8192 with
                   | Ret b => Z.of_nat (length b) <? 8192 | _ => false end = true) by by vm_compute.
    rewrite Hs in Hlen. bsimp.
    apply (Hp Hlen {| BaseAddress := 0x10000; RegionSize := 0x2000; State := MEM_COMMIT; Type_ := MEM_PRIVATE;
      Protect := PAGE_READWRITE |} 1%nat); [right; left|done|done|vm_compute; lia| |done].
    intros h Hh _. exists 0x10010. split; [by left|by vm_compute].
Defined.

End Snapshot.
