(* ===== verification/CaptureWork.v ===== *)
(** * Capturing keys (driver/capture.c, driver/seam.c)

    A write is submitted with a sample of what the stream held before; a worker
    then classifies it, takes a snapshot of the writing process, searches the
    key and, when the write is proved to be an encryption, stores the key,
    drops the copies it replaces, and blocks the process. *)

From stdpp Require Import gmap.
From S2P Require Import Prelude Mem Format Chain Keystore Protocol Whitelist Preserve EventLog DriverState.
From S2P Require Import Gate Capture DriverPreserve KeystorePersist Streams Calls DriverRecovery CaptureSeam Snapshot.
Import Mem Layout Protocol Preserve Whitelist Streams CaptureSeam.
Import DriverState (SAR_STATE, eventlog, log_event, SarStateModeGet, SarStateIdentityLookup).
Import DriverPreserve (SAR_PRESERVE, SarPreserveStage, SarPreserveReconcile, SarPreservePromote,
  SarPreserveWouldExceed, SarPreserveRelease).
Import DriverRecovery (SAR_PRESERVE_STAGE_MAX).

Module CaptureWork.

Definition SAR_CAPTURE_INFLIGHT_CAP : Z := 256.
Definition SAR_SCANNED_CAPACITY : Z := 256.
Definition SAR_CANDIDATE_SIZE : Z := 16.

Inductive sar_destruct_member_t :=
  | SAR_DESTRUCT_NONE | SAR_DESTRUCT_WRITE_CACHED | SAR_DESTRUCT_WRITE_NONCACHED | SAR_DESTRUCT_WRITE_PAGING
  | SAR_DESTRUCT_SET_EOF | SAR_DESTRUCT_SET_ALLOCATION | SAR_DESTRUCT_DISPOSITION | SAR_DESTRUCT_DISPOSITION_EX
  | SAR_DESTRUCT_RENAME | SAR_DESTRUCT_RENAME_EX | SAR_DESTRUCT_LINK | SAR_DESTRUCT_LINK_EX
  | SAR_DESTRUCT_DUPLICATE_EXTENTS | SAR_DESTRUCT_OFFLOAD_WRITE | SAR_DESTRUCT_SET_ZERO_DATA
  | SAR_DESTRUCT_FILE_LEVEL_TRIM | SAR_DESTRUCT_SET_SPARSE | SAR_DESTRUCT_LOCK_VOLUME
  | SAR_DESTRUCT_DISMOUNT_VOLUME | SAR_DESTRUCT_SECTION_SYNC.

#[global] Instance member_eq_dec : EqDecision sar_destruct_member_t.
Proof. solve_decision. Defined.

(** The number of a member. *)
Definition member_index (m : sar_destruct_member_t) : nat :=
  match m with
  | SAR_DESTRUCT_NONE => 0 | SAR_DESTRUCT_WRITE_CACHED => 1 | SAR_DESTRUCT_WRITE_NONCACHED => 2
  | SAR_DESTRUCT_WRITE_PAGING => 3 | SAR_DESTRUCT_SET_EOF => 4 | SAR_DESTRUCT_SET_ALLOCATION => 5
  | SAR_DESTRUCT_DISPOSITION => 6 | SAR_DESTRUCT_DISPOSITION_EX => 7 | SAR_DESTRUCT_RENAME => 8
  | SAR_DESTRUCT_RENAME_EX => 9 | SAR_DESTRUCT_LINK => 10 | SAR_DESTRUCT_LINK_EX => 11
  | SAR_DESTRUCT_DUPLICATE_EXTENTS => 12 | SAR_DESTRUCT_OFFLOAD_WRITE => 13 | SAR_DESTRUCT_SET_ZERO_DATA => 14
  | SAR_DESTRUCT_FILE_LEVEL_TRIM => 15 | SAR_DESTRUCT_SET_SPARSE => 16 | SAR_DESTRUCT_LOCK_VOLUME => 17
  | SAR_DESTRUCT_DISMOUNT_VOLUME => 18 | SAR_DESTRUCT_SECTION_SYNC => 19
  end%nat.

Definition SAR_DESTRUCT_MEMBER_COUNT : nat := 20.

Definition SarCaptureMemberCapturable (m : sar_destruct_member_t) : bool :=
  match m with SAR_DESTRUCT_WRITE_CACHED | SAR_DESTRUCT_WRITE_NONCACHED => true | _ => false end.

(** ** Counters *)

Definition bump (i : nat) (l : list Z) : list Z := alter (fun n => n + 1) i l.

Definition SarSeamCoverageReset : SAR_SEAM_COVERAGE :=
  {| capture_seam_counts := replicate SAR_DESTRUCT_MEMBER_COUNT 0;
     metadata_seam_counts := replicate SAR_DESTRUCT_MEMBER_COUNT 0 |}.
Definition SarSeamWriteSubmit (m : sar_destruct_member_t) (s : SAR_SEAM_COVERAGE) : SAR_SEAM_COVERAGE :=
  {| capture_seam_counts := bump (member_index m) (capture_seam_counts s);
     metadata_seam_counts := metadata_seam_counts s |}.
Definition SarSeamMetadataSubmit (m : sar_destruct_member_t) (s : SAR_SEAM_COVERAGE) : SAR_SEAM_COVERAGE :=
  {| capture_seam_counts := capture_seam_counts s;
     metadata_seam_counts := bump (member_index m) (metadata_seam_counts s) |}.

Definition set_counters (inf mm skips pressure preload : Z) (c : SAR_CAPTURE_CTX) : SAR_CAPTURE_CTX :=
  {| blocked := blocked c; inflight := inf; mmap_inflight := mm; whitelist_skips := skips;
     pressure_drops := pressure; preload_drops := preload; scanned := scanned c |}.
Definition set_inflight (n : Z) (c : SAR_CAPTURE_CTX) : SAR_CAPTURE_CTX :=
  set_counters n (mmap_inflight c) (whitelist_skips c) (pressure_drops c) (preload_drops c) c.
Definition set_mmap_inflight (n : Z) (c : SAR_CAPTURE_CTX) : SAR_CAPTURE_CTX :=
  set_counters (inflight c) n (whitelist_skips c) (pressure_drops c) (preload_drops c) c.
Definition add_skip (c : SAR_CAPTURE_CTX) : SAR_CAPTURE_CTX :=
  set_counters (inflight c) (mmap_inflight c) (whitelist_skips c + 1) (pressure_drops c) (preload_drops c) c.
Definition add_pressure (c : SAR_CAPTURE_CTX) : SAR_CAPTURE_CTX :=
  set_counters (inflight c) (mmap_inflight c) (whitelist_skips c) (pressure_drops c + 1) (preload_drops c) c.
Definition add_preload (c : SAR_CAPTURE_CTX) : SAR_CAPTURE_CTX :=
  set_counters (inflight c) (mmap_inflight c) (whitelist_skips c) (pressure_drops c) (preload_drops c + 1) c.
Definition set_scanned (l : list Z) (c : SAR_CAPTURE_CTX) : SAR_CAPTURE_CTX :=
  {| blocked := blocked c; inflight := inflight c; mmap_inflight := mmap_inflight c;
     whitelist_skips := whitelist_skips c; pressure_drops := pressure_drops c;
     preload_drops := preload_drops c; scanned := l |}.

(** The four allocations. *)
Definition SarCaptureCreate (ctx_ok blocked_ok pool_ok scanned_ok : bool) : option SAR_CAPTURE_CTX :=
  if ctx_ok && blocked_ok && pool_ok && scanned_ok
  then Some {| blocked := []; inflight := 0; mmap_inflight := 0; whitelist_skips := 0; pressure_drops := 0;
               preload_drops := 0; scanned := [] |}
  else None.

Definition SarCaptureInflight (c : option SAR_CAPTURE_CTX) : Z :=
  match c with Some c => inflight c + mmap_inflight c | None => 0 end.

Section Work.
Context {F : Type} `{DataFile F, AesCbc}.
Context (upcase : Z -> Z).
Implicit Types d : driver F.

Definition set_state (st : SAR_STATE) d : driver F :=
  {| state := st; log := log d; preserve := preserve d; keystore := keystore d;
     capture := capture d; streams := streams d; links := links d; queue := queue d;
     seam := seam d; sysroot := sysroot d |}.

(** ** Submitting a write *)

(** [SAR_WRITE_SEAM_REQUEST]: what the code reads of it. *)
Record SAR_WRITE_SEAM_REQUEST := {
  originator : process;
  member : sar_destruct_member_t;
  write_offset : Z;
  wlength : Z;
  wpre_image : bytes;
  provenance_override : option (list Z)
}.

(** The answers: rundown protection, the work entry with what the memory held
    before, the work item, the normalized name, the bytes being written if they
    can be read, and the queue. *)
Record submit_env := {
  se_rundown : bool;
  se_work : option (list Z);
  se_item : bool;
  se_name : option (list Z);
  se_written : option bytes;
  se_queued : bool
}.

(** The path copied into a buffer with the content [stale]. *)
Definition copy_path (stale path : list Z) : list Z :=
  mem_write stale 0 (take (SEMANTICS_AR_PROVENANCE_PATH_MAX - 1) (path_chars path) ++ [0]).

Definition SarCaptureCopyWritten (data : option bytes) : bytes :=
  take (Z.to_nat SAR_CAPTURE_BUFFER_BYTES) (default [] data).

Definition SarCaptureSubmitWrite (env : submit_env) (Request : SAR_WRITE_SEAM_REQUEST) d : driver F :=
  let d := set_seam (SarSeamWriteSubmit (member Request) (seam d)) d in
  match capture d with
  | None => d
  | Some c =>
    if negb (SarCaptureMemberCapturable (member Request)) then d
    else if negb (KeystorePersist.SarKeystoreReady (keystore d)) then set_capture (add_preload c) d
    else if identity_exempt (originator Request) d then set_capture (add_skip c) d
    else if Z.of_nat (length (wpre_image Request)) <? SAR_CANDIDATE_SIZE then d
    else if SAR_CAPTURE_INFLIGHT_CAP <? inflight c + 1 then set_capture (add_pressure c) d
    else if negb (se_rundown env) then d
    else
      match se_work env with
      | None => d
      | Some stale =>
        if negb (se_item env) then d
        else
          let path := match provenance_override Request with
                      | Some p => copy_path stale p
                      | None => SarCaptureResolveProvenance (se_name env)
                      end in
          if SarCapturePathExempt upcase (sysroot d) path then d
          else
            let work :=
              {| originator_process := Some (originator Request); file_offset := write_offset Request;
                 write_length := wlength Request;
                 pre_image := take (Z.to_nat SAR_CAPTURE_BUFFER_BYTES) (wpre_image Request);
                 written := SarCaptureCopyWritten (se_written env);
                 provenance_path := path; provenance_offset := write_offset Request; actor_key := 0;
                 preserve_buf := None; preserve_only := false; read_by_path := false;
                 mmap_backed := false; mmap_admitted := false; stream_ctx := None |} in
            if se_queued env then set_queue (queue d ++ [work]) (set_capture (set_inflight (inflight c + 1) c) d)
            else d
      end
  end.

(** ** The worker *)

(** Giving back [Bytes] of the reservation of a stream. *)
Definition SarMmapReleaseStaged (s Bytes : Z) d : driver F :=
  match streams d !! s with
  | Some sc =>
    let cur := mmap_reserved sc in
    if cur <=? 0 then d
    else
      let rel := if cur <? Bytes then cur else Bytes in
      let d := set_stream s (set_reserved (cur - rel) sc) d in
      match preserve d with
      | Some (p, f) => set_preserve (SarPreserveRelease p rel) f d
      | None => d
      end
  | None => d
  end.

(** The answers during one run: the two allocations, the memory for the
    snapshot, whether the process can be attached to and its environment block
    is known, its memory, times, the staging calls, a file read by its path, and
    whether a client is connected. *)
Record worker_env := {
  wk_map : bool;
  wk_result : bool;
  wk_scan : bool;
  wk_attach : bool;
  wk_regions : list Snapshot.MEMORY_BASIC_INFORMATION;
  wk_resident : Z -> option bytes;
  wk_heaps : option (list Z);
  wk_now : Z;
  wk_stage : stage_call;
  wk_read : option bytes;
  wk_client : bool
}.

Definition SarCapturePreserveFromWork (env : worker_env) (w : SAR_CAPTURE_WORK) d : cres (driver F) :=
  match preserve d, originator_process w with
  | Some (p, f), Some pr =>
    if negb (DriverPreserve.ready p) then Ret d
    else if (write_length w =? 0) || (SAR_PRESERVE_STAGE_MAX <? write_length w) then Ret d
    else if (SarStateModeGet (state d) =? SEMANTICS_AR_MODE_ENFORCE) && SarPreserveWouldExceed (Some p) (write_length w)
    then Ret (SarCaptureNoteCapacityRefusal (wk_now env) pr d)
    else
      match preserve_buf w with
      | None => Ret d
      | Some buf =>
        if (Z.of_nat (length buf) <? write_length w) || (rd (provenance_path w) 0 =? 0) then Ret d
        else
          let n := Z.of_nat (length (pre_image w)) in
          let v := if n <? write_length w then n else write_length w in
          let v := if SAR_CAPTURE_BUFFER_BYTES <? v then SAR_CAPTURE_BUFFER_BYTES else v in
          if (0 <? v) && bool_decide (take (Z.to_nat v) buf = take (Z.to_nat v) (pre_image w)) then
            let! (_, p, f) := SarPreserveStage (call_env (wk_stage env)) p f (Some (state d)) (call_now (wk_stage env))
                                (provenance_path w) (file_offset w) (write_length w) (start_key pr)
                                (take (Z.to_nat (write_length w)) buf) false in
            Ret (set_preserve p f d)
          else Ret d
      end
  | _, _ => Ret d
  end.

Definition SarCapturePreserveDestruction (env : worker_env) (w : SAR_CAPTURE_WORK) d : cres (driver F) :=
  match preserve d with
  | None => Ret d
  | Some (p, f) =>
    if negb (DriverPreserve.ready p) || (rd (provenance_path w) 0 =? 0) then Ret d
    else
      match (if read_by_path w then wk_read env else preserve_buf w) with
      | None | Some [] => Ret d
      | Some data =>
        let actor := match originator_process w with Some pr => start_key pr | None => actor_key w end in
        let! (_, p, f) := SarPreserveStage (call_env (wk_stage env)) p f (Some (state d)) (call_now (wk_stage env))
                            (provenance_path w) (provenance_offset w) (Z.of_nat (length data)) actor data
                            (mmap_backed w) in
        Ret (set_preserve p f d)
      end
  end.

(** The state and the notification that is sent. *)
Definition SarCaptureCommit (env : worker_env) (rec : KsRec.semantics_ar_keystore_record_t)
    (notify : Capture.notify_t) (Originator : process) (ks : KeystorePersist.SAR_KEYSTORE) (c : SAR_CAPTURE_CTX)
    d : cres (driver F * option Capture.notify_t) :=
  let '(appended, ks, count) := KeystorePersist.SarKeystoreAppend ks (DriverState.captured_key_count (state d)) rec in
  let st := state d in
  let d := set_state {| DriverState.mode := DriverState.mode st; DriverState.whitelist := DriverState.whitelist st;
                        DriverState.identity_buckets := DriverState.identity_buckets st;
                        DriverState.identity_bucket_count := DriverState.identity_bucket_count st;
                        DriverState.captured_key_count := count |} (set_keystore ks d) in
  let sent := if (appended =? 1) && wk_client env then Some notify else None in
  let d := if appended =? 1
           then set_log (log_event (log d) (wk_now env) SAR_EVENT_CLASS_KEY_CAPTURED (KsRec.actor_start_key rec)) d
           else d in
  let! d :=
    match preserve d with
    | None => Ret d
    | Some (p, f) =>
      let! (p, gone) :=
        if (appended =? 1) || (appended =? 0)
        then SarPreserveReconcile p (KsRec.provenance_path rec) (KsRec.provenance_offset rec) (KsRec.provenance_length rec)
        else Ret (p, []) in
      Ret (set_links (foldr delete (links d) gone) (set_preserve (SarPreservePromote p (start_key Originator)) f d))
    end in
  if SarStateModeGet (state d) =? SEMANTICS_AR_MODE_ENFORCE then
    let '(c, l) := SarCaptureBlockOriginator (wk_now env) c Originator SAR_EVENT_CLASS_BLOCK_FORWARD (log d) in
    Ret (set_capture c (set_log l d), sent)
  else Ret (d, sent).

Definition gate_map : bytes := replicate Gate.SAR_GATE_MAP_BYTES 0.

(** The snapshot: [work->scan] and its length, and the table of processes that
    have been scanned.  A process is scanned once. *)
Definition worker_scan (env : worker_env) (pr : process) (candidate : bool) (c : SAR_CAPTURE_CTX)
    : cres (option bytes * SAR_CAPTURE_CTX) :=
  if negb candidate || existsb (Z.eqb (eprocess pr)) (scanned c) || negb (wk_scan env) then Ret (None, c)
  else
    let! snap := if wk_attach env
                 then Snapshot.SarCaptureSnapshotProcess (wk_regions env) (wk_resident env) (wk_heaps env)
                        Snapshot.SAR_CAPTURE_HEAP_BUDGET
                 else Ret [] in
    Ret (Some snap, if Z.of_nat (length (scanned c)) <? SAR_SCANNED_CAPACITY
                    then set_scanned (scanned c ++ [eprocess pr]) c else c).

(** The request for the engine. *)
Definition worker_request (env : worker_env) (w : SAR_CAPTURE_WORK) (pr : process) (sample : nat)
    (scan : option bytes) : Capture.sar_capture_request_t :=
  {| Capture.plaintext := Some (pre_image w); Capture.ciphertext := Some (written w); Capture.sample_size := sample;
     Capture.file_offset := file_offset w; Capture.candidates := []; Capture.scan_buffer := scan;
     Capture.scan_length := length (default [] scan); Capture.provenance_path := Some (provenance_path w);
     Capture.provenance_offset := provenance_offset w; Capture.provenance_length := write_length w;
     Capture.capture_time := wk_now env; Capture.actor_start_key := start_key pr |}.

(** The part of the worker for a sampled write.  The classification clears the
    map first, so the engine's classification on the used map has the same
    result. *)
Definition worker_sample (env : worker_env) (w : SAR_CAPTURE_WORK) (pr : process) (c : SAR_CAPTURE_CTX)
    (ks : KeystorePersist.SAR_KEYSTORE) d : cres (driver F * option Capture.notify_t) :=
  let sample := Nat.min (length (pre_image w)) (length (written w)) in
  let gate := Gate.sar_gate_classify gate_map (pre_image w) (written w) sample in
  let! (scan, c) := worker_scan env pr (Gate.candidate gate) c in
  let d := set_capture c d in
  let result := Capture.sar_capture_run (Some (worker_request env w pr sample scan)) (Some gate_map)
                  (Some (KeystorePersist.mac_key ks)) in
  match Capture.outcome result, Capture.record result, Capture.notify result with
  | Capture.SAR_CAPTURE_CONVICTED, Some rec, Some notify => SarCaptureCommit env rec notify pr ks c d
  | _, _, _ =>
    if Gate.candidate gate then let! d := SarCapturePreserveFromWork env w d in Ret (d, None)
    else Ret (d, None)
  end.

(** [cleanup]: the slot of the work item is free again. *)
Definition worker_done (w : SAR_CAPTURE_WORK) d : driver F :=
  match capture d with
  | Some c => set_capture (if mmap_admitted w then set_mmap_inflight (mmap_inflight c - 1) c
                           else set_inflight (inflight c - 1) c) d
  | None => d
  end.

Definition SarCaptureWorker (env : worker_env) (w : SAR_CAPTURE_WORK) d : cres (driver F * option Capture.notify_t) :=
  if preserve_only w then
    let! d := SarCapturePreserveDestruction env w d in
    let d := match stream_ctx w with
             | Some s => if mmap_backed w
                         then SarMmapReleaseStaged s
                                (u64 (Z.of_nat (length (default [] (preserve_buf w))) + 15) .& Z.lnot 15) d
                         else d
             | None => d
             end in
    Ret (worker_done w d, None)
  else
    match originator_process w, capture d, keystore d with
    | Some pr, Some c, Some ks =>
      if wk_map env && wk_result env && (SAR_CANDIDATE_SIZE <=? Z.of_nat (length (pre_image w))) &&
         (SAR_CANDIDATE_SIZE <=? Z.of_nat (length (written w)))
      then
        let! (d, sent) := worker_sample env w pr c ks d in
        Ret (worker_done w d, sent)
      else Ret (worker_done w d, None)
    | _, _, _ => Ret (worker_done w d, None)
    end.

End Work.

End CaptureWork.
