(* ===== verification/Mmap.v ===== *)
(** * Mapped files (driver/capture.c)

    A process that maps a file for writing changes it through the memory manager,
    whose page writes cannot be refused.  When the section is created the
    driver reads the layout of the file; at each page write it reads the old
    bytes from the disk itself, by extents, and queues them for the
    preservation store. *)

From stdpp Require Import gmap.
From S2P Require Import Prelude Mem Format Chain Keystore Protocol Whitelist Preserve EventLog DriverState.
From S2P Require Import DriverPreserve KeystorePersist Streams Calls DriverRecovery CaptureSeam Snapshot CaptureWork.
Import Mem Layout Protocol Preserve Streams CaptureSeam CaptureWork.
Import DriverState (SarStateModeGet).
Import DriverPreserve (SAR_PRESERVE, SAR_STAGE_RESULT, SAR_STAGE_STORED, SAR_STAGE_ALREADY_COVERED,
  SAR_STAGE_DROPPED, SAR_STAGE_FAILED, SarPreserveReserve, SarPreserveRelease).

Module Mmap.

Definition SAR_RAW_CHUNK : Z := 256 * 1024.
Definition SAR_MMAP_INFLIGHT_CAP : Z := 128.

(** ** The layout of a file *)

(** One answer of FSCTL_GET_RETRIEVAL_POINTERS: its status, the first cluster,
    and for each extent the cluster after it and its place on the disk. *)
Record retrieval := {
  overflow : bool;
  starting_vcn : Z;
  pointers : list (Z * Z)
}.

(** The extents of one answer; [prev] is the cluster where the next begins.
    [room i] is whether the array can grow when it holds [i] extents. *)
Fixpoint add_extents (room : nat -> bool) (Bpc : Z) (ps : list (Z * Z)) (prev covered : Z) (cap : nat)
    (out : list SAR_EXTENT) : list SAR_EXTENT * Z * nat * bool :=
  match ps with
  | [] => (out, covered, cap, true)
  | (next, lcn) :: ps =>
    let grow := (cap <=? length out)%nat in
    if grow && negb (room (length out)) then (out, covered, cap, false)
    else
      let e := {| vcn_byte := u64 (prev * Bpc); ext_len := u64 (u64 (next - prev) * Bpc);
                  lcn_byte := if lcn <? 0 then -1 else lcn * Bpc |} in
      add_extents room Bpc ps next next (if grow then 2 * cap else cap)%nat (out ++ [e])
  end.

(** The loop over the answers; [None] is an error of the file system. *)
Fixpoint map_loop (room : nat -> bool) (Bpc : Z) (answers : list (option retrieval)) (covered : Z) (cap : nat)
    (out : list SAR_EXTENT) : list SAR_EXTENT * Z :=
  match answers with
  | Some r :: answers =>
    let '(out, covered, cap, go) := add_extents room Bpc (pointers r) (starting_vcn r) covered cap out in
    if go && overflow r && (0 <? length (pointers r))%nat then map_loop room Bpc answers covered cap out
    else (out, covered)
  | _ => (out, covered)
  end.

Definition SarBuildExtentMap (ret_alloc map_alloc : bool) (room : nat -> bool) (answers : list (option retrieval))
    (Bpc Bps : Z) : option SAR_EXTENT_MAP :=
  if negb ret_alloc || negb map_alloc then None
  else
    let '(out, covered) := map_loop room Bpc answers 0 16 [] in
    match out with
    | [] => None
    | _ => Some {| sector_size := if negb (Bps =? 0) then Bps else 512; covered_len := u64 (covered * Bpc); ext := out |}
    end.

Definition SarFindExtent (Map : SAR_EXTENT_MAP) (Pos : Z) : option SAR_EXTENT :=
  List.find (fun e => (vcn_byte e <=? Pos) && (Pos <? u64 (vcn_byte e + ext_len e))) (ext Map).

(** ** Reading the disk *)

Section Disk.
(** [SarMmapDiskRead] at call [k]: the bytes, or [None] for a failure. *)
Context (disk : nat -> Z -> Z -> option bytes).
(** The scratch buffer of call [k]. *)
Context (scratch : nat -> bool).

(** The result is [None] for SAR_STAGE_FAILED, or the bytes and the next call. *)
Fixpoint read_loop (fuel k : nat) (Map : SAR_EXTENT_MAP) (sector cursor logEnd : Z) (buf : bytes)
    : cres (option (bytes * nat)) :=
  match fuel with
  | O => NoFuel
  | S fuel =>
    if cursor <? logEnd then
      match SarFindExtent Map cursor with
      | None => Ret None
      | Some ex =>
        let extEnd := u64 (vcn_byte ex + ext_len ex) in
        let step := if extEnd - cursor <? logEnd - cursor then extEnd - cursor else logEnd - cursor in
        if lcn_byte ex <? 0
        then read_loop fuel k Map sector (u64 (cursor + step)) logEnd (buf ++ replicate (Z.to_nat step) 0)
        else
          let diskOff := u64 (lcn_byte ex + (cursor - vcn_byte ex)) in
          let aStart := diskOff .& Z.lnot (sector - 1) in
          let aEnd := u64 (diskOff + step + sector - 1) .& Z.lnot (sector - 1) in
          let readLen := u32 (aEnd - aStart) in
          if negb (scratch k) then Ret None
          else
            match disk k aStart readLen with
            | None => Ret None
            | Some data =>
              read_loop fuel (S k) Map sector (u64 (cursor + step)) logEnd
                (buf ++ take (Z.to_nat step) (drop (Z.to_nat (diskOff - aStart)) data))
            end
      end
    else Ret (Some (buf, k))
  end.

Definition SarMmapReadRange (k : nat) (Map : SAR_EXTENT_MAP) (Start Len : Z) : cres (option (bytes * nat)) :=
  let sector := if negb (sector_size Map =? 0) then sector_size Map else 512 in
  read_loop (S (length (ext Map))) k Map sector Start (u64 (Start + Len)) [].

End Disk.

(** ** Arming a stream *)

Section Mmap.
Context {F : Type} `{DataFile F, AesCbc}.
Context (upcase : Z -> Z).
Implicit Types d : driver F.

(** The start key of the arming process if it can be looked up; the normalized
    name; the instance context with the sizes of clusters and
    sectors; and what the map is built from. *)
Record arm_env := {
  ae_key : option Z;
  ae_name : option (list Z);
  ae_instance : option (Z * Z);
  ae_ret : bool;
  ae_map : bool;
  ae_room : nat -> bool;
  ae_answers : list (option retrieval)
}.

(** The buffer for the path comes zeroed from the pool. *)
Definition SarMmapResolvePath (env : arm_env) (path_alloc : bool) (Sc : SAR_STREAM_CONTEXT) : SAR_STREAM_CONTEXT :=
  match mmap_path Sc, ae_name env with
  | None, Some n =>
    if path_alloc
    then set_mmap (mmap_map Sc) (Some (SarCaptureResolveProvenance (Some n))) (mmap_arm_pid Sc) (mmap_arm_key Sc) Sc
    else Sc
  | _, _ => Sc
  end.

Definition SarMmapResolveMap (env : arm_env) (Sc : SAR_STREAM_CONTEXT) : SAR_STREAM_CONTEXT :=
  match mmap_map Sc, mmap_path Sc, ae_instance env with
  | None, Some _, Some (bpc, bps) =>
    if bpc =? 0 then Sc
    else
      match SarBuildExtentMap (ae_ret env) (ae_map env) (ae_room env) (ae_answers env) bpc bps with
      | Some map => set_mmap (Some map) (mmap_path Sc) (mmap_arm_pid Sc) (mmap_arm_key Sc) Sc
      | None => Sc
      end
  | _, _, _ => Sc
  end.

Definition SarMmapArm (env : arm_env) (path_alloc : bool) (ArmPid : Z) (Sc : SAR_STREAM_CONTEXT) : SAR_STREAM_CONTEXT :=
  let Sc := if mmap_arm_pid Sc =? 0
            then set_mmap (mmap_map Sc) (mmap_path Sc) ArmPid (default 0 (ae_key env)) Sc else Sc in
  match mmap_map Sc with
  | Some _ => Sc
  | None =>
    let Sc := SarMmapResolvePath env path_alloc Sc in
    if SarMmapPathExcluded (mmap_path Sc) then Sc else SarMmapResolveMap env Sc
  end.

(** When the context of a stream goes away, what is left of its reservation is
    given back. *)
Definition SarStreamContextCleanup (s : Z) d : driver F :=
  match streams d !! s with
  | Some sc =>
    let d := match preserve d with
             | Some (p, f) => if negb (mmap_reserved sc =? 0)
                              then set_preserve (SarPreserveRelease p (u64 (mmap_reserved sc))) f d else d
             | None => d
             end in
    set_streams (delete s (streams d)) d
  | None => d
  end.

(** ** A page write *)

(** The answers to [SarMmapDeferPreserve]: rundown protection, the work entry,
    the work item and the queue. *)
Record defer_env := {
  de_rundown : bool;
  de_work : option (list Z);
  de_item : bool;
  de_queued : bool
}.

Definition SarMmapDeferPreserve (env : defer_env) (s Offset : Z) (Buf : bytes) (ActorKey : Z) (Backed : bool)
    (Path : list Z) d : driver F :=
  match capture d with
  | None => d
  | Some c =>
    if SAR_MMAP_INFLIGHT_CAP <? mmap_inflight c + 1 then set_capture (add_pressure c) d
    else if negb (de_rundown env) then d
    else
      match de_work env with
      | None => d
      | Some stale =>
        if negb (de_item env) then d
        else
          let work :=
            {| originator_process := None; file_offset := Offset; write_length := Z.of_nat (length Buf);
               pre_image := []; written := []; provenance_path := copy_path stale Path;
               provenance_offset := Offset; actor_key := ActorKey; preserve_buf := Some Buf;
               preserve_only := true; read_by_path := false; mmap_backed := Backed; mmap_admitted := true;
               stream_ctx := Some s |} in
          if de_queued env
          then set_queue (queue d ++ [work]) (set_capture (set_mmap_inflight (mmap_inflight c + 1) c) d)
          else d
      end
  end.

(** The answers to one page write: the disk of the instance, if its context is
    there; the buffer, the range array and the work item of each piece; the
    start key of the acting process, if it is still there, and what answers the
    submission. *)
Record inline_env := {
  ie_disk : option (nat -> Z -> Z -> option bytes);
  ie_scratch : nat -> bool;
  ie_buf : nat -> bool;
  ie_array : nat -> bool;
  ie_defer : nat -> defer_env;
  ie_actor : option process;
  ie_submit : submit_env
}.

(** The loop over the pieces; [i] is the number of the piece, [k] of the disk
    read.  The result is [anyStored] and [preHead]. *)
Fixpoint inline_loop (fuel : nat) (env : inline_env) (disk : nat -> Z -> Z -> option bytes) (i k : nat) (s : Z)
    (map : SAR_EXTENT_MAP) (path : list Z) (Actor : Z) (backed oracle : bool) (cursor logEnd : Z)
    (preHead : bytes) (anyStored : bool) d : cres (bool * bytes * driver F) :=
  match fuel with
  | O => NoFuel
  | S fuel =>
    if cursor <? logEnd then
      let step := if SAR_RAW_CHUNK <? logEnd - cursor then SAR_RAW_CHUNK else logEnd - cursor in
      if negb (ie_buf env i) then Ret (anyStored, preHead, d)
      else
        let! r := SarMmapReadRange disk (ie_scratch env) k map cursor step in
        match r with
        | None => Ret (anyStored, preHead, d)
        | Some (buf, k) =>
          let preHead := if oracle && (Z.of_nat (length preHead) <? SAR_CANDIDATE_SIZE)
                         then preHead ++ take (Z.to_nat (SAR_CAPTURE_BUFFER_BYTES - Z.of_nat (length preHead))) buf
                         else preHead in
          let d := match streams d !! s with
                   | Some sc => set_stream s (SarCapRangeInsert (ie_array env i) cursor (u64 (cursor + step)) sc).2 d
                   | None => d
                   end in
          let d := SarMmapDeferPreserve (ie_defer env i) s cursor buf Actor backed path d in
          inline_loop fuel env disk (S i) k s map path Actor backed oracle (u64 (cursor + step)) logEnd preHead true d
        end
    else Ret (anyStored, preHead, d)
  end.

(** The reservation that is tried once in ENFORCE mode. *)
Definition inline_reserve (s : Z) (sc : SAR_STREAM_CONTEXT) (map : SAR_EXTENT_MAP) d : driver F :=
  if (SarStateModeGet (state d) =? SEMANTICS_AR_MODE_ENFORCE) && (mmap_reserved sc =? 0) &&
     negb (has_flag sc SAR_STREAMCTX_FLAG_MMAP_RESERVE_TRIED) then
    let est := u64 (covered_len map + covered_len map / 16) in
    let sc := or_flags SAR_STREAMCTX_FLAG_MMAP_RESERVE_TRIED sc in
    match preserve d with
    | Some (p, f) =>
      let '(ok, p) := SarPreserveReserve p est in
      set_stream s (if ok then set_reserved est sc else sc) (set_preserve p f d)
    | None => set_stream s sc d
    end
  else d.

Definition SarMmapCaptureInline (env : inline_env) (passive : bool) (s : Z) (sc : SAR_STREAM_CONTEXT) (Actor : Z)
    (Offset Length : Z) d : cres (SAR_STAGE_RESULT * driver F) :=
  match mmap_map sc, mmap_path sc with
  | Some map, Some path =>
    if negb passive then Ret (SAR_STAGE_FAILED, d)
    else if covered_len map <? u64 (Offset + Length) then Ret (SAR_STAGE_STORED, d)
    else if SarMmapRangeCovered sc Offset Length then Ret (SAR_STAGE_ALREADY_COVERED, d)
    else
      match ie_disk env with
      | None => Ret (SAR_STAGE_FAILED, d)
      | Some disk =>
        let d := inline_reserve s sc map d in
        let backed := match streams d !! s with Some sc => negb (mmap_reserved sc =? 0) | None => false end in
        let oracle := match SarFindExtent map Offset with
                      | Some e => (0 <=? lcn_byte e) && (SAR_CANDIDATE_SIZE <=? Length)
                      | None => false
                      end in
        let! (anyStored, preHead, d) :=
          inline_loop (S (S (Z.to_nat (Length / SAR_RAW_CHUNK)))) env disk 0 0 s map path Actor backed oracle
            Offset (u64 (Offset + Length)) [] false d in
        let d := match ie_actor env with
                 | Some proc =>
                   if oracle && anyStored && (SAR_CANDIDATE_SIZE <=? Z.of_nat (List.length preHead)) &&
                      ((Actor =? 0) || (start_key proc =? Actor))
                   then SarCaptureSubmitWrite upcase (ie_submit env)
                          {| originator := proc; member := SAR_DESTRUCT_WRITE_NONCACHED; write_offset := Offset;
                             wlength := Length; wpre_image := preHead; provenance_override := Some path |} d
                   else d
                 | None => d
                 end in
        Ret (if anyStored then SAR_STAGE_STORED else SAR_STAGE_FAILED, d)
      end
  | _, _ => Ret (SAR_STAGE_FAILED, d)
  end.

(** The stream is dirty through a section, and its layout is known. *)
Definition mapped_capture (sc : SAR_STREAM_CONTEXT) : bool :=
  has_flag sc SAR_STREAMCTX_FLAG_SECTION_DIRTY && negb (has_flag sc SAR_STREAMCTX_FLAG_OWN_STORE) &&
  negb (has_flag sc SAR_STREAMCTX_FLAG_PHANTOM_BACKING) && bool_decide (is_Some (mmap_map sc)).

Definition IRP_NOCACHE : Z := 0x01.
Definition IRP_PAGING_IO : Z := 0x02.
Definition IRP_SYNCHRONOUS_PAGING_IO : Z := 0x40.
Definition paging (IrpFlags : Z) : bool := negb (IrpFlags .& (IRP_PAGING_IO .| IRP_SYNCHRONOUS_PAGING_IO) =? 0).

(** Whether the write was taken here. *)
Definition SarMmapOnPagingWrite (env : inline_env) (unloading passive : bool) (IrpFlags s offset length : Z) d
    : cres (bool * driver F) :=
  match store_of d, streams d !! s with
  | Some _, Some sc =>
    if unloading || negb (paging IrpFlags) || (length =? 0) then Ret (false, d)
    else if mapped_capture sc then
      let! (_, d) := SarMmapCaptureInline env passive s sc (mmap_arm_key sc) offset length d in
      Ret (true, d)
    else Ret (false, d)
  | _, _ => Ret (false, d)
  end.

Definition SarMmapCaptureNocache (env : inline_env) (unloading passive : bool) (s : Z) (Originator : process)
    (offset length : Z) d : cres (driver F) :=
  match store_of d, streams d !! s with
  | Some _, Some sc =>
    if unloading || (length =? 0) then Ret d
    else if mapped_capture sc then
      let! (_, d) := SarMmapCaptureInline env passive s sc (start_key Originator) offset length d in
      Ret d
    else Ret d
  | _, _ => Ret d
  end.

End Mmap.

(** ** What is read is the old content *)

(** The bytes [c x], ..., [c (x + n - 1)]. *)
Definition bytes_at (c : Z -> Z) (x n : Z) : bytes := (fun i => c (x + Z.of_nat i)) <$> seq 0 (Z.to_nat n).

Lemma bytes_at_app c x n m : 0 <= n -> 0 <= m -> bytes_at c x n ++ bytes_at c (x + n) m = bytes_at c x (n + m).
Proof.
  intros Hn Hm. unfold bytes_at. rewrite Z2Nat.inj_add, seq_app, fmap_app by done. f_equal.
  apply list_eq. intros i. rewrite !list_lookup_fmap. destruct (decide (i < Z.to_nat m)%nat) as [Hi|Hi].
  - rewrite !lookup_seq_lt by done. cbn. do 2 f_equal. lia.
  - rewrite !lookup_seq_ge by lia. done.
Qed.

Lemma bytes_at_sub c x n i m : 0 <= i -> 0 <= m -> i + m <= n ->
  take (Z.to_nat m) (drop (Z.to_nat i) (bytes_at c x n)) = bytes_at c (x + i) m.
Proof.
  intros Hi Hm Hn.
  replace (bytes_at c x n) with (bytes_at c x i ++ bytes_at c (x + i) (n - i)) by (rewrite bytes_at_app; f_equal; lia).
  rewrite drop_app_length' by (unfold bytes_at; rewrite length_fmap, length_seq; done).
  replace (n - i) with (m + (n - i - m)) by lia. rewrite <- bytes_at_app by lia.
  rewrite take_app_length'; [done|]. unfold bytes_at. by rewrite length_fmap, length_seq.
Qed.

Lemma bytes_at_const c x n v : 0 <= n -> (forall i, 0 <= i < n -> c (x + i) = v) -> bytes_at c x n = replicate (Z.to_nat n) v.
Proof.
  intros Hn Hc. apply list_eq. intros i. unfold bytes_at. rewrite list_lookup_fmap.
  destruct (decide (i < Z.to_nat n)%nat) as [Hi|Hi].
  - rewrite lookup_seq_lt, lookup_replicate_2 by done. cbn. f_equal. apply Hc. lia.
  - rewrite lookup_seq_ge by lia. symmetry. apply lookup_replicate_None. lia.
Qed.

Lemma bytes_at_ext c c' x x' n : (forall i, 0 <= i < n -> c (x + i) = c' (x' + i)) -> bytes_at c x n = bytes_at c' x' n.
Proof.
  intros Hc. apply list_eq. intros i. unfold bytes_at. rewrite !list_lookup_fmap.
  destruct (decide (i < Z.to_nat n)%nat) as [Hi|Hi].
  - rewrite !lookup_seq_lt by done. cbn. f_equal. apply Hc. lia.
  - by rewrite !lookup_seq_ge by lia.
Qed.

(** Rounding down with a mask. *)
Lemma land_lnot_pow a j : 0 <= j -> a .& Z.lnot (2 ^ j - 1) = a - a mod 2 ^ j.
Proof.
  intros Hj. replace (2 ^ j - 1) with (Z.ones j) by (rewrite Z.ones_equiv; lia).
  rewrite <- Z.ldiff_land. rewrite Z.ldiff_ones_r by done.
  rewrite Z.shiftr_div_pow2, Z.shiftl_mul_pow2 by done. pose proof (Z.div_mod a (2 ^ j) ltac:(lia)). lia.
Qed.

Section ReadRange.
Context (c raw : Z -> Z) (map : SAR_EXTENT_MAP) (j : Z).
Context (disk : nat -> Z -> Z -> option bytes) (scratch : nat -> bool).

(** The extents describe where the bytes of the file are on the disk. *)
Definition extent_ok (e : SAR_EXTENT) : Prop :=
  0 <= vcn_byte e /\ 0 < ext_len e /\ vcn_byte e + ext_len e < 2 ^ 62 /\ lcn_byte e + ext_len e < 2 ^ 62 /\
  forall i, 0 <= i < ext_len e -> c (vcn_byte e + i) = if lcn_byte e <? 0 then 0 else raw (lcn_byte e + i).

Context (Hmap : Forall extent_ok (ext map)) (Hj : 0 <= j < 20).
Context (Hdisk : forall k a n data, disk k a n = Some data -> data = bytes_at raw a n).

Lemma find_extent pos e : 0 <= pos -> SarFindExtent map pos = Some e ->
  extent_ok e /\ e ∈ ext map /\ vcn_byte e <= pos < vcn_byte e + ext_len e /\
  u64 (vcn_byte e + ext_len e) = vcn_byte e + ext_len e.
Proof using All.
  intros Hp [Hin Hf]%find_some. apply list_elem_of_In in Hin.
  rewrite Forall_forall in Hmap. pose proof (Hmap e Hin) as He. pose proof He as (H1&H2&H3&_).
  rewrite u64_small in Hf |- * by (unfold is_u; lia). bsimp. auto.
Qed.

(** The extents that end after [pos]; every round passes one. *)
Definition left_of (pos : Z) : list SAR_EXTENT := filter (fun e => pos < vcn_byte e + ext_len e) (ext map).

(** The bytes of one step inside a real extent. *)
Lemma disk_step e cursor step k data : extent_ok e -> 0 <= lcn_byte e -> vcn_byte e <= cursor -> 0 < step ->
  cursor + step <= vcn_byte e + ext_len e -> step < 2 ^ 31 ->
  let diskOff := u64 (lcn_byte e + (cursor - vcn_byte e)) in
  let aStart := diskOff .& Z.lnot (2 ^ j - 1) in
  let aEnd := u64 (diskOff + step + 2 ^ j - 1) .& Z.lnot (2 ^ j - 1) in
  disk k aStart (u32 (aEnd - aStart)) = Some data ->
  take (Z.to_nat step) (drop (Z.to_nat (diskOff - aStart)) data) = bytes_at c cursor step.
Proof using All.
  intros (E1&E2&E3&E4&E5) Hl Hc Hs Hend Hst diskOff aStart aEnd Hd.
  assert (Hpow : 0 < 2 ^ j <= 2 ^ 20) by (split; [lia|apply Z.pow_le_mono_r; lia]).
  assert (HdO : diskOff = lcn_byte e + (cursor - vcn_byte e)) by (unfold diskOff; rewrite u64_small; [done|unfold is_u; lia]).
  assert (HaS : aStart = diskOff - diskOff mod 2 ^ j) by (unfold aStart; apply land_lnot_pow; lia).
  assert (HaE : aEnd = (diskOff + step + 2 ^ j - 1) - (diskOff + step + 2 ^ j - 1) mod 2 ^ j).
  { unfold aEnd. rewrite u64_small by (unfold is_u; lia). apply land_lnot_pow. lia. }
  pose proof (Z.mod_pos_bound diskOff (2 ^ j) ltac:(lia)) as M1.
  pose proof (Z.mod_pos_bound (diskOff + step + 2 ^ j - 1) (2 ^ j) ltac:(lia)) as M2.
  rewrite u32_small in Hd by (unfold is_u; lia). rewrite (Hdisk _ _ _ _ Hd), bytes_at_sub by lia.
  apply bytes_at_ext. intros i Hi. replace (aStart + (diskOff - aStart) + i) with (lcn_byte e + (cursor - vcn_byte e + i)) by lia.
  replace (cursor + i) with (vcn_byte e + (cursor - vcn_byte e + i)) by lia. rewrite E5 by lia.
  by destruct (Z.ltb_spec (lcn_byte e) 0); [lia|].
Qed.

(** Positions below [n] have an extent. *)
Definition mapped_to (n : Z) : Prop := forall pos, 0 <= pos < n -> is_Some (SarFindExtent map pos).

Lemma read_loop_spec fuel k cursor logEnd buf :
  0 <= cursor <= logEnd -> logEnd < 2 ^ 62 -> logEnd - cursor < 2 ^ 31 -> (length (left_of cursor) < fuel)%nat ->
  exists o, read_loop disk scratch fuel k map (2 ^ j) cursor logEnd buf = Ret o /\
    (forall r k', o = Some (r, k') -> r = buf ++ bytes_at c cursor (logEnd - cursor)) /\
    (o = None -> ~ mapped_to logEnd \/ exists i a n, scratch i = false \/ disk i a n = None).
Proof using All.
  revert k cursor buf. induction fuel as [|fuel IH]; intros k cursor buf Hc Hl Hs Hf; [lia|]. cbn [read_loop].
  destruct (Z.ltb_spec cursor logEnd) as [Hlt|Hge].
  2: { eexists. split; [done|]. split; [|done]. intros r k' [= <- <-].
       replace (logEnd - cursor) with 0 by lia. unfold bytes_at. by rewrite app_nil_r. }
  destruct (SarFindExtent map cursor) as [e|] eqn:He.
  2: { exists None. split_and!; [done|done|]. intros _. left. intros Hm. destruct (Hm cursor ltac:(lia)). congruence. }
  destruct (find_extent cursor e ltac:(lia) He) as (Hok&Hin&Hpos&->). pose proof Hok as (E1&E2&E3&E4&E5).
  set (step := if vcn_byte e + ext_len e - cursor <? logEnd - cursor
               then vcn_byte e + ext_len e - cursor else logEnd - cursor).
  assert (Hst : step = Z.min (vcn_byte e + ext_len e - cursor) (logEnd - cursor)).
  { unfold step. destruct (Z.ltb_spec (vcn_byte e + ext_len e - cursor) (logEnd - cursor)); lia. }
  rewrite (u64_small (cursor + step)) by (unfold is_u; lia).
  assert (Hnext : forall k' x, x = bytes_at c cursor step -> exists o,
    read_loop disk scratch fuel k' map (2 ^ j) (cursor + step) logEnd (buf ++ x) = Ret o /\
    (forall r k'', o = Some (r, k'') -> r = buf ++ bytes_at c cursor (logEnd - cursor)) /\
    (o = None -> ~ mapped_to logEnd \/ exists i a n, scratch i = false \/ disk i a n = None)).
  { intros k' x ->. destruct (Z.eq_dec (cursor + step) logEnd) as [Heq|Hne].
    - destruct fuel as [|fuel']; [exfalso|].
      { assert (e ∈ left_of cursor) as Hel by (apply list_elem_of_filter; split; [lia|done]).
        destruct (left_of cursor); [by apply elem_of_nil in Hel|simpl in Hf; lia]. }
      cbn [read_loop]. destruct (Z.ltb_spec (cursor + step) logEnd); [lia|]. eexists. split; [done|].
      split; [|done]. intros r k'' [= <- <-]. do 2 f_equal. lia.
    - destruct (IH k' (cursor + step) (buf ++ bytes_at c cursor step)) as (o&Ho&H1&H2); [lia|lia|lia| |].
      + apply (Nat.lt_le_trans _ (length (left_of cursor))); [|lia].
        apply (filter_length_lt _ _ _ e); [intros x; lia|done|lia|lia].
      + exists o. split_and!; [done| |done]. intros r k'' Hr. rewrite (H1 r k'' Hr), <- app_assoc. f_equal.
        rewrite bytes_at_app by lia. f_equal. lia. }
  destruct (Z.ltb_spec (lcn_byte e) 0) as [Hneg|Hpos'].
  - apply Hnext. symmetry. apply bytes_at_const; [lia|]. intros i Hi.
    replace (cursor + i) with (vcn_byte e + (cursor - vcn_byte e + i)) by lia. rewrite E5 by lia.
    by destruct (Z.ltb_spec (lcn_byte e) 0); [|lia].
  - destruct (scratch k) eqn:Hsk; cbn [negb].
    2: { exists None. split_and!; [done|done|]. intros _. right. exists k, 0, 0. by left. }
    destruct (disk k _ _) as [data|] eqn:Hd.
    2: { exists None. split_and!; [done|done|]. intros _. right. eexists k, _, _. right. exact Hd. }
    apply Hnext. apply (disk_step e cursor step k data); try done; lia.
Qed.

End ReadRange.

(** ** The layout is what the file system says *)

Section Layout.
Context (c raw : Z -> Z) (Bpc : Z) (Hbpc : 0 < Bpc).

Definition extent_of (prev next lcn : Z) : SAR_EXTENT :=
  {| vcn_byte := u64 (prev * Bpc); ext_len := u64 (u64 (next - prev) * Bpc); lcn_byte := if lcn <? 0 then -1 else lcn * Bpc |}.

(** The runs of clusters from [prev] on, and that they say where the bytes are. *)
Fixpoint runs_ok (prev : Z) (runs : list (Z * Z)) : Prop :=
  match runs with
  | [] => True
  | (next, lcn) :: runs =>
    0 <= prev < next /\ next * Bpc < 2 ^ 62 /\ lcn * Bpc + (next - prev) * Bpc < 2 ^ 62 /\
    (forall i, 0 <= i < (next - prev) * Bpc -> c (prev * Bpc + i) = if lcn <? 0 then 0 else raw (lcn * Bpc + i)) /\
    runs_ok next runs
  end.

Fixpoint extents_of (prev : Z) (runs : list (Z * Z)) : list SAR_EXTENT :=
  match runs with
  | [] => []
  | (next, lcn) :: runs => extent_of prev next lcn :: extents_of next runs
  end.

(** The cluster after the last run. *)
Fixpoint runs_end (prev : Z) (runs : list (Z * Z)) : Z :=
  match runs with
  | [] => prev
  | (next, _) :: runs => runs_end next runs
  end.

Lemma extents_app prev a b : extents_of prev (a ++ b) = extents_of prev a ++ extents_of (runs_end prev a) b.
Proof. revert prev. induction a as [|[n l] a IH]; intros prev; simpl; [done|]. by rewrite IH. Qed.

Lemma runs_end_app prev a b : runs_end prev (a ++ b) = runs_end (runs_end prev a) b.
Proof. revert prev. induction a as [|[n l] a IH]; intros prev; simpl; [done|]. apply IH. Qed.

Lemma runs_end_ge prev runs : runs_ok prev runs -> prev <= runs_end prev runs.
Proof.
  revert prev. induction runs as [|[n l] runs IH]; intros prev; simpl; [lia|]. intros (H1&_&_&_&H2).
  specialize (IH n H2). lia.
Qed.

Lemma add_extents_all ps prev cov cap out : exists cap',
  add_extents (fun _ => true) Bpc ps prev cov cap out =
    (out ++ extents_of prev ps, match ps with [] => cov | _ => runs_end prev ps end, cap', true).
Proof.
  revert prev cov cap out. induction ps as [|[n l] ps IH]; intros prev cov cap out; cbn [add_extents extents_of runs_end].
  { exists cap. by rewrite app_nil_r. }
  rewrite andb_false_r. destruct (IH n n (if (cap <=? length out)%nat then (2 * cap)%nat else cap) (out ++ [extent_of prev n l]))
    as [cap' E]. exists cap'. fold (extent_of prev n l). rewrite E, <- app_assoc. by destruct ps.
Qed.

(** Answers that give the runs in pieces, the last one without overflow. *)
Fixpoint answers_for (prev : Z) (runs : list (Z * Z)) (answers : list (option retrieval)) : Prop :=
  match answers with
  | [Some r] => overflow r = false /\ starting_vcn r = prev /\ pointers r = runs
  | Some r :: answers => overflow r = true /\ starting_vcn r = prev /\ pointers r <> [] /\
      exists rest, runs = pointers r ++ rest /\ answers_for (runs_end prev (pointers r)) rest answers
  | _ => False
  end.

Lemma map_loop_all answers prev runs cap out : answers_for prev runs answers ->
  map_loop (fun _ => true) Bpc answers prev cap out = (out ++ extents_of prev runs, runs_end prev runs).
Proof.
  revert prev runs cap out. induction answers as [|[r|] answers IH]; intros prev runs cap out; [done| |by destruct answers].
  cbn [map_loop]. destruct (add_extents_all (pointers r) (match answers with [] => starting_vcn r | _ => starting_vcn r end)
    prev cap out) as [cap' E]. cbn [answers_for]. destruct answers as [|a answers].
  - intros (Ho&Hst&Hp). rewrite E, Ho, Hst, Hp, andb_false_r. cbn [andb]. destruct runs; done.
  - intros (Ho&Hst&Hne&rest&->&Ha). rewrite E, Ho, Hst. destruct (pointers r) as [|q ps] eqn:Hps; [done|].
    cbn [length andb]. rewrite (IH (runs_end prev (q :: ps)) rest) by done.
    by rewrite <- app_assoc, extents_app, runs_end_app.
Qed.

Lemma extent_of_bytes prev next lcn : 0 <= prev < next -> next * Bpc < 2 ^ 62 ->
  vcn_byte (extent_of prev next lcn) = prev * Bpc /\ ext_len (extent_of prev next lcn) = (next - prev) * Bpc.
Proof using All.
  intros H1 H2. unfold extent_of. cbn [vcn_byte ext_len].
  assert (0 <= prev * Bpc /\ 0 < (next - prev) * Bpc /\ prev * Bpc + (next - prev) * Bpc = next * Bpc /\ next - prev < 2 ^ 62) by nia.
  rewrite (u64_small (next - prev)), !u64_small by (unfold is_u; lia). done.
Qed.

Lemma extents_of_ok prev runs : runs_ok prev runs -> Forall (extent_ok c raw) (extents_of prev runs).
Proof using All.
  revert prev. induction runs as [|[n l] runs IH]; intros prev; cbn [runs_ok extents_of]; [constructor|].
  intros (H1&H2&H3&H4&H5). constructor; [|by apply IH]. destruct (extent_of_bytes prev n l H1 H2) as [E1 E2].
  unfold extent_ok. rewrite E1, E2. assert (0 <= prev * Bpc /\ 0 < (n - prev) * Bpc) by nia.
  split_and!; try lia; try nia.
  - unfold extent_of. cbn [lcn_byte]. destruct (Z.ltb_spec l 0); nia.
  - intros i Hi. rewrite H4 by done. unfold extent_of. cbn [lcn_byte]. by destruct (Z.ltb_spec l 0); [|destruct (Z.ltb_spec (l * Bpc) 0); [nia|]].
Qed.

Lemma extents_find prev runs pos : runs_ok prev runs -> prev * Bpc <= pos < runs_end prev runs * Bpc ->
  is_Some (List.find (fun e => (vcn_byte e <=? pos) && (pos <? u64 (vcn_byte e + ext_len e))) (extents_of prev runs)).
Proof using All.
  revert prev. induction runs as [|[n l] runs IH]; intros prev; cbn [runs_ok extents_of runs_end List.find]; [lia|].
  intros (H1&H2&H3&H4&H5) Hp. destruct (extent_of_bytes prev n l H1 H2) as [-> ->].
  rewrite u64_small by (unfold is_u; nia). destruct (Z.leb_spec (prev * Bpc) pos); [|lia].
  destruct (Z.ltb_spec pos (prev * Bpc + (n - prev) * Bpc)); [by eexists|]. cbn [andb]. apply IH; [done|]. nia.
Qed.

Lemma runs_end_lt prev runs : runs_ok prev runs -> 0 <= prev * Bpc < 2 ^ 62 -> 0 <= runs_end prev runs * Bpc < 2 ^ 62.
Proof using All.
  revert prev. induction runs as [|[n l] runs IH]; intros prev; cbn [runs_ok runs_end]; [done|].
  intros (H1&H2&_&_&H5) _. apply IH; [done|]. nia.
Qed.

Lemma build_map Bps answers runs : 0 < Bps -> runs_ok 0 runs -> answers_for 0 runs answers ->
  SarBuildExtentMap true true (fun _ => true) answers Bpc Bps =
    match runs with
    | [] => None
    | _ => Some {| sector_size := Bps; covered_len := runs_end 0 runs * Bpc; ext := extents_of 0 runs |}
    end.
Proof using All.
  intros Hb Hruns Hans. unfold SarBuildExtentMap. cbn [negb orb]. rewrite (map_loop_all answers 0 runs 16 []) by done.
  cbn [app]. destruct runs as [|[n l] runs]; [done|]. cbn [extents_of]. destruct (Z.eqb_spec Bps 0); [lia|]. cbn [negb].
  do 2 f_equal. apply u64_small. unfold is_u. pose proof (runs_end_lt 0 _ Hruns ltac:(lia)). lia.
Qed.

End Layout.

(** Property C16: what is preserved of a mapped file is its old content.  When
    the map is built from what the file system says of a file, in however many
    answers, and the disk reads are answered, the bytes read for a page write
    inside the mapped length are the bytes of the file on the disk. *)
Theorem mmap_reads_original c raw Bpc j answers runs disk scratch map k Start Len :
  0 < Bpc -> 0 <= j < 20 -> runs_ok c raw Bpc 0 runs -> answers_for 0 runs answers ->
  SarBuildExtentMap true true (fun _ => true) answers Bpc (2 ^ j) = Some map ->
  (forall k a n, disk k a n = Some (bytes_at raw a n)) -> (forall k, scratch k = true) ->
  0 <= Start -> 0 < Len < 2 ^ 31 -> Start + Len <= covered_len map ->
  exists k', SarMmapReadRange disk scratch k map Start Len = Ret (Some (bytes_at c Start Len, k')).
Proof.
  intros Hb Hj Hruns Hans Hmap Hdisk Hsc Hs Hl Hcov.
  rewrite (build_map c raw Bpc Hb (2 ^ j) answers runs) in Hmap by (done || lia).
  pose proof (runs_end_lt c raw Bpc Hb 0 runs Hruns ltac:(lia)) as Hend.
  assert (Hm : map = {| sector_size := 2 ^ j; covered_len := runs_end 0 runs * Bpc; ext := extents_of Bpc 0 runs |}) by (destruct runs; congruence).
  clear Hmap. subst map. cbn [covered_len] in Hcov. unfold SarMmapReadRange. cbn [sector_size ext].
  destruct (Z.eqb_spec (2 ^ j) 0); [lia|]. cbn [negb]. rewrite (u64_small (Start + Len)) by (unfold is_u; lia).
  set (map := {| sector_size := 2 ^ j |}) in *.
  destruct (read_loop_spec c raw map j disk scratch (extents_of_ok c raw Bpc Hb 0 runs Hruns) Hj)
    with (fuel := S (length (extents_of Bpc 0 runs))) (k := k) (cursor := Start) (logEnd := Start + Len) (buf := @nil Z)
    as (o&Ho&H1&H2); [|lia|lia|lia| |].
  { intros k0 a m data Hd. rewrite Hdisk in Hd. congruence. }
  { apply Nat.lt_succ_r. apply length_filter. }
  rewrite Ho. destruct o as [[r k']|].
  - exists k'. rewrite (H1 r k' eq_refl). cbn [app]. do 5 f_equal. lia.
  - exfalso. destruct (H2 eq_refl) as [Hm|(i&a&m&[Hx|Hx])]; [|congruence|congruence]. apply Hm. intros pos Hp.
    apply (extents_find c raw Bpc Hb 0 runs pos Hruns). lia.
Qed.

(** A file of two clusters of eight bytes, the second before the first on the
    disk, reported in two answers; five bytes are read across the boundary. *)
Lemma mmap_reads_original_witness : exists map k',
  SarBuildExtentMap true true (fun _ => true)
    [Some {| overflow := true; starting_vcn := 0; pointers := [(1, 7)] |};
     Some {| overflow := false; starting_vcn := 1; pointers := [(2, 3)] |}] 8 (2 ^ 2) = Some map /\
  SarMmapReadRange (fun _ a n => Some (bytes_at (fun x => x) a n)) (fun _ => true) 0 map 6 5 =
    Ret (Some ([62; 63; 24; 25; 26], k')).
Proof.
  pose (c := fun x : Z => if x <? 8 then 56 + x else 16 + x).
  edestruct (mmap_reads_original c (fun x => x) 8 2
    [Some {| overflow := true; starting_vcn := 0; pointers := [(1, 7)] |};
     Some {| overflow := false; starting_vcn := 1; pointers := [(2, 3)] |}] [(1, 7); (2, 3)]
    (fun _ a n => Some (bytes_at (fun x => x) a n)) (fun _ => true)) with (k := 0%nat) (Start := 6) (Len := 5) as [k' E];
    [lia|lia| | |vm_compute; reflexivity|reflexivity|reflexivity|lia|lia|vm_compute; discriminate|].
  - cbn [runs_ok]. split_and!; try lia; intros i Hi; unfold c; cbn -[Z.ltb];
      destruct (Z.ltb_spec (0 * 8 + i) 8); destruct (Z.ltb_spec (1 * 8 + i) 8); simpl; lia.
  - cbn [answers_for]. split_and!; [done|done|done|]. exists [(2, 3)]. done.
  - eexists _, k'. split; [vm_compute; reflexivity|]. exact E.
Defined.

End Mmap.
