(* ===== verification/Phantom.v ===== *)
(** Decoy files: their names, attributes and content (driver/phantom.c).

    A decoy is determined by the volume's secret, the directory and an index:
    its name, its size and times, its file reference number and the name of the
    file that backs it are read off HMACs of the canonical directory name.  The
    file holds these functions, the table of the decoys that were shown, the
    content of a backing file, and the lemmas that a decoy is recognised under
    the name it was given. *)

From stdpp Require Import gmap strings.
From S2P Require Import Prelude Mem Sha256 Chain Whitelist DriverState Streams.
Import Layout Sha256 Streams.

Module Phantom.

Definition SAR_PHANTOM_K_THRESHOLD : Z := 3.
Definition SAR_PHANTOM_MAX_PER_DIR : nat := 3.
Definition SAR_PHANTOM_NAME_CHARS : nat := 32.
Definition SAR_PHANTOM_FRN_BASE : Z := 0x0000400000000000.
Definition SAR_PHANTOM_FRN_SPAN : Z := 0x0000010000000000.
Definition SAR_PHANTOM_FRN_INDEX_MASK : Z := 0x0000FFFFFFFFFFFF.

(** ** Directories *)

(** The directory without the name of its volume and without a backslash at
    the end. *)
Definition SarPhantomCanonDir (In : list Z) : list Z :=
  let b := if SarWideCaselessPrefix In (wide "\Device\")
           then match third_slash 2 In with Some s => s | None => In end
           else In in
  if (0 <? length b)%nat && (rd b (length b - 1) =? 92) then take (length b - 1) b else b.

(** What is hashed: the directory, at most 520 bytes of it, the index, and the
    byte that says what the hash is for. *)
Definition dir_message (DirPath : list Z) (Index : Z) (tag : bytes) : bytes :=
  take 520 (u16s_bytes (SarPhantomCanonDir DirPath)) ++
  [u8 (Index .& 0xFF); u8 ((Index .>> 8) .& 0xFF); u8 ((Index .>> 16) .& 0xFF); u8 ((Index .>> 24) .& 0xFF)] ++ tag.

Definition SarPhantomDeriveSecret (MacKey : bytes) : bytes :=
  sar_hmac_sha256 MacKey (wide "phantom-volume-secret").

(** ** Names *)

Definition g_phantom_cons : list Z := wide "bcdfghjklmnprstvwz".
Definition g_phantom_vow : list Z := wide "aeiou".
Definition g_phantom_ext : list (list Z) :=
  wide <$> ["docx"; "doc"; "xlsx"; "xls"; "pptx"; "ppt"; "pdf"; "rtf";
            "txt"; "csv"; "odt"; "ods"; "jpg"; "jpeg"; "png"; "gif";
            "bmp"; "tiff"; "psd"; "zip"; "rar"; "7z"; "tar"; "gz";
            "mp3"; "mp4"; "avi"; "mov"; "wav"; "sql"; "mdb"; "accdb";
            "db"; "dwg"; "dxf"; "ai"; "eps"; "htm"; "xml"; "json"]%string.

(** [hash[hi & 31]] *)
Definition hash_at (hash : bytes) (hi : Z) : Z := tbl hash (hi .& 31).

(** [n] syllables of a consonant and a vowel, the first letter in upper case if
    [cap]; two bytes of the hash each, from [hi] on. *)
Fixpoint syllables (n : nat) (cap : bool) (hash : bytes) (hi : Z) : list Z :=
  match n with
  | O => []
  | S n =>
    let c := tbl g_phantom_cons (hash_at hash hi mod Z.of_nat (length g_phantom_cons)) in
    let v := tbl g_phantom_vow (hash_at hash (hi + 1) mod Z.of_nat (length g_phantom_vow)) in
    (if cap then u16 (c - 97 + 65) else c) :: v :: syllables n false hash (hi + 2)
  end.

Fixpoint digits (n : nat) (hash : bytes) (hi : Z) : list Z :=
  match n with
  | O => []
  | S n => u16 (48 + hash_at hash hi mod 10) :: digits n hash (hi + 1)
  end.

(** What follows the first syllables: nothing, digits, or more syllables. *)
Definition name_middle (hash : bytes) (hi : Z) : list Z :=
  let tmpl := hash_at hash hi mod 4 in
  if (tmpl =? 1) || (tmpl =? 2) then
    let ndig := 2 + hash_at hash (hi + 1) mod 4 in
    (if tmpl =? 1 then [95] else []) ++ digits (Z.to_nat ndig) hash (hi + 2)
  else if tmpl =? 3 then
    let nsyl2 := 1 + hash_at hash (hi + 1) mod 2 in
    syllables (Z.to_nat nsyl2) true hash (hi + 2)
  else [].

Definition name_ext (hash : bytes) : list Z :=
  let eidx := (rd hash 30 .| (rd hash 31 .<< 8)) mod Z.of_nat (length g_phantom_ext) in
  nth (Z.to_nat eidx) g_phantom_ext [].

Definition name_of_hash (hash : bytes) : list Z :=
  let cap := negb (hash_at hash 0 .& 1 =? 0) in
  let nsyl := 2 + hash_at hash 1 mod 3 in
  syllables (Z.to_nat nsyl) cap hash 2 ++ name_middle hash (2 + 2 * nsyl) ++ [46] ++ name_ext hash.

Definition SarPhantomNameForIndex (Secret : bytes) (DirPath : list Z) (Index : Z) : list Z :=
  name_of_hash (sar_hmac_sha256 Secret (dir_message DirPath Index [])).

Definition SarPhantomCountForDir (real_file_count : Z) : nat :=
  if real_file_count =? 0 then 0
  else if real_file_count <=? 5 then 1
  else if real_file_count <=? 20 then 2
  else SAR_PHANTOM_MAX_PER_DIR.

(** ** Attributes *)

Record SAR_PHANTOM_META := { meta_size : Z; ctime : Z; atime : Z; wtime : Z }.

Definition SarPhantomRead64 (p : bytes) : Z :=
  rd p 0 .| (rd p 1 .<< 8) .| (rd p 2 .<< 16) .| (rd p 3 .<< 24) .|
  (rd p 4 .<< 32) .| (rd p 5 .<< 40) .| (rd p 6 .<< 48) .| (rd p 7 .<< 56).

Definition meta_base : Z := 132500000000000000.
Definition meta_span : Z := 1576800000000000.

Definition meta_of_hash (hash : bytes) : SAR_PHANTOM_META :=
  let r := rd hash 0 .| (rd hash 1 .<< 8) .| (rd hash 2 .<< 16) .| (rd hash 3 .<< 24) in
  let a := SarPhantomRead64 (drop 4 hash) mod meta_span in
  let b := SarPhantomRead64 (drop 12 hash) mod (meta_span / 4) in
  let c := SarPhantomRead64 (drop 20 hash) mod (meta_span / 8) in
  {| meta_size := u32 (4096 + r mod (1024 * 1024 - 4096));
     ctime := u64 (meta_base + a); wtime := u64 (meta_base + a + b); atime := u64 (meta_base + a + b + c) |}.

Definition SarPhantomMetaForIndex (Secret : bytes) (DirPath : list Z) (Index : Z) : SAR_PHANTOM_META :=
  meta_of_hash (sar_hmac_sha256 Secret (dir_message DirPath Index [0x4D])).

Definition frn_of_hash (hash : bytes) : Z :=
  let idx48 := u64 (SAR_PHANTOM_FRN_BASE + SarPhantomRead64 hash mod SAR_PHANTOM_FRN_SPAN) in
  let seq := u64 (1 + SarPhantomRead64 (drop 8 hash) mod 0xFFFE) in
  u64 (seq .<< 48) .| (idx48 .& SAR_PHANTOM_FRN_INDEX_MASK).

Definition SarPhantomFrn (Secret : bytes) (DirPath : list Z) (Index : Z) : Z :=
  frn_of_hash (sar_hmac_sha256 Secret (dir_message DirPath Index [0x46])).

Definition SarPhantomFrnInRange (Frn : Z) : bool :=
  let idx := Frn .& SAR_PHANTOM_FRN_INDEX_MASK in
  (SAR_PHANTOM_FRN_BASE <=? idx) && (idx <? SAR_PHANTOM_FRN_BASE + SAR_PHANTOM_FRN_SPAN).

(** ** The decoys that were shown *)

Definition SAR_PM_IDMAP_SLOTS : nat := 256.

(** A name with its length is a list. *)
Record SAR_PM_IDENT := {
  valid : bool;
  index : Z;
  frn : Z;
  backhex : list Z;
  dir : list Z;
  name : list Z
}.

Definition no_ident : SAR_PM_IDENT :=
  {| valid := false; index := 0; frn := 0; backhex := []; dir := []; name := [] |}.

(** [g_pm_idmap] and [g_pm_idmap_next]. *)
Record idmap := { slots : list SAR_PM_IDENT; next : Z }.

Definition empty_idmap : idmap := {| slots := replicate SAR_PM_IDMAP_SLOTS no_ident; next := 0 |}.

(** The buffers of an entry hold 48, 284 and 32 characters. *)
Definition SarPmIdMapInsert (BackHex Dir Name : list Z) (Index Frn : Z) (m : idmap) : idmap :=
  if (48 <? length BackHex)%nat || (284 <? length Dir)%nat || (SAR_PHANTOM_NAME_CHARS <? length Name)%nat then m
  else
    {| slots := <[Z.to_nat (next m mod Z.of_nat SAR_PM_IDMAP_SLOTS) :=
                   {| valid := true; index := Index; frn := Frn; backhex := BackHex; dir := Dir; name := Name |}]>
                  (slots m);
       next := u32 (next m + 1) |}.

Definition SarPmIdMapLookup (BackHex : list Z) (m : idmap) : option SAR_PM_IDENT :=
  snd <$> list_find (fun e => valid e = true /\ backhex e = BackHex) (slots m).

Definition SarPmIdMapLookupByRef (Ref : Z) (m : idmap) : option SAR_PM_IDENT :=
  snd <$> list_find (fun e => valid e = true /\ frn e = Ref) (slots m).

(** ** Recognising a decoy *)

(** L"\\phantom\\" anywhere in the path, in any case. *)
Fixpoint SarPhantomIsPhantomPath (Path : list Z) : bool :=
  SarWideCaselessPrefix Path (wide "\phantom\") ||
  match Path with
  | [] => false
  | _ :: Path => SarPhantomIsPhantomPath Path
  end.

(** The name ends with a dot and the extension [e]. *)
Definition has_ext (Name e : list Z) : bool :=
  (length e + 1 <=? length Name)%nat && (rd Name (length Name - length e - 1) =? 46) &&
  bool_decide (lower <$> drop (length Name - length e) Name = e).

Definition SarPhantomExtInPalette (Name : list Z) : bool := existsb (has_ext Name) g_phantom_ext.

Section Names.
(** The case folding of the run-time library. *)
Context (upcase : Z -> Z).

Definition RtlEqualUnicodeString (a b : list Z) : bool := bool_decide (upcase <$> a = upcase <$> b).

(** The sign of the result of [RtlCompareUnicodeString]. *)
Fixpoint RtlCompareUnicodeString (a b : list Z) : comparison :=
  match a, b with
  | [], [] => Eq
  | [], _ => Lt
  | _, [] => Gt
  | x :: a, y :: b => match upcase x ?= upcase y with Eq => RtlCompareUnicodeString a b | c => c end
  end.

(** [*MatchIndex], if there is a match. *)
Definition SarPhantomMatchName (FileName DirPath : list Z) (volume_secret : bytes) : option nat :=
  fst <$> list_find (fun i => RtlEqualUnicodeString FileName
                                (SarPhantomNameForIndex volume_secret DirPath (Z.of_nat i)) = true)
            (seq 0 SAR_PHANTOM_MAX_PER_DIR).

End Names.

(** ** The backing file *)

Definition hex : list Z := wide "0123456789abcdef".
Definition backing_prefix : list Z := wide "\SystemRoot\System32\drivers\SemanticsAr\phantom\".

(** The loop over the bytes of the hash, from position [pos] of the path. *)
Fixpoint hex_loop (hash : bytes) (pos : nat) : list Z :=
  match hash with
  | [] => []
  | h :: hash =>
    if (pos <? 258)%nat
    then tbl hex ((h .>> 4) .& 0xF) :: tbl hex (h .& 0xF) :: hex_loop hash (pos + 2)
    else []
  end.

Definition SarPhantomBuildBackingPath (volume_secret : bytes) (PhantomIndex : Z) (DirPath : list Z) : list Z :=
  let hash := sar_hmac_sha256 volume_secret (dir_message DirPath PhantomIndex []) in
  backing_prefix ++ hex_loop (take 16 hash) (length backing_prefix).

Definition g_pm_alpha : bytes := wide " etaoinshrdlcumwfgypbvkxqjz.," ++ [13; 10].
Definition g_pm_png : bytes := [0x89;0x50;0x4E;0x47;0x0D;0x0A;0x1A;0x0A].
Definition g_pm_jpg : bytes := [0xFF;0xD8;0xFF;0xE0;0x00;0x10;0x4A;0x46;0x49;0x46;0x00].
Definition g_pm_gif : bytes := [0x47;0x49;0x46;0x38;0x39;0x61].
Definition g_pm_bmp : bytes := [0x42;0x4D].
Definition g_pm_pdf : bytes := [0x25;0x50;0x44;0x46;0x2D;0x31;0x2E;0x37;0x0A].
Definition g_pm_zip : bytes := [0x50;0x4B;0x03;0x04].
Definition g_pm_ole : bytes := [0xD0;0xCF;0x11;0xE0;0xA1;0xB1;0x1A;0xE1].
Definition g_pm_rtf : bytes := [0x7B;0x5C;0x72;0x74;0x66;0x31].
Definition g_pm_gz : bytes := [0x1F;0x8B;0x08].
Definition g_pm_7z : bytes := [0x37;0x7A;0xBC;0xAF;0x27;0x1C].
Definition g_pm_rar : bytes := [0x52;0x61;0x72;0x21;0x1A;0x07;0x00].

Definition g_pm_table : list (list Z * bytes) :=
  [(wide "png", g_pm_png); (wide "jpg", g_pm_jpg); (wide "jpeg", g_pm_jpg); (wide "gif", g_pm_gif);
   (wide "bmp", g_pm_bmp); (wide "pdf", g_pm_pdf); (wide "docx", g_pm_zip); (wide "xlsx", g_pm_zip);
   (wide "pptx", g_pm_zip); (wide "zip", g_pm_zip); (wide "odt", g_pm_zip); (wide "ods", g_pm_zip);
   (wide "doc", g_pm_ole); (wide "xls", g_pm_ole); (wide "ppt", g_pm_ole); (wide "mdb", g_pm_ole);
   (wide "rtf", g_pm_rtf); (wide "gz", g_pm_gz); (wide "7z", g_pm_7z); (wide "rar", g_pm_rar)].

(** What follows the last dot of the name. *)
Fixpoint after_dot (l : list Z) : option (list Z) :=
  match l with
  | [] => None
  | c :: l =>
    match after_dot l with
    | Some s => Some s
    | None => if c =? 46 then Some l else None
    end
  end.

(** The bytes put at the start of a buffer of [BufLen] bytes. *)
Definition SarPhantomFillTemplate (BufLen : Z) (FinalComp : list Z) : bytes :=
  match after_dot FinalComp with
  | None => []
  | Some e =>
    default [] (first_some (fun '(x, magic) =>
      if bool_decide (lower <$> e = x) && (Z.of_nat (length magic) <=? BufLen) then Some magic else None) g_pm_table)
  end.

(** One round of the generator: the state and the character. *)
Definition synth_next (state : Z) : Z * Z :=
  let state := u64 (state + 0x9E3779B97F4A7C15) in
  let z := u64 ((state ⊕ (state .>> 30)) * 0xBF58476D1CE4E5B9) in
  let z := u64 ((z ⊕ (z .>> 27)) * 0x94D049BB133111EB) in
  let z := z ⊕ (z .>> 31) in
  (state, tbl g_pm_alpha (u32 (z mod Z.of_nat (length g_pm_alpha)))).

Fixpoint synth_loop (n : nat) (state : Z) : bytes :=
  match n with
  | O => []
  | S n => let '(state, c) := synth_next state in c :: synth_loop n state
  end.

(** The [Len] bytes written from [Off] on. *)
Definition SarPhantomSynthBody (Secret : bytes) (DirPath : list Z) (Index Len : Z) : bytes :=
  synth_loop (Z.to_nat Len) (SarPhantomRead64 (sar_hmac_sha256 Secret (dir_message DirPath Index [0x42]))).

(** A file under the directory of the backing files: its content and times. *)
Record backing_file := { content : bytes; times : option SAR_PHANTOM_META }.

(** The answers while a backing file is made: the memory, and whether it is
    created, written, and given its times. *)
Record backing_env := { be_alloc : bool; be_create : bool; be_write : bool; be_times : bool }.

(** [files] are the backing files by path. *)
Definition SarPhantomMaterializeBacking (env : backing_env) (BackingPath FinalComp : list Z) (Secret : bytes)
    (DirPath : list Z) (Index : Z) (files : gmap (list Z) backing_file) : gmap (list Z) backing_file :=
  let meta := SarPhantomMetaForIndex Secret DirPath Index in
  let size := meta_size meta in
  match files !! BackingPath with
  | Some _ => files
  | None =>
    if negb (be_alloc env) then files
    else
      let head := SarPhantomFillTemplate size FinalComp in
      let buf := head ++ SarPhantomSynthBody Secret DirPath Index (u32 (size - Z.of_nat (length head))) in
      if be_create env
      then <[BackingPath := {| content := if be_write env then buf else [];
                               times := if be_times env then Some meta else None |}]> files
      else files
  end.

(** ** Evidence against a process *)

(** The bucket of a process, with the product cut to 32 bits. *)
Definition evidence_bucket (st : DriverState.SAR_STATE) (ProcessId : Z) : nat :=
  Z.to_nat (u32 ((ProcessId ⊕ (ProcessId .>> 13)) * 0x9E3779B1) mod DriverState.identity_bucket_count st).

(** [InterlockedIncrement] *)
Definition increment32 (v : Z) : Z := let n := u32 (v + 1) in if n <? 2 ^ 31 then n else n - 2 ^ 32.

Definition more_evidence (e : DriverState.SAR_IDENTITY_ENTRY) : DriverState.SAR_IDENTITY_ENTRY :=
  {| DriverState.process_id := DriverState.process_id e; DriverState.process := DriverState.process e;
     DriverState.start_key := DriverState.start_key e; DriverState.id_state := DriverState.id_state e;
     DriverState.identity := DriverState.identity e; DriverState.identity_valid := DriverState.identity_valid e;
     DriverState.subsystem_process := DriverState.subsystem_process e;
     DriverState.protected_trusted := DriverState.protected_trusted e;
     DriverState.phantom_evidence := increment32 (DriverState.phantom_evidence e) |}.

Definition SarPhantomEvidenceConvicts (st : DriverState.SAR_STATE) (ProcessId : Z) : bool * DriverState.SAR_STATE :=
  let b := evidence_bucket st ProcessId in
  match list_find (fun e => DriverState.process_id e = ProcessId) (DriverState.bucket st b) with
  | Some (i, e) =>
    if bool_decide (DriverState.id_state e = Whitelist.SAR_IDSTATE_EXEMPT) then (false, st)
    else (SAR_PHANTOM_K_THRESHOLD <=? DriverState.phantom_evidence (more_evidence e),
          DriverState.put_entry st b i (more_evidence e))
  | None => (false, st)
  end.

(** ** A decoy's name *)

Lemma length_syllables n cap hash hi : length (syllables n cap hash hi) = (2 * n)%nat.
Proof. revert cap hi. induction n as [|n IH]; intros; cbn [syllables length]; [done|]. rewrite IH. lia. Qed.

Lemma length_digits n hash hi : length (digits n hash hi) = n.
Proof. revert hi. induction n as [|n IH]; intros; cbn [digits length]; [done|]. by rewrite IH. Qed.

Lemma mod_range x n : 0 < n -> (Z.to_nat (x mod n) <= Z.to_nat (n - 1))%nat.
Proof. intros Hn. pose proof (Z.mod_pos_bound x n Hn). lia. Qed.

Lemma length_name_middle hash hi : (length (name_middle hash hi) <= 6)%nat.
Proof.
  unfold name_middle. pose proof (Z.mod_pos_bound (hash_at hash (hi + 1)) 4 ltac:(lia)).
  pose proof (Z.mod_pos_bound (hash_at hash (hi + 1)) 2 ltac:(lia)).
  destruct (_ || _); [|destruct (_ =? 3)].
  - rewrite length_app, length_digits. destruct (_ =? 1); cbn [length]; lia.
  - rewrite length_syllables. lia.
  - cbn. lia.
Qed.

Lemma name_ext_in hash : name_ext hash ∈ g_phantom_ext.
Proof.
  unfold name_ext. apply list_elem_of_In, nth_In.
  pose proof (Z.mod_pos_bound (rd hash 30 .| (rd hash 31 .<< 8)) (Z.of_nat (length g_phantom_ext)) ltac:(done)).
  lia.
Qed.

(** Every extension has at most five characters, all in lower case. *)
Lemma ext_ok e : e ∈ g_phantom_ext -> (length e <= 5)%nat /\ lower <$> e = e.
Proof.
  assert (H : Forall (fun e => (length e <= 5)%nat /\ lower <$> e = e) g_phantom_ext)
    by (apply (bool_decide_unpack _); by vm_compute).
  intros He. by rewrite Forall_forall in H; apply H.
Qed.

(** The name fits the 32 characters of its buffer. *)
Lemma length_name_of_hash hash : (length (name_of_hash hash) <= 20)%nat.
Proof.
  unfold name_of_hash. rewrite !length_app, length_syllables. cbn [length].
  pose proof (length_name_middle hash (2 + 2 * (2 + hash_at hash 1 mod 3))).
  pose proof (proj1 (ext_ok _ (name_ext_in hash))).
  pose proof (Z.mod_pos_bound (hash_at hash 1) 3 ltac:(lia)). lia.
Qed.

Lemma tbl_u16 (l : list Z) i : Forall is_u16 l -> is_u16 (tbl l i).
Proof.
  intros H. unfold tbl, rd. destruct (nth_in_or_default (Z.to_nat i) l 0) as [Hin| ->]; [|unfold is_u; lia].
  rewrite Forall_forall in H. by apply H, list_elem_of_In.
Qed.

Lemma syllables_u16 n cap hash hi : Forall is_u16 (syllables n cap hash hi).
Proof.
  revert cap hi. induction n as [|n IH]; intros; cbn [syllables]; [done|].
  assert (Hc : Forall is_u16 g_phantom_cons) by (apply forall_u_check; by vm_compute).
  assert (Hv : Forall is_u16 g_phantom_vow) by (apply forall_u_check; by vm_compute).
  apply Forall_cons. split; [destruct cap; [apply is_u_u16|by apply tbl_u16]|].
  apply Forall_cons. split; [by apply tbl_u16|done].
Qed.

Lemma digits_u16 n hash hi : Forall is_u16 (digits n hash hi).
Proof. revert hi. induction n as [|n IH]; intros; cbn [digits]; [done|]. apply Forall_cons. auto with sar. Qed.

Lemma name_of_hash_u16 hash : Forall is_u16 (name_of_hash hash).
Proof.
  unfold name_of_hash. rewrite !Forall_app. split; [apply syllables_u16|]. split; [|split].
  - unfold name_middle. destruct (_ || _); [|destruct (_ =? 3); [apply syllables_u16|done]].
    apply Forall_app. split; [|apply digits_u16]. destruct (_ =? 1); [|done]. apply Forall_singleton. unfold is_u. lia.
  - apply Forall_singleton. unfold is_u. lia.
  - assert (H : Forall (Forall is_u16) g_phantom_ext) by (apply (bool_decide_unpack _); by vm_compute).
    rewrite Forall_forall in H. apply H, name_ext_in.
Qed.

(** A path that ends with a decoy's name has one of the extensions. *)
Lemma decoy_ext_in_palette p hash : SarPhantomExtInPalette (p ++ name_of_hash hash) = true.
Proof.
  unfold SarPhantomExtInPalette. apply existsb_exists. exists (name_ext hash).
  split; [apply list_elem_of_In, name_ext_in|].
  assert (exists q, p ++ name_of_hash hash = (q ++ [46]) ++ name_ext hash) as [q ->].
  { eexists. unfold name_of_hash. by rewrite !app_assoc. }
  destruct (ext_ok _ (name_ext_in hash)) as [_ Hl].
  unfold has_ext. rewrite length_app, (length_app q [46]). cbn [length].
  rewrite bool_decide_true by (rewrite drop_app_length'; [done|]; len).
  replace (_ <=? _)%nat with true by (symmetry; apply Nat.leb_le; lia).
  replace (length q + 1 + length (name_ext hash) - length (name_ext hash) - 1)%nat with (length q) by lia.
  unfold rd. rewrite <- app_assoc, app_nth2 by lia. by rewrite Nat.sub_diag.
Qed.

Section Match.
Context (upcase : Z -> Z).

(** A name of a decoy, in any case, is recognised as one of the same name. *)
Lemma decoy_matches secret d i fn :
  (i < SAR_PHANTOM_MAX_PER_DIR)%nat ->
  upcase <$> fn = upcase <$> SarPhantomNameForIndex secret d (Z.of_nat i) ->
  exists j, (j <= i)%nat /\ SarPhantomMatchName upcase fn d secret = Some j /\
    upcase <$> fn = upcase <$> SarPhantomNameForIndex secret d (Z.of_nat j).
Proof.
  intros Hi Hn. unfold SarPhantomMatchName.
  set (P := fun k => RtlEqualUnicodeString upcase fn (SarPhantomNameForIndex secret d (Z.of_nat k)) = true).
  assert (Hm : i ∈ seq 0 SAR_PHANTOM_MAX_PER_DIR) by (apply elem_of_seq; lia).
  assert (HP : P i) by (unfold P, RtlEqualUnicodeString; by rewrite bool_decide_true).
  destruct (list_find_elem_of P _ i Hm HP) as [[k j] Hf]. rewrite Hf. cbn.
  apply list_find_Some in Hf as (Hk & Hj & Hmin).
  apply lookup_seq in Hk as [-> Hlt]. exists k. split; [|split; [done|]].
  - destruct (decide (k <= i)%nat) as [|Hki]; [done|]. exfalso. eapply (Hmin i i); [|lia|done].
    apply lookup_seq. lia.
  - unfold P, RtlEqualUnicodeString in Hj. by bsimp.
Qed.

End Match.

(** ** A decoy's attributes *)

Lemma meta_of_hash_ok hash :
  let m := meta_of_hash hash in
  4096 <= meta_size m < 1024 * 1024 /\ meta_base <= ctime m <= wtime m /\ wtime m <= atime m < 2 ^ 63.
Proof.
  unfold meta_of_hash. cbn [meta_size ctime wtime atime]. rewrite u32_mod, !u64_mod.
  set (r := rd _ _ .| _ .| _ .| _).
  pose proof (Z.mod_pos_bound r (1024 * 1024 - 4096) ltac:(lia)).
  pose proof (Z.mod_pos_bound (SarPhantomRead64 (drop 4 hash)) meta_span ltac:(done)).
  pose proof (Z.mod_pos_bound (SarPhantomRead64 (drop 12 hash)) (meta_span / 4) ltac:(done)).
  pose proof (Z.mod_pos_bound (SarPhantomRead64 (drop 20 hash)) (meta_span / 8) ltac:(done)).
  unfold meta_base, meta_span in *. change (1576800000000000 / 4) with 394200000000000 in *.
  change (1576800000000000 / 8) with 197100000000000 in *.
  rewrite !Z.mod_small by lia. lia.
Qed.

(** The record number lies in the range that stands for decoys; the sequence
    number above it is not zero. *)
Lemma frn_of_hash_range hash : SarPhantomFrnInRange (frn_of_hash hash) = true.
Proof.
  unfold SarPhantomFrnInRange, frn_of_hash. rewrite !u64_mod.
  pose proof (Z.mod_pos_bound (SarPhantomRead64 hash) SAR_PHANTOM_FRN_SPAN ltac:(done)).
  unfold SAR_PHANTOM_FRN_BASE, SAR_PHANTOM_FRN_SPAN in *. set (idx := 0x400000000000 + _ mod _).
  rewrite (Z.mod_small idx) by lia. set (seq := (1 + _) mod _).
  change SAR_PHANTOM_FRN_INDEX_MASK with (Z.ones 48). rewrite Z.land_lor_distr_l, !Z.land_ones by lia.
  rewrite (Z.mod_small (idx mod _)) by (apply Z.mod_pos_bound; lia). rewrite (Z.mod_small idx) by lia.
  replace ((seq .<< 48) mod 2 ^ 64 mod 2 ^ 48) with 0.
  - rewrite Z.lor_0_l. unfold idx. apply andb_true_iff. rewrite Z.leb_le, Z.ltb_lt. lia.
  - rewrite Z.shiftl_mul_pow2 by lia. symmetry.
    rewrite Z.mod_mod_divide by by exists (2 ^ 16). apply Z_mod_mult.
Qed.

(** ** The directory of a listing and the directory of an open *)

Lemma third_slash_app n a s : Forall (fun c => c <> 92) a -> third_slash n (a ++ s) = third_slash n s.
Proof. induction 1 as [|c a Hc _ IH]; cbn; [done|]. rewrite (proj2 (Z.eqb_neq _ _) Hc). done. Qed.

Lemma strip_slash_app (p b : list Z) : b = p ++ [92] ->
  (if (0 <? length b)%nat && (rd b (length b - 1) =? 92) then take (length b - 1) b else b) = p.
Proof.
  intros ->. rewrite length_app. cbn [length]. replace (length p + 1 - 1)%nat with (length p) by lia.
  replace (0 <? _)%nat with true by (symmetry; apply Nat.ltb_lt; lia).
  unfold rd. rewrite app_nth2, Nat.sub_diag by lia. cbn. by rewrite take_app_length.
Qed.

Lemma caseless_prefix_app P s : SarWideCaselessPrefix (P ++ s) P = true.
Proof. induction P as [|x P IH]; [by destruct s|]. cbn. by rewrite Z.eqb_refl. Qed.

(** The name of a directory of the volume [vol], as a listing has it, and the
    same directory as the parent of an opened file: [p] is its path on the
    volume, not the root and without a backslash at the end. *)
Lemma canon_dir_agree vol p q c :
  Forall (fun c => c <> 92) vol -> p = 92 :: q ++ [c] -> c <> 92 ->
  SarWideCaselessPrefix (p ++ [92]) (wide "\Device\") = false ->
  SarPhantomCanonDir (wide "\Device\" ++ vol ++ p) = p /\ SarPhantomCanonDir (p ++ [92]) = p.
Proof.
  intros Hv Hp Hc Hd. split.
  - unfold SarPhantomCanonDir.
    rewrite caseless_prefix_app.
    replace (third_slash 2 _) with (third_slash 0 (vol ++ p)) by reflexivity.
    rewrite third_slash_app, Hp by done. cbn [third_slash]. rewrite Z.eqb_refl.
    rewrite app_comm_cons, length_app. cbn [length].
    replace (S (length q) + 1 - 1)%nat with (length (92 :: q)) by (cbn [length]; lia).
    unfold rd. rewrite app_nth2, Nat.sub_diag by lia. cbn [nth].
    by rewrite (proj2 (Z.eqb_neq _ _) Hc), andb_false_r.
  - unfold SarPhantomCanonDir. rewrite Hd. by apply strip_slash_app.
Qed.

(** ** The table of shown decoys *)

(** The hexadecimal digits at the end of the path of a backing file. *)
Definition backing_hex (secret : bytes) (Index : Z) (DirPath : list Z) : list Z :=
  let p := SarPhantomBuildBackingPath secret Index DirPath in drop (length p - 32) p.

(** An entry says what the secret says of its directory and index, and its name
    is the decoy's up to case. *)
Definition ident_ok (upcase : Z -> Z) (secret : bytes) (e : SAR_PM_IDENT) : Prop :=
  valid e = true ->
  0 <= index e < Z.of_nat SAR_PHANTOM_MAX_PER_DIR /\ frn e = SarPhantomFrn secret (dir e) (index e) /\
  backhex e = backing_hex secret (index e) (dir e) /\
  upcase <$> name e = upcase <$> SarPhantomNameForIndex secret (dir e) (index e).

Definition idmap_ok (upcase : Z -> Z) (secret : bytes) (m : idmap) : Prop :=
  length (slots m) = SAR_PM_IDMAP_SLOTS /\ Forall (ident_ok upcase secret) (slots m).

Lemma empty_idmap_ok upcase secret : idmap_ok upcase secret empty_idmap.
Proof. split; [done|]. apply Forall_replicate. done. Qed.

Lemma idmap_insert_ok upcase secret d i fn bh m :
  bh = backing_hex secret i d -> 0 <= i < Z.of_nat SAR_PHANTOM_MAX_PER_DIR ->
  upcase <$> fn = upcase <$> SarPhantomNameForIndex secret d i -> idmap_ok upcase secret m ->
  idmap_ok upcase secret (SarPmIdMapInsert bh d fn i (SarPhantomFrn secret d i) m).
Proof.
  intros Hb Hi Hn [Hl Hm]. unfold SarPmIdMapInsert. destruct (_ || _); [done|].
  split; cbn [slots]; [by rewrite length_insert|]. apply Forall_insert; [done|]. intros _. done.
Qed.

(** What was inserted is found under its reference number, or another entry of
    the same number is. *)
Lemma idmap_insert_lookup bh d fn i f m :
  length (slots m) = SAR_PM_IDMAP_SLOTS ->
  (length bh <= 48)%nat -> (length d <= 284)%nat -> (length fn <= SAR_PHANTOM_NAME_CHARS)%nat ->
  exists e, SarPmIdMapLookupByRef f (SarPmIdMapInsert bh d fn i f m) = Some e /\ frn e = f.
Proof.
  intros Hl Hb Hd Hf. unfold SarPmIdMapInsert, SarPmIdMapLookupByRef.
  rewrite !(proj2 (Nat.ltb_ge _ _)) by done. cbn [orb slots].
  set (e0 := {| valid := true |}). set (l := <[_ := e0]> _).
  assert (He : e0 ∈ l).
  { apply list_elem_of_lookup_2 with (Z.to_nat (next m mod Z.of_nat SAR_PM_IDMAP_SLOTS)).
    apply list_lookup_insert_eq. rewrite Hl.
    pose proof (Z.mod_pos_bound (next m) (Z.of_nat SAR_PM_IDMAP_SLOTS) ltac:(done)). lia. }
  destruct (list_find_elem_of (fun e => valid e = true /\ frn e = f) l e0 He) as [[k e] Hfind]; [done|].
  exists e. rewrite Hfind. apply list_find_Some in Hfind as (_ & [_ Hfe] & _). done.
Qed.

Lemma idmap_lookup_ok upcase secret f m e :
  idmap_ok upcase secret m -> SarPmIdMapLookupByRef f m = Some e -> ident_ok upcase secret e /\ valid e = true /\ frn e = f.
Proof.
  intros [_ Hm]. unfold SarPmIdMapLookupByRef. destruct (list_find _ _) as [[k e']|] eqn:E; [|done].
  intros [= ->]. apply list_find_Some in E as (Hk & Hv & _).
  split; [|done]. by eapply Forall_lookup_1.
Qed.

(** ** Evidence *)

(** The number of buckets divides 2^32, so cutting the product does not matter. *)
Lemma evidence_bucket_eq st pid : DriverState.table_ok st -> evidence_bucket st pid = DriverState.bucket_of st pid.
Proof.
  intros H. unfold evidence_bucket, DriverState.bucket_of, DriverState.SarIdentityHash.
  rewrite (DriverState.t_count _ H). unfold DriverState.SAR_IDENTITY_BUCKET_COUNT. cbn zeta.
  rewrite !u32_mod, u64_mod. set (v := (_ ⊕ _) * _).
  rewrite (Z.mod_small (_ mod 1024)) by (pose proof (Z.mod_pos_bound (v mod 2 ^ 64) 1024); lia).
  rewrite (Z.mod_mod_divide v (2 ^ 32)) by by exists (2 ^ 22). by rewrite Z.mod_mod_divide by by exists (2 ^ 54).
Qed.

End Phantom.
