(* ===== verification/Operations.v ===== *)
(** * The callbacks (driver/operations.c)

    The driver sees every request to the file system before it is carried out,
    and lets it pass or completes it with an error.  The handlers decide, from
    the process, the stream and the mode, whether old content must be kept
    first, and refuse the request in ENFORCE mode when it cannot be.  [Iopb]
    is always there: the filter manager does not call back without it. *)

From stdpp Require Import gmap.
From S2P Require Import Prelude Mem Format Chain Keystore Protocol Whitelist Preserve EventLog DriverState.
From S2P Require Import DriverPreserve KeystorePersist Streams Calls DriverRecovery CaptureSeam Snapshot CaptureWork Mmap Phantom.
Import Mem Layout Protocol Preserve Whitelist Streams CaptureSeam CaptureWork Mmap.
Import DriverState (NTSTATUS, NT_SUCCESS, STATUS_SUCCESS, STATUS_ACCESS_DENIED, STATUS_INSUFFICIENT_RESOURCES,
  SAR_STATE, SarStateModeGet).
Import DriverPreserve (SAR_PRESERVE, SAR_STAGE_RESULT, SAR_STAGE_STORED, SAR_STAGE_ALREADY_COVERED,
  SAR_STAGE_DROPPED, SAR_STAGE_FAILED, SarPreserveReserve, SarPreserveRelease).

Module Operations.

(** ** Requests *)

Definition FileRenameInformation : Z := 10.
Definition FileLinkInformation : Z := 11.
Definition FileDispositionInformation : Z := 13.
Definition FileAllocationInformation : Z := 19.
Definition FileEndOfFileInformation : Z := 20.
Definition FileDispositionInformationEx : Z := 64.
Definition FileRenameInformationEx : Z := 65.
Definition FileLinkInformationEx : Z := 72.

Definition FSCTL_LOCK_VOLUME : Z := 0x90018.
Definition FSCTL_DISMOUNT_VOLUME : Z := 0x90020.
Definition FSCTL_GET_NTFS_FILE_RECORD : Z := 0x90068.
Definition FSCTL_SET_SPARSE : Z := 0x900C4.
Definition FSCTL_MANAGE_BYPASS_IO : Z := 0x90448.
Definition FSCTL_SET_ZERO_DATA : Z := 0x980C8.
Definition FSCTL_FILE_LEVEL_TRIM : Z := 0x98208.
Definition FSCTL_OFFLOAD_WRITE : Z := 0x98268.
Definition FSCTL_DUPLICATE_EXTENTS_TO_FILE : Z := 0x98344.

Definition FILE_SUPERSEDE : Z := 0.
Definition FILE_OVERWRITE : Z := 4.
Definition FILE_OVERWRITE_IF : Z := 5.
Definition FILE_OPENED : Z := 1.
Definition FILE_DIRECTORY_FILE : Z := 1.
Definition FILE_WRITE_DATA : Z := 0x2.
Definition FILE_APPEND_DATA : Z := 0x4.
Definition DELETE : Z := 0x10000.
Definition FILE_DISPOSITION_DELETE : Z := 1.
Definition FILE_ATTRIBUTE_COMPRESSED : Z := 0x800.
Definition FILE_ATTRIBUTE_ENCRYPTED : Z := 0x4000.
Definition PAGE_READWRITE : Z := 0x04.
Definition PAGE_EXECUTE_READWRITE : Z := 0x40.

(** What every handler reads: the stream, the mode and the process of the
    requestor, the flags, whether the level is PASSIVE_LEVEL and there is no
    top level request, and the normalized name if it can be had. *)
Record FLT_CALLBACK_DATA := {
  FileObject : Z;
  UserMode : bool;
  issuer : process;
  IrpFlags : Z;
  passive : bool;
  top_level : bool;
  normalized : option (list Z)
}.

(** The result, with the status of a completed request. *)
Inductive preop :=
  | FLT_PREOP_SUCCESS_NO_CALLBACK
  | FLT_PREOP_SUCCESS_WITH_CALLBACK
  | FLT_PREOP_COMPLETE (status : NTSTATUS).

(** ** Classification *)

Definition SarClassifyWrite (IrpFlags : Z) : sar_destruct_member_t :=
  if negb (IrpFlags .& IRP_PAGING_IO =? 0) || negb (IrpFlags .& IRP_SYNCHRONOUS_PAGING_IO =? 0)
  then SAR_DESTRUCT_WRITE_PAGING
  else if negb (IrpFlags .& IRP_NOCACHE =? 0) then SAR_DESTRUCT_WRITE_NONCACHED
  else SAR_DESTRUCT_WRITE_CACHED.

Definition SarClassifySetInformation (InfoClass : Z) : sar_destruct_member_t :=
  if InfoClass =? FileEndOfFileInformation then SAR_DESTRUCT_SET_EOF
  else if InfoClass =? FileAllocationInformation then SAR_DESTRUCT_SET_ALLOCATION
  else if InfoClass =? FileDispositionInformation then SAR_DESTRUCT_DISPOSITION
  else if InfoClass =? FileDispositionInformationEx then SAR_DESTRUCT_DISPOSITION_EX
  else if InfoClass =? FileRenameInformation then SAR_DESTRUCT_RENAME
  else if InfoClass =? FileRenameInformationEx then SAR_DESTRUCT_RENAME_EX
  else if InfoClass =? FileLinkInformation then SAR_DESTRUCT_LINK
  else if InfoClass =? FileLinkInformationEx then SAR_DESTRUCT_LINK_EX
  else SAR_DESTRUCT_NONE.

Definition SarClassifyFsControl (FsControlCode : Z) : sar_destruct_member_t :=
  if FsControlCode =? FSCTL_DUPLICATE_EXTENTS_TO_FILE then SAR_DESTRUCT_DUPLICATE_EXTENTS
  else if FsControlCode =? FSCTL_OFFLOAD_WRITE then SAR_DESTRUCT_OFFLOAD_WRITE
  else if FsControlCode =? FSCTL_SET_ZERO_DATA then SAR_DESTRUCT_SET_ZERO_DATA
  else if FsControlCode =? FSCTL_FILE_LEVEL_TRIM then SAR_DESTRUCT_FILE_LEVEL_TRIM
  else if FsControlCode =? FSCTL_SET_SPARSE then SAR_DESTRUCT_SET_SPARSE
  else if FsControlCode =? FSCTL_LOCK_VOLUME then SAR_DESTRUCT_LOCK_VOLUME
  else if FsControlCode =? FSCTL_DISMOUNT_VOLUME then SAR_DESTRUCT_DISMOUNT_VOLUME
  else SAR_DESTRUCT_NONE.

Definition SarFsControlIsKeyless (Member : sar_destruct_member_t) : bool :=
  match Member with
  | SAR_DESTRUCT_SET_ZERO_DATA | SAR_DESTRUCT_FILE_LEVEL_TRIM | SAR_DESTRUCT_SET_SPARSE
  | SAR_DESTRUCT_LOCK_VOLUME | SAR_DESTRUCT_DISMOUNT_VOLUME => true
  | _ => false
  end.

Section Operations.
Context {F : Type} `{DataFile F, AesCbc}.
Context (upcase : Z -> Z).
Implicit Types d : driver F.

(** ** Streams *)

Definition enforcing d : bool := SarStateModeGet (state d) =? SEMANTICS_AR_MODE_ENFORCE.

(** [InterlockedOr] on the flags of the stream [s]. *)
Definition or_stream (s f : Z) d : driver F :=
  match streams d !! s with Some sc => set_stream s (or_flags f sc) d | None => d end.

Definition stream_flag (s f : Z) d : bool :=
  match streams d !! s with Some sc => has_flag sc f | None => false end.

(** The name is looked up once; the answer is kept in the flags. *)
Definition SarStreamExemptTarget (Data : FLT_CALLBACK_DATA) d : bool * driver F :=
  let s := FileObject Data in
  match streams d !! s with
  | None => (false, d)
  | Some sc =>
    if has_flag sc SAR_STREAMCTX_FLAG_OS_OWNED then (true, d)
    else if has_flag sc SAR_STREAMCTX_FLAG_OSOWN_CHECKED then (false, d)
    else if passive Data then
      match normalized Data with
      | Some n =>
        let owned := SarTargetExempt upcase (sysroot d) n in
        (owned, or_stream s (if owned then SAR_STREAMCTX_FLAG_OS_OWNED .| SAR_STREAMCTX_FLAG_OSOWN_CHECKED
                             else SAR_STREAMCTX_FLAG_OSOWN_CHECKED) d)
      | None => (false, d)
      end
    else (false, d)
  end.

Definition SarOperationExempt (Data : FLT_CALLBACK_DATA) d : bool * driver F :=
  if identity_exempt (issuer Data) d then (true, d) else SarStreamExemptTarget Data d.

(** The answers to [SarGetStreamContext]: the allocation; whether the context
    is set; and the context another thread set in the meantime. *)
Record context_env := { gc_alloc : bool; gc_set : bool; gc_raced : option SAR_STREAM_CONTEXT }.

(** Whether there is a context, and the state with it. *)
Definition SarGetStreamContext (env : context_env) (s : Z) d : bool * driver F :=
  match streams d !! s with
  | Some _ => (true, d)
  | None =>
    if negb (gc_alloc env) then (false, d)
    else if gc_set env then (true, set_stream s new_context d)
    else match gc_raced env with
         | Some sc => (true, set_stream s sc d)
         | None => (false, d)
         end
  end.

Definition SarSubmitMetadata (Member : sar_destruct_member_t) d : driver F :=
  set_seam (SarSeamMetadataSubmit Member (seam d)) d.

Definition SarStreamSectionDirty (s : Z) d : bool := stream_flag s SAR_STREAMCTX_FLAG_SECTION_DIRTY d.

(** The sample of the old content that goes with a write. *)
Definition seam_pre_image (s Offset : Z) d : bytes :=
  match streams d !! s with
  | Some sc =>
    let n := u32 (read_length sc) in
    if (0 <? n) && (read_offset sc =? u64 Offset)
    then take (Z.to_nat (if SAR_CAPTURE_BUFFER_BYTES <? n then SAR_CAPTURE_BUFFER_BYTES else n)) (read_sample sc)
    else []
  | None => []
  end.

Definition SarSubmitWrite (env : submit_env) (Data : FLT_CALLBACK_DATA) (Member : sar_destruct_member_t)
    (Offset Length : Z) d : driver F :=
  if SarStreamConfidentBlind (FileObject Data) d then d
  else
    SarCaptureSubmitWrite upcase env
      {| originator := issuer Data; member := Member; write_offset := Offset; wlength := Length;
         wpre_image := seam_pre_image (FileObject Data) Offset d; provenance_override := None |} d.

(** ** After a read *)

(** [SarPostRead]: the flags, the status and the count of the read, its offset,
    and the bytes of the buffer, if there is one, with whether the copy faulted
    after them. *)
Record read_result := {
  draining : bool;
  success : bool;
  Information : Z;
  ByteOffset : Z;
  src : option (bytes * bool)
}.

Definition SarPostRead (gc : context_env) (Data : FLT_CALLBACK_DATA) (r : read_result) d : driver F :=
  let got := u32 (Information r) in
  if draining r || negb (passive Data) || negb (success r) || (got =? 0) then d
  else
    let s := FileObject Data in
    let '(ok, d) := SarGetStreamContext gc s d in
    if negb ok then d
    else
      let d := or_stream s SAR_STREAMCTX_FLAG_READ_OBSERVED d in
      match src r, streams d !! s with
      | Some (data, fault), Some sc =>
        if ByteOffset r =? 0 then
          let copy := if got <? SAR_CAPTURE_BUFFER_BYTES then got else SAR_CAPTURE_BUFFER_BYTES in
          let sample := mem_write (read_sample sc) 0 (take (Z.to_nat copy) data) in
          if fault then set_stream s (set_read 0 (read_offset sc) sample sc) d
          else set_stream s (set_read copy (u64 (ByteOffset r)) sample sc) d
        else d
      | _, _ => d
      end.

(** ** Opening a file *)

Definition refused (r : SAR_STAGE_RESULT) : bool :=
  match r with SAR_STAGE_DROPPED | SAR_STAGE_FAILED => true | _ => false end.

(** The request is completed and the refusal is logged. *)
Definition refuse (now : Z) (Data : FLT_CALLBACK_DATA) d : preop * driver F :=
  (FLT_PREOP_COMPLETE STATUS_INSUFFICIENT_RESOURCES, SarCaptureNoteCapacityRefusal now (issuer Data) d).

(** FILE_SUPERSEDE, FILE_OVERWRITE or FILE_OVERWRITE_IF. *)
Definition overwrites (Options : Z) : bool :=
  let disp := (Options .>> 24) .& 0xFF in
  (disp =? FILE_SUPERSEDE) || (disp =? FILE_OVERWRITE) || (disp =? FILE_OVERWRITE_IF).

(** The test at the head of [SarPhantomPreCreate]; [decoys] is what the rest of it,
    which redirects opens of decoy files, answers. *)
Definition SarPhantomPreCreate (decoys : preop) (Data : FLT_CALLBACK_DATA) (Options : Z) d : preop :=
  if UserMode Data && SarCaptureOriginatorBlocked (issuer Data) d && overwrites Options
  then FLT_PREOP_COMPLETE STATUS_ACCESS_DENIED
  else decoys.

(** The answers to [SarPreCreate]: what [SarCaptureSubmitSupersede] asks for, the
    time, and the answer for decoys. *)
Record create_env := {
  cr_whole : whole_env;
  cr_named : bool;
  cr_opened : option Z;
  cr_name : option (list Z);
  cr_now : Z;
  cr_decoys : preop
}.

Definition SarPreCreate (env : create_env) (Data : FLT_CALLBACK_DATA) (Options : Z) d : cres (preop * driver F) :=
  if UserMode Data && passive Data && overwrites Options && (Options .& FILE_DIRECTORY_FILE =? 0) &&
     negb (identity_exempt (issuer Data) d)
  then
    let! (sr, d) := SarCaptureSubmitSupersede upcase (cr_whole env) (cr_named env) (cr_opened env) (cr_name env)
                      (passive Data) (top_level Data) (issuer Data) d in
    if refused sr && enforcing d then Ret (refuse (cr_now env) Data d)
    else Ret (SarPhantomPreCreate (cr_decoys env) Data Options d, d)
  else Ret (SarPhantomPreCreate (cr_decoys env) Data Options d, d).

(** The result of the open: its status and information, the desired access if
    there is a security context, and the options. *)
Record create_result := {
  co_draining : bool;
  co_success : bool;
  co_information : Z;
  co_access : option Z;
  co_options : Z
}.

Definition SarPostCreate (gc : context_env) (Data : FLT_CALLBACK_DATA) (r : create_result) d : driver F :=
  if co_draining r || negb (passive Data) || negb (co_success r) then d
  else
    match normalized Data with
    | None => d
    | Some n =>
      let s := FileObject Data in
      let mark f d := let '(ok, d) := SarGetStreamContext gc s d in if ok then or_stream s f d else d in
      if SarNameIsOwnStore upcase (sysroot d) n then
        mark (if Phantom.SarPhantomIsPhantomPath n then SAR_STREAMCTX_FLAG_OWN_STORE .| SAR_STREAMCTX_FLAG_PHANTOM_BACKING
              else SAR_STREAMCTX_FLAG_OWN_STORE) d
      else if SarTargetExempt upcase (sysroot d) n then
        mark (SAR_STREAMCTX_FLAG_OS_OWNED .| SAR_STREAMCTX_FLAG_OSOWN_CHECKED) d
      else
        match co_access r with
        | Some access =>
          if UserMode Data && (co_information r =? FILE_OPENED) &&
             negb (access .& (FILE_WRITE_DATA .| FILE_APPEND_DATA .| DELETE) =? 0) &&
             (co_options r .& FILE_DIRECTORY_FILE =? 0) && negb (identity_exempt (issuer Data) d)
          then mark (SAR_STREAMCTX_FLAG_TRACKED_FROM_OPEN .| SAR_STREAMCTX_FLAG_OSOWN_CHECKED) d
          else d
        | None => d
        end
    end.

(** ** Writing *)

Definition SarTargetIsProtectedStore (Data : FLT_CALLBACK_DATA) d : bool :=
  UserMode Data && stream_flag (FileObject Data) SAR_STREAMCTX_FLAG_OWN_STORE d.

Definition SarEnforceInPlaceCapture (env : region_env) (now : Z) (Data : FLT_CALLBACK_DATA) (Offset Length : Z)
    d : cres (preop * driver F) :=
  let! (r, d) := SarCaptureInPlaceRegion upcase env (passive Data) (FileObject Data) (issuer Data) Offset Length d in
  if refused r && enforcing d && negb (identity_exempt (issuer Data) d)
  then Ret (refuse now Data d)
  else Ret (FLT_PREOP_SUCCESS_NO_CALLBACK, d).

(** The result, and whether the buffers are flushed. *)
Definition SarPreCleanup (Data : FLT_CALLBACK_DATA) d : preop * bool :=
  (FLT_PREOP_SUCCESS_NO_CALLBACK,
   passive Data && top_level Data && SarStreamSectionDirty (FileObject Data) d).

(** The answers to one write: whether the driver is being unloaded, the two
    ways of a mapped stream, the region, the submission, and the time. *)
Record write_env := {
  wr_unloading : bool;
  wr_paging : inline_env;
  wr_nocache : inline_env;
  wr_region : region_env;
  wr_submit : submit_env;
  wr_now : Z
}.

(** The part after the exemptions: the old content is kept, then the write is
    submitted. *)
Definition write_capture (env : write_env) (Data : FLT_CALLBACK_DATA) (Offset Length : Z) d
    : cres (preop * driver F) :=
  let member := SarClassifyWrite (IrpFlags Data) in
  let! (r, d) :=
    if passive Data && negb (paging (IrpFlags Data)) && top_level Data && (0 <? Length) then
      if SarStreamSectionDirty (FileObject Data) d then
        if bool_decide (member = SAR_DESTRUCT_WRITE_NONCACHED) then
          let! d := SarMmapCaptureNocache upcase (wr_nocache env) (wr_unloading env) (passive Data) (FileObject Data)
                      (issuer Data) (u64 Offset) Length d in
          Ret (FLT_PREOP_SUCCESS_NO_CALLBACK, d)
        else Ret (FLT_PREOP_SUCCESS_NO_CALLBACK, d)
      else if negb (SarStreamConfidentBlind (FileObject Data) d)
      then SarEnforceInPlaceCapture (wr_region env) (wr_now env) Data (u64 Offset) Length d
      else Ret (FLT_PREOP_SUCCESS_NO_CALLBACK, d)
    else Ret (FLT_PREOP_SUCCESS_NO_CALLBACK, d) in
  match r with
  | FLT_PREOP_COMPLETE _ => Ret (r, d)
  | _ =>
    Ret (FLT_PREOP_SUCCESS_NO_CALLBACK, SarSubmitWrite (wr_submit env) Data member Offset Length d)
  end.

Definition SarPreWrite (env : write_env) (Data : FLT_CALLBACK_DATA) (Offset Length : Z) d
    : cres (preop * driver F) :=
  let! (taken, d) := SarMmapOnPagingWrite upcase (wr_paging env) (wr_unloading env) (passive Data) (IrpFlags Data)
                       (FileObject Data) (u64 Offset) Length d in
  if taken then Ret (FLT_PREOP_SUCCESS_NO_CALLBACK, d)
  else if SarCaptureOriginatorBlocked (issuer Data) d && UserMode Data && negb (paging (IrpFlags Data))
  then Ret (FLT_PREOP_COMPLETE STATUS_ACCESS_DENIED, d)
  else if stream_flag (FileObject Data) SAR_STREAMCTX_FLAG_PHANTOM_BACKING d then
    if UserMode Data then
      let '(convicts, st) := Phantom.SarPhantomEvidenceConvicts (state d) (process_id (issuer Data)) in
      let d := set_state st d in
      if convicts && enforcing d then
        let d := match capture d with
                 | Some c =>
                   let '(c, l) := SarCaptureBlockOriginator (wr_now env) c (issuer Data) SAR_EVENT_CLASS_BLOCK_PHANTOM (log d) in
                   set_capture c (set_log l d)
                 | None => d
                 end in
        Ret (FLT_PREOP_COMPLETE STATUS_ACCESS_DENIED, d)
      else Ret (FLT_PREOP_SUCCESS_NO_CALLBACK, d)
    else Ret (FLT_PREOP_SUCCESS_NO_CALLBACK, d)
  else if SarTargetIsProtectedStore Data d then Ret (FLT_PREOP_COMPLETE STATUS_ACCESS_DENIED, d)
  else
    let '(exempt, d) := SarOperationExempt Data d in
    if exempt then Ret (FLT_PREOP_SUCCESS_NO_CALLBACK, d)
    else write_capture env Data Offset Length d.

(** ** Deleting, renaming, truncating *)

(** The buffer of the request: its first eight bytes as a number, and the length
    of the name in the classes that have one. *)
Definition is_rename (m : sar_destruct_member_t) : bool :=
  match m with SAR_DESTRUCT_RENAME | SAR_DESTRUCT_RENAME_EX => true | _ => false end.
Definition is_rename_or_link (m : sar_destruct_member_t) : bool :=
  match m with SAR_DESTRUCT_LINK | SAR_DESTRUCT_LINK_EX => true | _ => is_rename m end.
Definition is_ex (m : sar_destruct_member_t) : bool :=
  match m with SAR_DESTRUCT_RENAME_EX | SAR_DESTRUCT_LINK_EX => true | _ => false end.

(** [deleting] *)
Definition deleting (m : sar_destruct_member_t) (InfoBuffer : option rename_info) : bool :=
  match m, InfoBuffer with
  | SAR_DESTRUCT_DISPOSITION_EX, Some ib => negb (u32 (ri_flags ib) .& FILE_DISPOSITION_DELETE =? 0)
  | SAR_DESTRUCT_DISPOSITION, Some ib => negb (u8 (ri_flags ib) =? 0)
  | _, _ => false
  end.

(** [newEof] *)
Definition new_eof (m : sar_destruct_member_t) (InfoBuffer : option rename_info) : option Z :=
  match m, InfoBuffer with
  | SAR_DESTRUCT_SET_EOF, Some ib | SAR_DESTRUCT_SET_ALLOCATION, Some ib => Some (u64 (ri_flags ib))
  | _, _ => None
  end.

(** The answers: what keeps the target of a rename, the names of its two ends,
    what keeps a deleted file, its name, the size of the file, the region, and
    the time. *)
Record setinfo_env := {
  ps_target : link_env;
  ps_dest : option (list Z);
  ps_opened : option Z;
  ps_rekey_src : option (list Z);
  ps_rekey_dest : option (list Z);
  ps_delete : link_env;
  ps_name : option (list Z);
  ps_size : option Z;
  ps_region : region_env;
  ps_now : Z
}.

(** Keeping what a rename or a link replaces, and renaming the records. *)
Definition setinfo_rename (env : setinfo_env) (Data : FLT_CALLBACK_DATA) (m : sar_destruct_member_t)
    (InfoBuffer : option rename_info) d : cres (preop * driver F) :=
  if is_rename_or_link m && passive Data then
    let! (sr, d) := SarCaptureSubmitRenameTarget upcase (ps_target env) InfoBuffer (is_ex m) (ps_dest env)
                      (ps_opened env) (passive Data) (issuer Data) d in
    if refused sr && enforcing d then Ret (refuse (ps_now env) Data d)
    else Ret (FLT_PREOP_SUCCESS_NO_CALLBACK,
              if is_rename m
              then SarCaptureSubmitRenameRekey InfoBuffer (ps_rekey_src env) (ps_rekey_dest env) (passive Data) d
              else d)
  else Ret (FLT_PREOP_SUCCESS_NO_CALLBACK, d).

(** Keeping a file that is deleted. *)
Definition setinfo_delete (env : setinfo_env) (Data : FLT_CALLBACK_DATA) (m : sar_destruct_member_t)
    (InfoBuffer : option rename_info) d : cres (preop * driver F) :=
  if passive Data && deleting m InfoBuffer then
    let! (sr, d) := SarCaptureSubmitDelete upcase (ps_delete env) (ps_name env) (passive Data) (FileObject Data)
                      (issuer Data) d in
    if refused sr && enforcing d then Ret (refuse (ps_now env) Data d)
    else Ret (FLT_PREOP_SUCCESS_NO_CALLBACK, d)
  else Ret (FLT_PREOP_SUCCESS_NO_CALLBACK, d).

(** Keeping the end that is cut off. *)
Definition setinfo_truncate (env : setinfo_env) (Data : FLT_CALLBACK_DATA) (m : sar_destruct_member_t)
    (InfoBuffer : option rename_info) d : cres (preop * driver F) :=
  match new_eof m InfoBuffer, ps_size env with
  | Some newEof, Some size =>
    if passive Data && negb (SarStreamConfidentBlind (FileObject Data) d) && (newEof <? size)
    then SarEnforceInPlaceCapture (ps_region env) (ps_now env) Data newEof (size - newEof) d
    else Ret (FLT_PREOP_SUCCESS_NO_CALLBACK, d)
  | _, _ => Ret (FLT_PREOP_SUCCESS_NO_CALLBACK, d)
  end.

(** [if (step == FLT_PREOP_COMPLETE) return FLT_PREOP_COMPLETE;] *)
Definition unless_complete (step : cres (preop * driver F)) (next : driver F -> cres (preop * driver F))
    : cres (preop * driver F) :=
  let! (r, d) := step in
  match r with
  | FLT_PREOP_COMPLETE _ => Ret (r, d)
  | _ => next d
  end.

Definition SarPreSetInformation (env : setinfo_env) (Data : FLT_CALLBACK_DATA) (InfoClass : Z)
    (InfoBuffer : option rename_info) d : cres (preop * driver F) :=
  let m := SarClassifySetInformation InfoClass in
  if bool_decide (m = SAR_DESTRUCT_NONE) then Ret (FLT_PREOP_SUCCESS_NO_CALLBACK, d)
  else if SarCaptureOriginatorBlocked (issuer Data) d || SarTargetIsProtectedStore Data d
  then Ret (FLT_PREOP_COMPLETE STATUS_ACCESS_DENIED, d)
  else
    let '(exempt, d) := SarOperationExempt Data d in
    if exempt then Ret (FLT_PREOP_SUCCESS_NO_CALLBACK, d)
    else
      unless_complete (setinfo_rename env Data m InfoBuffer d) (fun d =>
      unless_complete (setinfo_delete env Data m InfoBuffer d) (fun d =>
      unless_complete (setinfo_truncate env Data m InfoBuffer d) (fun d =>
      Ret (FLT_PREOP_SUCCESS_NO_CALLBACK, SarSubmitMetadata m d)))).

(** ** File system controls *)

(** The answers: whether decoys are active; the
    FILE_ZERO_DATA_INFORMATION, if the buffer is there and long enough; and the
    region, the submission and the time. *)
Record fsctl_env := {
  fc_phantom_active : bool;
  fc_zero : option (Z * Z);
  fc_region : region_env;
  fc_submit : submit_env;
  fc_now : Z
}.

Definition SarPreFsControl (env : fsctl_env) (Data : FLT_CALLBACK_DATA) (control_code : Z) d
    : cres (preop * driver F) :=
  if control_code =? FSCTL_MANAGE_BYPASS_IO then Ret (FLT_PREOP_SUCCESS_NO_CALLBACK, d)
  else if (control_code =? FSCTL_GET_NTFS_FILE_RECORD) && fc_phantom_active env && UserMode Data &&
          negb (identity_exempt (issuer Data) d)
  then Ret (FLT_PREOP_COMPLETE STATUS_ACCESS_DENIED, d)
  else
    let m := SarClassifyFsControl control_code in
    if bool_decide (m = SAR_DESTRUCT_NONE) then Ret (FLT_PREOP_SUCCESS_NO_CALLBACK, d)
    else if SarTargetIsProtectedStore Data d then Ret (FLT_PREOP_COMPLETE STATUS_ACCESS_DENIED, d)
    else
      let '(exempt, d) := SarOperationExempt Data d in
      if exempt then Ret (FLT_PREOP_SUCCESS_NO_CALLBACK, d)
      else
        unless_complete
          (match fc_zero env with
           | Some (FileOffset, BeyondFinalZero) =>
             if (control_code =? FSCTL_SET_ZERO_DATA) && passive Data &&
                negb (SarStreamConfidentBlind (FileObject Data) d) && (u64 FileOffset <? u64 BeyondFinalZero)
             then SarEnforceInPlaceCapture (fc_region env) (fc_now env) Data (u64 FileOffset)
                    (u64 (BeyondFinalZero - FileOffset)) d
             else Ret (FLT_PREOP_SUCCESS_NO_CALLBACK, d)
           | None => Ret (FLT_PREOP_SUCCESS_NO_CALLBACK, d)
           end)
          (fun d => Ret (FLT_PREOP_SUCCESS_NO_CALLBACK,
             if SarFsControlIsKeyless m then SarSubmitMetadata m d
             else SarSubmitWrite (fc_submit env) Data m 0 0 d)).

(** ** Mapping a file *)

(** The answers: the context, the protection, the previous mode, the file size
    of the FCB, a reservation another thread made in the meantime, the
    attributes of the file, and what arms the stream. *)
Record section_env := {
  sc_context : context_env;
  sc_create : bool;
  sc_protection : Z;
  sc_previous_user : bool;
  sc_file_size : option Z;
  sc_raced : option Z;
  sc_attributes : option Z;
  sc_arm : arm_env;
  sc_path : bool;
  sc_now : Z
}.

(** [est] *)
Definition section_estimate (file_size : option Z) : Z :=
  let est := match file_size with
             | Some n => if SAR_CAPTURE_BUFFER_BYTES <? u64 n then u64 n else SAR_CAPTURE_BUFFER_BYTES
             | None => SAR_CAPTURE_BUFFER_BYTES
             end in
  u64 (est + est / 16).

(** The reservation; [false] when the section must be refused. *)
Definition section_reserve (env : section_env) (Data : FLT_CALLBACK_DATA) (sc : SAR_STREAM_CONTEXT) d
    : bool * driver F :=
  let s := FileObject Data in
  if passive Data && (mmap_reserved sc =? 0) then
    let est := section_estimate (sc_file_size env) in
    match preserve d with
    | None => (negb (enforcing d), d)
    | Some (p, f) =>
      let '(ok, p') := SarPreserveReserve p est in
      if ok then
        match sc_raced env with
        | Some other => (true, set_stream s (set_reserved other sc) (set_preserve (SarPreserveRelease p' est) f d))
        | None => (true, set_stream s (set_reserved est sc) (set_preserve p' f d))
        end
      else (negb (enforcing d), d)
    end
  else (true, d).

Definition section_arm (env : section_env) (Data : FLT_CALLBACK_DATA) d : driver F :=
  let raw_safe := match sc_attributes env with
                  | Some a => a .& (FILE_ATTRIBUTE_COMPRESSED .| FILE_ATTRIBUTE_ENCRYPTED) =? 0
                  | None => true
                  end in
  match streams d !! FileObject Data with
  | Some sc =>
    if passive Data && raw_safe
    then set_stream (FileObject Data) (SarMmapArm (sc_arm env) (sc_path env) (process_id (issuer Data)) sc) d
    else d
  | None => d
  end.

Definition SarPreAcquireForSection (env : section_env) (Data : FLT_CALLBACK_DATA) d : preop * driver F :=
  let s := FileObject Data in
  if negb (sc_create env) then (FLT_PREOP_SUCCESS_NO_CALLBACK, d)
  else
    let '(ok, d) := SarGetStreamContext (sc_context env) s d in
    if negb ok then (FLT_PREOP_SUCCESS_NO_CALLBACK, d)
    else
      let d := or_stream s SAR_STREAMCTX_FLAG_READ_OBSERVED d in
      if negb ((sc_protection env =? PAGE_READWRITE) || (sc_protection env =? PAGE_EXECUTE_READWRITE))
      then (FLT_PREOP_SUCCESS_NO_CALLBACK, d)
      else if stream_flag s SAR_STREAMCTX_FLAG_OS_OWNED d || identity_exempt (issuer Data) d ||
              negb (UserMode Data) || negb (sc_previous_user env)
      then (FLT_PREOP_SUCCESS_NO_CALLBACK, d)
      else
        let d := or_stream s SAR_STREAMCTX_FLAG_SECTION_DIRTY d in
        match streams d !! s with
        | None => (FLT_PREOP_SUCCESS_NO_CALLBACK, d)
        | Some sc =>
          let '(go, d) := section_reserve env Data sc d in
          if negb go then refuse (sc_now env) Data d
          else (FLT_PREOP_SUCCESS_NO_CALLBACK,
                SarSubmitMetadata SAR_DESTRUCT_SECTION_SYNC (section_arm env Data d))
        end.

End Operations.

End Operations.
