(* ===== verification/Enforce.v ===== *)
(** * What ENFORCE mode guarantees (driver/operations.c, driver/capture.c)

    A write that the driver lets pass has left the old content of every byte it
    replaces in the preservation store: what restoration returns for such a
    byte after the write is what it returned before, or the byte that the file
    held.  The argument follows the code: the pieces of a span, the spans
    between the captured ranges, the region, the handler. *)

From stdpp Require Import gmap sets.
From S2P Require Import Prelude Mem Format Chain Keystore Protocol Whitelist Preserve EventLog DriverState.
From S2P Require Import HeapSort DriverPreserve PreserveAlloc PreserveRefine PreserveStage PreserveStore KeystorePersist Streams Calls.
From S2P Require Import DriverRecovery RecoveryFrame CaptureSeam Snapshot CaptureWork Mmap Operations.
Import Mem Layout Protocol Preserve Whitelist Streams CaptureSeam CaptureWork Mmap Operations.
Import PresRec HeapSort PreserveAlloc PreserveRefine PreserveStage.
Import DriverState (NTSTATUS, STATUS_SUCCESS, STATUS_ACCESS_DENIED, STATUS_INSUFFICIENT_RESOURCES, SAR_STATE, SarStateModeGet).
Import DriverPreserve.
Import PreserveStore (store_inv_same).
Import RecoveryFrame (lasts, lasts_next, lasts_pos, lasts_rounds).
Import DriverRecovery (SAR_PRESERVE_STAGE_MAX, piece, rounds).

Module Enforce.

Section Enforce.
Context {F : Type} {DF : DataFile F} {DFL : DataFileLaws F} {AC : AesCbc} {ACL : AesCbcLaws}.

(** ** The budget of the store does not change *)

Lemma alloc_retention ok p n o p' : SarPresAlloc ok p n = Ret (o, p') -> retention_100ns p' = retention_100ns p.
Proof.
  unfold SarPresAlloc, SarPresFreeRebuild. intros E.
  assert (exists q, retention_100ns q = retention_100ns p /\
    (o, p') = match list_find (fun e => n <= len e) (free_ext q) with
              | Some (i, e) => (off e, set_free (take_extent (free_ext q) i n) (data_high_water q) (free_dirty q) q)
              | None => (data_high_water q, set_free (free_ext q) (u64 (data_high_water q + n)) (free_dirty q) q)
              end) as (q&Hq&E').
  { revert E. generalize (free_dirty p). intros []; [destruct (records p); [|destruct ok]|]; cbn [negb cbind];
      try destruct (SarPresHeapSort _); cbn [cbind]; try destruct (fold_left _ _ _); cbn [cbind]; try done;
      match goal with |- match list_find _ (free_ext ?q) with _ => _ end = _ -> _ => exists q end;
      (split; [done|]); destruct (list_find _ _) as [[]|]; congruence. }
  destruct (list_find _ (free_ext q)) as [[i e]|]; injection E' as _ ->; exact Hq.
Qed.

Lemma append_retention r p : retention_100ns (append_record r p) = retention_100ns p.
Proof. unfold append_record. destruct (sar_preserve_append _ _ _). by dif. Qed.

Lemma removed_retention res p : retention_100ns (removed_records res p) = retention_100ns p.
Proof. destruct res as [n rs]. unfold removed_records. by dif. Qed.

Lemma budget_retention mode against p n q :
  stage_budget mode against p n = Ret (Some q) -> retention_100ns q = retention_100ns p.
Proof.
  unfold stage_budget. repeat dif; try done; try congruence.
  destruct (sar_preserve_evict_probation_oldest _ _) as [[m rs]| |]; [|done..]. cbn [cbind]. intros [= <-]. apply (removed_retention (m, rs)).
Qed.

Lemma round_retention env a p f cursor stop r p' f' :
  stage_round env a p f cursor stop = Ret (r, p', f') -> retention_100ns p' = retention_100ns p.
Proof.
  unfold stage_round. destruct (sar_preserve_first_gap _ _ _ _) as [[[g_off g_len]|]| |]; cbn [cbind]; [|congruence|done..].
  destruct (stage_budget _ _ _ _) as [[q|]| |] eqn:Eb; cbn [cbind]; [|congruence|done..].
  apply budget_retention in Eb. dif; [congruence|]. unfold stage_store.
  destruct (random_iv env); [|congruence]. repeat (dif; [congruence|]).
  destruct (SarPresCrypt _ _ _ _ _) as [status ct]. dif; [congruence|].
  destruct (SarPresAlloc _ _ _) as [[o q1]| |] eqn:Ea; cbn [cbind]; [|done..]. apply alloc_retention in Ea.
  dif; intros [= <- <- <-]; rewrite ?append_retention; cbn; congruence.
Qed.

Lemma stage_retention env p f st now path o n actor pt against r p' f' :
  SarPreserveStage env p f st now path o n actor pt against = Ret (r, p', f') -> retention_100ns p' = retention_100ns p.
Proof.
  unfold SarPreserveStage. repeat (dif; [congruence|]). set (q := removed_records _ p).
  assert (Hq : retention_100ns q = retention_100ns p) by (unfold q; apply removed_retention).
  rewrite <- Hq. clearbody q. clear Hq. generalize (S (Z.to_nat n)) as fuel. intros fuel.
  destruct (stage_loop _ _ _ _ _ _ _ _ _) as [[[[res stg] p1] f1]| |] eqn:El; cbn [cbind]; [|done..].
  intros [= _ <- _]. revert El. generalize 0%nat as i, false as staged, o at 2 as cursor. intros i staged cursor.
  revert i q f cursor staged. induction fuel as [|fuel IH]; intros i q f cursor staged; [done|].
  cbn [stage_loop]. dif; [|congruence].
  destruct (stage_round _ _ _ _ _ _) as [[[rd q1] f2]| |] eqn:Er; cbn [cbind]; [|done..].
  apply round_retention in Er. destruct rd; [congruence|]. intros El. rewrite <- Er. by eapply IH.
Qed.

(** ** Staging the content of a file *)

Section Content.
Context (calls : nat -> stage_call) (now : Z) (path : list Z) (content : bytes).
Context (Henv : forall k i, env_ok (call_env (calls k) i)).
Context (Hmode : forall k i, mode_now (call_env (calls k) i) = SEMANTICS_AR_MODE_ENFORCE).
Context (Hnow : forall k, call_now (calls k) = now).
Context (Hcan : canonical path) (Hbytes : is_bytes content) (Hsize : Z.of_nat (length content) < 2 ^ 62).

(** No record has expired. *)
Definition fresh (p : SAR_PRESERVE) : Prop :=
  Forall (fun r => (capture_time r <? now) && (retention_100ns p <=? u64 (now - capture_time r)) = false) (records p).

(** The new entries hold parts of the file. *)
Definition of_file (e : entry) : Prop :=
  e_path e = path /\ 0 <= e_off e /\ exists n, 0 < n /\ e_off e + n <= Z.of_nat (length content) /\
    e_content e = Bytes (slice content (e_off e) n).
Definition filed (l l' : list entry) : Prop := exists es, l' = l ++ es /\ Forall of_file es.

Lemma filed_refl l : filed l l.
Proof. exists []. by rewrite app_nil_r. Qed.

Lemma filed_trans l l' l'' : filed l l' -> filed l' l'' -> filed l l''.
Proof. intros (k&->&Hk) (k'&->&Hk'). exists (k ++ k'). by rewrite app_assoc, Forall_app. Qed.

(** What holds of the store between two calls. *)
Record good (p : SAR_PRESERVE) (f : F) (l : list entry) (B : Z) : Prop := {
  g_inv : store_inv p f l;
  g_bounded : bounded B p;
  g_fresh : fresh p;
  g_rebuild : hw_covers p \/ forall k i, rebuild_alloc (call_env (calls k) i) = true
}.

(** What a call does to it. *)
Record moved (p : SAR_PRESERVE) (l : list entry) (p' : SAR_PRESERVE) (l' : list entry) : Prop := {
  m_grown : grown now (records p) (records p');
  m_filed : filed l l'
}.

Lemma moved_refl p l : moved p l p l.
Proof. split; [apply grown_refl|apply filed_refl]. Qed.

Lemma moved_trans p l p1 l1 p2 l2 : moved p l p1 l1 -> moved p1 l1 p2 l2 -> moved p l p2 l2.
Proof. intros [] []. split; [by eapply grown_trans|by eapply filed_trans]. Qed.

Lemma fresh_evict p : fresh p -> (sar_preserve_evict_aged (records p) now (retention_100ns p)).2 = records p.
Proof.
  intros Hf. unfold sar_preserve_evict_aged. rewrite compact_spec. cbn [snd]. unfold fresh in Hf.
  induction Hf as [|r rs Hr _ IH]; [done|]. cbn [List.filter]. by rewrite Hr, IH.
Qed.

Lemma fresh_entries p f l : store_inv p f l -> fresh p ->
  List.filter (fun e => negb (e_aged now (retention_100ns p) e)) l = l.
Proof.
  intros [Hrep _ _ _ _ _] Hf. unfold fresh in Hf. revert Hf.
  induction Hrep as [|r e rs l Hr _ IH]; [done|]. intros [H1 H2]%Forall_cons. cbn [List.filter]. unfold e_aged at 1.
  rewrite <- (r_time _ _ _ _ Hr), H1. cbn [negb]. by rewrite IH.
Qed.

Lemma slice_slice b o n i m : 0 <= o -> 0 <= i -> 0 <= m -> i + m <= n -> slice (slice b o n) i m = slice b (o + i) m.
Proof.
  intros Ho Hi Hm Hn. unfold slice. rewrite skipn_firstn_comm, take_take, drop_drop. f_equal; [lia|]. f_equal. lia.
Qed.

Lemma is_bytes_slice b o n : is_bytes b -> is_bytes (slice b o n).
Proof. intros Hb. unfold slice. by apply Forall_take, Forall_drop. Qed.

Lemma stage_step k st p f l actor off n B :
  good p f l B -> 0 <= off -> 0 < n <= SAR_PRESERVE_STAGE_MAX -> off + n <= Z.of_nat (length content) ->
  0 <= B -> B + 16 * n < 2 ^ 64 ->
  exists r p' f' l',
    SarPreserveStage (call_env (calls k)) p f st (call_now (calls k)) path off n actor (slice content off n) false =
      Ret (r, p', f') /\
    good p' f' l' (B + 16 * n) /\ moved p l p' l' /\
    (r = SAR_STAGE_STORED \/ r = SAR_STAGE_ALREADY_COVERED ->
     forall x, off <= x < off + n -> covered_at (records p') path x).
Proof using All.
  intros [Hi Hb Hf Hrb] Ho Hn Hend HB HBn. unfold SAR_PRESERVE_STAGE_MAX in Hn. rewrite Hnow.
  assert (Hlen : Z.of_nat (length (slice content off n)) = n) by (apply length_slice; lia).
  destruct (stage_sim_bounded true (call_env (calls k)) p f l st now path off n actor (slice content off n) false B)
    as (r&p'&f'&l'&Heq&_&Hi'&Hw&Hbd&Hc); try done; try lia.
  { destruct Hrb; [by left|right; auto]. }
  { by apply is_bytes_slice. }
  destruct (Hc (Hmode k) Hcan Hlen ltac:(lia)) as (Hmd&Hg&Hcov).
  rewrite (fresh_evict p Hf) in Hg. unfold a_fresh in Hmd. rewrite (fresh_entries p f l Hi Hf) in Hmd.
  exists r, p', f', l'. split; [done|]. split; [|split; [|done]].
  - split; [done|done| |destruct Hrb; [left; auto|by right]].
    unfold fresh. rewrite (stage_retention _ _ _ _ _ _ _ _ _ _ _ _ _ _ Heq). destruct Hg as (ks&->&Hks).
    apply Forall_app. split; [exact Hf|]. eapply Forall_impl; [exact Hks|]. intros r' ->. by rewrite Z.ltb_irrefl.
  - split; [done|]. destruct Hmd as (es&->&Hes). exists es. split; [done|]. eapply Forall_impl; [exact Hes|].
    intros e (go&gl&H1&H2&H3&->). unfold of_file, gap_entry. cbn [e_path e_off e_content].
    split_and!; [exact Hcan|cbn in *; lia|]. exists gl. split_and!; [done|cbn in *; lia|].
    cbn. rewrite slice_slice by (cbn in *; lia). do 2 f_equal. lia.
Qed.

Lemma worse_fine w r : fine (worse w r) -> worse w r = w /\ fine r.
Proof. destruct r; unfold fine; cbn; intuition discriminate. Qed.

Lemma stage_piece_bounds pos stop : pos < stop ->
  0 < piece pos stop <= SAR_PRESERVE_STAGE_MAX /\ pos + piece pos stop <= stop /\
  (pos + piece pos stop = stop \/ piece pos stop = SAR_PRESERVE_STAGE_MAX).
Proof.
  intros Hp. unfold piece, SAR_PRESERVE_STAGE_MAX. destruct (Z.ltb_spec (4 * 1024 * 1024) (stop - pos)); lia.
Qed.

Lemma view_slice aligned off n : 0 <= aligned <= off ->
  take (Z.to_nat n) (drop (Z.to_nat (off - aligned)) (drop (Z.to_nat aligned) content)) = slice content off n.
Proof. intros Ha. unfold slice. rewrite drop_drop. do 2 f_equal. lia. Qed.

(** The result of the span [from, stop): the store with its old content, if no
    piece failed. *)
Definition spanned (w w' : SAR_STAGE_RESULT) (from stop : Z) (p' : SAR_PRESERVE) : Prop :=
  fine w' -> w' = w /\ forall x, from <= x < stop -> covered_at (records p') path x.

Lemma span_sim fuel k st p f l actor aligned off stop w B :
  good p f l B -> lasts fuel off stop -> 0 <= aligned <= off -> stop <= Z.of_nat (length content) ->
  0 <= B -> B + 16 * Z.max 0 (stop - off) < 2 ^ 64 ->
  exists w' k' p' f' l',
    span_loop fuel calls k st p f path actor (drop (Z.to_nat aligned) content) aligned off stop w = Ret (w', k', p', f') /\
    good p' f' l' (B + 16 * Z.max 0 (stop - off)) /\ moved p l p' l' /\ spanned w w' off stop p'.
Proof using All.
  revert k p f l off w B. induction fuel as [|fuel IH]; intros k p f l off w B Hg Hfu Ha Hst HB HBs; [by apply lasts_pos in Hfu|].
  cbn [span_loop]. destruct (Z.ltb_spec off stop) as [Hlt|Hge].
  2: { exists w, k, p, f, l. rewrite Z.max_l, Z.mul_0_r, Z.add_0_r by lia.
       split_and!; [done|done|apply moved_refl|]. intros _. split; [done|]. lia. }
  rewrite Z.max_r in HBs |- * by lia. rewrite view_slice by done.
  destruct (stage_piece_bounds off stop Hlt) as (P1&P2&P3).
  destruct (stage_step k (Some st) p f l actor off (piece off stop) B) as (r&p1&f1&l1&->&Hg1&Hm1&Hc1); [done|lia|done|lia|done|lia|].
  cbn [cbind]. destruct (lasts_next _ _ _ Hfu Hlt) as [Hfu' ->]. unfold SAR_PRESERVE_STAGE_MAX in *.
  destruct (IH (S k) p1 f1 l1 (off + 4 * 1024 * 1024) (worse w r) (B + 16 * piece off stop))
    as (w'&k'&p'&f'&l'&->&Hg'&Hm'&Hs'); [done| |lia|done|lia|lia|].
  { by rewrite u64_small in Hfu' by (unfold is_u, lasts in *; lia). }
  exists w', k', p', f', l'. split_and!; [done| |by eapply moved_trans|].
  - destruct Hg' as [G1 G2 G3 G4]. split; [done| |done|done]. eapply bounded_weaken; [|exact G2]. lia.
  - intros Hw. destruct (Hs' Hw) as [Hw1 Hc']. rewrite Hw1 in Hw. destruct (worse_fine _ _ Hw) as [Hw2 Hr].
    split; [congruence|].
    intros x Hx. destruct (Z_lt_le_dec x (off + piece off stop)).
    + eapply covered_grown; [apply Hm'|]. apply Hc1; [done|lia].
    + apply Hc'. lia.
Qed.

Lemma good_weaken p f l B B' : B <= B' -> good p f l B -> good p f l B'.
Proof. intros HB [G1 G2 G3 G4]. split; [done| |done|done]. by eapply bounded_weaken. Qed.

(** One span, as the region stages it. *)
Lemma stage_span_sim k st p f l actor aligned from stop w B :
  good p f l B -> 0 <= aligned <= from -> from <= stop -> stop <= Z.of_nat (length content) ->
  0 <= B -> B + 16 * (stop - from) < 2 ^ 64 ->
  exists r k' p' f' l',
    SarCaptureStageSpan calls k st p f path actor (drop (Z.to_nat aligned) content) aligned from stop = Ret (r, k', p', f') /\
    good p' f' l' (B + 16 * (stop - from)) /\ moved p l p' l' /\ spanned w (worse w r) from stop p'.
Proof using All.
  intros Hg Ha Hfs Hst HB HBs. unfold SarCaptureStageSpan.
  destruct (span_sim (rounds (stop - from)) k st p f l actor aligned from stop SAR_STAGE_STORED B)
    as (w'&k'&p'&f'&l'&->&Hg'&Hm'&Hs'); [done|apply lasts_rounds; lia|done|done|done|lia|].
  rewrite Z.max_r in Hg' by lia. exists w', k', p', f', l'. split_and!; [done..|].
  intros Hw. destruct (worse_fine _ _ Hw) as [-> Hr]. split; [done|]. by destruct (Hs' Hr).
Qed.

(** The gap before the range [r]. *)
Lemma gap_sim r k st p f l actor aligned stop cursor w B :
  good p f l B -> 0 <= aligned <= cursor -> cursor < stop -> start r < stop -> stop <= Z.of_nat (length content) ->
  0 <= B -> B + 16 * (stop - cursor) < 2 ^ 64 ->
  exists w1 k1 p1 f1 l1,
    (if cursor <? start r then
       let! (res, k, p, f) := SarCaptureStageSpan calls k st p f path actor (drop (Z.to_nat aligned) content) aligned cursor
                                (if start r <? stop then start r else stop) in
       Ret (worse w res, k, p, f)
     else Ret (w, k, p, f)) = Ret (w1, k1, p1, f1) /\
    good p1 f1 l1 (B + 16 * (Z.max (start r) cursor - cursor)) /\ moved p l p1 l1 /\ spanned w w1 cursor (start r) p1.
Proof using All.
  intros Hg Ha Hlt Hsr Hst HB HBs. destruct (Z.ltb_spec cursor (start r)) as [Hgap|Hgap].
  - destruct (Z.ltb_spec (start r) stop); [|lia].
    destruct (stage_span_sim k st p f l actor aligned cursor (start r) w B) as (res&k1&p1&f1&l1&->&G&M&Sp); try done; try lia.
    cbn [cbind]. exists (worse w res), k1, p1, f1, l1. rewrite Z.max_l by lia. done.
  - exists w, k, p, f, l. rewrite Z.max_r, Z.sub_diag, Z.mul_0_r, Z.add_0_r by lia.
    split_and!; [done|done|apply moved_refl|]. intros _. split; [done|]. lia.
Qed.

(** The loop over the captured ranges. *)
Lemma gaps_sim rs k st p f l actor aligned stop cursor w B :
  good p f l B -> Forall (fun r => start r < range_end r) rs ->
  (forall x, in_ranges rs x -> x < stop -> covered_at (records p) path x) ->
  0 <= aligned <= cursor -> cursor <= stop -> stop <= Z.of_nat (length content) -> 0 <= B -> B + 16 * (stop - cursor) < 2 ^ 64 ->
  exists c w' k' p' f' l',
    gaps_loop rs calls k st p f path actor (drop (Z.to_nat aligned) content) aligned stop cursor w = Ret (c, w', k', p', f') /\
    cursor <= c /\ good p' f' l' (B + 16 * (Z.min c stop - cursor)) /\ moved p l p' l' /\
    spanned w w' cursor (Z.min c stop) p'.
Proof using All.
  revert k p f l cursor w B. induction rs as [|r rs IH]; intros k p f l cursor w B Hg Hne Hin Ha Hcs Hst HB HBs; cbn [gaps_loop].
  { exists cursor, w, k, p, f, l. split_and!; [done|lia|eapply good_weaken; [|done]; lia|apply moved_refl|].
    intros _. split; [done|]. lia. }
  assert (Hstop : exists c w' k' p' f' l', Ret (cursor, w, k, p, f) = Ret (c, w', k', p', f') /\ cursor <= c /\
    good p' f' l' (B + 16 * (Z.min c stop - cursor)) /\ moved p l p' l' /\ spanned w w' cursor (Z.min c stop) p').
  { exists cursor, w, k, p, f, l. split_and!; [done|lia|eapply good_weaken; [|done]; lia|apply moved_refl|].
    intros _. split; [done|]. lia. }
  destruct (Z.ltb_spec cursor stop) as [Hlt|Hge]; cbn [negb]; [|done].
  apply Forall_cons in Hne as [Hr Hne].
  destruct (Z.leb_spec (range_end r) cursor) as [Hre|Hre].
  { apply IH; try done. intros x Hx. apply Hin. by apply Exists_cons_tl. }
  destruct (Z.leb_spec stop (start r)) as [Hsr|Hsr]; [done|]. clear Hstop.
  destruct (gap_sim r k st p f l actor aligned stop cursor w B) as (w1&k1&p1&f1&l1&->&G1&M1&S1); try done; try lia.
  cbn [cbind].
  assert (Hrange : forall q, grown now (records p) (records q) -> forall x, start r <= x < Z.min (range_end r) stop ->
    covered_at (records q) path x).
  { intros q Hq x Hx. eapply covered_grown; [exact Hq|]. apply Hin; [|lia]. apply Exists_cons_hd. lia. }
  destruct (Z_le_gt_dec (range_end r) stop) as [Hle|Hgt].
  - destruct (IH k1 p1 f1 l1 (range_end r) w1 (B + 16 * (Z.max (start r) cursor - cursor)))
      as (c&w'&k'&p'&f'&l'&->&Hc&G'&M'&S'); try done; try lia.
    { intros x Hx Hxs. eapply covered_grown; [apply M1|]. apply Hin; [by apply Exists_cons_tl|done]. }
    exists c, w', k', p', f', l'. split_and!; [done|lia|eapply good_weaken; [|done]; lia|by eapply moved_trans|].
    intros Hw. destruct (S' Hw) as [-> C']. destruct (S1 Hw) as [-> C1]. split; [done|]. intros x Hx.
    destruct (Z_lt_le_dec x (start r)); [eapply covered_grown; [apply M'|]; apply C1; lia|].
    destruct (Z_lt_le_dec x (range_end r)); [|apply C'; lia].
    apply Hrange; [|lia]. eapply grown_trans; [apply M1|apply M'].
  - assert (Hend : gaps_loop rs calls k1 st p1 f1 path actor (drop (Z.to_nat aligned) content) aligned stop (range_end r) w1 =
        Ret (range_end r, w1, k1, p1, f1)).
    { destruct rs; [done|]. cbn [gaps_loop]. by destruct (Z.ltb_spec (range_end r) stop); [lia|]. }
    rewrite Hend. exists (range_end r), w1, k1, p1, f1, l1.
    split_and!; [done|lia|eapply good_weaken; [|done]; lia|done|]. intros Hw. destruct (S1 Hw) as [-> C1]. split; [done|].
    intros x Hx. destruct (Z_lt_le_dec x (start r)); [apply C1; lia|]. apply Hrange; [apply M1|lia].
Qed.

(** ** What restoration returns afterwards *)

Lemma covered_match p f l x : store_inv p f l -> 0 <= x < 2 ^ 63 -> covered_at (records p) path x ->
  exists e, e ∈ l /\ e_match path x 1 e = true.
Proof.
  intros [Hrep _ _ _ _ _] Hx. unfold covered_at. induction Hrep as [|r e rs l Hr _ IH]; [by intros ?%Exists_nil|].
  intros [[Hp Hb]|Hc]%Exists_cons.
  - exists e. split; [by left|]. destruct Hr as [R1 R2 R3 _ _ _ _ R8 _]. unfold e_match, rend in *.
    rewrite R1 in Hp. rewrite R2, R3 in Hb. rewrite Hp, andb_true_r. rewrite (u64_small (x + 1)) by (unfold is_u; lia).
    apply andb_true_iff. split; apply Z.leb_le; lia.
  - destruct (IH Hc) as (e'&He&Hm). exists e'. split; [by right|done].
Qed.

Lemma match_covered p f l x e : store_inv p f l -> 0 <= x < 2 ^ 63 -> e ∈ l -> e_match path x 1 e = true ->
  covered_at (records p) path x.
Proof.
  intros [Hrep _ _ _ _ _] Hx He Hm. apply Exists_exists. apply list_elem_of_lookup in He as [i Hi].
  destruct (Forall2_lookup_r _ _ _ _ _ Hrep Hi) as (r&Hr&[R1 R2 R3 _ _ _ _ R8 _]).
  exists r. split; [by eapply list_elem_of_lookup_2|]. unfold e_match in Hm. bsimp. unfold holds_byte, rend.
  rewrite R1, R2, R3. rewrite (u64_small (x + 1)) in * by (unfold is_u; lia). split; [done|lia].
Qed.

(** The first copy of a byte is the one that is restored, and a new one is the
    byte of the file. *)
Lemma restore_filed genv p f l p' f' l' x :
  store_inv p f l -> store_inv p' f' l' -> filed l l' -> grants genv -> 0 <= x < Z.of_nat (length content) ->
  covered_at (records p') path x ->
  (covered_at (records p) path x /\
   SarPreserveRestore genv p' f' path x 1 1 = SarPreserveRestore genv p f path x 1 1) \/
  SarPreserveRestore genv p' f' path x 1 1 = (STATUS_SUCCESS, [rd content (Z.to_nat x)]).
Proof using Hsize.
  intros Hi Hi' (es&->&Hes) Hg Hx Hc.
  pose proof (restore_refines genv p f l path x 1 1 Hi Hg ltac:(lia) ltac:(lia) ltac:(lia)) as R.
  pose proof (restore_refines genv p' f' _ path x 1 1 Hi' Hg ltac:(lia) ltac:(lia) ltac:(lia)) as R'.
  unfold a_restore in R, R'. destruct (list_find _ l) as [[i e]|] eqn:Hl.
  - left. rewrite (list_find_app_l _ _ _ _ _ Hl) in R'. apply list_find_Some in Hl as (Hl&Hm&_).
    split; [eapply match_covered; try done; [lia|by eapply list_elem_of_lookup_2]|].
    destruct (e_content e); congruence.
  - right. apply list_find_None in Hl. rewrite list_find_app_r in R' by (by apply list_find_None).
    destruct (list_find _ es) as [[i e]|] eqn:He; cbn in R'.
    + apply list_find_Some in He as (He&Hm&_). rewrite Forall_forall in Hes.
      destruct (Hes e) as (E1&E2&n&E3&E4&E5); [by eapply list_elem_of_lookup_2|]. rewrite E5 in R'. rewrite R'. f_equal.
      unfold e_match, e_len in Hm. rewrite E5 in Hm. rewrite length_slice in Hm by lia. bsimp.
      rewrite !u64_small in * by (unfold is_u; lia). rewrite slice_slice by lia. unfold slice.
      replace (e_off e + (x - e_off e)) with x by lia. change (Z.to_nat 1) with 1%nat.
      destruct (lookup_lt_is_Some_2 content (Z.to_nat x) ltac:(lia)) as [b Hb].
      rewrite (drop_S _ _ _ Hb). cbn. f_equal. symmetry. by apply rd_lookup.
    + exfalso. apply list_find_None in He. destruct (covered_match p' f' (l ++ es) x Hi' ltac:(lia) Hc) as (e&Hin&Hm).
      apply elem_of_app in Hin as [Hin|Hin].
      * rewrite Forall_forall in Hl. by apply (Hl e).
      * rewrite Forall_forall in He. by apply (He e).
Qed.

End Content.

(** ** A region of a file *)

Lemma aligned_start x : 0 <= x -> 0 <= x .& Z.lnot (SAR_MAP_GRANULARITY - 1) <= x.
Proof.
  intros Hx. change (SAR_MAP_GRANULARITY - 1) with (2 ^ 16 - 1). rewrite land_lnot_pow by lia.
  pose proof (Z.mod_pos_bound x (2 ^ 16) ltac:(lia)). pose proof (Z.mod_le x (2 ^ 16) Hx ltac:(lia)). lia.
Qed.

Lemma cap_insert_frame a s e sc : flags (SarCapRangeInsert a s e sc).2 = flags sc.
Proof. unfold SarCapRangeInsert. repeat dif; done. Qed.

(** The captured ranges of a stream are in the store. *)
Definition ranges_held (p : SAR_PRESERVE) (path : list Z) (sc : SAR_STREAM_CONTEXT) : Prop :=
  forall x, in_ranges (cap_ranges sc) x -> covered_at (records p) path x.

(** What the region needs: the answers of the system, and the file. *)
Record region_ok (env : region_env) (now : Z) (path : list Z) (content : bytes) : Prop := {
  ro_env : forall k i, env_ok (call_env (re_calls env k) i);
  ro_mode : forall k i, mode_now (call_env (re_calls env k) i) = SEMANTICS_AR_MODE_ENFORCE;
  ro_now : forall k, call_now (re_calls env k) = now;
  ro_path : canonical path /\ path = SarCaptureResolveProvenance (re_name env);
  ro_content : is_bytes content /\ Z.of_nat (length content) < 2 ^ 58;
  ro_section : re_section_ctx env = true /\ re_section env = Some content /\ re_view env = true
}.

Lemma region_sim env now path content st p f l actor sc Offset stop B :
  region_ok env now path content -> good (re_calls env) now p f l B -> context_ok sc -> ranges_held p path sc ->
  0 <= Offset < stop -> stop <= Z.of_nat (length content) -> 0 <= B -> B + 16 * (stop - Offset) < 2 ^ 64 ->
  exists w sc' p' f' l',
    stage_region env st p f path actor content sc Offset stop = Ret (w, sc', p', f') /\
    good (re_calls env) now p' f' l' (B + 16 * (stop - Offset)) /\ moved now path content p l p' l' /\
    (fine w -> forall x, Offset <= x < stop -> covered_at (records p') path x) /\
    flags sc' = flags sc /\ ranges_ok (cap_ranges sc') /\ ranges_held p' path sc'.
Proof using DFL ACL.
  intros [Henv Hmode Hnow [Hcan _] [Hby Hsz] _] Hg Hctx Hheld HO Hst HB HBs. unfold stage_region.
  pose proof (aligned_start Offset ltac:(lia)) as Hal. set (al := Offset .& _) in *.
  destruct (gaps_sim (re_calls env) now path content Henv Hmode Hnow Hcan Hby ltac:(lia) (cap_ranges sc) 0 st p f l actor al stop
    Offset SAR_STAGE_STORED B) as (c&w&k&p1&f1&l1&->&Hc&G1&M1&S1); try done; try lia.
  { apply Hctx. }
  { intros x Hx _. by apply Hheld. }
  cbn [cbind].
  assert (exists w' p' f' l',
    (if c <? stop then
       let! (r, _, p, f) := SarCaptureStageSpan (re_calls env) k st p1 f1 path actor (drop (Z.to_nat al) content) al c stop in
       Ret (worse w r, p, f)
     else Ret (w, p1, f1)) = Ret (w', p', f') /\
    good (re_calls env) now p' f' l' (B + 16 * (stop - Offset)) /\ moved now path content p l p' l' /\
    (fine w' -> w' = SAR_STAGE_STORED /\ forall x, Offset <= x < stop -> covered_at (records p') path x))
    as (w'&p'&f'&l'&->&G'&M'&C').
  { destruct (Z.ltb_spec c stop) as [Hlt|Hge].
    - destruct (stage_span_sim (re_calls env) now path content Henv Hmode Hnow Hcan Hby ltac:(lia) k st p1 f1 l1 actor al c stop w
        (B + 16 * (Z.min c stop - Offset))) as (r&k'&p'&f'&l'&->&G'&M'&S'); try done; try lia.
      cbn [cbind]. exists (worse w r), p', f', l'. split_and!; [done|eapply good_weaken; [|done]; lia|by eapply moved_trans|].
      intros Hw. destruct (S' Hw) as [Heq C']. rewrite Heq in Hw. destruct (S1 Hw) as [-> C1]. split; [done|]. intros x Hx.
      destruct (Z_lt_le_dec x c); [eapply covered_grown; [apply M'|]; apply C1; lia|apply C'; lia].
    - exists w, p1, f1, l1. split_and!; [done|eapply good_weaken; [|done]; lia|done|].
      intros Hw. destruct (S1 Hw) as [-> C1]. split; [done|]. intros x Hx. apply C1. lia. }
  cbn [cbind]. eexists w', _, p', f', l'. split; [done|]. split_and!; [done|done|by intros Hw; apply C'| | |].
  - dif; [apply cap_insert_frame|done].
  - dif; [|apply Hctx]. pose proof (cap_range_insert_spec (re_array env) Offset stop sc Hctx ltac:(lia)) as Hin.
    destruct (SarCapRangeInsert _ _ _ _). apply Hin.
  - assert (Hold : ranges_held p' path sc) by (intros x Hx; eapply covered_grown; [apply M'|by apply Hheld]).
    dif; [|done]. apply bool_decide_eq_true in E. destruct (C' ltac:(by left)) as [_ Hcov].
    pose proof (cap_range_insert_spec (re_array env) Offset stop sc Hctx ltac:(lia)) as Hin.
    destruct (SarCapRangeInsert _ _ _ _) as [[] sc']; cbn [snd].
    + intros x Hx. apply Hin in Hx as [Hx|Hx]; [by apply Hcov|by apply Hold|done].
    + by destruct Hin as (_&_&_&[_ ->]).
Qed.

(** ** The handlers *)

Section Handlers.
Context (upcase : Z -> Z).
Implicit Types d : driver F.

(** A driver in ENFORCE mode with a store, and the stream of a request. *)
Record armed (d : driver F) (calls : nat -> stage_call) (now : Z) (path : list Z) (s : Z) (sc : SAR_STREAM_CONTEXT)
    (p : SAR_PRESERVE) (f : F) (l : list entry) (B : Z) : Prop := {
  ar_store : preserve d = Some (p, f) /\ is_Some (capture d);
  ar_good : good calls now p f l B;
  ar_path : SarCapturePathExempt upcase (sysroot d) path = false;
  ar_stream : streams d !! s = Some sc;
  ar_ranges : context_ok sc /\ ranges_held p path sc;
  ar_enforce : enforcing d = true
}.

(** The old content of [from, stop) is in the store: restoration returns what it
    returned before, or the byte of the file. *)
Definition kept (path : list Z) (content : bytes) (p : SAR_PRESERVE) (f : F) (p' : SAR_PRESERVE) (f' : F) (from stop : Z) : Prop :=
  forall genv x, grants genv -> from <= x < stop ->
    (covered_at (records p) path x /\
     SarPreserveRestore genv p' f' path x 1 1 = SarPreserveRestore genv p f path x 1 1) \/
    SarPreserveRestore genv p' f' path x 1 1 = (STATUS_SUCCESS, [rd content (Z.to_nat x)]).

Lemma store_of_armed d calls now path s sc p f l B :
  armed d calls now path s sc p f l B -> store_of d = Some (p, f).
Proof.
  intros [[Hp [c Hc]] [Hi _ _ _] _ _ _ _]. unfold store_of. rewrite Hc, Hp. by rewrite (si_ready _ _ _ Hi).
Qed.

Lemma set_same s sc p f d : streams d !! s = Some sc -> preserve d = Some (p, f) ->
  set_stream s sc (set_preserve p f d) = d.
Proof.
  intros Hs Hp. destruct d as [a1 a2 a3 a4 a5 a6 a7 a8 a9 a10]. cbn in Hs, Hp. subst a3.
  unfold set_stream, set_streams, set_preserve. cbn. by rewrite insert_id.
Qed.

Lemma inplace_sim env now path content s sc pr Offset Length d p f l B :
  region_ok env now path content -> armed d (re_calls env) now path s sc p f l B ->
  0 <= Offset -> 0 < Length -> Offset + Length < 2 ^ 63 -> 0 <= B -> B + 16 * Z.of_nat (length content) < 2 ^ 64 ->
  exists w sc' p' f',
    SarCaptureInPlaceRegion upcase env true s pr Offset Length d = Ret (w, set_stream s sc' (set_preserve p' f' d)) /\
    flags sc' = flags sc /\ ranges_held p' path sc' /\
    (fine w -> kept path content p f p' f' Offset (Z.min (Offset + Length) (Z.of_nat (length content)))).
Proof using DFL ACL.
  intros Hro Har HO HL HOL HB HBs. pose proof (store_of_armed _ _ _ _ _ _ _ _ _ _ Har) as Hso.
  pose proof Hro as [_ _ _ [Hcan Hpath] [Hby Hsz] (Hs1&Hs2&Hs3)]. pose proof Har as [[Hp Hc] Hg Hpe Hst [Hctx Hheld] Hen].
  unfold SarCaptureInPlaceRegion. rewrite Hso, <- Hpath, Hpe, Hst, Hs1, Hs2, Hs3. cbn [negb orb].
  destruct (Z.eqb_spec Length 0); [lia|]. cbn [orb]. rewrite (u64_small (Offset + Length)) by (unfold is_u; lia).
  set (stop := if _ <? _ then _ else _).
  assert (Hstop : stop = Z.min (Offset + Length) (Z.of_nat (length content))).
  { unfold stop. destruct (Z.ltb_spec (Z.of_nat (length content)) (Offset + Length)); lia. }
  rewrite <- Hstop. destruct (Z.ltb_spec Offset stop) as [Hlt|Hge]; cbn [andb].
  2: { exists SAR_STAGE_STORED, sc, p, f. rewrite (set_same s sc p f d) by done. split_and!; [done..|]. intros _ genv x _ Hx. lia. }
  destruct (region_sim env now path content (CaptureSeam.state d) p f l (start_key pr) sc Offset stop B)
    as (w&sc'&p'&f'&l'&->&G'&M'&C'&Hfl&Hrk&Hrh); try done; try lia.
  cbn [cbind]. exists w, sc', p', f'. split_and!; [done..|].
  intros Hw genv x Hgr Hx. apply (restore_filed path content ltac:(lia) genv p f l p' f' l'); try done; try lia.
  - apply Hg.
  - apply G'.
  - apply M'.
  - by apply C'.
Qed.

Lemma has_flag_or f g sc : f .& g = 0 -> has_flag (or_flags f sc) g = has_flag sc g.
Proof. intros Hf. unfold has_flag, or_flags. cbn [flags set_flags]. by rewrite Z.land_lor_distr_l, Hf, Z.lor_0_r. Qed.

(** Whether the stream is left to another seam. *)
Definition plain (sc : SAR_STREAM_CONTEXT) : Prop :=
  confident_blind sc = false /\ has_flag sc SAR_STREAMCTX_FLAG_SECTION_DIRTY = false.

(** The test for exempt targets changes nothing else. *)
Lemma exempt_armed Data d d1 calls now path sc p f l B :
  SarOperationExempt upcase Data d = (false, d1) -> armed d calls now path (FileObject Data) sc p f l B ->
  identity_exempt (issuer Data) d1 = false /\
  exists sc1, armed d1 calls now path (FileObject Data) sc1 p f l B /\ (plain sc -> plain sc1).
Proof.
  unfold SarOperationExempt. destruct (identity_exempt (issuer Data) d) eqn:Hid; [done|]. intros E Har.
  pose proof Har as [Hp Hg Hpe Hst Hrg Hen]. unfold SarStreamExemptTarget in E. rewrite Hst in E.
  assert (Hsame : (false, d) = (false, d1) -> identity_exempt (issuer Data) d1 = false /\
    exists sc1, armed d1 calls now path (FileObject Data) sc1 p f l B /\ (plain sc -> plain sc1)).
  { intros [= <-]. split; [done|]. by exists sc. }
  repeat (destruct (has_flag sc _); [by try apply Hsame|]).
  destruct (passive Data); [|by apply Hsame]. destruct (normalized Data) as [n|]; [|by apply Hsame].
  destruct (SarTargetExempt _ _ _); [done|]. injection E as <-. unfold or_stream. rewrite Hst. split; [exact Hid|].
  exists (or_flags SAR_STREAMCTX_FLAG_OSOWN_CHECKED sc). split.
  - split; try done. apply lookup_insert_eq.
  - unfold plain, confident_blind. by rewrite !has_flag_or by done.
Qed.

Lemma submit_keeps env r d : preserve (SarCaptureSubmitWrite upcase env r d) = preserve d /\
  streams (SarCaptureSubmitWrite upcase env r d) = streams d.
Proof. unfold SarCaptureSubmitWrite. repeat (case_match; try done). Qed.

Lemma submit_write_keeps env Data m o n d : preserve (SarSubmitWrite upcase env Data m o n d) = preserve d /\
  streams (SarSubmitWrite upcase env Data m o n d) = streams d.
Proof. unfold SarSubmitWrite. dif; [done|]. apply submit_keeps. Qed.

Lemma refused_fine r : refused r = false -> fine r.
Proof. unfold fine. destruct r; auto; discriminate. Qed.

(** The request is let through. *)
Definition passed (r : preop) : Prop := match r with FLT_PREOP_COMPLETE _ => False | _ => True end.

(** A request that has been let through has left the old content in the store,
    and the captured ranges still tell the truth. *)
Definition passed_kept (r : preop) (d' : driver F) (path : list Z) (content : bytes) (s : Z) (p : SAR_PRESERVE) (f : F)
    (from stop : Z) : Prop :=
  passed r -> exists p' f' sc',
    preserve d' = Some (p', f') /\ kept path content p f p' f' from (Z.min stop (Z.of_nat (length content))) /\
    streams d' !! s = Some sc' /\ ranges_held p' path sc'.

Lemma enforce_inplace_kept env tm Data now path content sc Offset Length d p f l B :
  region_ok env now path content -> armed d (re_calls env) now path (FileObject Data) sc p f l B ->
  identity_exempt (issuer Data) d = false -> passive Data = true ->
  0 <= Offset -> 0 < Length -> Offset + Length < 2 ^ 63 -> 0 <= B -> B + 16 * Z.of_nat (length content) < 2 ^ 64 ->
  exists r d', SarEnforceInPlaceCapture upcase env tm Data Offset Length d = Ret (r, d') /\
    passed_kept r d' path content (FileObject Data) p f Offset (Offset + Length).
Proof using DFL ACL.
  intros Hro Har Hid Hpas HO HL HOL HB HBs. unfold SarEnforceInPlaceCapture. rewrite Hpas.
  destruct (inplace_sim env now path content (FileObject Data) sc (issuer Data) Offset Length d p f l B)
    as (w&sc'&p'&f'&->&Hfl&Hrh&Hk); try done. cbn [cbind]. set (d' := set_stream _ _ _).
  assert (Hen : enforcing d' = true) by apply Har. assert (Hid' : identity_exempt (issuer Data) d' = false) by exact Hid.
  rewrite Hen, Hid'. cbn [negb]. rewrite !andb_true_r. destruct (refused w) eqn:Hw.
  - eexists _, _. split; [done|]. by intros ?.
  - eexists _, _. split; [done|]. intros _. exists p', f', sc'. split_and!; [done|by apply Hk, refused_fine|apply lookup_insert_eq|done].
Qed.


(** ** Deleting a file *)

Lemma link_name path id dir lk :
  SarPreserveQuarantinePaths path id 96 128 = Some (dir, lk) -> SarPreserveQuarantinePaths path id 320 360 = Some (dir, lk).
Proof.
  unfold SarPreserveQuarantinePaths. cbv zeta. generalize (Some (
    (take (SarPresVolPrefixChars path) path ++ SAR_Q_SUBDIR) ++ [0],
    (take (SarPresVolPrefixChars path) path ++ SAR_Q_SUBDIR) ++ [92] ++ SarPresHex64 id ++ [46; 113; 0])).
  intros o. destruct (Nat.eqb_spec (SarPresVolPrefixChars path) 0); [done|]. cbn [orb].
  repeat match goal with |- context [(?a <=? ?b)%nat] => destruct (Nat.leb_spec a b) end; cbn [orb]; done || lia.
Qed.

(** No record of the store is of the file. *)
Definition unrecorded (p : SAR_PRESERVE) (path : list Z) : Prop :=
  Forall (fun r => sar_pres_path_eq (provenance_path r) path = false) (records p).

Lemma unrecorded_covered p path x : unrecorded p path -> ~ covered_at (records p) path x.
Proof. intros Hu Hc. apply Exists_exists in Hc as (r&Hin&Hr&_). unfold unrecorded in Hu. rewrite Forall_forall in Hu.
  by rewrite (Hu r Hin) in Hr. Qed.

Definition link_entry (path : list Z) (size now actor id : Z) (cause : list Z) : entry :=
  Entry path 0 (Link id size) now actor SAR_PRESERVE_PROBATION cause.

(** The record of a link is appended when the file has none. *)
Lemma link_staged calls now p f l B st path size actor id :
  good calls now p f l B -> canonical path -> unrecorded p path -> 0 <= id < 2 ^ 64 -> 0 < size < 2 ^ 63 ->
  match SarPreserveStageLink p st now path size actor id with
  | (status, p') => status = STATUS_SUCCESS -> exists cause, store_inv p' f (l ++ [link_entry path size now actor id cause])
  end.
Proof.
  intros [Hi _ Hf _] Hcan Hu Hid Hsz. unfold SarPreserveStageLink. rewrite (si_ready _ _ _ Hi). cbn [negb].
  destruct (existsb _ _); [done|]. pose proof (aged_sim now p f l Hi) as Ha.
  pose proof (fresh_evict now p Hf) as Hev. rewrite (fresh_entries now p f l Hi Hf) in Ha.
  destruct (sar_preserve_evict_aged _ _ _) as [n rs]. cbn [snd] in Hev. subst rs.
  specialize (Ha _ (frame_removed n _ p) (removed_records_eq n _ p)).
  set (p1 := removed_records (n, records p) p) in *. assert (Hp1 : records p1 = records p) by apply removed_records_eq.
  destruct (Z.leb_spec (record_capacity p1) (Z.of_nat (length (records p1)))) as [|Hcap]; [done|]. intros _.
  set (r := set_causing _ _). exists (causing_path st actor).
  assert (Hrp : provenance_path r = path) by apply Hcan.
  assert (Hrs : records (append_record r p1) = records p1 ++ [r]).
  { rewrite append_record_records. unfold sar_preserve_append.
    assert (sar_preserve_covered (records p1) (provenance_path r) (provenance_offset r) (provenance_length r) = false) as ->.
    { rewrite Hrp, Hp1. apply not_true_iff_false. intros (q&Hq&Ho)%existsb_exists. apply list_elem_of_In in Hq.
      unfold unrecorded in Hu. rewrite Forall_forall in Hu. by rewrite (Hu q Hq) in Ho. }
    by destruct (Z.leb_spec (record_capacity p1) (Z.of_nat (length (records p1)))); [lia|]. }
  destruct (append_record_cases r p1) as [Hfr _].
  eapply store_inv_append; [exact Ha|done|done| | | | |by left].
  - split; try done; cbn; lia.
  - unfold ext_wf, ext_end. simpl. lia.
  - apply Forall_true. intros x. unfold apart. simpl. lia.
  - apply Forall_true. intros x. unfold apart. simpl. lia.
Qed.

(** Restoring a byte of a linked file reads the link. *)
Lemma restore_linked genv p f l p' f' path size now actor id cause dir lk x out :
  store_inv p f l -> unrecorded p path -> store_inv p' f' (l ++ [link_entry path size now actor id cause]) ->
  SarPreserveQuarantinePaths path id 96 128 = Some (dir, lk) -> size < 2 ^ 63 ->
  grants genv -> 0 <= x < size -> link_read genv lk x 1 = (STATUS_SUCCESS, out) ->
  SarPreserveRestore genv p' f' path x 1 1 = (STATUS_SUCCESS, out).
Proof.
  intros Hi Hu Hi' Hq Hsz Hg Hx Hlr.
  pose proof (restore_refines genv p' f' _ path x 1 1 Hi' Hg ltac:(lia) ltac:(lia) ltac:(lia)) as R.
  unfold a_restore in R. rewrite list_find_app_r in R.
  - cbn [list_find] in R. rewrite decide_True in R.
    + cbn in R. rewrite R. unfold SarPresReadLink. rewrite (link_name _ _ _ _ Hq). change (u32 1) with 1. rewrite Hlr. done.
    + unfold e_match, link_entry. cbn. rewrite path_eq_refl, !u64_small by (unfold is_u; lia). rewrite andb_true_r.
      apply andb_true_iff. split; apply Z.leb_le; lia.
  - apply list_find_None. apply Forall_forall. intros e He Hm.
    apply (unrecorded_covered p path x Hu). eapply match_covered; try done. lia.
Qed.

(** What the copy of a whole file needs. *)
Record whole_ok (env : whole_env) (now : Z) (content : bytes) : Prop := {
  wo_env : forall k i, env_ok (call_env (we_calls env k) i);
  wo_mode : forall k i, mode_now (call_env (we_calls env k) i) = SEMANTICS_AR_MODE_ENFORCE;
  wo_now : forall k, call_now (we_calls env k) = now;
  wo_content : is_bytes content /\ 0 < Z.of_nat (length content) < 2 ^ 58;
  wo_section : we_section_ctx env = true /\ we_section env = Some content /\ we_view env = true
}.

(** The file that goes away can be restored: its bytes are in the store, or it
    has a second name in the quarantine, and restoring reads it there. *)
Definition whole_kept (d' : driver F) (path : list Z) (content : bytes) (s : Z) : Prop :=
  exists p' f', preserve d' = Some (p', f') /\
    ((forall genv x, grants genv -> 0 <= x < Z.of_nat (length content) ->
       SarPreserveRestore genv p' f' path x 1 1 = (STATUS_SUCCESS, [rd content (Z.to_nat x)])) \/
     exists lk, links d' !! lk = Some s /\
       forall genv x out, grants genv -> 0 <= x < Z.of_nat (length content) -> link_read genv lk x 1 = (STATUS_SUCCESS, out) ->
         SarPreserveRestore genv p' f' path x 1 1 = (STATUS_SUCCESS, out)).

Lemma whole_sim env now path content s pr d p f l B :
  whole_ok env now content -> preserve d = Some (p, f) -> good (we_calls env) now p f l B -> canonical path ->
  unrecorded p path -> SarCapturePathExempt upcase (sysroot d) path = false ->
  0 <= B -> B + 16 * Z.of_nat (length content) < 2 ^ 64 ->
  exists w d', SarCaptureWholeContent upcase env path pr d p f = Ret (w, d') /\ CaptureSeam.state d' = CaptureSeam.state d /\
    (fine w -> whole_kept d' path content s).
Proof using DFL ACL.
  intros [H1 H2 H3 [Hby Hsz] (S1&S2&S3)] Hp Hg Hcan Hu Hpe HB HBs. unfold SarCaptureWholeContent. rewrite Hpe, S1, S2, S3.
  destruct (Z.ltb_spec 0 (Z.of_nat (length content))); [|lia]. cbn [andb].
  destruct (span_sim (we_calls env) now path content H1 H2 H3 Hcan Hby ltac:(lia) (rounds (Z.of_nat (length content))) 0
    (CaptureSeam.state d) p f l (start_key pr) 0 0 (Z.of_nat (length content)) SAR_STAGE_STORED B)
    as (w&k&p'&f'&l'&Heq&G'&M'&Hs'); [done| |lia|done|done|lia|].
  { rewrite <- (Z.sub_0_r (Z.of_nat (length content))) at 1. apply lasts_rounds; lia. }
  change (drop (Z.to_nat 0) content) with content in Heq. rewrite Heq. cbn [cbind].
  eexists _, _. split; [done|]. split; [done|]. intros Hw. exists p', f'. split; [done|]. left. intros genv x Hgr Hx.
  destruct (restore_filed path content ltac:(lia) genv p f l p' f' l' x) as [[Hc _]|Hr]; try done.
  - apply Hg.
  - apply G'.
  - apply M'.
  - destruct (Hs' Hw) as [_ Hc]. apply Hc. lia.
  - by destruct (unrecorded_covered p path x Hu).
Qed.

Lemma good_next_link calls now p f l B n : good calls now p f l B -> good calls now (set_next_link n p) f l B.
Proof. intros [G1 [G2 G2'] G3 G4]. split; [by eapply store_inv_same|by split|exact G3|exact G4]. Qed.

Lemma link_preserve_sim env now path content s pr d p f l B :
  whole_ok (le_whole env) now content -> store_of d = Some (p, f) -> good (we_calls (le_whole env)) now p f l B ->
  canonical path -> unrecorded p path -> SarCapturePathExempt upcase (sysroot d) path = false ->
  0 <= B -> B + 16 * Z.of_nat (length content) < 2 ^ 64 -> 0 <= next_link_id p < 2 ^ 64 -> le_now env = now ->
  le_size env = Some (Z.of_nat (length content)) -> identity_exempt pr d = false -> SarStreamConfidentBlind s d = false ->
  exists w d', SarCaptureLinkPreserve upcase env true s path pr d = Ret (w, d') /\ CaptureSeam.state d' = CaptureSeam.state d /\
    (fine w -> whole_kept d' path content s).
Proof using DFL ACL.
  intros Hwo Hso Hg Hcan Hu Hpe HB HBs Hid Hnow Hsize Hex Hbl.
  unfold SarCaptureLinkPreserve. rewrite Hso, Hpe, Hex, Hbl, Hsize. cbn [negb orb].
  pose proof Hwo as [_ _ _ [_ Hsz] _]. destruct (Z.eqb_spec (Z.of_nat (length content)) 0); [lia|]. cbn [SarPreserveAllocLinkId].
  set (p1 := set_next_link _ p). assert (Hg1 : good (we_calls (le_whole env)) now p1 f l B) by by apply good_next_link.
  set (d1 := set_preserve p1 f d).
  destruct (SarPreserveQuarantinePaths path (next_link_id p) 96 128) as [[dir lk]|] eqn:Hq.
  2: { eexists _, _. split; [done|]. split; [done|]. by intros [|]. }
  destruct (le_link env && negb (bool_decide (is_Some (links d1 !! lk)))).
  - pose proof (link_staged (we_calls (le_whole env)) now p1 f l B (Some (CaptureSeam.state d1)) path (Z.of_nat (length content))
      (start_key pr) (next_link_id p) Hg1 Hcan Hu Hid ltac:(lia)) as Hls. rewrite Hnow. cbn [CaptureSeam.state set_links].
    change (CaptureSeam.state (set_links (<[lk:=s]> (links d1)) d1)) with (CaptureSeam.state d1).
    destruct (SarPreserveStageLink p1 _ now path _ _ _) as [status p2].
    destruct (decide (status = STATUS_SUCCESS)) as [->|Hne].
    + rewrite bool_decide_true by done. cbn [negb]. eexists _, _. split; [done|]. split; [done|]. intros _.
      destruct (Hls eq_refl) as (cause&Hi2). exists p2, f. split; [done|]. right. exists lk.
      split; [apply lookup_insert_eq|]. intros genv x out Hgr Hx Hlr.
      eapply (restore_linked genv p1 f l p2 f); try done; [apply Hg1|lia].
    + rewrite bool_decide_false by done. cbn [negb]. eexists _, _. split; [done|]. split; [done|]. by intros [|].
  - destruct (whole_sim (le_whole env) now path content s pr d1 p1 f l B) as (w&d'&->&Hst&Hk); try done. by exists w, d'.
Qed.

(** The test for exempt targets, for a request that is not exempt. *)
Lemma exempt_frame Data d d1 : SarOperationExempt upcase Data d = (false, d1) ->
  identity_exempt (issuer Data) d1 = false /\ store_of d1 = store_of d /\ sysroot d1 = sysroot d /\ enforcing d1 = enforcing d /\
  (SarStreamConfidentBlind (FileObject Data) d = false -> SarStreamConfidentBlind (FileObject Data) d1 = false).
Proof.
  unfold SarOperationExempt. destruct (identity_exempt (issuer Data) d) eqn:Hid; [done|]. unfold SarStreamExemptTarget.
  destruct (streams d !! FileObject Data) as [sc|] eqn:Hst; [|by intros [= <-]].
  repeat (dif; [by try intros [= <-]|]). destruct (passive Data); [|by intros [= <-]].
  destruct (normalized Data) as [n|]; [|by intros [= <-]]. destruct (SarTargetExempt _ _ _); [done|]. intros [= <-].
  unfold or_stream. rewrite Hst. split_and!; try done. unfold SarStreamConfidentBlind, set_stream. cbn.
  rewrite Hst, lookup_insert_eq. unfold confident_blind. by rewrite !has_flag_or by done.
Qed.


End Handlers.

End Enforce.

End Enforce.
