(* ===== verification/Conviction.v ===== *)
(** * What a conviction does (driver/capture.c, driver/operations.c)

    When the worker proves that a write was an encryption, the key is put into
    the keystore and, in ENFORCE mode, the process is blocked: its writes and
    its destructive changes of file information are denied from then on. *)

From stdpp Require Import gmap.
From S2P Require Import Prelude Mem Format Chain Keystore Protocol Whitelist Preserve EventLog DriverState.
From S2P Require Import Gate Capture DriverPreserve KeystorePersist Streams Calls DriverRecovery CaptureSeam Snapshot.
From S2P Require Import CipherCommon Aes Sm4 Modes Recover RecoverCorrect Battery BatteryCorrect CaptureWork Mmap Operations.
Import CtrLayout Modes Recover.
Import Mem Layout Protocol Preserve Whitelist Streams CaptureSeam CaptureWork Mmap Operations.
Import DriverState (STATUS_ACCESS_DENIED, SarStateModeGet).
Import DriverPreserve (SAR_PRESERVE, reap_by, reap_round, reap_loop, SarPresReapNamespace, SarPreserveReconcile).

Module Conviction.

Section Conviction.
Context {F : Type} `{DataFile F, AesCbc}.
Context (upcase : Z -> Z).
Implicit Types d : driver F.

(** ** Reaping ends *)

Lemma reap_round_shorter by_ p r p' : reap_round by_ p = Some (r, p') ->
  (length (DriverPreserve.records p') < length (DriverPreserve.records p))%nat.
Proof.
  unfold reap_round. destruct (list_find _ _) as [[i q]|] eqn:Hf; [|done]. intros [= <- <-]. cbn.
  apply list_find_Some in Hf as (Hi&_). apply lookup_lt_Some in Hi. rewrite shift_down_delete by done.
  rewrite length_delete; [lia|]. by apply lookup_lt_is_Some_2.
Qed.

Lemma reap_ends by_ p : exists q del, SarPresReapNamespace by_ p = Ret (q, del).
Proof.
  unfold SarPresReapNamespace. assert (Hl : (length (DriverPreserve.records p) < S (length (DriverPreserve.records p)))%nat) by lia.
  revert Hl. generalize (S (length (DriverPreserve.records p))) as n. intros n. revert p.
  induction n as [|n IH]; intros p Hl; [lia|]. cbn [reap_loop].
  destruct (reap_round by_ p) as [[r p']|] eqn:Hr; [|by eexists _, _].
  apply reap_round_shorter in Hr. destruct (IH p' ltac:(lia)) as (q&del&->). cbn [cbind]. by eexists _, _.
Qed.

Lemma reconcile_ends p path o n : exists q del, SarPreserveReconcile p path o n = Ret (q, del).
Proof.
  unfold SarPreserveReconcile. dif; [by eexists _, _|].
  destruct (reap_ends (DriverPreserve.ByKey path o n) p) as (q&del&->). cbn [cbind]. by eexists _, _.
Qed.

(** ** The commit *)

Lemma block_blocks now c pr cls l : Z.of_nat (length (blocked c)) < SAR_BLOCKED_CAPACITY ->
  existsb (Z.eqb (eprocess pr)) (blocked (SarCaptureBlockOriginator now c pr cls l).1) = true.
Proof.
  intros Hc. unfold SarCaptureBlockOriginator. cbn [fst]. destruct (existsb _ (blocked c)) eqn:Hp; cbn [negb andb]; [done|].
  destruct (Z.ltb_spec (Z.of_nat (length (blocked c))) SAR_BLOCKED_CAPACITY); [|lia]. cbn.
  rewrite existsb_app. cbn. by rewrite Z.eqb_refl, !orb_true_r.
Qed.

(** The keystore after the commit, and the blocked process. *)
Definition committed (rec : KsRec.semantics_ar_keystore_record_t) (pr : process) (ks : KeystorePersist.SAR_KEYSTORE) d : Prop :=
  (exists ks', keystore d = Some ks' /\ KeystorePersist.records ks' =
     (Keystore.sar_keystore_append (KeystorePersist.records ks) (KeystorePersist.record_capacity ks) rec).2) /\
  exists c, capture d = Some c /\ existsb (Z.eqb (eprocess pr)) (blocked c) = true.

Lemma commit_commits env rec notify pr ks c d :
  enforcing d = true -> Z.of_nat (length (blocked c)) < SAR_BLOCKED_CAPACITY ->
  exists d' sent, SarCaptureCommit env rec notify pr ks c d = Ret (d', sent) /\ committed rec pr ks d'.
Proof.
  intros Hen Hc. unfold SarCaptureCommit.
  destruct (KeystorePersist.SarKeystoreAppend ks _ rec) as [[appended ks'] count] eqn:Ha.
  assert (Hks : KeystorePersist.records ks' =
    (Keystore.sar_keystore_append (KeystorePersist.records ks) (KeystorePersist.record_capacity ks) rec).2).
  { unfold KeystorePersist.SarKeystoreAppend in Ha. destruct (Keystore.sar_keystore_append _ _ _) as [rc rs].
    destruct (rc =? 1); injection Ha as <- <- <-; done. }
  set (d1 := if appended =? 1 then _ else _).
  assert (H1 : keystore d1 = Some ks' /\ enforcing d1 = true) by (unfold d1; by destruct (appended =? 1)).
  destruct H1 as [H1 H1']. clearbody d1. cbv zeta.
  assert (exists d2, (match preserve d1 with
      | Some (p, f) =>
        let! (p, gone) := if (appended =? 1) || (appended =? 0)
          then SarPreserveReconcile p (KsRec.provenance_path rec) (KsRec.provenance_offset rec) (KsRec.provenance_length rec)
          else Ret (p, []) in
        Ret (set_links (foldr delete (links d1) gone) (set_preserve (DriverPreserve.SarPreservePromote p (start_key pr)) f d1))
      | None => Ret d1
      end) = Ret d2 /\ keystore d2 = Some ks' /\ enforcing d2 = true) as (d2&->&Hk2&He2).
  { destruct (preserve d1) as [[p f]|]; [|by exists d1]. destruct (_ || _).
    - destruct (reconcile_ends p (KsRec.provenance_path rec) (KsRec.provenance_offset rec) (KsRec.provenance_length rec))
        as (q&del&->). cbn [cbind]. by eexists.
    - cbn [cbind]. by eexists. }
  cbn [cbind]. unfold enforcing in He2. rewrite He2.
  pose proof (block_blocks (wk_now env) c pr SAR_EVENT_CLASS_BLOCK_FORWARD (log d2) Hc) as Hb.
  destruct (SarCaptureBlockOriginator _ _ _ _ _) as [c' l']. eexists _, _. split; [done|]. split; [by exists ks'|by exists c'].
Qed.

(** ** The process is stopped *)

Lemma blocked_write wenv Data Offset Length d :
  SarCaptureOriginatorBlocked (issuer Data) d = true -> UserMode Data = true -> paging (IrpFlags Data) = false ->
  SarPreWrite upcase wenv Data Offset Length d = Ret (FLT_PREOP_COMPLETE STATUS_ACCESS_DENIED, d).
Proof.
  intros Hb Hu Hp. unfold SarPreWrite, SarMmapOnPagingWrite. rewrite Hp. cbn [negb]. rewrite orb_true_r. cbn [orb].
  destruct (store_of d) as [[p f]|]; [destruct (streams d !! FileObject Data)|]; cbn [cbind]; by rewrite Hb, Hu.
Qed.

Lemma blocked_setinfo senv Data cls ib d :
  SarCaptureOriginatorBlocked (issuer Data) d = true -> SarClassifySetInformation cls <> SAR_DESTRUCT_NONE ->
  SarPreSetInformation upcase senv Data cls ib d = Ret (FLT_PREOP_COMPLETE STATUS_ACCESS_DENIED, d).
Proof. intros Hb Hc. unfold SarPreSetInformation. rewrite bool_decide_false by done. by rewrite Hb. Qed.

(** The result of the engine for a work item. *)
Definition verdict_of (env : worker_env) (w : SAR_CAPTURE_WORK) (pr : process) (ks : KeystorePersist.SAR_KEYSTORE)
    (scan : option bytes) : Capture.sar_capture_result_t :=
  Capture.sar_capture_run
    (Some (worker_request env w pr (Nat.min (length (pre_image w)) (length (written w))) scan))
    (Some gate_map) (Some (KeystorePersist.mac_key ks)).

Lemma run_convicted env w pr ks scan : Capture.outcome (verdict_of env w pr ks scan) = Capture.SAR_CAPTURE_CONVICTED ->
  exists rec n, Capture.record (verdict_of env w pr ks scan) = Some rec /\ Capture.notify (verdict_of env w pr ks scan) = Some n.
Proof.
  unfold verdict_of, Capture.sar_capture_run. cbn [worker_request Capture.plaintext Capture.ciphertext].
  repeat (dif; [done|]). destruct (Battery.sar_convict _); [|done]. by eexists _, _.
Qed.

(** A conviction in ENFORCE mode stops the process. *)
Lemma conviction_stops env w pr c c1 ks scan d :
  preserve_only w = false -> originator_process w = Some pr -> capture d = Some c -> keystore d = Some ks ->
  wk_map env = true -> wk_result env = true ->
  SAR_CANDIDATE_SIZE <= Z.of_nat (length (pre_image w)) -> SAR_CANDIDATE_SIZE <= Z.of_nat (length (written w)) ->
  worker_scan env pr (Gate.candidate (Gate.sar_gate_classify gate_map (pre_image w) (written w)
    (Nat.min (length (pre_image w)) (length (written w))))) c = Ret (scan, c1) ->
  Capture.outcome (verdict_of env w pr ks scan) = Capture.SAR_CAPTURE_CONVICTED ->
  enforcing d = true -> Z.of_nat (length (blocked c)) < SAR_BLOCKED_CAPACITY ->
  exists d' sent rec, SarCaptureWorker env w d = Ret (d', sent) /\
    Capture.record (verdict_of env w pr ks scan) = Some rec /\
    (exists ks', keystore d' = Some ks' /\ KeystorePersist.records ks' =
       (Keystore.sar_keystore_append (KeystorePersist.records ks) (KeystorePersist.record_capacity ks) rec).2) /\
    forall Data, eprocess (issuer Data) = eprocess pr ->
      (UserMode Data = true -> paging (IrpFlags Data) = false -> forall wenv Offset Length,
        SarPreWrite upcase wenv Data Offset Length d' = Ret (FLT_PREOP_COMPLETE STATUS_ACCESS_DENIED, d')) /\
      (forall senv cls ib, SarClassifySetInformation cls <> SAR_DESTRUCT_NONE ->
        SarPreSetInformation upcase senv Data cls ib d' = Ret (FLT_PREOP_COMPLETE STATUS_ACCESS_DENIED, d')).
Proof.
  intros Hpo Hor Hc Hks Hm1 Hm2 Hl1 Hl2 Hscan Hout Hen Hroom. unfold SarCaptureWorker.
  rewrite Hpo, Hor, Hc, Hks, Hm1, Hm2. apply Z.leb_le in Hl1, Hl2. rewrite Hl1, Hl2. cbn [andb].
  unfold worker_sample. rewrite Hscan. cbn [cbind]. fold (verdict_of env w pr ks scan).
  destruct (run_convicted env w pr ks scan Hout) as (rec&n&Hrec&Hn). rewrite Hout, Hrec, Hn.
  assert (Hb : blocked c1 = blocked c).
  { unfold worker_scan in Hscan. destruct (_ || _); [by injection Hscan as _ <-|].
    destruct (if wk_attach env then _ else _); cbn [cbind] in Hscan; [|done..]. injection Hscan as _ <-. by dif. }
  destruct (commit_commits env rec n pr ks c1 (set_capture c1 d)) as (d'&sent&->&Hk&c'&Hc'&Hbl);
    [done|by rewrite Hb|]. cbn [cbind].
  set (d2 := worker_done w d'). assert (Hb2 : forall Data, eprocess (issuer Data) = eprocess pr ->
    SarCaptureOriginatorBlocked (issuer Data) d2 = true).
  { intros Data Hd. unfold SarCaptureOriginatorBlocked, d2, worker_done. rewrite Hc', Hd. by destruct (mmap_admitted w). }
  exists d2, sent, rec. split_and!; [done|done| |].
  - unfold d2, worker_done. rewrite Hc'. exact Hk.
  - intros Data Hd. split; [intros Hu Hp wenv o len; by apply blocked_write; [apply Hb2|..]|].
    intros senv cls ib Hcls. by apply blocked_setinfo; [apply Hb2|].
Qed.

(** ** An encryption is found and stopped *)

(** What the worker is given: a sample of the old and of the new content. *)
Record work_ok (env : worker_env) (w : SAR_CAPTURE_WORK) (pr : process) : Prop := {
  wo_plain : preserve_only w = false /\ originator_process w = Some pr;
  wo_sample : sample_ok (pre_image w) (written w) (Nat.min (length (pre_image w)) (length (written w)));
  wo_length : (16 <= length (pre_image w) <= 256)%nat /\ (16 <= length (written w) <= 256)%nat;
  wo_offsets : is_u64 (file_offset w) /\ is_u64 (provenance_offset w) /\ is_u64 (write_length w);
  wo_path : Forall is_u16 (provenance_path w);
  wo_times : is_u64 (wk_now env) /\ is_u64 (start_key pr);
  wo_granted : wk_map env = true /\ wk_result env = true /\ wk_scan env = true /\ wk_attach env = true
}.

(** The memory of the process: its regions follow each other, and pages hold
    bytes; what can be scanned is less than the buffer. *)
Record memory_ok (env : worker_env) : Prop := {
  mo_pages : Snapshot.pages_ok (wk_resident env);
  mo_bytes : forall p page, wk_resident env p = Some page -> is_bytes page;
  mo_regions : Forall Snapshot.region_ok (wk_regions env);
  mo_tiled : Snapshot.tiled 0 (wk_regions env);
  mo_fits : forall snap, Snapshot.SarCaptureSnapshotProcess (wk_regions env) (wk_resident env) (wk_heaps env)
              Snapshot.SAR_CAPTURE_HEAP_BUDGET = Ret snap -> Z.of_nat (length snap) < Snapshot.SAR_CAPTURE_HEAP_BUDGET
}.

(** The expanded key [k] lies in a resident page of a region the snapshot reads. *)
Definition key_in_memory (env : worker_env) (k : bytes) (klen : nat) : Prop :=
  exists m i page off, m ∈ wk_regions env /\ Snapshot.scannable m = true /\ Snapshot.small m /\
    (i < Snapshot.page_count (Snapshot.RegionSize m))%nat /\
    Snapshot.reached (wk_heaps env) m (Snapshot.BaseAddress m + Snapshot.PAGE_SIZE * Z.of_nat i) /\
    wk_resident env (Snapshot.BaseAddress m + Snapshot.PAGE_SIZE * Z.of_nat i) = Some page /\
    (off + length (Aes.rk (Aes.aes_setkey k klen)) <= length page)%nat /\
    blk page off (length (Aes.rk (Aes.aes_setkey k klen))) = Aes.rk (Aes.aes_setkey k klen).

(** The request the worker makes of a sample and a snapshot. *)
Definition sample_request (env : worker_env) (w : SAR_CAPTURE_WORK) (pr : process) (snap : bytes)
    : Capture.sar_capture_request_t :=
  worker_request env w pr (Nat.min (length (pre_image w)) (length (written w))) (Some snap).

Lemma request_valid env w pr scan : work_ok env w pr -> is_bytes scan ->
  Capture.request_ok (sample_request env w pr scan) (pre_image w) (written w).
Proof.
  intros [_ Hs Hl (H1&H2&H3) Hp (H4&H5) _] Hb. constructor; try done; cbn.
  - lia.
  - intros buf [= <-]. done.
  - by intros p [= <-].
Qed.

Lemma blk_part page off n a b : (off + n <= length page)%nat -> blk (a ++ page ++ b) (length a + off) n = blk page off n.
Proof.
  intros Hn. unfold blk. rewrite drop_app_ge by lia. replace (length a + off - length a)%nat with off by lia.
  rewrite drop_app_le by lia. by rewrite take_app_le by (rewrite length_drop; lia).
Qed.

(** A key in the memory of the process convicts it. *)
Lemma memory_convicts env w pr ks alg k klen bc m s :
  work_ok env w pr -> memory_ok env -> key_in_memory env k klen -> aes_klen alg klen -> (klen <= length k)%nat -> is_bytes k ->
  Gate.candidate (Gate.sar_gate_classify gate_map (pre_image w) (written w)
    (Nat.min (length (pre_image w)) (length (written w)))) = true ->
  make_block alg k (Z.of_nat klen) = Some bc -> m ∈ search_order ->
  s ∈ alignments (block_size bc) (Nat.min (length (pre_image w)) (length (written w))) (mode_blocks m) ->
  mode_holds bc m (pre_image w) (written w) s ->
  exists snap, Snapshot.SarCaptureSnapshotProcess (wk_regions env) (wk_resident env) (wk_heaps env)
      Snapshot.SAR_CAPTURE_HEAP_BUDGET = Ret snap /\
    Capture.convicts (sample_request env w pr snap) (pre_image w) (written w) (verdict_of env w pr ks (Some snap)).
Proof.
  intros Hw [M1 M2 M3 M4 M5] (mr&i&page&off&K1&K2&K3&K4&Kr&K5&K6&K7) Hkl Hlen Hkb Hg Hmk Hm Hs Hh.
  destruct (Snapshot.snapshot_pages (wk_regions env) (wk_resident env) M1 M3 M4 (wk_heaps env) Snapshot.SAR_CAPTURE_HEAP_BUDGET)
    as (snap&Hsnap&_&Hin); [done|].
  destruct (Hin (M5 snap Hsnap) mr i page K1 K2 K3 K4 Kr K5) as (a&b&Hab).
  exists snap. split; [done|].
  pose proof (request_valid env w pr snap Hw (Snapshot.snapshot_bytes _ _ M2 _ _ _ Hsnap)) as Hok.
  eapply (Capture.detects _ (pre_image w) (written w) gate_map (KeystorePersist.mac_key ks) alg k klen bc m s Hok); try done.
  apply (offered_schedule _ snap (length a + off)); try done.
  - change (length a + off + length (Aes.rk (Aes.aes_setkey k klen)) <= length snap)%nat.
    rewrite Hab, !length_app. lia.
  - rewrite Hab, blk_part by done. exact K7.
Qed.

(** Property C4: an encryption is found and stopped.  A process writes the
    encryption of what the file held under an AES key, in ECB, CBC, CFB, OFB or
    CTR mode; its memory holds the expanded key in a page the snapshot reads,
    and the snapshot does not fill its buffer; the gate finds the write novel, the
    process has not been scanned before, the system grants what the worker asks
    for, the driver is in ENFORCE mode, and its table of blocked processes has room.
    Then the worker ends with a conviction: the run of the engine on the sample and this snapshot convicts
    with a verdict that explains the sample, and it is the record of that verdict
    that is appended to the keystore (by [sar_keystore_append], which may find
    it there already or the keystore full); and after that every write of the process from user mode that is not paging, and every request of it
    that deletes, renames, links or truncates, is denied and changes nothing. *)
Theorem encryptor_stopped env w pr c ks d alg k klen bc m s :
  work_ok env w pr -> memory_ok env -> key_in_memory env k klen -> aes_klen alg klen -> (klen <= length k)%nat -> is_bytes k ->
  Gate.candidate (Gate.sar_gate_classify gate_map (pre_image w) (written w)
    (Nat.min (length (pre_image w)) (length (written w)))) = true ->
  make_block alg k (Z.of_nat klen) = Some bc -> m ∈ search_order ->
  s ∈ alignments (block_size bc) (Nat.min (length (pre_image w)) (length (written w))) (mode_blocks m) ->
  mode_holds bc m (pre_image w) (written w) s ->
  capture d = Some c -> keystore d = Some ks -> eprocess pr ∉ scanned c ->
  enforcing d = true -> Z.of_nat (length (blocked c)) < SAR_BLOCKED_CAPACITY ->
  exists snap d' sent rec ks', SarCaptureWorker env w d = Ret (d', sent) /\
    Snapshot.SarCaptureSnapshotProcess (wk_regions env) (wk_resident env) (wk_heaps env)
      Snapshot.SAR_CAPTURE_HEAP_BUDGET = Ret snap /\
    Capture.convicts (sample_request env w pr snap) (pre_image w) (written w) (verdict_of env w pr ks (Some snap)) /\
    Capture.record (verdict_of env w pr ks (Some snap)) = Some rec /\
    keystore d' = Some ks' /\ KeystorePersist.records ks' =
      (Keystore.sar_keystore_append (KeystorePersist.records ks) (KeystorePersist.record_capacity ks) rec).2 /\
    forall Data, eprocess (issuer Data) = eprocess pr ->
      (UserMode Data = true -> paging (IrpFlags Data) = false -> forall wenv Offset Length,
        SarPreWrite upcase wenv Data Offset Length d' = Ret (FLT_PREOP_COMPLETE STATUS_ACCESS_DENIED, d')) /\
      (forall senv cls ib, SarClassifySetInformation cls <> SAR_DESTRUCT_NONE ->
        SarPreSetInformation upcase senv Data cls ib d' = Ret (FLT_PREOP_COMPLETE STATUS_ACCESS_DENIED, d')).
Proof.
  intros Hw Hmem Hkey Hkl Hlen Hkb Hg Hmk Hm Hs Hh Hc Hks Hsc Hen Hroom.
  destruct (memory_convicts env w pr ks alg k klen bc m s) as (snap&Hsnap&Hcv); try done. pose proof Hcv as [Hout _].
  pose proof Hw as [[Hpo Hor] _ [Hl1 Hl2] _ _ _ (G1&G2&G3&G4)].
  assert (exists c1, worker_scan env pr true c = Ret (Some snap, c1)) as (c1&Hscan).
  { unfold worker_scan. cbn [negb orb]. destruct (existsb _ (scanned c)) eqn:Hex.
    - apply existsb_exists in Hex as (x&Hx&Heq%Z.eqb_eq). apply list_elem_of_In in Hx. by rewrite Heq in Hsc.
    - rewrite G3, G4, Hsnap. cbn [negb orb cbind]. by eexists. }
  destruct (conviction_stops env w pr c c1 ks (Some snap) d) as (d'&sent&rec&H1&Hrec&(ks'&H2&H3)&H4);
    try done; try (unfold SAR_CANDIDATE_SIZE; lia); [by rewrite Hg|].
  exists snap, d', sent, rec, ks'. by split_and!.
Qed.

End Conviction.

End Conviction.
