(* ===== verification/Limits.v ===== *)
(** * Where the guarantees of ENFORCE mode end (driver/operations.c, driver/capture.c)

    The theorems of Enforce.v have conditions, and these are not idle: for every
    state of the driver, a write whose old content cannot be mapped passes
    without being preserved, and so does a write inside a range that the stream
    counts as captured, whether or not the store still holds it; the link of a
    deleted file is not recorded when the store holds a part of the file; and
    file system controls are answered without asking whether the process
    is blocked. *)

From Stdlib Require Import Sorted.
From stdpp Require Import gmap sets.
From S2P Require Import Prelude Mem Format Chain Keystore Protocol Whitelist Preserve EventLog DriverState.
From S2P Require Import HeapSort DriverPreserve PreserveAlloc PreserveRefine PreserveStage PreserveStore KeystorePersist Streams Calls.
From S2P Require Import DriverRecovery RecoveryFrame CaptureSeam Snapshot CaptureWork Mmap Operations Enforce Conviction.
Import Mem Layout Protocol Preserve Whitelist Streams CaptureSeam CaptureWork Mmap Operations.
Import PresRec HeapSort PreserveAlloc PreserveRefine PreserveStage.
Import DriverState (NTSTATUS, STATUS_SUCCESS, STATUS_ACCESS_DENIED, STATUS_INSUFFICIENT_RESOURCES, SAR_STATE, SarStateModeGet).
Import DriverPreserve Enforce.

Module Limits.

Section Limits.
Context {F : Type} {DF : DataFile F} {AC : AesCbc}.
Context (upcase : Z -> Z).
Implicit Types d : driver F.

(** ** Writes that pass without being preserved *)

(** A write that reaches the seam: by a process that is not exempt and not
    blocked, at passive level, not paging and top-level, to a stream that is
    neither a decoy nor the driver's own store, that is not mapped for writing,
    and whose old content is known to matter. *)
Record ordinary (Data : FLT_CALLBACK_DATA) (Offset Length : Z) d (sc : SAR_STREAM_CONTEXT) : Prop := {
  or_level : passive Data = true /\ top_level Data = true /\ paging (IrpFlags Data) = false;
  or_region : 0 <= Offset /\ 0 < Length /\ Offset + Length < 2 ^ 63;
  or_blocked : SarCaptureOriginatorBlocked (issuer Data) d = false;
  or_exempt : (SarOperationExempt upcase Data d).1 = false;
  or_context : streams d !! FileObject Data = Some sc;
  or_stream_plain : plain sc /\ has_flag sc SAR_STREAMCTX_FLAG_PHANTOM_BACKING = false /\
                    has_flag sc SAR_STREAMCTX_FLAG_OWN_STORE = false
}.

(** What the test for exempt targets leaves. *)
Lemma exempt_stream Data d sc : (SarOperationExempt upcase Data d).1 = false -> streams d !! FileObject Data = Some sc ->
  plain sc -> exists sc1, let d1 := (SarOperationExempt upcase Data d).2 in
    streams d1 !! FileObject Data = Some sc1 /\ plain sc1 /\ cap_ranges sc1 = cap_ranges sc /\
    preserve d1 = preserve d /\ capture d1 = capture d /\ sysroot d1 = sysroot d.
Proof.
  unfold SarOperationExempt, SarStreamExemptTarget. destruct (identity_exempt (issuer Data) d); [done|]. intros Hex Hst Hpl.
  rewrite Hst in *. repeat (dif; [by exists sc|]). destruct (passive Data); [|by exists sc].
  destruct (normalized Data) as [n|]; [|by exists sc]. destruct (SarTargetExempt _ _ _); [done|]. cbn [snd].
  exists (or_flags SAR_STREAMCTX_FLAG_OSOWN_CHECKED sc). unfold or_stream. rewrite Hst. split_and!; try done.
  - apply lookup_insert_eq.
  - destruct Hpl. unfold plain, confident_blind in *. by rewrite !has_flag_or by done.
Qed.

(** An ordinary write whose region counts as stored, with the store as it was. *)
Lemma ordinary_passes env Data Offset Length d sc :
  ordinary Data Offset Length d sc ->
  (forall d1 sc1, preserve d1 = preserve d -> capture d1 = capture d -> sysroot d1 = sysroot d ->
     streams d1 !! FileObject Data = Some sc1 -> cap_ranges sc1 = cap_ranges sc ->
     exists d2, SarCaptureInPlaceRegion upcase (wr_region env) true (FileObject Data) (issuer Data) Offset Length d1 =
       Ret (SAR_STAGE_STORED, d2) /\ preserve d2 = preserve d1) ->
  exists d', SarPreWrite upcase env Data Offset Length d = Ret (FLT_PREOP_SUCCESS_NO_CALLBACK, d') /\
    preserve d' = preserve d.
Proof.
  intros [(Hpas&Htop&Hpag) (HO&HL&HOL) Hb Hex Hst (Hpl&Hph&Hown)] Hin.
  destruct (exempt_stream Data d sc Hex Hst Hpl) as (sc1&Hst1&[Hb1 Hd1]&Hcr&Hp1&Hc1&Hs1).
  unfold SarPreWrite, SarMmapOnPagingWrite. rewrite Hpag. cbn [negb]. rewrite orb_true_r. cbn [orb].
  replace (match store_of d with Some _ => _ | None => _ end) with (Ret (false, d) : cres (bool * driver F))
    by (destruct (store_of d) as [[]|]; by rewrite ?Hst).
  cbn [cbind]. rewrite Hb. cbn [andb]. unfold SarTargetIsProtectedStore, stream_flag. rewrite Hst, Hph, Hown, andb_false_r.
  destruct (SarOperationExempt upcase Data d) as [ex d1]. cbn [fst snd] in *. subst ex.
  unfold write_capture, SarStreamSectionDirty, stream_flag, SarStreamConfidentBlind, SarEnforceInPlaceCapture.
  rewrite Hpas, Hpag, Htop, Hst1, Hb1, Hd1, (proj2 (Z.ltb_lt _ _) HL). cbn [negb andb].
  rewrite u64_small by (unfold is_u; lia).
  destruct (Hin d1 sc1) as (d2&->&Hp2); try done. cbn [cbind refused andb]. eexists. split; [done|].
  rewrite (proj1 (submit_write_keeps upcase _ _ _ _ _ _)). congruence.
Qed.

(** Property C38: a write whose old content cannot be mapped passes.  In every state of
    the driver, ENFORCE mode included, when the section context, the section or
    its view of the file cannot be had, an ordinary write is let through and the store
    is left as it was: nothing of what the write replaces is preserved. *)
Theorem section_failure_admits env Data Offset Length d sc :
  ordinary Data Offset Length d sc ->
  re_section_ctx (wr_region env) = false \/ re_section (wr_region env) = None \/ re_view (wr_region env) = false ->
  exists d', SarPreWrite upcase env Data Offset Length d = Ret (FLT_PREOP_SUCCESS_NO_CALLBACK, d') /\
    preserve d' = preserve d.
Proof.
  intros Ho Hsec. apply (ordinary_passes _ _ _ _ _ sc); [done|]. intros d1 sc1 _ _ _ Hst _.
  exists d1. split; [|done]. unfold SarCaptureInPlaceRegion. destruct (store_of d1) as [[p f]|]; [|done].
  destruct (_ || _); [done|]. rewrite Hst. destruct (re_section_ctx (wr_region env)); [|done].
  destruct (re_section (wr_region env)) as [content|]; [|done]. destruct (re_view (wr_region env)).
  - by destruct Hsec as [|[|]].
  - by rewrite andb_false_r.
Qed.

(** A captured range that holds the region leaves no gap. *)
Lemma gaps_none rs calls k st p (f : F) path actor view aligned stop cursor worst r :
  ranges_ok rs -> r ∈ rs -> start r <= cursor -> stop <= range_end r -> cursor < stop ->
  exists c, gaps_loop rs calls k st p f path actor view aligned stop cursor worst = Ret (c, worst, k, p, f) /\ stop <= c.
Proof.
  intros [Hne Hso] Hr Hs He Hlt. revert Hne Hr. induction Hso as [|a rs Hso IH Hall]; intros Hne Hr; [by apply elem_of_nil in Hr|].
  apply Forall_cons in Hne as [Ha Hne]. cbn [gaps_loop]. rewrite (proj2 (Z.ltb_lt _ _) Hlt). cbn [negb].
  apply elem_of_cons in Hr as [->|Hr].
  - destruct (Z.leb_spec (range_end a) cursor); [lia|]. destruct (Z.leb_spec stop (start a)); [lia|].
    destruct (Z.ltb_spec cursor (start a)); [lia|]. cbn [cbind]. exists (range_end a). split; [|done].
    destruct rs as [|b rs]; [done|]. cbn [gaps_loop]. destruct (Z.ltb_spec (range_end a) stop); [lia|done].
  - rewrite Forall_forall in Hall. specialize (Hall r Hr). destruct (Z.leb_spec (range_end a) cursor); [|lia]. by apply IH.
Qed.

(** Property C40: what a stream counts as captured is not preserved again.  In every
    state of the driver, whatever records the store still has, an ordinary write to a
    region inside one of the captured ranges of the stream is let through and the
    store is left as it was: a region whose records have expired since it was captured
    is overwritten without being preserved, in ENFORCE mode too. *)
Theorem stale_ranges_lose_content env Data Offset Length d sc r :
  ordinary Data Offset Length d sc -> context_ok sc -> r ∈ cap_ranges sc -> start r <= Offset ->
  Offset + Length <= range_end r ->
  exists d', SarPreWrite upcase env Data Offset Length d = Ret (FLT_PREOP_SUCCESS_NO_CALLBACK, d') /\
    preserve d' = preserve d.
Proof.
  intros Ho (Hok&_&_) Hr Hs He. apply (ordinary_passes _ _ _ _ _ sc); [done|]. intros d1 sc1 _ _ _ Hst Hcr.
  destruct Ho as [_ (HO&HL&HOL) _ _ _ _]. unfold SarCaptureInPlaceRegion.
  destruct (store_of d1) as [[p f]|] eqn:Hso; [|by exists d1]. destruct (_ || _); [by exists d1|].
  rewrite Hst. destruct (re_section_ctx (wr_region env)); [|by exists d1].
  destruct (re_section (wr_region env)) as [content|]; [|by exists d1]. rewrite u64_small by (unfold is_u; lia).
  set (stop := if _ <? _ then _ else _).
  assert (Hstop : stop <= Offset + Length) by (unfold stop; destruct (Z.ltb_spec (Z.of_nat (length content)) (Offset + Length)); lia).
  destruct (Z.ltb_spec Offset stop) as [Hlt|]; [|by exists d1]. destruct (re_view (wr_region env)); [|by exists d1].
  cbn [andb]. unfold stage_region. rewrite Hcr.
  destruct (gaps_none (cap_ranges sc) (re_calls (wr_region env)) 0 (CaptureSeam.state d1) p f
    (SarCaptureResolveProvenance (re_name (wr_region env))) (start_key (issuer Data))
    (drop (Z.to_nat (Offset .& Z.lnot (SAR_MAP_GRANULARITY - 1))) content) (Offset .& Z.lnot (SAR_MAP_GRANULARITY - 1))
    stop Offset SAR_STAGE_STORED r) as (c&->&Hc); try done; [lia|].
  cbn [cbind]. destruct (Z.ltb_spec c stop); [lia|]. cbn [cbind]. rewrite bool_decide_true by done.
  eexists. split; [done|]. unfold store_of in Hso. destruct (capture d1); [|done].
  destruct (preserve d1) as [[q g]|] eqn:Hpr; [|done]. destruct (ready q); [|done]. injection Hso as -> ->. done.
Qed.

(** ** Deletions that lose their link *)

(** The record of a link is not added when a record of the file overlaps it. *)
Lemma link_overlapped p st now path size actor id :
  ready p = true -> canonical path ->
  existsb (fun r => (kind r =? SAR_PRESERVE_KIND_NAMESPACE) && (provenance_offset r =? 0) &&
                    sar_pres_path_eq (provenance_path r) path) (records p) = false ->
  let rs := (sar_preserve_evict_aged (records p) now (retention_100ns p)).2 in
  Z.of_nat (length rs) < record_capacity p -> sar_preserve_covered rs path 0 size = true ->
  exists p', SarPreserveStageLink p st now path size actor id = (STATUS_SUCCESS, p') /\ records p' = rs.
Proof.
  intros Hrd Hcan Hno rs Hcap Hcov. unfold SarPreserveStageLink. rewrite Hrd, Hno. cbn [negb].
  unfold rs in *. clear rs. destruct (sar_preserve_evict_aged _ _ _) as [n rs]. cbn [snd] in *.
  pose proof (removed_records_eq n rs p) as Hrs. pose proof (frame_removed n rs p) as [_ _ _ _ _ _ Hfc].
  set (p1 := removed_records (n, rs) p) in *. rewrite Hrs, Hfc. destruct (Z.leb_spec (record_capacity p) (Z.of_nat (length rs))); [lia|].
  eexists. split; [done|]. rewrite append_record_records, Hrs. unfold sar_preserve_append.
  set (r := set_causing _ _). replace (provenance_path r) with path by (symmetry; apply Hcan).
  change (provenance_offset r) with 0. change (provenance_length r) with size. by rewrite Hcov.
Qed.

(** Property C37: a deletion does not preserve a file of which a part is preserved
    already.  When a process that is not exempt and not blocked deletes a file, the
    system gives the file its second name in the quarantine, the store has no
    link of the file but an unexpired record of some of its bytes, then the deletion
    passes, in ENFORCE mode too, and the records of the store are the unexpired ones it had
    before: the bytes of the file that were not preserved are in no record. *)
Theorem delete_after_write_lost env Data InfoClass ib d p f path size dir lk :
  store_of d = Some (p, f) -> path = SarCaptureResolveProvenance (ps_name env) -> canonical path ->
  SarCapturePathExempt upcase (sysroot d) path = false -> passive Data = true ->
  deleting (SarClassifySetInformation InfoClass) (Some ib) = true ->
  SarCaptureOriginatorBlocked (issuer Data) d = false -> SarTargetIsProtectedStore Data d = false ->
  (SarOperationExempt upcase Data d).1 = false -> SarStreamConfidentBlind (FileObject Data) d = false ->
  le_size (ps_delete env) = Some size -> 0 < size ->
  SarPreserveQuarantinePaths path (next_link_id p) 96 128 = Some (dir, lk) -> le_link (ps_delete env) = true ->
  links d !! lk = None ->
  existsb (fun r => (kind r =? SAR_PRESERVE_KIND_NAMESPACE) && (provenance_offset r =? 0) &&
                    sar_pres_path_eq (provenance_path r) path) (records p) = false ->
  let rs := (sar_preserve_evict_aged (records p) (le_now (ps_delete env)) (retention_100ns p)).2 in
  Z.of_nat (length rs) < record_capacity p -> sar_preserve_covered rs path 0 size = true ->
  exists d' p', SarPreSetInformation upcase env Data InfoClass (Some ib) d = Ret (FLT_PREOP_SUCCESS_NO_CALLBACK, d') /\
    preserve d' = Some (p', f) /\ records p' = rs.
Proof.
  intros Hso Hpath Hcan Hpe Hpas Hdel Hb Hown Hex Hbl Hsize Hpos Hq Hlink Hfree Hno rs Hcap Hcov.
  assert (Hnz : size <> 0) by (clear - Hpos; lia).
  unfold SarPreSetInformation. set (m := SarClassifySetInformation InfoClass) in *.
  assert (Hm : m <> SAR_DESTRUCT_NONE /\ is_rename_or_link m = false /\ new_eof m (Some ib) = None) by by destruct m.
  destruct Hm as (Hm1&Hm2&Hm3). rewrite bool_decide_false, Hb, Hown by done. cbn [orb].
  destruct (SarOperationExempt upcase Data d) as [ex d1] eqn:Hoe. cbn [fst] in Hex. subst ex.
  destruct (exempt_frame upcase Data d d1 Hoe) as (Hid1&Hs1&Hr1&He1&Hb1). specialize (Hb1 Hbl).
  assert (Hl1 : links d1 = links d).
  { unfold SarOperationExempt, SarStreamExemptTarget in Hoe. repeat case_match; simplify_eq; try done.
    unfold or_stream. by case_match. }
  unfold setinfo_rename. rewrite Hm2. unfold unless_complete at 1. cbn [andb cbind].
  unfold setinfo_delete, SarCaptureSubmitDelete, SarCaptureLinkPreserve. rewrite Hpas, Hdel, Hs1, Hso. cbn [andb negb orb].
  rewrite <- Hpath, Hr1, Hpe, Hid1, Hb1, Hsize, (proj2 (Z.eqb_neq size 0) Hnz). cbn [orb SarPreserveAllocLinkId].
  rewrite Hq, Hlink. change (links (set_preserve _ f d1)) with (links d1). rewrite Hl1, Hfree. cbn [andb negb].
  rewrite bool_decide_false by (by intros []). cbn [negb].
  assert (Hrd : ready p = true).
  { unfold store_of in Hso. destruct (capture d), (preserve d) as [[q g]|]; try done. destruct (ready q) eqn:E; [|done].
    by injection Hso as <- _. }
  set (p1 := set_next_link _ p). set (st := Some _).
  destruct (link_overlapped p1 st (le_now (ps_delete env)) path size (start_key (issuer Data)) (next_link_id p))
    as (p2&->&Hp2); try done.
  rewrite bool_decide_true by done. cbn [negb cbind refused andb]. unfold unless_complete. cbn [cbind].
  unfold setinfo_truncate. rewrite Hm3. cbn [cbind]. eexists _, p2. split; [done|]. split; [done|exact Hp2].
Qed.

(** ** Controls of a blocked process *)

(** The driver with another table of blocked processes. *)
Definition with_blocked (b : list Z) d : driver F :=
  match capture d with Some c => set_capture (set_blocked b c) d | None => d end.

Definition reblock {A} (b : list Z) (r : cres (A * driver F)) : cres (A * driver F) :=
  let! (x, d) := r in Ret (x, with_blocked b d).

Lemma with_blocked_frame b d :
  CaptureSeam.state (with_blocked b d) = CaptureSeam.state d /\ streams (with_blocked b d) = streams d /\
  sysroot (with_blocked b d) = sysroot d /\ store_of (with_blocked b d) = store_of d /\ seam (with_blocked b d) = seam d /\
  log (with_blocked b d) = log d /\ keystore (with_blocked b d) = keystore d /\ queue (with_blocked b d) = queue d.
Proof. unfold with_blocked, store_of. destruct (capture d) eqn:E; cbn; by rewrite ?E. Qed.

Lemma with_blocked_stream b d s sc : set_stream s sc (with_blocked b d) = with_blocked b (set_stream s sc d).
Proof. unfold with_blocked. cbn. by destruct (capture d). Qed.

Lemma with_blocked_preserve b d p f : set_preserve p f (with_blocked b d) = with_blocked b (set_preserve p f d).
Proof. unfold with_blocked. cbn. by destruct (capture d). Qed.

Lemma with_blocked_log b d l : set_log l (with_blocked b d) = with_blocked b (set_log l d).
Proof. unfold with_blocked. cbn. by destruct (capture d). Qed.

Lemma with_blocked_seam b d q : set_seam q (with_blocked b d) = with_blocked b (set_seam q d).
Proof. unfold with_blocked. cbn. by destruct (capture d). Qed.

Lemma reblock_exempt b Data d : SarOperationExempt upcase Data (with_blocked b d) =
  ((SarOperationExempt upcase Data d).1, with_blocked b (SarOperationExempt upcase Data d).2).
Proof.
  destruct (with_blocked_frame b d) as (E1&E2&E3&_).
  unfold SarOperationExempt, SarStreamExemptTarget, or_stream, identity_exempt. rewrite E1, E2, E3.
  dif; [done|]. destruct (streams d !! FileObject Data) as [sc|] eqn:Hst; [|done]. repeat (dif; [done|]).
  destruct (passive Data); [|done]. destruct (normalized Data) as [n|]; [|done]. cbn [fst snd].
  f_equal. apply with_blocked_stream.
Qed.

Lemma reblock_inplace b env now Data o n d : SarEnforceInPlaceCapture upcase env now Data o n (with_blocked b d) =
  reblock b (SarEnforceInPlaceCapture upcase env now Data o n d).
Proof.
  assert (Hfin : forall r d, (if refused r && enforcing (with_blocked b d) && negb (identity_exempt (issuer Data) (with_blocked b d))
      then Ret (refuse now Data (with_blocked b d)) else Ret (FLT_PREOP_SUCCESS_NO_CALLBACK, with_blocked b d)) =
    reblock b (if refused r && enforcing d && negb (identity_exempt (issuer Data) d)
      then Ret (refuse now Data d) else Ret (FLT_PREOP_SUCCESS_NO_CALLBACK, d))).
  { intros r d0. destruct (with_blocked_frame b d0) as (E1&_&_&_&_&E6&_). unfold enforcing, identity_exempt. rewrite E1.
    dif; [|done]. unfold reblock, refuse, SarCaptureNoteCapacityRefusal. cbn [cbind]. by rewrite E6, with_blocked_log. }
  destruct (with_blocked_frame b d) as (E1&E2&E3&E4&_).
  unfold SarEnforceInPlaceCapture, SarCaptureInPlaceRegion. rewrite E1, E2, E3, E4.
  destruct (store_of d) as [[p f]|]; [|apply Hfin]. destruct (_ || _); [apply Hfin|].
  destruct (streams d !! FileObject Data) as [sc|]; [|apply Hfin]. destruct (re_section_ctx env); [|apply Hfin].
  destruct (re_section env) as [content|]; [|apply Hfin]. destruct (_ && _); [|apply Hfin].
  destruct (stage_region _ _ _ _ _ _ _ _ _ _) as [[[[w sc'] p'] f']| |]; cbn [cbind]; [|done|done].
  rewrite with_blocked_preserve, with_blocked_stream. apply Hfin.
Qed.

Lemma reblock_submit b env Data m o n d :
  SarSubmitWrite upcase env Data m o n (with_blocked b d) = with_blocked b (SarSubmitWrite upcase env Data m o n d).
Proof.
  destruct (with_blocked_frame b d) as (E1&E2&E3&E4&E5&E6&E7&E8). unfold SarSubmitWrite, SarStreamConfidentBlind, seam_pre_image.
  rewrite E2. dif; [done|]. unfold SarCaptureSubmitWrite. rewrite E5, with_blocked_seam.
  set (d1 := set_seam _ d). clearbody d1.
  destruct (capture d1) as [c|] eqn:Hc; [|unfold with_blocked; by rewrite !Hc].
  assert (Hw : with_blocked b d1 = set_capture (set_blocked b c) d1) by (unfold with_blocked; by rewrite Hc). rewrite Hw.
  unfold identity_exempt. cbn [keystore capture CaptureSeam.state sysroot set_capture inflight set_blocked queue].
  repeat match goal with
    | |- context [if ?x then _ else _] => destruct x
    | |- context [match se_work env with _ => _ end] => destruct (se_work env)
    end; unfold with_blocked; cbn; rewrite ?Hc; done.
Qed.

(** Property C39: a conviction does not stop file system controls.  In every state of the
    driver the writes of a blocked process from user mode that are not paging are denied, but
    its file system controls - FSCTL_SET_ZERO_DATA, which fills a file with zeros, among
    them - are answered exactly as they would be with any other table of
    blocked processes, the empty one for instance. *)
Theorem blocked_process_zeroes_files Data d b :
  SarCaptureOriginatorBlocked (issuer Data) d = true -> UserMode Data = true -> paging (IrpFlags Data) = false ->
  (forall env Offset Length,
    SarPreWrite upcase env Data Offset Length d = Ret (FLT_PREOP_COMPLETE STATUS_ACCESS_DENIED, d)) /\
  (forall env code, SarPreFsControl upcase env Data code (with_blocked b d) =
    reblock b (SarPreFsControl upcase env Data code d)).
Proof.
  intros Hb HU Hp. split; [intros; by apply Conviction.blocked_write|]. intros env code. clear Hb HU Hp.
  destruct (with_blocked_frame b d) as (E1&E2&_). unfold SarPreFsControl, SarTargetIsProtectedStore, stream_flag.
  unfold identity_exempt. rewrite E1, E2. dif; [done|]. dif; [done|]. dif; [done|]. dif; [done|].
  rewrite reblock_exempt. destruct (SarOperationExempt upcase Data d) as [ex d1]. cbn [fst snd]. destruct ex; [done|].
  assert (Hlast : forall d, Ret (FLT_PREOP_SUCCESS_NO_CALLBACK,
      if SarFsControlIsKeyless (SarClassifyFsControl code) then SarSubmitMetadata (SarClassifyFsControl code) (with_blocked b d)
      else SarSubmitWrite upcase (fc_submit env) Data (SarClassifyFsControl code) 0 0 (with_blocked b d)) =
    reblock b (Ret (FLT_PREOP_SUCCESS_NO_CALLBACK,
      if SarFsControlIsKeyless (SarClassifyFsControl code) then SarSubmitMetadata (SarClassifyFsControl code) d
      else SarSubmitWrite upcase (fc_submit env) Data (SarClassifyFsControl code) 0 0 d))).
  { intros d0. unfold reblock. cbn [cbind]. dif; [|by rewrite reblock_submit].
    unfold SarSubmitMetadata. destruct (with_blocked_frame b d0) as (_&_&_&_&E9&_). by rewrite E9, with_blocked_seam. }
  destruct (with_blocked_frame b d1) as (_&E2'&_). unfold SarStreamConfidentBlind. rewrite E2'.
  destruct (fc_zero env) as [[lo hi]|]; [|apply Hlast]. dif; [|apply Hlast].
  rewrite reblock_inplace. destruct (SarEnforceInPlaceCapture _ _ _ _ _ _ _) as [[r d2]| |]; [|done|done].
  unfold reblock at 1, unless_complete. cbn [cbind]. destruct r; [apply Hlast|apply Hlast|done].
Qed.

End Limits.

End Limits.
