(* ===== verification/CaptureRuns.v ===== *)
(** * Runs of the capture seam (driver/operations.c, driver/capture.c)

    Concrete requests on a small driver: the guarantees of ENFORCE mode at
    work, and the cases in which the code does something else than what its
    documentation says. *)

From stdpp Require Import gmap strings.
From S2P Require Import Prelude Mem Format Chain Keystore Protocol Whitelist Preserve EventLog DriverState.
From S2P Require Import CipherCommon Aes Sm4 Modes Recover Gate Battery BatteryCorrect Capture.
From S2P Require Import HeapSort DriverPreserve PreserveAlloc PreserveRefine PreserveStage PreserveStore KeystorePersist.
From S2P Require Import Streams Calls DriverRecovery RecoveryFrame CaptureSeam Snapshot CaptureWork Mmap Operations Enforce Conviction Limits.
Import Mem Layout Protocol Preserve Whitelist PresRec PreserveAlloc PreserveRefine PreserveStage PreserveStore.
Import DriverState (STATUS_SUCCESS, STATUS_ACCESS_DENIED, STATUS_INSUFFICIENT_RESOURCES, STATUS_NOT_FOUND, NTSTATUS, SAR_STATE, SarStateModeGet).
Import DriverPreserve.
Import CtrLayout Modes Recover.
Import Streams CaptureSeam CaptureWork Mmap Operations Enforce Conviction Limits.

Module CaptureRuns.

(** ** A small driver *)

Definition demo_state (mode : Z) : SAR_STATE :=
  {| DriverState.mode := mode; DriverState.whitelist := sar_whitelist_init true 1;
     DriverState.identity_buckets := [[]]; DriverState.identity_bucket_count := 1; DriverState.captured_key_count := 0 |}.

Definition demo_capture : SAR_CAPTURE_CTX :=
  {| blocked := []; inflight := 0; mmap_inflight := 0; whitelist_skips := 0; pressure_drops := 0; preload_drops := 0;
     scanned := [] |}.

(** A stream that has been read. *)
Definition read_stream : SAR_STREAM_CONTEXT :=
  or_flags (SAR_STREAMCTX_FLAG_TRACKED_FROM_OPEN .| SAR_STREAMCTX_FLAG_READ_OBSERVED .| SAR_STREAMCTX_FLAG_OSOWN_CHECKED)
    new_context.

Definition demo_driver (cap : Z) : driver write_log :=
  {| state := demo_state SEMANTICS_AR_MODE_ENFORCE; log := None; preserve := Some (demo_store cap, []); keystore := None;
     capture := Some demo_capture; streams := {[1 := read_stream]}; links := ∅; queue := [];
     seam := SarSeamCoverageReset; sysroot := None |}.

Definition demo_name : list Z := wide "\Device\V\docs\a.txt".
Definition seam_path : list Z := SarCaptureResolveProvenance (Some demo_name).
Definition demo_process : process := {| eprocess := 100; process_id := 7; start_key := 9 |}.
Definition demo_call : stage_call := {| call_env := fun _ => demo_env true; call_now := 5 |}.

(** The section is granted with the content, or not. *)
Definition demo_region (granted : bool) : region_env :=
  {| re_name := Some demo_name; re_section_ctx := granted; re_section := Some demo_text; re_view := true;
     re_calls := fun _ => demo_call; re_array := true |}.

Definition no_submit : submit_env :=
  {| se_rundown := false; se_work := None; se_item := false; se_name := None; se_written := None; se_queued := false |}.
Definition no_inline : inline_env :=
  {| ie_disk := None; ie_scratch := fun _ => false; ie_buf := fun _ => false; ie_array := fun _ => false;
     ie_defer := fun _ => {| de_rundown := false; de_work := None; de_item := false; de_queued := false |};
     ie_actor := None; ie_submit := no_submit |}.

Definition demo_write (granted : bool) : write_env :=
  {| wr_unloading := false; wr_paging := no_inline; wr_nocache := no_inline; wr_region := demo_region granted;
     wr_submit := no_submit; wr_now := 5 |}.

Definition demo_data : FLT_CALLBACK_DATA :=
  {| FileObject := 1; UserMode := true; issuer := demo_process; IrpFlags := 0; passive := true; top_level := true;
     normalized := Some demo_name |}.

Lemma demo_region_ok : region_ok (demo_region true) 5 seam_path demo_text.
Proof.
  split; try done.
  - intros k i v [= <-]. split; [done|by apply forall_u_check].
  - split; [by apply forall_u_check|done].
Qed.

Lemma demo_armed cap : armed upper (demo_driver cap) (re_calls (demo_region true)) 5 seam_path 1 read_stream
  (demo_store cap) [] [] 0.
Proof.
  split; try done.
  - split; [apply empty_store_inv; by repeat split|split; [done|constructor]|constructor|left; constructor].
  - split; [split_and!; try done; split; constructor|]. intros x Hx. by apply Exists_nil in Hx.
Qed.


(** ** A deletion *)

Definition demo_whole : whole_env :=
  {| we_section_ctx := true; we_section := Some demo_text; we_view := true; we_calls := fun _ => demo_call |}.
Definition demo_link : link_env := {| le_size := Some 20; le_link := true; le_now := 5; le_whole := demo_whole |}.
Definition demo_setinfo : setinfo_env :=
  {| ps_target := demo_link; ps_dest := None; ps_opened := None; ps_rekey_src := None; ps_rekey_dest := None;
     ps_delete := demo_link; ps_name := Some demo_name; ps_size := Some 20; ps_region := demo_region true; ps_now := 5 |}.
Definition demo_delete : rename_info := {| ri_flags := 1; ri_name_length := 0 |}.

Lemma demo_whole_ok : whole_ok demo_whole 5 demo_text.
Proof.
  split; try done.
  - intros k i v [= <-]. split; [done|by apply forall_u_check].
  - split; [by apply forall_u_check|done].
Qed.


(** ** Runs in which content is lost *)

(** The driver after a request, the verdict, and the store. *)
Definition after (r : cres (preop * driver write_log)) : driver write_log :=
  match r with Ret (_, d) => d | _ => demo_driver 0 end.
Definition answer (r : cres (preop * driver write_log)) : option preop :=
  match r with Ret (a, _) => Some a | _ => None end.
Definition restored (d : driver write_log) (x : Z) : NTSTATUS * bytes :=
  match preserve d with
  | Some (p, f) => SarPreserveRestore restore_granted p f seam_path x 1 1
  | None => (STATUS_NOT_FOUND, [])
  end.

(** The driver after a write to the first four bytes. *)
Definition written_driver : driver write_log :=
  after (SarPreWrite upper (demo_write true) demo_data 0 4 (demo_driver 4096)).

Definition written_store : SAR_PRESERVE * write_log := default (demo_store 0, []) (store_of written_driver).
Definition written_link : list Z * list Z :=
  default ([], []) (SarPreserveQuarantinePaths seam_path (next_link_id written_store.1) 96 128).

(** The file is deleted: the link is in no record, and of its twenty bytes only the
    first four can be restored. *)
Lemma delete_after_write_lost_witness : exists d' p',
  SarPreSetInformation upper demo_setinfo demo_data FileDispositionInformation (Some demo_delete) written_driver =
    Ret (FLT_PREOP_SUCCESS_NO_CALLBACK, d') /\
  preserve d' = Some (p', written_store.2) /\ records p' = records written_store.1.
Proof.
  destruct (delete_after_write_lost upper demo_setinfo demo_data FileDispositionInformation demo_delete written_driver
    written_store.1 written_store.2 seam_path 20 written_link.1 written_link.2) as (d'&p'&H1&H2&H3).
  1-15: vm_compute; reflexivity.
  1: vm_compute; reflexivity.
  1-2: vm_compute; reflexivity.
  exists d', p'. split; [exact H1|]. split; [exact H2|]. rewrite H3. vm_compute. reflexivity.
Defined.

Lemma delete_after_write_run :
  restored (after (SarPreSetInformation upper demo_setinfo demo_data FileDispositionInformation (Some demo_delete)
    written_driver)) 3 = (STATUS_SUCCESS, [4]) /\
  restored (after (SarPreSetInformation upper demo_setinfo demo_data FileDispositionInformation (Some demo_delete)
    written_driver)) 4 = (STATUS_NOT_FOUND, []).
Proof. split; vm_compute; reflexivity. Qed.

(** A name can be deleted only once.  After a file has been deleted
    under ENFORCE and its content kept, a new file of the same name cannot be
    deleted: staging its link finds the record of the first one, and the request
    is refused as if the store were full. *)
Theorem second_delete_refused :
  let r1 := SarPreSetInformation upper demo_setinfo demo_data FileDispositionInformation (Some demo_delete) (demo_driver 4096) in
  let again := {| FileObject := 2; UserMode := true; issuer := demo_process; IrpFlags := 0; passive := true; top_level := true;
                  normalized := Some demo_name |} in
  let r2 := SarPreSetInformation upper demo_setinfo again FileDispositionInformation (Some demo_delete)
              (set_stream 2 read_stream (after r1)) in
  answer r1 = Some FLT_PREOP_SUCCESS_NO_CALLBACK /\
  answer r2 = Some (FLT_PREOP_COMPLETE STATUS_INSUFFICIENT_RESOURCES).
Proof. intros r1 again r2. split_and!; vm_compute; reflexivity. Qed.

(** Without a section the write of the whole file passes, and nothing is kept. *)
Lemma section_failure_admits_witness : exists d',
  SarPreWrite upper (demo_write false) demo_data 0 20 (demo_driver 4096) = Ret (FLT_PREOP_SUCCESS_NO_CALLBACK, d') /\
  preserve d' = preserve (demo_driver 4096).
Proof.
  apply (section_failure_admits upper (demo_write false) demo_data 0 20 (demo_driver 4096) read_stream).
  - split; [by vm_compute|lia|by vm_compute..].
  - left. reflexivity.
Defined.

(** The driver after a conviction of the process. *)
Definition blocked_driver : driver write_log := set_capture (set_blocked [100] demo_capture) (demo_driver 4096).

Definition demo_fsctl : fsctl_env :=
  {| fc_phantom_active := false; fc_zero := Some (0, 20); fc_region := demo_region true;
     fc_submit := no_submit; fc_now := 5 |}.

(** The process is blocked, its write is denied, and its control is answered as if
    no process were blocked. *)
Lemma blocked_process_zeroes_files_witness :
  SarPreWrite upper (demo_write true) demo_data 0 20 blocked_driver =
    Ret (FLT_PREOP_COMPLETE STATUS_ACCESS_DENIED, blocked_driver) /\
  SarPreFsControl upper demo_fsctl demo_data FSCTL_SET_ZERO_DATA (with_blocked [] blocked_driver) =
    reblock [] (SarPreFsControl upper demo_fsctl demo_data FSCTL_SET_ZERO_DATA blocked_driver).
Proof.
  destruct (blocked_process_zeroes_files upper demo_data blocked_driver []) as [H1 H2]; [vm_compute; reflexivity..|].
  split; [apply H1|apply H2].
Defined.

Lemma blocked_process_run :
  answer (SarPreFsControl upper demo_fsctl demo_data FSCTL_SET_ZERO_DATA blocked_driver) = Some FLT_PREOP_SUCCESS_NO_CALLBACK.
Proof. vm_compute. reflexivity. Qed.

(** The maintenance thread at time [now]. *)
Definition maintained (now : Z) (d : driver write_log) : driver write_log :=
  match preserve d with Some (p, f) => set_preserve (maintain_evict now p) f d | None => d end.

Definition stale_driver : driver write_log := maintained 1000 written_driver.
Definition stale_stream : SAR_STREAM_CONTEXT := default new_context (streams stale_driver !! 1).

(** The four bytes are preserved by the first write; their record expires, the
    second write passes, and the byte at 0 cannot be restored. *)
Lemma stale_ranges_lose_content_witness : exists d',
  SarPreWrite upper (demo_write true) demo_data 0 4 stale_driver = Ret (FLT_PREOP_SUCCESS_NO_CALLBACK, d') /\
  preserve d' = preserve stale_driver /\ restored written_driver 0 = (STATUS_SUCCESS, [1]) /\
  restored stale_driver 0 = (STATUS_NOT_FOUND, []).
Proof.
  destruct (stale_ranges_lose_content upper (demo_write true) demo_data 0 4 stale_driver stale_stream
    {| start := 0; range_end := 4 |}) as (d'&H1&H2).
  - split; [by vm_compute|lia|by vm_compute..].
  - assert (Hr : cap_ranges stale_stream = [{| start := 0; range_end := 4 |}]) by (vm_compute; reflexivity).
    unfold context_ok. rewrite Hr. split; [split; repeat constructor; cbn; lia|]. by vm_compute.
  - apply list_elem_of_singleton. vm_compute. reflexivity.
  - cbn. lia.
  - cbn. lia.
  - exists d'. split; [exact H1|]. split; [exact H2|]. split; vm_compute; reflexivity.
Defined.

(** ** A mapped page *)

(** A stream that is mapped for writing: one extent of a cluster. *)
Definition mapped_stream : SAR_STREAM_CONTEXT :=
  set_mmap (Some {| sector_size := 512; covered_len := 4096; ext := [{| vcn_byte := 0; ext_len := 4096; lcn_byte := 8192 |}] |})
    (Some seam_path) 7 9 (or_flags SAR_STREAMCTX_FLAG_SECTION_DIRTY read_stream).

(** Work items [n] are under way. *)
Definition mapped_driver (n : Z) : driver write_log :=
  set_capture (set_mmap_inflight n demo_capture) (set_stream 1 mapped_stream (demo_driver 4096)).

Definition demo_paging : write_env :=
  {| wr_unloading := false;
     wr_paging := {| ie_disk := Some (fun _ a n => Some (replicate (Z.to_nat n) 6)); ie_scratch := fun _ => true;
                     ie_buf := fun _ => true; ie_array := fun _ => true;
                     ie_defer := fun _ => {| de_rundown := true; de_work := Some (replicate 260 0); de_item := true; de_queued := true |};
                     ie_actor := None; ie_submit := no_submit |};
     wr_nocache := no_inline; wr_region := demo_region true; wr_submit := no_submit; wr_now := 5 |}.

(** A page write of the memory manager. *)
Definition page_write : FLT_CALLBACK_DATA :=
  {| FileObject := 1; UserMode := false; issuer := demo_process; IrpFlags := IRP_PAGING_IO .| IRP_NOCACHE; passive := true;
     top_level := true; normalized := Some demo_name |}.

(** When the work items are used up, the old content of a mapped page is dropped,
    but the stream remembers it as captured: when items are free again, the next
    write of the page is not preserved either.  With a free item it would
    have been. *)
Theorem dropped_page_stays_lost :
  let r1 := SarPreWrite upper demo_paging page_write 0 512 (mapped_driver 128) in
  let r2 := SarPreWrite upper demo_paging page_write 0 512 (set_capture demo_capture (after r1)) in
  let r := SarPreWrite upper demo_paging page_write 0 512 (mapped_driver 127) in
  length (queue (after r)) = 1%nat /\ queue (after r1) = [] /\ queue (after r2) = [] /\
  answer r2 = Some FLT_PREOP_SUCCESS_NO_CALLBACK /\ restored (after r2) 0 = (STATUS_NOT_FOUND, []).
Proof. intros r1 r2 r. split_and!; vm_compute; reflexivity. Qed.

(** ** An encryption that is found *)

Definition aes_key : bytes := map Z.of_nat (seq 1 16).
Definition old_text : bytes := replicate 32 3.
Definition new_text : bytes := let c := E (Aes.aes_cipher aes_key 16) (replicate 16 3) in c ++ c.

(** One page of a heap, with the expanded key in it. *)
Definition key_page : bytes := replicate 100 0 ++ Aes.rk (Aes.aes_setkey aes_key 16) ++ replicate 3820 0.
Definition key_region : Snapshot.MEMORY_BASIC_INFORMATION :=
  {| Snapshot.BaseAddress := 0; Snapshot.RegionSize := 0x1000; Snapshot.State := Snapshot.MEM_COMMIT;
     Snapshot.Type_ := Snapshot.MEM_PRIVATE; Snapshot.Protect := Snapshot.PAGE_READWRITE |}.

Definition key_work : SAR_CAPTURE_WORK :=
  {| originator_process := Some demo_process; file_offset := 0; write_length := 32; pre_image := old_text;
     written := new_text; provenance_path := seam_path; provenance_offset := 0; actor_key := 0; preserve_buf := None;
     preserve_only := false; read_by_path := false; mmap_backed := false; mmap_admitted := false; stream_ctx := None |}.

Definition key_env : worker_env :=
  {| wk_map := true; wk_result := true; wk_scan := true; wk_attach := true; wk_regions := [key_region];
     wk_resident := fun p => if p =? 0 then Some key_page else None; wk_heaps := None; wk_now := 6;
     wk_stage := demo_call; wk_read := None; wk_client := true |}.

Definition empty_keystore : KeystorePersist.SAR_KEYSTORE :=
  {| KeystorePersist.records := []; KeystorePersist.record_capacity := 16; KeystorePersist.mac_key := replicate 32 1;
     KeystorePersist.have_key := true; KeystorePersist.generation := 0; KeystorePersist.anchor := KeystorePersist.zero_anchor;
     KeystorePersist.ready := true; KeystorePersist.dirty := false; KeystorePersist.thread_started := false;
     KeystorePersist.keystore_persistent := true; KeystorePersist.keystore_tamper_detected := false |}.

Definition key_driver : driver write_log := set_keystore empty_keystore (demo_driver 4096).

Lemma key_work_ok : work_ok key_env key_work demo_process.
Proof.
  split; try done.
  - split; [by apply forall_u_check; vm_compute|by apply forall_u_check; vm_compute|by vm_compute; lia|by vm_compute; lia].
  - vm_compute. lia.
  - by apply forall_u_check; vm_compute.
Qed.

Lemma key_resident p page : wk_resident key_env p = Some page -> page = key_page.
Proof.
  change (wk_resident key_env p) with (if p =? 0 then Some key_page else None). destruct (p =? 0); [|discriminate].
  intros H. by apply (inj Some) in H.
Qed.

Lemma key_memory_ok : memory_ok key_env.
Proof.
  split.
  - intros p page Hp. rewrite (key_resident p page Hp). vm_compute. reflexivity.
  - intros p page Hp. rewrite (key_resident p page Hp). by apply forall_u_check; vm_compute.
  - apply Forall_singleton. by vm_compute.
  - by vm_compute.
  - intros snap Hs.
    assert (Hlen : match Snapshot.SarCaptureSnapshotProcess (wk_regions key_env) (wk_resident key_env) (wk_heaps key_env)
                           Snapshot.SAR_CAPTURE_HEAP_BUDGET with Ret b => Z.of_nat (length b) <? 4096 * 1024 | _ => false end = true)
      by (vm_compute; reflexivity).
    rewrite Hs in Hlen. by apply Z.ltb_lt in Hlen.
Qed.

Lemma key_there : key_in_memory key_env aes_key 16.
Proof.
  exists key_region, O, key_page, 100%nat. split_and!; [by left|by vm_compute|by vm_compute|by vm_compute; lia| |done|by vm_compute; lia|].
  - intros h Hh. by destruct (not_elem_of_nil h).
  - vm_compute. reflexivity.
Qed.

(** The process that wrote the encryption is denied its next write. *)
Lemma encryptor_stopped_witness : exists d' sent,
  SarCaptureWorker key_env key_work key_driver = Ret (d', sent) /\
  SarPreWrite upper (demo_write true) demo_data 0 5 d' = Ret (FLT_PREOP_COMPLETE STATUS_ACCESS_DENIED, d').
Proof.
  destruct (encryptor_stopped upper key_env key_work demo_process demo_capture empty_keystore key_driver SAR_ALG_AES_128 aes_key 16
    (Aes.aes_cipher aes_key 16) SAR_MODE_ECB 0 key_work_ok key_memory_ok key_there) as (snap&d'&sent&rec&ks'&H1&_&_&_&_&_&H4).
  - by left.
  - by vm_compute.
  - by apply forall_u_check; vm_compute.
  - vm_compute. reflexivity.
  - reflexivity.
  - by left.
  - by left.
  - by vm_compute.
  - done.
  - done.
  - apply not_elem_of_nil.
  - done.
  - done.
  - exists d', sent. split; [done|]. by apply (H4 demo_data).
Defined.

End CaptureRuns.
