(* ===== verification/PhantomMerge.v ===== *)
(** The merge of decoys into a directory listing keeps the listing.

    A listing is a chain of entries in a buffer.  The file proves that the loop
    of [SarPhantomMergeInto] writes a chain that holds the entries of the file
    system, in the same order and byte for byte, and the decoys; that the chain
    is in the order of the names if the file system's was; and that it stays
    inside the caller's buffer. *)

From stdpp Require Import gmap strings sorting.
From S2P Require Import Prelude Mem Sha256 Chain Streams Phantom PhantomDir.
Import Mem Layout Streams Phantom PhantomDir.

Module PhantomMerge.

(** ** Segments of a buffer *)

Definition seg (buf : bytes) (pos n : Z) : bytes := take (Z.to_nat n) (drop (Z.to_nat pos) buf).

Lemma length_seg buf pos n : 0 <= pos -> 0 <= n -> pos + n <= Z.of_nat (length buf) ->
  length (seg buf pos n) = Z.to_nat n.
Proof. intros. unfold seg. rewrite length_take, length_drop. lia. Qed.

Lemma lookup_seg buf pos n (i : nat) : 0 <= pos -> 0 <= n ->
  seg buf pos n !! i = if decide (Z.of_nat i < n) then buf !! (Z.to_nat pos + i)%nat else None.
Proof.
  intros. unfold seg. destruct (decide _).
  - rewrite lookup_take_lt, lookup_drop by lia. done.
  - by rewrite lookup_take_ge by lia.
Qed.

Lemma seg_seg buf p n q k : 0 <= p -> 0 <= q -> 0 <= k -> q + k <= n -> seg (seg buf p n) q k = seg buf (p + q) k.
Proof.
  intros. apply list_eq. intros i. rewrite !lookup_seg by lia. destruct (decide _); [|done].
  rewrite decide_True by lia. f_equal. lia.
Qed.

Lemma lookup_written (buf d : bytes) (p i : nat) : (p + length d <= length buf)%nat ->
  mem_write buf p d !! i = if decide (p <= i < p + length d)%nat then d !! (i - p)%nat else buf !! i.
Proof.
  intros H. rewrite mem_write_spec by done. destruct (decide _) as [Hi|Hi].
  - rewrite lookup_app_r by (rewrite length_take; lia). rewrite lookup_app_l; rewrite length_take; [|lia].
    f_equal. lia.
  - destruct (decide (i < p)%nat).
    + rewrite lookup_app_l by (rewrite length_take; lia). by rewrite lookup_take_lt.
    + rewrite lookup_app_r, lookup_app_r, lookup_drop; rewrite ?length_take; [|lia|lia]. f_equal. lia.
Qed.

(** Reading what was written, and what was not. *)
Lemma seg_write_in buf p d k n : 0 <= p -> p + Z.of_nat (length d) <= Z.of_nat (length buf) ->
  0 <= k -> 0 <= n -> k + n <= Z.of_nat (length d) -> seg (mem_write buf (Z.to_nat p) d) (p + k) n = seg d k n.
Proof.
  intros. apply list_eq. intros i. rewrite !lookup_seg by lia. destruct (decide _); [|done].
  rewrite lookup_written, decide_True by lia. f_equal. lia.
Qed.

Lemma seg_write buf p d : 0 <= p -> p + Z.of_nat (length d) <= Z.of_nat (length buf) ->
  seg (mem_write buf (Z.to_nat p) d) p (Z.of_nat (length d)) = d.
Proof.
  intros. rewrite <- (Z.add_0_r p) at 2. rewrite seg_write_in by lia. unfold seg.
  rewrite drop_0, take_ge by lia. done.
Qed.

Lemma seg_write_out buf p d q n : 0 <= p -> p + Z.of_nat (length d) <= Z.of_nat (length buf) ->
  0 <= q -> 0 <= n -> q + n <= p \/ p + Z.of_nat (length d) <= q ->
  seg (mem_write buf (Z.to_nat p) d) q n = seg buf q n.
Proof.
  intros. apply list_eq. intros i. rewrite !lookup_seg by lia. destruct (decide _); [|done].
  rewrite lookup_written, decide_False by lia. done.
Qed.

(** A write inside a written part. *)
Lemma mem_write_mem_write (buf : bytes) p (m : bytes) o (d : bytes) : 0 <= p -> 0 <= o -> p + Z.of_nat (length m) <= Z.of_nat (length buf) ->
  o + Z.of_nat (length d) <= Z.of_nat (length m) ->
  mem_write (mem_write buf (Z.to_nat p) m) (Z.to_nat (p + o)) d = mem_write buf (Z.to_nat p) (mem_write m (Z.to_nat o) d).
Proof.
  intros. apply list_eq. intros i. rewrite !lookup_written; rewrite ?length_mem_write; try lia.
  repeat destruct (decide _); try lia; try done.
  - f_equal. lia.
Qed.

Lemma load_ok buf pos n : 0 <= pos -> 0 <= n -> pos + n <= Z.of_nat (length buf) -> load buf pos n = Ret (seg buf pos n).
Proof.
  intros. unfold load. by rewrite !(proj2 (Z.leb_le _ _)) by lia.
Qed.

Lemma load32_ok buf pos : 0 <= pos -> pos + 4 <= Z.of_nat (length buf) -> load32 buf pos = Ret (le_val (seg buf pos 4)).
Proof. intros. unfold load32. by rewrite load_ok by lia. Qed.

Lemma store_ok buf pos d : 0 <= pos -> pos + Z.of_nat (length d) <= Z.of_nat (length buf) ->
  store buf pos d = Ret (mem_write buf (Z.to_nat pos) d).
Proof. intros. unfold store. by rewrite !(proj2 (Z.leb_le _ _)) by lia. Qed.

(** ** Entries *)

(** The fixed part ends with the name; every other field lies before the length
    of the name or between it and the name. *)
Definition layout_ok (off : SAR_DIR_OFFSETS) : bool :=
  let low o n := (4 <=? o) && (o + n <=? name_length off) in
  let high o n := (o <? 0) || ((name_length off + 4 <=? o) && (o + n <=? name_start off)) in
  (next_entry off =? 0) && (4 <=? name_length off) && (name_length off + 4 <=? name_start off) &&
  (name_start off =? base_record_size off) && (base_record_size off <=? 200) &&
  ((creation_time off =? ULONG_NONE) ||
   low (creation_time off) 8 && low (last_access off) 8 && low (last_write off) 8 && low (change_time off) 8 &&
   low (end_of_file off) 8 && low (alloc_size off) 8 && low (attrs off) 4) &&
  high (ea_size off) 4 && high (short_name_length off) 1 && high (file_id off) 8 && high (file_id_128 off) 8.

(** All layouts of the driver. *)
Lemma dir_offsets_ok cls off : SarPhantomDirOffsets cls = Some off -> layout_ok off = true.
Proof.
  unfold SarPhantomDirOffsets. repeat (destruct (_ =? _); [by intros [= <-]|]). done.
Qed.

(** An entry without its link: the bytes after the first field, up to the end of
    the name.  The length of the name in it agrees with its own length. *)
Definition entry_ok (off : SAR_DIR_OFFSETS) (e : bytes) : Prop :=
  base_record_size off <= Z.of_nat (length e) + 4 < base_record_size off + 65536 /\
  le_val (seg e (name_length off - 4) 4) = Z.of_nat (length e) + 4 - base_record_size off.

Definition entry_name (off : SAR_DIR_OFFSETS) (e : bytes) : list Z :=
  let n := Z.of_nat (length e) + 4 - base_record_size off in
  bytes_u16s (Z.to_nat (n / 2)) (seg e (name_start off - 4) n).

(** The room an entry takes. *)
Definition esize (e : bytes) : Z := (Z.of_nat (length e) + 4 + 7) / 8 * 8.

Lemma esize_bounds e : Z.of_nat (length e) + 4 <= esize e <= Z.of_nat (length e) + 11.
Proof. unfold esize. dlia. Qed.

Lemma align8_esize e : Z.of_nat (length e) + 11 < 2 ^ 32 -> align8 (Z.of_nat (length e) + 4) = esize e.
Proof.
  intros H. unfold align8, esize. rewrite u32_small by (unfold is_u; lia).
  set (x := Z.of_nat (length e) + 4 + 7).
  replace (x .& 0xFFFFFFF8) with (x .& Z.lnot 7).
  - change 7 with (Z.ones 3). rewrite <- Z.ldiff_land, Z.ldiff_ones_r by lia.
    rewrite Z.shiftl_mul_pow2, Z.shiftr_div_pow2 by lia. done.
  - apply Z.bits_inj'. intros n Hn. rewrite !Z.land_spec. destruct (decide (n < 32)).
    + f_equal. rewrite Z.lnot_spec by lia.
      assert (Hk : n = 0 \/ n = 1 \/ n = 2 \/ 3 <= n) by lia.
      destruct Hk as [->|[->|[->|Hk]]]; try done.
      change 7 with (Z.ones 3). change 0xFFFFFFF8 with (Z.shiftl (Z.ones 29) 3).
      rewrite Z.shiftl_spec, Z.ones_spec_high, Z.ones_spec_low by lia. done.
    + rewrite (testbit_high 32 x) by (unfold is_u; lia). done.
Qed.

(** The entry [e] is at [pos], with the link [nxt]. *)
Record entry_at (off : SAR_DIR_OFFSETS) (buf : bytes) (stop pos nxt : Z) (e : bytes) : Prop := {
  at_pos : 0 <= pos;
  at_end : pos + 4 + Z.of_nat (length e) <= stop;
  at_next : le_val (seg buf pos 4) = nxt;
  at_body : seg buf (pos + 4) (Z.of_nat (length e)) = e;
  at_ok : entry_ok off e
}.

(** The chain of entries from [pos] on, which ends with the link 0 before [stop]. *)
Inductive chain (off : SAR_DIR_OFFSETS) (buf : bytes) (stop : Z) : Z -> list bytes -> Prop :=
  | chain_last pos e : entry_at off buf stop pos 0 e -> chain off buf stop pos [e]
  | chain_more pos n e l :
      entry_at off buf stop pos n e -> esize e <= n -> pos + n < stop -> chain off buf stop (pos + n) l ->
      chain off buf stop pos (e :: l).

Definition total (l : list bytes) : Z := foldr (fun e t => esize e + t) 0 l.

(** ** The entry of a decoy *)

Definition field_fits (size : Z) (f : Z * bytes) : Prop := 0 <= f.1 /\ f.1 + Z.of_nat (length f.2) <= size.

Definition put_fields (m : bytes) (l : list (Z * bytes)) : bytes :=
  fold_left (fun m f => mem_write m (Z.to_nat f.1) f.2) l m.

Lemma length_put_fields m l : length (put_fields m l) = length m.
Proof. revert m. induction l as [|f l IH]; intros; [done|]. cbn. unfold put_fields in IH. by rewrite IH, length_mem_write. Qed.

Lemma store_fields_put buf pos m l : 0 <= pos -> pos + Z.of_nat (length m) <= Z.of_nat (length buf) ->
  Forall (field_fits (Z.of_nat (length m))) l ->
  store_fields (mem_write buf (Z.to_nat pos) m) pos l = Ret (mem_write buf (Z.to_nat pos) (put_fields m l)).
Proof.
  intros Hp Hm Hl. revert m Hm Hl. induction l as [|[o d] l IH]; intros m Hm Hl; [done|].
  apply Forall_cons in Hl as [[Ho Hd] Hl]. cbn [store_fields fst snd] in *.
  rewrite store_ok by (rewrite ?length_mem_write; lia). cbn [cbind].
  rewrite mem_write_mem_write by lia. cbn [put_fields fold_left fst snd]. apply IH; rewrite length_mem_write; done.
Qed.

(** Fields that do not touch a part leave it. *)
Lemma seg_put_out m l p n : 0 <= p -> 0 <= n ->
  Forall (fun f => field_fits (Z.of_nat (length m)) f /\ (p + n <= f.1 \/ f.1 + Z.of_nat (length f.2) <= p)) l ->
  seg (put_fields m l) p n = seg m p n.
Proof.
  intros Hp Hn. revert m. induction l as [|f l IH]; intros m Hl; [done|].
  apply Forall_cons in Hl as [[[Hf1 Hf2] Hf3] Hl]. cbn [put_fields fold_left].
  change (seg (put_fields (mem_write m (Z.to_nat f.1) f.2) l) p n = seg m p n).
  rewrite IH by (by rewrite length_mem_write). apply seg_write_out; lia.
Qed.

(** The field in front of fields that do not touch it. *)
Lemma seg_put_last m l o d l' :
  Forall (field_fits (Z.of_nat (length m))) (l ++ [(o, d)]) ->
  Forall (fun f => field_fits (Z.of_nat (length m)) f /\
                   (o + Z.of_nat (length d) <= f.1 \/ f.1 + Z.of_nat (length f.2) <= o)) l' ->
  seg (put_fields m (l ++ (o, d) :: l')) o (Z.of_nat (length d)) = d.
Proof.
  intros Hl Hl'. unfold put_fields. rewrite fold_left_app. cbn [fold_left fst snd].
  apply Forall_app in Hl as [_ [[Ho Hd] _]%Forall_cons]. cbn [fst snd] in *.
  fold (put_fields m l). fold (put_fields (mem_write (put_fields m l) (Z.to_nat o) d) l').
  rewrite seg_put_out; [|lia|lia|by rewrite length_mem_write, length_put_fields].
  apply seg_write; rewrite ?length_put_fields; lia.
Qed.

(** What the merge knows of a decoy. *)
Record decoy_ok (off : SAR_DIR_OFFSETS) (d : decoy) : Prop := {
  ok_chars : Forall is_u16 (d_name d);
  ok_short : (length (d_name d) <= SAR_PHANTOM_NAME_CHARS)%nat;
  ok_size : d_size d = SarPhantomEntrySize off (Z.of_nat (length (d_name d)) * 2)
}.

(** The entry of a decoy, with its padding, and without its link and padding. *)
Definition decoy_image (off : SAR_DIR_OFFSETS) (d : decoy) : bytes :=
  put_fields (replicate (Z.to_nat (d_size d)) 0) (entry_fields off (d_name d) (d_meta d) (d_ref d)).

Definition decoy_body (off : SAR_DIR_OFFSETS) (d : decoy) : bytes :=
  seg (decoy_image off d) 4 (base_record_size off + Z.of_nat (length (d_name d)) * 2 - 4).

Section Decoy.
Context (off : SAR_DIR_OFFSETS) (d : decoy) (Hoff : layout_ok off = true) (Hd : decoy_ok off d).

Lemma layout_facts : next_entry off = 0 /\ 4 <= name_length off /\ name_length off + 4 <= name_start off /\
  name_start off = base_record_size off /\ base_record_size off <= 200.
Proof using Hoff. unfold layout_ok in Hoff. bsimp. lia. Qed.

Definition decoy_clen : Z := base_record_size off + Z.of_nat (length (d_name d)) * 2.

Lemma decoy_size_bounds : decoy_clen <= d_size d <= decoy_clen + 7.
Proof using Hoff Hd.
  destruct layout_facts as (_&H1&H2&H3&H4). pose proof (ok_short _ _ Hd). unfold SAR_PHANTOM_NAME_CHARS in *.
  rewrite (ok_size _ _ Hd). unfold SarPhantomEntrySize. rewrite u32_small by (unfold is_u; lia).
  fold decoy_clen. pose proof (align8_esize (replicate (Z.to_nat (decoy_clen - 4)) 0)) as A.
  pose proof (esize_bounds (replicate (Z.to_nat (decoy_clen - 4)) 0)) as B. rewrite length_replicate in *.
  unfold decoy_clen in *. replace (Z.of_nat (Z.to_nat _) + 4) with
    (base_record_size off + Z.of_nat (length (d_name d)) * 2) in A by lia. rewrite A by lia. lia.
Qed.

(** The field lies between [a] and [b]. *)
Definition between (a b : Z) (f : Z * bytes) : Prop := a <= f.1 /\ f.1 + Z.of_nat (length f.2) <= b.

Lemma high_field o n x : (o <? 0) || ((name_length off + 4 <=? o) && (o + n <=? name_start off)) = true ->
  Z.of_nat (length x) = n -> Forall (between (name_length off + 4) (name_start off)) (if 0 <=? o then [(o, x)] else []).
Proof using Type.
  clear Hoff Hd. intros H Hx. destruct (Z.leb_spec 0 o); [|done]. apply Forall_singleton. unfold between. cbn.
  apply orb_true_iff in H as [H|H]; bsimp; lia.
Qed.

Lemma fields_split : exists pre post,
  entry_fields off (d_name d) (d_meta d) (d_ref d) =
    [(0, le_bytes 4 0)] ++ pre ++ [(name_length off, le_bytes 4 (Z.of_nat (length (d_name d)) * 2))] ++
    [(name_start off, u16s_bytes (d_name d))] ++ post /\
  Forall (between 4 (name_length off)) pre /\ Forall (between (name_length off + 4) (name_start off)) post.
Proof using Hoff.
  destruct layout_facts as (H0&H1&H2&H3&H4). unfold entry_fields. rewrite H0.
  rewrite (proj2 (Z.eqb_neq (name_length off) _)) by (unfold ULONG_NONE; lia).
  rewrite (proj2 (Z.eqb_neq (name_start off) _)) by (unfold ULONG_NONE; lia).
  eexists _, _. split; [done|]. unfold layout_ok in Hoff. bsimp. split.
  - destruct (_ =? ULONG_NONE); [done|]. bsimp. cbn [orb] in *. bsimp.
    repeat (apply Forall_cons; split; [unfold between; cbn [fst snd]; rewrite length_le_bytes; lia|]). done.
  - repeat (apply Forall_app; split); eapply high_field; done.
Qed.

Lemma length_u16s l : length (u16s_bytes l) = (2 * length l)%nat.
Proof using Type. clear Hoff Hd. induction l as [|x l IH]; [done|]. unfold u16s_bytes in *. cbn [flat_map length]. len. Qed.

Lemma decoy_image_reads :
  length (decoy_image off d) = Z.to_nat (d_size d) /\ seg (decoy_image off d) 0 4 = le_bytes 4 0 /\
  seg (decoy_image off d) (name_length off) 4 = le_bytes 4 (Z.of_nat (length (d_name d)) * 2) /\
  seg (decoy_image off d) (name_start off) (Z.of_nat (length (d_name d)) * 2) = u16s_bytes (d_name d) /\
  Forall (field_fits (d_size d)) (entry_fields off (d_name d) (d_meta d) (d_ref d)).
Proof using Hoff Hd.
  destruct layout_facts as (_&H1&H2&H3&H4). pose proof decoy_size_bounds as Hs. unfold decoy_clen in Hs.
  destruct fields_split as (pre & post & E & Hpre & Hpost).
  set (N := length (d_name d)) in *. set (m := replicate (Z.to_nat (d_size d)) 0).
  assert (Hm : Z.of_nat (length m) = d_size d) by (unfold m; rewrite length_replicate; lia).
  assert (Hn : Z.of_nat (length (u16s_bytes (d_name d))) = Z.of_nat N * 2) by (rewrite length_u16s; lia).
  assert (Fpre : Forall (field_fits (d_size d)) pre)
    by (eapply Forall_impl; [exact Hpre|]; unfold between, field_fits; intros; lia).
  assert (Fpost : Forall (field_fits (d_size d)) post)
    by (eapply Forall_impl; [exact Hpost|]; unfold between, field_fits; intros; lia).
  assert (F0 : field_fits (d_size d) (0, le_bytes 4 0)) by (unfold field_fits; cbn; lia).
  assert (F1 : field_fits (d_size d) (name_length off, le_bytes 4 (Z.of_nat N * 2)))
    by (unfold field_fits; cbn [fst snd]; rewrite length_le_bytes; lia).
  assert (F2 : field_fits (d_size d) (name_start off, u16s_bytes (d_name d)))
    by (unfold field_fits; cbn [fst snd]; lia).
  assert (Ppost : forall o n, (o + n <= name_length off + 4 \/ name_start off <= o) ->
     Forall (fun f => field_fits (d_size d) f /\ (o + n <= f.1 \/ f.1 + Z.of_nat (length f.2) <= o)) post).
  { intros o n Ho. apply Forall_forall. intros f Hf. rewrite Forall_forall in Fpost, Hpost.
    specialize (Fpost f Hf). specialize (Hpost f Hf). unfold between in Hpost. split; [done|lia]. }
  unfold decoy_image. fold m. rewrite E. split; [|split; [|split; [|split]]].
  - rewrite length_put_fields. unfold m. by rewrite length_replicate.
  - apply (seg_put_last m [] 0 (le_bytes 4 0)); rewrite Hm; [by apply Forall_singleton|].
    change (Z.of_nat (length (le_bytes 4 0))) with 4. repeat (apply Forall_app; split).
    + apply Forall_forall. intros f Hf. rewrite Forall_forall in Fpre, Hpre.
      specialize (Fpre f Hf). specialize (Hpre f Hf). unfold between in Hpre. split; [done|lia].
    + apply Forall_singleton. split; [done|]. cbn [fst snd]. lia.
    + apply Forall_singleton. split; [done|]. cbn [fst snd]. lia.
    + apply Ppost. lia.
  - rewrite app_assoc. change 4 with (Z.of_nat (length (le_bytes 4 (Z.of_nat N * 2)))) at 1.
    apply seg_put_last; rewrite Hm.
    + rewrite !Forall_app, !Forall_singleton. done.
    + change (Z.of_nat (length (le_bytes 4 (Z.of_nat N * 2)))) with 4. apply Forall_cons. split.
      * split; [done|]. cbn [fst snd]. lia.
      * apply Ppost. lia.
  - rewrite !app_assoc, <- (app_assoc _ _ post). rewrite <- Hn. apply seg_put_last; rewrite Hm.
    + rewrite !Forall_app, !Forall_singleton. done.
    + apply Ppost. lia.
  - rewrite !Forall_app, !Forall_singleton. done.
Qed.

(** Filling an entry writes the image. *)
Lemma fill_entry_image buf pos : 0 <= pos -> pos + d_size d <= Z.of_nat (length buf) ->
  SarPhantomFillEntry buf pos off (d_size d) (d_name d) (d_meta d) (d_ref d) =
  Ret (mem_write buf (Z.to_nat pos) (decoy_image off d)).
Proof using Hoff Hd.
  intros Hp Hb. pose proof decoy_size_bounds as Hs. unfold decoy_clen in Hs.
  destruct layout_facts as (_&H1&H2&H3&H4).
  destruct decoy_image_reads as (_&_&_&_&Hf). unfold SarPhantomFillEntry.
  rewrite store_ok by (rewrite ?length_replicate; lia). cbn [cbind].
  apply store_fields_put; rewrite ?length_replicate; [done|lia|].
  by replace (Z.of_nat (Z.to_nat (d_size d))) with (d_size d) by lia.
Qed.

Lemma length_decoy_body : Z.of_nat (length (decoy_body off d)) = decoy_clen - 4.
Proof using Hoff Hd.
  pose proof decoy_size_bounds as Hs. unfold decoy_clen in *. destruct layout_facts as (_&H1&H2&H3&H4).
  destruct decoy_image_reads as (Hl&_). unfold decoy_body. rewrite length_seg by lia. lia.
Qed.

(** The body is an entry, it has the name of the decoy, and its size. *)
Lemma decoy_body_ok : entry_ok off (decoy_body off d) /\ entry_name off (decoy_body off d) = d_name d /\
  esize (decoy_body off d) = d_size d.
Proof using Hoff Hd.
  pose proof length_decoy_body as Hb. destruct layout_facts as (_&H1&H2&H3&H4).
  pose proof (ok_short _ _ Hd) as Hs. unfold SAR_PHANTOM_NAME_CHARS in Hs.
  destruct decoy_image_reads as (_&_&Hl&Hn&_). unfold decoy_clen in *. split; [split|split].
  - lia.
  - rewrite Hb. unfold decoy_body. rewrite seg_seg by lia.
    replace (4 + (name_length off - 4)) with (name_length off) by lia. rewrite Hl.
    rewrite le_val_le_bytes by lia. lia.
  - unfold entry_name. rewrite Hb. unfold decoy_body.
    replace (base_record_size off + Z.of_nat (length (d_name d)) * 2 - 4 + 4 - base_record_size off)
      with (Z.of_nat (length (d_name d)) * 2) by lia.
    rewrite seg_seg by lia. replace (4 + (name_start off - 4)) with (name_start off) by lia.
    rewrite Hn, Z.div_mul by lia. rewrite Nat2Z.id.
    apply (dec_enc (c := c_u16s (length (d_name d))) (d_name d)). by split; [|apply (ok_chars _ _ Hd)].
  - rewrite (ok_size _ _ Hd). unfold SarPhantomEntrySize. rewrite u32_small by (unfold is_u; lia).
    rewrite <- align8_esize by lia. f_equal. lia.
Qed.

End Decoy.

(** ** Walking a chain *)

Section Walk.
Context (off : SAR_DIR_OFFSETS) (buf : bytes) (stop : Z) (Hoff : layout_ok off = true)
  (Hstop : stop <= Z.of_nat (length buf)) (Hbig : stop <= 2 ^ 31).

Lemma entry_facts pos n e : entry_at off buf stop pos n e ->
  load32 buf (pos + next_entry off) = Ret n /\ entry_length buf off pos = Ret (Z.of_nat (length e) + 4) /\
  load buf pos (Z.of_nat (length e) + 4) = Ret (seg buf pos (Z.of_nat (length e) + 4)) /\
  align8 (Z.of_nat (length e) + 4) = esize e /\ pos < stop.
Proof using All.
  intros [Hp He Hn Hb [Hok1 Hok2]]. destruct (layout_facts off Hoff) as (H0&H1&H2&H3&H4).
  rewrite H0, Z.add_0_r. split; [|split; [|split; [|split]]].
  - by rewrite load32_ok, Hn by lia.
  - unfold entry_length. rewrite load32_ok by lia. cbn [cbind].
    rewrite <- Hb in Hok2 at 1. rewrite seg_seg in Hok2 by lia.
    replace (pos + 4 + (name_length off - 4)) with (pos + name_length off) in Hok2 by lia. rewrite Hok2.
    rewrite u32_small; [f_equal; lia|]. unfold is_u. lia.
  - apply load_ok; lia.
  - apply align8_esize. lia.
  - lia.
Qed.

Lemma chain_pos pos l : chain off buf stop pos l -> 0 <= pos < stop /\ l <> [].
Proof using All. intros [? e H|? n e l' H ? ? _]; pose proof (entry_facts _ _ _ H); destruct H; split; done || lia. Qed.

Lemma chain_length pos l : chain off buf stop pos l -> Z.of_nat (length l) <= stop - pos.
Proof using All.
  induction 1 as [pos e H|pos n e l H Hn Hs Hc IH]; pose proof (entry_facts _ _ _ H); cbn [length]; [lia|].
  pose proof (esize_bounds e). lia.
Qed.

Lemma chain_total pos l : chain off buf stop pos l -> 0 <= total l <= stop - pos + 7.
Proof using All.
  induction 1 as [pos e H|pos n e l H Hn Hs Hc IH]; cbn [total foldr]; pose proof (esize_bounds e).
  - destruct H. lia.
  - fold (total l) in *. lia.
Qed.

Lemma count_loop_chain fuel pos l c : chain off buf stop pos l -> (Z.to_nat (stop - pos) < fuel)%nat ->
  0 <= c -> c + (stop - pos) < 2 ^ 32 -> count_loop fuel buf stop off pos c = Ret (c + Z.of_nat (length l)).
Proof using All.
  intros H. revert fuel c. induction H as [pos e H|pos n e l H Hn Hs Hc IH]; intros [|fuel] c Hf Hc0 Hc1; try lia;
    destruct (entry_facts _ _ _ H) as (E1&_&_&_&E2); cbn [count_loop];
    rewrite (proj2 (Z.ltb_lt _ _) E2), E1; cbn [cbind length]; rewrite u32_small by (unfold is_u; lia).
  - done.
  - pose proof (esize_bounds e). rewrite (proj2 (Z.eqb_neq n 0)) by lia. rewrite IH by lia. f_equal. lia.
Qed.

Lemma total_loop_chain fuel pos l c : chain off buf stop pos l -> (Z.to_nat (stop - pos) < fuel)%nat ->
  0 <= c -> c + (stop - pos) + 7 < 2 ^ 32 -> total_loop fuel buf stop off pos c = Ret (c + total l).
Proof using All.
  intros H. revert fuel c. induction H as [pos e H|pos n e l H Hn Hs Hc IH]; intros [|fuel] c Hf Hc0 Hc1; try lia;
    destruct (entry_facts _ _ _ H) as (E1&E3&_&E4&E2); cbn [total_loop];
    rewrite (proj2 (Z.ltb_lt _ _) E2), E3; cbn [cbind]; rewrite E1; cbn [cbind];
    pose proof (esize_bounds e); rewrite E4; destruct H; rewrite u32_small by (unfold is_u; lia).
  - cbn. f_equal. lia.
  - rewrite (proj2 (Z.eqb_neq n 0)) by lia. rewrite IH by lia. f_equal. cbn [total foldr]. fold (total l). lia.
Qed.

Lemma real_name_chain pos n e : entry_at off buf stop pos n e -> real_name buf off pos = Ret (entry_name off e).
Proof using All.
  intros [Hp He Hn Hb [Hok1 Hok2]]. destruct (layout_facts off Hoff) as (H0&H1&H2&H3&H4).
  unfold real_name, entry_name. rewrite load32_ok by lia. cbn [cbind].
  rewrite <- Hb in Hok2 at 1. rewrite seg_seg in Hok2 by lia.
  replace (pos + 4 + (name_length off - 4)) with (pos + name_length off) in Hok2 by lia. rewrite Hok2.
  rewrite u16_small by (unfold is_u; lia). rewrite load_ok by lia. cbn [cbind].
  set (N := Z.of_nat (length e) + 4 - base_record_size off) in *.
  assert (Hs : seg e (name_start off - 4) N = seg (seg buf (pos + 4) (Z.of_nat (length e))) (name_start off - 4) N)
    by (by rewrite Hb). rewrite Hs, seg_seg by lia. do 3 f_equal. lia.
Qed.

(** Copying an entry: only its place changes, which then holds it with link 0. *)
Lemma copy_real_ok Out used pos n e : entry_at off buf stop pos n e ->
  0 <= used -> used + esize e <= Z.of_nat (length Out) ->
  exists Out', copy_real Out used buf stop off pos =
      Ret (Out', esize e, if (n =? 0) || (stop <=? pos + n) then None else Some (pos + n)) /\
    length Out' = length Out /\ le_val (seg Out' used 4) = 0 /\ seg Out' (used + 4) (Z.of_nat (length e)) = e /\
    forall p k, 0 <= p -> 0 <= k -> p + k <= used -> seg Out' p k = seg Out p k.
Proof using All.
  intros He Hu Hl. destruct (entry_facts _ _ _ He) as (E1&E2&E3&E4&E5). pose proof (esize_bounds e).
  destruct (layout_facts off Hoff) as (H0&_). unfold copy_real. rewrite E2. cbn [cbind]. rewrite E1. cbn [cbind].
  rewrite E3. cbn [cbind]. rewrite E4, H0, Z.add_0_r. destruct He as [Hp He Hn Hb _].
  set (data := seg buf pos (Z.of_nat (length e) + 4)).
  assert (Hd : length data = (length e + 4)%nat) by (unfold data; rewrite length_seg; lia).
  rewrite store_ok by lia. cbn [cbind]. set (O1 := mem_write Out _ data).
  assert (L1 : length O1 = length Out) by (unfold O1; by rewrite length_mem_write).
  set (pad := replicate (Z.to_nat (esize e - (Z.of_nat (length e) + 4))) 0).
  assert (Hpad : Z.of_nat (length pad) = esize e - (Z.of_nat (length e) + 4)) by (unfold pad; rewrite length_replicate; lia).
  assert (exists O2, (if Z.of_nat (length e) + 4 <? esize e then store O1 (used + (Z.of_nat (length e) + 4)) pad else Ret O1)
            = Ret O2 /\ length O2 = length Out /\
            forall p k, 0 <= p -> 0 <= k -> p + k <= used + (Z.of_nat (length e) + 4) -> seg O2 p k = seg O1 p k)
    as (O2 & -> & L2 & F2).
  { destruct (_ <? _).
    - rewrite store_ok by lia. eexists. split; [done|]. rewrite length_mem_write. split; [done|].
      intros. apply seg_write_out; lia.
    - by exists O1. }
  cbn [cbind]. rewrite store_ok by (rewrite ?length_le_bytes; lia). cbn [cbind]. eexists. split; [done|].
  rewrite length_mem_write. split; [done|]. split; [|split].
  - change 4 with (Z.of_nat (length (le_bytes 4 0))). rewrite seg_write by (rewrite ?length_le_bytes; lia). done.
  - rewrite seg_write_out by (rewrite ?length_le_bytes; lia). rewrite F2 by lia. unfold O1.
    rewrite seg_write_in by lia. unfold data. rewrite seg_seg by lia. done.
  - intros p k Hp0 Hk Hpk. rewrite seg_write_out by (rewrite ?length_le_bytes; lia). rewrite F2 by lia.
    apply seg_write_out; lia.
Qed.

End Walk.

(** ** The order of the names *)

Section Order.
Context (upcase : Z -> Z).

Definition name_le (a b : list Z) : Prop := RtlCompareUnicodeString upcase a b <> Gt.

Lemma compare_names_opp a b : RtlCompareUnicodeString upcase b a = CompOpp (RtlCompareUnicodeString upcase a b).
Proof.
  revert b. induction a as [|x a IH]; intros [|y b]; cbn; try done.
  rewrite (Z.compare_antisym (upcase x) (upcase y)). by destruct (upcase x ?= upcase y); cbn.
Qed.

Lemma name_le_trans a b c : name_le a b -> name_le b c -> name_le a c.
Proof.
  unfold name_le. revert b c. induction a as [|x a IH]; intros [|y b] [|z c]; cbn; try done.
  destruct (Z.compare_spec (upcase x) (upcase y)) as [E|E|E], (Z.compare_spec (upcase y) (upcase z)) as [E'|E'|E'];
    try done; intros H1 H2.
  - rewrite E, E', Z.compare_refl. by eapply IH.
  - by rewrite E, (proj2 (Z.compare_lt_iff _ _) E').
  - by rewrite <- E', (proj2 (Z.compare_lt_iff _ _) E).
  - by rewrite (proj2 (Z.compare_lt_iff _ _) (Z.lt_trans _ _ _ E E')).
Qed.

Lemma name_le_refl a : name_le a a.
Proof. unfold name_le. induction a as [|x a IH]; cbn; [done|]. by rewrite Z.compare_refl. Qed.

Lemma not_lt_le a b : RtlCompareUnicodeString upcase b a <> Lt -> name_le a b.
Proof. unfold name_le. rewrite (compare_names_opp a b). by destruct (RtlCompareUnicodeString upcase a b). Qed.

(** ** The decoys that are left *)

Definition unmarked (mask : Z) (i : nat) : Prop := mask .& (1 .<< Z.of_nat i) = 0.

#[global] Instance unmarked_dec mask i : Decision (unmarked mask i).
Proof. unfold unmarked. apply _. Defined.

Lemma unmarked_bit mask i : unmarked mask i <-> Z.testbit mask (Z.of_nat i) = false.
Proof.
  unfold unmarked. rewrite Z.shiftl_1_l. split.
  - intros H. apply (f_equal (fun x => Z.testbit x (Z.of_nat i))) in H.
    by rewrite Z.land_spec, Z.pow2_bits_true, andb_true_r, Z.bits_0 in H by lia.
  - intros H. apply Z.bits_inj'. intros n Hn. rewrite Z.land_spec, Z.bits_0.
    destruct (decide (n = Z.of_nat i)) as [->|Hne]; [by rewrite H|].
    by rewrite Z.pow2_bits_false, andb_false_r by lia.
Qed.

Lemma unmarked_mark mask m i : unmarked (mask .| (1 .<< Z.of_nat m)) i <-> unmarked mask i /\ i <> m.
Proof.
  rewrite !unmarked_bit, Z.lor_spec, Z.shiftl_1_l, orb_false_iff. destruct (decide (i = m)) as [->|H].
  - rewrite Z.pow2_bits_true by lia. split; [by intros [_ ?]|by intros [_ []]].
  - rewrite Z.pow2_bits_false by lia. split; [by intros [? _]|by intros [? _]].
Qed.

Context (ds : list decoy).

Definition remaining (mask : Z) : list nat := filter (unmarked mask) (seq 0 (length ds)).

Definition nth_name (i : nat) : list Z := match ds !! i with Some d => d_name d | None => [] end.

Lemma min_fold mask idx acc :
  Forall (fun i => i < length ds)%nat idx -> (forall m, acc = Some m -> (m < length ds)%nat) ->
  match fold_left (min_step upcase ds mask) idx acc with
  | None => acc = None /\ Forall (fun i => ~ unmarked mask i) idx
  | Some m => (m < length ds)%nat /\ (acc = Some m \/ (m ∈ idx /\ unmarked mask m)) /\
      forall i, acc = Some i \/ (i ∈ idx /\ unmarked mask i) -> name_le (nth_name m) (nth_name i)
  end.
Proof.
  intros His. revert acc. induction His as [|i idx Hi His IH]; intros acc Hacc; cbn [fold_left].
  - destruct acc as [m|]; [|done]. split; [by apply Hacc|]. split; [by left|].
    intros j [[= <-]|[Hj _]]; [apply name_le_refl|by apply not_elem_of_nil in Hj].
  - destruct (lookup_lt_is_Some_2 ds i Hi) as [d Hd].
    assert (Ha : forall m, min_step upcase ds mask acc i = Some m -> (m < length ds)%nat /\
              (acc = Some m \/ (m = i /\ unmarked mask m)) /\
              forall j, acc = Some j \/ (j = i /\ unmarked mask j) -> name_le (nth_name m) (nth_name j)).
    { intros m. unfold min_step. destruct (Z.eqb_spec (mask .& (1 .<< Z.of_nat i)) 0) as [Hu|Hu]; cbn [negb].
      2:{ intros ->. split; [by apply Hacc|]. split; [by left|].
          intros j [[= <-]|[-> Hj]]; [apply name_le_refl|done]. }
      rewrite Hd. destruct acc as [a|].
      - destruct (lookup_lt_is_Some_2 ds a (Hacc a eq_refl)) as [da Hda]. rewrite Hda.
        assert (Na : nth_name a = d_name da) by (unfold nth_name; by rewrite Hda).
        assert (Ni : nth_name i = d_name d) by (unfold nth_name; by rewrite Hd).
        case_bool_decide as Hc; intros [= <-].
        + split; [done|]. split; [by right|]. intros j [[= <-]|[-> _]]; [|apply name_le_refl].
          unfold name_le. by rewrite Na, Ni, Hc.
        + split; [by apply Hacc|]. split; [by left|]. intros j [[= <-]|[-> _]]; [apply name_le_refl|].
          rewrite Na, Ni. by apply not_lt_le.
      - intros [= <-]. split; [done|]. split; [by right|].
        intros j [|[-> _]]; [done|apply name_le_refl]. }
    assert (Hn : min_step upcase ds mask acc i = None -> acc = None /\ ~ unmarked mask i).
    { unfold min_step, unmarked. destruct (Z.eqb_spec (mask .& (1 .<< Z.of_nat i)) 0); cbn [negb]; [|done].
      rewrite Hd. destruct acc as [a|]; [|done].
      destruct (lookup_lt_is_Some_2 ds a (Hacc a eq_refl)) as [da Hda]. rewrite Hda. by case_bool_decide. }
    specialize (IH (min_step upcase ds mask acc i)). destruct (fold_left _ idx _) as [m|].
    + destruct IH as (Hm & Hin & Hle); [intros m' Hm'; by apply Ha|]. split; [done|]. split.
      * destruct Hin as [Hs|[Hs Hu]]; [|right; split; [by right|done]].
        destruct (Ha m Hs) as (_ & [->|[-> Hu]] & _); [by left|]. right. split; [by left|done].
      * intros j Hj. destruct (min_step upcase ds mask acc i) as [s|] eqn:Es.
        -- destruct (Ha s eq_refl) as (_ & _ & Hsle).
           assert (Hcase : (acc = Some j \/ (j = i /\ unmarked mask j)) \/ (j ∈ idx /\ unmarked mask j)).
           { destruct Hj as [Hj|[[->|Hj]%elem_of_cons Hu]]; [by left; left|by left; right|by right]. }
           destruct Hcase as [Hcase|Hcase]; [|apply Hle; by right].
           eapply name_le_trans; [apply Hle; by left|by apply Hsle].
        -- destruct (Hn eq_refl) as [-> Hnu]. destruct Hj as [|[[->|Hj]%elem_of_cons Hu]]; try done.
           apply Hle. by right.
    + destruct IH as [IH1 IH2]; [intros m' Hm'; by apply Ha|]. destruct (Hn IH1) as [-> Hu].
      split; [done|]. by apply Forall_cons.
Qed.

Lemma min_decoy_spec mask :
  match min_decoy upcase ds mask with
  | None => remaining mask = []
  | Some m => m ∈ remaining mask /\ (forall i, i ∈ remaining mask -> name_le (nth_name m) (nth_name i)) /\
      remaining mask ≡ₚ m :: remaining (mask .| (1 .<< Z.of_nat m))
  end.
Proof.
  unfold min_decoy. pose proof (min_fold mask (seq 0 (length ds)) None) as H.
  destruct (fold_left _ _ _) as [m|].
  - destruct H as (Hm & [|[Hin Hu]] & Hle); [by apply Forall_seq; lia|done|done|].
    assert (Hr : m ∈ remaining mask) by (apply list_elem_of_filter; done). split; [done|]. split.
    + intros i [Hi1 Hi2]%list_elem_of_filter. apply Hle. by right.
    + apply NoDup_Permutation.
      * apply NoDup_filter, NoDup_seq.
      * apply NoDup_cons. split; [|apply NoDup_filter, NoDup_seq].
        intros [[_ Hx]%unmarked_mark _]%list_elem_of_filter. done.
      * intros i. unfold remaining. rewrite elem_of_cons, !list_elem_of_filter, unmarked_mark.
        destruct (decide (i = m)) as [->|]; naive_solver.
  - destruct H as [_ H]; [by apply Forall_seq; lia|done|]. unfold remaining.
    apply elem_of_nil_inv. intros i [Hu Hi]%list_elem_of_filter. rewrite Forall_forall in H. by apply (H i).
Qed.

End Order.

(** ** The loop *)

Lemma total_nonneg l : 0 <= total l.
Proof. induction l as [|e l IH]; cbn; [lia|]. pose proof (esize_bounds e). fold (total l). lia. Qed.

#[global] Instance total_perm : Proper ((≡ₚ) ==> eq) total.
Proof. intros l l' H. unfold total. induction H; cbn in *; lia. Qed.

Lemma total_app l l' : total (l ++ l') = total l + total l'.
Proof. induction l as [|e l IH]; cbn; [done|]. fold (total (l ++ l')) (total l). lia. Qed.

Section Loop.
Context (upcase : Z -> Z) (off : SAR_DIR_OFFSETS) (Swapped : bytes) (stop : Z) (ds : list decoy).
Context (Hoff : layout_ok off = true) (Hstop : stop <= Z.of_nat (length Swapped)) (Hbig : stop <= 2 ^ 31)
  (Hds : Forall (decoy_ok off) ds).

Definition nth_body (i : nat) : bytes := match ds !! i with Some d => decoy_body off d | None => [] end.
Definition bodies (mask : Z) : list bytes := nth_body <$> remaining ds mask.

Definition entry_le (a b : bytes) : Prop := name_le upcase (entry_name off a) (entry_name off b).

(** The part [p, p + n) is not the link of the last entry. *)
Definition away (lastOut : option Z) (p n : Z) : Prop :=
  match lastOut with Some q => p + n <= q \/ q + 4 <= p | None => True end.

(** [tail] has been appended at [used]. *)
Record merged (Out : bytes) (used : Z) (lastOut : option Z) (rs : list bytes) (mask : Z) (Out' : bytes) (used' : Z)
    (tail : list bytes) : Prop := {
  mg_length : length Out' = length Out;
  mg_used : used' = used + total tail;
  mg_frame : forall p n, 0 <= p -> 0 <= n -> p + n <= used -> away lastOut p n -> seg Out' p n = seg Out p n;
  mg_perm : tail ≡ₚ rs ++ bodies mask;
  mg_sub : rs `sublist_of` tail;
  mg_sorted : StronglySorted entry_le rs -> StronglySorted entry_le tail;
  mg_link : forall q, lastOut = Some q -> le_val (seg Out' q 4) = match tail with [] => 0 | _ => used - q end;
  mg_chain : tail <> [] -> chain off Out' used' used tail
}.

Lemma set_next_ok Out used lastOut v : used <= Z.of_nat (length Out) ->
  (forall q, lastOut = Some q -> 0 <= q /\ q + 4 <= used) -> is_u32 v ->
  exists Out1, set_next Out off lastOut v = Ret Out1 /\ length Out1 = length Out /\
    (forall p n, 0 <= p -> 0 <= n -> away lastOut p n -> seg Out1 p n = seg Out p n) /\
    forall q, lastOut = Some q -> le_val (seg Out1 q 4) = v.
Proof using All.
  intros Hu Hq Hv. unfold set_next. destruct lastOut as [q|]; [|by exists Out].
  destruct (Hq q eq_refl) as [Hq0 Hq1]. destruct (layout_facts off Hoff) as (H0&_). rewrite H0, Z.add_0_r.
  assert (Hl : forall w, Z.of_nat (length (le_bytes 4 w)) = 4) by done.
  rewrite store_ok by (rewrite ?Hl; lia). eexists. split; [done|]. rewrite length_mem_write. split; [done|]. split.
  - intros p n Hp Hn Ha. cbn in Ha. apply seg_write_out; rewrite ?Hl; lia.
  - intros ? [= <-]. rewrite <- (Hl v) at 1. rewrite seg_write by (rewrite ?Hl; lia).
    apply le_val_le_bytes. done.
Qed.

(** One entry [e] is written at [used], and the loop goes on. *)
Lemma merged_step Out Out1 Out2 used lastOut rs mask rs1 mask1 e Out' used' tail :
  0 <= used -> used + esize e <= Z.of_nat (length Out) -> (forall q, lastOut = Some q -> 0 <= q /\ q + 4 <= used) ->
  length Out1 = length Out -> length Out2 = length Out ->
  (forall p n, 0 <= p -> 0 <= n -> away lastOut p n -> seg Out1 p n = seg Out p n) ->
  (forall q, lastOut = Some q -> le_val (seg Out1 q 4) = used - q) ->
  seg Out2 (used + 4) (Z.of_nat (length e)) = e -> entry_ok off e ->
  (forall p n, 0 <= p -> 0 <= n -> p + n <= used -> seg Out2 p n = seg Out1 p n) ->
  rs ++ bodies mask ≡ₚ e :: rs1 ++ bodies mask1 -> rs = e :: rs1 \/ rs = rs1 ->
  (StronglySorted entry_le rs -> StronglySorted entry_le rs1 /\ Forall (entry_le e) (rs1 ++ bodies mask1)) ->
  merged Out2 (used + esize e) (Some used) rs1 mask1 Out' used' tail ->
  merged Out used lastOut rs mask Out' used' (e :: tail).
Proof using All.
  intros Hu Hroom Hq L1 L2 F1 K1 B2 Hok F2 Hperm Hrs Hsort [M1 M2 M3 M4 M5 M6 M7 M8].
  pose proof (esize_bounds e) as Hes. pose proof (total_nonneg tail) as Htn.
  assert (FF : forall p n, 0 <= p -> 0 <= n -> p + n <= used -> seg Out' p n = seg Out1 p n).
  { intros p n Hp Hn Hpn. rewrite M3; [by apply F2|lia|lia|lia|]. cbn. lia. }
  split.
  - by rewrite M1.
  - cbn [total foldr]. fold (total tail). lia.
  - intros p n Hp Hn Hpn Ha. rewrite FF by lia. by apply F1.
  - by rewrite M4, Hperm.
  - destruct Hrs as [->| ->]; [by apply sublist_skip|by apply sublist_cons].
  - intros Hs. destruct (Hsort Hs) as [Hs1 Hle]. constructor; [by apply M6|]. by rewrite M4.
  - intros q Hl. destruct (Hq q Hl). rewrite FF by lia. by apply K1.
  - intros _. assert (Hat : forall n, le_val (seg Out' used 4) = n -> entry_at off Out' used' used n e).
    { intros n Hn. split; [done|lia|done| |done]. rewrite M3; [done|lia|lia|lia|]. cbn. lia. }
    destruct tail as [|e' tail].
    + constructor. apply Hat. by apply M7.
    + apply chain_more with (n := esize e); [|lia| |by apply M8].
      * apply Hat. rewrite (M7 used eq_refl). lia.
      * pose proof (esize_bounds e'). cbn [total foldr] in *. fold (total tail) in *.
        pose proof (total_nonneg tail). lia.
Qed.

(** Where the reals are that are left. *)
Definition reals_at (rcur : option Z) (rs : list bytes) : Prop :=
  match rcur with None => rs = [] | Some r => chain off Swapped stop r rs end.

Lemma reals_next r rs : chain off Swapped stop r rs -> exists n e rs1, rs = e :: rs1 /\
  entry_at off Swapped stop r n e /\
  reals_at (if (n =? 0) || (stop <=? r + n) then None else Some (r + n)) rs1.
Proof using All.
  intros [pos e H|pos n e l H Hn Hs Hc].
  - exists 0, e, []. done.
  - exists n, e, l. split; [done|]. split; [done|]. pose proof (esize_bounds e).
    rewrite (proj2 (Z.eqb_neq n 0)), (proj2 (Z.leb_gt _ _)) by lia. done.
Qed.

Lemma sorted_bodies e mask : (forall i, i ∈ remaining ds mask -> name_le upcase (entry_name off e) (nth_name ds i)) ->
  Forall (entry_le e) (bodies mask).
Proof using All.
  intros H. apply Forall_fmap, Forall_forall. intros i Hi. specialize (H i Hi).
  apply list_elem_of_filter in Hi as [_ Hi]. apply elem_of_seq in Hi.
  destruct (lookup_lt_is_Some_2 ds i) as [d Hd]; [lia|].
  unfold entry_le, compose, nth_body, nth_name in *. rewrite Hd in *.
  by destruct (decoy_body_ok off d Hoff (Forall_lookup_1 _ _ _ _ Hds Hd)) as (_&->&_).
Qed.

(** When a decoy is taken: its entry, and what is left. *)
Lemma take_decoy_facts mask m d rcur rs :
  min_decoy upcase ds mask = Some m -> ds !! m = Some d -> reals_at rcur rs ->
  take_phantom upcase Swapped off ds rcur (Some m) = Ret true ->
  rs ++ bodies mask ≡ₚ decoy_body off d :: rs ++ bodies (mask .| (1 .<< Z.of_nat m)) /\
  (StronglySorted entry_le rs ->
   Forall (entry_le (decoy_body off d)) (rs ++ bodies (mask .| (1 .<< Z.of_nat m)))).
Proof using All.
  intros Hm Hd Hr Ht. pose proof (min_decoy_spec upcase ds mask) as Hs. rewrite Hm in Hs.
  destruct Hs as (Hin & Hle & Hp). assert (Hb : nth_body m = decoy_body off d) by (unfold nth_body; by rewrite Hd).
  assert (Hname : nth_name ds m = d_name d) by (unfold nth_name; by rewrite Hd).
  destruct (decoy_body_ok off d Hoff (Forall_lookup_1 _ _ _ _ Hds Hd)) as (_&Hn&_). split.
  - unfold bodies. rewrite Hp. cbn [fmap list_fmap]. fold (bodies mask). rewrite Hb. by rewrite Permutation_middle.
  - intros Hsort. apply Forall_app. split.
    + unfold take_phantom in Ht. destruct rcur as [r|]; cbn in Hr; [|by subst].
      destruct (reals_next _ _ Hr) as (n & e & rs1 & -> & He & _). rewrite Hd in Ht.
      rewrite (real_name_chain off Swapped stop Hoff Hstop Hbig _ _ _ He) in Ht. cbn [cbind] in Ht.
      injection Ht as Ht. apply bool_decide_eq_true in Ht.
      assert (He1 : entry_le (decoy_body off d) e) by (unfold entry_le, name_le; by rewrite Hn, Ht).
      apply Forall_cons. split; [done|]. apply StronglySorted_inv in Hsort as [_ Hall].
      eapply Forall_impl; [exact Hall|]. intros x Hx. by eapply name_le_trans.
    + apply sorted_bodies. intros i Hi. rewrite Hn, <- Hname. apply Hle. rewrite Hp. by right.
Qed.

(** When an entry of the file system is taken. *)
Lemma take_real_facts mask r rs n e rs1 :
  rs = e :: rs1 -> entry_at off Swapped stop r n e ->
  take_phantom upcase Swapped off ds (Some r) (min_decoy upcase ds mask) = Ret false ->
  StronglySorted entry_le rs -> StronglySorted entry_le rs1 /\ Forall (entry_le e) (rs1 ++ bodies mask).
Proof using All.
  intros -> He Ht Hs. apply StronglySorted_inv in Hs as [Hs Hall]. split; [done|].
  apply Forall_app. split; [done|]. apply sorted_bodies. intros i Hi.
  pose proof (min_decoy_spec upcase ds mask) as Hm. destruct (min_decoy upcase ds mask) as [m|].
  - destruct Hm as (Hin & Hle & _). apply list_elem_of_filter in Hin as [_ Hin]. apply elem_of_seq in Hin.
    destruct (lookup_lt_is_Some_2 ds m) as [d Hd]; [lia|]. unfold take_phantom in Ht. rewrite Hd in Ht.
    rewrite (real_name_chain off Swapped stop Hoff Hstop Hbig _ _ _ He) in Ht. cbn [cbind] in Ht.
    injection Ht as Ht. apply bool_decide_eq_false in Ht. eapply name_le_trans; [|by apply Hle].
    apply not_lt_le. unfold nth_name. by rewrite Hd.
  - rewrite Hm in Hi. by apply not_elem_of_nil in Hi.
Qed.

(** Writing the entry of a decoy: only its place changes. *)
Lemma fill_entry_ok Out used m d : ds !! m = Some d -> 0 <= used ->
  used + esize (decoy_body off d) <= Z.of_nat (length Out) ->
  exists Out', SarPhantomFillEntry Out used off (d_size d) (d_name d) (d_meta d) (d_ref d) = Ret Out' /\
    length Out' = length Out /\ seg Out' (used + 4) (Z.of_nat (length (decoy_body off d))) = decoy_body off d /\
    forall p k, 0 <= p -> 0 <= k -> p + k <= used -> seg Out' p k = seg Out p k.
Proof using All.
  intros Hd Hu Hl. pose proof (Forall_lookup_1 _ _ _ _ Hds Hd) as Hok.
  destruct (decoy_body_ok off d Hoff Hok) as (_ & _ & Hes). pose proof (length_decoy_body off d Hoff Hok) as Hlb.
  pose proof (esize_bounds (decoy_body off d)). destruct (decoy_image_reads off d Hoff Hok) as (Hli & _).
  unfold decoy_clen in Hlb. destruct (layout_facts off Hoff) as (_&?&?&?&?).
  rewrite (fill_entry_image off d Hoff Hok) by lia. eexists. split; [done|].
  rewrite length_mem_write. split; [done|]. split.
  - rewrite Hlb, seg_write_in by lia. done.
  - intros p k Hp Hk Hpk. apply seg_write_out; lia.
Qed.

(** [takePhantom] is defined, and chooses what there is. *)
Lemma take_phantom_total rcur rs mask emitted : reals_at rcur rs ->
  emitted + Z.of_nat (length (remaining ds mask)) = Z.of_nat (length ds) ->
  bool_decide (rcur <> None) || (emitted <? Z.of_nat (length ds)) = true ->
  exists b, take_phantom upcase Swapped off ds rcur (min_decoy upcase ds mask) = Ret b /\
    (b = true -> exists m d, min_decoy upcase ds mask = Some m /\ ds !! m = Some d) /\
    (b = false -> exists r, rcur = Some r).
Proof using All.
  intros Hr He Hgo. pose proof (min_decoy_spec upcase ds mask) as Hs. unfold take_phantom.
  destruct (min_decoy upcase ds mask) as [m|] eqn:Em.
  - destruct Hs as (Hin & _). apply list_elem_of_filter in Hin as [_ Hin]. apply elem_of_seq in Hin.
    destruct (lookup_lt_is_Some_2 ds m) as [d Hd]; [lia|]. destruct rcur as [r|].
    + cbn in Hr. destruct (reals_next _ _ Hr) as (n & e & rs1 & _ & Hat & _). rewrite Hd.
      rewrite (real_name_chain off Swapped stop Hoff Hstop Hbig _ _ _ Hat). cbn [cbind]. eexists. split; [done|].
      split; eauto.
    + eexists. split; [done|]. split; eauto; done.
  - destruct rcur as [r|]; [eexists; split; [done|]; split; eauto; done|].
    exfalso. cbn in Hr. subst rs. rewrite Hs in He. cbn in Hgo, He. bsimp. lia.
Qed.

Lemma remaining_mark mask m : min_decoy upcase ds mask = Some m ->
  length (remaining ds mask) = S (length (remaining ds (mask .| (1 .<< Z.of_nat m)))).
Proof using All.
  intros Em. pose proof (min_decoy_spec upcase ds mask) as Hs. rewrite Em in Hs. destruct Hs as (_ & _ & Hp).
  by rewrite Hp.
Qed.

(** The loop ends, within the buffer, and has merged everything that is left. *)
Lemma merge_loop_ok fuel : forall Out used lastOut rcur rs mask emitted,
  reals_at rcur rs -> (length rs + length (remaining ds mask) < fuel)%nat ->
  emitted + Z.of_nat (length (remaining ds mask)) = Z.of_nat (length ds) -> 0 <= emitted ->
  Z.of_nat (length ds) < 2 ^ 32 -> 0 <= used ->
  (forall q, lastOut = Some q -> 0 <= q /\ q + 4 <= used) ->
  used + total (rs ++ bodies mask) <= Z.of_nat (length Out) -> Z.of_nat (length Out) < 2 ^ 32 ->
  exists Out' used' tail,
    merge_loop upcase fuel Swapped stop off ds Out used lastOut rcur mask emitted = Ret (Out', used', Z.of_nat (length ds)) /\
    merged Out used lastOut rs mask Out' used' tail.
Proof using All.
  induction fuel as [|fuel IH]; intros Out used lastOut rcur rs mask emitted Hr Hf He He0 Hn Hu Hq Hroom Hlen; [lia|].
  cbn [merge_loop]. pose proof (total_nonneg (rs ++ bodies mask)) as Htn.
  destruct (bool_decide (rcur <> None) || (emitted <? Z.of_nat (length ds))) eqn:Hgo.
  2:{ bsimp. destruct rcur as [r|]; [exfalso; auto|]. cbn in Hr. subst rs.
      assert (Hrem : remaining ds mask = []) by (apply length_zero_iff_nil; lia).
      destruct (set_next_ok Out used lastOut 0) as (Out1 & -> & L1 & F1 & K1); [lia|done|unfold is_u; lia|].
      exists Out1, used, []. cbn [cbind]. split; [repeat f_equal; lia|]. split; try done.
      - cbn. lia.
      - intros. by apply F1.
      - unfold bodies. by rewrite Hrem. }
  destruct (set_next_ok Out used lastOut (u32 (used - default 0 lastOut))) as (Out1 & E1 & L1 & F1 & K1);
    [lia|done|apply is_u_u32|].
  assert (K1' : forall q, lastOut = Some q -> le_val (seg Out1 q 4) = used - q).
  { intros q Hl. rewrite (K1 q Hl), Hl. cbn [default from_option]. apply u32_small. destruct (Hq q Hl). unfold is_u. lia. }
  destruct (take_phantom_total _ _ _ _ Hr He Hgo) as (b & Eb & Hbt & Hbf).
  rewrite Eb. cbn [cbind]. rewrite E1. cbn [cbind]. destruct b.
  - destruct (Hbt eq_refl) as (m & d & Em & Hd). rewrite Em, Hd in *.
    destruct (take_decoy_facts _ _ _ _ _ Em Hd Hr Eb) as [Hperm Hsort]. pose proof (remaining_mark _ _ Em).
    destruct (decoy_body_ok off d Hoff (Forall_lookup_1 _ _ _ _ Hds Hd)) as (Hok & _ & Hes).
    set (mask1 := mask .| (1 .<< Z.of_nat m)) in *.
    rewrite Hperm in Hroom. cbn [total foldr] in Hroom. fold (total (rs ++ bodies mask1)) in Hroom.
    pose proof (total_nonneg (rs ++ bodies mask1)). pose proof (esize_bounds (decoy_body off d)).
    destruct (fill_entry_ok Out1 used m d) as (Out2 & E2 & L2 & B2 & F2); [done|lia|lia|].
    rewrite E2. cbn [cbind]. rewrite <- Hes, !u32_small by (unfold is_u; lia).
    destruct (IH Out2 (used + esize (decoy_body off d)) (Some used) rcur rs mask1 (emitted + 1))
      as (Out' & used' & tail & Er & Hmg); try done; try lia; [by intros q [= <-]; lia|].
    exists Out', used', (decoy_body off d :: tail). split; [done|].
    eapply (merged_step Out Out1 Out2 used lastOut rs mask rs mask1); eauto; lia.
  - destruct (Hbf eq_refl) as [r ->]. cbn in Hr. destruct (reals_next _ _ Hr) as (n & e & rs1 & -> & Hat & Hr1).
    cbn [app total foldr] in Hroom. fold (total (rs1 ++ bodies mask)) in Hroom.
    pose proof (total_nonneg (rs1 ++ bodies mask)). pose proof (esize_bounds e).
    destruct (copy_real_ok off Swapped stop Hoff Hstop Hbig Out1 used r n e Hat) as (Out2 & E2 & L2 & _ & B2 & F2);
      [lia|lia|]. rewrite E2. cbn [cbind]. rewrite u32_small by (unfold is_u; lia).
    destruct (IH Out2 (used + esize e) (Some used)
       (if (n =? 0) || (stop <=? r + n) then None else Some (r + n)) rs1 mask emitted)
      as (Out' & used' & tail & Er & Hmg); try done; try lia; [cbn in Hf; lia|by intros q [= <-]; lia|].
    exists Out', used', (e :: tail). split; [done|].
    eapply (merged_step Out Out1 Out2 used lastOut (e :: rs1) mask rs1 mask); eauto; try lia.
    + apply Hat.
    + by eapply take_real_facts.
Qed.

End Loop.

(** ** The merge *)

Lemma make_decoy_ok secret off Dir i : decoy_ok off (make_decoy secret off Dir i).
Proof.
  unfold make_decoy. split; cbn [d_name d_size]; [apply name_of_hash_u16| |done].
  pose proof (length_name_of_hash (Sha256.sar_hmac_sha256 secret (dir_message Dir (Z.of_nat i) []))).
  unfold SarPhantomNameForIndex, SAR_PHANTOM_NAME_CHARS. lia.
Qed.

(** A buffer with the same first bytes holds the same chain. *)
Lemma chain_same off buf buf' stop pos l : chain off buf stop pos l -> layout_ok off = true ->
  (forall p n, 0 <= p -> 0 <= n -> p + n <= stop -> seg buf' p n = seg buf p n) -> chain off buf' stop pos l.
Proof.
  intros H Hoff Hs. assert (Hat : forall p n e, entry_at off buf stop p n e -> entry_at off buf' stop p n e).
  { intros p n e [H1 H2 H3 H4 H5]. split; try done.
    - by rewrite Hs by lia.
    - by rewrite Hs by lia. }
  induction H; [apply chain_last|eapply chain_more]; eauto.
Qed.

Lemma remaining_all ds : remaining ds 0 = seq 0 (length ds).
Proof.
  unfold remaining. induction (seq 0 (length ds)) as [|i l IH]; [done|].
  rewrite filter_cons_True by (unfold unmarked; apply Z.land_0_l). by rewrite IH.
Qed.

Lemma bodies_all off ds : bodies off ds 0 = decoy_body off <$> ds.
Proof.
  unfold bodies. rewrite remaining_all.
  apply list_eq. intros i. rewrite !list_lookup_fmap.
  destruct (decide (i < length ds)%nat) as [Hi|Hi].
  - rewrite lookup_seq_lt by done. cbn. unfold nth_body. by destruct (lookup_lt_is_Some_2 ds i Hi) as [d ->].
  - rewrite lookup_seq_ge, (lookup_ge_None_2 ds) by lia. done.
Qed.

Lemma decoy_total off ds : layout_ok off = true -> Forall (decoy_ok off) ds -> (length ds <= 3)%nat ->
  fold_left (fun t d => u32 (t + d_size d)) ds 0 = total (decoy_body off <$> ds) /\
  total (decoy_body off <$> ds) <= 900.
Proof.
  intros Hoff Hds Hl.
  assert (Hd : forall d, decoy_ok off d -> 0 <= d_size d <= 300 /\ esize (decoy_body off d) = d_size d).
  { intros d Hd. destruct (decoy_body_ok off d Hoff Hd) as (_&_&He). split; [|done].
    pose proof (decoy_size_bounds off d Hoff Hd) as Hb. pose proof (ok_short _ _ Hd).
    destruct (layout_facts off Hoff) as (_&?&?&?&?). unfold decoy_clen, SAR_PHANTOM_NAME_CHARS in *. lia. }
  assert (G : forall c, 0 <= c -> c + 300 * Z.of_nat (length ds) <= 2 ^ 31 ->
    fold_left (fun t d => u32 (t + d_size d)) ds c = c + total (decoy_body off <$> ds) /\
    0 <= total (decoy_body off <$> ds) <= 300 * Z.of_nat (length ds)).
  { clear Hl. induction Hds as [|d ds Hd1 Hds IH]; intros c Hc Hb; cbn [fold_left fmap list_fmap total foldr length]; [lia|].
    fold (total (decoy_body off <$> ds)). destruct (Hd d Hd1) as [Hd2 ->]. cbn [length] in Hb.
    rewrite u32_small by (unfold is_u; lia). destruct (IH (c + d_size d)) as [-> ?]; lia. }
  destruct (G 0) as [-> ?]; lia.
Qed.

(** What the caller's buffer holds after the merge: a chain with the entries
    [rs] of the file system, in their order, and the decoys [shown], all in the
    order of the names if the file system's entries are. *)
Definition shows (upcase : Z -> Z) (secret : bytes) (off : SAR_DIR_OFFSETS) (Dir : list Z) (rs : list bytes)
    (Out : bytes) (used : Z) (shown : list nat) : Prop :=
  exists es, chain off Out used 0 es /\
    es ≡ₚ rs ++ ((fun i => decoy_body off (make_decoy secret off Dir i)) <$> shown) /\
    rs `sublist_of` es /\ (StronglySorted (entry_le upcase off) rs -> StronglySorted (entry_le upcase off) es) /\
    Forall (fun i => entry_name off (decoy_body off (make_decoy secret off Dir i)) =
                     SarPhantomNameForIndex secret Dir (Z.of_nat i)) shown.

Lemma decoy_names secret off Dir shown : layout_ok off = true ->
  Forall (fun i => entry_name off (decoy_body off (make_decoy secret off Dir i)) =
                   SarPhantomNameForIndex secret Dir (Z.of_nat i)) (shown : list nat).
Proof.
  intros Hoff. apply Forall_forall. intros i _.
  by destruct (decoy_body_ok off _ Hoff (make_decoy_ok secret off Dir i)) as (_&->&_).
Qed.

(** The listing is handed on as it is. *)
Lemma copy_shows upcase secret off Dir Out Swapped Returned rs : layout_ok off = true ->
  chain off Swapped Returned 0 rs -> Returned <= Z.of_nat (length Swapped) -> Returned <= Z.of_nat (length Out) ->
  Returned <= 2 ^ 31 -> exists Out', (let! d := load Swapped 0 Returned in store Out 0 d) = Ret Out' /\
    length Out' = length Out /\ shows upcase secret off Dir rs Out' Returned [].
Proof.
  intros Hoff Hc Hs Ho Hb. destruct (chain_pos off Swapped Returned Hoff Hs Hb _ _ Hc) as [Hp _].
  rewrite load_ok by lia. cbn [cbind]. assert (Hl : length (seg Swapped 0 Returned) = Z.to_nat Returned)
    by (apply length_seg; lia). rewrite store_ok by lia. eexists. split; [done|]. rewrite length_mem_write.
  split; [done|]. exists rs. split; [|split; [by rewrite app_nil_r|]; split; [done|]; split; [done|done]].
  eapply chain_same; [done|done|]. intros p n Hp0 Hn Hpn.
  transitivity (seg (mem_write Out (Z.to_nat 0) (seg Swapped 0 Returned)) (0 + p) n); [done|].
  rewrite seg_write_in, seg_seg by lia. done.
Qed.

Lemma decoy_order_length mask k : (length (decoy_order mask k) <= 3)%nat.
Proof.
  unfold decoy_order. rewrite length_take. etransitivity; [apply Nat.le_min_r|].
  etransitivity; [apply length_filter|done].
Qed.

(** Property C11: showing decoys never spoils a directory listing.  For every
    information class the driver handles and every well-formed chain of entries
    the file system returned, the merge ends without touching a byte outside
    the buffers; the caller's buffer then holds a chain with every entry of the
    file system, byte for byte and in the same order, and in addition either no
    decoy or the decoys chosen for the directory, under their names; and if the
    file system's entries are in the order of the names, so is the result. *)
Theorem decoys_keep_listing upcase secret cls off Out Swapped Returned Dir MatchMask Ectx m rs :
  SarPhantomDirOffsets cls = Some off -> chain off Swapped Returned 0 rs ->
  Returned <= Z.of_nat (length Swapped) -> Returned <= Z.of_nat (length Out) -> Z.of_nat (length Out) <= 2 ^ 31 ->
  exists Out' used emitted Ectx' m' shown,
    SarPhantomMergeInto upcase secret Out (Z.of_nat (length Out)) Swapped Returned off Dir MatchMask Ectx m =
      Ret (Out', used, emitted, Ectx', m') /\
    length Out' = length Out /\ used <= Z.of_nat (length Out) /\ emitted = Z.of_nat (length shown) /\
    (shown = [] \/ shown = decoy_order MatchMask (SarPhantomCountForDir (real_seen Ectx'))) /\
    shows upcase secret off Dir rs Out' used shown.
Proof.
  intros Hcls Hc Hs Ho Hlen. pose proof (dir_offsets_ok _ _ Hcls) as Hoff.
  assert (Hb : Returned <= 2 ^ 31) by lia. destruct (chain_pos off Swapped Returned Hoff Hs Hb _ _ Hc) as [Hp Hne].
  pose proof (chain_length off Swapped Returned Hoff Hs Hb _ _ Hc) as Hcl.
  destruct (copy_shows upcase secret off Dir Out Swapped Returned rs) as (Oc & Ec & Lc & Sc); try done.
  unfold SarPhantomMergeInto, SarPhantomCountRealEntries.
  rewrite (count_loop_chain off Swapped Returned Hoff Hs Hb _ 0 rs) by (done || lia). cbn [cbind].
  set (E' := set_seen _ Ectx). set (order := decoy_order _ _).
  assert (Hcopy : forall m' : idmap, exists Out' used emitted Ectx' m'' shown,
    (let! d := load Swapped 0 Returned in let! Out' := store Out 0 d in Ret (Out', Returned, 0, E', m')) =
      Ret (Out', used, emitted, Ectx', m'') /\ length Out' = length Out /\ used <= Z.of_nat (length Out) /\
    emitted = Z.of_nat (length shown) /\
    (shown = [] \/ shown = decoy_order MatchMask (SarPhantomCountForDir (real_seen Ectx'))) /\
    shows upcase secret off Dir rs Out' used shown).
  { intros m'. exists Oc, Returned, 0, E', m', []. split; [|split_and!; auto; done].
    destruct (load Swapped 0 Returned) as [x| |]; cbn [cbind] in *; [|done|done]. by rewrite Ec. }
  destruct (_ || _); [apply Hcopy|].
  set (ds := make_decoy secret off Dir <$> order).
  assert (Hds : Forall (decoy_ok off) ds) by (apply Forall_fmap, Forall_forall; intros; apply make_decoy_ok).
  assert (Hdl : (length ds <= 3)%nat) by (unfold ds; rewrite length_fmap; apply decoy_order_length).
  destruct (decoy_total off ds Hoff Hds Hdl) as [Hdt Hdt2].
  pose proof (total_nonneg (decoy_body off <$> ds)). pose proof (chain_total off Swapped Returned Hoff Hs Hb _ _ Hc).
  rewrite (total_loop_chain off Swapped Returned Hoff Hs Hb _ 0 rs) by (done || lia). cbn [cbind]. rewrite Hdt.
  rewrite u32_small by (unfold is_u; lia). destruct (Z.ltb_spec (Z.of_nat (length Out)) (0 + total rs + total (decoy_body off <$> ds)))
    as [|Hroom]; [apply Hcopy|].
  destruct (merge_loop_ok upcase off Swapped Returned ds Hoff Hs Hb Hds (Z.to_nat Returned + length ds + 1) Out 0 None
    (Some 0) rs 0 0) as (Out' & used' & tail & Er & Hm); try done; try lia.
  - rewrite remaining_all, length_seq. lia.
  - rewrite remaining_all, length_seq. lia.
  - rewrite bodies_all, total_app. lia.
  - rewrite Er. cbn [cbind]. destruct Hm as [M1 M2 M3 M4 M5 M6 M7 M8]. rewrite bodies_all in M4.
    eexists Out', used', _, E', _, order. split; [done|]. split; [done|]. split.
    { rewrite M2, M4, total_app. lia. }
    split; [unfold ds; by rewrite length_fmap|]. split; [by right|]. exists tail. split.
    { apply M8. intros ->. apply Permutation_nil_l, eq_sym, app_eq_nil in M4 as [? _]. done. }
    split; [by unfold ds in M4; rewrite <- list_fmap_compose in M4|]. split; [done|]. split; [done|].
    by apply decoy_names.
Qed.

End PhantomMerge.
