(* ===== verification/PhantomOps.v ===== *)
(** The callbacks that show, hide and redirect decoys (driver/phantom.c).

    An open of a decoy is redirected to its backing file, a directory listing
    and an enumeration of the change journal get decoys merged in, and a query
    on a backing file answers with the decoy's name.  To an exempt process
    there are no decoys. *)

From stdpp Require Import gmap strings.
From S2P Require Import Prelude Mem Sha256 Chain Whitelist EventLog DriverState Streams CaptureSeam CaptureWork Phantom.
From S2P Require Import Operations PhantomDir.
Import Mem Layout Streams CaptureSeam CaptureWork Phantom Operations PhantomDir.
Import DriverState (NTSTATUS, STATUS_ACCESS_DENIED, STATUS_OBJECT_NAME_NOT_FOUND, SAR_STATE, eventlog, log_event,
  SarStateRevokeExemption).

Module PhantomOps.

Definition SAR_EVENT_CLASS_EXEMPT_REVOKED : Z := 10.

(** ** The state *)

Record SAR_PHANTOM := { active : bool; volume_secret : bytes; image_notify_registered : bool }.

(** The decoys of the driver: [g_sar.phantom], the table of shown decoys, the
    backing files, and the contexts of the directory handles. *)
Record decoys := {
  phantom : option SAR_PHANTOM;
  shown_map : idmap;
  files : gmap (list Z) backing_file;
  enums : gmap Z SAR_PHANTOM_ENUM_CONTEXT
}.

Definition set_shown (m : idmap) (w : decoys) : decoys :=
  {| phantom := phantom w; shown_map := m; files := files w; enums := enums w |}.
Definition set_files (f : gmap (list Z) backing_file) (w : decoys) : decoys :=
  {| phantom := phantom w; shown_map := shown_map w; files := f; enums := enums w |}.
Definition set_enum (h : Z) (e : SAR_PHANTOM_ENUM_CONTEXT) (w : decoys) : decoys :=
  {| phantom := phantom w; shown_map := shown_map w; files := files w; enums := <[h := e]> (enums w) |}.

(** Whether there is memory, and whether the kernel has IoReplaceFileObjectName. *)
Definition SarPhantomCreate (alloc routine : bool) (w : decoys) : decoys :=
  if negb alloc then w
  else
    let ph := {| active := false; volume_secret := replicate 32 0; image_notify_registered := false |} in
    {| phantom := if routine then Some ph else None; shown_map := empty_idmap; files := files w; enums := enums w |}.

Definition SarPhantomActivate (MacKey : bytes) (p : SAR_PHANTOM) : SAR_PHANTOM :=
  {| active := true; volume_secret := SarPhantomDeriveSecret MacKey;
     image_notify_registered := image_notify_registered p |}.

(** The secret is erased and the memory released. *)
Definition SarPhantomDestroy (w : decoys) : decoys :=
  {| phantom := None; shown_map := shown_map w; files := files w; enums := enums w |}.

(** [granted] is the answer of PsSetLoadImageNotifyRoutine. *)
Definition SarPhantomImageNotifyRegister (granted : bool) (p : option SAR_PHANTOM) : option SAR_PHANTOM :=
  match p with
  | Some p => Some (if granted then {| active := active p; volume_secret := volume_secret p;
                                       image_notify_registered := true |} else p)
  | None => None
  end.

Definition SarPhantomImageNotifyUnregister (p : option SAR_PHANTOM) : option SAR_PHANTOM :=
  match p with
  | Some p => Some {| active := active p; volume_secret := volume_secret p; image_notify_registered := false |}
  | None => None
  end.

Definition SarPhantomActive (p : option SAR_PHANTOM) : bool :=
  match p with Some p => active p | None => false end.

(** The secret of active decoys. *)
Definition active_secret (w : decoys) : option bytes :=
  match phantom w with Some p => if active p then Some (volume_secret p) else None | None => None end.

(** ** Images *)

(** The result is the state and the log.  [Properties] of an image has the level
    of its signature in bits 12 to 15. *)
Definition SarPhantomLoadImageNotify (ProcessId : Z) (SystemModeImage : bool) (Properties now : Z) (st : SAR_STATE)
    (log : eventlog) : SAR_STATE * eventlog :=
  if SystemModeImage || (ProcessId =? 0) || (4 <=? (Properties .>> 12) .& 0xF) then (st, log)
  else
    let '(revoked, key, st) := SarStateRevokeExemption st ProcessId in
    (st, if (revoked : bool) then log_event log now SAR_EVENT_CLASS_EXEMPT_REVOKED key else log).

Section Handlers.
Context {F : Type}.
(** The case folding of the run-time library, and [FsRtlIsNameInExpression]. *)
Context (upcase : Z -> Z) (in_expression : list Z -> list Z -> bool).
Implicit Types d : driver F.
Implicit Types w : decoys.

Definition SarPhantomIsTrusted (Data : FLT_CALLBACK_DATA) d : bool := identity_exempt (issuer Data) d.

(** ** Opening a file *)

(** FLT_PREOP_SUCCESS_WITH_CALLBACK, a completed request, or STATUS_REPARSE to
    another name, given in bytes. *)
Inductive open_result := Pass | Complete (status : NTSTATUS) | Reparse (name : bytes).

Definition FILE_OPEN_BY_FILE_ID : Z := 0x2000.
Definition FILE_CREATE : Z := 2.

(** The request: the bytes of the name of the file object, if there is one, and
    whether it is relative to another; the options, and whether the directory of
    the target is opened.  The answers: the final component and the parent
    directory of the normalized name; how the backing file is made, its file
    reference number, and the name of the volume. *)
Record open_env := {
  op_filename : option bytes;
  op_related : bool;
  op_options : Z;
  op_target_directory : bool;
  op_names : option (list Z * list Z);
  op_backing : backing_env;
  op_backing_frn : option Z;
  op_volume : option (list Z)
}.

(** The name that opens a file by number: the volume, a backslash, the number. *)
Definition id_name (vol : list Z) (frn : Z) : bytes := u16s_bytes vol ++ [92; 0] ++ le_bytes 8 frn.

(** A file that is opened by the reference number of a decoy. *)
Definition open_by_id (env : open_env) (Data : FLT_CALLBACK_DATA) (secret : bytes) (e : SAR_PM_IDENT) d w
    : open_result * decoys :=
  if SarPhantomIsTrusted Data d then (Complete STATUS_OBJECT_NAME_NOT_FOUND, w)
  else
    let path := SarPhantomBuildBackingPath secret (index e) (dir e) in
    let w := set_files (SarPhantomMaterializeBacking (op_backing env) path (name e) secret (dir e) (index e) (files w)) w in
    match op_backing_frn env, op_volume env with
    | Some frn, Some vol =>
      if (2 * length vol + 2 + 8 <=? 160)%nat then (Reparse (id_name vol frn), w)
      else (Complete STATUS_OBJECT_NAME_NOT_FOUND, w)
    | _, _ => (Complete STATUS_OBJECT_NAME_NOT_FOUND, w)
    end.

(** A file that is opened by its name. *)
Definition open_by_name (env : open_env) (Data : FLT_CALLBACK_DATA) (secret FileName : bytes) d w
    : open_result * decoys :=
  if op_target_directory env || negb (SarPhantomExtInPalette (bytes_u16s (length FileName / 2) FileName)) then (Pass, w)
  else
    match op_names env with
    | None => (Pass, w)
    | Some (FinalComponent, ParentDir) =>
      match SarPhantomMatchName upcase FinalComponent ParentDir secret with
      | None => (Pass, w)
      | Some i =>
        if SarPhantomIsTrusted Data d then (Complete STATUS_OBJECT_NAME_NOT_FOUND, w)
        else if (op_options env .>> 24) .& 0xFF =? FILE_CREATE then (Pass, w)
        else
          let path := SarPhantomBuildBackingPath secret (Z.of_nat i) ParentDir in
          let w := set_files (SarPhantomMaterializeBacking (op_backing env) path FinalComponent secret ParentDir
                                (Z.of_nat i) (files w)) w in
          let w := set_shown (note_decoy secret ParentDir FinalComponent i (shown_map w)) w in
          (Reparse (u16s_bytes path), w)
      end
    end.

(** [SarPhantomPreCreate] after the test for blocked processes. *)
Definition phantom_open (env : open_env) (Data : FLT_CALLBACK_DATA) d w : open_result * decoys :=
  match active_secret w, UserMode Data, op_filename env with
  | Some secret, true, Some FileName =>
    if (length FileName =? 0)%nat && negb (op_related env) then
      (if SarPhantomIsTrusted Data d then Pass else Complete STATUS_ACCESS_DENIED, w)
    else
      let by_id := negb (op_options env .& FILE_OPEN_BY_FILE_ID =? 0) && (8 <=? length FileName)%nat &&
                   passive Data && top_level Data in
      let frn := le_val (take 8 FileName) in
      match (if by_id && SarPhantomFrnInRange frn then SarPmIdMapLookupByRef frn (shown_map w) else None) with
      | Some e => open_by_id env Data secret e d w
      | None => open_by_name env Data secret FileName d w
      end
  | _, _, _ => (Pass, w)
  end.

(** ** Directory listings *)

(** The pattern holds 260 characters; a longer one is not captured. *)
Definition SarPhantomCapturePattern (FileName : option (list Z)) (e : SAR_PHANTOM_ENUM_CONTEXT)
    : SAR_PHANTOM_ENUM_CONTEXT :=
  match FileName with
  | Some (c :: n) =>
    if (length (c :: n) <=? 260)%nat
    then {| emitted_flag := emitted_flag e; pattern_captured := true; real_seen := real_seen e;
            pattern := upcase <$> (c :: n) |}
    else e
  | _ => e
  end.

Definition SarPhantomComputeMask (secret : bytes) (DirName : list Z) (e : SAR_PHANTOM_ENUM_CONTEXT) : Z :=
  if negb (pattern_captured e) then (1 .<< Z.of_nat SAR_PHANTOM_MAX_PER_DIR) - 1
  else
    fold_left (fun mask i =>
      if in_expression (pattern e) (SarPhantomNameForIndex secret DirName (Z.of_nat i))
      then mask .| (1 .<< Z.of_nat i) else mask) (seq 0 SAR_PHANTOM_MAX_PER_DIR) 0.

(** The request and the answers to it.  [dc_race] is the context that another
    thread set; [dc_memory] is whether the buffers are granted. *)
Record dir_env := {
  dc_query : bool;
  dc_single : bool;
  dc_class : Z;
  dc_name : option (list Z);
  dc_alloc : bool;
  dc_set : bool;
  dc_race : option SAR_PHANTOM_ENUM_CONTEXT;
  dc_restart : bool;
  dc_pattern : option (list Z);
  dc_length : Z;
  dc_memory : bool
}.

Definition new_enum : SAR_PHANTOM_ENUM_CONTEXT :=
  {| emitted_flag := false; pattern_captured := false; real_seen := 0; pattern := [] |}.

(** The context of the handle [h], made if there is none. *)
Definition enum_context (env : dir_env) (h : Z) w : option SAR_PHANTOM_ENUM_CONTEXT :=
  match enums w !! h with
  | Some e => Some e
  | None =>
    if negb (dc_alloc env) then None
    else match dc_race env with
         | Some e => Some e
         | None => if dc_set env then Some (SarPhantomCapturePattern (dc_pattern env) new_enum) else None
         end
  end.

(** SL_RESTART_SCAN *)
Definition restart_enum (env : dir_env) (e : SAR_PHANTOM_ENUM_CONTEXT) : SAR_PHANTOM_ENUM_CONTEXT :=
  if dc_restart env then
    let e := {| emitted_flag := false; pattern_captured := pattern_captured e; real_seen := 0; pattern := pattern e |} in
    match dc_pattern env with
    | Some (_ :: _) =>
      SarPhantomCapturePattern (dc_pattern env)
        {| emitted_flag := emitted_flag e; pattern_captured := false; real_seen := real_seen e; pattern := pattern e |}
    | _ => e
    end
  else e.

(** What the completion gets; [ctx_handle] is the handle of the context. *)
Record SAR_PHANTOM_DIR_CTX := {
  info_class : Z;
  ctx_name : list Z;
  match_mask : Z;
  ctx_handle : Z;
  buf_length : Z
}.

(** [None] is FLT_PREOP_SUCCESS_NO_CALLBACK; otherwise the request goes on with a
    buffer of its own. *)
Definition SarPhantomPreDirControl (env : dir_env) (Data : FLT_CALLBACK_DATA) d w
    : option SAR_PHANTOM_DIR_CTX * decoys :=
  match active_secret w, dc_name env with
  | Some secret, Some n =>
    if negb (UserMode Data) || negb (dc_query env) || dc_single env || negb (passive Data) ||
       negb (bool_decide (is_Some (SarPhantomDirOffsets (dc_class env)))) || SarPhantomIsTrusted Data d ||
       SarPathUnderSystemRoot upcase (sysroot d) n
    then (None, w)
    else
      match enum_context env (FileObject Data) w with
      | None => (None, w)
      | Some e =>
        let e := restart_enum env e in
        let w := set_enum (FileObject Data) e w in
        if emitted_flag e || (dc_length env =? 0) then (None, w)
        else
          let mask := SarPhantomComputeMask secret n e in
          if (mask =? 0) || negb (dc_memory env) then (None, w)
          else (Some {| info_class := dc_class env; ctx_name := n; match_mask := mask;
                        ctx_handle := FileObject Data; buf_length := dc_length env |}, w)
      end
  | _, _ => (None, w)
  end.

(** The caller's buffer, the count of bytes, and the state.  [swapped] is the
    buffer the file system filled. *)
Definition SarPhantomDeliver (secret : bytes) (Ctx : SAR_PHANTOM_DIR_CTX) (swapped OrigBuf : bytes) (Information : Z) w
    : cres (bytes * Z * decoys) :=
  let returned := u32 Information in
  match SarPhantomDirOffsets (info_class Ctx), enums w !! ctx_handle Ctx with
  | Some off, Some e =>
    if returned <=? buf_length Ctx then
      let! (Out, used, emitted, e, m) :=
        SarPhantomMergeInto upcase secret OrigBuf (buf_length Ctx) swapped returned off (ctx_name Ctx)
          (match_mask Ctx) e (shown_map w) in
      let e := if 0 <? emitted
               then {| emitted_flag := true; pattern_captured := pattern_captured e; real_seen := real_seen e;
                       pattern := pattern e |}
               else e in
      Ret (Out, used, set_enum (ctx_handle Ctx) e (set_shown m w))
    else
      let! data := load swapped 0 (buf_length Ctx) in
      let! Out := store OrigBuf 0 data in Ret (Out, returned, w)
  | _, _ =>
    let! data := load swapped 0 (buf_length Ctx) in
    let! Out := store OrigBuf 0 data in Ret (Out, returned, w)
  end.

(** The completion of the request: nothing is done, it is failed, or the buffer
    and the count are given back. *)
Inductive dir_result := DirAsIs | DirFailed | DirDone (Out : bytes) (Information : Z).

(** [pd_mdl]: the buffer is already described; otherwise the work may have to be
    posted, and the buffer locked.  [pd_buffer] is the caller's buffer, if it can
    be mapped. *)
Record post_dir := {
  pd_draining : bool;
  pd_success : bool;
  pd_information : Z;
  pd_mdl : bool;
  pd_safe : bool;
  pd_locked : bool;
  pd_buffer : option bytes
}.

Definition SarPhantomPostDirCtrlWhenSafe (secret : bytes) (r : post_dir) (ctx : SAR_PHANTOM_DIR_CTX) (swapped : bytes) w
    : cres (dir_result * decoys) :=
  match pd_locked r, pd_buffer r with
  | true, Some orig =>
    let! (Out, n, w) := SarPhantomDeliver secret ctx swapped orig (pd_information r) w in Ret (DirDone Out n, w)
  | _, _ => Ret (DirFailed, w)
  end.

Definition SarPhantomPostDirControl (secret : bytes) (r : post_dir) (ctx : option SAR_PHANTOM_DIR_CTX) (swapped : bytes) w
    : cres (dir_result * decoys) :=
  match ctx with
  | None => Ret (DirAsIs, w)
  | Some ctx =>
    if pd_draining r || negb (pd_success r) || (pd_information r =? 0) || (buf_length ctx <? u32 (pd_information r))
    then Ret (DirAsIs, w)
    else if pd_mdl r then
      match pd_buffer r with
      | Some orig =>
        let! (Out, n, w) := SarPhantomDeliver secret ctx swapped orig (pd_information r) w in Ret (DirDone Out n, w)
      | None => Ret (DirFailed, w)
      end
    else if pd_safe r then SarPhantomPostDirCtrlWhenSafe secret r ctx swapped w
    else Ret (DirFailed, w)
  end.

(** ** Queries on a backing file *)

Definition FileInternalInformation : Z := 6.
Definition FileNameInformation : Z := 9.
Definition FileNormalizedNameInformation : Z := 48.

(** The request and the answers: the name of the file object, the normalized
    name and its final component, the class, whether there is a buffer, and its
    length. *)
Record query_env := {
  qi_draining : bool;
  qi_success : bool;
  qi_file_name : option (list Z);
  qi_names : option (list Z * list Z);
  qi_class : Z;
  qi_buffer : bool;
  qi_length : Z
}.

(** The buffer is left, or it gets another name or another number. *)
Inductive query_result := AsIs | NewName (name : list Z) (Information : Z) | NewNumber (frn : Z).

Definition SarPhantomPostQueryInfo (env : query_env) (Data : FLT_CALLBACK_DATA) d w : query_result :=
  match active_secret w, qi_file_name env, qi_names env with
  | Some _, Some fn, Some (Name, FinalComponent) =>
    if qi_draining env || negb (UserMode Data) || negb (qi_success env) || negb (SarPhantomIsPhantomPath fn) ||
       SarPhantomIsTrusted Data d || negb (SarPhantomIsPhantomPath Name)
    then AsIs
    else
      match SarPmIdMapLookup FinalComponent (shown_map w) with
      | None => AsIs
      | Some e =>
        if (qi_class env =? FileNameInformation) || (qi_class env =? FileNormalizedNameInformation) then
          let needed := Z.of_nat (length (dir e)) * 2 + Z.of_nat (length (name e)) * 2 in
          let bufCap := u32 (qi_length env - 4) in
          if qi_buffer env && (needed <=? bufCap) then NewName (dir e ++ name e) (4 + needed) else AsIs
        else if (qi_class env =? FileInternalInformation) && qi_buffer env then NewNumber (frn e)
        else AsIs
      end
  | _, _, _ => AsIs
  end.

(** ** The change journal *)

(** FIELD_OFFSET(USN_RECORD_V2, FileName) *)
Definition USN_NAME : Z := 60.
Definition FSCTL_ENUM_USN_DATA : Z := 0x900B3.
Definition USN_REASON_DATA_OVERWRITE : Z := 1.
Definition USN_REASON_CLOSE : Z := 0x80000000.

(** [parents] and [counts]: a parent is counted, or added if it is new and there
    are fewer than eight. *)
Fixpoint count_parent (par : Z) (l : list (Z * Z)) (room : nat) : list (Z * Z) :=
  match l with
  | [] => match room with O => [] | S _ => [(par, 1)] end
  | (p, n) :: l => if p =? par then (p, u32 (n + 1)) :: l else (p, n) :: count_parent par l (room - 1)
  end.

(** The loop over the records the file system returned. *)
Fixpoint usn_scan (fuel : nat) (Buf : bytes) (stop p : Z) (parents : list (Z * Z)) : cres (list (Z * Z)) :=
  match fuel with
  | O => NoFuel
  | S fuel =>
    if p + USN_NAME <=? stop then
      let! major := load Buf (p + 4) 2 in
      let! len := load32 Buf p in
      if negb (le_val major =? 2) || (len <? USN_NAME) || (stop <? p + len) then Ret parents
      else
        let! b := load Buf (p + 16) 8 in
        let par := le_val b in
        usn_scan fuel Buf stop (p + len)
          (if SarPhantomFrnInRange par then parents else count_parent par parents 8)
    else Ret parents
  end.

(** The fields of a record, with their offsets. *)
Definition usn_fields (reclen frn parent : Z) (nm : list Z) : list (Z * bytes) :=
  let namebytes := Z.of_nat (length nm) * 2 in
  [(0, le_bytes 4 reclen); (4, le_bytes 2 2); (6, le_bytes 2 0); (8, le_bytes 8 frn); (16, le_bytes 8 parent);
   (24, le_bytes 8 0); (40, le_bytes 4 (USN_REASON_DATA_OVERWRITE .| USN_REASON_CLOSE));
   (52, le_bytes 4 FILE_ATTRIBUTE_ARCHIVE); (56, le_bytes 2 namebytes); (58, le_bytes 2 USN_NAME);
   (USN_NAME, u16s_bytes nm)].

Definition usn_length (nm : list Z) : Z := align8 (USN_NAME + Z.of_nat (length nm) * 2).

(** The decoys [ks] of one directory are appended while there is room. *)
Fixpoint usn_append (secret : bytes) (Cap parent : Z) (Dir : list Z) (ks : list nat) (Buf : bytes) (used : Z) (m : idmap)
    : cres (bytes * Z * idmap) :=
  match ks with
  | [] => Ret (Buf, used, m)
  | k :: ks =>
    let nm := SarPhantomNameForIndex secret Dir (Z.of_nat k) in
    let reclen := usn_length nm in
    if Cap <? u32 (used + reclen) then Ret (Buf, used, m)
    else
      let frn := SarPhantomFrn secret Dir (Z.of_nat k) in
      let! Buf := store Buf used (replicate (Z.to_nat reclen) 0) in
      let! Buf := store_fields Buf used (usn_fields reclen frn parent nm) in
      usn_append secret Cap parent Dir ks Buf (u32 (used + reclen)) (note_decoy secret Dir nm k m)
  end.

(** [SarPhantomResolveDir]: a directory that is not too long for the buffer. *)
Definition SarPhantomResolveDir (lookup : Z -> option (list Z)) (Frn : Z) : option (list Z) :=
  match lookup Frn with
  | Some n => if (0 <? length n)%nat && (length n <=? 283)%nat then Some n else None
  | None => None
  end.

Fixpoint usn_parents (lookup : Z -> option (list Z)) (secret : bytes) (Cap : Z) (l : list (Z * Z)) (Buf : bytes)
    (used : Z) (m : idmap) : cres (bytes * Z * idmap) :=
  match l with
  | [] => Ret (Buf, used, m)
  | (par, n) :: l =>
    match SarPhantomResolveDir lookup par with
    | Some Dir =>
      if SarPhantomIsPhantomPath Dir then usn_parents lookup secret Cap l Buf used m
      else
        let! (Buf, used, m) := usn_append secret Cap par Dir (seq 0 (SarPhantomCountForDir n)) Buf used m in
        usn_parents lookup secret Cap l Buf used m
    | None => usn_parents lookup secret Cap l Buf used m
    end
  end.

(** The buffer, the count of bytes and the table of shown decoys.  [lookup] gives
    the name of a directory by its number. *)
Definition SarPhantomInjectUsn (lookup : Z -> option (list Z)) (secret Buf : bytes) (Cap Information : Z) (m : idmap)
    : cres (bytes * Z * idmap) :=
  let used := u32 Information in
  if (used <=? 8) || (Cap <? used) then Ret (Buf, Information, m)
  else
    let! parents := usn_scan (S (Z.to_nat used)) Buf used 8 [] in
    usn_parents lookup secret Cap parents Buf used m.

(** The completion: [fs_safe] is whether the work can be done or posted, and
    [fs_buffer] the caller's buffer, if it can be locked and mapped. *)
Record post_fs := {
  fs_draining : bool;
  fs_success : bool;
  fs_code : Z;
  fs_information : Z;
  fs_safe : bool;
  fs_buffer : option bytes;
  fs_lookup : Z -> option (list Z)
}.

Definition SarPhantomPostUsnWhenSafe (secret : bytes) (r : post_fs) w : cres (option (bytes * Z) * decoys) :=
  match fs_buffer r with
  | Some buf =>
    let! (buf, n, m) := SarPhantomInjectUsn (fs_lookup r) secret buf (Z.of_nat (length buf)) (fs_information r)
                          (shown_map w) in
    Ret (Some (buf, n), set_shown m w)
  | None => Ret (None, w)
  end.

(** The new buffer and count, if they change. *)
Definition SarPhantomPostFsControl (r : post_fs) (Data : FLT_CALLBACK_DATA) d w : cres (option (bytes * Z) * decoys) :=
  match active_secret w with
  | Some secret =>
    if fs_draining r || negb (fs_success r) || negb (UserMode Data) || negb (fs_code r =? FSCTL_ENUM_USN_DATA) ||
       (u32 (fs_information r) <=? 8) || SarPhantomIsTrusted Data d || negb (fs_safe r)
    then Ret (None, w)
    else SarPhantomPostUsnWhenSafe secret r w
  | None => Ret (None, w)
  end.

End Handlers.

End PhantomOps.
