(* ===== verification/PhantomProps.v ===== *)
(** What decoys do to processes.

    An exempt process meets no decoy; a decoy that is listed can be opened, and
    leads to its backing file; writes to decoys are counted, and the third one
    stops the process in ENFORCE mode; an enumeration of the change journal gets
    well-formed records and is never overrun. *)

From stdpp Require Import gmap strings.
From S2P Require Import Prelude Mem Format Sha256 Chain Keystore Protocol Whitelist Preserve EventLog DriverState.
From S2P Require Import DriverPreserve KeystorePersist Streams Calls DriverRecovery CaptureSeam Snapshot CaptureWork Mmap.
From S2P Require Import Phantom Operations Conviction PhantomDir PhantomMerge PhantomOps.
Import Mem Layout Streams CaptureSeam CaptureWork Mmap Phantom Operations Conviction PhantomDir PhantomMerge PhantomOps.
Import DriverState (NTSTATUS, STATUS_ACCESS_DENIED, STATUS_OBJECT_NAME_NOT_FOUND, SAR_STATE, SarStateModeGet,
  SarIdentityFindLocked, SarStateIdentityLookup, table, table_ok, put_ok, find_table, id_state, phantom_evidence).

Module PhantomProps.

(** ** Evidence *)

Lemma evidence_step st pid e : table_ok st -> table st !! pid = Some e -> id_state e <> Whitelist.SAR_IDSTATE_EXEMPT ->
  exists st', SarPhantomEvidenceConvicts st pid =
      (SAR_PHANTOM_K_THRESHOLD <=? phantom_evidence (more_evidence e), st') /\
    table_ok st' /\ table st' !! pid = Some (more_evidence e) /\ SarStateModeGet st' = SarStateModeGet st.
Proof.
  intros Ht He Hs. rewrite <- find_table in He by done.
  destruct (SarIdentityFindLocked st pid) as [[i e']|] eqn:E; [|done]. injection He as ->.
  unfold SarPhantomEvidenceConvicts. rewrite evidence_bucket_eq by done. unfold SarIdentityFindLocked in E. rewrite E.
  rewrite bool_decide_false by done. eexists. split; [done|].
  destruct (DriverState.find_Some st pid i e E) as [_ Hp].
  destruct (put_ok st Ht pid i e (more_evidence e) E Hp) as (H1 & H2 & _). split; [done|]. split; [|done].
  rewrite H2. apply lookup_insert_eq.
Qed.

Lemma evidence_exempt st pid : table_ok st -> SarStateIdentityLookup st pid = Whitelist.SAR_IDSTATE_EXEMPT ->
  SarPhantomEvidenceConvicts st pid = (false, st).
Proof.
  intros Ht. unfold SarStateIdentityLookup, SarPhantomEvidenceConvicts, SarIdentityFindLocked.
  rewrite evidence_bucket_eq by done. destruct (list_find _ _) as [[i e]|]; [|done]. intros ->.
  by rewrite bool_decide_true.
Qed.

(** ** Exempt processes *)

(** Property C10: to an exempt process there are no decoys.  Its opens are never
    redirected and leave the decoys as they are, its directory listings and its
    enumerations of the journal are not touched, queries are answered by the
    file system, and no evidence accrues against it. *)
Theorem exempt_meets_no_decoy {F} upcase in_expression Data (d : driver F) w :
  table_ok (state d) -> identity_exempt (issuer Data) d = true ->
  (forall env, phantom_open upcase env Data d w = (Pass, w) \/
               phantom_open upcase env Data d w = (Complete STATUS_OBJECT_NAME_NOT_FOUND, w)) /\
  (forall env, SarPhantomPreDirControl upcase in_expression env Data d w = (None, w)) /\
  (forall env, SarPhantomPostQueryInfo env Data d w = AsIs) /\
  (forall r, SarPhantomPostFsControl r Data d w = Ret (None, w)) /\
  SarPhantomEvidenceConvicts (state d) (process_id (issuer Data)) = (false, state d).
Proof.
  intros Ht Hx. assert (Hy : SarPhantomIsTrusted Data d = true) by done. split_and!.
  - intros env. unfold phantom_open, open_by_id, open_by_name. rewrite Hy.
    repeat case_match; auto.
  - intros env. unfold SarPhantomPreDirControl. destruct (active_secret w), (dc_name env); try done.
    by rewrite Hy, orb_true_r.
  - intros env. unfold SarPhantomPostQueryInfo.
    destruct (active_secret w), (qi_file_name env), (qi_names env) as [[]|]; try done. by rewrite Hy, orb_true_r.
  - intros r. unfold SarPhantomPostFsControl. destruct (active_secret w); [|done]. by rewrite Hy, orb_true_r.
  - apply evidence_exempt; [done|]. unfold identity_exempt in Hx. by bsimp.
Qed.

(** ** Opening a decoy *)

(** Only the canonical directory counts. *)
Lemma canon_same secret D P i : SarPhantomCanonDir D = SarPhantomCanonDir P ->
  SarPhantomNameForIndex secret D i = SarPhantomNameForIndex secret P i /\
  SarPhantomBuildBackingPath secret i D = SarPhantomBuildBackingPath secret i P.
Proof.
  intros H. assert (Hm : forall tag, dir_message D i tag = dir_message P i tag)
    by (intros tag; unfold dir_message; by rewrite H).
  unfold SarPhantomNameForIndex, SarPhantomBuildBackingPath. by rewrite Hm.
Qed.

Lemma phantom_path_app a b : SarPhantomIsPhantomPath b = true -> SarPhantomIsPhantomPath (a ++ b) = true.
Proof. intros Hb. induction a as [|x a IH]; [done|]. cbn [app SarPhantomIsPhantomPath]. by rewrite IH, orb_true_r. Qed.

(** Writes to a backing file are recognised by its path. *)
Lemma backing_is_phantom secret i D : SarPhantomIsPhantomPath (SarPhantomBuildBackingPath secret i D) = true.
Proof.
  unfold SarPhantomBuildBackingPath.
  change backing_prefix with (wide "\SystemRoot\System32\drivers\SemanticsAr" ++ wide "\phantom\").
  rewrite <- app_assoc. apply phantom_path_app. set (s := hex_loop _ _).
  pose proof (caseless_prefix_app (wide "\phantom\") s) as H.
  destruct (wide "\phantom\" ++ s); cbn [SarPhantomIsPhantomPath]; by rewrite H.
Qed.

Lemma materialize_makes env path fc secret D i fs :
  be_alloc env = true -> be_create env = true -> is_Some (SarPhantomMaterializeBacking env path fc secret D i fs !! path).
Proof.
  intros Ha Hc. unfold SarPhantomMaterializeBacking. destruct (fs !! path) eqn:E; [by rewrite E|].
  rewrite Ha, Hc. cbn [negb]. rewrite lookup_insert_eq. by eexists.
Qed.

(** Noting a decoy is an insertion of what the secret says of it. *)
Lemma note_decoy_ok upcase secret D fn i m : (i < SAR_PHANTOM_MAX_PER_DIR)%nat ->
  upcase <$> fn = upcase <$> SarPhantomNameForIndex secret D (Z.of_nat i) -> idmap_ok upcase secret m ->
  idmap_ok upcase secret (note_decoy secret D fn i m).
Proof.
  intros Hi Hn Hm. unfold note_decoy. destruct (_ <=? _)%nat; [|done].
  apply idmap_insert_ok; [unfold backing_hex; cbv zeta; reflexivity|lia|exact Hn|exact Hm].
Qed.

(** Property C18: a decoy that a listing shows can be opened.  The listed directory is
    [\Device\vol\p], not the root of the volume and with [p] not beginning with
    [\Device\] itself.  When a process that is not exempt opens from user mode, by
    name, without the disposition FILE_CREATE, a file of [p\] under the name of the decoy
    number [i] of the listed directory, the open is redirected to the backing file of a
    decoy of that name and directory, whose path marks it as a decoy's; the
    backing file is there afterwards if memory and its creation are granted; and the table
    of shown decoys stays true to the secret. *)
Theorem listed_decoy_opens {F} upcase env Data (d : driver F) w secret vol p q c i :
  let D := wide "\Device\" ++ vol ++ p in
  let nm := SarPhantomNameForIndex secret D (Z.of_nat i) in
  Forall (fun c => c <> 92) vol -> p = 92 :: q ++ [c] -> c <> 92 -> Forall is_u16 (p ++ [92]) ->
  SarWideCaselessPrefix (p ++ [92]) (wide "\Device\") = false -> (i < SAR_PHANTOM_MAX_PER_DIR)%nat ->
  active_secret w = Some secret -> UserMode Data = true -> identity_exempt (issuer Data) d = false ->
  op_filename env = Some (u16s_bytes ((p ++ [92]) ++ nm)) -> op_names env = Some (nm, p ++ [92]) ->
  op_target_directory env = false -> op_options env .& FILE_OPEN_BY_FILE_ID = 0 ->
  (op_options env .>> 24) .& 0xFF <> FILE_CREATE -> idmap_ok upcase secret (shown_map w) ->
  exists j w', let path := SarPhantomBuildBackingPath secret (Z.of_nat j) D in
    (j <= i)%nat /\ phantom_open upcase env Data d w = (Reparse (u16s_bytes path), w') /\
    upcase <$> SarPhantomNameForIndex secret D (Z.of_nat j) = upcase <$> nm /\
    SarPhantomIsPhantomPath path = true /\ idmap_ok upcase secret (shown_map w') /\
    (be_alloc (op_backing env) = true -> be_create (op_backing env) = true -> is_Some (files w' !! path)).
Proof.
  intros D nm Hv Hp Hc Hu Hd Hi Hw HU Hx Hfn Hnames Htd Hopt Hdisp Hm.
  destruct (canon_dir_agree vol p q c Hv Hp Hc Hd) as [C1 C2].
  assert (Hcan : SarPhantomCanonDir D = SarPhantomCanonDir (p ++ [92])) by (unfold D; by rewrite C1, C2).
  assert (Hnm : upcase <$> nm = upcase <$> SarPhantomNameForIndex secret (p ++ [92]) (Z.of_nat i))
    by (unfold nm; by rewrite (proj1 (canon_same secret _ _ (Z.of_nat i) Hcan))).
  destruct (decoy_matches upcase secret (p ++ [92]) i nm Hi Hnm) as (j & Hj & Hmatch & Hnj).
  destruct (canon_same secret _ _ (Z.of_nat j) Hcan) as [Nj Pj].
  set (chars := (p ++ [92]) ++ nm) in *.
  assert (Hchars : bytes_u16s (length (u16s_bytes chars) / 2) (u16s_bytes chars) = chars).
  { rewrite length_u16s. replace (2 * length chars / 2)%nat with (length chars) by (symmetry; rewrite Nat.mul_comm; by apply Nat.div_mul).
    apply (dec_enc (c := c_u16s (length chars)) chars). split; [done|]. apply Forall_app. split; [done|apply name_of_hash_u16]. }
  unfold phantom_open. rewrite Hw, HU, Hfn. rewrite length_u16s.
  replace (2 * length chars =? 0)%nat with false
    by (symmetry; apply Nat.eqb_neq; unfold chars; rewrite !length_app; cbn; lia).
  rewrite Hopt. cbn [andb negb Z.eqb]. unfold open_by_name. rewrite Hchars, Htd.
  unfold chars, nm, SarPhantomNameForIndex at 1. rewrite decoy_ext_in_palette. cbn [orb negb].
  rewrite Hnames. fold nm. rewrite Hmatch. unfold SarPhantomIsTrusted. rewrite Hx.
  rewrite (proj2 (Z.eqb_neq _ _) Hdisp). rewrite <- Pj. eexists j, _. split; [done|]. split; [done|].
  split; [by rewrite Hnj, Nj|]. split; [apply backing_is_phantom|]. split.
  - cbn [shown_map set_shown set_files]. apply note_decoy_ok; [lia|done|done].
  - intros Ha Hcr. cbn [files set_shown set_files]. by apply materialize_makes.
Qed.

(** ** Writing to decoys *)

Section Stop.
Context {F : Type} `{DataFile F, AesCbc}.
Context (upcase : Z -> Z).
Implicit Types d : driver F.

(** One write of a process that is not blocked to a decoy. *)
Lemma decoy_write wenv Data Offset Length d c e :
  table_ok (state d) -> table (state d) !! process_id (issuer Data) = Some e ->
  id_state e <> Whitelist.SAR_IDSTATE_EXEMPT -> UserMode Data = true -> paging (IrpFlags Data) = false ->
  stream_flag (FileObject Data) SAR_STREAMCTX_FLAG_PHANTOM_BACKING d = true -> capture d = Some c ->
  SarCaptureOriginatorBlocked (issuer Data) d = false ->
  exists r d', SarPreWrite upcase wenv Data Offset Length d = Ret (r, d') /\
    table_ok (state d') /\ table (state d') !! process_id (issuer Data) = Some (more_evidence e) /\
    enforcing d' = enforcing d /\ streams d' = streams d /\ preserve d' = preserve d /\
    if (SAR_PHANTOM_K_THRESHOLD <=? phantom_evidence (more_evidence e)) && enforcing d
    then r = FLT_PREOP_COMPLETE STATUS_ACCESS_DENIED /\
         (Z.of_nat (length (blocked c)) < SAR_BLOCKED_CAPACITY -> SarCaptureOriginatorBlocked (issuer Data) d' = true)
    else r = FLT_PREOP_SUCCESS_NO_CALLBACK /\ capture d' = Some c.
Proof.
  intros Ht He Hx HU Hp Hs Hc Hb.
  destruct (evidence_step _ _ _ Ht He Hx) as (st' & Ev & T1 & T2 & T3).
  unfold SarPreWrite, SarMmapOnPagingWrite. rewrite Hp. cbn [negb]. rewrite orb_true_r. cbn [orb].
  replace (match store_of d with Some _ => _ | None => _ end) with (Ret (false, d) : cres (bool * driver F))
    by (destruct (store_of d) as [[]|]; [destruct (streams d !! FileObject Data)|]; done).
  cbn [cbind]. rewrite Hb, HU, Hs, Ev. cbn [andb].
  assert (En : enforcing (set_state st' d) = enforcing d) by (unfold enforcing, set_state; cbn [state]; by rewrite T3).
  rewrite En. destruct (_ && _) eqn:Hgo.
  - replace (capture (set_state st' d)) with (Some c) by (by rewrite <- Hc). unfold SarCaptureBlockOriginator.
    unfold SarCaptureOriginatorBlocked in Hb. rewrite Hc in Hb. rewrite Hb.
    cbn [negb andb]. eexists _, _. split; [done|]. split_and!; try done. intros Hcap.
    rewrite (proj2 (Z.ltb_lt _ _) Hcap). unfold SarCaptureOriginatorBlocked. cbn [capture set_capture blocked set_blocked].
    rewrite existsb_app. cbn. by rewrite Z.eqb_refl, !orb_true_r.
  - eexists _, _. split; [done|]. split_and!; done.
Qed.

(** A write request: what the system answers, the request, its offset and length. *)
Definition request : Type := write_env * FLT_CALLBACK_DATA * Z * Z.
Definition send (q : request) d : cres (preop * driver F) :=
  let '(env, Data, Offset, Length) := q in SarPreWrite upcase env Data Offset Length d.

(** A user's write of the process [pr] to a decoy. *)
Definition to_decoy (pr : process) d (q : request) : Prop :=
  let '(env, Data, Offset, Length) := q in
  issuer Data = pr /\ UserMode Data = true /\ paging (IrpFlags Data) = false /\
  stream_flag (FileObject Data) SAR_STREAMCTX_FLAG_PHANTOM_BACKING d = true.

(** The process [pr] is known, not exempt, not blocked, and there is no evidence
    against it. *)
Record watched (pr : process) d : Prop := {
  wa_table : table_ok (state d);
  wa_entry : exists e, table (state d) !! process_id pr = Some e /\ id_state e <> Whitelist.SAR_IDSTATE_EXEMPT /\
                       phantom_evidence e = 0;
  wa_capture : is_Some (capture d);
  wa_unblocked : SarCaptureOriginatorBlocked pr d = false
}.

(** There is room in the table of blocked processes, which holds 256. *)
Definition room d : Prop := exists c, capture d = Some c /\ Z.of_nat (length (blocked c)) < SAR_BLOCKED_CAPACITY.

Lemma three_decoy_writes pr d q1 q2 q3 :
  watched pr d -> enforcing d = true -> to_decoy pr d q1 -> to_decoy pr d q2 -> to_decoy pr d q3 ->
  exists d1 d2 d3, send q1 d = Ret (FLT_PREOP_SUCCESS_NO_CALLBACK, d1) /\
    send q2 d1 = Ret (FLT_PREOP_SUCCESS_NO_CALLBACK, d2) /\
    send q3 d2 = Ret (FLT_PREOP_COMPLETE STATUS_ACCESS_DENIED, d3) /\
    (room d -> SarCaptureOriginatorBlocked pr d3 = true) /\ preserve d3 = preserve d.
Proof.
  intros [Ht (e & He & Hx & Hz) [c Hc] Hb] Hen.
  destruct q1 as [[[w1 D1] o1] l1], q2 as [[[w2 D2] o2] l2], q3 as [[[w3 D3] o3] l3].
  intros (I1 & U1 & P1 & S1) (I2 & U2 & P2 & S2) (I3 & U3 & P3 & S3). cbn [send].
  assert (Hbc : forall d', capture d' = Some c -> SarCaptureOriginatorBlocked pr d' = false)
    by (unfold SarCaptureOriginatorBlocked in *; intros d' ->; by rewrite Hc in Hb).
  assert (E1 : phantom_evidence (more_evidence e) = 1) by (cbn; by rewrite Hz).
  assert (E2 : phantom_evidence (more_evidence (more_evidence e)) = 2) by (cbn; by rewrite Hz).
  assert (E3 : phantom_evidence (more_evidence (more_evidence (more_evidence e))) = 3) by (cbn; by rewrite Hz).
  destruct (decoy_write w1 D1 o1 l1 d c e) as (r1 & d1 & -> & T1 & L1 & N1 & G1 & V1 & R1); try done;
    [by rewrite I1|by rewrite I1|]. rewrite E1 in R1. destruct R1 as [-> C1].
  destruct (decoy_write w2 D2 o2 l2 d1 c (more_evidence e)) as (r2 & d2 & Ed2 & T2 & L2 & N2 & G2 & V2 & R2); try done;
    [by rewrite I2, <- I1|unfold stream_flag; by rewrite G1|rewrite I2; by apply Hbc|].
  rewrite E2 in R2. destruct R2 as [-> C2].
  destruct (decoy_write w3 D3 o3 l3 d2 c (more_evidence (more_evidence e))) as (r3 & d3 & Ed3 & T3 & L3 & N3 & G3 & V3 & R3);
    try done; [by rewrite I3, <- I2|unfold stream_flag; by rewrite G2, G1|rewrite I3; by apply Hbc|].
  rewrite E3, N2, N1, Hen in R3. destruct R3 as [-> C3].
  exists d1, d2, d3. split; [done|]. split; [exact Ed2|]. split; [exact Ed3|]. split; [|by rewrite V3, V2, V1].
  intros (c' & Hc' & Hroom). rewrite <- I3. apply C3. congruence.
Qed.

(** Property C9: writing to decoys stops a process.  In ENFORCE mode, of three
    writes to decoys - user-mode, not paging, to distinct decoys or not - by a process that is
    known to the driver, not exempt, not blocked and without evidence against
    it, the first two pass and the third is denied.  If the table of blocked
    processes, which holds 256 and is never cleared, has room, then from that moment
    every user-mode non-paging write and every deletion, rename and truncation by
    the process is denied too.  The constitution asks for three distinct decoys; the code
    counts writes ([one_decoy_convicts]). *)
Theorem decoy_writer_stopped pr d q1 q2 q3 :
  watched pr d -> enforcing d = true -> to_decoy pr d q1 -> to_decoy pr d q2 -> to_decoy pr d q3 ->
  exists d1 d2 d3, send q1 d = Ret (FLT_PREOP_SUCCESS_NO_CALLBACK, d1) /\
    send q2 d1 = Ret (FLT_PREOP_SUCCESS_NO_CALLBACK, d2) /\
    send q3 d2 = Ret (FLT_PREOP_COMPLETE STATUS_ACCESS_DENIED, d3) /\
    (room d -> forall Data, issuer Data = pr ->
      (UserMode Data = true -> paging (IrpFlags Data) = false -> forall wenv Offset Length,
        SarPreWrite upcase wenv Data Offset Length d3 = Ret (FLT_PREOP_COMPLETE STATUS_ACCESS_DENIED, d3)) /\
      (forall senv cls ib, SarClassifySetInformation cls <> SAR_DESTRUCT_NONE ->
        SarPreSetInformation upcase senv Data cls ib d3 = Ret (FLT_PREOP_COMPLETE STATUS_ACCESS_DENIED, d3))).
Proof.
  intros Hs He Q1 Q2 Q3. destruct (three_decoy_writes pr d q1 q2 q3) as (d1 & d2 & d3 & E1 & E2 & E3 & Hb & _); try done.
  exists d1, d2, d3. split_and!; try done. intros Hroom Data Hi. specialize (Hb Hroom). rewrite <- Hi in Hb. split.
  - intros. by apply blocked_write.
  - intros. by apply blocked_setinfo.
Qed.

(** A watched process, and room to block it. *)
Definition suspect (pr : process) d : Prop := watched pr d /\ room d.

(** Property C36: one decoy is enough.  Three writes to the same decoy count as
    three, and a conviction by decoys leaves the preserve store as it is: the
    content kept for the process stays on probation. *)
Theorem one_decoy_convicts pr d q :
  suspect pr d -> enforcing d = true -> to_decoy pr d q ->
  exists d1 d2 d3, send q d = Ret (FLT_PREOP_SUCCESS_NO_CALLBACK, d1) /\
    send q d1 = Ret (FLT_PREOP_SUCCESS_NO_CALLBACK, d2) /\
    send q d2 = Ret (FLT_PREOP_COMPLETE STATUS_ACCESS_DENIED, d3) /\
    SarCaptureOriginatorBlocked pr d3 = true /\ preserve d3 = preserve d.
Proof.
  intros [Hw Hr] He Hq. destruct (three_decoy_writes pr d q q q) as (d1 & d2 & d3 & E1 & E2 & E3 & Hb & Hp); try done.
  exists d1, d2, d3. split_and!; auto.
Qed.

End Stop.

End PhantomProps.
