(* ===== verification/PhantomUsn.v ===== *)
(** Decoys in an enumeration of the change journal (driver/phantom.c).

    The records that [SarPhantomInjectUsn] appends form a chain of well-formed
    records behind those of the file system, which stay as they are, and the
    caller's buffer is not overrun. *)

From stdpp Require Import gmap strings.
From S2P Require Import Prelude Mem Sha256 Chain Streams Phantom PhantomDir PhantomMerge PhantomOps PhantomProps.
Import Mem Layout Streams Phantom PhantomDir PhantomMerge PhantomOps PhantomProps.

Module PhantomUsn.

(** ** Fields one after the other *)

(** The fields start at [a] or later and do not overlap. *)
Fixpoint separate (a : Z) (l : list (Z * bytes)) : Prop :=
  match l with
  | [] => True
  | f :: l => a <= f.1 /\ separate (f.1 + Z.of_nat (length f.2)) l
  end.

Lemma separate_above a l f : separate a l -> f ∈ l -> a <= f.1.
Proof.
  revert a. induction l as [|g l IH]; intros a Hs Hf; [by apply not_elem_of_nil in Hf|].
  destruct Hs as [Hg Hs]. apply elem_of_cons in Hf as [->|Hf]; [done|]. specialize (IH _ Hs Hf). lia.
Qed.

(** Every field can be read back. *)
Lemma separate_reads a l m f : 0 <= a -> separate a l -> Forall (field_fits (Z.of_nat (length m))) l -> f ∈ l ->
  seg (put_fields m l) f.1 (Z.of_nat (length f.2)) = f.2.
Proof.
  revert a m. induction l as [|g l IH]; intros a m Ha Hs Hf Hin; [by apply not_elem_of_nil in Hin|].
  apply Forall_cons in Hf as [Hg Hf]. destruct Hs as [Hga Hs]. apply elem_of_cons in Hin as [->|Hin].
  - destruct g as [o x]. apply (seg_put_last m [] o x l); [by apply Forall_singleton|].
    apply Forall_forall. intros h Hh. rewrite Forall_forall in Hf. split; [by apply Hf|]. left.
    by eapply (separate_above _ l).
  - cbn [put_fields fold_left]. apply (IH (g.1 + Z.of_nat (length g.2)) (mem_write m (Z.to_nat g.1) g.2)); try done; [lia|].
    by rewrite length_mem_write.
Qed.

(** ** Records *)

(** File reference number, parent, and name. *)
Definition usn_rec : Type := Z * Z * list Z.

Record usn_at (buf : bytes) (pos len : Z) (r : usn_rec) : Prop := {
  usn_pos : 0 <= pos;
  usn_len : le_val (seg buf pos 4) = len;
  usn_major : le_val (seg buf (pos + 4) 2) = 2;
  usn_frn : le_val (seg buf (pos + 8) 8) = r.1.1;
  usn_parent : le_val (seg buf (pos + 16) 8) = r.1.2;
  usn_name_length : le_val (seg buf (pos + 56) 2) = Z.of_nat (length r.2) * 2;
  usn_name_offset : le_val (seg buf (pos + 58) 2) = USN_NAME;
  usn_name : seg buf (pos + USN_NAME) (Z.of_nat (length r.2) * 2) = u16s_bytes r.2;
  usn_fits : USN_NAME + Z.of_nat (length r.2) * 2 <= len
}.

(** The records from [pos] up to exactly [stop]. *)
Inductive usn_chain (buf : bytes) (stop : Z) : Z -> list usn_rec -> Prop :=
  | usn_end : usn_chain buf stop stop []
  | usn_cons pos len r l : usn_at buf pos len r -> usn_chain buf stop (pos + len) l -> usn_chain buf stop pos (r :: l).

Lemma usn_chain_app buf mid stop pos l l' :
  usn_chain buf mid pos l -> usn_chain buf stop mid l' -> usn_chain buf stop pos (l ++ l').
Proof. intros Hl Hl'. induction Hl as [|pos len r l Ha Hl IH]; [done|]. by eapply usn_cons. Qed.

Lemma usn_chain_le buf stop pos l : usn_chain buf stop pos l -> pos <= stop.
Proof. induction 1 as [|pos len r l [] _ IH]; [lia|]. unfold USN_NAME in *. lia. Qed.

(** A buffer that agrees up to [stop] holds the same records. *)
Lemma usn_chain_same buf buf' stop pos l : usn_chain buf stop pos l -> 0 <= pos ->
  (forall p n, 0 <= p -> 0 <= n -> p + n <= stop -> seg buf' p n = seg buf p n) -> usn_chain buf' stop pos l.
Proof.
  intros H Hp Hs. induction H as [|pos len r l [A1 A2 A3 A4 A5 A6 A7 A8 A9] Hc IH]; [constructor|].
  pose proof (usn_chain_le _ _ _ _ Hc) as Hle. unfold USN_NAME in *.
  eapply usn_cons; [|apply IH; lia]. split; unfold USN_NAME; try done; by rewrite Hs by lia.
Qed.

(** ** The record of a decoy *)

(** A field is one of the fields of a record. *)
Ltac in_fields := unfold usn_fields; repeat (apply elem_of_cons; first [left; reflexivity | right]).

Section Record.
Context (len f par : Z) (nm : list Z).
Context (Hlen : len = usn_length nm) (Hf : is_u64 f) (Hpar : is_u64 par) (Hnm : (length nm <= 20)%nat).

Definition usn_image : bytes := put_fields (replicate (Z.to_nat len) 0) (usn_fields len f par nm).

Lemma usn_length_bounds : USN_NAME + Z.of_nat (length nm) * 2 <= len <= USN_NAME + Z.of_nat (length nm) * 2 + 7.
Proof using All.
  rewrite Hlen. unfold usn_length, USN_NAME. pose proof (esize_bounds (replicate (56 + 2 * length nm) 0)) as B.
  pose proof (align8_esize (replicate (56 + 2 * length nm) 0)) as A. rewrite length_replicate in *.
  replace (60 + Z.of_nat (length nm) * 2) with (Z.of_nat (56 + 2 * length nm) + 4) by lia. rewrite A by lia. lia.
Qed.

Lemma usn_fields_ok : separate 0 (usn_fields len f par nm) /\ Forall (field_fits len) (usn_fields len f par nm).
Proof using All.
  pose proof usn_length_bounds as Hb. unfold USN_NAME in *. split.
  - unfold usn_fields. cbn [separate fst snd]. rewrite !length_le_bytes. unfold USN_NAME. lia.
  - unfold usn_fields. repeat (apply Forall_cons; split; [unfold field_fits; cbn [fst snd];
      rewrite ?length_le_bytes, ?length_u16s; unfold USN_NAME; lia|]). done.
Qed.

Lemma usn_image_reads buf pos : 0 <= pos -> pos + len <= Z.of_nat (length buf) ->
  usn_at (mem_write buf (Z.to_nat pos) usn_image) pos len (f, par, nm).
Proof using All.
  intros Hp Hl. pose proof usn_length_bounds as Hb. destruct usn_fields_ok as [Hs Hff].
  assert (Him : Z.of_nat (length usn_image) = len)
    by (unfold usn_image; rewrite length_put_fields, length_replicate; unfold USN_NAME in Hb; lia).
  assert (R : forall o x n, (o, x) ∈ usn_fields len f par nm -> Z.of_nat (length x) = n ->
    seg (mem_write buf (Z.to_nat pos) usn_image) (pos + o) n = x).
  { intros o x n Hin <-. pose proof (proj1 (Forall_forall _ _) Hff _ Hin) as [Ho1 Ho2]. cbn [fst snd] in *.
    rewrite seg_write_in by lia.
    apply (separate_reads 0 (usn_fields len f par nm) _ (o, x)); [lia|done| |done].
    rewrite length_replicate. replace (Z.of_nat (Z.to_nat len)) with len by (unfold USN_NAME in Hb; lia). done. }
  unfold USN_NAME in *. split; cbn [fst snd]; try done.
  - pose proof (R 0 (le_bytes 4 len) 4) as R0. rewrite Z.add_0_r in R0. rewrite R0 by (done || in_fields).
    apply le_val_le_bytes. lia.
  - by rewrite (R 4 (le_bytes 2 2)) by (done || in_fields).
  - rewrite (R 8 (le_bytes 8 f)) by (done || in_fields). by apply le_val_le_bytes.
  - rewrite (R 16 (le_bytes 8 par)) by (done || in_fields). by apply le_val_le_bytes.
  - rewrite (R 56 (le_bytes 2 (Z.of_nat (length nm) * 2))) by (done || in_fields). apply le_val_le_bytes. lia.
  - by rewrite (R 58 (le_bytes 2 USN_NAME)) by (done || in_fields).
  - apply (R USN_NAME (u16s_bytes nm)); [in_fields|]. rewrite length_u16s. lia.
  - unfold USN_NAME. lia.
Qed.

End Record.

(** ** The injection *)

Lemma frn_u64 secret D i : is_u64 (SarPhantomFrn secret D i).
Proof.
  unfold SarPhantomFrn, frn_of_hash. apply is_u_lor; [lia|apply is_u_u64|].
  apply is_u_land_l; [lia|apply is_u_u64].
Qed.

Lemma count_parent_u64 par l room : is_u64 par -> Forall (fun p => is_u64 p.1) l ->
  Forall (fun p => is_u64 p.1) (count_parent par l room).
Proof.
  intros Hp Hl. revert room. induction Hl as [|[q n] l Hq Hl IH]; intros room; cbn [count_parent].
  - destruct room; [done|]. by apply Forall_singleton.
  - destruct (_ =? _); by apply Forall_cons.
Qed.

(** The scan ends, without a read outside of the buffer. *)
Lemma usn_scan_ok fuel Buf stop p l : is_bytes Buf -> 0 <= p -> stop <= Z.of_nat (length Buf) ->
  (Z.to_nat (stop - p) < fuel)%nat -> Forall (fun p => is_u64 p.1) l ->
  exists l', usn_scan fuel Buf stop p l = Ret l' /\ Forall (fun p => is_u64 p.1) l'.
Proof.
  intros Hb. revert p l. induction fuel as [|fuel IH]; intros p l Hp Hs Hf Hl; [lia|]. cbn [usn_scan].
  destruct (Z.leb_spec (p + USN_NAME) stop) as [Hle|]; [|by exists l]. unfold USN_NAME in *.
  rewrite load_ok by lia. cbn [cbind]. rewrite load32_ok by lia. cbn [cbind].
  set (n := le_val (seg Buf p 4)).
  destruct (_ || _ || _) eqn:Hstop; [by exists l|]. bsimp. rewrite load_ok by lia. cbn [cbind].
  apply IH; try lia. destruct (SarPhantomFrnInRange _); [done|]. apply count_parent_u64; [|done].
  assert (H8 : length (seg Buf (p + 16) 8) = 8%nat) by (apply length_seg; lia).
  pose proof (le_val_range (seg Buf (p + 16) 8)) as R. rewrite H8 in R. apply R.
  by apply Forall_take, Forall_drop.
Qed.

(** A decoy of a directory that [lookup] finds for the parent. *)
Definition decoy_rec (lookup : Z -> option (list Z)) (secret : bytes) (r : usn_rec) : Prop :=
  exists D k, (k < SAR_PHANTOM_MAX_PER_DIR)%nat /\ SarPhantomResolveDir lookup r.1.2 = Some D /\
    r.1.1 = SarPhantomFrn secret D (Z.of_nat k) /\ r.2 = SarPhantomNameForIndex secret D (Z.of_nat k).

(** What an appending step does: bytes below [used] stay, decoys follow them. *)
Record appended (lookup : Z -> option (list Z)) (upcase : Z -> Z) (secret Buf : bytes) (used : Z) (m : idmap)
    (Buf' : bytes) (used' : Z) (m' : idmap) (l : list usn_rec) : Prop := {
  ap_length : length Buf' = length Buf;
  ap_room : used <= used' <= Z.of_nat (length Buf);
  ap_same : forall p n, 0 <= p -> 0 <= n -> p + n <= used -> seg Buf' p n = seg Buf p n;
  ap_chain : usn_chain Buf' used' used l;
  ap_decoys : Forall (decoy_rec lookup secret) l;
  ap_map : idmap_ok upcase secret m -> idmap_ok upcase secret m'
}.

Lemma appended_refl lookup upcase secret Buf used m : used <= Z.of_nat (length Buf) ->
  appended lookup upcase secret Buf used m Buf used m [].
Proof. intros H. split; try done; try lia. constructor. Qed.

Lemma appended_trans lookup upcase secret B1 u1 m1 B2 u2 m2 B3 u3 m3 l l' : 0 <= u1 ->
  appended lookup upcase secret B1 u1 m1 B2 u2 m2 l -> appended lookup upcase secret B2 u2 m2 B3 u3 m3 l' ->
  appended lookup upcase secret B1 u1 m1 B3 u3 m3 (l ++ l').
Proof.
  intros Hu [A1 A2 A3 A4 A5 A6] [C1 C2 C3 C4 C5 C6]. split.
  - by rewrite C1.
  - lia.
  - intros p n Hp Hn Hpn. rewrite C3 by lia. by apply A3.
  - eapply usn_chain_app; [|done]. eapply usn_chain_same; [done|done|]. intros. apply C3; lia.
  - by apply Forall_app.
  - auto.
Qed.

Section Inject.
Context (lookup : Z -> option (list Z)) (upcase : Z -> Z) (secret : bytes).

(** One decoy. *)
Lemma append_one Buf used m par D k nm f len : 0 <= used -> is_u64 par -> SarPhantomResolveDir lookup par = Some D ->
  (k < SAR_PHANTOM_MAX_PER_DIR)%nat ->
  nm = SarPhantomNameForIndex secret D (Z.of_nat k) -> f = SarPhantomFrn secret D (Z.of_nat k) ->
  len = usn_length nm -> (length nm <= 20)%nat -> used + len <= Z.of_nat (length Buf) ->
  exists Buf', (let! b := store Buf used (replicate (Z.to_nat len) 0) in
                store_fields b used (usn_fields len f par nm)) = Ret Buf' /\
    appended lookup upcase secret Buf used m Buf' (used + len) (note_decoy secret D nm k m) [(f, par, nm)].
Proof.
  intros Hu Hp HD Hk En Ef El Hnm Hroom. assert (Hf : is_u64 f) by (rewrite Ef; apply frn_u64).
  pose proof (usn_length_bounds len f par nm El Hf Hp Hnm) as Hb. unfold USN_NAME in Hb.
  destruct (usn_fields_ok len f par nm El Hf Hp Hnm) as [_ Hff].
  assert (Hl : Z.of_nat (Z.to_nat len) = len) by lia.
  rewrite store_ok by (rewrite ?length_replicate; lia). cbn [cbind].
  rewrite store_fields_put; rewrite ?length_replicate, ?Hl; [|done|lia|done]. eexists. split; [done|].
  fold (usn_image len f par nm).
  assert (Hi : length (usn_image len f par nm) = Z.to_nat len)
    by (unfold usn_image; by rewrite length_put_fields, length_replicate).
  split.
  - apply length_mem_write.
  - lia.
  - intros. apply seg_write_out; lia.
  - eapply usn_cons; [by apply usn_image_reads|constructor].
  - apply Forall_singleton. by exists D, k.
  - intros Hm. apply note_decoy_ok; [done|by rewrite En|done].
Qed.

(** The decoys of one directory. *)
Lemma usn_append_ok par D ks : is_u64 par -> SarPhantomResolveDir lookup par = Some D ->
  Forall (fun k => (k < SAR_PHANTOM_MAX_PER_DIR)%nat) ks -> forall Buf used m,
  0 <= used <= Z.of_nat (length Buf) -> Z.of_nat (length Buf) <= 2 ^ 31 ->
  exists Buf' used' m' l, usn_append secret (Z.of_nat (length Buf)) par D ks Buf used m = Ret (Buf', used', m') /\
    appended lookup upcase secret Buf used m Buf' used' m' l.
Proof.
  intros Hp HD Hks. induction Hks as [|k ks Hk _ IH]; intros Buf used m Hu Hl; cbn [usn_append].
  { exists Buf, used, m, []. split; [done|]. apply appended_refl. lia. }
  remember (SarPhantomNameForIndex secret D (Z.of_nat k)) as nm eqn:En.
  remember (SarPhantomFrn secret D (Z.of_nat k)) as f eqn:Ef. remember (usn_length nm) as len eqn:El.
  assert (Hnm : (length nm <= 20)%nat) by (rewrite En; apply length_name_of_hash).
  pose proof (usn_length_bounds len 0 par nm El ltac:(unfold is_u; lia) Hp Hnm) as Hb. unfold USN_NAME in Hb.
  rewrite u32_small by (unfold is_u; lia).
  destruct (Z.ltb_spec (Z.of_nat (length Buf)) (used + len)) as [|Hroom].
  { exists Buf, used, m, []. split; [done|]. apply appended_refl. lia. }
  destruct (append_one Buf used m par D k nm f len) as (B1 & E1 & A1); try done; [lia|].
  destruct (store Buf used _) as [b| |]; cbn [cbind] in E1 |- *; [|done|done]. rewrite E1. cbn [cbind].
  pose proof (ap_length _ _ _ _ _ _ _ _ _ _ A1) as L1.
  destruct (IH B1 (used + len) (note_decoy secret D nm k m)) as (B2 & u2 & m2 & l & E2 & A2); [lia|lia|].
  rewrite <- L1, E2. exists B2, u2, m2, ([(f, par, nm)] ++ l). split; [done|].
  eapply appended_trans; [lia|exact A1|exact A2].
Qed.

Lemma count_for_dir_max n : (SarPhantomCountForDir n <= SAR_PHANTOM_MAX_PER_DIR)%nat.
Proof. unfold SarPhantomCountForDir, SAR_PHANTOM_MAX_PER_DIR. repeat dif; lia. Qed.

Lemma usn_parents_ok ps : Forall (fun p => is_u64 p.1) ps -> forall Buf used m,
  0 <= used <= Z.of_nat (length Buf) -> Z.of_nat (length Buf) <= 2 ^ 31 ->
  exists Buf' used' m' l, usn_parents lookup secret (Z.of_nat (length Buf)) ps Buf used m = Ret (Buf', used', m') /\
    appended lookup upcase secret Buf used m Buf' used' m' l.
Proof.
  induction 1 as [|[par n] ps Hp _ IH]; intros Buf used m Hu Hl; cbn [usn_parents].
  { exists Buf, used, m, []. split; [done|]. apply appended_refl. lia. }
  destruct (SarPhantomResolveDir lookup par) as [D|] eqn:HD; [|by apply IH].
  destruct (SarPhantomIsPhantomPath D); [by apply IH|].
  destruct (usn_append_ok par D (seq 0 (SarPhantomCountForDir n)) Hp HD) with (Buf := Buf) (used := used) (m := m)
    as (B1 & u1 & m1 & l1 & -> & A1); [|done|done|].
  { apply Forall_seq. intros j Hj. pose proof (count_for_dir_max n). lia. }
  cbn [cbind]. pose proof (ap_length _ _ _ _ _ _ _ _ _ _ A1) as L1. pose proof (ap_room _ _ _ _ _ _ _ _ _ _ A1) as R1.
  destruct (IH B1 u1 m1) as (B2 & u2 & m2 & l2 & E2 & A2); [lia|lia|]. rewrite <- L1, E2.
  exists B2, u2, m2, (l1 ++ l2). split; [done|]. eapply appended_trans; [lia|exact A1|exact A2].
Qed.

(** Property C19: decoys in the journal keep the journal.  For any bytes of an
    enumeration the injection ends without touching a byte outside the caller's
    buffer; what the file system returned stays as it is; behind it follow
    well-formed records, up to exactly the new count, each for a decoy of the
    directory of one of the records; and the table of shown decoys stays true to
    the secret. *)
Theorem usn_injection_keeps Buf Information m :
  is_bytes Buf -> 8 < Information <= Z.of_nat (length Buf) -> Z.of_nat (length Buf) <= 2 ^ 31 ->
  exists Buf' used m' l,
    SarPhantomInjectUsn lookup secret Buf (Z.of_nat (length Buf)) Information m = Ret (Buf', used, m') /\
    length Buf' = length Buf /\ Information <= used <= Z.of_nat (length Buf) /\
    take (Z.to_nat Information) Buf' = take (Z.to_nat Information) Buf /\
    usn_chain Buf' used Information l /\ Forall (decoy_rec lookup secret) l /\
    (idmap_ok upcase secret m -> idmap_ok upcase secret m').
Proof.
  intros Hb Hi Hl. unfold SarPhantomInjectUsn. rewrite u32_small by (unfold is_u; lia).
  rewrite (proj2 (Z.leb_gt _ _)), (proj2 (Z.ltb_ge _ _)) by lia. cbn [orb].
  destruct (usn_scan_ok (S (Z.to_nat Information)) Buf Information 8 []) as (ps & -> & Hps); try done; try lia.
  cbn [cbind]. destruct (usn_parents_ok ps Hps Buf Information m) as (B' & u' & m' & l & -> & A); [lia|lia|].
  exists B', u', m', l. destruct A as [A1 A2 A3 A4 A5 A6]. split_and!; try done; try lia.
  pose proof (A3 0 Information) as S0. unfold seg in S0. rewrite !drop_0 in S0. apply S0; lia.
Qed.

End Inject.

End PhantomUsn.
