(* ===== verification/PhantomRuns.v ===== *)
(** * Runs with decoys (driver/phantom.c, driver/operations.c)

    Concrete listings, opens and writes on a small driver, and the cases in
    which the code does something else than its documentation says. *)

From stdpp Require Import gmap strings.
From S2P Require Import Prelude Mem Format Sha256 Chain Keystore Protocol Whitelist Preserve EventLog DriverState DriverTrust.
From S2P Require Import DriverPreserve PreserveStore KeystorePersist Streams Calls DriverRecovery CaptureSeam Snapshot CaptureWork.
From S2P Require Import Mmap Phantom Operations Conviction CaptureRuns PhantomDir PhantomMerge PhantomOps PhantomProps PhantomUsn.
Import Mem Layout Protocol Streams CaptureSeam CaptureWork Mmap Phantom Operations Conviction CaptureRuns.
Import PhantomDir PhantomMerge PhantomOps PhantomProps PhantomUsn PreserveStore.
Import DriverState (SAR_STATE, STATUS_ACCESS_DENIED, STATUS_OBJECT_NAME_NOT_FOUND, table_ok, table).

Module PhantomRuns.

(** ** A small driver with decoys *)

(** The process 7 is in the table, exempt or not. *)
Definition enforce_state : SAR_STATE := DriverState.set_mode SEMANTICS_AR_MODE_ENFORCE DriverTrust.demo_state.
Definition decoy_entry (exempt : bool) : DriverState.SAR_IDENTITY_ENTRY :=
  DriverState.new_entry (fun _ => 9) enforce_state 7 100 None false false exempt.
Definition decoy_state (exempt : bool) : SAR_STATE := (DriverState.link_entry enforce_state (decoy_entry exempt)).2.

Lemma decoy_state_ok exempt : table_ok (decoy_state exempt) /\ table (decoy_state exempt) !! 7 = Some (decoy_entry exempt).
Proof.
  assert (Ht : table_ok enforce_state) by (destruct DriverTrust.demo_table_ok; by constructor).
  destruct (DriverState.link_ok enforce_state Ht 7 (decoy_entry exempt)) as (H1 & _ & H2); [done|by vm_compute|].
  unfold decoy_state, DriverState.link_entry.
  replace (DriverState.SarIdentityFindLocked enforce_state (DriverState.process_id (decoy_entry exempt)))
    with (None : option (nat * DriverState.SAR_IDENTITY_ENTRY)) by (by vm_compute).
  split; [exact H1|]. apply (f_equal (fun m => m !! 7)) in H2. rewrite lookup_insert_eq in H2. exact H2.
Qed.

(** The stream 1 is the backing file of a decoy. *)
Definition decoy_context : SAR_STREAM_CONTEXT :=
  or_flags (SAR_STREAMCTX_FLAG_OWN_STORE .| SAR_STREAMCTX_FLAG_PHANTOM_BACKING) new_context.

Definition decoy_driver (exempt : bool) : driver write_log :=
  {| state := decoy_state exempt; log := None; preserve := Some (demo_store 4096, []); keystore := None;
     capture := Some demo_capture;
     streams := <[3 := decoy_context]> (<[2 := decoy_context]> {[1 := decoy_context]});
     links := ∅; queue := []; seam := SarSeamCoverageReset; sysroot := None |}.

Definition demo_secret : bytes := replicate 32 0.
Definition demo_decoys : decoys :=
  {| phantom := Some {| active := true; volume_secret := demo_secret; image_notify_registered := false |};
     shown_map := empty_idmap; files := ∅; enums := ∅ |}.

Lemma exempt_meets_no_decoy_witness :
  SarPhantomEvidenceConvicts (state (decoy_driver true)) 7 = (false, state (decoy_driver true)).
Proof.
  refine (proj2 (proj2 (proj2 (proj2 (exempt_meets_no_decoy upper (fun _ _ => true) demo_data (decoy_driver true) demo_decoys
    (proj1 (decoy_state_ok true)) _))))). vm_compute. reflexivity.
Defined.

(** A write to the decoy that is open as the stream [i]. *)
Definition decoy_request (i : Z) : request :=
  (demo_write true,
   {| issuer := issuer demo_data; UserMode := UserMode demo_data; IrpFlags := IrpFlags demo_data; FileObject := i;
      passive := passive demo_data; top_level := top_level demo_data; normalized := normalized demo_data |}, 0, 5).

Lemma decoy_watched : watched demo_process (decoy_driver false).
Proof.
  destruct (decoy_state_ok false) as [H1 H2]. split; [exact H1| |by eexists|by vm_compute].
  exists (decoy_entry false). split; [exact H2|]. by vm_compute.
Qed.

Lemma decoy_room : room (decoy_driver false).
Proof. exists demo_capture. by vm_compute. Qed.

Lemma decoy_enforcing : enforcing (decoy_driver false) = true.
Proof. vm_compute. reflexivity. Qed.

Lemma decoy_request_ok i : i = 1 \/ i = 2 \/ i = 3 -> to_decoy demo_process (decoy_driver false) (decoy_request i).
Proof.
  intros Hi. split; [reflexivity|]. split; [reflexivity|]. split; [vm_compute; reflexivity|].
  destruct Hi as [->|[->| ->]]; vm_compute; reflexivity.
Qed.

(** Writes to three decoys. *)
Lemma decoy_writer_stopped_witness : exists d1 d2 d3 : driver write_log,
  send upper (decoy_request 1) (decoy_driver false) = Ret (FLT_PREOP_SUCCESS_NO_CALLBACK, d1) /\
  send upper (decoy_request 2) d1 = Ret (FLT_PREOP_SUCCESS_NO_CALLBACK, d2) /\
  send upper (decoy_request 3) d2 = Ret (FLT_PREOP_COMPLETE STATUS_ACCESS_DENIED, d3) /\
  SarPreWrite upper (demo_write true) demo_data 0 5 d3 = Ret (FLT_PREOP_COMPLETE STATUS_ACCESS_DENIED, d3).
Proof.
  destruct (decoy_writer_stopped upper demo_process (decoy_driver false) (decoy_request 1) (decoy_request 2) (decoy_request 3)
    decoy_watched decoy_enforcing (decoy_request_ok 1 ltac:(lia)) (decoy_request_ok 2 ltac:(lia))
    (decoy_request_ok 3 ltac:(lia))) as (d1 & d2 & d3 & H1 & H2 & H3 & H4).
  exists d1, d2, d3. split; [exact H1|]. split; [exact H2|]. split; [exact H3|].
  apply (H4 decoy_room demo_data); reflexivity.
Defined.

Lemma one_decoy_convicts_witness : exists d3 : driver write_log,
  SarCaptureOriginatorBlocked demo_process d3 = true /\ preserve d3 = preserve (decoy_driver false).
Proof.
  destruct (one_decoy_convicts upper demo_process (decoy_driver false) (decoy_request 1)
    (conj decoy_watched decoy_room) decoy_enforcing (decoy_request_ok 1 ltac:(lia))) as (d1 & d2 & d3 & _ & _ & _ & H1 & H2).
  exists d3. exact (conj H1 H2).
Defined.

(** ** A listing *)

(** An entry of the class FileNamesInformation, without its link. *)
Definition name_entry (n : list Z) : bytes := le_bytes 4 0 ++ le_bytes 4 (Z.of_nat (length n) * 2) ++ u16s_bytes n.

(** The names a.txt and b.txt as the file system returns them. *)
Definition entry_a : bytes := name_entry (wide "a.txt").
Definition entry_b : bytes := name_entry (wide "b.txt").
Definition demo_listing : bytes := le_bytes 4 24 ++ entry_a ++ [0; 0] ++ le_bytes 4 0 ++ entry_b.
Definition demo_dir : list Z := wide "\Device\HarddiskVolume1\docs".

Lemma demo_chain : chain g_dir_offsets_names demo_listing 46 0 [entry_a; entry_b].
Proof.
  apply chain_more with (n := 24); [|by vm_compute|by vm_compute|apply chain_last];
    (split; [by vm_compute|by vm_compute|by vm_compute|by vm_compute|split; by vm_compute]).
Qed.

Lemma decoys_keep_listing_witness : exists Out' used emitted Ectx' m' shown,
  SarPhantomMergeInto upper demo_secret (replicate 200 0) (Z.of_nat (length (replicate 200 0))) demo_listing 46
    g_dir_offsets_names demo_dir 7 new_enum empty_idmap = Ret (Out', used, emitted, Ectx', m') /\
  shows upper demo_secret g_dir_offsets_names demo_dir [entry_a; entry_b] Out' used shown.
Proof.
  destruct (decoys_keep_listing upper demo_secret 12 g_dir_offsets_names (replicate 200 0) demo_listing 46 demo_dir 7
    new_enum empty_idmap [entry_a; entry_b] eq_refl demo_chain) as (O & u & em & E & m & s & H1 & _ & _ & _ & _ & H2);
    [vm_compute; discriminate|vm_compute; discriminate|vm_compute; discriminate|].
  exists O, u, em, E, m, s. exact (conj H1 H2).
Defined.

(** The decoy of the directory is shown. *)
Example demo_listing_shows : match SarPhantomMergeInto upper demo_secret (replicate 200 0) 200 demo_listing 46
    g_dir_offsets_names demo_dir 7 new_enum empty_idmap with
  | Ret (_, _, emitted, _, _) => emitted = 1 | _ => False end.
Proof. vm_compute. reflexivity. Qed.

(** ** Opening the decoy *)

Definition demo_decoy : list Z := SarPhantomNameForIndex demo_secret demo_dir 0.

(** [disposition] is FILE_OPEN (1) or FILE_CREATE (2); there is no memory for the
    content of the backing file. *)
(** An open of the decoy; [alloc] is whether the memory to make the backing file is granted. *)
Definition demo_open (alloc : bool) (disposition : Z) : open_env :=
  {| op_filename := Some (u16s_bytes (wide "\docs\" ++ demo_decoy)); op_related := false;
     op_options := disposition .<< 24; op_target_directory := false; op_names := Some (demo_decoy, wide "\docs\");
     op_backing := {| be_alloc := alloc; be_create := true; be_write := true; be_times := true |};
     op_backing_frn := None; op_volume := None |}.

Lemma listed_decoy_opens_witness : exists j w',
  phantom_open upper (demo_open true 1) demo_data (decoy_driver false) demo_decoys =
    (Reparse (u16s_bytes (SarPhantomBuildBackingPath demo_secret (Z.of_nat j) demo_dir)), w') /\
  idmap_ok upper demo_secret (shown_map w') /\
  is_Some (files w' !! SarPhantomBuildBackingPath demo_secret (Z.of_nat j) demo_dir).
Proof.
  destruct (listed_decoy_opens upper (demo_open true 1) demo_data (decoy_driver false) demo_decoys demo_secret
    (wide "HarddiskVolume1") (wide "\docs") (wide "doc") 115 0) as (j & w' & _ & H & _ & _ & Hm & Hf).
  - apply (bool_decide_unpack _). vm_compute. exact I.
  - reflexivity.
  - discriminate.
  - apply forall_u_check. vm_compute. reflexivity.
  - vm_compute. reflexivity.
  - apply Nat.ltb_lt. reflexivity.
  - reflexivity.
  - reflexivity.
  - vm_compute. reflexivity.
  - reflexivity.
  - reflexivity.
  - reflexivity.
  - vm_compute. reflexivity.
  - vm_compute. discriminate.
  - apply empty_idmap_ok.
  - exists j, w'. exact (conj H (conj Hm (Hf eq_refl eq_refl))).
Defined.

Definition open_answer (r : open_result * decoys) : open_result := r.1.

(** A file whose name is a decoy's is lost to its owner.  A process
    that is not exempt may create it, but when it opens the file again it gets
    the backing file of the decoy; an exempt process cannot even create it. *)
Theorem decoy_name_collision :
  open_answer (phantom_open upper (demo_open false 2) demo_data (decoy_driver false) demo_decoys) = Pass /\
  open_answer (phantom_open upper (demo_open false 1) demo_data (decoy_driver false) demo_decoys) =
    Reparse (u16s_bytes (SarPhantomBuildBackingPath demo_secret 0 demo_dir)) /\
  open_answer (phantom_open upper (demo_open false 2) demo_data (decoy_driver true) demo_decoys) =
    Complete STATUS_OBJECT_NAME_NOT_FOUND.
Proof. split; [|split]; vm_compute; reflexivity. Qed.

(** What a query for the name of the backing file answers. *)
Definition demo_query (w : decoys) : query_result :=
  SarPhantomPostQueryInfo
    {| qi_draining := false; qi_success := true;
       qi_file_name := Some (SarPhantomBuildBackingPath demo_secret 0 demo_dir);
       qi_names := Some (SarPhantomBuildBackingPath demo_secret 0 demo_dir, backing_hex demo_secret 0 demo_dir);
       qi_class := FileNameInformation; qi_buffer := true; qi_length := 600 |} demo_data (decoy_driver false) w.

(** The decoys after the directory was listed and the decoy opened. *)
Definition listed_and_opened : decoys :=
  match SarPhantomMergeInto upper demo_secret (replicate 200 0) 200 demo_listing 46 g_dir_offsets_names demo_dir 7
          new_enum empty_idmap with
  | Ret (_, _, _, _, m) => (phantom_open upper (demo_open false 1) demo_data (decoy_driver false) (set_shown m demo_decoys)).2
  | _ => demo_decoys
  end.

(** Listing a directory spoils the names of its decoys.  After a
    decoy was opened, a query answers with its path on the volume; but if the
    directory was listed before, the answer is the name of the device and the
    directory with the decoy's name behind it, without a backslash between. *)
Theorem listing_spoils_decoy_name :
  demo_query (phantom_open upper (demo_open false 1) demo_data (decoy_driver false) demo_decoys).2 =
    NewName (wide "\docs\" ++ demo_decoy) (4 + 2 * Z.of_nat (length (wide "\docs\" ++ demo_decoy))) /\
  demo_query listed_and_opened =
    NewName (wide "\Device\HarddiskVolume1\docs" ++ demo_decoy)
      (4 + 2 * Z.of_nat (length (wide "\Device\HarddiskVolume1\docs" ++ demo_decoy))).
Proof. split; vm_compute; reflexivity. Qed.

(** A directory \Device on a volume: its listing and the opens of its files have
    different canonical names, so its decoys are shown and cannot be opened. *)
Example device_directory :
  SarPhantomCanonDir (wide "\Device\HarddiskVolume1\Device\a") = wide "\Device\a" /\
  SarPhantomCanonDir (wide "\Device\a\") = [].
Proof. split; vm_compute; reflexivity. Qed.

(** ** The journal *)

(** One record of the file 5 in the directory 6, in a buffer with room. *)
Definition demo_journal : bytes :=
  le_bytes 8 7 ++ put_fields (replicate 72 0) (usn_fields 72 5 6 (wide "a.txt")) ++ replicate 320 0.

Definition demo_lookup (frn : Z) : option (list Z) := if frn =? 6 then Some demo_dir else None.

Lemma usn_injection_keeps_witness : exists Buf' used m' l,
  SarPhantomInjectUsn demo_lookup demo_secret demo_journal (Z.of_nat (length demo_journal)) 80 empty_idmap =
    Ret (Buf', used, m') /\ usn_chain Buf' used 80 l /\ idmap_ok upper demo_secret m'.
Proof.
  destruct (usn_injection_keeps demo_lookup upper demo_secret demo_journal 80 empty_idmap)
    as (B & u & m & l & H1 & _ & _ & _ & H2 & _ & H3).
  - apply forall_u_check. vm_compute. reflexivity.
  - vm_compute. split; [reflexivity|discriminate].
  - vm_compute. discriminate.
  - exists B, u, m, l. exact (conj H1 (conj H2 (H3 (empty_idmap_ok _ _)))).
Defined.

Example demo_journal_grows : match SarPhantomInjectUsn demo_lookup demo_secret demo_journal 400 80 empty_idmap with
  | Ret (_, used, _) => 80 < used | _ => False end.
Proof. vm_compute. reflexivity. Qed.

End PhantomRuns.
