(* ===== verification/Startup.v ===== *)
(** * Starting and unloading the driver

    driver/driver.c with the registrations it calls: [SarFeatureDetect] of
    driver/feature.c, [SarBypassIoResolve] of driver/bypassio.c and the
    registration of driver/processnotify.c, driver/obguard.c, driver/commport.c
    and driver/phantom.c.  What a call creates or takes away is an entry of the
    trace of the run; the answers of the system are a record.  The theorems say
    that a start is all or nothing and that unloading takes every part away
    after the parts that use it. *)

From stdpp Require Import gmap.
From S2P Require Import Prelude DriverState.
Import DriverState (NTSTATUS, NT_SUCCESS, STATUS_SUCCESS, STATUS_ACCESS_DENIED).

Module Startup.

(** ** What the driver holds *)

(** [Filtering] is the delivery of requests, [Port] the open communication port,
    [Comm] its memory; [NotifyEx2] and [NotifyEx] are the two forms of the process
    callback. *)
Inductive resource :=
  | State | EventLog | Filter | Filtering | NotifyEx2 | NotifyEx | Comm | Port | Keystore
  | PhantomCtx | ImageNotify | CaptureCtx | PreserveCtx | ObGuard.

#[global] Instance resource_eq_dec : EqDecision resource.
Proof. solve_decision. Defined.

#[global] Instance resource_countable : Countable resource.
Proof.
  refine (inj_countable'
    (fun r => match r with
     | State => 0 | EventLog => 1 | Filter => 2 | Filtering => 3 | NotifyEx2 => 4 | NotifyEx => 5 | Comm => 6
     | Port => 7 | Keystore => 8 | PhantomCtx => 9 | ImageNotify => 10 | CaptureCtx => 11 | PreserveCtx => 12
     | ObGuard => 13 end%nat)
    (fun n => match n with
     | 0 => State | 1 => EventLog | 2 => Filter | 3 => Filtering | 4 => NotifyEx2 | 5 => NotifyEx | 6 => Comm
     | 7 => Port | 8 => Keystore | 9 => PhantomCtx | 10 => ImageNotify | 11 => CaptureCtx | 12 => PreserveCtx
     | _ => ObGuard end%nat) _).
  by intros [].
Defined.

Inductive call :=
  | Create (r : resource)
  | Destroy (r : resource)
  | WaitMmapReads
  | OsAnchorInit
  | KeystoreLoad
  | PreserveLoad
  | PhantomActivate
  | RegisterBootReinit.

Inductive sar_ppl_class := SAR_PPL_NONE | SAR_PPL_AVAILABLE.

Record SAR_POSTURE := {
  hvci_active : bool;
  vbs_active : bool;
  tpm20_present : bool;
  ppl_available : sar_ppl_class;
  dev_drive_supported : bool;
  process_notify_ex2 : bool;
  bypass_io_negotiated : bool;
  preserve_active : bool;
  phantom_active : bool
}.

(** The pointers of [g_sar] that are not NULL, [g_sar_state] and the handles of the
    registrations, with the trace of the calls, the latest first. *)
Record SAR_GLOBALS := {
  filter : bool;
  state : bool;
  comm : bool;
  keystore : bool;
  capture : bool;
  preserve : bool;
  phantom : bool;
  eventlog : bool;
  g_sar_state : bool;
  image_notify_registered : bool;
  registered_ex2 : bool;
  registered_ex : bool;
  ob_handle : bool;
  unloading : bool;
  posture : SAR_POSTURE;
  trace : list call
}.

Definition zero_posture : SAR_POSTURE :=
  {| hvci_active := false; vbs_active := false; tpm20_present := false; ppl_available := SAR_PPL_NONE;
     dev_drive_supported := false; process_notify_ex2 := false; bypass_io_negotiated := false;
     preserve_active := false; phantom_active := false |}.

(** The driver image just loaded. *)
Definition zero_globals : SAR_GLOBALS :=
  {| filter := false; state := false; comm := false; keystore := false; capture := false; preserve := false;
     phantom := false; eventlog := false; g_sar_state := false; image_notify_registered := false;
     registered_ex2 := false; registered_ex := false; ob_handle := false; unloading := false;
     posture := zero_posture; trace := [] |}.

(** ** Steps: a pointer is set or cleared, a call is made *)

Definition calls (cs : list call) (g : SAR_GLOBALS) : SAR_GLOBALS :=
  {| filter := filter g; state := state g; comm := comm g; keystore := keystore g; capture := capture g;
     preserve := preserve g; phantom := phantom g; eventlog := eventlog g; g_sar_state := g_sar_state g;
     image_notify_registered := image_notify_registered g; registered_ex2 := registered_ex2 g;
     registered_ex := registered_ex g; ob_handle := ob_handle g; unloading := unloading g; posture := posture g;
     trace := cs ++ trace g |}.

(** The pointer to a part; the registrations keep a handle of their own. *)
Definition set_pointer (r : resource) (b : bool) (g : SAR_GLOBALS) : SAR_GLOBALS :=
  let sel r' old := if decide (r = r') then b else old in
  {| filter := sel Filter (filter g); state := sel State (state g); comm := sel Comm (comm g);
     keystore := sel Keystore (keystore g); capture := sel CaptureCtx (capture g);
     preserve := sel PreserveCtx (preserve g); phantom := sel PhantomCtx (phantom g);
     eventlog := sel EventLog (eventlog g); g_sar_state := sel State (g_sar_state g);
     image_notify_registered := sel ImageNotify (image_notify_registered g);
     registered_ex2 := sel NotifyEx2 (registered_ex2 g); registered_ex := sel NotifyEx (registered_ex g);
     ob_handle := sel ObGuard (ob_handle g); unloading := unloading g; posture := posture g; trace := trace g |}.

Definition set_posture (p : SAR_POSTURE) (g : SAR_GLOBALS) : SAR_GLOBALS :=
  {| filter := filter g; state := state g; comm := comm g; keystore := keystore g; capture := capture g;
     preserve := preserve g; phantom := phantom g; eventlog := eventlog g; g_sar_state := g_sar_state g;
     image_notify_registered := image_notify_registered g; registered_ex2 := registered_ex2 g;
     registered_ex := registered_ex g; ob_handle := ob_handle g; unloading := unloading g; posture := p;
     trace := trace g |}.

Definition set_unloading (g : SAR_GLOBALS) : SAR_GLOBALS :=
  {| filter := filter g; state := state g; comm := comm g; keystore := keystore g; capture := capture g;
     preserve := preserve g; phantom := phantom g; eventlog := eventlog g; g_sar_state := g_sar_state g;
     image_notify_registered := image_notify_registered g; registered_ex2 := registered_ex2 g;
     registered_ex := registered_ex g; ob_handle := ob_handle g; unloading := true; posture := posture g;
     trace := trace g |}.

Definition created (r : resource) (g : SAR_GLOBALS) : SAR_GLOBALS := set_pointer r true (calls [Create r] g).
Definition destroyed (r : resource) (g : SAR_GLOBALS) : SAR_GLOBALS := set_pointer r false (calls [Destroy r] g).

(** ** Features *)

(** The answers of the queries; [None] is a failed query. *)
Record feature_env := {
  ci_options : option Z;
  ium : option (Z * bool);      (* bytes returned, SecureKernelRunning *)
  tpm_routine : bool;           (* TpmExtractEK is exported *)
  os_version : option (Z * Z);
  veto_routine : bool           (* FltVetoBypassIo is exported *)
}.

Definition CODEINTEGRITY_OPTION_HVCI_KMCI_ENABLED : Z := 0x400.

(** [sizeof(SYSTEM_ISOLATED_USER_MODE_INFORMATION)] *)
Definition ium_size : Z := 16.

Definition SarDetectHvci (env : feature_env) : bool :=
  match ci_options env with
  | Some o => negb (Z.land o CODEINTEGRITY_OPTION_HVCI_KMCI_ENABLED =? 0)
  | None => false
  end.

Definition SarDetectVbs (env : feature_env) : bool :=
  match ium env with
  | Some (returned, running) => if returned <? ium_size then false else running
  | None => false
  end.

Definition SarDetectPplAvailability (env : feature_env) : sar_ppl_class :=
  match os_version env with
  | Some (major, minor) =>
    if (6 <? major) || ((major =? 6) && (3 <=? minor)) then SAR_PPL_AVAILABLE else SAR_PPL_NONE
  | None => SAR_PPL_NONE
  end.

Definition SarFeatureDetect (env : feature_env) (p : SAR_POSTURE) : SAR_POSTURE :=
  {| hvci_active := SarDetectHvci env; vbs_active := SarDetectVbs env; tpm20_present := tpm_routine env;
     ppl_available := SarDetectPplAvailability env; dev_drive_supported := false;
     process_notify_ex2 := process_notify_ex2 p; bypass_io_negotiated := bypass_io_negotiated p;
     preserve_active := preserve_active p; phantom_active := phantom_active p |}.

(** [fs_refs]: the type of the file system, [None] when the volume cannot be asked,
    and whether it is ReFS. *)
Definition SarFeatureDetectDevDrive (fs_refs : option bool) (p : SAR_POSTURE) : SAR_POSTURE :=
  match fs_refs with
  | Some true =>
    {| hvci_active := hvci_active p; vbs_active := vbs_active p; tpm20_present := tpm20_present p;
       ppl_available := ppl_available p; dev_drive_supported := true; process_notify_ex2 := process_notify_ex2 p;
       bypass_io_negotiated := bypass_io_negotiated p; preserve_active := preserve_active p;
       phantom_active := phantom_active p |}
  | _ => p
  end.

(** The routine is resolved once per load of the image. *)
Definition SarBypassIoResolve (env : feature_env) (p : SAR_POSTURE) : SAR_POSTURE :=
  {| hvci_active := hvci_active p; vbs_active := vbs_active p; tpm20_present := tpm20_present p;
     ppl_available := ppl_available p; dev_drive_supported := dev_drive_supported p;
     process_notify_ex2 := process_notify_ex2 p; bypass_io_negotiated := veto_routine env;
     preserve_active := preserve_active p; phantom_active := phantom_active p |}.

Definition set_ex2 (b : bool) (p : SAR_POSTURE) : SAR_POSTURE :=
  {| hvci_active := hvci_active p; vbs_active := vbs_active p; tpm20_present := tpm20_present p;
     ppl_available := ppl_available p; dev_drive_supported := dev_drive_supported p; process_notify_ex2 := b;
     bypass_io_negotiated := bypass_io_negotiated p; preserve_active := preserve_active p;
     phantom_active := phantom_active p |}.

Definition set_preserve_active (p : SAR_POSTURE) : SAR_POSTURE :=
  {| hvci_active := hvci_active p; vbs_active := vbs_active p; tpm20_present := tpm20_present p;
     ppl_available := ppl_available p; dev_drive_supported := dev_drive_supported p;
     process_notify_ex2 := process_notify_ex2 p; bypass_io_negotiated := bypass_io_negotiated p;
     preserve_active := true; phantom_active := phantom_active p |}.

Definition set_phantom_active (p : SAR_POSTURE) : SAR_POSTURE :=
  {| hvci_active := hvci_active p; vbs_active := vbs_active p; tpm20_present := tpm20_present p;
     ppl_available := ppl_available p; dev_drive_supported := dev_drive_supported p;
     process_notify_ex2 := process_notify_ex2 p; bypass_io_negotiated := bypass_io_negotiated p;
     preserve_active := preserve_active p; phantom_active := true |}.

(** ** Registrations *)

(** [ex2]: the newer routine is exported, and its status; [ex]: the status of the
    older one. *)
Definition SarProcessNotifyRegister (ex2 : option NTSTATUS) (ex : NTSTATUS) (g : SAR_GLOBALS) : NTSTATUS * SAR_GLOBALS :=
  let older :=
    if NT_SUCCESS ex then (STATUS_SUCCESS, set_posture (set_ex2 false (posture g)) (created NotifyEx g)) else (ex, g) in
  match ex2 with
  | Some s => if NT_SUCCESS s then (STATUS_SUCCESS, set_posture (set_ex2 true (posture g)) (created NotifyEx2 g)) else older
  | None => older
  end.

Definition SarProcessNotifyUnregister (g : SAR_GLOBALS) : SAR_GLOBALS :=
  let g := if registered_ex2 g then destroyed NotifyEx2 g else g in
  if registered_ex g then destroyed NotifyEx g else g.

Definition SarPhantomImageNotifyRegister (s : NTSTATUS) (g : SAR_GLOBALS) : SAR_GLOBALS :=
  if negb (phantom g) then g else if NT_SUCCESS s then created ImageNotify g else g.

Definition SarPhantomImageNotifyUnregister (g : SAR_GLOBALS) : SAR_GLOBALS :=
  if negb (phantom g) then g else if image_notify_registered g then destroyed ImageNotify g else g.

Definition SarObGuardRegister (s : NTSTATUS) (g : SAR_GLOBALS) : NTSTATUS * SAR_GLOBALS :=
  if NT_SUCCESS s then (s, created ObGuard g) else (s, g).

Definition SarObGuardUnregister (g : SAR_GLOBALS) : SAR_GLOBALS :=
  if negb (ob_handle g) then g else destroyed ObGuard g.

(** The memory of the port and the port itself: [s] is the status of the whole
    creation, which takes nothing when it fails. *)
Definition SarCommPortCreate (s : NTSTATUS) (g : SAR_GLOBALS) : NTSTATUS * SAR_GLOBALS :=
  if NT_SUCCESS s then (s, set_pointer Comm true (calls [Create Port; Create Comm] g)) else (s, g).

Definition SarCommPortClose (g : SAR_GLOBALS) : SAR_GLOBALS := calls [Destroy Port] g.
Definition SarCommPortFree (g : SAR_GLOBALS) : SAR_GLOBALS := calls [Destroy Comm] g.

(** Unregistering the filter ends the delivery of requests. *)
Definition FltUnregisterFilter (g : SAR_GLOBALS) : SAR_GLOBALS := calls [Destroy Filter; Destroy Filtering] g.

(** ** Starting *)

(** The status of every call that can fail; [load_key]: the keystore has a key
    after loading. *)
Record start_env := {
  features : feature_env;
  st_state : NTSTATUS;
  st_eventlog : NTSTATUS;
  st_filter : NTSTATUS;
  st_ex2 : option NTSTATUS;
  st_ex : NTSTATUS;
  st_comm : NTSTATUS;
  st_keystore : NTSTATUS;
  st_phantom : NTSTATUS;
  st_image : NTSTATUS;
  st_capture : NTSTATUS;
  st_preserve : NTSTATUS;
  st_ob : NTSTATUS;
  st_filtering : NTSTATUS;
  start_value : option Z;       (* the REG_DWORD named Start, if it can be read *)
  load_key : bool
}.

Definition SERVICE_AUTO_START : Z := 2.

Definition SarDriverIsPostBootStart (env : start_env) : bool :=
  match start_value env with Some start => SERVICE_AUTO_START <=? start | None => false end.

(** A part that is created with status [s]. *)
Definition create (s : NTSTATUS) (r : resource) (g : SAR_GLOBALS) : NTSTATUS * SAR_GLOBALS :=
  if NT_SUCCESS s then (s, created r g) else (s, g).

(** The tails of the error paths of [DriverEntry], each of which ends in the one
    before. *)
Definition undo_state (g : SAR_GLOBALS) : SAR_GLOBALS := destroyed State g.
Definition undo_eventlog (g : SAR_GLOBALS) : SAR_GLOBALS := undo_state (destroyed EventLog g).
Definition undo_filter (g : SAR_GLOBALS) : SAR_GLOBALS :=
  undo_eventlog (set_pointer Filter false (FltUnregisterFilter g)).
Definition undo_notify (g : SAR_GLOBALS) : SAR_GLOBALS := undo_filter (SarProcessNotifyUnregister g).
Definition undo_comm (g : SAR_GLOBALS) : SAR_GLOBALS :=
  undo_notify (set_pointer Comm false (SarCommPortFree (SarCommPortClose g))).
Definition undo_keystore (g : SAR_GLOBALS) : SAR_GLOBALS := undo_comm (destroyed Keystore g).
Definition undo_phantom (g : SAR_GLOBALS) : SAR_GLOBALS :=
  undo_keystore (if phantom g then destroyed PhantomCtx (SarPhantomImageNotifyUnregister g) else g).
Definition undo_capture (g : SAR_GLOBALS) : SAR_GLOBALS := undo_phantom (destroyed CaptureCtx g).
Definition undo_preserve (g : SAR_GLOBALS) : SAR_GLOBALS :=
  undo_capture (if preserve g then destroyed PreserveCtx g else g).

(** Loading the stores and switching the decoys on. *)
Definition load_stores (env : start_env) (g : SAR_GLOBALS) : SAR_GLOBALS :=
  let g := if keystore g then calls [KeystoreLoad] g else g in
  let g := if preserve g then calls [PreserveLoad] g else g in
  if phantom g && keystore g then
    if load_key env then set_posture (set_phantom_active (posture g)) (calls [PhantomActivate] g) else g
  else g.

Definition SarBootReinit (env : start_env) (g : SAR_GLOBALS) : SAR_GLOBALS := load_stores env g.

Definition start_last (env : start_env) (g : SAR_GLOBALS) : SAR_GLOBALS :=
  let g := calls [OsAnchorInit] g in
  if SarDriverIsPostBootStart env then load_stores env g else calls [RegisterBootReinit] g.

(** From [SarPhantomCreate] on. *)
Definition start_engine (env : start_env) (g : SAR_GLOBALS) : NTSTATUS * SAR_GLOBALS :=
  let '(s, g) := create (st_phantom env) PhantomCtx g in
  let g := if NT_SUCCESS s then SarPhantomImageNotifyRegister (st_image env) g else set_pointer PhantomCtx false g in
  let '(s, g) := create (st_capture env) CaptureCtx g in
  if negb (NT_SUCCESS s) then (s, undo_phantom g)
  else
    let '(s, g) := create (st_preserve env) PreserveCtx g in
    let g := if NT_SUCCESS s then set_posture (set_preserve_active (posture g)) g else set_pointer PreserveCtx false g in
    let '(s, g) := SarObGuardRegister (st_ob env) g in
    if negb (NT_SUCCESS s) then (s, undo_preserve g)
    else
      let s := st_filtering env in
      if negb (NT_SUCCESS s) then (s, undo_preserve (SarObGuardUnregister g))
      else (STATUS_SUCCESS, start_last env (calls [Create Filtering] g)).

Definition DriverEntry (env : start_env) : NTSTATUS * SAR_GLOBALS :=
  let g := set_posture (SarBypassIoResolve (features env) (SarFeatureDetect (features env) zero_posture)) zero_globals in
  let '(s, g) := create (st_state env) State g in
  if negb (NT_SUCCESS s) then (s, g)
  else
    let '(s, g) := create (st_eventlog env) EventLog g in
    if negb (NT_SUCCESS s) then (s, undo_state g)
    else
      let '(s, g) := create (st_filter env) Filter g in
      if negb (NT_SUCCESS s) then (s, undo_eventlog g)
      else
        let '(s, g) := SarProcessNotifyRegister (st_ex2 env) (st_ex env) g in
        if negb (NT_SUCCESS s) then (s, undo_filter g)
        else
          let '(s, g) := SarCommPortCreate (st_comm env) g in
          if negb (NT_SUCCESS s) then (s, undo_notify g)
          else
            let '(s, g) := create (st_keystore env) Keystore g in
            if negb (NT_SUCCESS s) then (s, undo_comm g) else start_engine env g.

(** ** Unloading *)

Definition take_away (r : resource) (there : bool) (g : SAR_GLOBALS) : SAR_GLOBALS :=
  if there then destroyed r g else g.

Definition SarFilterUnload (g : SAR_GLOBALS) : NTSTATUS * SAR_GLOBALS :=
  let g := set_unloading g in
  let g := SarObGuardUnregister g in
  let g := SarPhantomImageNotifyUnregister g in
  let g := SarProcessNotifyUnregister g in
  let g := if comm g then SarCommPortClose g else g in
  let g := calls [WaitMmapReads] g in
  let g := if filter g then set_pointer Filter false (FltUnregisterFilter g) else g in
  let g := if comm g then set_pointer Comm false (SarCommPortFree g) else g in
  let g := take_away PhantomCtx (phantom g) g in
  let g := take_away CaptureCtx (capture g) g in
  let g := take_away PreserveCtx (preserve g) g in
  let g := take_away Keystore (keystore g) g in
  let g := take_away EventLog (eventlog g) g in
  let g := take_away State (state g) g in
  (STATUS_SUCCESS, g).

(** The volumes the driver attaches to: [dax] is the flag of the volume when it can
    be asked. *)
Definition SarInstanceSetup (dax : option bool) (fs_refs : option bool) (g : SAR_GLOBALS) : bool * SAR_GLOBALS :=
  match dax with
  | Some true => (false, g)
  | _ => (true, set_posture (SarFeatureDetectDevDrive fs_refs (posture g)) g)
  end.

(** ** What is there, and who uses it *)

Definition live_step (l : list resource) (c : call) : list resource :=
  match c with
  | Create r => r :: l
  | Destroy r => List.filter (fun x => negb (bool_decide (x = r))) l
  | _ => l
  end.

(** The parts there after a trace. *)
Definition live (t : list call) : list resource := foldr (fun c l => live_step l c) [] t.

(** The parts that the code behind a source of calls works with: the handlers of
    requests and their work items, for which unregistering the filter waits, the
    handlers of messages, and the three callbacks. *)
Definition uses (r : resource) : list resource :=
  match r with
  | Filtering => [State; EventLog; Filter; Comm; Keystore; PhantomCtx; CaptureCtx; PreserveCtx]
  | Port => [State; EventLog; Filter; Comm; Keystore; CaptureCtx; PreserveCtx]
  | NotifyEx2 | NotifyEx => [State]
  | ImageNotify | ObGuard => [State; EventLog]
  | _ => []
  end.

Definition in_use (l : list resource) (r : resource) : bool :=
  existsb (fun u => bool_decide (r ∈ uses u)) l.

(** Every part is created once before it is taken away, taken away once, and not
    while something that uses it can run.  A filter may be unregistered before it
    was started. *)
Definition step_ok (l : list resource) (c : call) : bool :=
  match c with
  | Create r => negb (bool_decide (r ∈ l))
  | Destroy r => (bool_decide (r ∈ l) || bool_decide (r = Filtering)) && negb (in_use l r)
  | _ => true
  end.

Fixpoint orderly (t : list call) : bool :=
  match t with
  | [] => true
  | c :: t => orderly t && step_ok (live t) c
  end.

(** The pointer or handle to a part. *)
Definition pointer (g : SAR_GLOBALS) (r : resource) : bool :=
  match r with
  | State => state g
  | EventLog => eventlog g
  | Filter | Filtering => filter g
  | NotifyEx2 => registered_ex2 g
  | NotifyEx => registered_ex g
  | Comm | Port => comm g
  | Keystore => keystore g
  | PhantomCtx => phantom g
  | ImageNotify => image_notify_registered g
  | CaptureCtx => capture g
  | PreserveCtx => preserve g
  | ObGuard => ob_handle g
  end.

Definition all_resources : list resource :=
  [State; EventLog; Filter; Filtering; NotifyEx2; NotifyEx; Comm; Port; Keystore; PhantomCtx; ImageNotify;
   CaptureCtx; PreserveCtx; ObGuard].

(** Pointers and parts agree. *)
Definition consistent (g : SAR_GLOBALS) : bool :=
  forallb (fun r => Bool.eqb (pointer g r) (bool_decide (r ∈ live (trace g)))) all_resources &&
  Bool.eqb (g_sar_state g) (state g).

(** Without one of these the driver does not start. *)
Definition required : list resource := [State; EventLog; Filter; Filtering; Comm; Port; Keystore; CaptureCtx; ObGuard].

Definition running (g : SAR_GLOBALS) : bool :=
  consistent g && forallb (pointer g) required && (registered_ex2 g || registered_ex g).

Definition gone (g : SAR_GLOBALS) : bool :=
  consistent g && bool_decide (live (trace g) = []).

(** Between start and unload: the callback for boot drivers and volumes. *)
Inductive later := Reinit (env : start_env) | Attach (dax fs_refs : option bool).

Definition do_later (g : SAR_GLOBALS) (l : later) : SAR_GLOBALS :=
  match l with
  | Reinit env => SarBootReinit env g
  | Attach dax fs_refs => (SarInstanceSetup dax fs_refs g).2
  end.

(** ** Proofs *)

(** Calls that neither create nor take away. *)
Definition neutral (c : call) : bool := match c with Create _ | Destroy _ => false | _ => true end.

Lemma live_neutral t cs : forallb neutral cs = true -> live (cs ++ t) = live t.
Proof.
  induction cs as [|c cs IH]; [done|]. cbn [forallb]. intros [Hc Hcs]%andb_prop.
  destruct c; try discriminate Hc; exact (IH Hcs).
Qed.

Lemma orderly_neutral t cs : forallb neutral cs = true -> orderly (cs ++ t) = orderly t.
Proof.
  induction cs as [|c cs IH]; [done|]. cbn [forallb]. intros [Hc Hcs]%andb_prop. cbn [app orderly].
  destruct c; try discriminate Hc; cbn [step_ok]; rewrite andb_true_r; exact (IH Hcs).
Qed.

(** A run in which nothing is created or taken away. *)
Definition same_parts (g g' : SAR_GLOBALS) : Prop :=
  live (trace g') = live (trace g) /\ orderly (trace g') = orderly (trace g) /\
  (forall r, pointer g' r = pointer g r) /\ g_sar_state g' = g_sar_state g.

Lemma same_parts_trans a b c : same_parts a b -> same_parts b c -> same_parts a c.
Proof.
  intros (A1 & A2 & A3 & A4) (B1 & B2 & B3 & B4). split_and!; [congruence..| |congruence]. intros r. by rewrite B3, A3.
Qed.

Lemma calls_same cs g : forallb neutral cs = true -> same_parts g (calls cs g).
Proof. intros H. split_and!; [by apply live_neutral|by apply orderly_neutral|by intros []|done]. Qed.

Lemma posture_same p g : same_parts g (set_posture p g).
Proof. split_and!; [done..|by intros []|done]. Qed.

Lemma refl_same g : same_parts g g.
Proof. by split_and!. Qed.

Lemma load_same env g : same_parts g (load_stores env g).
Proof.
  unfold load_stores.
  set (g1 := if keystore g then calls [KeystoreLoad] g else g).
  set (g2 := if preserve g1 then calls [PreserveLoad] g1 else g1).
  assert (H1 : same_parts g g1) by (unfold g1; destruct (keystore g); [by apply calls_same|apply refl_same]).
  assert (H2 : same_parts g1 g2) by (unfold g2; destruct (preserve g1); [by apply calls_same|apply refl_same]).
  apply (same_parts_trans _ g1); [done|]. apply (same_parts_trans _ g2); [done|].
  destruct (phantom g2 && keystore g2), (load_key env); try apply refl_same.
  eapply same_parts_trans; [|apply posture_same]. by apply calls_same.
Qed.

Lemma later_same g ls : same_parts g (fold_left do_later ls g).
Proof.
  revert g. induction ls as [|l ls IH]; intros g; [apply refl_same|]. cbn [fold_left].
  eapply same_parts_trans; [|apply IH]. destruct l as [env|dax refs]; cbn [do_later].
  - apply load_same.
  - destruct dax as [[]|]; cbn; try apply refl_same; apply posture_same.
Qed.

(** The parts of a driver that started, the last one first: which of the two
    process callbacks it has, and whether it has decoys, the image callback and a
    preservation store. *)
Definition started_parts (ex2 ph im pr : bool) : list resource :=
  [Filtering; ObGuard] ++ (if pr then [PreserveCtx] else []) ++ [CaptureCtx] ++ (if im then [ImageNotify] else []) ++
  (if ph then [PhantomCtx] else []) ++ [Keystore; Port; Comm; if ex2 then NotifyEx2 else NotifyEx; Filter; EventLog; State].

Record started (ex2 ph im pr : bool) (g : SAR_GLOBALS) : Prop := {
  sd_live : live (trace g) = started_parts ex2 ph im pr;
  sd_orderly : orderly (trace g) = true;
  sd_pointer r : pointer g r = bool_decide (r ∈ started_parts ex2 ph im pr);
  sd_state : g_sar_state g = true
}.

Lemma started_same ex2 ph im pr g g' : same_parts g g' -> started ex2 ph im pr g -> started ex2 ph im pr g'.
Proof. intros (A & B & C & D) [E F G H]. constructor; [congruence..| |congruence]. intros r. by rewrite C. Qed.

Lemma started_check ex2 ph im pr g :
  bool_decide (live (trace g) = started_parts ex2 ph im pr) && orderly (trace g) && g_sar_state g &&
  forallb (fun r => Bool.eqb (pointer g r) (bool_decide (r ∈ started_parts ex2 ph im pr))) all_resources = true ->
  started ex2 ph im pr g.
Proof.
  intros [[[H1%bool_decide_eq_true H2]%andb_prop H3]%andb_prop H4]%andb_prop. constructor; [done..| |done].
  intros r. rewrite forallb_forall in H4. apply eqb_prop, H4. destruct r; cbn; tauto.
Qed.

(** A driver that started is running. *)
Lemma started_running ex2 ph im pr g : started ex2 ph im pr g -> running g = true.
Proof.
  intros [H1 _ H2 H3]. unfold running, consistent. rewrite H1.
  pose proof (H2 State) as Hs. pose proof (H2 NotifyEx2) as Ha. pose proof (H2 NotifyEx) as Hb. cbn [pointer] in *.
  rewrite H3, Ha, Hb, Hs. cbn [forallb all_resources required]. rewrite !H2. by destruct ex2, ph, im, pr.
Qed.

Lemma gone_check g : live (trace g) = [] -> (forall r, pointer g r = false) -> g_sar_state g = false -> gone g = true.
Proof.
  intros H1 H2 H3. unfold gone, consistent. pose proof (H2 State) as Hs. cbn [pointer] in Hs.
  rewrite H1, H3, Hs. cbn [forallb all_resources]. by rewrite !H2.
Qed.

(** The calls of unloading such a driver. *)
Definition unload_calls (ex2 ph im pr : bool) : list call :=
  [Destroy State; Destroy EventLog; Destroy Keystore] ++ (if pr then [Destroy PreserveCtx] else []) ++
  [Destroy CaptureCtx] ++ (if ph then [Destroy PhantomCtx] else []) ++
  [Destroy Comm; Destroy Filter; Destroy Filtering; WaitMmapReads; Destroy Port;
   Destroy (if ex2 then NotifyEx2 else NotifyEx)] ++ (if im then [Destroy ImageNotify] else []) ++ [Destroy ObGuard].

(** What [live] and [orderly] say depends on the earlier calls through the parts
    that are there. *)
Lemma live_app cs t : live (cs ++ t) = foldr (fun c l => live_step l c) (live t) cs.
Proof. unfold live. apply foldr_app. Qed.

Fixpoint orderly_from (l : list resource) (cs : list call) : bool :=
  match cs with
  | [] => true
  | c :: cs => orderly_from l cs && step_ok (foldr (fun c l => live_step l c) l cs) c
  end.

Lemma orderly_app cs t : orderly (cs ++ t) = orderly t && orderly_from (live t) cs.
Proof.
  induction cs as [|c cs IH]; cbn [app orderly orderly_from]; [by rewrite andb_true_r|].
  by rewrite IH, live_app, andb_assoc.
Qed.

(** Unloading it. *)
Lemma started_unload ex2 ph im pr g : (im = true -> ph = true) -> started ex2 ph im pr g ->
  let g' := (SarFilterUnload g).2 in gone g' = true /\ orderly (trace g') = true.
Proof.
  intros Hi [H1 H2 H3 H4].
  assert (E : trace (SarFilterUnload g).2 = unload_calls ex2 ph im pr ++ trace g /\
              (forall r, pointer (SarFilterUnload g).2 r = false) /\ g_sar_state (SarFilterUnload g).2 = false).
  { pose proof (H3 State) as P1. pose proof (H3 EventLog) as P2. pose proof (H3 Filter) as P3.
    pose proof (H3 NotifyEx2) as P4. pose proof (H3 NotifyEx) as P5. pose proof (H3 Comm) as P6.
    pose proof (H3 Keystore) as P7. pose proof (H3 PhantomCtx) as P8. pose proof (H3 ImageNotify) as P9.
    pose proof (H3 CaptureCtx) as P10. pose proof (H3 PreserveCtx) as P11. pose proof (H3 ObGuard) as P12.
    clear H1 H2 H3. destruct g. cbn [pointer filter state comm keystore capture preserve phantom eventlog g_sar_state
      image_notify_registered registered_ex2 registered_ex ob_handle] in *. subst.
    destruct ex2, ph, im, pr; try (specialize (Hi eq_refl); discriminate Hi); clear Hi;
      (split; [vm_compute; reflexivity|split; [intros []; vm_compute; reflexivity|vm_compute; reflexivity]]). }
  destruct E as (E & P & S). cbv zeta. split.
  - apply gone_check; [|exact P|exact S]. rewrite E, live_app, H1.
    destruct ex2, ph, im, pr; try (specialize (Hi eq_refl); discriminate Hi); vm_compute; reflexivity.
  - rewrite E, orderly_app, H1, H2.
    destruct ex2, ph, im, pr; try (specialize (Hi eq_refl); discriminate Hi); vm_compute; reflexivity.
Qed.

Definition starts_or_gone (r : NTSTATUS * SAR_GLOBALS) : Prop :=
  if NT_SUCCESS r.1 then exists ex2 ph im pr, (im = true -> ph = true) /\ started ex2 ph im pr r.2 else gone r.2 = true.

(** The state in which [start_engine] begins. *)
Definition base (env : start_env) (ex2 : bool) : SAR_GLOBALS :=
  created Keystore (set_pointer Comm true (calls [Create Port; Create Comm]
    (let g := created Filter (created EventLog (created State
       (set_posture (SarBypassIoResolve (features env) (SarFeatureDetect (features env) zero_posture)) zero_globals))) in
     set_posture (set_ex2 ex2 (posture g)) (created (if ex2 then NotifyEx2 else NotifyEx) g)))).

Lemma last_started env ex2 ph im pr g : started ex2 ph im pr (calls [Create Filtering] g) ->
  started ex2 ph im pr (start_last env (calls [Create Filtering] g)).
Proof.
  intros H. unfold start_last. eapply started_same; [|exact H].
  destruct (SarDriverIsPostBootStart env).
  - eapply same_parts_trans; [|apply load_same]. by apply calls_same.
  - eapply same_parts_trans; apply calls_same; done.
Qed.

Lemma engine_starts env ex2 : starts_or_gone (start_engine env (base env ex2)).
Proof.
  unfold start_engine, create, SarObGuardRegister, SarPhantomImageNotifyRegister.
  destruct (NT_SUCCESS (st_phantom env)) eqn:E1; rewrite ?E1;
  destruct (NT_SUCCESS (st_image env)) eqn:E2;
  destruct (NT_SUCCESS (st_capture env)) eqn:E3; rewrite ?E3; cbn [negb];
  try (unfold starts_or_gone; cbn [fst snd]; rewrite E3; destruct ex2; vm_compute; reflexivity);
  destruct (NT_SUCCESS (st_preserve env)) eqn:E4; rewrite ?E4;
  destruct (NT_SUCCESS (st_ob env)) eqn:E5; rewrite ?E5; cbn [negb];
  try (unfold starts_or_gone; cbn [fst snd]; rewrite E5; destruct ex2; vm_compute; reflexivity);
  destruct (NT_SUCCESS (st_filtering env)) eqn:E6; cbn [negb];
  try (unfold starts_or_gone; cbn [fst snd]; rewrite E6; destruct ex2; vm_compute; reflexivity);
  unfold starts_or_gone; cbn [fst snd]; change (NT_SUCCESS STATUS_SUCCESS) with true; cbv iota;
  [exists ex2, true, true, true|exists ex2, true, true, false|exists ex2, true, false, true|
   exists ex2, true, false, false|exists ex2, false, false, true|exists ex2, false, false, false|
   exists ex2, false, false, true|exists ex2, false, false, false];
  (split; [done|]); apply last_started, started_check; destruct ex2; vm_compute; reflexivity.
Qed.

Lemma entry_starts env : starts_or_gone (DriverEntry env).
Proof.
  unfold DriverEntry, create, SarProcessNotifyRegister, SarCommPortCreate.
  destruct (NT_SUCCESS (st_state env)) eqn:E1; rewrite ?E1; cbn [negb];
    [|unfold starts_or_gone; cbn [fst snd]; rewrite E1; vm_compute; reflexivity].
  destruct (NT_SUCCESS (st_eventlog env)) eqn:E2; rewrite ?E2; cbn [negb];
    [|unfold starts_or_gone; cbn [fst snd]; rewrite E2; vm_compute; reflexivity].
  destruct (NT_SUCCESS (st_filter env)) eqn:E3; rewrite ?E3; cbn [negb];
    [|unfold starts_or_gone; cbn [fst snd]; rewrite E3; vm_compute; reflexivity].
  assert (Hport : forall ex2 : bool,
    starts_or_gone
      (let '(s, g) := if NT_SUCCESS (st_comm env) then (st_comm env, set_pointer Comm true (calls [Create Port; Create Comm]
          (let g := created Filter (created EventLog (created State
             (set_posture (SarBypassIoResolve (features env) (SarFeatureDetect (features env) zero_posture)) zero_globals))) in
           set_posture (set_ex2 ex2 (posture g)) (created (if ex2 then NotifyEx2 else NotifyEx) g))))
        else (st_comm env,
          (let g := created Filter (created EventLog (created State
             (set_posture (SarBypassIoResolve (features env) (SarFeatureDetect (features env) zero_posture)) zero_globals))) in
           set_posture (set_ex2 ex2 (posture g)) (created (if ex2 then NotifyEx2 else NotifyEx) g))) in
       if negb (NT_SUCCESS s) then (s, undo_notify g)
       else
         let '(s0, g0) := if NT_SUCCESS (st_keystore env) then (st_keystore env, created Keystore g) else (st_keystore env, g) in
         if negb (NT_SUCCESS s0) then (s0, undo_comm g0) else start_engine env g0)).
  { intros ex2. destruct (NT_SUCCESS (st_comm env)) eqn:E4; rewrite ?E4; cbn [negb];
      [|unfold starts_or_gone; cbn [fst snd]; rewrite E4; destruct ex2; vm_compute; reflexivity].
    destruct (NT_SUCCESS (st_keystore env)) eqn:E5; rewrite ?E5; cbn [negb];
      [|unfold starts_or_gone; cbn [fst snd]; rewrite E5; destruct ex2; vm_compute; reflexivity].
    exact (engine_starts env ex2). }
  assert (Hold : forall s : NTSTATUS, NT_SUCCESS s = false -> starts_or_gone (s, undo_filter (created Filter (created EventLog
    (created State (set_posture (SarBypassIoResolve (features env) (SarFeatureDetect (features env) zero_posture))
       zero_globals)))))).
  { intros s Hs. unfold starts_or_gone; cbn [fst snd]. rewrite Hs. vm_compute. reflexivity. }
  destruct (st_ex2 env) as [x|]; [destruct (NT_SUCCESS x)|]; try exact (Hport true);
    (destruct (NT_SUCCESS (st_ex env)) eqn:E6; rewrite ?E6; cbn [negb]; [exact (Hport false)|exact (Hold _ E6)]).
Qed.

(** Property C31: the driver starts as a whole or not at all, and unloads in
    order.  Whatever call of the start fails, nothing it registered or allocated
    is left and every pointer is cleared; when it succeeds every required part is
    there and the pointers say so, through every later load of the stores and
    every volume; and unloading then takes every part away exactly once and none
    while requests, messages or callbacks that use it can still run. *)
Theorem driver_start_unload env ls :
  let '(status, g) := DriverEntry env in
  if NT_SUCCESS status then
    let g1 := fold_left do_later ls g in
    running g1 = true /\
    let '(s, g2) := SarFilterUnload g1 in
    s = STATUS_SUCCESS /\ gone g2 = true /\ orderly (trace g2) = true
  else gone g = true.
Proof.
  pose proof (entry_starts env) as H. destruct (DriverEntry env) as [status g]. unfold starts_or_gone in H.
  cbn [fst snd] in H. destruct (NT_SUCCESS status); [|exact H]. destruct H as (ex2 & ph & im & pr & Hi & H).
  cbv zeta. pose proof (started_same _ _ _ _ _ _ (later_same g ls) H) as H'.
  split; [exact (started_running _ _ _ _ _ H')|]. pose proof (started_unload _ _ _ _ _ Hi H') as [H1 H2].
  assert (Hs : (SarFilterUnload (fold_left do_later ls g)).1 = STATUS_SUCCESS) by reflexivity.
  destruct (SarFilterUnload (fold_left do_later ls g)) as [s g2]. by split_and!.
Qed.

(** ** Failing in order *)

Definition demo_features : feature_env :=
  {| ci_options := Some 0x400; ium := Some (16, true); tpm_routine := true; os_version := Some (10, 0); veto_routine := true |}.

(** Everything succeeds but the guard on handles. *)
Definition demo_start (ob : NTSTATUS) : start_env :=
  let ok := STATUS_SUCCESS in
  {| features := demo_features; st_state := ok; st_eventlog := ok; st_filter := ok; st_ex2 := Some ok; st_ex := ok;
     st_comm := ok; st_keystore := ok; st_phantom := ok; st_image := ok; st_capture := ok; st_preserve := ok; st_ob := ob;
     st_filtering := ok; start_value := Some 2; load_key := true |}.

(** A start that fails late takes the stores away while the port is open: the
    error paths of [DriverEntry] close the port after the preservation store, the
    capture engine and the keystore are destroyed, so that a message of a
    connected service can meet memory that is being freed.  [SarFilterUnload]
    closes the port first. *)
Theorem failed_start_leaves_port_open :
  let '(status, g) := DriverEntry (demo_start STATUS_ACCESS_DENIED) in
  NT_SUCCESS status = false /\ gone g = true /\ orderly (trace g) = false /\
  exists later earlier, trace g = later ++ Destroy PreserveCtx :: earlier /\ Port ∈ live earlier.
Proof.
  destruct (DriverEntry (demo_start STATUS_ACCESS_DENIED)) as [status g] eqn:E.
  vm_compute in E. injection E as <- <-. split_and!; [reflexivity..|].
  eexists (_ :: _ :: _ :: _ :: _ :: _ :: _ :: _ :: _ :: _ :: _ :: []), _. split; [reflexivity|].
  apply (bool_decide_unpack _). vm_compute. exact I.
Qed.

End Startup.
