(* ===== verification/PortClient.v ===== *)
(** * The service's end of the driver's port

    service/commclient.c: sending a message, sending one and taking the reply,
    receiving, the handshake and the loop that takes notifications.  The port is
    the interface [FilterPort]; the driver of Comm.v, with its replies packed as
    the handlers pack them, is an instance.  The theorems say that what the
    driver answers is what the service reads. *)

From Stdlib Require Import String.
From S2P Require Import Prelude Mem Format Protocol Handshake Whitelist CipherCommon EventLog DriverState Comm Service.
Import Mem Layout Protocol Whitelist DriverState Service.

Module PortClient.

Inductive sar_comm_status_t :=
  | SAR_COMM_OK | SAR_COMM_ERR_CONNECT | SAR_COMM_ERR_KEY | SAR_COMM_ERR_HANDSHAKE | SAR_COMM_ERR_VERSION
  | SAR_COMM_ERR_PROTOCOL | SAR_COMM_ERR_TRANSPORT | SAR_COMM_ERR_STOPPED.

#[global] Instance sar_comm_status_eq_dec : EqDecision sar_comm_status_t.
Proof. solve_decision. Defined.

(** The value of the C enum. *)
Definition comm_code (s : sar_comm_status_t) : Z :=
  match s with
  | SAR_COMM_OK => 0 | SAR_COMM_ERR_CONNECT => 1 | SAR_COMM_ERR_KEY => 2 | SAR_COMM_ERR_HANDSHAKE => 3
  | SAR_COMM_ERR_VERSION => 4 | SAR_COMM_ERR_PROTOCOL => 5 | SAR_COMM_ERR_TRANSPORT => 6 | SAR_COMM_ERR_STOPPED => 7
  end.

(** [FilterSendMessage]: the message and the size of the reply buffer, 0 for none;
    [None] is a failure, otherwise the bytes the other side returned. *)
Class FilterPort (P : Type) := {
  FilterSendMessage : P -> bytes -> Z -> P * option bytes
}.

(** ** The client *)

Section Client.
Context {P : Type} `{!FilterPort P}.

(** [port = None] is [INVALID_HANDLE_VALUE]. *)
Record sar_comm_client_t := {
  port : option P;
  mode : Z;
  captured_key_count : Z
}.

Definition set_port (p : P) (c : sar_comm_client_t) : sar_comm_client_t :=
  {| port := Some p; mode := mode c; captured_key_count := captured_key_count c |}.
Definition set_mode (m : Z) (c : sar_comm_client_t) : sar_comm_client_t :=
  {| port := port c; mode := m; captured_key_count := captured_key_count c |}.

Definition SAR_COMM_RECV_BUFFER : Z := 2048.

Definition sar_comm_send (c : sar_comm_client_t) (message : bytes) : sar_comm_client_t * sar_comm_status_t :=
  match port c with
  | None => (c, SAR_COMM_ERR_TRANSPORT)
  | Some p =>
    let '(p, r) := FilterSendMessage p message 0 in
    (set_port p c, match r with None => SAR_COMM_ERR_TRANSPORT | Some _ => SAR_COMM_OK end)
  end.

(** The reply, or why there is none. *)
Definition checked_reply (returned : bytes) (reply_capacity expected_type : Z) : sar_comm_status_t + bytes :=
  match Msg.sar_msg_validate (Some returned) with
  | (Msg.SAR_MSG_OK, type) =>
    if negb (type =? expected_type) then inl SAR_COMM_ERR_PROTOCOL
    else
      let declared := Msg.sar_msg_expected_length type in
      if (declared =? 0) || (reply_capacity <? declared) then inl SAR_COMM_ERR_PROTOCOL
      else inr (take (Z.to_nat declared) returned)
  | _ => inl SAR_COMM_ERR_PROTOCOL
  end.

Definition sar_comm_send_recv (c : sar_comm_client_t) (message : bytes) (reply_capacity expected_type : Z)
    : sar_comm_client_t * (sar_comm_status_t + bytes) :=
  match port c with
  | None => (c, inl SAR_COMM_ERR_TRANSPORT)
  | Some p =>
    if SAR_COMM_RECV_BUFFER <? reply_capacity then (c, inl SAR_COMM_ERR_PROTOCOL)
    else
      let '(p, r) := FilterSendMessage p message reply_capacity in
      (set_port p c,
       match r with
       | None => inl SAR_COMM_ERR_TRANSPORT
       | Some returned => checked_reply returned reply_capacity expected_type
       end)
  end.

Definition sar_comm_query_status (c : sar_comm_client_t) : sar_comm_client_t * (sar_comm_status_t + bytes) :=
  let query := msg_header_bytes SEMANTICS_AR_MSG_GET_STATUS (csizeof semantics_ar_get_status_t) in
  let '(c, r) := sar_comm_send_recv c query (csizeof semantics_ar_status_reply_t) SEMANTICS_AR_MSG_STATUS_REPLY in
  match r with
  | inl cs => (c, inl cs)
  | inr reply =>
    if negb (msg_uint semantics_ar_status_reply_t "protocol_version" reply =? SEMANTICS_AR_PROTOCOL_VERSION)
    then (c, inl SAR_COMM_ERR_VERSION) else (c, inr reply)
  end.

Definition sar_comm_query_events (c : sar_comm_client_t) (generation sequence : Z)
    : sar_comm_client_t * (sar_comm_status_t + bytes) :=
  let query := msg_header_bytes SEMANTICS_AR_MSG_EVENTS_QUERY (csizeof semantics_ar_events_query_t) ++
               le_bytes 8 generation ++ le_bytes 8 sequence in
  sar_comm_send_recv c query (csizeof semantics_ar_events_reply_t) SEMANTICS_AR_MSG_EVENTS_REPLY.

(** What a received message is made of: [payload] is the whole receive buffer,
    [None] when nothing could be received or the client is stopping. *)
Definition sar_comm_recv_message (payload : option bytes) (stopped : bool) (capacity : Z)
    : sar_comm_status_t + (Z * bytes) :=
  let capacity := if SAR_COMM_RECV_BUFFER <? capacity then SAR_COMM_RECV_BUFFER else capacity in
  match payload with
  | None => inl (if stopped then SAR_COMM_ERR_STOPPED else SAR_COMM_ERR_TRANSPORT)
  | Some payload =>
    if capacity <? csizeof semantics_ar_msg_header_t then inl SAR_COMM_ERR_PROTOCOL
    else
      let mlen := Msg.message_length (Msg.header_of payload) in
      if capacity <? mlen then inl SAR_COMM_ERR_PROTOCOL
      else
        match Msg.sar_msg_validate (Some (take (Z.to_nat mlen) payload)) with
        | (Msg.SAR_MSG_OK, type) =>
          let declared := Msg.sar_msg_expected_length type in
          if (declared =? 0) || (capacity <? declared) then inl SAR_COMM_ERR_PROTOCOL
          else inr (type, take (Z.to_nat declared) payload)
        | _ => inl SAR_COMM_ERR_PROTOCOL
        end
  end.

(** The signature over a nonce, when the key store can make one. *)
Definition sar_comm_sign_nonce (sign : bytes -> option bytes) (nonce : bytes) : option bytes :=
  match sign nonce with
  | Some sig => if (length sig =? 0)%nat || (SEMANTICS_AR_HS_SIG_MAX <? length sig)%nat then None else Some sig
  | None => None
  end.

Definition response_message (sig : bytes) : bytes :=
  msg_header_bytes SEMANTICS_AR_MSG_CONNECT_RESPONSE (csizeof semantics_ar_connect_response_t) ++
  le_bytes 4 (Z.of_nat (length sig)) ++ sig ++ replicate (SEMANTICS_AR_HS_SIG_MAX - length sig) 0.

Definition sar_comm_handshake (c : sar_comm_client_t) (sign : option (bytes -> option bytes)) (payload : option bytes)
    (stopped : bool) : sar_comm_client_t * sar_comm_status_t :=
  match port c, sign with
  | Some _, Some sign =>
    match sar_comm_recv_message payload stopped SAR_COMM_RECV_BUFFER with
    | inl cs => (c, cs)
    | inr (rxtype, rxbuf) =>
      if negb (rxtype =? SEMANTICS_AR_MSG_CONNECT_CHALLENGE) then (c, SAR_COMM_ERR_HANDSHAKE)
      else
        match sar_comm_sign_nonce sign (msg_field semantics_ar_connect_challenge_t "nonce" rxbuf) with
        | None => (c, SAR_COMM_ERR_HANDSHAKE)
        | Some sig =>
          let '(c, cs) := sar_comm_send c (response_message sig) in
          if negb (bool_decide (cs = SAR_COMM_OK)) then (c, cs)
          else
            let '(c, r) := sar_comm_query_status c in
            match r with
            | inl cs => (c, cs)
            | inr reply =>
              ({| port := port c; mode := msg_uint semantics_ar_status_reply_t "mode" reply;
                  captured_key_count := msg_uint semantics_ar_status_reply_t "captured_key_count" reply |}, SAR_COMM_OK)
            end
        end
    end
  | _, _ => (c, SAR_COMM_ERR_HANDSHAKE)
  end.

(** [sar_comm_run]: one entry per round, the payload received and whether the
    client still runs when the round begins and when it looks again; the
    notifications handed to the callback and the result.  [None]: more rounds. *)
Fixpoint sar_comm_run (rounds : list (bool * option bytes * bool * bool)) : list bytes * option sar_comm_status_t :=
  match rounds with
  | [] => ([], None)
  | (running, payload, stopped, running_after) :: rounds =>
    if negb running then ([], Some SAR_COMM_ERR_STOPPED)
    else
      match sar_comm_recv_message payload stopped SAR_COMM_RECV_BUFFER with
      | inl SAR_COMM_ERR_TRANSPORT =>
        ([], Some (if running_after then SAR_COMM_ERR_TRANSPORT else SAR_COMM_ERR_STOPPED))
      | inl _ => sar_comm_run rounds
      | inr (rxtype, rxbuf) =>
        let '(seen, r) := sar_comm_run rounds in
        (if rxtype =? SEMANTICS_AR_MSG_VERDICT_NOTIFY then rxbuf :: seen else seen, r)
      end
  end.

End Client.

Arguments sar_comm_client_t P : clear implicits.

(** ** The driver's replies as bytes *)

Definition bool_bytes (b : bool) : bytes := le_bytes 4 (if b then 1 else 0).

Definition id_state_code (s : sar_id_state_t) : Z :=
  match s with SAR_IDSTATE_OBSERVE_PENDING => 0 | SAR_IDSTATE_OBSERVE => 1 | SAR_IDSTATE_EXEMPT => 2 end.

(** An entry that is not there is zero. *)
Definition entry_bytes (t : ctype) (e : option bytes) : bytes := default (replicate (Z.to_nat (csizeof t)) 0) e.

Definition page_bytes (t : ctype) (index total : Z) (e : option bytes) : bytes :=
  le_bytes 4 0 ++ le_bytes 4 total ++ le_bytes 4 index ++ bool_bytes (bool_decide (e <> None)) ++ entry_bytes t e.

Definition reply_type (r : Comm.reply) : Z :=
  match r with
  | Comm.StatusReply _ _ _ _ _ => SEMANTICS_AR_MSG_STATUS_REPLY
  | Comm.ProcessReply _ _ _ => SEMANTICS_AR_MSG_PROCESS_REPLY
  | Comm.RecoveryResult type _ _ => type
  | Comm.CatalogReply _ _ _ => SEMANTICS_AR_MSG_CATALOG_REPLY
  | Comm.PreserveReply _ _ _ => SEMANTICS_AR_MSG_PRESERVE_REPLY
  | Comm.EventsReply _ _ _ => SEMANTICS_AR_MSG_EVENTS_REPLY
  | Comm.WhitelistReply _ _ _ => SEMANTICS_AR_MSG_WHITELIST_REPLY
  end.

Definition reply_body (r : Comm.reply) : bytes :=
  match r with
  | Comm.StatusReply mode keys st inflight halt =>
    le_bytes 4 0 ++ le_bytes 4 SEMANTICS_AR_PROTOCOL_VERSION ++ le_bytes 4 mode ++ le_bytes 8 keys ++
    le_bytes 8 (capacity_bytes st) ++ le_bytes 8 (used_bytes st) ++ le_bytes 8 (retention_100ns st) ++
    le_bytes 8 (oldest_protected_time st) ++ le_bytes 4 (protected_count st) ++ le_bytes 4 (probation_count st) ++
    le_bytes 8 inflight ++ bool_bytes halt
  | Comm.ProcessReply valid key st => bool_bytes valid ++ le_bytes 4 (id_state_code st) ++ le_bytes 8 key
  | Comm.RecoveryResult _ status n => le_bytes 4 (u32 status) ++ le_bytes 8 n
  | Comm.CatalogReply index total e => page_bytes semantics_ar_catalog_entry_t index total e
  | Comm.PreserveReply index total e => page_bytes semantics_ar_preserve_entry_t index total e
  | Comm.EventsReply valid gap r =>
    le_bytes 4 0 ++ bool_bytes valid ++ bool_bytes gap ++ le_bytes 4 (EventLog.event_class r) ++
    le_bytes 8 (EventLog.ev_generation r) ++ le_bytes 8 (EventLog.sequence r) ++
    le_bytes 8 (EventLog.timestamp_100ns r) ++ le_bytes 8 (EventLog.actor_start_key r)
  | Comm.WhitelistReply index total e =>
    page_bytes semantics_ar_whitelist_entry_t index total
      ((fun '(id, first) => identity_bytes id ++ le_bytes 8 first) <$> e)
  end.

Definition reply_bytes (r : Comm.reply) : bytes :=
  msg_header_bytes (reply_type r) (Comm.reply_size r) ++ reply_body r.

(** ** The driver behind the port *)

Section Driver.
Context {E : Type} `{!Services E} (precise now : Z).

Record driver_port := { dp_comm : Comm.SAR_COMM; dp_driver : Comm.globals (E := E) }.

(** A message runs the driver's callback; a status that is not a success fails the
    call of the service. *)
Definition driver_filter_port : FilterPort driver_port := {|
  FilterSendMessage d message capacity :=
    let out := if capacity =? 0 then None else Some capacity in
    let '(status, reply, c, g) := Comm.SarCommMessageNotify (dp_comm d) (dp_driver d) precise now (Some message) out in
    ({| dp_comm := c; dp_driver := g |},
     if NT_SUCCESS status then Some (default [] (reply_bytes <$> reply)) else None)
|}.

End Driver.

(** ** What arrives *)

Definition entry_ok (t : ctype) (e : option bytes) : Prop := from_option (fun b => Z.of_nat (length b) = csizeof t) True e.

(** The entries of a reply have the size of their type. *)
Definition reply_ok (r : Comm.reply) : Prop :=
  match r with
  | Comm.RecoveryResult type _ _ => type = SEMANTICS_AR_MSG_RECOVERY_RESULT \/ type = SEMANTICS_AR_MSG_PRESERVE_RESULT
  | Comm.CatalogReply _ _ e => entry_ok semantics_ar_catalog_entry_t e
  | Comm.PreserveReply _ _ e => entry_ok semantics_ar_preserve_entry_t e
  | Comm.WhitelistReply _ _ e => from_option (fun p => id_full p.1) True e
  | _ => True
  end.

Lemma length_entry_bytes t e : 0 <= csizeof t -> entry_ok t e -> Z.of_nat (length (entry_bytes t e)) = csizeof t.
Proof. intros Ht. destruct e as [b|]; [done|]. intros _. cbn [entry_bytes default]. rewrite length_replicate. lia. Qed.

Lemma length_page_bytes t index total e : 0 <= csizeof t -> entry_ok t e ->
  Z.of_nat (length (page_bytes t index total e)) = 16 + csizeof t.
Proof.
  intros Ht He. pose proof (length_entry_bytes t e Ht He) as Hl.
  unfold page_bytes, bool_bytes. rewrite !length_app, !length_le_bytes. lia.
Qed.

Lemma length_reply_body r : reply_ok r -> Z.of_nat (length (reply_body r)) = Msg.sar_msg_expected_length (reply_type r) - 12.
Proof.
  destruct r as [| |ty| | | |index total e]; intros H; try (cbn [reply_body]; unfold bool_bytes;
    rewrite ?length_app, ?length_le_bytes; vm_compute; reflexivity).
  - destruct H as [-> | ->]; cbn [reply_body]; rewrite length_app, !length_le_bytes; vm_compute; reflexivity.
  - cbn [reply_body]. rewrite length_page_bytes by (by vm_compute). vm_compute. reflexivity.
  - cbn [reply_body]. rewrite length_page_bytes by (by vm_compute). vm_compute. reflexivity.
  - cbn [reply_body]. rewrite length_page_bytes; [vm_compute; reflexivity|by vm_compute|].
    destruct e as [[id first]|]; [|done]. cbn [entry_ok fmap option_fmap option_map from_option].
    rewrite length_app, (length_identity_bytes id H), length_le_bytes. vm_compute. reflexivity.
Qed.

Lemma reply_size_eq r : reply_ok r -> Comm.reply_size r = Msg.sar_msg_expected_length (reply_type r) /\
  Msg.known_type (reply_type r) /\ 0 < Comm.reply_size r <= SAR_COMM_RECV_BUFFER.
Proof. destruct r; cbn [reply_ok]; try (intros _; by vm_compute). intros [-> | ->]; by vm_compute. Qed.

Lemma reply_message r : reply_ok r -> reply_bytes r = Msg.make_message (reply_type r) (reply_body r).
Proof.
  intros H. destruct (reply_size_eq r H) as (Hs & Hk & Hb). unfold reply_bytes, msg_header_bytes, Msg.make_message.
  rewrite <- Hs, u32_small by (unfold is_u, SAR_COMM_RECV_BUFFER in *; lia). by rewrite <- !app_assoc.
Qed.

(** The service accepts every reply of the driver as what it is. *)
Lemma reply_checked r : reply_ok r -> checked_reply (reply_bytes r) (Comm.reply_size r) (reply_type r) = inr (reply_bytes r).
Proof.
  intros H. destruct (reply_size_eq r H) as (Hs & Hk & Hb). pose proof (length_reply_body r H) as Hl.
  unfold checked_reply. rewrite reply_message by done. rewrite Msg.msg_make_validate by done.
  rewrite Z.eqb_refl. cbn [negb]. rewrite <- Hs, (proj2 (Z.eqb_neq _ _)), Z.ltb_irrefl by lia. cbn [orb].
  rewrite take_ge; [done|]. unfold Msg.make_message. rewrite !length_app, !length_le_bytes. lia.
Qed.

Section Exchange.
Context {E : Type} `{!Services E} (precise now : Z).
Context (cl : sar_comm_client_t (driver_port (E := E))) (c : Comm.SAR_COMM) (g : Comm.globals (E := E)).
Hypothesis Hport : port cl = Some {| dp_comm := c; dp_driver := g |}.

(** Sending a message and taking the reply, when the driver answers. *)
Lemma exchange msg r c' g' : reply_ok r ->
  Comm.SarCommMessageNotify c g precise now (Some msg) (Some (Comm.reply_size r)) = (STATUS_SUCCESS, Some r, c', g') ->
  sar_comm_send_recv (FilterPort0 := driver_filter_port precise now) cl msg (Comm.reply_size r) (reply_type r) =
    (set_port {| dp_comm := c'; dp_driver := g' |} cl, inr (reply_bytes r)).
Proof using Hport.
  intros Hr Hm. destruct (reply_size_eq r Hr) as (_ & _ & Hb). unfold sar_comm_send_recv. rewrite Hport.
  rewrite (proj2 (Z.ltb_ge _ _)) by lia. cbn [FilterSendMessage driver_filter_port dp_comm dp_driver].
  rewrite (proj2 (Z.eqb_neq _ _)) by lia. rewrite Hm. change (NT_SUCCESS STATUS_SUCCESS) with true.
  cbv iota. change (default [] (reply_bytes <$> Some r)) with (reply_bytes r). by rewrite (reply_checked r Hr).
Qed.

Hypothesis Hauth : Handshake.sar_handshake_authenticated (Comm.handshake c) = true.

Lemma replying_open size k n : size <= n -> Comm.replying c g (Some n) size k = k.
Proof using Hauth.
  intros Hn. unfold Comm.replying, Comm.guarded. rewrite Hauth. cbn [negb]. by rewrite (proj2 (Z.ltb_ge _ _) Hn).
Qed.

(** A query for an index. *)
Definition index_query (ty : Z) (size index : Z) : bytes := msg_header_bytes ty size ++ le_bytes 4 index.

Lemma catalog_answer index : is_u32 index ->
  Comm.SarCommMessageNotify c g precise now
    (Some (index_query SEMANTICS_AR_MSG_CATALOG_QUERY (csizeof semantics_ar_catalog_query_t) index))
    (Some (csizeof semantics_ar_catalog_reply_t)) =
  (STATUS_SUCCESS, Some (let '(total, entry) := default (0, None) (SarKeystoreProject (Comm.g_services g) index) in
     Comm.CatalogReply index (u32 total) entry), c, g).
Proof using Hauth.
  intros Hi. change (index_query _ _ index) with (Msg.make_message SEMANTICS_AR_MSG_CATALOG_QUERY (le_bytes 4 index)).
  unfold Comm.SarCommMessageNotify. rewrite Msg.msg_make_validate; [|by vm_compute|done].
  rewrite bool_decide_eq_true_2 by done. cbn [negb]. repeat next_case SEMANTICS_AR_MSG_CATALOG_QUERY. cbv iota.
  unfold Comm.SarHandleCatalogQuery. rewrite replying_open by lia.
  assert (Hf : msg_uint semantics_ar_catalog_query_t "index"
    (Msg.make_message SEMANTICS_AR_MSG_CATALOG_QUERY (le_bytes 4 index)) = index).
  { change (le_val (le_bytes 4 index) = index). by apply le_val_le_bytes. }
  rewrite Hf. by destruct (default _ _) as [total entry].
Qed.

Lemma events_answer gen seq : is_u64 gen -> is_u64 seq ->
  Comm.SarCommMessageNotify c g precise now
    (Some (msg_header_bytes SEMANTICS_AR_MSG_EVENTS_QUERY (csizeof semantics_ar_events_query_t) ++
           le_bytes 8 gen ++ le_bytes 8 seq))
    (Some (csizeof semantics_ar_events_reply_t)) =
  (STATUS_SUCCESS, Some (let '(record, valid, gap) := EventLog.SarEventLogQuery (Comm.g_eventlog g) gen seq in
     Comm.EventsReply valid gap (if valid then record else EventLog.zero_record)), c, g).
Proof using Hauth.
  intros Hg Hs.
  change (msg_header_bytes _ _ ++ _) with
    (Msg.make_message SEMANTICS_AR_MSG_EVENTS_QUERY (le_bytes 8 gen ++ le_bytes 8 seq)).
  unfold Comm.SarCommMessageNotify. rewrite Msg.msg_make_validate; [|by vm_compute|done].
  rewrite bool_decide_eq_true_2 by done. cbn [negb]. repeat next_case SEMANTICS_AR_MSG_EVENTS_QUERY. cbv iota.
  unfold Comm.SarHandleEventsQuery. rewrite replying_open by lia.
  set (m := Msg.make_message _ _).
  assert (H1 : msg_uint semantics_ar_events_query_t "generation" m = gen).
  { change (le_val (le_bytes 8 gen) = gen). by apply le_val_le_bytes. }
  assert (H2 : msg_uint semantics_ar_events_query_t "sequence" m = seq).
  { change (le_val (le_bytes 8 seq) = seq). by apply le_val_le_bytes. }
  rewrite H1, H2. by destruct (EventLog.SarEventLogQuery _ _ _) as [[record valid] gap].
Qed.

End Exchange.

End PortClient.
