(* ===== verification/Attrib.v ===== *)
(** * Identities of programs in the service

    service/identity.c (what identifies an image: its path, the subject of its
    signature and its content hash) and service/attrib.c (the two tables that give
    the programs behind preserved regions an identity).  The answers of the system
    about a file are a record; each critical section is one step. *)

From S2P Require Import Prelude Mem Format Protocol Whitelist CipherCommon Service.
Import Mem Layout Protocol Whitelist Service.

Module Attrib.

(** ** Identities *)

(** A wide string up to its terminator. *)
Fixpoint until_nul (l : list Z) : list Z :=
  match l with
  | [] => []
  | x :: l => if x =? 0 then [] else x :: until_nul l
  end.

(** [sar_copy_wide] into a cleared array of [cap] elements. *)
Definition sar_copy_wide (cap : nat) (src : list Z) : list Z :=
  let s := until_nul (take (cap - 1) src) in s ++ replicate (cap - length s) 0.

(** Opening the file, the hash of its content, the verdict on its signature and the
    name in the certificate. *)
Record file_answers := {
  fa_open : bool;
  fa_hash : option bytes;
  fa_trusted : bool;
  fa_subject : option (list Z)
}.

#[global] Instance verdict_eq_dec : EqDecision sar_identity_verdict_t.
Proof. solve_decision. Defined.

(** The value of the C enum. *)
Definition verdict_code (v : sar_identity_verdict_t) : Z :=
  match v with
  | SAR_IDENTITY_VERDICT_VERIFIED => 0 | SAR_IDENTITY_VERDICT_UNSIGNED => 1 | SAR_IDENTITY_VERDICT_HASH_FAILED => 2
  | SAR_IDENTITY_VERDICT_PATH_FAILED => 3 | SAR_IDENTITY_VERDICT_ERROR => 4
  end.

Definition sar_identity_eval_t : Type := sar_identity_verdict_t * sar_identity_t.

Definition identity_with (path hash subject : list Z) : sar_identity_t :=
  {| image_path := path; cert_subject := subject; content_hash := hash |}.

Definition no_subject : list Z := replicate SEMANTICS_AR_PROTO_SUBJECT_MAX 0.
Definition no_hash : bytes := replicate SEMANTICS_AR_CONTENT_HASH_SIZE 0.

Definition sar_identity_evaluate (fa : file_answers) (path : list Z) : sar_identity_eval_t :=
  let p := sar_copy_wide SEMANTICS_AR_PROTO_PATH_MAX path in
  if negb (fa_open fa) then (SAR_IDENTITY_VERDICT_PATH_FAILED, identity_with p no_hash no_subject)
  else
    match fa_hash fa with
    | None => (SAR_IDENTITY_VERDICT_HASH_FAILED, identity_with p no_hash no_subject)
    | Some h =>
      if negb (fa_trusted fa) then (SAR_IDENTITY_VERDICT_UNSIGNED, identity_with p h no_subject)
      else
        match fa_subject fa with
        | None => (SAR_IDENTITY_VERDICT_UNSIGNED, identity_with p h no_subject)
        | Some name =>
          (SAR_IDENTITY_VERDICT_VERIFIED, identity_with p h (sar_copy_wide SEMANTICS_AR_PROTO_SUBJECT_MAX name))
        end
    end.

(** ** The tables *)

Definition SAR_ATTRIB_MAX : nat := 512.

Record sar_attrib_app_t := { app_id : Z; app_eval : sar_identity_eval_t }.

Record sar_attrib_path_t := { nt_path : list Z; last_write : Z; file_size : Z; path_id : Z }.

(** A slot that is not used is [None]. *)
Record attrib_tables := {
  g_apps : list (option sar_attrib_app_t);
  g_paths : list (option sar_attrib_path_t)
}.

Definition sar_attrib_init : attrib_tables :=
  {| g_apps := replicate SAR_ATTRIB_MAX None; g_paths := replicate SAR_ATTRIB_MAX None |}.

Definition fnv_step (h c : Z) : Z := u64 (Z.lxor h c * 1099511628211).

Definition sar_attrib_fnv (s : list Z) : Z :=
  fold_left fnv_step (until_nul (take SEMANTICS_AR_PROTO_PATH_MAX s)) 1469598103934665603.

Definition sar_attrib_hash_id (hash : bytes) : Z := le_val (take 8 hash).

Definition is_app (id : Z) (s : option sar_attrib_app_t) : bool :=
  match s with Some a => app_id a =? id | None => false end.
Definition is_path (nt : list Z) (s : option sar_attrib_path_t) : bool :=
  match s with Some p => bytes_eqb (nt_path p) nt | None => false end.
Definition is_free {A} (s : option A) : bool := match s with None => true | Some _ => false end.

(** The index of the first slot with [f]. *)
Fixpoint first_slot {A} (f : A -> bool) (l : list A) : option nat :=
  match l with
  | [] => None
  | x :: l => if f x then Some 0%nat else S <$> first_slot f l
  end.

(** The slot an upsert takes: one that matches, a free one, or the one the number
    [h] falls on. *)
Definition upsert_slot {A} (f : option A -> bool) (h : Z) (l : list (option A)) : nat :=
  match first_slot f l with
  | Some i => i
  | None => default (Z.to_nat (h mod Z.of_nat SAR_ATTRIB_MAX)) (first_slot is_free l)
  end.

Definition sar_attrib_upsert_app (id : Z) (ev : sar_identity_eval_t) (l : list (option sar_attrib_app_t))
    : list (option sar_attrib_app_t) :=
  <[upsert_slot (is_app id) id l := Some {| app_id := id; app_eval := ev |}]> l.

Definition sar_attrib_upsert_path (nt : list Z) (lw sz id : Z) (l : list (option sar_attrib_path_t))
    : list (option sar_attrib_path_t) :=
  <[upsert_slot (is_path nt) (sar_attrib_fnv nt) l :=
      Some {| nt_path := nt; last_write := lw; file_size := sz; path_id := id |}]> l.

Definition sar_attrib_app_exists (id : Z) (l : list (option sar_attrib_app_t)) : bool := existsb (is_app id) l.

(** ** Paths *)

Section Paths.
(** The case folding of [_wcsnicmp] and the device behind a drive letter, if there
    is one. *)
Context (fold_case : Z -> Z) (QueryDosDevice : Z -> option (list Z)).

(** [_wcsnicmp(nt, dev, wcslen(dev)) == 0 && (nt[dl] == '\\' || nt[dl] == 0)] *)
Definition under_device (nt dev : list Z) : bool :=
  bytes_eqb (fold_case <$> take (length dev) nt) (fold_case <$> dev) &&
  match nt !! length dev with Some c => c =? 92 | None => true end.

Fixpoint drive_of (nt : list Z) (letters : list Z) : option (Z * list Z) :=
  match letters with
  | [] => None
  | c :: letters =>
    match QueryDosDevice c with
    | Some dev => if under_device nt dev then Some (c, drop (length dev) nt) else drive_of nt letters
    | None => drive_of nt letters
    end
  end.

(** \\?\GLOBALROOT *)
Definition globalroot : list Z := [92; 92; 63; 92; 71; 76; 79; 66; 65; 76; 82; 79; 79; 84].

(** The letters A to Z. *)
Definition letters : list Z := Z.of_nat <$> seq 65 26.

Definition sar_attrib_nt_to_win32 (nt : list Z) (cap : nat) : list Z :=
  take (cap - 1)
    match drive_of nt letters with
    | Some (c, rest) => c :: 58 :: rest
    | None => globalroot ++ nt
    end.

(** The last write time and the size of a file, if it can be asked, and the answers
    about its identity. *)
Context (GetFileAttributesEx : list Z -> option (Z * Z)) (files : list Z -> file_answers).

(** The identity in the path table, when it is still that of the file. *)
Definition known_path (t : attrib_tables) (nt : list Z) (stat : option (Z * Z)) : option Z :=
  match first_slot (is_path nt) (g_paths t) with
  | Some i =>
    match g_paths t !! i, stat with
    | Some (Some p), Some (lw, sz) =>
      if (last_write p =? lw) && (file_size p =? sz) && sar_attrib_app_exists (path_id p) (g_apps t)
      then Some (path_id p) else None
    | _, _ => None
    end
  | None => None
  end.

(** [nt_image_path] is the array of the reply; the identity and the tables. *)
Definition sar_attrib_resolve (t : attrib_tables) (nt_image_path : list Z) : Z * attrib_tables :=
  if bool_decide (until_nul nt_image_path = []) then (0, t)
  else
    let win32 := sar_attrib_nt_to_win32 (until_nul nt_image_path) (SEMANTICS_AR_PROTO_PATH_MAX + 32) in
    let stat := GetFileAttributesEx win32 in
    match known_path t nt_image_path stat with
    | Some id => (id, t)
    | None =>
      let ev := sar_identity_evaluate (files win32) win32 in
      let hash_id := sar_attrib_hash_id (content_hash ev.2) in
      let id := if negb (hash_id =? 0) then hash_id else Z.lor (sar_attrib_fnv nt_image_path) 1 in
      let apps := sar_attrib_upsert_app id ev (g_apps t) in
      let '(lw, sz) := default (0, 0) stat in
      (id, {| g_apps := apps;
              g_paths := if negb (hash_id =? 0)
                         then sar_attrib_upsert_path nt_image_path lw sz id (g_paths t) else g_paths t |})
    end.

End Paths.

Definition sar_attrib_count (t : attrib_tables) : Z := Z.of_nat (length (omap id (g_apps t))).

(** The entry of the list of identities. *)
Record sar_app_identity_entry_t := { ai_id : Z; ai_identity : sar_identity_t; ai_verdict : Z }.

Definition sar_attrib_enumerate (t : attrib_tables) (index : Z) : option sar_app_identity_entry_t :=
  (fun a => {| ai_id := app_id a; ai_identity := (app_eval a).2; ai_verdict := verdict_code (app_eval a).1 |}) <$>
  omap id (g_apps t) !! Z.to_nat index.

(** ** The tables stay tables *)

(** Every slot counts, and no identity is there twice. *)
Record tables_ok (t : attrib_tables) : Prop := {
  to_apps : length (g_apps t) = SAR_ATTRIB_MAX;
  to_paths : length (g_paths t) = SAR_ATTRIB_MAX;
  to_distinct : NoDup (app_id <$> omap id (g_apps t))
}.

Lemma first_slot_Some {A} (f : A -> bool) l i : first_slot f l = Some i ->
  exists x, l !! i = Some x /\ f x = true.
Proof.
  revert i. induction l as [|x l IH]; intros i; [done|]. cbn [first_slot]. destruct (f x) eqn:E.
  - intros [= <-]. by exists x.
  - destruct (first_slot f l) as [j|]; [|done]. intros [= <-]. by apply IH.
Qed.

Lemma first_slot_None {A} (f : A -> bool) l : first_slot f l = None -> Forall (fun x => f x = false) l.
Proof.
  induction l as [|x l IH]; [done|]. cbn [first_slot]. destruct (f x) eqn:E; [done|].
  destruct (first_slot f l); [done|]. intros _. constructor; [done|]. by apply IH.
Qed.

Lemma upsert_slot_lt {A} (f : option A -> bool) h l : length l = SAR_ATTRIB_MAX -> (upsert_slot f h l < SAR_ATTRIB_MAX)%nat.
Proof.
  intros Hl. unfold upsert_slot. destruct (first_slot f l) as [i|] eqn:E.
  { apply first_slot_Some in E as (x & E & _). apply lookup_lt_Some in E. lia. }
  destruct (first_slot is_free l) as [j|] eqn:E2; unfold default, from_option, id.
  { apply first_slot_Some in E2 as (x & E2 & _). apply lookup_lt_Some in E2. lia. }
  pose proof (Z.mod_pos_bound h (Z.of_nat SAR_ATTRIB_MAX) ltac:(unfold SAR_ATTRIB_MAX; lia)).
  unfold SAR_ATTRIB_MAX in *. lia.
Qed.

(** An upsert replaces the slot of the identity or one without it. *)
Lemma upsert_app_distinct ident ev l : length l = SAR_ATTRIB_MAX -> NoDup (app_id <$> omap id l) ->
  NoDup (app_id <$> omap id (sar_attrib_upsert_app ident ev l)).
Proof.
  intros Hl Hd. unfold sar_attrib_upsert_app.
  pose proof (upsert_slot_lt (is_app ident) ident l Hl) as Hi. rewrite <- Hl in Hi.
  destruct (lookup_lt_is_Some_2 _ _ Hi) as [x Hx]. set (i := upsert_slot _ _ _) in *.
  rewrite (insert_take_drop _ _ _ Hi). rewrite <- (take_drop_middle _ _ _ Hx) in Hd.
  rewrite omap_app in *. cbn [omap list_omap id] in *. rewrite !fmap_app in *.
  assert (Hid : forall a, Some a ∈ l -> app_id a = ident -> x = Some a \/ (exists b, x = Some b /\ app_id b = ident)).
  { intros a Ha He. right. unfold i, upsert_slot in Hx. destruct (first_slot (is_app ident) l) as [j|] eqn:E.
    - apply first_slot_Some in E as (y & Ey & Fy). rewrite Hx in Ey. injection Ey as <-.
      destruct x as [b|]; [|done]. exists b. split; [done|]. by apply Z.eqb_eq.
    - apply first_slot_None in E. rewrite Forall_forall in E. specialize (E _ Ha). cbn in E. by apply Z.eqb_neq in E. }
  assert (Hrest : forall s : list (option sar_attrib_app_t), ident ∈ app_id <$> omap id s -> (forall y, y ∈ s -> y ∈ l) ->
    exists b, x = Some b /\ app_id b = ident).
  { intros s (a & Ea & Ha)%list_elem_of_fmap Hs. apply list_elem_of_omap in Ha as (y & Hy & Ey). cbn in Ey. subst y.
    destruct (Hid a (Hs _ Hy)) as [-> | H]; [by symmetry|by exists a|done]. }
  assert (Ht : forall y, y ∈ take i l -> y ∈ l) by (intros y Hy; rewrite <- (take_drop i l); apply elem_of_app; by left).
  assert (Hdr : forall y, y ∈ drop (S i) l -> y ∈ l) by (intros y Hy; rewrite <- (take_drop (S i) l); apply elem_of_app; by right).
  destruct x as [b|]; cbn [fmap list_fmap app_id app] in *.
  - destruct (decide (app_id b = ident)) as [<-|Hne]; [exact Hd|].
    apply NoDup_app in Hd as (D1 & D2 & D3). apply NoDup_cons in D3 as [D3 D4].
    apply NoDup_app. split_and!; [done| |].
    + intros y Hy. rewrite not_elem_of_cons. split; [|intros Hc; apply (D2 _ Hy); by right].
      intros ->. destruct (Hrest _ Hy Ht) as (b' & [= <-] & He). done.
    + apply NoDup_cons. split; [|done]. intros Hc. destruct (Hrest _ Hc Hdr) as (b' & [= <-] & He). done.
  - apply NoDup_app in Hd as (D1 & D2 & D3). apply NoDup_app. split_and!; [done| |].
    + intros y Hy. rewrite not_elem_of_cons. split; [|by apply D2].
      intros ->. by destruct (Hrest _ Hy Ht) as (b' & ? & _).
    + apply NoDup_cons. split; [|done]. intros Hc. by destruct (Hrest _ Hc Hdr) as (b' & ? & _).
Qed.

Lemma app_listed t a : Some a ∈ g_apps t ->
  exists index e, 0 <= index < sar_attrib_count t /\ sar_attrib_enumerate t index = Some e /\ ai_id e = app_id a.
Proof.
  intros Ha. assert (H : a ∈ omap id (g_apps t)) by (apply list_elem_of_omap; by exists (Some a)).
  apply list_elem_of_lookup in H as [i Hi]. exists (Z.of_nat i). eexists. unfold sar_attrib_count, sar_attrib_enumerate.
  rewrite Nat2Z.id, Hi. split; [|by split]. apply lookup_lt_Some in Hi. lia.
Qed.

Section Resolve.
Context (fold_case : Z -> Z) (QueryDosDevice : Z -> option (list Z)).
Context (GetFileAttributesEx : list Z -> option (Z * Z)) (files : list Z -> file_answers).

(** The identity of an image is one of the list.  For every image path
    [sar_attrib_resolve] keeps both tables at their size and every identity in the
    table once, and the identity it returns is the identity of an entry that
    [sar_attrib_enumerate] lists. *)
Theorem attrib_resolve_listed t nt : tables_ok t -> until_nul nt <> [] ->
  let '(ident, t') := sar_attrib_resolve fold_case QueryDosDevice GetFileAttributesEx files t nt in
  tables_ok t' /\
  exists index e, 0 <= index < sar_attrib_count t' /\ sar_attrib_enumerate t' index = Some e /\ ai_id e = ident.
Proof.
  intros [H1 H2 H3] Hn. unfold sar_attrib_resolve. rewrite bool_decide_eq_false_2 by done.
  set (win32 := sar_attrib_nt_to_win32 _ _ _ _). set (stat := GetFileAttributesEx win32).
  destruct (known_path t nt stat) as [ident|] eqn:Ek.
  - split; [by constructor|]. unfold known_path in Ek. destruct (first_slot _ _) as [i|]; [|done].
    destruct (g_paths t !! i) as [[p|]|]; [|done|done]. destruct stat as [[lw sz]|]; [|done].
    destruct (_ && _) eqn:Ex; [|done]. injection Ek as <-. apply andb_prop in Ex as [_ Ex].
    unfold sar_attrib_app_exists in Ex. apply existsb_exists in Ex as (s & Hs & Hx). destruct s as [a|]; [|done].
    apply Z.eqb_eq in Hx. rewrite <- Hx. apply app_listed. by apply list_elem_of_In.
  - set (ev := sar_identity_evaluate _ _). set (hash_id := sar_attrib_hash_id _).
    set (ident := if negb _ then _ else _). destruct (default (0, 0) stat) as [lw sz].
    pose proof (upsert_slot_lt (is_app ident) ident (g_apps t) H1) as Hi. split.
    + constructor; cbn [g_apps g_paths].
      * unfold sar_attrib_upsert_app. by rewrite length_insert.
      * destruct (negb _); [|done]. unfold sar_attrib_upsert_path. by rewrite length_insert.
      * by apply upsert_app_distinct.
    + apply (app_listed _ {| app_id := ident; app_eval := ev |}). cbn [g_apps]. unfold sar_attrib_upsert_app.
      apply list_elem_of_lookup. eexists. rewrite list_lookup_insert_eq by (by rewrite H1). done.
Qed.
End Resolve.

End Attrib.
