(* ===== verification/Control.v ===== *)
(** * The service's commands

    service/control.c: the dispatcher of commands, who may give them, the posture
    frames and the stream of events, and service/posture.c.  Everything the
    commands send to the driver goes through the port of PortClient.v.  A command
    runs under a lock and is one step; the answers of the system are parameters of
    the section, and so are the two recovery requests, which DriverRecovery.v
    models. *)

From Stdlib Require Import String.
From S2P Require Import Prelude Mem Format Protocol Whitelist CipherCommon EventLog DriverState Comm Service PortClient Attrib.
Import Mem Layout Protocol Whitelist Interpreter Service PortClient Attrib.

Module Control.

Definition SAR_CTL_OP_SET_MODE : Z := 1.
Definition SAR_CTL_OP_RECOVER : Z := 4.
Definition SAR_CTL_OP_LIST : Z := 5.
Definition SAR_CTL_OP_PRESERVE_LIST : Z := 6.
Definition SAR_CTL_OP_PRESERVE_RECOVER : Z := 7.
Definition SAR_CTL_OP_SET_BUDGET : Z := 8.
Definition SAR_CTL_OP_RESOLVE_IDENTITY : Z := 9.
Definition SAR_CTL_OP_VERDICT : Z := 10.
Definition SAR_CTL_OP_PROCESS_QUERY : Z := 11.
Definition SAR_CTL_OP_STATUS : Z := 12.
Definition SAR_CTL_OP_APP_IDENTITY_LIST : Z := 13.
Definition SAR_CTL_OP_WHITELIST_LIST : Z := 14.

Definition SAR_CTL_LIST_PAGE : nat := 8.

Definition SAR_CTL_RESULT_INTERPRETER : Z := -100.

Definition SAR_WL_MATCH_MATCHING : Z := 0.
Definition SAR_WL_MATCH_LAPSED_SAME_SIGNER : Z := 1.
Definition SAR_WL_MATCH_LAPSED_CHANGED_SIGNER : Z := 2.

(** ** Commands and replies *)

Record sar_control_command_t := {
  op : Z;
  cmd_mode : Z;
  key_id : bytes;
  cmd_path : list Z;
  arg0 : Z;
  arg1 : Z
}.

Definition control_command_t : ctype := Struct [
  ("op", U32); ("mode", U32); ("key_id", Arr SEMANTICS_AR_KEY_ID_SIZE U8);
  ("image_path", Arr SEMANTICS_AR_PROTO_PATH_MAX U16); ("arg0", U64); ("arg1", U64)]%string.

(** The packed structure that the pipe carries. *)
Definition command_of (buf : bytes) : sar_control_command_t :=
  {| op := msg_uint control_command_t "op" buf; cmd_mode := msg_uint control_command_t "mode" buf;
     key_id := msg_field control_command_t "key_id" buf;
     cmd_path := bytes_u16s SEMANTICS_AR_PROTO_PATH_MAX (msg_field control_command_t "image_path" buf);
     arg0 := msg_uint control_command_t "arg0" buf; arg1 := msg_uint control_command_t "arg1" buf |}.

Record sar_catalog_entry_t := {
  ct_key_id : bytes; ct_algorithm : Z; ct_mode : Z; ct_path : list Z; ct_time : Z; ct_actor : Z
}.

Record sar_preserve_list_entry_t := {
  pl_path : list Z; pl_offset : Z; pl_length : Z; pl_time : Z; pl_size : Z; pl_actor : Z; pl_app : Z; pl_state : Z
}.

Record sar_whitelist_list_entry_t := { wl_identity : sar_identity_t; wl_first_seen : Z; wl_match : Z }.

(** The arrays hold the entries that were written. *)
Record sar_control_reply_t := {
  result : Z;
  verdict : sar_identity_verdict_t;
  total : Z;
  returned : Z;
  entries : list sar_catalog_entry_t;
  preserve_entries : list sar_preserve_list_entry_t;
  app_identities : list sar_app_identity_entry_t;
  whitelist_entries : list sar_whitelist_list_entry_t;
  resolved : sar_identity_t;
  reply_id_state : Z;
  proc_start_key : Z;
  reply_inflight : Z;
  preserve_used_bytes : Z
}.

Definition zero_identity : sar_identity_t :=
  {| image_path := replicate SEMANTICS_AR_PROTO_PATH_MAX 0; cert_subject := no_subject; content_hash := no_hash |}.

(** A cleared reply with a result and a verdict. *)
Definition reply_with (r : Z) (v : sar_identity_verdict_t) : sar_control_reply_t :=
  {| result := r; verdict := v; total := 0; returned := 0; entries := []; preserve_entries := [];
     app_identities := []; whitelist_entries := []; resolved := zero_identity; reply_id_state := 0;
     proc_start_key := 0; reply_inflight := 0; preserve_used_bytes := 0 |}.

Definition failed : sar_control_reply_t := reply_with (-1) SAR_IDENTITY_VERDICT_ERROR.

(** ** The service *)

Section Service.
Context {P : Type} `{!FilterPort P}.

Record service := {
  client : sar_comm_client_t P;
  av_paths : list (list Z);
  av_rescan : bool;
  attrib : attrib_tables
}.

Definition set_client (c : sar_comm_client_t P) (s : service) : service :=
  {| client := c; av_paths := av_paths s; av_rescan := av_rescan s; attrib := attrib s |}.
Definition set_attrib (t : attrib_tables) (s : service) : service :=
  {| client := client s; av_paths := av_paths s; av_rescan := av_rescan s; attrib := t |}.
Definition set_registry (r : list (list Z) * bool) (s : service) : service :=
  {| client := client s; av_paths := r.1; av_rescan := r.2; attrib := attrib s |}.

(** Case folding, the devices of drive letters, the times and sizes of files and
    the answers about their identity, the image of a process, and the two recovery
    requests. *)
Context (fold_case : Z -> Z) (QueryDosDevice : Z -> option (list Z)).
Context (GetFileAttributesEx : list Z -> option (Z * Z)) (files : list Z -> file_answers).
Context (process_image : Z -> option (list Z)).
Context (sar_recovery_run : sar_comm_client_t P -> bytes -> list Z -> sar_comm_client_t P * Z).
Context (sar_preserve_recovery_run : sar_comm_client_t P -> list Z -> Z -> Z -> sar_comm_client_t P * Z).

Definition evaluate (path : list Z) : sar_identity_eval_t := sar_identity_evaluate (files path) path.

(** The copy of the command's path into [wchar_t path[SEMANTICS_AR_PROTO_PATH_MAX]]. *)
Definition path_of (arr : list Z) : list Z := until_nul (take (SEMANTICS_AR_PROTO_PATH_MAX - 1) arr).

Definition comm_result (cs : sar_comm_status_t) : Z := if bool_decide (cs = SAR_COMM_OK) then 0 else comm_code cs.

(** The status of a send, [SAR_COMM_ERR_PROTOCOL] when there is no message. *)
Definition send (c : sar_comm_client_t P) (msg : option bytes) : sar_comm_client_t P * sar_comm_status_t :=
  match msg with
  | Some m => sar_comm_send c m
  | None => (c, SAR_COMM_ERR_PROTOCOL)
  end.

(** ** Fetching entries *)

(** A query for the entry at an index: the total and the bytes of the entry, if it
    is there; [None] when the exchange fails. *)
Definition fetch (query reply entry : ctype) (query_type reply_type : Z) (c : sar_comm_client_t P) (index : Z)
    : sar_comm_client_t P * option (Z * option bytes) :=
  let '(c, r) := sar_comm_send_recv c (index_query query_type (csizeof query) index) (csizeof reply) reply_type in
  (c, match r with
      | inl _ => None
      | inr m => Some (msg_uint reply "total" m,
                       if msg_uint reply "valid" m =? 0 then None else Some (msg_field reply "entry" m))
      end).

Definition sar_catalog_fetch (c : sar_comm_client_t P) (index : Z) : sar_comm_client_t P * option (Z * option bytes) :=
  fetch semantics_ar_catalog_query_t semantics_ar_catalog_reply_t semantics_ar_catalog_entry_t
    SEMANTICS_AR_MSG_CATALOG_QUERY SEMANTICS_AR_MSG_CATALOG_REPLY c index.

Definition sar_preserve_fetch (c : sar_comm_client_t P) (index : Z) : sar_comm_client_t P * option (Z * option bytes) :=
  fetch semantics_ar_preserve_query_t semantics_ar_preserve_reply_t semantics_ar_preserve_entry_t
    SEMANTICS_AR_MSG_PRESERVE_QUERY SEMANTICS_AR_MSG_PRESERVE_REPLY c index.

Definition sar_whitelist_fetch (c : sar_comm_client_t P) (index : Z) : sar_comm_client_t P * option (Z * option bytes) :=
  fetch semantics_ar_whitelist_query_t semantics_ar_whitelist_reply_t semantics_ar_whitelist_entry_t
    SEMANTICS_AR_MSG_WHITELIST_QUERY SEMANTICS_AR_MSG_WHITELIST_REPLY c index.

(** What a page keeps of an entry. *)
Definition catalog_row (e : bytes) (s : service) : sar_catalog_entry_t * service :=
  let t := semantics_ar_catalog_entry_t in
  ({| ct_key_id := msg_field t "key_id" e; ct_algorithm := msg_uint t "algorithm" e; ct_mode := msg_uint t "mode" e;
      ct_path := bytes_u16s SEMANTICS_AR_PROTO_PATH_MAX (msg_field t "provenance_path" e);
      ct_time := msg_uint t "capture_time" e; ct_actor := msg_uint t "actor_start_key" e |}, s).

Definition preserve_row (e : bytes) (s : service) : sar_preserve_list_entry_t * service :=
  let t := semantics_ar_preserve_entry_t in
  let '(app, tables) := sar_attrib_resolve fold_case QueryDosDevice GetFileAttributesEx files (attrib s)
      (bytes_u16s SEMANTICS_AR_PROTO_PATH_MAX (msg_field t "causing_image_path" e)) in
  ({| pl_path := bytes_u16s SEMANTICS_AR_PROTO_PATH_MAX (msg_field t "provenance_path" e);
      pl_offset := msg_uint t "provenance_offset" e; pl_length := msg_uint t "provenance_length" e;
      pl_time := msg_uint t "capture_time" e; pl_size := msg_uint t "payload_length" e;
      pl_actor := msg_uint t "actor_start_key" e; pl_app := app; pl_state := msg_uint t "state" e |},
   set_attrib tables s).

(** How an allowed identity compares with its file now. *)
Definition match_state (e cur : sar_identity_t) (v : sar_identity_verdict_t) : Z :=
  let same_signer := bytes_eqb (cert_subject cur) (cert_subject e) in
  let same_hash := bytes_eqb (content_hash cur) (content_hash e) in
  let verified := bool_decide (v = SAR_IDENTITY_VERDICT_VERIFIED) in
  if verified && same_signer && same_hash then SAR_WL_MATCH_MATCHING
  else if verified && same_signer then SAR_WL_MATCH_LAPSED_SAME_SIGNER
  else SAR_WL_MATCH_LAPSED_CHANGED_SIGNER.

Definition whitelist_row (e : bytes) (s : service) : sar_whitelist_list_entry_t * service :=
  let t := semantics_ar_whitelist_entry_t in
  let id := msg_identity t e in
  let '(v, cur) := evaluate (path_of (image_path id)) in
  ({| wl_identity := id; wl_first_seen := msg_uint t "first_seen" e; wl_match := match_state id cur v |}, s).

(** The loop of a page: at most [n] more entries from [index]; the rows, and the
    total of the last reply unless a fetch failed. *)
Fixpoint page {A} (get : sar_comm_client_t P -> Z -> sar_comm_client_t P * option (Z * option bytes))
    (row : bytes -> service -> A * service) (n : nat) (s : service) (index tot : Z) (acc : list A)
    : service * list A * option Z :=
  match n with
  | O => (s, acc, Some tot)
  | S n =>
    let '(c, r) := get (client s) index in
    let s := set_client c s in
    match r with
    | None => (s, acc, None)
    | Some (tot, None) => (s, acc, Some tot)
    | Some (tot, Some e) =>
      let '(x, s) := row e s in page get row n s (u32 (index + 1)) tot (acc ++ [x])
    end
  end.

(** The fields of a reply to a listing; [put] stores the rows. *)
Definition page_reply (put : sar_control_reply_t -> sar_control_reply_t) (n : nat) (tot : option Z) : sar_control_reply_t :=
  match tot with
  | None => put failed
  | Some t =>
    let r := put (reply_with 0 SAR_IDENTITY_VERDICT_VERIFIED) in
    {| result := result r; verdict := verdict r; total := t; returned := Z.of_nat n; entries := entries r;
       preserve_entries := preserve_entries r; app_identities := app_identities r;
       whitelist_entries := whitelist_entries r; resolved := resolved r; reply_id_state := reply_id_state r;
       proc_start_key := proc_start_key r; reply_inflight := reply_inflight r;
       preserve_used_bytes := preserve_used_bytes r |}
  end.

Definition put_entries (l : list sar_catalog_entry_t) (r : sar_control_reply_t) : sar_control_reply_t :=
  {| result := result r; verdict := verdict r; total := total r; returned := returned r; entries := l;
     preserve_entries := preserve_entries r; app_identities := app_identities r;
     whitelist_entries := whitelist_entries r; resolved := resolved r; reply_id_state := reply_id_state r;
     proc_start_key := proc_start_key r; reply_inflight := reply_inflight r;
     preserve_used_bytes := preserve_used_bytes r |}.

Definition put_preserve (l : list sar_preserve_list_entry_t) (r : sar_control_reply_t) : sar_control_reply_t :=
  {| result := result r; verdict := verdict r; total := total r; returned := returned r; entries := entries r;
     preserve_entries := l; app_identities := app_identities r;
     whitelist_entries := whitelist_entries r; resolved := resolved r; reply_id_state := reply_id_state r;
     proc_start_key := proc_start_key r; reply_inflight := reply_inflight r;
     preserve_used_bytes := preserve_used_bytes r |}.

Definition put_apps (l : list sar_app_identity_entry_t) (r : sar_control_reply_t) : sar_control_reply_t :=
  {| result := result r; verdict := verdict r; total := total r; returned := returned r; entries := entries r;
     preserve_entries := preserve_entries r; app_identities := l;
     whitelist_entries := whitelist_entries r; resolved := resolved r; reply_id_state := reply_id_state r;
     proc_start_key := proc_start_key r; reply_inflight := reply_inflight r;
     preserve_used_bytes := preserve_used_bytes r |}.

Definition put_whitelist (l : list sar_whitelist_list_entry_t) (r : sar_control_reply_t) : sar_control_reply_t :=
  {| result := result r; verdict := verdict r; total := total r; returned := returned r; entries := entries r;
     preserve_entries := preserve_entries r; app_identities := app_identities r;
     whitelist_entries := l; resolved := resolved r; reply_id_state := reply_id_state r;
     proc_start_key := proc_start_key r; reply_inflight := reply_inflight r;
     preserve_used_bytes := preserve_used_bytes r |}.

Definition put_resolved (id : sar_identity_t) (r : sar_control_reply_t) : sar_control_reply_t :=
  {| result := result r; verdict := verdict r; total := total r; returned := returned r; entries := entries r;
     preserve_entries := preserve_entries r; app_identities := app_identities r;
     whitelist_entries := whitelist_entries r; resolved := id; reply_id_state := reply_id_state r;
     proc_start_key := proc_start_key r; reply_inflight := reply_inflight r;
     preserve_used_bytes := preserve_used_bytes r |}.

Definition put_process (st key : Z) (r : sar_control_reply_t) : sar_control_reply_t :=
  {| result := result r; verdict := verdict r; total := total r; returned := returned r; entries := entries r;
     preserve_entries := preserve_entries r; app_identities := app_identities r;
     whitelist_entries := whitelist_entries r; resolved := resolved r; reply_id_state := st;
     proc_start_key := key; reply_inflight := reply_inflight r;
     preserve_used_bytes := preserve_used_bytes r |}.

Definition put_status (st inflight used : Z) (r : sar_control_reply_t) : sar_control_reply_t :=
  {| result := result r; verdict := verdict r; total := total r; returned := returned r; entries := entries r;
     preserve_entries := preserve_entries r; app_identities := app_identities r;
     whitelist_entries := whitelist_entries r; resolved := resolved r; reply_id_state := st;
     proc_start_key := proc_start_key r; reply_inflight := inflight;
     preserve_used_bytes := used |}.

(** ** The commands *)

Definition set_mode_cmd (s : service) (cmd : sar_control_command_t) : service * sar_control_reply_t :=
  let '(c, cs) := send (client s) (sar_control_send_mode (cmd_mode cmd)) in
  let c := if bool_decide (cs = SAR_COMM_OK) then set_mode (cmd_mode cmd) c else c in
  (set_client c s, reply_with (comm_result cs) SAR_IDENTITY_VERDICT_VERIFIED).

Definition whitelist_cmd (s : service) (cmd : sar_control_command_t) : service * sar_control_reply_t :=
  let path := path_of (cmd_path cmd) in
  let '(v, id) := evaluate path in
  if negb (bool_decide (v = SAR_IDENTITY_VERDICT_VERIFIED)) then (s, reply_with (-1) v)
  else if (op cmd =? SAR_CTL_OP_WHITELIST_ADD) && sar_identity_is_interpreter (Some (image_path id))
  then (s, reply_with SAR_CTL_RESULT_INTERPRETER v)
  else
    let '(c, cs) := send (client s) (sar_control_send_whitelist (op cmd) (Some id)) in
    let s := set_client c s in
    let s := if bool_decide (cs = SAR_COMM_OK)
             then set_registry (sar_autoverdict_note fold_case (av_paths s) (av_rescan s) path
                                  (op cmd =? SAR_CTL_OP_WHITELIST_ADD)) s
             else s in
    (s, reply_with (comm_result cs) v).

Definition resolve_cmd (s : service) (cmd : sar_control_command_t) : service * sar_control_reply_t :=
  let '(v, id) := evaluate (path_of (cmd_path cmd)) in
  let bad := bool_decide (v = SAR_IDENTITY_VERDICT_ERROR) || bool_decide (v = SAR_IDENTITY_VERDICT_PATH_FAILED) in
  (s, put_resolved id (reply_with (if bad then -1 else 0) v)).

Definition status_cmd (s : service) : service * sar_control_reply_t :=
  let '(c, r) := sar_comm_query_status (client s) in
  let s := set_client c s in
  match r with
  | inl cs => (s, reply_with (comm_code cs) SAR_IDENTITY_VERDICT_ERROR)
  | inr st =>
    let t := semantics_ar_status_reply_t in
    (s, put_status (msg_uint t "mode" st) (msg_uint t "capture_inflight" st) (msg_uint t "preserve_used_bytes" st)
          (reply_with 0 SAR_IDENTITY_VERDICT_VERIFIED))
  end.

(** The process query of two commands: valid, state and start key. *)
Definition process_query (c : sar_comm_client_t P) (pid : Z)
    : sar_comm_client_t P * (sar_comm_status_t + (Z * Z * Z)) :=
  let q := msg_header_bytes SEMANTICS_AR_MSG_PROCESS_QUERY (csizeof semantics_ar_process_query_t) ++ le_bytes 8 pid in
  let '(c, r) := sar_comm_send_recv c q (csizeof semantics_ar_process_reply_t) SEMANTICS_AR_MSG_PROCESS_REPLY in
  let t := semantics_ar_process_reply_t in
  (c, match r with
      | inl cs => inl cs
      | inr m => inr (msg_uint t "valid" m, msg_uint t "id_state" m, msg_uint t "start_key" m)
      end).

Definition process_cmd (s : service) (cmd : sar_control_command_t) : service * sar_control_reply_t :=
  let '(c, r) := process_query (client s) (arg0 cmd) in
  let s := set_client c s in
  match r with
  | inl cs => (s, reply_with (comm_code cs) SAR_IDENTITY_VERDICT_ERROR)
  | inr (valid, st, key) =>
    (s, put_process st key (reply_with (if valid =? 0 then -1 else 0) SAR_IDENTITY_VERDICT_VERIFIED))
  end.

(** [sar_verdict_pid] with its exchanges: the verdict, and what it reports of the
    process. *)
Definition sar_verdict_run (c : sar_comm_client_t P) (pid : Z)
    : sar_comm_client_t P * sar_identity_verdict_t * (Z * Z) :=
  match process_image pid with
  | None | Some [] => (c, SAR_IDENTITY_VERDICT_ERROR, (0, 0))
  | Some image =>
    let '(c, r) := process_query c pid in
    match r with
    | inl _ => (c, SAR_IDENTITY_VERDICT_ERROR, (0, 0))
    | inr (valid, st, key) =>
      if (valid =? 0) || (key =? 0) then (c, SAR_IDENTITY_VERDICT_ERROR, (0, 0))
      else
        match sar_verdict_pid pid (Some image) (Some (true, key, SAR_IDSTATE_OBSERVE)) (evaluate image) true with
        | (v, None) => (c, v, (st, key))
        | (v, Some msg) =>
          let '(c, cs) := sar_comm_send c msg in
          (c, if bool_decide (cs = SAR_COMM_OK) then v else SAR_IDENTITY_VERDICT_ERROR, (st, key))
        end
    end
  end.

Definition verdict_cmd (s : service) (cmd : sar_control_command_t) : service * sar_control_reply_t :=
  let '(c, v, (st, key)) := sar_verdict_run (client s) (u32 (arg0 cmd)) in
  (set_client c s,
   put_process st key (reply_with (if bool_decide (v = SAR_IDENTITY_VERDICT_VERIFIED) then 0 else -1) v)).

Definition recovered (s : service) (c : sar_comm_client_t P) (r : Z) : service * sar_control_reply_t :=
  (set_client c s,
   reply_with r (if r =? 0 then SAR_IDENTITY_VERDICT_VERIFIED else SAR_IDENTITY_VERDICT_ERROR)).

Definition list_cmd (s : service) (cmd : sar_control_command_t) : service * sar_control_reply_t :=
  let '(s, rows, t) := page sar_catalog_fetch catalog_row SAR_CTL_LIST_PAGE s (cmd_mode cmd) 0 [] in
  (s, page_reply (put_entries rows) (length rows) t).

Definition preserve_list_cmd (s : service) (cmd : sar_control_command_t) : service * sar_control_reply_t :=
  let '(s, rows, t) := page sar_preserve_fetch preserve_row SAR_CTL_LIST_PAGE s (cmd_mode cmd) 0 [] in
  (s, page_reply (put_preserve rows) (length rows) t).

Definition whitelist_list_cmd (s : service) (cmd : sar_control_command_t) : service * sar_control_reply_t :=
  let '(s, rows, t) := page sar_whitelist_fetch whitelist_row SAR_CTL_LIST_PAGE s (cmd_mode cmd) 0 [] in
  (s, page_reply (put_whitelist rows) (length rows) t).

Fixpoint app_page (n : nat) (t : attrib_tables) (index : Z) : list sar_app_identity_entry_t :=
  match n with
  | O => []
  | S n =>
    match sar_attrib_enumerate t index with
    | Some e => e :: app_page n t (u32 (index + 1))
    | None => []
    end
  end.

Definition app_list_cmd (s : service) (cmd : sar_control_command_t) : service * sar_control_reply_t :=
  let rows := app_page SAR_CTL_LIST_PAGE (attrib s) (cmd_mode cmd) in
  (s, page_reply (put_apps rows) (length rows) (Some (sar_attrib_count (attrib s)))).

Definition budget_cmd (s : service) (cmd : sar_control_command_t) : service * sar_control_reply_t :=
  let msg := msg_header_bytes SEMANTICS_AR_MSG_SET_BUDGET (csizeof semantics_ar_set_budget_t) ++
             le_bytes 8 (arg0 cmd) ++ le_bytes 8 (arg1 cmd) in
  let '(c, cs) := sar_comm_send (client s) msg in
  (set_client c s, reply_with (comm_result cs) SAR_IDENTITY_VERDICT_VERIFIED).

Definition sar_control_apply (s : service) (cmd : sar_control_command_t) : service * sar_control_reply_t :=
  let o := op cmd in
  if o =? SAR_CTL_OP_SET_MODE then set_mode_cmd s cmd
  else if (o =? SAR_CTL_OP_WHITELIST_ADD) || (o =? SAR_CTL_OP_WHITELIST_REMOVE) then whitelist_cmd s cmd
  else if o =? SAR_CTL_OP_RESOLVE_IDENTITY then resolve_cmd s cmd
  else if o =? SAR_CTL_OP_STATUS then status_cmd s
  else if o =? SAR_CTL_OP_PROCESS_QUERY then process_cmd s cmd
  else if o =? SAR_CTL_OP_VERDICT then verdict_cmd s cmd
  else if o =? SAR_CTL_OP_RECOVER then
    let '(c, r) := sar_recovery_run (client s) (key_id cmd) (path_of (cmd_path cmd)) in recovered s c r
  else if o =? SAR_CTL_OP_LIST then list_cmd s cmd
  else if o =? SAR_CTL_OP_PRESERVE_LIST then preserve_list_cmd s cmd
  else if o =? SAR_CTL_OP_APP_IDENTITY_LIST then app_list_cmd s cmd
  else if o =? SAR_CTL_OP_WHITELIST_LIST then whitelist_list_cmd s cmd
  else if o =? SAR_CTL_OP_PRESERVE_RECOVER then
    let '(c, r) := sar_preserve_recovery_run (client s) (path_of (cmd_path cmd)) (arg0 cmd) (arg1 cmd) in recovered s c r
  else if o =? SAR_CTL_OP_SET_BUDGET then budget_cmd s cmd
  else (s, failed).

(** ** Who may give a command *)

(** [received]: the bytes that arrived in time; [impersonated]: the service could
    take the identity of the caller; [admin]: the token is a member of the
    administrators' group, as far as that can be asked. *)
Definition sar_control_serve (s : service) (received : option bytes) (impersonated admin : bool)
    : service * sar_control_reply_t :=
  match received with
  | Some buf =>
    if negb (Z.of_nat (length buf) =? csizeof control_command_t) then (s, failed)
    else if negb (impersonated && admin) then (s, failed)
    else sar_control_apply s (command_of buf)
  | None => (s, failed)
  end.

(** ** Posture *)

Definition SAR_POSTURE_FLAG_SERVICE_RUNNING : Z := 0x1.
Definition SAR_POSTURE_FLAG_DRIVER_CONNECTED : Z := 0x2.
Definition SAR_POSTURE_FLAG_INTEGRITY_HALT : Z := 0x4.

Definition sar_coarsen_health (used capacity : Z) : Z :=
  if capacity =? 0 then 0
  else
    let pct := u64 (used * 100) / capacity in
    if 90 <=? pct then 3 else if 75 <=? pct then 2 else 1.

Definition day_100ns : Z := 24 * 3600 * 10000000.

Definition sar_coarsen_expiry (now oldest_protected retention : Z) : Z :=
  if oldest_protected =? 0 then 0
  else
    let expiry := u64 (oldest_protected + retention) in
    if expiry <=? now then 3
    else
      let remaining := expiry - now in
      if remaining <=? day_100ns then 3 else if remaining <=? 7 * day_100ns then 2 else 1.

(** The three answers of service/posture.c. *)
Definition sar_posture_descents (tpm20 : bool) (ium : option (Z * Z)) (protected : bool) : Z :=
  let hvci := match ium with
              | Some (flags0, ret) =>
                if ret <? 16 then false
                else negb (Z.land flags0 1 =? 0) && negb (Z.land flags0 2 =? 0)
              | None => false
              end in
  Z.lor (Z.lor (if tpm20 then 0 else 1) (if hvci then 0 else 2)) (if protected then 0 else 4).

Record sar_posture_frame_t := {
  pf_flags : Z; pf_mode : Z; pf_keys : Z; pf_descents : Z; pf_health : Z; pf_expiry : Z
}.

(** [busy]: another command holds the lock; [cache]: the last frame. *)
Definition sar_posture_serve (s : service) (cache : option sar_posture_frame_t) (busy : bool) (now descents : Z)
    : service * option sar_posture_frame_t * sar_posture_frame_t :=
  let bare := {| pf_flags := SAR_POSTURE_FLAG_SERVICE_RUNNING; pf_mode := mode (client s);
                 pf_keys := captured_key_count (client s); pf_descents := descents; pf_health := 0; pf_expiry := 0 |} in
  if busy then (s, cache, default bare cache)
  else
    let '(c, r) := sar_comm_query_status (client s) in
    let t := semantics_ar_status_reply_t in
    let frame :=
      match r with
      | inr st =>
        {| pf_flags := Z.lor (Z.lor SAR_POSTURE_FLAG_SERVICE_RUNNING SAR_POSTURE_FLAG_DRIVER_CONNECTED)
                         (if msg_uint t "integrity_halt" st =? 0 then 0 else SAR_POSTURE_FLAG_INTEGRITY_HALT);
           pf_mode := msg_uint t "mode" st; pf_keys := msg_uint t "captured_key_count" st; pf_descents := descents;
           pf_health := sar_coarsen_health (msg_uint t "preserve_used_bytes" st) (msg_uint t "preserve_capacity_bytes" st);
           pf_expiry := sar_coarsen_expiry now (msg_uint t "preserve_oldest_protected_time" st)
                          (msg_uint t "preserve_retention_100ns" st) |}
      | inl _ => bare
      end in
    (set_client c s, Some frame, frame).

(** ** The stream of events *)

Definition SAR_EVENTS_GRACE_POLLS : Z := 4.

Record sar_events_frame_t := {
  ef_valid : bool; ef_gap : Z; ef_class : Z; ef_generation : Z; ef_sequence : Z; ef_timestamp : Z; ef_actor : Z
}.

Definition keep_alive : sar_events_frame_t :=
  {| ef_valid := false; ef_gap := 0; ef_class := 0; ef_generation := 0; ef_sequence := 0; ef_timestamp := 0; ef_actor := 0 |}.

Definition event_frame (m : bytes) : sar_events_frame_t :=
  let t := semantics_ar_events_reply_t in
  {| ef_valid := true; ef_gap := msg_uint t "gap" m; ef_class := msg_uint t "event_class" m;
     ef_generation := msg_uint t "generation" m; ef_sequence := msg_uint t "sequence" m;
     ef_timestamp := msg_uint t "timestamp" m; ef_actor := msg_uint t "actor_start_key" m |}.

(** A round of the loop: the answers of the two waits for the stop event, the
    client with the driver as it is then, and whether the frame could be sent. *)
Record events_round := {
  stop_set : bool;
  round_client : sar_comm_client_t P;
  sent : bool;
  stop_during_wait : bool
}.

(** The frames that reach the reader. *)
Fixpoint sar_events_serve (rounds : list events_round) (generation sequence empty_polls : Z) : list sar_events_frame_t :=
  match rounds with
  | [] => []
  | r :: rounds =>
    if stop_set r then []
    else
      match (sar_comm_query_events (round_client r) generation sequence).2 with
      | inl _ => []
      | inr m =>
        if negb (msg_uint semantics_ar_events_reply_t "valid" m =? 0) then
          if sent r then event_frame m ::
            sar_events_serve rounds (msg_uint semantics_ar_events_reply_t "generation" m)
              (msg_uint semantics_ar_events_reply_t "sequence" m) 0
          else []
        else
          let full := SAR_EVENTS_GRACE_POLLS <=? empty_polls + 1 in
          if full && negb (sent r) then []
          else
            (if full then [keep_alive] else []) ++
            (if stop_during_wait r then []
             else sar_events_serve rounds generation sequence (if full then 0 else empty_polls + 1))
      end
  end.

End Service.

End Control.
