(* ===== verification/ControlProps.v ===== *)
(** * Commands that change the driver

    The commands of service/control.c that set the mode and change the allow-list,
    run against the driver behind the port: what the driver does is what the
    command says, and an exemption needs a verified signature. *)

From Stdlib Require Import String.
From S2P Require Import Prelude Mem Format Protocol Handshake Whitelist CipherCommon EventLog DriverState Comm Service.
From S2P Require Import PortClient Attrib Control.
Import Mem Layout Protocol Whitelist Interpreter DriverState Service PortClient Attrib Control.

Module ControlProps.

(** ** Identities that fit a message *)

Lemma until_nul_length l : (length (until_nul l) <= length l)%nat.
Proof. induction l as [|x l IH]; [done|]. cbn. destruct (x =? 0); cbn; lia. Qed.

Lemma until_nul_u16 l : Forall is_u16 l -> Forall is_u16 (until_nul l).
Proof.
  induction l as [|x l IH]; [done|]. intros [Hx Hl]%Forall_cons. cbn. destruct (x =? 0); [done|].
  apply Forall_cons. split; [done|by apply IH].
Qed.

Lemma copy_wide_length cap l : (0 < cap)%nat -> length (sar_copy_wide cap l) = cap.
Proof.
  intros Hc. unfold sar_copy_wide. rewrite length_app, length_replicate.
  pose proof (until_nul_length (take (cap - 1) l)) as H. rewrite length_take in H. lia.
Qed.

Lemma copy_wide_u16 cap l : Forall is_u16 l -> Forall is_u16 (sar_copy_wide cap l).
Proof.
  intros Hl. unfold sar_copy_wide. apply Forall_app. split.
  - apply until_nul_u16. by apply Forall_take.
  - apply Forall_replicate. unfold is_u. lia.
Qed.

(** Answers of the system that fit their types. *)
Record answers_ok (fa : file_answers) : Prop := {
  ao_hash h : fa_hash fa = Some h -> length h = SEMANTICS_AR_CONTENT_HASH_SIZE;
  ao_subject s : fa_subject fa = Some s -> Forall is_u16 s
}.

Lemma evaluate_full fa path v id : answers_ok fa -> Forall is_u16 path -> sar_identity_evaluate fa path = (v, id) -> id_full id.
Proof.
  intros [Hh Hs] Hp. unfold sar_identity_evaluate.
  assert (Hz : Forall is_u16 no_subject) by (apply Forall_replicate; unfold is_u; lia).
  assert (F : forall h s, length h = SEMANTICS_AR_CONTENT_HASH_SIZE -> length s = SEMANTICS_AR_PROTO_SUBJECT_MAX ->
    Forall is_u16 s -> id_full (identity_with (sar_copy_wide SEMANTICS_AR_PROTO_PATH_MAX path) h s)).
  { intros h s H1 H2 H3. constructor; cbn [identity_with image_path].
    - by split_and!.
    - apply copy_wide_length. unfold SEMANTICS_AR_PROTO_PATH_MAX. lia.
    - by apply copy_wide_u16. }
  destruct (fa_open fa); cbn [negb]; [|intros [= <- <-]; by apply F].
  destruct (fa_hash fa) as [h|]; [|intros [= <- <-]; by apply F]. specialize (Hh h eq_refl).
  destruct (fa_trusted fa); cbn [negb]; [|intros [= <- <-]; by apply F].
  destruct (fa_subject fa) as [n|]; [|intros [= <- <-]; by apply F]. intros [= <- <-].
  apply F; [done|apply copy_wide_length; unfold SEMANTICS_AR_PROTO_SUBJECT_MAX; lia|]. apply copy_wide_u16. by apply Hs.
Qed.

Section Commands.
Context {E : Type} `{!Services E} (precise now : Z).

#[local] Instance the_control_port : FilterPort (driver_port (E := E)) := driver_filter_port precise now.

Context (fold_case : Z -> Z) (QueryDosDevice : Z -> option (list Z)).
Context (GetFileAttributesEx : list Z -> option (Z * Z)) (files : list Z -> file_answers).
Context (process_image : Z -> option (list Z)).
Context (recovery_run : sar_comm_client_t (driver_port (E := E)) -> bytes -> list Z ->
  sar_comm_client_t (driver_port (E := E)) * Z).
Context (preserve_run : sar_comm_client_t (driver_port (E := E)) -> list Z -> Z -> Z ->
  sar_comm_client_t (driver_port (E := E)) * Z).

Abbreviation apply_cmd := (sar_control_apply fold_case QueryDosDevice GetFileAttributesEx files process_image recovery_run preserve_run).

(** The driver that the service is connected to. *)
Definition driver_of (s : service (P := driver_port (E := E))) : option (driver_port (E := E)) := port (client s).

(** Sending a message the driver handles. *)
Lemma send_driver (cl : sar_comm_client_t (driver_port (E := E))) c g msg status r c' g' :
  port cl = Some {| dp_comm := c; dp_driver := g |} ->
  Comm.SarCommMessageNotify c g precise now (Some msg) None = (status, r, c', g') ->
  sar_comm_send cl msg = (set_port {| dp_comm := c'; dp_driver := g' |} cl,
    if NT_SUCCESS status then SAR_COMM_OK else SAR_COMM_ERR_TRANSPORT).
Proof using Type.
  intros Hp Hm. unfold sar_comm_send. rewrite Hp.
  cbn [FilterSendMessage the_control_port driver_filter_port dp_comm dp_driver].
  change (0 =? 0) with true. cbv iota. rewrite Hm. by destruct (NT_SUCCESS status).
Qed.

(** The identity of the file the command names. *)
Definition named_identity (cmd : sar_control_command_t) : sar_identity_eval_t := evaluate files (path_of (cmd_path cmd)).

(** Property C30: a command exempts verified programs only, and exactly the one it
    names.  Adding to the allow-list leaves the driver as it is when the file of
    the command is not verified or is an interpreter, with a result that says so;
    otherwise the driver adds the identity of the file as it was just evaluated,
    and the result is 0 exactly when the driver accepted it. *)
Theorem control_allows_verified (s : service (P := driver_port (E := E))) cmd c g :
  op cmd = SAR_CTL_OP_WHITELIST_ADD -> Forall is_u16 (cmd_path cmd) ->
  answers_ok (files (path_of (cmd_path cmd))) ->
  driver_of s = Some {| dp_comm := c; dp_driver := g |} ->
  Handshake.sar_handshake_authenticated (Comm.handshake c) = true ->
  let '(s', reply) := apply_cmd s cmd in
  let '(v, id) := named_identity cmd in
  if negb (bool_decide (v = SAR_IDENTITY_VERDICT_VERIFIED)) then s' = s /\ result reply = -1 /\ verdict reply = v
  else if sar_identity_is_interpreter (Some (image_path id)) then s' = s /\ result reply = SAR_CTL_RESULT_INTERPRETER
  else
    let '(r, st, log) := SarStateWhitelistAdd (Comm.g_state g) (Comm.g_eventlog g) precise now id in
    driver_of s' = Some {| dp_comm := c; dp_driver := Comm.set_state st log g |} /\
    (result reply = 0 <-> r = SAR_WL_OK).
Proof using Type.
  intros Hop Hu Hans Hd Hauth.
  assert (Ea : apply_cmd s cmd = whitelist_cmd fold_case files s cmd) by (unfold sar_control_apply; by rewrite Hop).
  rewrite Ea. unfold whitelist_cmd, named_identity.
  destruct (evaluate files (path_of (cmd_path cmd))) as [v id] eqn:Ev.
  destruct (bool_decide (v = SAR_IDENTITY_VERDICT_VERIFIED)); cbn [negb]; [|done].
  rewrite Hop, Z.eqb_refl. cbn [andb]. destruct (sar_identity_is_interpreter _); [done|].
  assert (Hfull : id_full id).
  { eapply evaluate_full; [exact Hans| |exact Ev]. apply until_nul_u16. by apply Forall_take. }
  destruct (sar_control_send_whitelist SAR_CTL_OP_WHITELIST_ADD (Some id)) as [msg|] eqn:Em; [|discriminate Em].
  pose proof (whitelist_delivers c g precise now None Hauth _ id msg Hfull Em) as Hm. rewrite Z.eqb_refl in Hm.
  destruct (SarStateWhitelistAdd _ _ precise now id) as [[r st] log]. cbn [send].
  rewrite (send_driver (client s) c g msg _ _ _ _ Hd Hm). unfold Comm.wl_result.
  destruct (decide (r = SAR_WL_OK)) as [->|Hr]; cbn; (split; [done|]); by split.
Qed.

End Commands.

(** ** A run *)

#[local] Existing Instance Comm.demo_services.

(** A signed program. *)
Definition demo_signed (p : list Z) : file_answers :=
  {| fa_open := true; fa_hash := Some (replicate 32 7); fa_trusted := true; fa_subject := Some [65; 66] |}.

Definition demo_service : service (P := driver_port (E := unit)) :=
  {| client := {| port := Some {| dp_comm := Service.demo_comm; dp_driver := Comm.demo_driver |};
                  PortClient.mode := 0; PortClient.captured_key_count := 0 |};
     av_paths := []; av_rescan := false; attrib := sar_attrib_init |}.

(** C:\a.exe *)
Definition demo_add : sar_control_command_t :=
  {| op := SAR_CTL_OP_WHITELIST_ADD; cmd_mode := 0; key_id := replicate 32 0;
     cmd_path := [67; 58; 92; 97; 46; 101; 120; 101] ++ replicate 252 0; arg0 := 0; arg1 := 0 |}.

Lemma control_allows_verified_witness :
  result (sar_control_apply (FilterPort0 := the_control_port 1 1) (fun c => c) (fun _ => None) (fun _ => None) demo_signed
            (fun _ => None) (fun c _ _ => (c, 1)) (fun c _ _ _ => (c, 1)) demo_service demo_add).2 = 0.
Proof.
  pose proof (control_allows_verified 1 1 (fun c => c) (fun _ => None) (fun _ => None) demo_signed (fun _ => None)
    (fun c _ _ => (c, 1)) (fun c _ _ _ => (c, 1)) demo_service demo_add Service.demo_comm Comm.demo_driver
    eq_refl ltac:(apply forall_u_check; vm_compute; reflexivity)
    ltac:(constructor; [by intros h [= <-]|intros n [= <-]; apply forall_u_check; reflexivity])
    eq_refl Service.demo_authenticated) as H.
  destruct (sar_control_apply _ _ _ _ _ _ _ demo_service demo_add) as [s' reply].
  assert (E : named_identity demo_signed demo_add =
    (SAR_IDENTITY_VERDICT_VERIFIED, (named_identity demo_signed demo_add).2)) by reflexivity.
  rewrite E in H.
  replace (sar_identity_is_interpreter (Some (image_path (named_identity demo_signed demo_add).2))) with false in H
    by (vm_compute; reflexivity).
  assert (Er : (SarStateWhitelistAdd (Comm.g_state Comm.demo_driver) (Comm.g_eventlog Comm.demo_driver) 1 1
    (named_identity demo_signed demo_add).2).1.1 = SAR_WL_OK) by (vm_compute; reflexivity).
  destruct (SarStateWhitelistAdd _ _ 1 1 _) as [[r st] log]. cbn in H, Er. apply H. exact Er.
Defined.

End ControlProps.
