(* ===== verification/Listing.v ===== *)
(** * Listing the captured keys, from the driver to the command line

    [sarctl list] of tools/sarctl.c and the catalogue pages of the client library,
    frontend/sarapi/src/control_client.c, over the service of Control.v and the
    driver behind its port.  The theorem is that the tool prints every record of
    the driver's keystore once and in order. *)

From Stdlib Require Import String.
From S2P Require Import Prelude Mem Format Chain Keystore Protocol Handshake Whitelist CipherCommon EventLog DriverState.
From S2P Require Import StoreIo KeystorePersist Comm Service PortClient Attrib Control.
Import Mem Layout Protocol Whitelist Service PortClient Attrib Control.

Module Listing.

(** ** The tool *)

(** The command as the pipe carries it. *)
Definition command_bytes (cmd : sar_control_command_t) : bytes :=
  le_bytes 4 (op cmd) ++ le_bytes 4 (cmd_mode cmd) ++ key_id cmd ++ u16s_bytes (cmd_path cmd) ++
  le_bytes 8 (arg0 cmd) ++ le_bytes 8 (arg1 cmd).

(** A cleared command with an operation and a start index. *)
Definition list_command (o start : Z) : sar_control_command_t :=
  {| op := o; cmd_mode := start; key_id := replicate SEMANTICS_AR_KEY_ID_SIZE 0;
     cmd_path := replicate SEMANTICS_AR_PROTO_PATH_MAX 0; arg0 := 0; arg1 := 0 |}.

Section Tool.
Context {P : Type} `{!FilterPort P}.
Context (serve : service (P := P) -> option bytes -> service (P := P) * sar_control_reply_t).

(** [transport]: the pipe could be opened, written and read. *)
Definition send_command (transport : bool) (s : service) (cmd : sar_control_command_t)
    : service * option sar_control_reply_t :=
  if transport then let '(s, r) := serve s (Some (command_bytes cmd)) in (s, Some r) else (s, None).

(** [for (; j < cap && src[j] != 0; j++) dst[j] = src[j]; dst[j] = 0;] into an array
    of [cap] elements: the terminator of a string that fills the array is
    written behind it. *)
Definition local_string (cap : nat) (src : list Z) : cres (list Z) :=
  let s := until_nul (take cap src) in
  if (length s <? cap)%nat then Ret s else OutOfBounds.

(** The lines of the rows from number [n] on. *)
Fixpoint print_rows {A L} (line : Z -> A -> cres L) (n : Z) (rows : list A) : cres (list L) :=
  match rows with
  | [] => Ret []
  | e :: rows =>
    let! l := line n e in
    let! ls := print_rows line (u32 (n + 1)) rows in
    Ret (l :: ls)
  end.

(** The rounds of a listing with the operation [o], whose rows are [rows_of] a
    reply: the lines printed so far; the exit code and the total of the last
    line. *)
Fixpoint list_loop {A L} (o : Z) (rows_of : sar_control_reply_t -> list A) (line : Z -> A -> cres L) (fuel : nat)
    (transport : bool) (s : service) (start : Z) (printed : list L) : cres (service * list L * Z * option Z) :=
  match fuel with
  | O => NoFuel
  | S fuel =>
    let '(s, r) := send_command transport s (list_command o start) in
    match r with
    | None => Ret (s, printed, 1, None)
    | Some reply =>
      if returned reply =? 0 then Ret (s, printed, 0, Some (total reply))
      else
        let! lines := print_rows line start (take (Z.to_nat (returned reply)) (rows_of reply)) in
        let start := u32 (start + returned reply) in
        if start <? total reply then list_loop o rows_of line fuel transport s start (printed ++ lines)
        else Ret (s, printed ++ lines, 0, Some (total reply))
    end
  end.

(** What a line shows: the arguments of its [wprintf] calls, in their order. *)
Record key_line := KeyLine { kl_index : Z; kl_algorithm : Z; kl_mode : Z; kl_key_id : bytes; kl_path : list Z }.

Definition print_key (n : Z) (e : sar_catalog_entry_t) : cres key_line :=
  let! path := local_string SEMANTICS_AR_PROTO_PATH_MAX (ct_path e) in
  Ret (KeyLine n (ct_algorithm e) (ct_mode e) (take SEMANTICS_AR_KEY_ID_SIZE (ct_key_id e)) path).

Definition cmd_list (fuel : nat) (transport : bool) (s : service) :=
  list_loop SAR_CTL_OP_LIST entries print_key fuel transport s 0 [].

Record region_line := RegionLine {
  rl_index : Z; rl_offset : Z; rl_length : Z; rl_size : Z; rl_actor : Z; rl_state : Z; rl_app : Z; rl_path : list Z
}.

Definition print_region (n : Z) (e : sar_preserve_list_entry_t) : cres region_line :=
  let! path := local_string SEMANTICS_AR_PROTO_PATH_MAX (pl_path e) in
  Ret (RegionLine n (pl_offset e) (pl_length e) (pl_size e) (pl_actor e) (pl_state e) (pl_app e) path).

Definition cmd_preserve_list (fuel : nat) (transport : bool) (s : service) :=
  list_loop SAR_CTL_OP_PRESERVE_LIST preserve_entries print_region fuel transport s 0 [].

Record app_line := AppLine { al_id : Z; al_verdict : Z; al_signer : list Z; al_path : list Z }.

Definition print_app (n : Z) (e : sar_app_identity_entry_t) : cres app_line :=
  let! path := local_string SEMANTICS_AR_PROTO_PATH_MAX (image_path (ai_identity e)) in
  let! subj := local_string SEMANTICS_AR_PROTO_SUBJECT_MAX (cert_subject (ai_identity e)) in
  Ret (AppLine (ai_id e) (ai_verdict e) subj path).

Definition cmd_app_identity (fuel : nat) (transport : bool) (s : service) :=
  list_loop SAR_CTL_OP_APP_IDENTITY_LIST app_identities print_app fuel transport s 0 [].

(** The words for the three states of an entry. *)
Definition match_str (ms : Z) : string :=
  if ms =? SAR_WL_MATCH_MATCHING then "matching"%string
   else if ms =? SAR_WL_MATCH_LAPSED_SAME_SIGNER then "lapsed-same-signer"%string
   else if ms =? SAR_WL_MATCH_LAPSED_CHANGED_SIGNER then "lapsed-changed-signer"%string
   else "?"%string.

Record exemption_line := ExemptionLine { el_match : string; el_first_seen : Z; el_signer : list Z; el_path : list Z }.

Definition print_exemption (n : Z) (e : sar_whitelist_list_entry_t) : cres exemption_line :=
  let! path := local_string SEMANTICS_AR_PROTO_PATH_MAX (image_path (wl_identity e)) in
  let! subj := local_string SEMANTICS_AR_PROTO_SUBJECT_MAX (cert_subject (wl_identity e)) in
  Ret (ExemptionLine (match_str (wl_match e)) (wl_first_seen e) subj path).

Definition cmd_whitelist_list (fuel : nat) (transport : bool) (s : service) :=
  list_loop SAR_CTL_OP_WHITELIST_LIST whitelist_entries print_exemption fuel transport s 0 [].

(** The commands that change something: the exit code. *)
Definition with_path (o : Z) (path : list Z) (a0 a1 : Z) : sar_control_command_t :=
  {| op := o; cmd_mode := 0; key_id := replicate SEMANTICS_AR_KEY_ID_SIZE 0;
     cmd_path := sar_copy_wide SEMANTICS_AR_PROTO_PATH_MAX path; arg0 := a0; arg1 := a1 |}.

Definition run_command (transport : bool) (s : service) (cmd : sar_control_command_t) : service * Z :=
  let '(s, r) := send_command transport s cmd in
  (s, match r with None => 1 | Some reply => if result reply =? 0 then 0 else 3 end).

Definition cmd_recover (transport : bool) (s : service) (key : option bytes) (path : list Z) : service * Z :=
  match key with
  | None => (s, 2)
  | Some k =>
    let c := with_path SAR_CTL_OP_RECOVER path 0 0 in
    run_command transport s {| op := op c; cmd_mode := 0; key_id := k; cmd_path := cmd_path c; arg0 := 0; arg1 := 0 |}
  end.

Definition cmd_preserve_recover (transport : bool) (s : service) (path : list Z) (off len : Z) : service * Z :=
  run_command transport s (with_path SAR_CTL_OP_PRESERVE_RECOVER path off len).

Definition cmd_budget (transport : bool) (s : service) (retention_sec capacity_mb : Z) : service * Z :=
  run_command transport s (with_path SAR_CTL_OP_SET_BUDGET [] (u64 (retention_sec * 10000000)) (u64 (capacity_mb * 1048576))).

Definition cmd_whitelist (transport : bool) (s : service) (o : Z) (path : list Z) : service * Z :=
  run_command transport s (with_path o path 0 0).

(** [m]: audit, enforce, or neither. *)
Definition cmd_mode_tool (transport : bool) (s : service) (m : option Z) : service * Z :=
  match m with
  | None => (s, 2)
  | Some m => run_command transport s (list_command SAR_CTL_OP_SET_MODE m)
  end.

(** ** The client library *)

Inductive sarapi_result_t :=
  | SARAPI_OK | SARAPI_INVALID_ARG | SARAPI_PIPE_UNAVAILABLE | SARAPI_ACCESS_DENIED | SARAPI_SERVER_UNTRUSTED
  | SARAPI_VERSION_MISMATCH | SARAPI_TRANSPORT_ERROR.

Definition SARAPI_PAGE : Z := 8.

(** One attempt to open the pipe: open, busy with or without a free instance in
    time, refused, or failing otherwise. *)
Inductive attempt := Opened | Busy (freed : bool) | Denied | Missing.

Fixpoint open_attempts (answers : list attempt) : sarapi_result_t :=
  match answers with
  | [] => SARAPI_PIPE_UNAVAILABLE
  | Opened :: _ => SARAPI_OK
  | Busy true :: answers => open_attempts answers
  | Busy false :: _ => SARAPI_PIPE_UNAVAILABLE
  | Denied :: _ => SARAPI_ACCESS_DENIED
  | Missing :: _ => SARAPI_PIPE_UNAVAILABLE
  end.

Definition SARAPI_CTL_ATTEMPTS : nat := 3.

Definition open_control (answers : list attempt) : sarapi_result_t := open_attempts (take SARAPI_CTL_ATTEMPTS answers).

(** [chunks]: how many bytes each call moves, [None] when it fails; the loops of
    [write_all] and [read_all]. *)
Fixpoint move_all (n : Z) (chunks : list (option Z)) : sarapi_result_t :=
  if n <=? 0 then SARAPI_OK
  else
    match chunks with
    | Some k :: chunks => if k <=? 0 then SARAPI_TRANSPORT_ERROR else move_all (n - k) chunks
    | _ => SARAPI_TRANSPORT_ERROR
    end.

(** [system]: the owner of the pipe is the system account. *)
Record pipe_answers := { pa_open : list attempt; pa_system : bool; pa_write : list (option Z); pa_read : list (option Z) }.

(** [sizeof(sar_control_reply_t)]: four numbers, the four arrays, the identity and
    the last four fields. *)
Definition sizeof_reply : Z :=
  16 + 8 * (32 + 8 + 520 + 16) + 8 * (520 + 52) + 8 * (8 + 1064 + 4) + 8 * (1064 + 12) + 1064 + 28.

Definition control_txn (a : pipe_answers) (s : service) (cmd : sar_control_command_t)
    : service * (sarapi_result_t + sar_control_reply_t) :=
  match open_control (pa_open a) with
  | SARAPI_OK =>
    if negb (pa_system a) then (s, inl SARAPI_SERVER_UNTRUSTED)
    else
      match move_all (csizeof control_command_t) (pa_write a) with
      | SARAPI_OK =>
        let '(s, reply) := serve s (Some (command_bytes cmd)) in
        match move_all sizeof_reply (pa_read a) with SARAPI_OK => (s, inr reply) | r => (s, inl r) end
      | r => (s, inl r)
      end
  | r => (s, inl r)
  end.

(** A page of a list: the result, the rows, the total and the number returned. *)
Definition api_page {A} (o : Z) (rows_of : sar_control_reply_t -> list A) (a : pipe_answers) (s : service) (start : Z)
    : service * sarapi_result_t * list A * Z * Z :=
  match control_txn a s (list_command o start) with
  | (s, inl r) => (s, r, [], 0, 0)
  | (s, inr reply) =>
    if negb (result reply =? 0) then (s, SARAPI_ACCESS_DENIED, [], 0, 0)
    else if SARAPI_PAGE <? returned reply then (s, SARAPI_TRANSPORT_ERROR, [], 0, 0)
    else (s, SARAPI_OK, take (Z.to_nat (returned reply)) (rows_of reply), total reply, returned reply)
  end.

Definition sarapi_catalog_page (a : pipe_answers) (s : service) (start : Z) := api_page SAR_CTL_OP_LIST entries a s start.

Definition sarapi_preserve_page (a : pipe_answers) (s : service) (start : Z) :=
  api_page SAR_CTL_OP_PRESERVE_LIST preserve_entries a s start.

Definition sarapi_app_identity_page (a : pipe_answers) (s : service) (start : Z) :=
  api_page SAR_CTL_OP_APP_IDENTITY_LIST app_identities a s start.

Definition sarapi_whitelist_page (a : pipe_answers) (s : service) (start : Z) :=
  api_page SAR_CTL_OP_WHITELIST_LIST whitelist_entries a s start.

(** The calls that return the result of the reply. *)
Definition api_result (a : pipe_answers) (s : service) (cmd : sar_control_command_t) : service * sarapi_result_t * Z :=
  match control_txn a s cmd with
  | (s, inl r) => (s, r, -1)
  | (s, inr reply) => (s, SARAPI_OK, result reply)
  end.

Definition sarapi_recover (a : pipe_answers) (s : service) (key : bytes) (path : list Z) :=
  let c := with_path SAR_CTL_OP_RECOVER path 0 0 in
  api_result a s {| op := op c; cmd_mode := 0; key_id := key; cmd_path := cmd_path c; arg0 := 0; arg1 := 0 |}.

Definition sarapi_preserve_recover (a : pipe_answers) (s : service) (path : list Z) (offset len : Z) :=
  api_result a s (with_path SAR_CTL_OP_PRESERVE_RECOVER path offset len).

Definition sarapi_set_mode (a : pipe_answers) (s : service) (m : Z) :=
  api_result a s (list_command SAR_CTL_OP_SET_MODE m).

Definition sarapi_set_budget (a : pipe_answers) (s : service) (retention capacity : Z) :=
  api_result a s (with_path SAR_CTL_OP_SET_BUDGET [] retention capacity).

(** The verdict, the result and the identity of the reply. *)
Definition identity_op (a : pipe_answers) (s : service) (o : Z) (path : list Z)
    : service * sarapi_result_t * Z * Z * sar_identity_t :=
  match control_txn a s (with_path o path 0 0) with
  | (s, inl r) => (s, r, 0, -1, zero_identity)
  | (s, inr reply) => (s, SARAPI_OK, verdict_code (verdict reply), result reply, resolved reply)
  end.

End Tool.

(** ** The driver's keystore as a catalogue *)

(** The entry as [SarKeystoreProject] fills it in. *)
Definition catalog_bytes (e : KeystorePersist.catalog_entry) : bytes :=
  KeystorePersist.ce_key_id e ++ le_bytes 4 (KeystorePersist.ce_algorithm e) ++ le_bytes 4 (KeystorePersist.ce_mode e) ++
  le_bytes 8 (KeystorePersist.ce_offset e) ++ u16s_bytes (KeystorePersist.ce_path e) ++
  le_bytes 8 (KeystorePersist.ce_time e) ++ le_bytes 8 (KeystorePersist.ce_actor e).

(** The keystore behind the interface of the port. *)
Definition project_bytes (ks : KeystorePersist.SAR_KEYSTORE) (index : Z) : option (Z * option bytes) :=
  let '(n, e) := KeystorePersist.SarKeystoreProject ks index in Some (n, catalog_bytes <$> e).

(** What a list shows of a record. *)
Definition row_of (r : KsRec.semantics_ar_keystore_record_t) : sar_catalog_entry_t :=
  {| ct_key_id := KsRec.key_id r; ct_algorithm := KsRec.algorithm r; ct_mode := KsRec.mode r;
     ct_path := KsRec.provenance_path r; ct_time := KsRec.capture_time r; ct_actor := KsRec.actor_start_key r |}.

Definition entry_of (r : KsRec.semantics_ar_keystore_record_t) : KeystorePersist.catalog_entry :=
  {| KeystorePersist.ce_key_id := KsRec.key_id r; KeystorePersist.ce_algorithm := KsRec.algorithm r;
     KeystorePersist.ce_mode := KsRec.mode r; KeystorePersist.ce_offset := KsRec.provenance_offset r;
     KeystorePersist.ce_path := KsRec.provenance_path r; KeystorePersist.ce_time := KsRec.capture_time r;
     KeystorePersist.ce_actor := KsRec.actor_start_key r |}.

Lemma project_lookup ks index : 0 <= index ->
  project_bytes ks index = Some (Z.of_nat (length (KeystorePersist.records ks)),
    catalog_bytes ∘ entry_of <$> KeystorePersist.records ks !! Z.to_nat index).
Proof.
  intros Hi. unfold project_bytes, KeystorePersist.SarKeystoreProject. f_equal. f_equal.
  destruct (Z.ltb_spec index (Z.of_nat (length (KeystorePersist.records ks)))).
  - by destruct (_ !! _).
  - by rewrite lookup_ge_None_2 by lia.
Qed.

Section Row.
Context (r : KsRec.semantics_ar_keystore_record_t) (Hr : struct_wf r).

Lemma row_sizes : length (KsRec.key_id r) = 32%nat /\ length (u16s_bytes (KsRec.provenance_path r)) = 520%nat.
Proof using Hr.
  destruct Hr as ((H1 & _) & _ & _ & _ & _ & _ & _ & _ & _ & _ & _ & (H2 & _) & _). cbn [fst snd] in *.
  split; [done|]. by rewrite Keystore.length_u16s_bytes, H2.
Qed.

Lemma length_catalog_bytes : Z.of_nat (length (catalog_bytes (entry_of r))) = csizeof semantics_ar_catalog_entry_t.
Proof using Hr.
  destruct row_sizes as [H1 H2]. unfold catalog_bytes, entry_of. cbn [KeystorePersist.ce_key_id KeystorePersist.ce_algorithm
    KeystorePersist.ce_mode KeystorePersist.ce_offset KeystorePersist.ce_path KeystorePersist.ce_time KeystorePersist.ce_actor].
  rewrite !length_app, !length_le_bytes, H1, H2. vm_compute. reflexivity.
Qed.

(** The service reads the fields of the record out of the entry. *)
Lemma catalog_row_of {P : Type} (s : service (P := P)) : catalog_row (catalog_bytes (entry_of r)) s = (row_of r, s).
Proof using Hr.
  destruct row_sizes as [H1 H2].
  destruct Hr as ((_ & _) & (H3 & H3') & (H4 & H4') & _ & _ & _ & _ & _ & _ & _ & _ & (H5 & H6) & _ & _ & _ & (H7 & H7') & H8 & H8').
  cbn [fst snd] in *. unfold catalog_row, row_of, msg_uint.
  set (b := catalog_bytes (entry_of r)).
  assert (D1 : drop 32 b = le_bytes 4 (KsRec.algorithm r) ++ le_bytes 4 (KsRec.mode r) ++
    le_bytes 8 (KsRec.provenance_offset r) ++ u16s_bytes (KsRec.provenance_path r) ++
    le_bytes 8 (KsRec.capture_time r) ++ le_bytes 8 (KsRec.actor_start_key r)).
  { unfold b, catalog_bytes, entry_of. cbn. by rewrite drop_app_length' by done. }
  assert (D2 : forall n, drop (32 + n) b = drop n (drop 32 b)) by (intros n; by rewrite drop_drop).
  assert (E1 : msg_field semantics_ar_catalog_entry_t "key_id" b = KsRec.key_id r).
  { change (take 32 b = KsRec.key_id r). unfold b, catalog_bytes. by rewrite take_app_length' by done. }
  assert (E2 : msg_field semantics_ar_catalog_entry_t "algorithm" b = le_bytes 4 (KsRec.algorithm r)).
  { change (take 4 (drop 32 b) = le_bytes 4 (KsRec.algorithm r)). by rewrite D1, take_app_length'. }
  assert (E3 : msg_field semantics_ar_catalog_entry_t "mode" b = le_bytes 4 (KsRec.mode r)).
  { change (take 4 (drop (32 + 4) b) = le_bytes 4 (KsRec.mode r)). rewrite D2, D1, drop_app_length' by done.
    by rewrite take_app_length'. }
  assert (D3 : drop 48 b = u16s_bytes (KsRec.provenance_path r) ++ le_bytes 8 (KsRec.capture_time r) ++
    le_bytes 8 (KsRec.actor_start_key r)).
  { change 48%nat with (32 + 16)%nat. rewrite D2, D1. rewrite !app_assoc, <- app_assoc, <- app_assoc.
    rewrite drop_app_length'; [by rewrite <- app_assoc|]. rewrite !length_app, !length_le_bytes. done. }
  assert (E4 : msg_field semantics_ar_catalog_entry_t "provenance_path" b = u16s_bytes (KsRec.provenance_path r)).
  { change (take 520 (drop 48 b) = u16s_bytes (KsRec.provenance_path r)). by rewrite D3, take_app_length'. }
  assert (D4 : drop 568 b = le_bytes 8 (KsRec.capture_time r) ++ le_bytes 8 (KsRec.actor_start_key r)).
  { change 568%nat with (48 + 520)%nat. rewrite <- drop_drop, D3. by rewrite drop_app_length'. }
  assert (E5 : msg_field semantics_ar_catalog_entry_t "capture_time" b = le_bytes 8 (KsRec.capture_time r)).
  { change (take 8 (drop 568 b) = le_bytes 8 (KsRec.capture_time r)). by rewrite D4, take_app_length'. }
  assert (E6 : msg_field semantics_ar_catalog_entry_t "actor_start_key" b = le_bytes 8 (KsRec.actor_start_key r)).
  { change (take 8 (drop (568 + 8) b) = le_bytes 8 (KsRec.actor_start_key r)).
    rewrite <- drop_drop, D4, drop_app_length' by done. by rewrite take_ge by done. }
  rewrite E1, E2, E3, E4, E5, E6, bytes_u16s_u16s by done.
  rewrite !le_val_le_bytes by (split; assumption). done.
Qed.

End Row.

(** ** Printing the rows *)

(** What [sarctl list] prints of a record. *)
Definition line_of (n : Z) (r : KsRec.semantics_ar_keystore_record_t) : key_line :=
  KeyLine n (KsRec.algorithm r) (KsRec.mode r) (KsRec.key_id r) (until_nul (KsRec.provenance_path r)).

(** The path ends within its field. *)
Definition path_ends (r : KsRec.semantics_ar_keystore_record_t) : bool := existsb (Z.eqb 0) (KsRec.provenance_path r).

Lemma until_nul_ends (p : list Z) : (length (until_nul p) <? length p)%nat = existsb (Z.eqb 0) p.
Proof.
  induction p as [|x p IH]; [done|]. cbn [until_nul existsb]. rewrite (Z.eqb_sym 0 x).
  destruct (x =? 0); cbn [length orb]; [done|]. exact IH.
Qed.

Lemma print_key_of n r : struct_wf r -> print_key n (row_of r) = if path_ends r then Ret (line_of n r) else OutOfBounds.
Proof.
  intros Hr. destruct (row_sizes r Hr) as [Hk _].
  destruct Hr as (_ & _ & _ & _ & _ & _ & _ & _ & _ & _ & _ & (Hp & _) & _). cbn [fst snd] in Hp.
  unfold print_key, local_string, path_ends. cbn [row_of ct_path ct_algorithm ct_mode ct_key_id].
  change SEMANTICS_AR_PROTO_PATH_MAX with 260%nat. rewrite take_ge by lia. rewrite <- Hp, until_nul_ends.
  destruct (existsb _ _); cbn [cbind]; [|done]. unfold line_of. rewrite take_ge; [done|]. rewrite Hk. vm_compute. lia.
Qed.

Lemma print_rows_app {A L} (line : Z -> A -> cres L) n a b : is_u32 n -> n + Z.of_nat (length a) < 2 ^ 32 ->
  print_rows line n (a ++ b) =
  let! x := print_rows line n a in let! y := print_rows line (n + Z.of_nat (length a)) b in Ret (x ++ y).
Proof.
  revert n. induction a as [|e a IH]; intros n Hn Hlt; cbn [app print_rows length] in *.
  - cbn [cbind]. rewrite Z.add_0_r. by destruct (print_rows line n b).
  - destruct (line n e); cbn [cbind]; [|done..]. unfold is_u in Hn. rewrite u32_small by (unfold is_u; lia).
    rewrite IH by (unfold is_u; lia). replace (n + Z.of_nat (S (length a))) with (n + 1 + Z.of_nat (length a)) by lia.
    destruct (print_rows line (n + 1) a); cbn [cbind]; [|done..]. by destruct (print_rows _ _ b).
Qed.

Lemma print_records n rs : Forall struct_wf rs -> is_u32 n -> n + Z.of_nat (length rs) < 2 ^ 32 ->
  print_rows print_key n (row_of <$> rs) =
    if forallb path_ends rs then Ret (imap (fun i r => line_of (n + Z.of_nat i) r) rs) else OutOfBounds.
Proof.
  intros Hw. revert n. induction Hw as [|r rs Hr Hw IH]; intros n Hn Hlt; [done|].
  cbn [fmap list_fmap print_rows forallb length] in *. rewrite print_key_of by done.
  destruct (path_ends r); cbn [cbind andb]; [|done]. unfold is_u in Hn. rewrite u32_small by (unfold is_u; lia).
  rewrite IH by (unfold is_u; lia). destruct (forallb path_ends rs); cbn [cbind]; [|done].
  cbn [imap]. rewrite Z.add_0_r. do 2 f_equal. apply imap_ext. intros i x _. cbn. f_equal. lia.
Qed.

(** ** Through the port *)

Section Through.
Context {E : Type} `{!Services E} (precise now : Z).

#[local] Instance the_port : FilterPort (driver_port (E := E)) := driver_filter_port precise now.

Context (fold_case : Z -> Z) (QueryDosDevice : Z -> option (list Z)).
Context (GetFileAttributesEx : list Z -> option (Z * Z)) (files : list Z -> file_answers).
Context (process_image : Z -> option (list Z)).
Context (recovery_run : sar_comm_client_t (driver_port (E := E)) -> bytes -> list Z ->
  sar_comm_client_t (driver_port (E := E)) * Z).
Context (preserve_run : sar_comm_client_t (driver_port (E := E)) -> list Z -> Z -> Z ->
  sar_comm_client_t (driver_port (E := E)) * Z).

Definition serve_admin (s : service (P := driver_port (E := E))) (b : option bytes) :=
  sar_control_serve fold_case QueryDosDevice GetFileAttributesEx files process_image recovery_run preserve_run s b true true.

Context (c : Comm.SAR_COMM) (g : Comm.globals (E := E)) (ks : KeystorePersist.SAR_KEYSTORE).
Hypothesis Hauth : Handshake.sar_handshake_authenticated (Comm.handshake c) = true.
Hypothesis Hks : forall i, SarKeystoreProject (Comm.g_services g) i = project_bytes ks i.
Hypothesis Hwf : Forall struct_wf (KeystorePersist.records ks).
Hypothesis Hcap : Z.of_nat (length (KeystorePersist.records ks)) <= KeystorePersist.SAR_KEYSTORE_CAPACITY.

Abbreviation recs := (KeystorePersist.records ks).

Lemma client_same (cl : sar_comm_client_t (driver_port (E := E))) d : port cl = Some d -> set_port d cl = cl.
Proof using Type. intros H. destruct cl. cbn in H. by rewrite H. Qed.

Lemma service_same (s : service (P := driver_port (E := E))) cl : cl = client s -> set_client cl s = s.
Proof using Type. intros ->. by destruct s. Qed.

(** One entry. *)
Lemma fetch_driver cl index : port cl = Some {| dp_comm := c; dp_driver := g |} -> is_u32 index ->
  sar_catalog_fetch cl index =
    (cl, Some (Z.of_nat (length recs), catalog_bytes ∘ entry_of <$> recs !! Z.to_nat index)).
Proof using All.
  intros Hp Hi. unfold sar_catalog_fetch, fetch.
  set (e := catalog_bytes ∘ entry_of <$> recs !! Z.to_nat index).
  pose proof (catalog_answer precise now c g Hauth index Hi) as Ha.
  rewrite (Hks index), project_lookup in Ha by (unfold is_u in Hi; lia). fold e in Ha. cbn [default from_option id] in Ha.
  assert (Hn : u32 (Z.of_nat (length recs)) = Z.of_nat (length recs))
    by (apply u32_small; unfold KeystorePersist.SAR_KEYSTORE_CAPACITY in Hcap; unfold is_u; lia).
  rewrite Hn in Ha.
  assert (Hok : reply_ok (Comm.CatalogReply index (Z.of_nat (length recs)) e)).
  { unfold e. cbn [reply_ok]. destruct (recs !! Z.to_nat index) as [r|] eqn:El; [|done].
    cbn. apply length_catalog_bytes. rewrite Forall_lookup in Hwf. by eapply Hwf. }
  pose proof (exchange precise now cl c g Hp _ _ _ _ Hok Ha) as Hx. cbn [Comm.reply_size reply_type] in Hx.
  unfold the_port. rewrite Hx.
  rewrite (client_same cl _ Hp). do 2 f_equal.
  set (m := reply_bytes _).
  assert (H1 : msg_uint semantics_ar_catalog_reply_t "total" m = Z.of_nat (length recs)).
  { change (le_val (le_bytes 4 (Z.of_nat (length recs))) = Z.of_nat (length recs)). apply le_val_le_bytes.
    unfold KeystorePersist.SAR_KEYSTORE_CAPACITY in Hcap. lia. }
  assert (H2 : msg_uint semantics_ar_catalog_reply_t "valid" m = if bool_decide (e <> None) then 1 else 0).
  { change (le_val (bool_bytes (bool_decide (e <> None))) = if bool_decide (e <> None) then 1 else 0).
    by destruct (bool_decide (e <> None)). }
  rewrite H1, H2. f_equal. destruct e as [b|] eqn:Ee; cbn [bool_decide]; [|reflexivity].
  rewrite bool_decide_eq_true_2 by done. change (1 =? 0) with false. cbv iota. f_equal.
  change (take 584 (b : bytes) = b). apply take_ge. cbn [reply_ok entry_ok from_option] in Hok.
  change (csizeof semantics_ar_catalog_entry_t) with 584 in Hok. lia.
Qed.

(** The rows of a page. *)
Lemma page_driver n s index tot acc : port (client s) = Some {| dp_comm := c; dp_driver := g |} ->
  0 <= index -> index + Z.of_nat n < 2 ^ 32 -> (n <> 0)%nat ->
  page sar_catalog_fetch catalog_row n s index tot acc =
    (s, acc ++ (row_of <$> take n (drop (Z.to_nat index) recs)), Some (Z.of_nat (length recs))).
Proof using All.
  intros Hp. revert index tot acc. induction n as [|n IH]; intros index tot acc Hi Hn Hz; [done|]. clear Hz.
  cbn [page]. rewrite (fetch_driver _ index Hp) by (unfold is_u; lia).
  rewrite (service_same s) by done. destruct (recs !! Z.to_nat index) as [r|] eqn:El.
  - cbn [fmap option_fmap option_map compose].
    assert (Hr : struct_wf r) by (rewrite Forall_lookup in Hwf; by eapply Hwf).
    change ((catalog_bytes ∘ entry_of) r) with (catalog_bytes (entry_of r)).
    rewrite (catalog_row_of r Hr). rewrite u32_small by (unfold is_u; lia).
    rewrite (drop_S _ _ _ El). cbn [take fmap list_fmap].
    replace (S (Z.to_nat index)) with (Z.to_nat (index + 1)) by lia.
    destruct n as [|n].
    + cbn [page take fmap list_fmap]. done.
    + rewrite IH by lia. by rewrite <- app_assoc.
  - cbn [fmap option_fmap option_map]. apply lookup_ge_None in El.
    rewrite drop_ge by lia. cbn [take fmap list_fmap]. by rewrite app_nil_r.
Qed.

Lemma command_of_list o start : is_u32 o -> is_u32 start -> command_of (command_bytes (list_command o start)) = list_command o start.
Proof using Type.
  intros Ho Hs. set (b := command_bytes _). unfold command_of, msg_uint.
  assert (E1 : msg_field control_command_t "op" b = le_bytes 4 o) by reflexivity.
  assert (E2 : msg_field control_command_t "mode" b = le_bytes 4 start) by reflexivity.
  assert (E3 : msg_field control_command_t "key_id" b = replicate SEMANTICS_AR_KEY_ID_SIZE 0) by reflexivity.
  assert (E4 : msg_field control_command_t "image_path" b = u16s_bytes (replicate SEMANTICS_AR_PROTO_PATH_MAX 0))
    by reflexivity.
  assert (E5 : msg_field control_command_t "arg0" b = le_bytes 8 0) by reflexivity.
  assert (E6 : msg_field control_command_t "arg1" b = le_bytes 8 0) by reflexivity.
  rewrite E1, E2, E3, E4, E5, E6, !le_val_le_bytes by (done || (unfold is_u in *; lia)).
  rewrite bytes_u16s_u16s; [reflexivity|reflexivity|]. apply Forall_replicate. by vm_compute.
Qed.

(** The reply to the command for a page. *)
Lemma serve_list s start : port (client s) = Some {| dp_comm := c; dp_driver := g |} -> is_u32 start ->
  start + Z.of_nat SAR_CTL_LIST_PAGE < 2 ^ 32 ->
  let rows := row_of <$> take SAR_CTL_LIST_PAGE (drop (Z.to_nat start) recs) in
  serve_admin s (Some (command_bytes (list_command SAR_CTL_OP_LIST start))) =
    (s, page_reply (put_entries rows) (length rows) (Some (Z.of_nat (length recs)))).
Proof using All.
  intros Hp Hs Hm. unfold serve_admin, sar_control_serve. rewrite command_of_list by (done || by vm_compute).
  assert (Hl : Z.of_nat (length (command_bytes (list_command SAR_CTL_OP_LIST start))) = csizeof control_command_t)
    by reflexivity.
  rewrite Hl, Z.eqb_refl. cbn [negb andb].
  change (sar_control_apply _ _ _ _ _ _ _ s (list_command SAR_CTL_OP_LIST start)) with
    (list_cmd s (list_command SAR_CTL_OP_LIST start)).
  unfold list_cmd. cbn [cmd_mode list_command].
  rewrite (page_driver SAR_CTL_LIST_PAGE s start 0 [] Hp) by (unfold is_u, SAR_CTL_LIST_PAGE in *; lia). reflexivity.
Qed.

(** The lines of the records from an index on. *)
Definition lines_from (start : nat) : cres (list key_line) := print_rows print_key (Z.of_nat start) (row_of <$> drop start recs).

Lemma lines_split start k : (start + k <= length recs)%nat ->
  lines_from start =
  let! x := print_rows print_key (Z.of_nat start) (row_of <$> take k (drop start recs)) in
  let! y := lines_from (start + k) in Ret (x ++ y).
Proof using All.
  intros Hk. unfold KeystorePersist.SAR_KEYSTORE_CAPACITY in Hcap. unfold lines_from.
  rewrite <- (take_drop k (drop start recs)) at 1. rewrite fmap_app.
  assert (Hl : length (row_of <$> take k (drop start recs)) = k) by (rewrite length_fmap, length_take, length_drop; lia).
  rewrite print_rows_app by (rewrite ?Hl; unfold is_u; lia). rewrite Hl, drop_drop.
  by replace (Z.of_nat start + Z.of_nat k) with (Z.of_nat (start + k)) by lia.
Qed.

Lemma list_loop_driver fuel s start printed : port (client s) = Some {| dp_comm := c; dp_driver := g |} ->
  (start <= length recs)%nat -> (length recs - start < fuel)%nat ->
  list_loop serve_admin SAR_CTL_OP_LIST entries print_key fuel true s (Z.of_nat start) printed =
    let! ls := lines_from start in Ret (s, printed ++ ls, 0, Some (Z.of_nat (length recs))).
Proof using All.
  intros Hp. unfold KeystorePersist.SAR_KEYSTORE_CAPACITY in Hcap. revert start printed.
  induction fuel as [|fuel IH]; intros start printed Hs Hf; [lia|]. cbn [list_loop]. unfold send_command.
  rewrite (serve_list s (Z.of_nat start) Hp) by (unfold is_u, SAR_CTL_LIST_PAGE; lia). rewrite Nat2Z.id.
  set (rows := row_of <$> _). cbn [page_reply returned total entries put_entries reply_with].
  assert (Hlen : length rows = Nat.min 8 (length recs - start)).
  { unfold rows. by rewrite length_fmap, length_take, length_drop. }
  destruct (Z.eqb_spec (Z.of_nat (length rows)) 0) as [Hz|Hz].
  { assert (Hd : drop start recs = []) by (apply drop_ge; lia).
    unfold lines_from. rewrite Hd. cbn [fmap list_fmap print_rows cbind]. by rewrite app_nil_r. }
  rewrite !Nat2Z.id, take_ge by done. set (k := length rows) in *.
  assert (Hrows : rows = row_of <$> take k (drop start recs)).
  { unfold rows. f_equal. rewrite Hlen. rewrite <- length_drop.
    destruct (Nat.min_spec 8 (length (drop start recs))) as [[? ->]|[? ->]]; [done|].
    unfold SAR_CTL_LIST_PAGE. by rewrite !take_ge by lia. }
  rewrite (lines_split start k) by lia. rewrite <- Hrows.
  destruct (print_rows print_key (Z.of_nat start) rows) as [ls| |]; cbn [cbind]; [|done..].
  rewrite u32_small by (unfold is_u; lia).
  replace (Z.of_nat start + Z.of_nat k) with (Z.of_nat (start + k)) by lia.
  destruct (Z.ltb_spec (Z.of_nat (start + k)) (Z.of_nat (length recs))).
  - rewrite IH by lia. destruct (lines_from (start + k)); cbn [cbind]; [by rewrite <- app_assoc|done..].
  - unfold lines_from. rewrite drop_ge by lia. cbn [fmap list_fmap print_rows cbind]. by rewrite app_nil_r.
Qed.

(** Property C29: [sarctl list] shows the driver's keystore.  Run by an
    administrator against a service whose port is authenticated, the tool ends
    with exit code 0 after printing one line for every record of the keystore, in
    order and numbered from 0, with the algorithm, mode, key identifier and path
    of the record, and then the number of records; service and driver are
    unchanged.  This is so exactly when the path of every record ends within its
    field of 260 characters; otherwise the tool writes behind its local array. *)
Theorem sarctl_lists_keystore s : port (client s) = Some {| dp_comm := c; dp_driver := g |} ->
  cmd_list serve_admin (S (length recs)) true s =
    if forallb path_ends recs
    then Ret (s, imap (fun i r => line_of (Z.of_nat i) r) recs, 0, Some (Z.of_nat (length recs)))
    else OutOfBounds.
Proof using All.
  intros Hp. unfold cmd_list. change 0 with (Z.of_nat 0) at 1.
  rewrite (list_loop_driver _ s 0 [] Hp) by lia. unfold lines_from. rewrite drop_0.
  unfold KeystorePersist.SAR_KEYSTORE_CAPACITY in Hcap.
  rewrite print_records by (done || unfold is_u; lia). by destruct (forallb path_ends recs).
Qed.

End Through.

(** ** A refusal *)

(** The service as a caller meets it who is not an administrator. *)
Definition serve_other {P} `{!FilterPort P} fold_case dos stat files image rec pres (s : service (P := P)) (b : option bytes) :=
  sar_control_serve fold_case dos stat files image rec pres s b true false.

(** [sarctl list] does not look at the result of the reply: refused by the service,
    it reports no captured keys and succeeds, whatever the keystore holds.  The
    client library checks the result and reports the refusal. *)
Theorem refused_list_looks_empty {P} `{!FilterPort P} fold_case dos stat files image rec pres (s : service (P := P))
    (a : pipe_answers) :
  cmd_list (serve_other fold_case dos stat files image rec pres) 1 true s = Ret (s, [], 0, Some 0) /\
  (open_control (pa_open a) = SARAPI_OK -> pa_system a = true ->
   move_all (csizeof control_command_t) (pa_write a) = SARAPI_OK -> move_all sizeof_reply (pa_read a) = SARAPI_OK ->
   sarapi_catalog_page (serve_other fold_case dos stat files image rec pres) a s 0 = (s, SARAPI_ACCESS_DENIED, [], 0, 0)).
Proof.
  split.
  - unfold cmd_list. cbn [list_loop]. unfold send_command, serve_other, sar_control_serve.
    by destruct (negb _).
  - intros H1 H2 H3 H4. unfold sarapi_catalog_page, api_page, control_txn. rewrite H1, H2, H3. cbn [negb].
    unfold serve_other, sar_control_serve. rewrite H4. by destruct (negb _).
Qed.

(** ** A run *)

Definition demo_ks : KeystorePersist.SAR_KEYSTORE :=
  KeystorePersist.set_table [Keystore.demo_rec 0; Keystore.demo_rec 8192] 1 KeystorePersist.zero_anchor
    KeystorePersist.demo_store.

(** A driver whose only service is its keystore. *)
#[local] Instance keystore_services : Services KeystorePersist.SAR_KEYSTORE := {|
  SarRecoveryExecute e _ := (e, 0, 0);
  SarPreserveRecoveryExecute e _ := (e, 0, 0);
  SarPreserveSetBudget e _ _ := e;
  SarPreserveStats _ := Comm.no_stats;
  SarCaptureInflight _ := 0;
  tamper_detected _ := false;
  SarKeystoreProject ks i := project_bytes ks i;
  SarPreserveProject _ _ := None
|}.

Definition demo_globals : Comm.globals (E := KeystorePersist.SAR_KEYSTORE) :=
  {| Comm.g_state := Comm.g_state Comm.demo_driver; Comm.g_eventlog := None; Comm.g_services := demo_ks |}.

Definition demo_service : service (P := driver_port (E := KeystorePersist.SAR_KEYSTORE)) :=
  {| client := {| port := Some {| dp_comm := Service.demo_comm; dp_driver := demo_globals |};
                  mode := 0; captured_key_count := 0 |};
     av_paths := []; av_rescan := false; attrib := sar_attrib_init |}.

Definition demo_file (p : list Z) : file_answers :=
  {| fa_open := false; fa_hash := None; fa_trusted := false; fa_subject := None |}.

(** Two records, two lines. *)
Lemma sarctl_lists_keystore_witness :
  cmd_list (serve_admin 1 1 (fun c => c) (fun _ => None) (fun _ => None) demo_file (fun _ => None)
              (fun c _ _ => (c, 1)) (fun c _ _ _ => (c, 1))) 3 true demo_service =
    Ret (demo_service, [line_of 0 (Keystore.demo_rec 0); line_of 1 (Keystore.demo_rec 8192)], 0, Some 2).
Proof.
  assert (Hends : forallb path_ends (KeystorePersist.records demo_ks) = true) by (vm_compute; reflexivity).
  pose proof (sarctl_lists_keystore 1 1 (fun c => c) (fun _ => None) (fun _ => None) demo_file (fun _ => None)
    (fun c _ _ => (c, 1)) (fun c _ _ _ => (c, 1)) Service.demo_comm demo_globals demo_ks Service.demo_authenticated
    (fun _ => eq_refl) (Forall_cons_2 _ _ _ Keystore.demo_rec_wf_0 (Forall_cons_2 _ _ _ Keystore.demo_rec_wf_1 (Forall_nil_2 _)))
    ltac:(discriminate) demo_service eq_refl) as H.
  rewrite Hends in H. exact H.
Defined.

End Listing.
