(* ===== verification/EventStream.v ===== *)
(** * The stream of events, from the driver to a reader

    [sar_events_serve] of service/control.c over the event log of
    driver/eventlog.c: the frames a reader of the pipe gets are the events of the
    history in order, each at most once, with every loss marked. *)

From Stdlib Require Import String.
From S2P Require Import Prelude Mem Format Protocol Handshake Whitelist CipherCommon EventLog DriverState Comm Service.
From S2P Require Import PortClient Attrib Control.
Import Mem Layout Protocol Service PortClient Control.

Module EventStream.

Section Stream.
Context {E : Type} `{!Services E} (precise now : Z).

#[local] Instance the_events_port : FilterPort (driver_port (E := E)) := driver_filter_port precise now.

(** The generation of the log. *)
Context (gen : Z).
Hypothesis Hgen : is_u64 gen.
Hypothesis Hgen0 : gen <> 0.

(** The driver has logged the events [h]. *)
Definition logged (h : list EventLog.event) (r : events_round (P := driver_port (E := E))) : Prop :=
  exists (c : Comm.SAR_COMM) (g : Comm.globals (E := E)) (log : EventLog.SAR_EVENTLOG),
    port (round_client r) = Some {| dp_comm := c; dp_driver := g |} /\
    Handshake.sar_handshake_authenticated (Comm.handshake c) = true /\
    Comm.g_eventlog g = Some log /\ EventLog.holds gen log h.

Definition event_ok (e : EventLog.event) : Prop := is_u32 (EventLog.class e) /\ is_u64 (EventLog.actor e).

Record history_ok (h : list EventLog.event) : Prop := {
  ho_events : Forall event_ok h;
  ho_size : Z.of_nat (length h) + 2 < 2 ^ 64
}.

(** The frame of a record. *)
Definition frame_of (r : EventLog.SAR_EVENT_RECORD) (gap : bool) : sar_events_frame_t :=
  {| ef_valid := true; ef_gap := if gap then 1 else 0; ef_class := EventLog.event_class r;
     ef_generation := EventLog.ev_generation r; ef_sequence := EventLog.sequence r;
     ef_timestamp := EventLog.timestamp_100ns r; ef_actor := EventLog.actor_start_key r |}.

Record record_ok (r : EventLog.SAR_EVENT_RECORD) : Prop := {
  ro_class : is_u32 (EventLog.event_class r);
  ro_gen : is_u64 (EventLog.ev_generation r);
  ro_seq : is_u64 (EventLog.sequence r);
  ro_time : is_u64 (EventLog.timestamp_100ns r);
  ro_actor : is_u64 (EventLog.actor_start_key r)
}.

Lemma record_of_ok h i : history_ok h -> record_ok (EventLog.record_of gen h i).
Proof using Hgen.
  intros [He Hs]. unfold EventLog.record_of. destruct (h !! i) as [e|] eqn:El.
  - pose proof (lookup_lt_Some _ _ _ El) as Hi. rewrite Forall_lookup in He. destruct (He _ _ El) as [Hc Ha].
    constructor; cbn; [done|done|unfold is_u; lia|apply is_u_u64|done].
  - by constructor; vm_compute.
Qed.

(** What the service reads in a reply. *)
Lemma reply_frame r gap : record_ok r ->
  let m := reply_bytes (Comm.EventsReply true gap r) in
  msg_uint semantics_ar_events_reply_t "valid" m = 1 /\ event_frame m = frame_of r gap.
Proof using Type.
  intros [H1 H2 H3 H4 H5] m. split; [reflexivity|]. unfold event_frame, frame_of.
  assert (E1 : msg_uint semantics_ar_events_reply_t "gap" m = if gap then 1 else 0) by (by destruct gap).
  assert (E2 : msg_uint semantics_ar_events_reply_t "event_class" m = EventLog.event_class r).
  { change (le_val (le_bytes 4 (EventLog.event_class r)) = EventLog.event_class r). by apply le_val_le_bytes. }
  assert (E3 : msg_uint semantics_ar_events_reply_t "generation" m = EventLog.ev_generation r).
  { change (le_val (le_bytes 8 (EventLog.ev_generation r)) = EventLog.ev_generation r). by apply le_val_le_bytes. }
  assert (E4 : msg_uint semantics_ar_events_reply_t "sequence" m = EventLog.sequence r).
  { change (le_val (le_bytes 8 (EventLog.sequence r)) = EventLog.sequence r). by apply le_val_le_bytes. }
  assert (E5 : msg_uint semantics_ar_events_reply_t "timestamp" m = EventLog.timestamp_100ns r).
  { change (le_val (le_bytes 8 (EventLog.timestamp_100ns r)) = EventLog.timestamp_100ns r). by apply le_val_le_bytes. }
  assert (E6 : msg_uint semantics_ar_events_reply_t "actor_start_key" m = EventLog.actor_start_key r).
  { change (le_val (le_bytes 8 (EventLog.actor_start_key r)) = EventLog.actor_start_key r). by apply le_val_le_bytes. }
  by rewrite E1, E2, E3, E4, E5, E6.
Qed.

(** A query of a round. *)
Lemma round_query h r qg qs : history_ok h -> logged h r -> is_u64 qg -> is_u64 qs ->
  (sar_comm_query_events (round_client r) qg qs).2 =
    inr (reply_bytes (let '(record, valid, gap) := EventLog.spec_query gen h qg qs in
                      Comm.EventsReply valid gap (if valid then record else EventLog.zero_record))).
Proof using Hgen Hgen0.
  intros [_ Hs] (c & g & log & Hp & Ha & Hl & Hh) Hqg Hqs. unfold sar_comm_query_events.
  pose proof (events_answer precise now c g Ha qg qs Hqg Hqs) as Hx.
  rewrite Hl, (EventLog.query_refines gen Hgen0 log h qg qs Hh Hs Hqs) in Hx.
  destruct (EventLog.spec_query gen h qg qs) as [[record valid] gap].
  pose proof (exchange precise now (round_client r) c g Hp _ (Comm.EventsReply valid gap (if valid then record else EventLog.zero_record))
    c g I Hx) as He. cbn [Comm.reply_size reply_type] in He. unfold the_events_port. by rewrite He.
Qed.

(** ** The reader's position *)

(** The index of the last event received; none yet is the position (0, 0). *)
Definition cursor (prev : option nat) : Z * Z :=
  match prev with None => (0, 0) | Some p => (gen, Z.of_nat p + 1) end.

(** The next event a reader gets of the history, if there is one, and whether
    events in between are lost. *)
Definition next_event (h : list EventLog.event) (prev : option nat) : option (nat * bool) :=
  let o := EventLog.first_kept h in
  match prev with
  | None => if (length h =? 0)%nat then None else Some (o, false)
  | Some p =>
    if (length h <=? S p)%nat then None else Some (Nat.max (S p) o, (S p <? o)%nat)
  end.

Lemma spec_next h prev : history_ok h -> (forall p, prev = Some p -> (p < length h)%nat) ->
  EventLog.spec_query gen h (cursor prev).1 (cursor prev).2 =
    match next_event h prev with
    | Some (i, gap) => (EventLog.record_of gen h i, true, gap)
    | None => (EventLog.zero_record, false, false)
    end.
Proof using Hgen0.
  intros [_ Hs] Hp. unfold EventLog.spec_query, next_event, cursor. destruct prev as [p|]; cbn [fst snd].
  - specialize (Hp p eq_refl). rewrite Z.eqb_refl, u64_small by (unfold is_u; lia).
    destruct (Nat.eqb_spec (length h) 0); [lia|].
    destruct (Z.ltb_spec (Z.of_nat (length h)) (Z.of_nat p + 1 + 1)), (Nat.leb_spec (length h) (S p)); try lia; [done|].
    assert (Ho : (EventLog.first_kept h < length h)%nat) by (unfold EventLog.first_kept, EventLog.SAR_EVENTLOG_CAPACITY; lia).
    destruct (Z.ltb_spec (Z.of_nat p + 1 + 1) (Z.of_nat (EventLog.first_kept h) + 1)),
      (Nat.ltb_spec (S p) (EventLog.first_kept h)); try lia.
    + by rewrite Nat.max_r by lia.
    + rewrite Nat.max_l by lia. do 3 f_equal. lia.
  - destruct (Nat.eqb_spec (length h) 0); [done|]. destruct (Z.eqb_spec 0 gen); [by symmetry in e|done].
Qed.

(** ** What the reader gets *)

(** Frames that are events of [H] at growing positions after [prev], a gap marked
    exactly where events are missing in between. *)
Fixpoint faithful (H : list EventLog.event) (prev : option nat) (fs : list sar_events_frame_t) : Prop :=
  match fs with
  | [] => True
  | f :: fs =>
    exists i gap, (i < length H)%nat /\ f = frame_of (EventLog.record_of gen H i) gap /\
      (forall p, prev = Some p -> (p < i)%nat /\ (gap = true <-> i <> S p)) /\ (prev = None -> gap = false) /\
      faithful H (Some i) fs
  end.

(** Histories of successive rounds. *)
Fixpoint follows (h : list EventLog.event) (hs : list (list EventLog.event)) : Prop :=
  match hs with
  | [] => True
  | h' :: hs => h `prefix_of` h' /\ follows h' hs
  end.

Lemma record_of_prefix h H i : h `prefix_of` H -> (i < length h)%nat ->
  EventLog.record_of gen h i = EventLog.record_of gen H i.
Proof using Type. intros [k ->] Hi. unfold EventLog.record_of. by rewrite lookup_app_l. Qed.

Lemma prefix_ok h H : h `prefix_of` H -> history_ok H -> history_ok h.
Proof using Type.
  intros [k ->] [H1 H2]. apply Forall_app in H1 as [H1 _]. rewrite length_app in H2. constructor; [done|lia].
Qed.

Lemma next_in h prev i gap : next_event h prev = Some (i, gap) -> (i < length h)%nat /\
  (forall p, prev = Some p -> (p < i)%nat /\ (gap = true <-> i <> S p)) /\ (prev = None -> gap = false).
Proof using Type.
  unfold next_event. destruct prev as [p|].
  - destruct (Nat.leb_spec (length h) (S p)); [done|]. intros [= <- <-].
    unfold EventLog.first_kept, EventLog.SAR_EVENTLOG_CAPACITY in *. split; [lia|]. split; [|done].
    intros p' [= <-]. split; [lia|]. rewrite Nat.ltb_lt. lia.
  - destruct (Nat.eqb_spec (length h) 0); [done|]. intros [= <- <-].
    unfold EventLog.first_kept, EventLog.SAR_EVENTLOG_CAPACITY in *. split; [lia|]. by split.
Qed.

Lemma cursor_u64 h prev : history_ok h -> (forall p, prev = Some p -> (p < length h)%nat) ->
  is_u64 (cursor prev).1 /\ is_u64 (cursor prev).2.
Proof using Hgen.
  intros [_ Hs] Hp. destruct prev as [p|]; cbn [cursor fst snd]; [|split; unfold is_u; lia].
  specialize (Hp p eq_refl). split; [done|unfold is_u; lia].
Qed.

(** The reply of a round, by the reader's position. *)
Lemma round_reply h r prev : history_ok h -> logged h r -> (forall p, prev = Some p -> (p < length h)%nat) ->
  exists m, (sar_comm_query_events (round_client r) (cursor prev).1 (cursor prev).2).2 = inr m /\
    match next_event h prev with
    | Some (i, gap) =>
      (msg_uint semantics_ar_events_reply_t "valid" m =? 0) = false /\
      event_frame m = frame_of (EventLog.record_of gen h i) gap /\
      msg_uint semantics_ar_events_reply_t "generation" m = (cursor (Some i)).1 /\
      msg_uint semantics_ar_events_reply_t "sequence" m = (cursor (Some i)).2
    | None => (msg_uint semantics_ar_events_reply_t "valid" m =? 0) = true
    end.
Proof using Hgen Hgen0.
  intros Hok Hl Hp. destruct (cursor_u64 h prev Hok Hp) as [U1 U2].
  rewrite (round_query h r _ _ Hok Hl U1 U2), (spec_next h prev Hok Hp). eexists. split; [reflexivity|].
  destruct (next_event h prev) as [[i gap]|] eqn:En; [|reflexivity].
  pose proof (record_of_ok h i Hok) as Hr. destruct (reply_frame _ gap Hr) as [Hv Hf].
  cbv iota beta. rewrite Hv. split; [done|]. split; [exact Hf|].
  set (m := reply_bytes _) in *. destruct (next_in _ _ _ _ En) as [Hi _].
  assert (G : ef_generation (event_frame m) = gen) by (rewrite Hf; unfold frame_of, EventLog.record_of; cbn;
    by destruct (lookup_lt_is_Some_2 h i Hi) as [e ->]).
  assert (Q : ef_sequence (event_frame m) = Z.of_nat i + 1)
    by (rewrite Hf; unfold frame_of; cbn; by apply EventLog.record_sequence).
  by split.
Qed.

Definition valid_frames (fs : list sar_events_frame_t) : list sar_events_frame_t := List.filter ef_valid fs.

Lemma stream_faithful H hs rounds h prev n : history_ok H -> Forall2 logged hs rounds -> follows h hs ->
  Forall (fun h => h `prefix_of` H) hs -> (forall p, prev = Some p -> (p < length h)%nat) ->
  faithful H prev (valid_frames (sar_events_serve rounds (cursor prev).1 (cursor prev).2 n)).
Proof using Hgen Hgen0.
  intros HH Hl. revert h prev n. induction Hl as [|h' r hs rounds Hlr Hl IH]; intros h prev n Hf Hpre Hp; [done|].
  destruct Hf as [Hh Hf]. apply Forall_cons in Hpre as [Hh' Hpre].
  assert (Hp' : forall p, prev = Some p -> (p < length h')%nat).
  { intros p Hep. specialize (Hp p Hep). apply prefix_length in Hh. lia. }
  cbn [sar_events_serve]. destruct (stop_set r); [done|].
  destruct (round_reply h' r prev (prefix_ok _ _ Hh' HH) Hlr Hp') as (m & -> & Hm).
  destruct (next_event h' prev) as [[i gap]|] eqn:En.
  - destruct Hm as (-> & Ef & Eg & Es). cbn [negb]. destruct (sent r); [|done].
    destruct (next_in _ _ _ _ En) as (Hi & Hgap & Hfirst). unfold valid_frames. cbn [List.filter].
    rewrite Ef. cbn [frame_of ef_valid faithful]. exists i, gap. rewrite Eg, Es.
    split; [apply prefix_length in Hh'; lia|]. split; [by rewrite (record_of_prefix h' H i Hh' Hi)|].
    split; [done|]. split; [done|]. apply (IH h' (Some i)); [done|done|]. by intros p [= <-].
  - rewrite Hm. cbn [negb]. unfold valid_frames.
    destruct (_ <=? _), (sent r); cbn [andb negb]; try done; rewrite List.filter_app; cbn [List.filter keep_alive ef_valid app];
      (destruct (stop_during_wait r); [done|]); by apply (IH h' prev).
Qed.

(** Rounds in which nothing stops the stream. *)
Definition undisturbed (r : events_round (P := driver_port (E := E))) : Prop :=
  stop_set r = false /\ sent r = true /\ stop_during_wait r = false.

(** With nothing new being logged a reader that has seen all kept events before
    index [i] gets the rest. *)
Lemma stream_rest H rounds prev n i : history_ok H -> Forall (logged H) rounds -> Forall undisturbed rounds ->
  (forall p, prev = Some p -> i = S p /\ (p < length H)%nat /\ (EventLog.first_kept H <= S p)%nat) ->
  (prev = None -> i = EventLog.first_kept H) ->
  valid_frames (sar_events_serve rounds (cursor prev).1 (cursor prev).2 n) =
    take (length rounds) (map (fun j => frame_of (EventLog.record_of gen H j) false) (seq i (length H - i))).
Proof using Hgen Hgen0.
  intros HH Hl Hu. revert prev n i. induction rounds as [|r rounds IH]; intros prev n i Hp Hn; [done|].
  apply Forall_cons in Hl as [Hlr Hl]. apply Forall_cons in Hu as [(U1 & U2 & U3) Hu].
  cbn [sar_events_serve]. rewrite U1.
  destruct (round_reply H r prev HH Hlr) as (m & -> & Hm); [intros p Ep; destruct (Hp p Ep) as (_ & ? & _); done|].
  assert (Hnext : next_event H prev = if (i <? length H)%nat then Some (i, false) else None).
  { unfold next_event. destruct prev as [p|].
    - destruct (Hp p eq_refl) as (-> & Hlt & Hk). destruct (Nat.leb_spec (length H) (S p)), (Nat.ltb_spec (S p) (length H)); try lia; [done|].
      rewrite Nat.max_l by lia. do 2 f_equal. apply Nat.ltb_ge. lia.
    - rewrite (Hn eq_refl). unfold EventLog.first_kept, EventLog.SAR_EVENTLOG_CAPACITY.
      destruct (Nat.eqb_spec (length H) 0), (Nat.ltb_spec (length H - 256) (length H)); try lia; done. }
  rewrite Hnext in Hm. destruct (Nat.ltb_spec i (length H)) as [Hi|Hi].
  - destruct Hm as (-> & Ef & Eg & Es). cbn [negb]. rewrite U2. unfold valid_frames. cbn [List.filter].
    rewrite Ef. cbn [frame_of ef_valid length]. rewrite Eg, Es.
    replace (length H - i)%nat with (S (length H - S i)) by lia. cbn [seq map take]. f_equal.
    apply (IH Hl Hu (Some i)); [|done]. intros p [= <-]. split; [done|]. split; [done|].
    destruct prev as [q|]; [destruct (Hp q eq_refl) as (-> & _ & Hq); lia|]. rewrite (Hn eq_refl). lia.
  - rewrite Hm. cbn [negb]. rewrite U2, U3. replace (length H - i)%nat with 0%nat in * by lia.
    cbn [seq map]. rewrite take_nil. unfold valid_frames.
    destruct (_ <=? _); cbn [andb negb]; rewrite List.filter_app; cbn [List.filter keep_alive ef_valid app];
      (rewrite (IH Hl Hu prev _ i Hp Hn)); replace (length H - i)%nat with 0%nat by lia; cbn [seq map]; by rewrite take_nil.
Qed.

(** Property C28: the stream of events is faithful and complete.  While the driver
    logs events between the polls, the frames a reader gets are events of the
    history at strictly growing positions, with all their data, and the gap flag is
    set exactly on a frame before which events were lost; and once nothing more is
    logged, as many polls as there are kept events deliver every one of them, in
    order and without a gap. *)
Theorem events_stream_faithful H hs rounds final :
  history_ok H -> Forall2 logged hs rounds -> follows [] hs -> Forall (fun h => h `prefix_of` H) hs ->
  Forall (logged H) final -> Forall undisturbed final ->
  (length H - EventLog.first_kept H <= length final)%nat ->
  faithful H None (valid_frames (sar_events_serve rounds 0 0 0)) /\
  valid_frames (sar_events_serve final 0 0 0) =
    map (fun j => frame_of (EventLog.record_of gen H j) false)
      (seq (EventLog.first_kept H) (length H - EventLog.first_kept H)).
Proof using Hgen Hgen0.
  intros HH Hl Hf Hpre Hfin Hu Hlen. split; [by apply (stream_faithful H hs rounds [] None)|].
  etransitivity; [by apply (stream_rest H final None 0 (EventLog.first_kept H))|].
  apply take_ge. by rewrite length_map, length_seq.
Qed.

End Stream.

(** ** A run *)

#[local] Existing Instance Comm.demo_services.

Definition demo_first : EventLog.event := {| EventLog.at_time := 5; EventLog.class := 1; EventLog.actor := 9 |}.
Definition demo_second : EventLog.event := {| EventLog.at_time := 6; EventLog.class := 5; EventLog.actor := 0 |}.

(** A round in which the driver has logged [h]. *)
Definition demo_round (h : list EventLog.event) : events_round (P := driver_port (E := unit)) :=
  {| stop_set := false;
     round_client := {| port := Some {| dp_comm := Service.demo_comm;
                          dp_driver := {| Comm.g_state := Comm.g_state Comm.demo_driver;
                                          Comm.g_eventlog := Some (EventLog.run EventLog.demo_log h);
                                          Comm.g_services := tt |} |};
                        mode := 0; captured_key_count := 0 |};
     sent := true; stop_during_wait := false |}.

Lemma demo_logged h : Z.of_nat (length h) + 2 < 2 ^ 64 -> logged 100 h (demo_round h).
Proof.
  intros Hn. eexists _, _, _. split; [reflexivity|]. split; [exact Service.demo_authenticated|]. split; [reflexivity|].
  destruct (EventLog.create_holds 100 EventLog.demo_log eq_refl) as (Hu & H0 & Hh).
  exact (EventLog.run_holds 100 EventLog.demo_log [] h Hh Hn).
Qed.

(** An event between two polls, and both at the end. *)
Lemma events_stream_faithful_witness :
  let fs := valid_frames (sar_events_serve (FilterPort0 := the_events_port 1 1)
              [demo_round [demo_first]; demo_round [demo_first; demo_second]] 0 0 0) in
  faithful 100 [demo_first; demo_second] None fs /\
  map ef_class (valid_frames (sar_events_serve (FilterPort0 := the_events_port 1 1)
     (replicate 2 (demo_round [demo_first; demo_second])) 0 0 0)) = [1; 5].
Proof.
  assert (Hl1 : logged 100 [demo_first] (demo_round [demo_first])) by (apply demo_logged; by vm_compute).
  assert (Hl2 : logged 100 [demo_first; demo_second] (demo_round [demo_first; demo_second]))
    by (apply demo_logged; by vm_compute).
  destruct (events_stream_faithful 1 1 100 ltac:(split; [discriminate|reflexivity]) ltac:(discriminate)
    [demo_first; demo_second] [[demo_first]; [demo_first; demo_second]]
    [demo_round [demo_first]; demo_round [demo_first; demo_second]]
    (replicate 2 (demo_round [demo_first; demo_second]))) as [H1 H2].
  - constructor; [|by vm_compute]. repeat constructor; by vm_compute.
  - repeat constructor; assumption.
  - cbn [follows]. split; [apply prefix_nil|]. split; [by exists [demo_second]|done].
  - repeat constructor; [by exists [demo_second]|done].
  - repeat constructor; exact Hl2.
  - repeat constructor.
  - apply Nat.leb_le. vm_compute. reflexivity.
  - cbv zeta. split; [exact H1|]. rewrite H2. vm_compute. reflexivity.
Defined.

End EventStream.
